(* ===== verification/_CoqProject ===== *)
-Q . S2P
Prelude.v
F64.v
FeeModel.v
Schema.v
PayoutDb.v
PayoutSpec.v
Domain.v
Sender.v
ZkasEngine.v
ZkasSafety.v
ZkasSends.v
ZkasConfirm.v
ZkasPlan.v
ZkasSpec.v
AccountDb.v
Allocation.v
WindowSpec.v
AllocationSpec.v
Vesting.v
IngestDb.v
SessionDb.v
ShareStats.v
BlockSpec.v
Consumer.v
ConsumerSpec.v
Replay.v
ReplaySpec.v
Maturity.v
MaturitySpec.v
ShieldedScan.v
ShieldedScanSpec.v
StorageMass.v
StorageMassSpec.v
ConsolidationSpec.v
KasEngine.v
KasLedger.v
KasSafety.v
KasSpec.v
Consolidate.v
Api.v
ApiHandlers.v
ApiSpec.v
ApiSafety.v
ApiPaging.v
Krc20Price.v
Krc20PriceSpec.v
TierKasplex.v
Krc20Plan.v
Krc20PlanSpec.v
Krc20Engine.v
Krc20Safety.v
Krc20Credit.v
Krc20Spec.v
Hasher.v
MiningState.v
Merged.v
AntiAbuse.v
StratumRpc.v
ShareGuard.v
StratumContext.v
ShareHandler.v
ShareSpec.v
ClientHandler.v
Handshake.v
ClientSpec.v
Utf8.v
Listener.v
ListenerSpec.v
NodeApi.v
NodeSpec.v
Config.v
ConfigSpec.v
Runtime.v
RuntimeSpec.v
BridgeConfig.v
Dashboard.v
DashboardSpec.v
Shutdown.v
ShutdownSpec.v
