(* ===== verification/Prelude.v ===== *)
(** * zkas-pool: a verification of the pool's stratum, accounting and payout core

    ** The program

    zkas-pool is a mining pool for the ZKas block DAG, merge-mined with Kaspa.  A
    stratum bridge hands jobs to miners, checks their submissions and emits
    events (credited and rejected shares, found and accepted blocks, sessions);
    the accountant writes them to Postgres, watches the chain for matured
    coinbase outputs, and distributes each of them over the shares of a DAA-score
    window; the payout engines turn the allocated balances into transactions.
    The parts meet only in the database and in the node's answers:

      miner <-> bridge (handshake, jobs, submissions) <-> node (templates, blocks)
      bridge -> event consumer -> wallet, worker, share, block rows
      node   -> maturity tracker -> coinbase rewards -> PROP allocation
             -> share allocations, rebates -> payout planning -> broadcast
             -> confirmation (node) -> settled payouts.

    ** The files

    - [Prelude]: results, machine integers with their widths written out, exact
      sums, sorting, the development's tactics and the hint database [kat].
    - [F64]: binary64 arithmetic on the Standard Library's executable IEEE-754
      specification.
    - [FeeModel]: [accountant/src/config.rs].
    - [Schema]: the tables and constraints of [crates/katpool-db/migrations],
      the repository monad [DB] (an error carries no database: a rollback), the
      errors of [katpool-db/src/error.rs], and the faults of a database call.
    - [PayoutDb], [PayoutSpec]: [repo/payout.rs], [repo/pool_meta.rs].
    - [Domain]: [crates/katpool-domain/src].
    - [Sender]: [payout-zkas/src/sender.rs].
    - [ZkasEngine]: [payout-zkas/src/{window,confirm,chain,plan,engine}.rs], the
      whole tick over a [World] (database, log of sends, call counter) and an
      [Env] (lock, faults, sender and node answers by call index).
      [ZkasSafety], [ZkasSends], [ZkasConfirm], [ZkasPlan] hold its invariants
      and [ZkasSpec] its guarantees over histories.
    - [AccountDb]: [repo/{coinbase_reward,share_window,share_allocation,
      nacho_rebate,audit}.rs].
    - [Allocation], [AllocationSpec]: [accountant/src/{window,tier,allocation}.rs];
      [WindowSpec] says whose rows a closed window holds, from the shares alone.
      [TierClassifier] is the interface the engine asks of a tier lookup.
    - [Vesting]: [accountant/src/{vesting,payout}.rs].
    - [IngestDb]: [repo/{wallet,worker,share,share_reject,block}.rs];
      [SessionDb]: [repo/connection_session.rs] and the standard library's IP
      address parser; [BlockSpec]: the block state machine.
    - [Consumer], [ConsumerSpec]: [accountant/src/consumer.rs], with the events of
      [katpool-domain/src/events.rs].
    - [Replay], [ReplaySpec]: [accountant/src/replay.rs]: event logs, snapshots and
      the dual replay, with each database's clock, sequences and scan order
      explicit; the abstract [Ledger] is what a stream means without ids and times.
    - [ShareStats]: the statistics queries of [repo/share_stats.rs].
    - [Maturity], [MaturitySpec]: [accountant/src/maturity.rs]; [KaspadClient] is
      the interface the tracker asks of a node, whose calls run in the monad [EM]
      and touch only what [KaspadFrame] allows.
    - [ShieldedScan], [ShieldedScanSpec]: [accountant/src/{kaspad_grpc,
      shielded_scan}.rs], the two implementations of [KaspadClient], over the
      interface [NodeRpc] to the node's calls.
    - [StorageMass]: [crates/katpool-storagemass/src]; [MassCalculator] is the
      interface it asks of the consensus mass calculator.  [StorageMassSpec] and
      [ConsolidationSpec] hold the theorems on its two planners.
    - [KasEngine]: [payout-kas/src/{window,confirm,signer,execute,cycle,plan,
      engine}.rs], over a [World] and the interface [KasEnv] (the node client of
      [client.rs], signing and transaction ids).  [KasLedger] is its abstract
      specification, [KasSafety] the simulation, [KasSpec] its guarantees.
    - [Consolidate]: [payout-kas/src/consolidate/engine.rs], [repo/treasury.rs]
      and the lock keys of [crates/katpool-idempotency/src/lock.rs].
    - [Api], [ApiHandlers]: [api/src], every handler from its parameters to its
      view; [ApiEnv] is the process around it, [JsonCache] the cache library, and
      [CacheLaws] what [ApiSafety] relies on.  Instants are microseconds.
      [ApiSpec] (amounts, pages), [ApiSafety] (answers, the cache) and [ApiPaging]
      (walks through the cache) hold the theorems.
    - [TierKasplex]: [accountant/src/tier_kasplex.rs], an instance of
      [TierClassifier] over the answers of the upstream service.
    - [Krc20Price], [Krc20PriceSpec]: [payout-krc20/src/{rebate,quote}.rs];
      [Krc20Plan], [Krc20PlanSpec]: [inscription.rs], [plan.rs], [sign.rs];
      [Krc20Engine]: [execute.rs], [cycle.rs], [engine.rs], with [Krc20Safety],
      [Krc20Credit] and [Krc20Spec] for its guarantees.
    - [Hasher], [MiningState], [Merged], [AntiAbuse], [StratumRpc]:
      [bridge/src/{hasher,mining_state,merged,anti_abuse,jsonrpc_event}.rs].
    - [ShareGuard]: the duplicate guard and the difficulty controller of
      [bridge/src/share_handler.rs]; [StratumContext]: [stratum_context.rs];
      [ShareHandler]: the rest of [share_handler.rs], a state-and-error monad
      [HM] over one connection and the shared handler, with the node, the clock
      and the proof of work in the interface [ShareEnv]; [ShareSpec]: what a
      submission can credit.
    - [ClientHandler]: [client_handler.rs] (client table, job delivery, the
      interface [JobEnv] for templates); [Handshake]: [default_client.rs], with
      the address codec in [AddressEnv]; [ClientSpec]: their theorems.
    - [Utf8]: the standard library's lossy UTF-8 decoding.  [Listener]:
      [stratum_listener.rs] and the handler map of [stratum_server.rs]: a read loop
      over any handler of lines, instantiated with the server's; [ListenerSpec].
    - [NodeApi]: [kaspaapi.rs], the two nodes behind the interface [NodeEnv];
      [NodeSpec]: its guarantees, under [NodeLaws] (the Kaspa node embeds the
      commitment it is given).
    - [Config]: what the settings are read from: the standard library's number and
      socket-address parsers, the helpers of [katpool/src/main.rs],
      [crates/katpool-config], [api/src/config.rs], [katpool-db/src/pool.rs], the
      environment of [bridge/src/anti_abuse.rs] and [crates/katpool-secrets]
      ([SecretEnv] is the file system and [mlock]).  [ConfigSpec]: their lemmas.
    - [Runtime]: [katpool/src/main.rs]: arguments, [RuntimeConfig::from_env], the
      start-up as a [Boot] computation that collects the spawned engines,
      [payout run-now] and [treasury audit].  [AddressCodec] is the address codec
      and [StepEnv] says how each connection attempt ends.  [RuntimeSpec]: its
      guarantees.
    - [Shutdown], [ShutdownSpec]: the consumer's loop against the clock, with the
      channel between bridge and consumer as the interface [Broadcast] (and its
      documented laws [BroadcastLaws]), the shutdown signal and the bounded drain.
    - [BridgeConfig]: [bridge/src/{app_config,cli}.rs], the server settings of
      [bridge/src/main.rs] and the set-up of [stratum_server.rs], with theorems.
    - [Dashboard], [DashboardSpec]: the web server of [bridge/src/prom.rs] as a
      function from a request and the configuration file to the file and the view
      served; [WebEnv] is its libraries and the disk, [WebLaws] says that a
      printed YAML document reads back.

    ** How code becomes definitions

    A repository function is the SQL statement of the source as a function on
    [Db], with the [CHECK]s, [UNIQUE] keys and (for the ingest tables) foreign
    keys it can violate; all id sequences are one counter, and [now()] is a field
    that only histories advance.  Integers keep their width: casts, saturation,
    checked and panicking arithmetic are written out, and the release profile's
    [overflow-checks] make an overflow a panic.  Engines are state passing with a
    result; a panic or a crash is an error after which nothing more happens.
    Every database call of an engine may fail before it takes effect or lose its
    acknowledgement after it did, as the environment decides at that call.

    Loops over finite lists are structural, and the environment answers by call
    index instead of by an oracle that could run out.  The three [while] loops of
    the storage-mass planner carry fuel: one turn per payable recipient and one
    more ([plan_loop]; every batch pays someone), one per coin and one more
    ([build_from]), and the width of the interval ([search_loop], which halves
    it).  Running out is [None], and [plan_batches_terminates] and
    [plan_consolidation_sound] show that it never happens.

    ** What the theorems show

    - Payout safety ([ZkasSpec]): in any history of ticks, crashes, ambiguous
      sends, other engines and operator repairs a row is sent again only after a
      send reported as a failure (and such a send may have moved money: the retry
      is [failed_send_is_retried]); what a tick may send; when a row may be
      confirmed.  [ZkasPlan]: what planning
      writes, that a healthy pass pays what is planned, and the exact meaning of
      the window, the scan, the classification and the cycle status.
    - Payout tables ([PayoutDb], [PayoutSpec]): confirmed rows are final, the
      KRC-20 confirmation fires once, insertion is idempotent, keys are
      injective, eligibility is exactly allocated minus confirmed.
    - Allocation ([AllocationSpec], [AccountDb], [FeeModel]): every reward is
      distributed to the last sompi at most once, in any interleaving of runs and
      faults, one row for each wallet with a share in the window; the split of each
      share is exact; the rebate ledger balances.
    - Tracker ([MaturitySpec], [BlockSpec]): only matured outputs above the floor
      become rewards and a healthy sweep records all of them; blocks move only
      along their lifecycle and are resolved by their colour.
    - Shielded scan ([ShieldedScanSpec]): a healthy sweep goes as far as the chain,
      the depth or the page limit allows and records every treasury output on the
      way; an output crossed by a failed sweep is lost until a reorg report.
    - Tiers ([TierKasplex]): the Elite tier needs evidence in the raw answers of the
      service, and an outage costs a bounded number of questions.
    - HTTP API ([ApiSpec], [ApiSafety]): amounts are printed exactly and can be read
      back, cached answers are answers of the database, a claim challenge is redeemed
      once; [ApiPaging]: walking a listing by its cursors, through the cache, meets
      every row once and ends.
    - Statistics ([ShareStats]): a series counts each share of its range once.
    - Ingest ([ConsumerSpec]): the rows written for any event stream are sound
      and never duplicate or invent a share; a valid share is recorded; the
      allocation engine can resolve every contributor.
    - Replay ([ReplaySpec]): the handlers refine the ledger of their events, so two
      replays agree wherever they run if no clock runs backwards.
    - Vesting ([Vesting]): splits and plans conserve value at every age.
    - Boundaries ([Domain], [Sender]): which texts are addresses, worker names
      and transaction ids, and what a send reports.
    - Planning ([StorageMassSpec], [ConsolidationSpec]): the planners terminate,
      lose no recipient, spend no coin twice, keep the mass, fee and dust limits,
      and the binary search finds what a linear scan finds.
    - KAS payouts ([KasSafety], [KasSpec]): a tick refines the payout ledger
      whatever fails during it, so no payout is broadcast twice; what a pass
      pays, from which coins, and within which cap.
    - Consolidation ([Consolidate]): what a tick may merge, and the hysteresis of
      its campaigns.
    - KRC-20 payouts ([Krc20Safety], [Krc20Credit], [Krc20Spec],
      [Krc20PlanSpec], [Krc20PriceSpec]): one commit and one reveal per payout,
      rebates credited once, sound commit/reveal pairs, exact price handling.
    - Jobs and work ([MiningState], [Hasher], [Merged]): the job ring is the list
      of the last 300 jobs, what miners hash determines the template, merged work
      commits to its block and is claimed once, the coinbase branch proves
      inclusion in a parent of any size.
    - Shares ([ShareGuard], [ShareSpec]): a submission credits at most one share
      and only for work that was done at the credited difficulty; the same
      submission is not credited twice while the guard remembers it.
    - Merged mining ([NodeSpec]): a lane's parent leads back to the lane's ZKas
      block and pays exactly the lane's payee, cached or not.
    - Connections ([ListenerSpec], [AntiAbuse], [ClientSpec], [StratumRpc]): lines
      do not depend on how the bytes arrive, the connection caps count exactly the
      connections whose task runs, in every interleaving of accepts, reads and ends,
      nonce prefixes do not repeat, the handshake keeps its message order, usernames
      resolve to a decodable address or the pool's.
    - Process ([RuntimeSpec]): funds move only when the environment asks for it, a
      configuration file only fills gaps and never reaches the payout settings,
      [payout run-now] is a short history of ticks, a daemon that starts is
      complete and its numbers are in their widths.
    - Shutdown ([ShutdownSpec]): the consumer's loop ends and accounts for every
      event that was sent; how soon after the signal it is over, and that it gives
      up only when the budget has passed; a backlog that fits the budget is drained.
    - Configuration ([ConfigSpec], [BridgeConfig]): a list of ports survives its
      variable, every listed port starts at its own difficulty, the bridge's
      servers have ports of their own, a loaded key is not zero.
    - Web server ([DashboardSpec]): only an allowed request writes the
      configuration file, and what it writes reads back as the updated
      configuration exactly when the first instance keeps a port of its own.
    - Places where the code does not do what its documentation says are stated as
      theorems too ([ZkasSpec], [AllocationSpec], [ConsumerSpec], [FeeModel],
      [Domain], [StorageMassSpec], [KasSpec], [Krc20Spec], [Krc20PlanSpec],
      [ShareSpec], [ClientSpec], [AntiAbuse], [NodeSpec], [ListenerSpec],
      [ShieldedScanSpec], [ApiSafety], [ApiPaging], [RuntimeSpec],
      [DashboardSpec], [ReplaySpec]): a payout near a window's end is paid again in the next one, a
      failed send is retried, a cycle can stay planned for ever, floored shares can
      exceed a reward beyond 2^53, the fee overflows at the supply cap,
      short addresses are accepted but their shares dropped, the planner never
      combines coins for a payout above the largest one, a reserved fee can break
      the mass limit of a batch and of a KRC-20 commit, planned change ends a broadcast pass, a KRC-20 spend cap
      lapses with its window and old credits starve new ones, one proof of work
      can be credited under many spellings and job ids, a share of a namesake is
      swallowed, a changed difficulty is announced before it applies, the first
      client stays in the table, reconnecting refills the frame bucket, a parent
      refresh in the fee minute pays the miner, a failed submission is lost, a
      character split over two reads is corrupted, the shielded scan's cursor moves
      before the rewards it crossed are recorded, a page cached below an id that did
      not exist yet hides rows from a walk, a balance ignores ZKas payouts,
      the check of a range admits two buckets too many, an empty port in the file
      aborts the start-up, a pool address from the file does not reach the public
      feed, a switch of the ZKas engine ignores words the others accept, the web
      server serves any file of the host, an update of the configuration that
      repeats a port loses all of it, and a clock set back makes replays differ.

    ** What is not modelled

    Logging, metrics and the timers of the periodic engines (the order of events and
    of failures is arbitrary in the histories instead); the Postgres driver, the
    node, the [shielded-pay] program, the HTTP answers of the tier service and the
    GeoIP database (parameters); the consensus mass calculator, the proof of work,
    the JSON parser, address codecs and signature schemes (parameters); sockets, RPC
    connections and notification streams, Prometheus metrics, the bridge's
    statistics page and printer, signals, the teardown of the process, the event
    recorder and telemetry, which are I/O; the YAML and TOML readers and the bridge's
    command-line library (parameters); the standalone bridge's in-process node and
    CPU miner; the HTTP API's routing, middleware, serialisation and
    concurrent requests. *)
From stdpp Require Export base list gmap strings.
From Stdlib Require Export ZArith Lia Bool Permutation Sorted.
Export ListNotations.

Declare Scope kat_scope.
Delimit Scope kat_scope with kat.
Open Scope kat_scope.
Open Scope Z_scope.

(** ** Results: Rust's [Result<T, E>] and the [?] operator *)

Inductive result (A E : Type) : Type :=
| Ok (a : A)
| Err (e : E).
Arguments Ok {A E} a.
Arguments Err {A E} e.

Definition rbind {A B E} (r : result A E) (k : A -> result B E) : result B E :=
  match r with
  | Ok a => k a
  | Err e => Err e
  end.

Definition map_err {A E F} (f : E -> F) (r : result A E) : result A F :=
  match r with
  | Ok a => Ok a
  | Err e => Err (f e)
  end.

Lemma map_err_ok {A E F} (f : E -> F) (r : result A E) a : map_err f r = Ok a -> r = Ok a.
Proof. destruct r; cbn; congruence. Qed.

Definition ok_or {A E} (o : option A) (e : E) : result A E :=
  match o with
  | Some a => Ok a
  | None => Err e
  end.

Definition is_ok {A E} (r : result A E) : bool :=
  match r with
  | Ok _ => true
  | Err _ => false
  end.

Notation "'let?' x := c 'in' k" := (rbind c (fun x => k))
  (at level 10, x pattern, c at level 100, k at level 200,
   format "'[v' 'let?'  x  :=  c  'in' '/' k ']'") : kat_scope.

Lemma rbind_ok {A B E} (r : result A E) (k : A -> result B E) b :
  rbind r k = Ok b <-> exists a, r = Ok a /\ k a = Ok b.
Proof. destruct r; simpl; split; [eauto| |congruence|]; intros (?&?&?); congruence. Qed.

(** ** Machine integers

    A Rust integer is a [Z]; the width is written out where the source relies
    on it.  The workspace builds with [overflow-checks = true] (Cargo.toml), so
    a plain [+], [-] or [*] that leaves its range panics; the models return
    [None] there. *)

Definition i64_min : Z := - 2 ^ 63.
Definition i64_max : Z := 2 ^ 63 - 1.
Definition u64_max : Z := 2 ^ 64 - 1.
Definition u32_max : Z := 2 ^ 32 - 1.
Definition i32_max : Z := 2 ^ 31 - 1.
Definition i16_max : Z := 2 ^ 15 - 1.

Definition in_i64 (z : Z) : Prop := i64_min <= z <= i64_max.
Definition in_u64 (z : Z) : Prop := 0 <= z <= u64_max.

Definition in_i64b (z : Z) : bool := (i64_min <=? z) && (z <=? i64_max).
Definition in_u64b (z : Z) : bool := (0 <=? z) && (z <=? u64_max).

(** [checked_mul] and friends on [i64] / [u64]. *)
Definition checked_i64 (z : Z) : option Z := if in_i64b z then Some z else None.
Definition checked_u64 (z : Z) : option Z := if in_u64b z then Some z else None.

(** [saturating_add] and friends. *)
Definition sat_i64 (z : Z) : Z := Z.max i64_min (Z.min i64_max z).
Definition sat_i32 (z : Z) : Z := Z.max (- 2 ^ 31) (Z.min i32_max z).
Definition sat_u64 (z : Z) : Z := Z.max 0 (Z.min u64_max z).

(** [x as i64] for [x : u64] and [x as u64] for [x : i64]: two's complement. *)
Definition as_i64 (z : Z) : Z := if z <=? i64_max then z else z - 2 ^ 64.
Definition as_u64 (z : Z) : Z := if 0 <=? z then z else z + 2 ^ 64.

(** [i64::try_from] of a [u64], [u64::try_from] of an [i64]. *)
Definition i64_try_from (z : Z) : option Z := checked_i64 z.
Definition u64_try_from (z : Z) : option Z := checked_u64 z.

Lemma in_i64b_spec z : in_i64b z = true <-> in_i64 z.
Proof. unfold in_i64b, in_i64. rewrite andb_true_iff, !Z.leb_le. tauto. Qed.

Lemma in_u64b_spec z : in_u64b z = true <-> in_u64 z.
Proof. unfold in_u64b, in_u64. rewrite andb_true_iff, !Z.leb_le. tauto. Qed.

Lemma checked_i64_Some z v : checked_i64 z = Some v <-> z = v /\ in_i64 z.
Proof.
  unfold checked_i64. destruct (in_i64b z) eqn:E.
  - apply in_i64b_spec in E. split; [intros [= ->]; auto | intros [-> _]; auto].
  - split; [discriminate|]. intros [_ H]. apply in_i64b_spec in H. congruence.
Qed.

Lemma checked_u64_Some z v : checked_u64 z = Some v <-> z = v /\ in_u64 z.
Proof.
  unfold checked_u64. destruct (in_u64b z) eqn:E.
  - apply in_u64b_spec in E. split; [intros [= ->]; auto | intros [-> _]; auto].
  - split; [discriminate|]. intros [_ H]. apply in_u64b_spec in H. congruence.
Qed.

Lemma sat_i64_id z : in_i64 z -> sat_i64 z = z.
Proof. unfold sat_i64, in_i64. lia. Qed.

Lemma sat_u64_id z : in_u64 z -> sat_u64 z = z.
Proof. unfold sat_u64, in_u64. lia. Qed.

Lemma as_i64_id z : 0 <= z <= i64_max -> as_i64 z = z.
Proof. intros. unfold as_i64. destruct (Z.leb_spec z i64_max); lia. Qed.

Lemma as_u64_as_i64 z : in_u64 z -> as_u64 (as_i64 z) = z.
Proof.
  unfold in_u64, as_i64, as_u64, u64_max, i64_max. intros H.
  destruct (Z.leb_spec z (2 ^ 63 - 1)) as [L|L];
    [destruct (Z.leb_spec 0 z) | destruct (Z.leb_spec 0 (z - 2 ^ 64))]; lia.
Qed.

(** ** Sums *)

Fixpoint sumZ (l : list Z) : Z :=
  match l with
  | [] => 0
  | x :: l => x + sumZ l
  end.

(** [iter().sum::<u64>()]: a left fold that panics on overflow. *)
Fixpoint sum_u64_from (acc : Z) (l : list Z) : option Z :=
  match l with
  | [] => Some acc
  | x :: l =>
      match checked_u64 (acc + x) with
      | Some acc => sum_u64_from acc l
      | None => None
      end
  end.
Definition sum_u64 (l : list Z) : option Z := sum_u64_from 0 l.

(** [iter().sum::<i64>()]. *)
Fixpoint sum_i64_from (acc : Z) (l : list Z) : option Z :=
  match l with
  | [] => Some acc
  | x :: l =>
      match checked_i64 (acc + x) with
      | Some acc => sum_i64_from acc l
      | None => None
      end
  end.
Definition sum_i64 (l : list Z) : option Z := sum_i64_from 0 l.

Lemma sumZ_app l1 l2 : sumZ (l1 ++ l2) = sumZ l1 + sumZ l2.
Proof. induction l1; simpl; lia. Qed.

Lemma sumZ_Permutation l1 l2 : Permutation l1 l2 -> sumZ l1 = sumZ l2.
Proof. induction 1; simpl; lia. Qed.

Lemma sumZ_nonneg l : Forall (fun x => 0 <= x) l -> 0 <= sumZ l.
Proof. induction 1; simpl; lia. Qed.

Lemma sumZ_map_ext {A} (f g : A -> Z) l :
  (forall x, In x l -> f x = g x) -> sumZ (map f l) = sumZ (map g l).
Proof. induction l as [|a l IH]; simpl; intros H; [done|]. rewrite (H a), IH; auto. Qed.

Lemma sumZ_map_add {A} (f g : A -> Z) l :
  sumZ (map (fun x => f x + g x) l) = sumZ (map f l) + sumZ (map g l).
Proof. induction l; simpl; lia. Qed.

Lemma sumZ_le {A} (f g : A -> Z) l :
  (forall x, In x l -> f x <= g x) -> sumZ (map f l) <= sumZ (map g l).
Proof.
  induction l as [|a l IH]; simpl; intros H; [lia|].
  assert (f a <= g a) by auto. assert (sumZ (map f l) <= sumZ (map g l)) by auto. lia.
Qed.

Lemma sumZ_filter_le {A} (f : A -> Z) (p : A -> bool) l :
  (forall x, In x l -> 0 <= f x) -> sumZ (map f (List.filter p l)) <= sumZ (map f l).
Proof.
  induction l as [|a l IH]; simpl; intros H; [lia|].
  assert (0 <= f a) by auto. specialize (IH (fun x Hx => H x (or_intror Hx))).
  destruct (p a); simpl; lia.
Qed.

Lemma sum_u64_from_Some acc l v : sum_u64_from acc l = Some v -> v = acc + sumZ l.
Proof.
  revert acc. induction l as [|x l IH]; simpl; intros acc.
  - intros [= ->]. lia.
  - destruct (checked_u64 (acc + x)) as [a|] eqn:E; [|discriminate].
    apply checked_u64_Some in E as [<- _]. intros H%IH. lia.
Qed.

Lemma sum_u64_Some l v : sum_u64 l = Some v -> v = sumZ l.
Proof. intros H%sum_u64_from_Some. lia. Qed.

Lemma sum_i64_from_Some acc l v : sum_i64_from acc l = Some v -> v = acc + sumZ l.
Proof.
  revert acc. induction l as [|x l IH]; simpl; intros acc.
  - intros [= ->]. lia.
  - destruct (checked_i64 (acc + x)) as [a|] eqn:E; [|discriminate].
    apply checked_i64_Some in E as [<- _]. intros H%IH. lia.
Qed.

Lemma sum_i64_Some l v : sum_i64 l = Some v -> v = sumZ l.
Proof. intros H%sum_i64_from_Some. lia. Qed.

Lemma sum_i64_range l v : sum_i64 l = Some v -> in_i64 v.
Proof.
  unfold sum_i64. assert (in_i64 0) as H by (unfold in_i64, i64_min, i64_max; lia).
  revert H. generalize 0. induction l as [|x l IH]; simpl; intros acc Ha E; [congruence|].
  unfold checked_i64 in E. destruct (in_i64b (acc + x)) eqn:B; [|discriminate].
  apply (IH (acc + x)); [now apply in_i64b_spec|exact E].
Qed.

Lemma sumZ_elem_le l x : Forall (fun y => 0 <= y) l -> In x l -> x <= sumZ l.
Proof.
  induction 1 as [|y l Hy Hl IH]; simpl; [done|]. pose proof (sumZ_nonneg l Hl).
  intros [->|Hx]; [lia|]. specialize (IH Hx). lia.
Qed.

Lemma sum_u64_from_total acc l :
  0 <= acc -> Forall (fun x => 0 <= x) l -> acc + sumZ l <= u64_max ->
  sum_u64_from acc l = Some (acc + sumZ l).
Proof.
  intros Ha Hl. revert acc Ha. induction Hl as [|x l Hx Hl IH]; simpl; intros acc Ha Hm.
  - f_equal. lia.
  - pose proof (sumZ_nonneg l Hl).
    assert (checked_u64 (acc + x) = Some (acc + x)) as ->
      by (apply checked_u64_Some; unfold in_u64; lia).
    rewrite IH by lia. f_equal. lia.
Qed.

Lemma sum_u64_total l :
  Forall (fun x => 0 <= x) l -> sumZ l <= u64_max -> sum_u64 l = Some (sumZ l).
Proof. intros Hl Hm. unfold sum_u64. now rewrite sum_u64_from_total by (auto; lia). Qed.

(** ** Stable sorting

    Rust's [sort_by] / [sort_by_key] are stable, and so is insertion sort with
    a non-strict comparison.  SQL's [ORDER BY] with a unique last key has one
    answer, which this is too. *)

Section Sort.
Context {A : Type} (le : A -> A -> bool).

Fixpoint insert_sorted (x : A) (l : list A) : list A :=
  match l with
  | [] => [x]
  | y :: l' => if le x y then x :: l else y :: insert_sorted x l'
  end.

Fixpoint sort_by (l : list A) : list A :=
  match l with
  | [] => []
  | x :: l => insert_sorted x (sort_by l)
  end.

Lemma insert_sorted_perm x l : Permutation (x :: l) (insert_sorted x l).
Proof.
  induction l as [|y l IH]; simpl; [done|]. destruct (le x y); [done|].
  etransitivity; [apply perm_swap|]. now apply perm_skip.
Qed.

Lemma sort_by_perm l : Permutation l (sort_by l).
Proof.
  induction l as [|x l IH]; simpl; [done|].
  etransitivity; [apply perm_skip, IH | apply insert_sorted_perm].
Qed.

Hypothesis le_total : forall x y, le x y = true \/ le y x = true.
Hypothesis le_trans : forall x y z, le x y = true -> le y z = true -> le x z = true.

Lemma insert_sorted_sorted x l :
  StronglySorted (fun a b => le a b = true) l ->
  StronglySorted (fun a b => le a b = true) (insert_sorted x l).
Proof.
  induction 1 as [|y l Hl IH Hy]; simpl; [repeat constructor|].
  destruct (le x y) eqn:E.
  - constructor; [now constructor|]. constructor; [done|].
    eapply Forall_impl; [exact Hy|]. intros z Hz. exact (le_trans _ _ _ E Hz).
  - constructor; [done|]. apply Forall_forall. intros z Hz.
    apply list_elem_of_In in Hz.
    apply (Permutation_in _ (Permutation_sym (insert_sorted_perm x l))) in Hz.
    destruct Hz as [<-|Hz]; [destruct (le_total x y); congruence|].
    rewrite Forall_forall in Hy. apply Hy. now apply list_elem_of_In.
Qed.

Lemma sort_by_sorted l : StronglySorted (fun a b => le a b = true) (sort_by l).
Proof. induction l; simpl; [constructor | now apply insert_sorted_sorted]. Qed.
End Sort.

Lemma sort_by_In {A} (le : A -> A -> bool) l x : In x (sort_by le l) <-> In x l.
Proof.
  split; apply Permutation_in; [symmetry|]; apply sort_by_perm.
Qed.

Lemma sort_by_length {A} (le : A -> A -> bool) l : length (sort_by le l) = length l.
Proof. symmetry. apply Permutation_length, sort_by_perm. Qed.

Lemma sort_by_NoDup_map {A B} (le : A -> A -> bool) (f : A -> B) l :
  List.NoDup (map f l) -> List.NoDup (map f (sort_by le l)).
Proof. apply Permutation_NoDup, Permutation_map, sort_by_perm. Qed.

(** ** Lists of records *)

Lemma NoDup_map_filter {A B} (f : A -> B) (p : A -> bool) l :
  List.NoDup (map f l) -> List.NoDup (map f (List.filter p l)).
Proof.
  induction l as [|a l IH]; simpl; [done|]. inversion 1; subst.
  destruct (p a); simpl; auto. constructor; auto.
  intros Hin. apply in_map_iff in Hin as (b & Hb & Hin).
  apply filter_In in Hin as [Hin _]. apply H2. apply in_map_iff. eauto.
Qed.

Lemma filter_nil {A} (f : A -> bool) l : (forall x, In x l -> f x = false) -> List.filter f l = [].
Proof. induction l as [|a l IH]; simpl; intros H; [done|]. rewrite (H a); auto. Qed.

Lemma NoDup_map_app_filter {A B} (f : A -> B) (p : A -> bool) l1 l2 :
  List.NoDup (map f (l1 ++ l2)) -> List.NoDup (map f (l1 ++ List.filter p l2)).
Proof.
  induction l1 as [|a l1 IH]; simpl; [apply NoDup_map_filter|]. inversion_clear 1 as [|? ? Hn Hl].
  constructor; auto. rewrite map_app, in_app_iff in *. intros [?|(x & E & [Hx _]%filter_In)%in_map_iff];
    [tauto|]. apply Hn. right. rewrite <- E. now apply in_map.
Qed.

Lemma NoDup_map_inj {A B} (f : A -> B) l x y :
  List.NoDup (map f l) -> In x l -> In y l -> f x = f y -> x = y.
Proof.
  induction l as [|a l IH]; simpl; [done|]. inversion 1; subst.
  intros [->|Hx] [->|Hy] E; auto; exfalso; apply H2; apply in_map_iff; eauto.
Qed.

Lemma map_id_update {A B} (f : A -> B) (u : A -> A) l :
  (forall x, f (u x) = f x) -> map f (map u l) = map f l.
Proof. intros H. rewrite map_map. apply map_ext. auto. Qed.

Lemma In_firstn {A} n (l : list A) x : In x (firstn n l) -> In x l.
Proof.
  revert n. induction l as [|a l IH]; intros [|n]; simpl; try tauto.
  intros [->|H]; eauto.
Qed.

Lemma NoDup_app_snoc {A} (l : list A) x :
  List.NoDup l -> ~ In x l -> List.NoDup (l ++ [x]).
Proof.
  intros H Hx. apply (Permutation_NoDup (Permutation_cons_append l x)).
  now constructor.
Qed.

Lemma NoDup_map_firstn {A B} (f : A -> B) n l :
  List.NoDup (map f l) -> List.NoDup (map f (firstn n l)).
Proof.
  intros H. rewrite <- (firstn_skipn n l), map_app in H.
  now apply List.NoDup_app_remove_r in H.
Qed.

Lemma In_omap {A B} (f : A -> option B) l y :
  In y (omap f l) <-> exists x, In x l /\ f x = Some y.
Proof.
  rewrite <- list_elem_of_In, list_elem_of_omap.
  setoid_rewrite list_elem_of_In. done.
Qed.

Lemma NoDup_map_omap {A B C} (f : A -> option B) (g : B -> C) (h : A -> C) l :
  (forall x y, f x = Some y -> g y = h x) ->
  List.NoDup (map h l) -> List.NoDup (map g (omap f l)).
Proof.
  intros E. induction l as [|a l IH]; simpl; [done|]. inversion 1 as [|? ? Hn Hl]; subst.
  destruct (f a) as [b|] eqn:F; simpl; auto. constructor; auto.
  rewrite (E _ _ F). intros (y & Hy & Hin)%in_map_iff. apply In_omap in Hin as (x & Hx & Fx).
  apply Hn. apply in_map_iff. exists x. split; [|done]. rewrite <- (E _ _ Fx). done.
Qed.

Lemma sumZ_firstn_le {A} (f : A -> Z) n l :
  (forall x, In x l -> 0 <= f x) -> sumZ (map f (firstn n l)) <= sumZ (map f l).
Proof.
  intros H. rewrite <- (firstn_skipn n l) at 2. rewrite map_app, sumZ_app.
  assert (0 <= sumZ (map f (skipn n l))); [|lia].
  apply sumZ_nonneg, List.Forall_forall. intros z (x & <- & Hx)%in_map_iff.
  apply H. rewrite <- (firstn_skipn n l). apply in_app_iff. auto.
Qed.

(** ** Automation *)

Create HintDb kat.
#[export] Hint Resolve sort_by_NoDup_map NoDup_map_filter NoDup_map_firstn NoDup_app_snoc
  sumZ_nonneg sat_i64_id sat_u64_id : kat.

(** Case-split the innermost [match] or [if] scrutinee, keeping an equation. *)
Ltac break_match :=
  match goal with
  | |- context [match ?x with _ => _ end] =>
      lazymatch x with
      | context [match _ with _ => _ end] => fail
      | _ => destruct x eqn:?
      end
  end.

Ltac break_match_in H :=
  match type of H with
  | context [match ?x with _ => _ end] =>
      lazymatch x with
      | context [match _ with _ => _ end] => fail
      | _ => destruct x eqn:?
      end
  end.

(** Turn boolean comparisons in the context into propositions. *)
Ltac to_prop :=
  repeat match goal with
  | H : _ && _ = true |- _ => apply andb_true_iff in H as [? ?]
  | H : _ && _ = false |- _ => apply andb_false_iff in H
  | H : _ || _ = true |- _ => apply orb_true_iff in H
  | H : _ || _ = false |- _ => apply orb_false_iff in H as [? ?]
  | H : negb _ = true |- _ => apply negb_true_iff in H
  | H : negb _ = false |- _ => apply negb_false_iff in H
  | H : (_ <? _) = true |- _ => apply Z.ltb_lt in H
  | H : (_ <? _) = false |- _ => apply Z.ltb_ge in H
  | H : (_ <=? _) = true |- _ => apply Z.leb_le in H
  | H : (_ <=? _) = false |- _ => apply Z.leb_gt in H
  | H : (_ =? _) = true |- _ => apply Z.eqb_eq in H
  | H : (_ =? _) = false |- _ => apply Z.eqb_neq in H
  | H : (_ <? _)%nat = true |- _ => apply Nat.ltb_lt in H
  | H : (_ <? _)%nat = false |- _ => apply Nat.ltb_ge in H
  | H : (_ <=? _)%nat = true |- _ => apply Nat.leb_le in H
  | H : (_ <=? _)%nat = false |- _ => apply Nat.leb_gt in H
  | H : (_ =? _)%nat = true |- _ => apply Nat.eqb_eq in H
  | H : (_ =? _)%nat = false |- _ => apply Nat.eqb_neq in H
  end.

(** Invert equations between constructors of [result], [option] and pairs. *)
Ltac inv_eqs :=
  repeat match goal with
  | H : Ok _ = Ok _ |- _ => injection H as H; subst
  | H : Err _ = Err _ |- _ => injection H as H; subst
  | H : Some _ = Some _ |- _ => injection H as H; subst
  | H : (_, _) = (_, _) |- _ => injection H as ? ?; subst
  | H : Ok _ = Err _ |- _ => discriminate H
  | H : Err _ = Ok _ |- _ => discriminate H
  | H : Some _ = None |- _ => discriminate H
  | H : None = Some _ |- _ => discriminate H
  end.
