(* ===== verification/F64.v ===== *)
(** * Binary64 arithmetic

    Rust's [f64] as the Standard Library's executable IEEE-754 specification
    ([SpecFloat], 53-bit mantissa, [emax = 1024], round to nearest even), with
    the conversions and roundings the pool uses: [as f64], [floor], [ceil] and
    saturating [as i64] / [as u64]. *)
From Stdlib Require Import SpecFloat.
From S2P Require Import Prelude.

Abbreviation f64 := spec_float.

Definition f64_add : f64 -> f64 -> f64 := SFadd 53 1024.
Definition f64_mul : f64 -> f64 -> f64 := SFmul 53 1024.
Definition f64_div : f64 -> f64 -> f64 := SFdiv 53 1024.
Definition f64_eqb : f64 -> f64 -> bool := SFeqb.
Definition f64_ltb : f64 -> f64 -> bool := SFltb.
Definition f64_leb : f64 -> f64 -> bool := SFleb.
Definition f64_zero : f64 := S754_zero false.

(** [z as f64]. *)
Definition f64_of_Z (z : Z) : f64 := binary_normalize 53 1024 z 0 false.

Definition f64_is_finite (x : f64) : bool :=
  match x with
  | S754_zero _ | S754_finite _ _ _ => true
  | S754_infinity _ | S754_nan => false
  end.

Definition signed_mantissa (s : bool) (m : positive) : Z :=
  if s then Zneg m else Zpos m.

(** The integer part, rounding down, of a finite value. *)
Definition floor_Z (s : bool) (m : positive) (e : Z) : Z :=
  if 0 <=? e then signed_mantissa s m * 2 ^ e
  else signed_mantissa s m / 2 ^ (- e).

(** The integer part, rounding towards zero. *)
Definition trunc_Z (s : bool) (m : positive) (e : Z) : Z :=
  if 0 <=? e then signed_mantissa s m * 2 ^ e
  else Z.quot (signed_mantissa s m) (2 ^ (- e)).

(** [f64::floor]: a value with a non-negative exponent is already an integer. *)
Definition f64_floor (x : f64) : f64 :=
  match x with
  | S754_finite s m e => if 0 <=? e then x else f64_of_Z (floor_Z s m e)
  | _ => x
  end.

(** [f64::ceil]. *)
Definition f64_ceil (x : f64) : f64 :=
  match x with
  | S754_finite s m e => if 0 <=? e then x else f64_of_Z (- floor_Z (negb s) m e)
  | _ => x
  end.

(** [x as i64]: truncates, saturates, and maps NaN to 0. *)
Definition f64_as_i64 (x : f64) : Z :=
  match x with
  | S754_zero _ | S754_nan => 0
  | S754_infinity s => if s then i64_min else i64_max
  | S754_finite s m e => sat_i64 (trunc_Z s m e)
  end.

(** [x as u64]. *)
Definition f64_as_u64 (x : f64) : Z :=
  match x with
  | S754_zero _ | S754_nan => 0
  | S754_infinity s => if s then 0 else u64_max
  | S754_finite s m e => sat_u64 (trunc_Z s m e)
  end.

(** [f64::min]: ignores a NaN operand. *)
Definition f64_min (x y : f64) : f64 :=
  match x, y with
  | S754_nan, _ => y
  | _, S754_nan => x
  | _, _ => if f64_ltb y x then y else x
  end.

Definition f64_sub : f64 -> f64 -> f64 := SFsub 53 1024.
Definition f64_sqrt : f64 -> f64 := SFsqrt 53 1024.
Definition f64_abs : f64 -> f64 := SFabs.

(** [f64::max]: ignores a NaN operand. *)
Definition f64_max (x y : f64) : f64 :=
  match x, y with
  | S754_nan, _ => y
  | _, S754_nan => x
  | _, _ => if f64_ltb x y then y else x
  end.

(** [f64::clamp] for proper bounds: a NaN stays. *)
Definition f64_clamp (x lo hi : f64) : f64 :=
  if f64_ltb x lo then lo else if f64_ltb hi x then hi else x.

(** [f64::MAX] and [f64::EPSILON]. *)
Definition f64_MAX : f64 := S754_finite false (2 ^ 53 - 1) 971.
Definition f64_EPSILON : f64 := S754_finite false (2 ^ 52) (-104).

(** [Duration::as_secs_f64] of a number of nanoseconds. *)
Definition as_secs_f64 (ns : Z) : f64 :=
  f64_add (f64_of_Z (ns / 1000000000)) (f64_div (f64_of_Z (ns mod 1000000000)) (f64_of_Z 1000000000)).

(** [iter().sum::<f64>()] starts from negative zero and adds left to right. *)
Definition f64_sum (l : list f64) : f64 := fold_left f64_add l (S754_zero true).

Lemma f64_as_i64_pos_nonneg x : f64_leb x f64_zero = false -> 0 <= f64_as_i64 x.
Proof.
  destruct x as [s|[]| |[] m e]; simpl; unfold f64_leb, SFleb; simpl;
    try discriminate; intros _; unfold i64_max; try lia.
  unfold sat_i64, trunc_Z, i64_min, i64_max, signed_mantissa.
  destruct (Z.leb_spec 0 e).
  - pose proof (Z.pow_pos_nonneg 2 e). nia.
  - pose proof (Z.quot_pos (Zpos m) (2 ^ (- e))). pose proof (Z.pow_pos_nonneg 2 (- e)). lia.
Qed.

Lemma f64_as_u64_bounds x : in_u64 (f64_as_u64 x).
Proof.
  unfold in_u64. destruct x as [|[]| |]; simpl; unfold sat_u64, u64_max; lia.
Qed.
