(* ===== verification/FeeModel.v ===== *)
(** * The fee model ([accountant/src/config.rs])

    Basis-point fee configuration, its loading from the environment, and the
    per-wallet allocation arithmetic in integer sompi. *)
From S2P Require Import Prelude.
From Stdlib Require Import Ascii String.

(** ** Data *)

Definition MAX_TOPLINE_BPS : Z := 1000.
Definition STANDARD_REBATE_BPS : Z := 0.
Definition ELITE_REBATE_BPS : Z := 0.
Definition DEFAULT_TOPLINE_BPS : Z := 75.

Inductive WalletTier := Standard | Elite.

#[export] Instance WalletTier_eq_dec : EqDecision WalletTier.
Proof. solve_decision. Defined.

Record FeeConfig := mkFeeConfig { topline_bps : Z }.

Record Allocation := mkAllocation {
  gross_sompi : Z;
  pool_fee_sompi : Z;
  nacho_accrual_sompi : Z;
  net_payout_sompi : Z;
  applied_topline_bps : Z;
  applied_rebate_bps : Z;
  applied_tier : WalletTier
}.

Inductive AllocationError :=
| NegativeGross (gross : Z)
| Overflow (stage : string)
| Unbalanced (a : Allocation).

(** [std::env::VarError]. *)
Inductive VarError := NotPresent | NotUnicode.

(** [AccountantError::Config], by the branch that built the message. *)
Inductive ConfigError :=
| CfgNotUtf8 (var : string)
| CfgNotU16 (var raw : string)
| CfgTooLarge (var : string) (bps : Z).

(** ** Operations *)

Definition FeeConfig_new (bps : Z) : result FeeConfig string :=
  if MAX_TOPLINE_BPS <? bps then Err "topline_bps exceeds MAX_TOPLINE_BPS"%string
  else Ok (mkFeeConfig bps).

Definition digit_value (c : ascii) : option Z :=
  let n := Z.of_nat (nat_of_ascii c) in
  if (48 <=? n) && (n <=? 57) then Some (n - 48) else None.

Fixpoint parse_digits (acc : Z) (s : string) : option Z :=
  match s with
  | EmptyString => Some acc
  | String c s =>
      match digit_value c with
      | Some d =>
          let acc := acc * 10 + d in
          if acc <=? 65535 then parse_digits acc s else None
      | None => None
      end
  end.

(** [str::parse::<u16>]: one optional [+], at least one digit, no overflow. *)
Definition parse_u16 (s : string) : option Z :=
  match s with
  | EmptyString => None
  | String c rest =>
      if Ascii.eqb c "+"%char then
        match rest with
        | EmptyString => None
        | _ => parse_digits 0 rest
        end
      else parse_digits 0 s
  end.

Definition parse_bps (var raw : string) : result Z ConfigError :=
  ok_or (parse_u16 raw) (CfgNotU16 var raw).

Definition from_lookup (var : string) (lookup : string -> result string VarError)
  : result FeeConfig ConfigError :=
  let? bps :=
    match lookup var with
    | Ok s => parse_bps var s
    | Err NotPresent => Ok DEFAULT_TOPLINE_BPS
    | Err NotUnicode => Err (CfgNotUtf8 var)
    end in
  map_err (fun _ => CfgTooLarge var bps) (FeeConfig_new bps).

Definition rebate_bps (tier : WalletTier) : Z :=
  match tier with
  | Standard => STANDARD_REBATE_BPS
  | Elite => ELITE_REBATE_BPS
  end.

Definition WalletTier_as_str (t : WalletTier) : string :=
  match t with
  | Standard => "standard"%string
  | Elite => "elite"%string
  end.

Definition is_balanced (a : Allocation) : bool :=
  gross_sompi a =? pool_fee_sompi a + nacho_accrual_sompi a + net_payout_sompi a.

(** [compute_allocation], generic in the rebate ratio so that the arithmetic is
    stated for any ratio the constants could be set to. *)
Definition compute_allocation_at (topline rebate : Z) (gross : Z) (tier : WalletTier)
  : result Allocation AllocationError :=
  if gross <? 0 then Err (NegativeGross gross) else
  let? scaled := ok_or (checked_i64 (gross * topline)) (Overflow "fee_share") in
  let fee_share := Z.quot scaled 10000 in
  let? scaled' := ok_or (checked_i64 (fee_share * rebate)) (Overflow "nacho_accrual") in
  let nacho := Z.quot scaled' 10000 in
  let a := mkAllocation gross (fee_share - nacho) nacho (gross - fee_share)
                        topline rebate tier in
  if is_balanced a then Ok a else Err (Unbalanced a).

Definition compute_allocation (cfg : FeeConfig) (gross : Z) (tier : WalletTier)
  : result Allocation AllocationError :=
  compute_allocation_at (topline_bps cfg) (rebate_bps tier) gross tier.

(** ** What a loaded configuration satisfies *)

Definition fee_config_ok (cfg : FeeConfig) : Prop :=
  0 <= topline_bps cfg <= MAX_TOPLINE_BPS.

Lemma parse_digits_nonneg acc s v : 0 <= acc -> parse_digits acc s = Some v -> 0 <= v.
Proof.
  revert acc. induction s as [|c s IH]; simpl; intros acc Ha; [intros [= <-]; done|].
  unfold digit_value.
  destruct ((48 <=? Z.of_nat (nat_of_ascii c)) && (Z.of_nat (nat_of_ascii c) <=? 57)) eqn:E;
    [|discriminate].
  to_prop. destruct (_ <=? 65535); [|discriminate]. apply IH. lia.
Qed.

Lemma parse_u16_nonneg s v : parse_u16 s = Some v -> 0 <= v.
Proof.
  unfold parse_u16. destruct s as [|c s]; [discriminate|].
  destruct (Ascii.eqb c "+"); [destruct s; [discriminate|]|];
    apply parse_digits_nonneg; lia.
Qed.

Lemma FeeConfig_new_ok bps cfg :
  0 <= bps -> FeeConfig_new bps = Ok cfg -> fee_config_ok cfg.
Proof.
  unfold FeeConfig_new, fee_config_ok. intros Hb.
  destruct (Z.ltb_spec MAX_TOPLINE_BPS bps); intros; inv_eqs; simpl; lia.
Qed.

(** ** The allocation arithmetic *)

(** The closed form of the four amounts. *)
Definition fee_share_of (topline gross : Z) : Z := gross * topline / 10000.
Definition nacho_of (topline rebate gross : Z) : Z :=
  fee_share_of topline gross * rebate / 10000.

Lemma fee_share_bounds topline gross :
  0 <= topline <= 10000 -> 0 <= gross -> 0 <= fee_share_of topline gross <= gross.
Proof.
  intros. unfold fee_share_of. split; [apply Z.div_pos; nia|].
  apply Z.div_le_upper_bound; nia.
Qed.

Lemma compute_allocation_at_spec topline rebate gross tier :
  0 <= topline <= 10000 -> 0 <= rebate <= 10000 -> 0 <= gross ->
  gross * topline <= i64_max -> fee_share_of topline gross * rebate <= i64_max ->
  compute_allocation_at topline rebate gross tier =
  Ok (mkAllocation gross (fee_share_of topline gross - nacho_of topline rebate gross)
        (nacho_of topline rebate gross) (gross - fee_share_of topline gross)
        topline rebate tier).
Proof.
  intros Ht Hr Hg H1 H2. unfold compute_allocation_at.
  destruct (Z.ltb_spec gross 0); [lia|].
  pose proof (fee_share_bounds topline gross Ht Hg) as Hf.
  assert (checked_i64 (gross * topline) = Some (gross * topline)) as ->.
  { apply checked_i64_Some. unfold in_i64, i64_min. nia. }
  simpl. rewrite Z.quot_div_nonneg by nia.
  change (gross * topline / 10000) with (fee_share_of topline gross).
  assert (checked_i64 (fee_share_of topline gross * rebate)
          = Some (fee_share_of topline gross * rebate)) as ->.
  { apply checked_i64_Some. unfold in_i64, i64_min. nia. }
  simpl. rewrite Z.quot_div_nonneg by nia.
  change (fee_share_of topline gross * rebate / 10000) with (nacho_of topline rebate gross).
  unfold is_balanced. simpl.
  destruct (Z.eqb_spec gross
    (fee_share_of topline gross - nacho_of topline rebate gross + nacho_of topline rebate gross
     + (gross - fee_share_of topline gross))); [done|lia].
Qed.

(** Whatever the configuration, a successful computation keeps the balance
    equation and the gross. *)
Lemma compute_allocation_balanced cfg gross tier a :
  compute_allocation cfg gross tier = Ok a ->
  gross_sompi a = gross /\ is_balanced a = true.
Proof.
  unfold compute_allocation, compute_allocation_at.
  destruct (gross <? 0); [discriminate|].
  intros (s1 & _ & (s2 & _ & H)%rbind_ok)%rbind_ok.
  match type of H with context [if ?b then _ else _] => destruct b eqn:E end; inv_eqs.
  split; [done | exact E].
Qed.

(** With an accepted configuration, the amounts of every successful allocation
    are non-negative and never exceed the gross. *)
Lemma compute_allocation_nonneg cfg gross tier a :
  fee_config_ok cfg -> compute_allocation cfg gross tier = Ok a ->
  0 <= pool_fee_sompi a /\ 0 <= nacho_accrual_sompi a /\ 0 <= net_payout_sompi a /\
  0 <= gross.
Proof.
  intros Hc. unfold fee_config_ok, MAX_TOPLINE_BPS in Hc.
  unfold compute_allocation, compute_allocation_at.
  destruct (Z.ltb_spec gross 0) as [|Hg]; [discriminate|].
  intros (s1 & H1 & (s2 & H2 & H)%rbind_ok)%rbind_ok.
  unfold ok_or in H1, H2.
  destruct (checked_i64 (gross * topline_bps cfg)) as [v1|] eqn:C1; inv_eqs.
  apply checked_i64_Some in C1 as [<- _].
  rewrite Z.quot_div_nonneg in H2, H by nia.
  change (gross * topline_bps cfg / 10000) with (fee_share_of (topline_bps cfg) gross) in *.
  pose proof (fee_share_bounds (topline_bps cfg) gross ltac:(lia) Hg).
  assert (rebate_bps tier = 0) as Hr by (destruct tier; reflexivity).
  rewrite Hr, Z.mul_0_r in H2.
  destruct (checked_i64 0) as [v2|] eqn:C2; inv_eqs.
  apply checked_i64_Some in C2 as [<- _].
  change (0 ÷ 10000) with 0 in H.
  match type of H with context [if ?b then _ else _] => destruct b end; inv_eqs.
  simpl. lia.
Qed.

(** ** Statements *)

(** Every fee configuration the loader accepts is between 0 and
    [MAX_TOPLINE_BPS] basis points, whatever the environment variable holds. *)
Theorem from_lookup_bounded var lookup cfg :
  from_lookup var lookup = Ok cfg -> 0 <= topline_bps cfg <= MAX_TOPLINE_BPS.
Proof.
  unfold from_lookup. intros (bps & Hb & H)%rbind_ok.
  destruct (FeeConfig_new bps) as [c|] eqn:E; simpl in H; inv_eqs.
  apply (FeeConfig_new_ok bps); [|done].
  destruct (lookup var) as [s|[]]; inv_eqs; [|unfold DEFAULT_TOPLINE_BPS; lia].
  unfold parse_bps, ok_or in Hb. destruct (parse_u16 s) eqn:P; inv_eqs.
  now apply parse_u16_nonneg in P.
Qed.

Lemma from_lookup_bounded_witness : 0 <= 120 <= 1000.
Proof.
  apply (from_lookup_bounded "KATPOOL_FEE_TOPLINE_BPS" (fun _ => Ok "+120"%string) (mkFeeConfig 120)).
  vm_compute. reflexivity.
Defined.

(** The split of a gross share: for an accepted configuration, within the
    64-bit range, the computation returns and gives the floored fee, the floored
    rebate out of that fee, the pool the rest of the fee and the miner the rest of
    the gross; the three parts are non-negative and sum to the gross. *)
Theorem compute_allocation_split cfg gross tier :
  fee_config_ok cfg -> 0 <= gross -> gross * topline_bps cfg <= i64_max ->
  let fee := gross * topline_bps cfg / 10000 in
  let nacho := fee * rebate_bps tier / 10000 in
  compute_allocation cfg gross tier
    = Ok (mkAllocation gross (fee - nacho) nacho (gross - fee) (topline_bps cfg) (rebate_bps tier) tier)
  /\ 0 <= nacho <= fee /\ 0 <= gross - fee /\ (fee - nacho) + nacho + (gross - fee) = gross.
Proof.
  intros Hc Hg Hm fee nacho. unfold fee_config_ok, MAX_TOPLINE_BPS in Hc.
  assert (rebate_bps tier = 0) as Hr by (destruct tier; reflexivity).
  pose proof (fee_share_bounds (topline_bps cfg) gross ltac:(lia) Hg) as Hf.
  assert (nacho = 0) as Hn by (unfold nacho; now rewrite Hr, Z.mul_0_r).
  split; [|unfold fee_share_of in Hf; unfold fee in *; lia].
  unfold compute_allocation.
  rewrite compute_allocation_at_spec; [reflexivity|lia|rewrite Hr; lia|lia|lia|].
  rewrite Hr, Z.mul_0_r. unfold i64_max. lia.
Qed.

Lemma compute_allocation_split_witness :
  compute_allocation (mkFeeConfig 75) 6000000000 Elite
    = Ok (mkAllocation 6000000000 45000000 0 5955000000 75 0 Elite).
Proof.
  apply (compute_allocation_split (mkFeeConfig 75) 6000000000 Elite);
    [unfold fee_config_ok, MAX_TOPLINE_BPS; simpl; lia|lia|vm_compute; discriminate].
Defined.

(** A gross of the whole Kaspa supply (28.7 billion coins of 10^8 sompi) does
    not fit the fee multiplication at the default fee: the computation returns the
    overflow error. *)
Theorem supply_cap_overflows tier :
  compute_allocation (mkFeeConfig DEFAULT_TOPLINE_BPS) (28700000000 * 10 ^ 8) tier
  = Err (Overflow "fee_share").
Proof. destruct tier; vm_compute; reflexivity. Qed.
