(* ===== verification/Schema.v ===== *)
(** * The database: tables, rows, constraints, and the repository monad

    One record [Db] holds the tables the modelled code touches, with the columns
    of [crates/katpool-db/src/repo/*.rs] and the [CHECK] and [UNIQUE] constraints
    of [crates/katpool-db/migrations].  A repository call or a transaction is a
    function [DB A := Db -> result (A * Db) DbError]: an error carries no
    database, which is Postgres's rollback. *)
From S2P Require Import Prelude F64 FeeModel.
From Stdlib Require Import SpecFloat.

(** ** Errors ([katpool-db/src/error.rs]) *)

Inductive DbError :=
| Connection
| Constraint (sqlstate : option string)
| NotFound
| Migration
| Config (message : string)
| AcquireTimeout
| Other.

Definition is_transient (e : DbError) : bool :=
  match e with Connection | AcquireTimeout => true | _ => false end.

Definition is_not_found (e : DbError) : bool :=
  match e with NotFound => true | _ => false end.

Definition sqlstate (e : DbError) : option string :=
  match e with Constraint s => s | _ => None end.

Definition check_violation : DbError := Constraint (Some "23514"%string).
Definition unique_violation : DbError := Constraint (Some "23505"%string).
Definition numeric_overflow : DbError := Constraint (Some "22003"%string).

(** ** Payout tables ([repo/payout.rs]) *)

Definition bytes := list Z.

Inductive PayoutKind := Kas | Krc20Nacho | Zkas.

Inductive PayoutCycleStatus :=
| CyPlanned | CyBroadcasting | CyPartiallySettled | CySettled | CyFailed.

Inductive PayoutStatus := Planned | Submitted | Accepted | Confirmed | Failed.

Inductive Krc20TransferStatus :=
| KPending | KCommitSubmitted | KRevealSubmitted | KCompleted | KFailed.

#[export] Instance PayoutKind_eq_dec : EqDecision PayoutKind.
Proof. solve_decision. Defined.
#[export] Instance PayoutCycleStatus_eq_dec : EqDecision PayoutCycleStatus.
Proof. solve_decision. Defined.
#[export] Instance PayoutStatus_eq_dec : EqDecision PayoutStatus.
Proof. solve_decision. Defined.
#[export] Instance Krc20TransferStatus_eq_dec : EqDecision Krc20TransferStatus.
Proof. solve_decision. Defined.

Record PayoutCycle := mkCycle {
  cy_id : Z;
  cy_kind : PayoutKind;
  cy_status : PayoutCycleStatus;
  cy_daa_start : Z;
  cy_daa_end : Z;
  cy_planned_at : Z;
  cy_broadcast_at : option Z;
  cy_settled_at : option Z;
  cy_total_sompi : Z;
  cy_total_recipients : Z;
  cy_idempotency_key : string
}.

Record Payout := mkPayout {
  po_id : Z;
  po_cycle_id : Z;
  po_wallet_id : Z;
  po_amount_sompi : Z;
  po_status : PayoutStatus;
  po_tx_hash : option bytes;
  po_krc20_commit_hash : option bytes;
  po_krc20_reveal_hash : option bytes;
  po_planned_at : Z;
  po_submitted_at : option Z;
  po_confirmed_at : option Z;
  po_accepted_daa_score : option Z;
  po_failure_reason : option string
}.

Record Krc20PendingTransfer := mkKrc20 {
  kt_id : Z;
  kt_payout_id : Z;
  kt_sompi_to_miner : Z;
  kt_nacho_amount : Z;
  kt_p2sh_address : string;
  kt_status : Krc20TransferStatus;
  kt_commit_fee_sompi : option Z;
  kt_reveal_fee_sompi : option Z;
  kt_created_at : Z;
  kt_updated_at : Z
}.

(** ** Accounting tables *)

Record Wallet := mkWallet {
  w_id : Z;
  w_address : string;
  w_network : string;
  w_first_seen_at : Z;
  w_last_seen_at : Z
}.

Record Worker := mkWorker {
  wk_id : Z;
  wk_wallet_id : Z;
  wk_name : string;
  wk_first_seen_at : Z;
  wk_last_seen_at : Z
}.

Record Share := mkShare {
  sh_id : Z;
  sh_wallet_id : Z;
  sh_worker_id : Z;
  sh_session_id : option Z;
  sh_difficulty : f64;
  sh_daa_score : Z;
  sh_credited_at : Z;
  sh_correlation_id : string
}.

Inductive DbShareRejectReason :=
| DbStale | DbLowDifficulty | DbBadPow | DbMissingJob | DbMalformedFrame | DbDuplicateSubmit
| DbBadAddress.

#[export] Instance DbShareRejectReason_eq_dec : EqDecision DbShareRejectReason.
Proof. solve_decision. Defined.

Record ShareReject := mkReject {
  rj_id : Z;
  rj_wallet_id : Z;
  rj_worker_id : Z;
  rj_reason : DbShareRejectReason;
  rj_rejected_at : Z;
  rj_correlation_id : string
}.

(** The octets of an IPv4 address or the 16-bit groups of an IPv6 address. *)
Inductive IpAddr := IpV4 (octets : list Z) | IpV6 (groups : list Z).

(** The [country] column is written but not read back by the repository's row
    type. *)
Record ConnectionSession := mkSession {
  cs_id : Z;
  cs_worker_id : option Z;
  cs_remote_ip : IpAddr;
  cs_remote_app : option string;
  cs_connected_at : Z;
  cs_disconnected_at : option Z;
  cs_shares_credited : Z;
  cs_shares_rejected : Z;
  cs_malformed_frames : Z;
  cs_country : option string
}.

Inductive BlockStatus := Found | SubmittedToNode | ConfirmedBlue | Matured | Orphaned.

#[export] Instance BlockStatus_eq_dec : EqDecision BlockStatus.
Proof. solve_decision. Defined.

Record Block := mkBlock {
  bk_id : Z;
  bk_hash : bytes;
  bk_finder_wallet_id : Z;
  bk_finder_worker_id : Z;
  bk_daa_score : Z;
  bk_blue_score : option Z;
  bk_nonce : Z;
  bk_status : BlockStatus;
  bk_found_at : Z;
  bk_submitted_at : option Z;
  bk_confirmed_at : option Z;
  bk_matured_at : option Z;
  bk_miner_reward_sompi : option Z;
  bk_correlation_id : string
}.

Record ShareWindow := mkWindow {
  sw_id : Z;
  sw_wallet_id : Z;
  sw_daa_start : Z;
  sw_daa_end : Z;
  sw_started_at : Z;
  sw_ended_at : Z;
  sw_total_weight : f64;
  sw_share_count : Z
}.

Record CoinbaseReward := mkReward {
  cr_id : Z;
  cr_outpoint_transaction_id : bytes;
  cr_outpoint_index : Z;
  cr_amount_sompi : Z;
  cr_block_daa_score : Z;
  cr_discovered_at : Z;
  cr_allocated_at : option Z
}.

Record ShareAllocation := mkShareAllocation {
  sa_id : Z;
  sa_coinbase_reward_id : Z;
  sa_wallet_id : Z;
  sa_weight : f64;
  sa_window_total : f64;
  sa_gross_share_sompi : Z;
  sa_pool_fee_sompi : Z;
  sa_nacho_accrual_sompi : Z;
  sa_net_payout_sompi : Z;
  sa_computed_at : Z;
  sa_applied_topline_bps : Z;
  sa_applied_rebate_bps : Z;
  sa_applied_tier : WalletTier
}.

Record NachoRebate := mkRebate {
  nr_wallet_id : Z; nr_accrued_sompi : Z; nr_paid_sompi : Z; nr_updated_at : Z
}.

(** The scalar fields of an audit payload. *)
Inductive Json := JNum (z : Z) | JStr (s : string).

Record AuditEntry := mkAudit {
  au_id : Z;
  au_occurred_at : Z;
  au_actor : string;
  au_action : string;
  au_subject_type : option string;
  au_subject_id : option Z;
  au_correlation_id : option string;
  au_payload : list (string * Json)
}.

(** ** The database *)

Record Db := mkDb {
  db_now : Z;                           (* [now()] *)
  db_seq : Z;                           (* next value of the id sequences *)
  db_wallets : list Wallet;
  db_shares : list Share;
  db_windows : list ShareWindow;
  db_rewards : list CoinbaseReward;
  db_allocations : list ShareAllocation;
  db_rebates : list NachoRebate;
  db_cycles : list PayoutCycle;
  db_payouts : list Payout;
  db_krc20 : list Krc20PendingTransfer;
  db_meta : gmap string string;
  db_audit : list AuditEntry;
  db_workers : list Worker;
  db_rejects : list ShareReject;
  db_sessions : list ConnectionSession;
  db_blocks : list Block
}.

Definition empty_db : Db := mkDb 0 1 [] [] [] [] [] [] [] [] [] ∅ [] [] [] [] [].

Definition set_seq (x : Z) (d : Db) : Db :=
  mkDb (db_now d) x (db_wallets d) (db_shares d) (db_windows d) (db_rewards d) (db_allocations d)
    (db_rebates d) (db_cycles d) (db_payouts d) (db_krc20 d) (db_meta d) (db_audit d)
    (db_workers d) (db_rejects d) (db_sessions d) (db_blocks d).
Definition set_wallets (x : list Wallet) (d : Db) : Db :=
  mkDb (db_now d) (db_seq d) x (db_shares d) (db_windows d) (db_rewards d) (db_allocations d)
    (db_rebates d) (db_cycles d) (db_payouts d) (db_krc20 d) (db_meta d) (db_audit d)
    (db_workers d) (db_rejects d) (db_sessions d) (db_blocks d).
Definition set_shares (x : list Share) (d : Db) : Db :=
  mkDb (db_now d) (db_seq d) (db_wallets d) x (db_windows d) (db_rewards d) (db_allocations d)
    (db_rebates d) (db_cycles d) (db_payouts d) (db_krc20 d) (db_meta d) (db_audit d)
    (db_workers d) (db_rejects d) (db_sessions d) (db_blocks d).
Definition set_windows (x : list ShareWindow) (d : Db) : Db :=
  mkDb (db_now d) (db_seq d) (db_wallets d) (db_shares d) x (db_rewards d) (db_allocations d)
    (db_rebates d) (db_cycles d) (db_payouts d) (db_krc20 d) (db_meta d) (db_audit d)
    (db_workers d) (db_rejects d) (db_sessions d) (db_blocks d).
Definition set_rewards (x : list CoinbaseReward) (d : Db) : Db :=
  mkDb (db_now d) (db_seq d) (db_wallets d) (db_shares d) (db_windows d) x (db_allocations d)
    (db_rebates d) (db_cycles d) (db_payouts d) (db_krc20 d) (db_meta d) (db_audit d)
    (db_workers d) (db_rejects d) (db_sessions d) (db_blocks d).
Definition set_allocations (x : list ShareAllocation) (d : Db) : Db :=
  mkDb (db_now d) (db_seq d) (db_wallets d) (db_shares d) (db_windows d) (db_rewards d) x
    (db_rebates d) (db_cycles d) (db_payouts d) (db_krc20 d) (db_meta d) (db_audit d)
    (db_workers d) (db_rejects d) (db_sessions d) (db_blocks d).
Definition set_rebates (x : list NachoRebate) (d : Db) : Db :=
  mkDb (db_now d) (db_seq d) (db_wallets d) (db_shares d) (db_windows d) (db_rewards d)
    (db_allocations d) x (db_cycles d) (db_payouts d) (db_krc20 d) (db_meta d) (db_audit d)
    (db_workers d) (db_rejects d) (db_sessions d) (db_blocks d).
Definition set_cycles (x : list PayoutCycle) (d : Db) : Db :=
  mkDb (db_now d) (db_seq d) (db_wallets d) (db_shares d) (db_windows d) (db_rewards d)
    (db_allocations d) (db_rebates d) x (db_payouts d) (db_krc20 d) (db_meta d) (db_audit d)
    (db_workers d) (db_rejects d) (db_sessions d) (db_blocks d).
Definition set_payouts (x : list Payout) (d : Db) : Db :=
  mkDb (db_now d) (db_seq d) (db_wallets d) (db_shares d) (db_windows d) (db_rewards d)
    (db_allocations d) (db_rebates d) (db_cycles d) x (db_krc20 d) (db_meta d) (db_audit d)
    (db_workers d) (db_rejects d) (db_sessions d) (db_blocks d).
Definition set_krc20 (x : list Krc20PendingTransfer) (d : Db) : Db :=
  mkDb (db_now d) (db_seq d) (db_wallets d) (db_shares d) (db_windows d) (db_rewards d)
    (db_allocations d) (db_rebates d) (db_cycles d) (db_payouts d) x (db_meta d) (db_audit d)
    (db_workers d) (db_rejects d) (db_sessions d) (db_blocks d).
Definition set_meta (x : gmap string string) (d : Db) : Db :=
  mkDb (db_now d) (db_seq d) (db_wallets d) (db_shares d) (db_windows d) (db_rewards d)
    (db_allocations d) (db_rebates d) (db_cycles d) (db_payouts d) (db_krc20 d) x (db_audit d)
    (db_workers d) (db_rejects d) (db_sessions d) (db_blocks d).
Definition set_audit (x : list AuditEntry) (d : Db) : Db :=
  mkDb (db_now d) (db_seq d) (db_wallets d) (db_shares d) (db_windows d) (db_rewards d)
    (db_allocations d) (db_rebates d) (db_cycles d) (db_payouts d) (db_krc20 d) (db_meta d) x
    (db_workers d) (db_rejects d) (db_sessions d) (db_blocks d).
Definition set_workers (x : list Worker) (d : Db) : Db :=
  mkDb (db_now d) (db_seq d) (db_wallets d) (db_shares d) (db_windows d) (db_rewards d)
    (db_allocations d) (db_rebates d) (db_cycles d) (db_payouts d) (db_krc20 d) (db_meta d)
    (db_audit d) x (db_rejects d) (db_sessions d) (db_blocks d).
Definition set_rejects (x : list ShareReject) (d : Db) : Db :=
  mkDb (db_now d) (db_seq d) (db_wallets d) (db_shares d) (db_windows d) (db_rewards d)
    (db_allocations d) (db_rebates d) (db_cycles d) (db_payouts d) (db_krc20 d) (db_meta d)
    (db_audit d) (db_workers d) x (db_sessions d) (db_blocks d).
Definition set_sessions (x : list ConnectionSession) (d : Db) : Db :=
  mkDb (db_now d) (db_seq d) (db_wallets d) (db_shares d) (db_windows d) (db_rewards d)
    (db_allocations d) (db_rebates d) (db_cycles d) (db_payouts d) (db_krc20 d) (db_meta d)
    (db_audit d) (db_workers d) (db_rejects d) x (db_blocks d).
Definition set_blocks (x : list Block) (d : Db) : Db :=
  mkDb (db_now d) (db_seq d) (db_wallets d) (db_shares d) (db_windows d) (db_rewards d)
    (db_allocations d) (db_rebates d) (db_cycles d) (db_payouts d) (db_krc20 d) (db_meta d)
    (db_audit d) (db_workers d) (db_rejects d) (db_sessions d) x.

(** ** [double precision] in Postgres *)

Definition is_nan (x : f64) : bool := match x with S754_nan => true | _ => false end.
Definition is_infinite (x : f64) : bool := match x with S754_infinity _ => true | _ => false end.

(** Postgres orders NaN above every other value and equal to itself. *)
Definition pg_leb (x y : f64) : bool := is_nan y || f64_leb x y.
Definition pg_ltb (x y : f64) : bool := negb (pg_leb y x).

(** [sum(double precision)]: the addition fails when it overflows; the sum of no
    rows is [NULL]. *)
Fixpoint pg_sum_from (acc : f64) (l : list f64) : result f64 DbError :=
  match l with
  | [] => Ok acc
  | x :: l =>
      let r := f64_add acc x in
      if is_infinite r && negb (is_infinite acc) && negb (is_infinite x)
      then Err numeric_overflow else pg_sum_from r l
  end.
Definition pg_sum (l : list f64) : result (option f64) DbError :=
  match l with
  | [] => Ok None
  | x :: l => let? r := pg_sum_from x l in Ok (Some r)
  end.

(** ** Constraints *)

Definition opt_ge (o : option Z) (lo : Z) : bool :=
  match o with Some t => lo <=? t | None => true end.

Definition hash_len_ok (o : option bytes) : bool :=
  match o with Some h => (length h =? 32)%nat | None => true end.

(** [payout]: amount, hash lengths, [payout_lifecycle_order],
    [accepted_daa_score >= 0]. *)
Definition payout_check (p : Payout) : bool :=
  (0 <? po_amount_sompi p)
  && hash_len_ok (po_tx_hash p)
  && hash_len_ok (po_krc20_commit_hash p)
  && hash_len_ok (po_krc20_reveal_hash p)
  && opt_ge (po_submitted_at p) (po_planned_at p)
  && match po_confirmed_at p with
     | None => true
     | Some c => match po_submitted_at p with Some s => s <=? c | None => false end
     end
  && opt_ge (po_accepted_daa_score p) 0.

(** [payout_cycle]: ranges, totals, [payout_cycle_order]. *)
Definition cycle_check (c : PayoutCycle) : bool :=
  (0 <=? cy_daa_start c) && (cy_daa_start c <? cy_daa_end c)
  && (0 <=? cy_total_sompi c) && (0 <=? cy_total_recipients c)
  && opt_ge (cy_broadcast_at c) (cy_planned_at c)
  && match cy_settled_at c with
     | None => true
     | Some s => match cy_broadcast_at c with Some b => b <=? s | None => false end
     end.

Definition krc20_check (k : Krc20PendingTransfer) : bool :=
  (0 <? kt_sompi_to_miner k) && (0 <? kt_nacho_amount k).

Definition allocation_check (a : ShareAllocation) : bool :=
  pg_leb f64_zero (sa_weight a)
  && pg_ltb f64_zero (sa_window_total a)
  && (0 <=? sa_gross_share_sompi a) && (0 <=? sa_pool_fee_sompi a)
  && (0 <=? sa_nacho_accrual_sompi a) && (0 <=? sa_net_payout_sompi a)
  && (sa_gross_share_sompi a =?
        sa_pool_fee_sompi a + sa_nacho_accrual_sompi a + sa_net_payout_sompi a)
  && pg_leb (sa_weight a) (sa_window_total a).

Definition window_check (w : ShareWindow) : bool :=
  pg_leb f64_zero (sw_total_weight w) && (0 <=? sw_share_count w)
  && (sw_daa_start w <? sw_daa_end w).

Definition rebate_check (r : NachoRebate) : bool :=
  (0 <=? nr_accrued_sompi r) && (0 <=? nr_paid_sompi r)
  && (nr_paid_sompi r <=? nr_accrued_sompi r).

Definition reward_check (r : CoinbaseReward) : bool :=
  (length (cr_outpoint_transaction_id r) =? 32)%nat
  && (0 <=? cr_outpoint_index r) && (0 <=? cr_amount_sompi r)
  && (0 <=? cr_block_daa_score r).

(** [share]: [difficulty > 0 AND difficulty = difficulty] (the second conjunct
    holds of NaN too), [daa_score >= 0]. *)
Definition share_check (r : Share) : bool :=
  pg_ltb f64_zero (sh_difficulty r) && (0 <=? sh_daa_score r).

(** [block]: ranges, hash length, [block_lifecycle_order]. *)
Definition block_check (b : Block) : bool :=
  (length (bk_hash b) =? 32)%nat
  && (0 <=? bk_daa_score b)
  && opt_ge (bk_blue_score b) 0
  && opt_ge (bk_miner_reward_sompi b) 0
  && opt_ge (bk_submitted_at b) (bk_found_at b)
  && match bk_confirmed_at b with
     | None => true
     | Some c => match bk_submitted_at b with Some s => s <=? c | None => false end
     end
  && match bk_matured_at b with
     | None => true
     | Some m => match bk_confirmed_at b with Some c => c <=? m | None => false end
     end.

Definition session_check (s : ConnectionSession) : bool :=
  (0 <=? cs_shares_credited s) && (0 <=? cs_shares_rejected s) && (0 <=? cs_malformed_frames s).

Definition foreign_key_violation : DbError := Constraint (Some "23503"%string).

(** ** The repository monad *)

Definition DB (A : Type) : Type := Db -> result (A * Db) DbError.

Definition db_ret {A} (a : A) : DB A := fun d => Ok (a, d).
Definition db_err {A} (e : DbError) : DB A := fun _ => Err e.
Definition db_bind {A B} (m : DB A) (k : A -> DB B) : DB B :=
  fun d => match m d with
           | Ok (a, d') => k a d'
           | Err e => Err e
           end.
Definition db_read {A} (f : Db -> A) : DB A := fun d => Ok (f d, d).
Definition db_read_checked {A} (f : Db -> result A DbError) : DB A :=
  fun d => match f d with Ok a => Ok (a, d) | Err e => Err e end.

Notation "x <-- m ;; k" := (db_bind m (fun x => k))
  (at level 100, m at next level, right associativity) : kat_scope.
Notation "m ;;; k" := (db_bind m (fun _ => k))
  (at level 100, right associativity) : kat_scope.

Fixpoint db_iter {A} (f : A -> DB unit) (l : list A) : DB unit :=
  match l with
  | [] => db_ret tt
  | x :: l => f x ;;; db_iter f l
  end.

Lemma db_bind_ok {A B} (m : DB A) (k : A -> DB B) d b d' :
  db_bind m k d = Ok (b, d') <-> exists a d1, m d = Ok (a, d1) /\ k a d1 = Ok (b, d').
Proof.
  unfold db_bind. destruct (m d) as [[a d1]|e]; split.
  - eauto.
  - intros (? & ? & ? & ?). inv_eqs. done.
  - discriminate.
  - intros (? & ? & ? & ?). discriminate.
Qed.

Lemma db_read_checked_same {A} (f : Db -> result A DbError) d a d' :
  db_read_checked f d = Ok (a, d') -> d = d'.
Proof. unfold db_read_checked. destruct (f d); [|discriminate]. congruence. Qed.

(** [UPDATE t SET f WHERE p], all-or-nothing under the table's [CHECK]s; the
    result also counts the affected rows. *)
Definition tbl_update {R} (check p : R -> bool) (f : R -> R) (rows : list R)
  : result (list R * Z) DbError :=
  if forallb (fun r => implb (p r) (check (f r))) rows
  then Ok (map (fun r => if p r then f r else r) rows,
           Z.of_nat (length (List.filter p rows)))
  else Err check_violation.

Lemma tbl_update_ok {R} (check p : R -> bool) f rows rows' n :
  tbl_update check p f rows = Ok (rows', n) ->
  rows' = map (fun r => if p r then f r else r) rows /\
  n = Z.of_nat (length (List.filter p rows)).
Proof. unfold tbl_update. destruct (forallb _ _); intros; inv_eqs; done. Qed.

Lemma tbl_update_check {R} (check p : R -> bool) f rows rows' n :
  tbl_update check p f rows = Ok (rows', n) ->
  Forall (fun r => check r = true) rows -> Forall (fun r => check r = true) rows'.
Proof.
  unfold tbl_update. destruct (forallb _ _) eqn:E; intros; inv_eqs.
  rewrite forallb_forall in E. apply List.Forall_forall. intros x Hx.
  apply in_map_iff in Hx as (r & <- & Hr). specialize (E r Hr).
  rewrite List.Forall_forall in H0. specialize (H0 r Hr).
  destruct (p r); [done|]. exact H0.
Qed.

Lemma tbl_update_total {R} (check p : R -> bool) f rows :
  (forall r, In r rows -> p r = true -> check (f r) = true) ->
  tbl_update check p f rows = Ok (map (fun r => if p r then f r else r) rows,
                                  Z.of_nat (length (List.filter p rows))).
Proof.
  intros H. unfold tbl_update.
  assert (forallb (fun r => implb (p r) (check (f r))) rows = true) as ->; [|done].
  apply forallb_forall. intros r Hr. specialize (H r Hr). destruct (p r); [|done]. apply H; auto.
Qed.

(** ** Rows used by the concrete runs of the development *)

Fixpoint cycle_to (n : nat) (pat rest : string) : string :=
  match n with
  | O => EmptyString
  | S n => match rest with
           | String c rest => String c (cycle_to n pat rest)
           | EmptyString => match pat with
                            | String c rest => String c (cycle_to n pat rest)
                            | EmptyString => EmptyString
                            end
           end
  end.

(** A main-net address whose 40-character body repeats [name]. *)
Definition sample_address (name : string) : string := "zkas:" +:+ cycle_to 40 name name.
Definition sample_wallet (id : Z) (name : string) : Wallet :=
  mkWallet id (sample_address name) "mainnet" 1 1.
Definition sample_share (wallet : Z) (difficulty : f64) (daa credited : Z) : Share :=
  mkShare (1000 * wallet + daa) wallet (100 + wallet) None difficulty daa credited "share".

(** ** Faults *)

(** A database call can fail before it takes effect, or after (the
    acknowledgement is lost).  A crash of the process is a failure of the next
    database call: nothing after it changes the state. *)
Inductive Fault := NoFault | FailBefore | FailAfter.
