(* ===== verification/PayoutDb.v ===== *)
(** * The payout repository ([crates/katpool-db/src/repo/payout.rs], [pool_meta.rs])

    Cycles, per-recipient payouts, the KRC-20 commit/reveal rows and the
    key/value table: each function is the SQL statement of the source over the
    tables of [Schema]. *)
From stdpp Require Import pretty.
From S2P Require Import Prelude F64 FeeModel Schema.
Open Scope Z_scope.

(** ** Labels *)

Definition PayoutCycleStatus_as_str (s : PayoutCycleStatus) : string :=
  match s with
  | CyPlanned => "planned"
  | CyBroadcasting => "broadcasting"
  | CyPartiallySettled => "partially_settled"
  | CySettled => "settled"
  | CyFailed => "failed"
  end.

Definition is_success (s : PayoutCycleStatus) : bool :=
  match s with CySettled | CyPartiallySettled => true | _ => false end.

Definition kind_prefix (k : PayoutKind) : string :=
  match k with Kas => "kas" | Krc20Nacho => "krc20" | Zkas => "zkas" end.

Definition idempotency_key (k : PayoutKind) (daa_start daa_end : Z) : string :=
  kind_prefix k +:+ "-" +:+ pretty daa_start +:+ "-" +:+ pretty daa_end.

(** ** Row helpers *)

Definition status_in (l : list PayoutStatus) (p : Payout) : bool :=
  existsb (fun s => bool_decide (po_status p = s)) l.
Definition cycle_status_in (l : list PayoutCycleStatus) (c : PayoutCycle) : bool :=
  existsb (fun s => bool_decide (cy_status c = s)) l.
Definition krc20_status_in (l : list Krc20TransferStatus) (k : Krc20PendingTransfer) : bool :=
  existsb (fun s => bool_decide (kt_status k = s)) l.

#[global] Arguments status_in l p : simpl never.
#[global] Arguments cycle_status_in l c : simpl never.
#[global] Arguments krc20_status_in l k : simpl never.

Definition coalesce (o : option Z) (t : Z) : option Z :=
  match o with Some x => Some x | None => Some t end.

Definition update_cycles (p : PayoutCycle -> bool) (f : PayoutCycle -> PayoutCycle) : DB Z :=
  fun d => match tbl_update cycle_check p f (db_cycles d) with
           | Ok (rows, n) => Ok (n, set_cycles rows d)
           | Err e => Err e
           end.
Definition update_payouts (p : Payout -> bool) (f : Payout -> Payout) : DB Z :=
  fun d => match tbl_update payout_check p f (db_payouts d) with
           | Ok (rows, n) => Ok (n, set_payouts rows d)
           | Err e => Err e
           end.
Definition update_krc20 (p : Krc20PendingTransfer -> bool)
    (f : Krc20PendingTransfer -> Krc20PendingTransfer) : DB Z :=
  fun d => match tbl_update krc20_check p f (db_krc20 d) with
           | Ok (rows, n) => Ok (n, set_krc20 rows d)
           | Err e => Err e
           end.

Definition find_cycle (p : PayoutCycle -> bool) (d : Db) : option PayoutCycle :=
  List.find p (db_cycles d).
Definition find_payout (p : Payout -> bool) (d : Db) : option Payout :=
  List.find p (db_payouts d).

(** [LIMIT n]: a negative limit is an error. *)
Definition sql_limit {A} (n : Z) (l : list A) : result (list A) DbError :=
  if n <? 0 then Err (Constraint (Some "2201W"%string))
  else Ok (firstn (Z.to_nat n) l).

(** [sum(..)::bigint] over a group. *)
Definition sum_bigint (l : list Z) : result Z DbError :=
  if in_i64b (sumZ l) then Ok (sumZ l) else Err numeric_overflow.

(** ** Cycle operations *)

Definition create_cycle (k : PayoutKind) (daa_start daa_end : Z) : DB PayoutCycle :=
  fun d =>
    let key := idempotency_key k daa_start daa_end in
    let row := mkCycle (db_seq d) k CyPlanned (as_i64 daa_start) (as_i64 daa_end)
                 (db_now d) None None 0 0 key in
    if cycle_check row then
      match find_cycle (fun c => String.eqb (cy_idempotency_key c) key) d with
      | Some c => Ok (c, d)
      | None => Ok (row, set_seq (db_seq d + 1) (set_cycles (db_cycles d ++ [row]) d))
      end
    else Err check_violation.

Definition find_cycle_by_idempotency_key (key : string) : DB (option PayoutCycle) :=
  db_read (find_cycle (fun c => String.eqb (cy_idempotency_key c) key)).

Definition get_cycle (id : Z) : DB PayoutCycle :=
  db_read_checked (fun d => ok_or (find_cycle (fun c => cy_id c =? id) d) NotFound).

Definition cy_set (s : PayoutCycleStatus) (b st : option Z) (c : PayoutCycle) : PayoutCycle :=
  mkCycle (cy_id c) (cy_kind c) s (cy_daa_start c) (cy_daa_end c) (cy_planned_at c)
    b st (cy_total_sompi c) (cy_total_recipients c) (cy_idempotency_key c).

Definition mark_cycle_broadcasting (id : Z) : DB unit :=
  fun d =>
    (update_cycles
       (fun c => (cy_id c =? id) && cycle_status_in [CyPlanned; CyBroadcasting] c)
       (fun c => cy_set CyBroadcasting (coalesce (cy_broadcast_at c) (db_now d))
                        (cy_settled_at c) c) ;;; db_ret tt) d.

Definition mark_cycle_partially_settled (id : Z) : DB unit :=
  update_cycles
    (fun c => (cy_id c =? id) && cycle_status_in [CyBroadcasting; CyPartiallySettled] c)
    (fun c => cy_set CyPartiallySettled (cy_broadcast_at c) (cy_settled_at c) c) ;;; db_ret tt.

Definition mark_cycle_settled (id : Z) : DB unit :=
  fun d =>
    (update_cycles
       (fun c => (cy_id c =? id)
                 && cycle_status_in [CyBroadcasting; CyPartiallySettled; CySettled] c)
       (fun c => cy_set CySettled (cy_broadcast_at c)
                        (coalesce (cy_settled_at c) (db_now d)) c) ;;; db_ret tt) d.

Definition mark_cycle_failed (id : Z) : DB unit :=
  update_cycles
    (fun c => (cy_id c =? id) && negb (cycle_status_in [CySettled] c))
    (fun c => cy_set CyFailed (cy_broadcast_at c) (cy_settled_at c) c) ;;; db_ret tt.

Definition set_cycle_totals (id total_sompi total_recipients : Z) : DB unit :=
  update_cycles (fun c => cy_id c =? id)
    (fun c => mkCycle (cy_id c) (cy_kind c) (cy_status c) (cy_daa_start c) (cy_daa_end c)
                (cy_planned_at c) (cy_broadcast_at c) (cy_settled_at c)
                total_sompi total_recipients (cy_idempotency_key c)) ;;; db_ret tt.

Definition list_recent_cycles (limit : Z) (before_id : option Z) : DB (list PayoutCycle) :=
  db_read_checked (fun d =>
    sql_limit limit
      (sort_by (fun a b => cy_id b <=? cy_id a)
         (List.filter (fun c => match before_id with None => true | Some b => cy_id c <? b end)
            (db_cycles d)))).

(** ** Eligibility *)

Definition DEFAULT_KAS_PAYOUT_THRESHOLD_SOMPI : Z := 1000000000.
Definition DEFAULT_ZKAS_PAYOUT_THRESHOLD_SOMPI : Z := 500000000.

Record EligibleWallet := mkEligible {
  el_wallet_id : Z;
  el_address : string;
  el_network : string;
  el_allocated_sompi : Z;
  el_confirmed_paid_sompi : Z;
  el_payable_sompi : Z
}.

(** The cycle a payout row joins with. *)
Definition cycle_of (d : Db) (p : Payout) : option PayoutCycle :=
  find_cycle (fun c => cy_id c =? po_cycle_id p) d.

Definition wallet_allocations (d : Db) (wallet : Z) : list ShareAllocation :=
  List.filter (fun a => sa_wallet_id a =? wallet) (db_allocations d).

(** [pc.kind = k AND po.status = 'confirmed' AND
    pc.idempotency_key NOT LIKE '<k>-legacy-%']. *)
Definition counts_as_confirmed (k : PayoutKind) (d : Db) (p : Payout) : bool :=
  match cycle_of d p with
  | Some c => bool_decide (cy_kind c = k) && status_in [Confirmed] p
              && negb (String.prefix (kind_prefix k +:+ "-legacy-") (cy_idempotency_key c))
  | None => false
  end.

Definition confirmed_payouts (k : PayoutKind) (d : Db) (wallet : Z) : list Payout :=
  List.filter (fun p => (po_wallet_id p =? wallet) && counts_as_confirmed k d p) (db_payouts d).

(** [sum(net_payout_sompi)] and [sum(amount_sompi)] of the two sub-selects. *)
Definition allocated_sompi (d : Db) (wallet : Z) : Z :=
  sumZ (map sa_net_payout_sompi (wallet_allocations d wallet)).
Definition confirmed_paid_sompi (k : PayoutKind) (d : Db) (wallet : Z) : Z :=
  sumZ (map po_amount_sompi (confirmed_payouts k d wallet)).

Definition eligible_row (k : PayoutKind) (d : Db) (w : Wallet) : EligibleWallet :=
  let a := allocated_sompi d (w_id w) in
  let c := confirmed_paid_sompi k d (w_id w) in
  mkEligible (w_id w) (w_address w) (w_network w) a c (a - c).

(** The bigint casts and the subtraction of one row. *)
Definition eligible_row_in_range (r : EligibleWallet) : bool :=
  in_i64b (el_allocated_sompi r) && in_i64b (el_confirmed_paid_sompi r)
  && in_i64b (el_payable_sompi r).

Definition eligible_le (a b : EligibleWallet) : bool :=
  (el_payable_sompi b <? el_payable_sompi a)
  || ((el_payable_sompi a =? el_payable_sompi b) && (el_wallet_id a <=? el_wallet_id b)).

Definition list_eligible_wallets (k : PayoutKind) (threshold : Z) : DB (list EligibleWallet) :=
  db_read_checked (fun d =>
    let rows := map (eligible_row k d)
                  (List.filter (fun w => negb (Nat.eqb (length (wallet_allocations d (w_id w))) 0))
                     (db_wallets d)) in
    if forallb eligible_row_in_range rows then
      Ok (sort_by eligible_le (List.filter (fun r => threshold <=? el_payable_sompi r) rows))
    else Err numeric_overflow).

Definition list_kas_eligible_wallets : Z -> DB (list EligibleWallet) := list_eligible_wallets Kas.
Definition list_zkas_eligible_wallets : Z -> DB (list EligibleWallet) := list_eligible_wallets Zkas.

Record Krc20EligibleWallet := mkKrc20Eligible {
  ke_wallet_id : Z; ke_address : string; ke_network : string; ke_pending_sompi : Z
}.

(** Payouts of KRC-20 cycles that are neither failed nor confirmed. *)
Definition krc20_open (d : Db) (p : Payout) : bool :=
  match cycle_of d p with
  | Some c => bool_decide (cy_kind c = Krc20Nacho) && negb (status_in [Failed; Confirmed] p)
  | None => false
  end.

Definition krc20_open_sompi (d : Db) (wallet : Z) : Z :=
  sumZ (map po_amount_sompi
          (List.filter (fun p => (po_wallet_id p =? wallet) && krc20_open d p) (db_payouts d))).

Definition krc20_eligible_row (d : Db) (r : NachoRebate) : option Krc20EligibleWallet :=
  match List.find (fun w => w_id w =? nr_wallet_id r) (db_wallets d) with
  | Some w => Some (mkKrc20Eligible (nr_wallet_id r) (w_address w) (w_network w)
                      (nr_accrued_sompi r - nr_paid_sompi r - krc20_open_sompi d (nr_wallet_id r)))
  | None => None
  end.

Definition list_krc20_eligible_wallets (min_pending limit : Z) : DB (list Krc20EligibleWallet) :=
  db_read_checked (fun d =>
    let rows := omap (krc20_eligible_row d) (db_rebates d) in
    if forallb (fun r => in_i64b (ke_pending_sompi r)) rows then
      sql_limit limit
        (sort_by (fun a b => (ke_pending_sompi b <? ke_pending_sompi a)
                             || ((ke_pending_sompi a =? ke_pending_sompi b)
                                 && (ke_wallet_id a <=? ke_wallet_id b)))
           (List.filter (fun r => min_pending <=? ke_pending_sompi r) rows))
    else Err numeric_overflow).

(** ** Payout operations *)

Definition new_payout (d : Db) (cycle_id wallet_id amount : Z) : Payout :=
  mkPayout (db_seq d) cycle_id wallet_id amount Planned None None None (db_now d)
    None None None None.

Definition same_recipient (cycle_id wallet_id : Z) (p : Payout) : bool :=
  (po_cycle_id p =? cycle_id) && (po_wallet_id p =? wallet_id).

Definition insert_payout (cycle_id wallet_id amount : Z) : DB Payout :=
  fun d =>
    let row := new_payout d cycle_id wallet_id amount in
    if negb (payout_check row) then Err check_violation else
    match find_payout (same_recipient cycle_id wallet_id) d with
    | Some _ => Err unique_violation
    | None => Ok (row, set_seq (db_seq d + 1) (set_payouts (db_payouts d ++ [row]) d))
    end.

Definition ensure_payout (cycle_id wallet_id amount : Z) : DB Payout :=
  fun d =>
    let row := new_payout d cycle_id wallet_id amount in
    if negb (payout_check row) then Err check_violation else
    match find_payout (same_recipient cycle_id wallet_id) d with
    | Some p => Ok (p, d)
    | None => Ok (row, set_seq (db_seq d + 1) (set_payouts (db_payouts d ++ [row]) d))
    end.

Definition get_payout (id : Z) : DB Payout :=
  db_read_checked (fun d => ok_or (find_payout (fun p => po_id p =? id) d) NotFound).

Record WalletKasBalance := mkBalance {
  wb_allocated_sompi : Z; wb_confirmed_paid_sompi : Z; wb_payable_sompi : Z
}.

Definition kas_payable_for_wallet (wallet : Z) : DB WalletKasBalance :=
  db_read_checked (fun d =>
    let? a := sum_bigint (map sa_net_payout_sompi (wallet_allocations d wallet)) in
    let? c := sum_bigint (map po_amount_sompi (confirmed_payouts Kas d wallet)) in
    Ok (mkBalance a c (a - c))).

Record PoolPayoutTotals := mkTotals {
  pt_kas_confirmed_sompi : Z; pt_nacho_confirmed_sompi : Z; pt_confirmed_payouts : Z
}.

Definition joined_confirmed (d : Db) (sel : PayoutCycle -> bool) (p : Payout) : bool :=
  match cycle_of d p with
  | Some c => sel c && status_in [Confirmed] p
  | None => false
  end.

Definition pool_payout_totals : DB PoolPayoutTotals :=
  db_read_checked (fun d =>
    let total sel := sum_bigint (map po_amount_sompi
                       (List.filter (joined_confirmed d sel) (db_payouts d))) in
    let? kas := total (fun c => bool_decide (cy_kind c = Kas)) in
    let? nacho := total (fun c => bool_decide (cy_kind c = Krc20Nacho)) in
    Ok (mkTotals kas nacho
          (Z.of_nat (length (List.filter (joined_confirmed d (fun _ => true)) (db_payouts d)))))).

Definition payout_amount_le (a b : Payout) : bool :=
  (po_amount_sompi b <? po_amount_sompi a)
  || ((po_amount_sompi a =? po_amount_sompi b) && (po_id a <=? po_id b)).

Definition list_for_cycle (cycle_id : Z) : DB (list Payout) :=
  db_read (fun d =>
    sort_by payout_amount_le (List.filter (fun p => po_cycle_id p =? cycle_id) (db_payouts d))).

Record ZkasInFlightPayout := mkInFlight {
  if_payout_id : Z; if_cycle_id : Z; if_tx_hash : bytes; if_accepted_daa_score : option Z
}.

Definition in_flight_row (d : Db) (p : Payout) : option ZkasInFlightPayout :=
  match cycle_of d p, po_tx_hash p with
  | Some c, Some h =>
      if bool_decide (cy_kind c = Zkas) && status_in [Submitted; Accepted] p
      then Some (mkInFlight (po_id p) (po_cycle_id p) h (po_accepted_daa_score p))
      else None
  | _, _ => None
  end.

Definition list_zkas_in_flight_payouts : DB (list ZkasInFlightPayout) :=
  db_read (fun d => omap (in_flight_row d)
                      (sort_by (fun a b => po_id a <=? po_id b) (db_payouts d))).

Record CycleRecipient := mkRecipient {
  re_payout_id : Z;
  re_address : string;
  re_amount_sompi : Z;
  re_status : PayoutStatus;
  re_tx_hash : option bytes;
  re_krc20_commit_hash : option bytes;
  re_krc20_reveal_hash : option bytes;
  re_nacho_amount : option Z
}.

Definition krc20_of (d : Db) (payout_id : Z) : option Krc20PendingTransfer :=
  List.find (fun k => kt_payout_id k =? payout_id) (db_krc20 d).

Definition recipient_row (d : Db) (p : Payout) : option CycleRecipient :=
  match List.find (fun w => w_id w =? po_wallet_id p) (db_wallets d) with
  | Some w => Some (mkRecipient (po_id p) (w_address w) (po_amount_sompi p) (po_status p)
                      (po_tx_hash p) (po_krc20_commit_hash p) (po_krc20_reveal_hash p)
                      (option_map kt_nacho_amount (krc20_of d (po_id p))))
  | None => None
  end.

Definition list_cycle_recipients (cycle_id : Z) : DB (list CycleRecipient) :=
  db_read (fun d =>
    omap (recipient_row d)
      (sort_by payout_amount_le
         (List.filter (fun p => po_cycle_id p =? cycle_id) (db_payouts d)))).

Definition list_for_wallet (wallet limit : Z) : DB (list Payout) :=
  db_read_checked (fun d =>
    sql_limit limit (sort_by (fun a b => po_planned_at b <=? po_planned_at a)
                       (List.filter (fun p => po_wallet_id p =? wallet) (db_payouts d)))).

Record WalletPayout := mkWalletPayout {
  wp_payout : Payout; wp_kind : PayoutKind; wp_nacho_amount : option Z
}.

Definition wallet_payout_row (d : Db) (p : Payout) : option WalletPayout :=
  match cycle_of d p with
  | Some c => Some (mkWalletPayout p (cy_kind c) (option_map kt_nacho_amount (krc20_of d (po_id p))))
  | None => None
  end.

Definition list_for_wallet_detailed (wallet limit : Z) (before_id : option Z)
  : DB (list WalletPayout) :=
  db_read_checked (fun d =>
    sql_limit limit
      (omap (wallet_payout_row d)
         (sort_by (fun a b => po_id b <=? po_id a)
            (List.filter (fun p => (po_wallet_id p =? wallet)
                                   && match before_id with
                                      | None => true
                                      | Some b => po_id p <? b
                                      end) (db_payouts d))))).

Definition payout_hashes (p : Payout) : list bytes :=
  omap id [po_tx_hash p; po_krc20_commit_hash p; po_krc20_reveal_hash p].

Definition in_flight_spend_tx_hashes : DB (list bytes) :=
  db_read (fun d => flat_map payout_hashes
                      (List.filter (fun p => negb (status_in [Confirmed; Failed] p)) (db_payouts d))).

(** Status transitions of one payout row. *)
Definition po_submit (tx_hash : bytes) (now : Z) (p : Payout) : Payout :=
  mkPayout (po_id p) (po_cycle_id p) (po_wallet_id p) (po_amount_sompi p) Submitted
    (Some tx_hash) (po_krc20_commit_hash p) (po_krc20_reveal_hash p) (po_planned_at p)
    (coalesce (po_submitted_at p) now) (po_confirmed_at p) (po_accepted_daa_score p)
    (po_failure_reason p).
Definition po_accept (daa : Z) (p : Payout) : Payout :=
  mkPayout (po_id p) (po_cycle_id p) (po_wallet_id p) (po_amount_sompi p) Accepted
    (po_tx_hash p) (po_krc20_commit_hash p) (po_krc20_reveal_hash p) (po_planned_at p)
    (po_submitted_at p) (po_confirmed_at p) (coalesce (po_accepted_daa_score p) daa)
    (po_failure_reason p).
Definition po_confirm (submitted : option Z) (now : Z) (p : Payout) : Payout :=
  mkPayout (po_id p) (po_cycle_id p) (po_wallet_id p) (po_amount_sompi p) Confirmed
    (po_tx_hash p) (po_krc20_commit_hash p) (po_krc20_reveal_hash p) (po_planned_at p)
    submitted (coalesce (po_confirmed_at p) now) (po_accepted_daa_score p)
    (po_failure_reason p).
Definition po_fail (reason : string) (p : Payout) : Payout :=
  mkPayout (po_id p) (po_cycle_id p) (po_wallet_id p) (po_amount_sompi p) Failed
    (po_tx_hash p) (po_krc20_commit_hash p) (po_krc20_reveal_hash p) (po_planned_at p)
    (po_submitted_at p) (po_confirmed_at p) (po_accepted_daa_score p) (Some reason).

Definition mark_payout_submitted (id : Z) (tx_hash : bytes) : DB unit :=
  fun d => (update_payouts (fun p => (po_id p =? id) && status_in [Planned; Submitted] p)
              (po_submit tx_hash (db_now d)) ;;; db_ret tt) d.

Definition mark_payout_accepted (id accepted_daa_score : Z) : DB unit :=
  update_payouts (fun p => (po_id p =? id) && status_in [Submitted; Accepted] p)
    (po_accept accepted_daa_score) ;;; db_ret tt.

Definition mark_payout_confirmed (id : Z) : DB unit :=
  fun d => (update_payouts
              (fun p => (po_id p =? id) && status_in [Submitted; Accepted; Confirmed] p)
              (fun p => po_confirm (po_submitted_at p) (db_now d) p) ;;; db_ret tt) d.

Definition confirm_krc20_payout_once (id : Z) : DB bool :=
  fun d => (n <-- update_payouts (fun p => (po_id p =? id) && negb (status_in [Confirmed] p))
              (fun p => po_confirm (coalesce (po_submitted_at p) (db_now d)) (db_now d) p) ;;
            db_ret (n =? 1)) d.

Definition mark_payout_failed (id : Z) (reason : string) : DB unit :=
  update_payouts (fun p => (po_id p =? id) && negb (status_in [Confirmed] p))
    (po_fail reason) ;;; db_ret tt.

(** ** KRC-20 operations *)

Definition new_krc20 (d : Db) (payout_id sompi nacho : Z) (p2sh : string) : Krc20PendingTransfer :=
  mkKrc20 (db_seq d) payout_id sompi nacho p2sh KPending None None (db_now d) (db_now d).

Definition insert_krc20_pending (payout_id sompi nacho : Z) (p2sh : string)
  : DB Krc20PendingTransfer :=
  fun d =>
    let row := new_krc20 d payout_id sompi nacho p2sh in
    if negb (krc20_check row) then Err check_violation else
    match krc20_of d payout_id with
    | Some _ => Err unique_violation
    | None => Ok (row, set_seq (db_seq d + 1) (set_krc20 (db_krc20 d ++ [row]) d))
    end.

Definition kt_refresh (sompi nacho : Z) (p2sh : string) (now : Z) (k : Krc20PendingTransfer)
  : Krc20PendingTransfer :=
  mkKrc20 (kt_id k) (kt_payout_id k) sompi nacho p2sh (kt_status k)
    (kt_commit_fee_sompi k) (kt_reveal_fee_sompi k) (kt_created_at k) now.

Definition ensure_krc20_pending (payout_id sompi nacho : Z) (p2sh : string)
  : DB Krc20PendingTransfer :=
  fun d =>
    let row := new_krc20 d payout_id sompi nacho p2sh in
    if negb (krc20_check row) then Err check_violation else
    match krc20_of d payout_id with
    | Some k =>
        let f := kt_refresh sompi nacho p2sh (db_now d) in
        (update_krc20 (fun k => kt_payout_id k =? payout_id) f ;;; db_ret (f k)) d
    | None => Ok (row, set_seq (db_seq d + 1) (set_krc20 (db_krc20 d ++ [row]) d))
    end.

Definition record_krc20_commit_hash (id : Z) (h : bytes) : DB unit :=
  update_payouts (fun p => po_id p =? id)
    (fun p => mkPayout (po_id p) (po_cycle_id p) (po_wallet_id p) (po_amount_sompi p)
                (po_status p) (po_tx_hash p) (Some h) (po_krc20_reveal_hash p)
                (po_planned_at p) (po_submitted_at p) (po_confirmed_at p)
                (po_accepted_daa_score p) (po_failure_reason p)) ;;; db_ret tt.

Definition record_krc20_reveal_hash (id : Z) (h : bytes) : DB unit :=
  update_payouts (fun p => po_id p =? id)
    (fun p => mkPayout (po_id p) (po_cycle_id p) (po_wallet_id p) (po_amount_sompi p)
                (po_status p) (po_tx_hash p) (po_krc20_commit_hash p) (Some h)
                (po_planned_at p) (po_submitted_at p) (po_confirmed_at p)
                (po_accepted_daa_score p) (po_failure_reason p)) ;;; db_ret tt.

Definition record_krc20_fees (payout_id commit_fee reveal_fee : Z) : DB unit :=
  fun d =>
    (update_krc20
       (fun k => (kt_payout_id k =? payout_id)
                 && bool_decide (kt_commit_fee_sompi k = None)
                 && bool_decide (kt_reveal_fee_sompi k = None))
       (fun k => mkKrc20 (kt_id k) (kt_payout_id k) (kt_sompi_to_miner k) (kt_nacho_amount k)
                   (kt_p2sh_address k) (kt_status k) (Some commit_fee) (Some reveal_fee)
                   (kt_created_at k) (db_now d)) ;;; db_ret tt) d.

Definition kt_set_status (s : Krc20TransferStatus) (now : Z) (k : Krc20PendingTransfer)
  : Krc20PendingTransfer :=
  mkKrc20 (kt_id k) (kt_payout_id k) (kt_sompi_to_miner k) (kt_nacho_amount k)
    (kt_p2sh_address k) s (kt_commit_fee_sompi k) (kt_reveal_fee_sompi k)
    (kt_created_at k) now.

Definition advance_krc20 (from : list Krc20TransferStatus) (to : Krc20TransferStatus)
    (payout_id : Z) : DB unit :=
  fun d => (update_krc20 (fun k => (kt_payout_id k =? payout_id) && krc20_status_in from k)
              (kt_set_status to (db_now d)) ;;; db_ret tt) d.

Definition mark_krc20_commit_submitted : Z -> DB unit :=
  advance_krc20 [KPending; KCommitSubmitted] KCommitSubmitted.
Definition mark_krc20_reveal_submitted : Z -> DB unit :=
  advance_krc20 [KCommitSubmitted; KRevealSubmitted] KRevealSubmitted.
Definition mark_krc20_completed : Z -> DB unit :=
  advance_krc20 [KRevealSubmitted; KCompleted] KCompleted.
Definition mark_krc20_failed (payout_id : Z) : DB unit :=
  fun d => (update_krc20
              (fun k => (kt_payout_id k =? payout_id) && negb (krc20_status_in [KCompleted] k))
              (kt_set_status KFailed (db_now d)) ;;; db_ret tt) d.

Definition list_krc20_by_status (statuses : list Krc20TransferStatus) (limit : Z)
  : DB (list Krc20PendingTransfer) :=
  db_read_checked (fun d =>
    sql_limit limit (sort_by (fun a b => kt_created_at a <=? kt_created_at b)
                       (List.filter (krc20_status_in statuses) (db_krc20 d)))).

Definition list_krc20_for_cycle (cycle_id : Z) : DB (list Krc20PendingTransfer) :=
  db_read (fun d =>
    sort_by (fun a b => (kt_created_at a <? kt_created_at b)
                        || ((kt_created_at a =? kt_created_at b) && (kt_id a <=? kt_id b)))
      (List.filter (fun k => match find_payout (fun p => po_id p =? kt_payout_id k) d with
                             | Some p => po_cycle_id p =? cycle_id
                             | None => false
                             end) (db_krc20 d))).

(** ** [pool_meta] *)

Definition meta_get (key : string) : DB (option string) := db_read (fun d => db_meta d !! key).
Definition meta_set (key value : string) : DB unit :=
  fun d => Ok (tt, set_meta (<[key := value]> (db_meta d)) d).
Definition meta_delete (key : string) : DB bool :=
  fun d => Ok (bool_decide (is_Some (db_meta d !! key)), set_meta (delete key (db_meta d)) d).

(** ** Well-formed payout tables *)

Definition opt_le (o : option Z) (hi : Z) : Prop := match o with Some t => t <= hi | None => True end.

Record payouts_wf (d : Db) : Prop := {
  wf_ids : List.NoDup (map po_id (db_payouts d));
  wf_recipients : List.NoDup (map (fun p => (po_cycle_id p, po_wallet_id p)) (db_payouts d));
  wf_ids_lt : Forall (fun p => po_id p < db_seq d) (db_payouts d);
  wf_check : Forall (fun p => payout_check p = true) (db_payouts d);
  wf_clock : Forall (fun p => po_planned_at p <= db_now d /\ opt_le (po_submitted_at p) (db_now d)
                              /\ opt_le (po_confirmed_at p) (db_now d)) (db_payouts d);
  wf_stamped : Forall (fun p => status_in [Submitted; Accepted; Confirmed] p = true ->
                                is_Some (po_submitted_at p)) (db_payouts d)
}.

Record cycles_wf (d : Db) : Prop := {
  wf_cycle_ids : List.NoDup (map cy_id (db_cycles d));
  wf_cycle_keys : List.NoDup (map cy_idempotency_key (db_cycles d));
  wf_cycle_ids_lt : Forall (fun c => cy_id c < db_seq d) (db_cycles d)
}.

(** The operations that change payout rows, as data. *)
Inductive PayoutOp :=
| OpInsert (cycle_id wallet_id amount : Z)
| OpEnsure (cycle_id wallet_id amount : Z)
| OpSubmit (id : Z) (tx_hash : bytes)
| OpAccept (id daa : Z)
| OpConfirm (id : Z)
| OpConfirmKrc20 (id : Z)
| OpFail (id : Z) (reason : string)
| OpCommitHash (id : Z) (h : bytes)
| OpRevealHash (id : Z) (h : bytes).

Definition run_payout_op (op : PayoutOp) : DB unit :=
  match op with
  | OpInsert c w a => insert_payout c w a ;;; db_ret tt
  | OpEnsure c w a => ensure_payout c w a ;;; db_ret tt
  | OpSubmit id h => mark_payout_submitted id h
  | OpAccept id daa => mark_payout_accepted id daa
  | OpConfirm id => mark_payout_confirmed id
  | OpConfirmKrc20 id => confirm_krc20_payout_once id ;;; db_ret tt
  | OpFail id r => mark_payout_failed id r
  | OpCommitHash id h => record_krc20_commit_hash id h
  | OpRevealHash id h => record_krc20_reveal_hash id h
  end.

(** The allowed changes of one row's status. *)
Inductive payout_edge : PayoutStatus -> PayoutStatus -> Prop :=
| edge_refl s : payout_edge s s
| edge_submit : payout_edge Planned Submitted
| edge_accept : payout_edge Submitted Accepted
| edge_confirm s : payout_edge s Confirmed
| edge_fail s : s <> Confirmed -> payout_edge s Failed.

(** What no operation ever changes of a row, and what changes only once. *)
Definition row_evolves (p p' : Payout) : Prop :=
  po_id p' = po_id p /\ po_cycle_id p' = po_cycle_id p /\ po_wallet_id p' = po_wallet_id p /\
  po_amount_sompi p' = po_amount_sompi p /\ po_planned_at p' = po_planned_at p /\
  payout_edge (po_status p) (po_status p') /\
  (forall t, po_submitted_at p = Some t -> po_submitted_at p' = Some t) /\
  (forall t, po_confirmed_at p = Some t -> po_confirmed_at p' = Some t) /\
  (forall s, po_accepted_daa_score p = Some s -> po_accepted_daa_score p' = Some s).

Lemma row_evolves_refl p : row_evolves p p.
Proof. repeat split; auto using payout_edge. Qed.

(** Every updating operation is one guarded row function applied everywhere. *)
Lemma update_payouts_ok p f d n d' :
  update_payouts p f d = Ok (n, d') ->
  d' = set_payouts (map (fun r => if p r then f r else r) (db_payouts d)) d /\
  tbl_update payout_check p f (db_payouts d)
    = Ok (map (fun r => if p r then f r else r) (db_payouts d), n).
Proof.
  unfold update_payouts. destruct (tbl_update _ _ _ _) as [[rows m]|e] eqn:E; [|discriminate].
  intros; inv_eqs. destruct (tbl_update_ok _ _ _ _ _ _ E) as [-> ->]. auto.
Qed.

Definition op_guard (op : PayoutOp) (p : Payout) : bool :=
  match op with
  | OpInsert _ _ _ | OpEnsure _ _ _ => false
  | OpSubmit id _ => (po_id p =? id) && status_in [Planned; Submitted] p
  | OpAccept id _ => (po_id p =? id) && status_in [Submitted; Accepted] p
  | OpConfirm id => (po_id p =? id) && status_in [Submitted; Accepted; Confirmed] p
  | OpConfirmKrc20 id | OpFail id _ => (po_id p =? id) && negb (status_in [Confirmed] p)
  | OpCommitHash id _ | OpRevealHash id _ => po_id p =? id
  end.

Definition op_effect (op : PayoutOp) (now : Z) (p : Payout) : Payout :=
  match op with
  | OpInsert _ _ _ | OpEnsure _ _ _ => p
  | OpSubmit _ h => po_submit h now p
  | OpAccept _ daa => po_accept daa p
  | OpConfirm _ => po_confirm (po_submitted_at p) now p
  | OpConfirmKrc20 _ => po_confirm (coalesce (po_submitted_at p) now) now p
  | OpFail _ r => po_fail r p
  | OpCommitHash _ h =>
      mkPayout (po_id p) (po_cycle_id p) (po_wallet_id p) (po_amount_sompi p)
        (po_status p) (po_tx_hash p) (Some h) (po_krc20_reveal_hash p)
        (po_planned_at p) (po_submitted_at p) (po_confirmed_at p)
        (po_accepted_daa_score p) (po_failure_reason p)
  | OpRevealHash _ h =>
      mkPayout (po_id p) (po_cycle_id p) (po_wallet_id p) (po_amount_sompi p)
        (po_status p) (po_tx_hash p) (po_krc20_commit_hash p) (Some h)
        (po_planned_at p) (po_submitted_at p) (po_confirmed_at p)
        (po_accepted_daa_score p) (po_failure_reason p)
  end.

Definition op_row (op : PayoutOp) (now : Z) (p : Payout) : Payout :=
  if op_guard op p then op_effect op now p else p.

Lemma op_row_evolves op now p : row_evolves p (op_row op now p).
Proof.
  unfold op_row. destruct (op_guard op p) eqn:G; [|apply row_evolves_refl].
  destruct op; try discriminate G; simpl in *; try apply andb_true_iff in G as [_ G];
    destruct p as [? ? ? ? st]; unfold row_evolves, status_in in *; simpl in *;
    repeat split; simpl; auto using payout_edge;
    try (destruct st; simpl in *; try discriminate; constructor; done);
    try (intros ? ->; done).
Qed.

(** An operation either rewrites rows in place or appends one planned row. *)
Lemma run_payout_op_shape op d d' :
  run_payout_op op d = Ok (tt, d') ->
  (db_payouts d' = map (op_row op (db_now d)) (db_payouts d) /\ db_seq d' = db_seq d /\
   tbl_update payout_check (op_guard op) (op_effect op (db_now d)) (db_payouts d)
     = Ok (map (op_row op (db_now d)) (db_payouts d),
           Z.of_nat (length (List.filter (op_guard op) (db_payouts d))))
   /\ db_now d' = db_now d)
  \/ (exists c w a, db_payouts d' = db_payouts d ++ [new_payout d c w a] /\
      db_seq d' = db_seq d + 1 /\ db_now d' = db_now d /\
      payout_check (new_payout d c w a) = true /\
      find_payout (same_recipient c w) d = None).
Proof.
  assert (Hid : forall l : list Payout, map (op_row (OpEnsure 0 0 0) (db_now d)) l = l).
  { intros l. unfold op_row. simpl. apply map_id. }
  destruct op; intros H; unfold run_payout_op in H;
    try (left; unfold mark_payout_submitted, mark_payout_accepted, mark_payout_confirmed,
           confirm_krc20_payout_once, mark_payout_failed, record_krc20_commit_hash,
           record_krc20_reveal_hash in H;
         repeat match type of H with
         | db_bind _ _ _ = Ok _ => apply db_bind_ok in H as (? & ? & H & ?)
         end;
         repeat match goal with Hr : db_ret _ _ = Ok _ |- _ => unfold db_ret in Hr end;
         inv_eqs; apply update_payouts_ok in H as [-> H];
         destruct (tbl_update_ok _ _ _ _ _ _ H) as [_ ->];
         repeat split; exact H);
    apply db_bind_ok in H as (r & d1 & H & H1); unfold db_ret in H1; inv_eqs;
    unfold insert_payout, ensure_payout in H;
    destruct (payout_check (new_payout d cycle_id wallet_id amount)) eqn:C; simpl in H;
    try discriminate;
    destruct (find_payout (same_recipient cycle_id wallet_id) d) eqn:F; inv_eqs;
    try discriminate.
  - right. exists cycle_id, wallet_id, amount. auto.
  - left. assert (E : map (op_row (OpEnsure cycle_id wallet_id amount) (db_now d'))
                        (db_payouts d') = db_payouts d')
      by (unfold op_row; simpl; apply map_id).
    rewrite E. repeat split; auto. unfold tbl_update. simpl.
    assert (forallb (fun _ : Payout => true) (db_payouts d') = true) as ->
      by (apply forallb_forall; auto).
    simpl. rewrite map_id. do 3 f_equal.
  - right. exists cycle_id, wallet_id, amount. auto.
Qed.

(** ** Preservation and evolution *)

Lemma op_row_ids op now l : map po_id (map (op_row op now) l) = map po_id l.
Proof. apply map_id_update. intros p. apply (op_row_evolves op now p). Qed.

Lemma op_row_recipients op now l :
  map (fun p => (po_cycle_id p, po_wallet_id p)) (map (op_row op now) l)
  = map (fun p => (po_cycle_id p, po_wallet_id p)) l.
Proof.
  apply (map_id_update (fun p => (po_cycle_id p, po_wallet_id p))). intros p.
  destruct (op_row_evolves op now p) as (_ & -> & -> & _). done.
Qed.

Lemma find_none_not_recipient c w d :
  find_payout (same_recipient c w) d = None ->
  ~ In (c, w) (map (fun p => (po_cycle_id p, po_wallet_id p)) (db_payouts d)).
Proof.
  intros F Hin. apply in_map_iff in Hin as (p & [= <- <-] & Hp).
  apply (find_none _ _ F) in Hp. unfold same_recipient in Hp. rewrite !Z.eqb_refl in Hp.
  discriminate.
Qed.

Lemma op_row_clock op now p :
  po_planned_at p <= now /\ opt_le (po_submitted_at p) now /\ opt_le (po_confirmed_at p) now ->
  let p' := op_row op now p in
  po_planned_at p' <= now /\ opt_le (po_submitted_at p') now /\ opt_le (po_confirmed_at p') now.
Proof.
  intros (H1 & H2 & H3). unfold op_row. destruct (op_guard op p); [|done].
  destruct p as [? ? ? ? ? ? ? ? ? [s|] [c|]], op; simpl in *; repeat split; try done; lia.
Qed.

Lemma op_row_stamped op now p :
  (status_in [Submitted; Accepted; Confirmed] p = true -> is_Some (po_submitted_at p)) ->
  status_in [Submitted; Accepted; Confirmed] (op_row op now p) = true ->
  is_Some (po_submitted_at (op_row op now p)).
Proof.
  intros H. unfold op_row. destruct (op_guard op p) eqn:G; [|done].
  destruct op; try discriminate G; simpl in G; try apply andb_true_iff in G as [_ G];
    destruct p as [? ? ? ? st ? ? ? ? [s|]]; unfold status_in in *; simpl in *; eauto;
    destruct st; simpl in *; auto; discriminate.
Qed.

Theorem run_payout_op_wf op d d' :
  payouts_wf d -> run_payout_op op d = Ok (tt, d') -> payouts_wf d'.
Proof.
  intros W H. destruct (run_payout_op_shape op d d' H)
    as [(E & Es & Hu & En)|(c & w & a & E & Es & En & C & F)].
  - split; rewrite ?E, ?Es, ?En.
    + rewrite op_row_ids. apply W.
    + rewrite op_row_recipients. apply W.
    + apply Forall_map. eapply Forall_impl; [exact (wf_ids_lt d W)|]. intros p Hp; simpl.
      destruct (op_row_evolves op (db_now d) p) as [-> _]. exact Hp.
    + eapply tbl_update_check; [exact Hu | exact (wf_check d W)].
    + apply Forall_map. eapply Forall_impl; [exact (wf_clock d W)|]. intros p. apply op_row_clock.
    + apply Forall_map. eapply Forall_impl; [exact (wf_stamped d W)|]. intros p. apply op_row_stamped.
  - split; rewrite ?E, ?Es, ?En, ?map_app.
    + apply NoDup_app_snoc; [apply W|]. simpl. intros Hin.
      apply in_map_iff in Hin as (p & Hp & Hin). pose proof (wf_ids_lt d W) as L.
      rewrite List.Forall_forall in L. specialize (L p Hin). lia.
    + apply NoDup_app_snoc; [apply W | now apply find_none_not_recipient].
    + apply Forall_app. split; [|repeat constructor; simpl; lia].
      eapply Forall_impl; [exact (wf_ids_lt d W)|]. simpl. intros. lia.
    + apply Forall_app. split; [apply W | repeat constructor; exact C].
    + apply Forall_app. split; [apply W | repeat constructor; simpl; lia].
    + apply Forall_app. split; [apply W|]. repeat constructor. discriminate.
Qed.

Lemma run_payout_op_evolves op d d' p :
  run_payout_op op d = Ok (tt, d') -> In p (db_payouts d) ->
  exists p', In p' (db_payouts d') /\ row_evolves p p'.
Proof.
  intros H Hp. destruct (run_payout_op_shape op d d' H)
    as [(E & _)|(c & w & a & E & _)]; rewrite E.
  - exists (op_row op (db_now d) p). split; [now apply in_map | apply op_row_evolves].
  - exists p. split; [apply in_app_iff; auto | apply row_evolves_refl].
Qed.

(** Rows that appear are planned, with the amount asked for. *)
Lemma run_payout_op_origin op d d' p' :
  run_payout_op op d = Ok (tt, d') -> In p' (db_payouts d') ->
  (exists p, In p (db_payouts d) /\ row_evolves p p') \/
  (exists c w a, p' = new_payout d c w a).
Proof.
  intros H Hp. destruct (run_payout_op_shape op d d' H)
    as [(E & _)|(c & w & a & E & _)]; rewrite E in Hp.
  - apply in_map_iff in Hp as (p & <- & Hp). left. exists p. split; [done|apply op_row_evolves].
  - apply in_app_iff in Hp as [Hp|[<-|[]]]; [left|right; eauto].
    exists p'. split; [done|apply row_evolves_refl].
Qed.

Definition run_payout_ops (ops : list PayoutOp) : DB unit := db_iter run_payout_op ops.

Lemma run_payout_ops_wf ops d d' :
  payouts_wf d -> run_payout_ops ops d = Ok (tt, d') -> payouts_wf d'.
Proof.
  revert d. induction ops as [|op ops IH]; simpl; intros d W H.
  - unfold run_payout_ops in H. simpl in H. unfold db_ret in H. now inv_eqs.
  - apply db_bind_ok in H as ([] & d1 & H1 & H2).
    eapply IH; [eapply run_payout_op_wf; eauto | exact H2].
Qed.

(** Confirmation is terminal: whatever sequence of repository operations
    runs after a payout row is [confirmed], the row stays [confirmed] with its
    recipient, amount, confirmation time and accepting DAA score unchanged. *)
Theorem confirmed_is_terminal ops d d' p :
  run_payout_ops ops d = Ok (tt, d') -> In p (db_payouts d) -> po_status p = Confirmed ->
  exists p', In p' (db_payouts d') /\ po_id p' = po_id p /\ po_cycle_id p' = po_cycle_id p /\
    po_wallet_id p' = po_wallet_id p /\ po_amount_sompi p' = po_amount_sompi p /\
    po_status p' = Confirmed /\
    (forall t, po_confirmed_at p = Some t -> po_confirmed_at p' = Some t) /\
    (forall s, po_accepted_daa_score p = Some s -> po_accepted_daa_score p' = Some s).
Proof.
  revert d p. induction ops as [|op ops IH]; intros d p H Hp Hs.
  - unfold run_payout_ops in H. simpl in H. unfold db_ret in H. inv_eqs. exists p. auto 10.
  - apply db_bind_ok in H as ([] & d1 & H1 & H2).
    destruct (run_payout_op_evolves op d d1 p H1 Hp)
      as (q & Hq & E1 & E2 & E3 & E4 & _ & Ed & _ & Ec & Ea).
    assert (po_status q = Confirmed) as Hqs.
    { rewrite Hs in Ed. inversion Ed; congruence. }
    destruct (IH d1 q H2 Hq Hqs) as (p' & Hp' & F1 & F2 & F3 & F4 & F5 & F6 & F7).
    exists p'. repeat split; try congruence; eauto.
Qed.

(** ** Exactly-once confirmation of KRC-20 payouts *)

Lemma confirm_krc20_run id d b d' :
  confirm_krc20_payout_once id d = Ok (b, d') ->
  run_payout_op (OpConfirmKrc20 id) d = Ok (tt, d') /\
  b = (Z.of_nat (length (List.filter (op_guard (OpConfirmKrc20 id)) (db_payouts d))) =? 1).
Proof.
  intros H. split; [simpl; unfold db_bind; rewrite H; done|].
  unfold confirm_krc20_payout_once in H. apply db_bind_ok in H as (n & d1 & H & H1).
  apply update_payouts_ok in H as [-> H]. apply tbl_update_ok in H as [_ ->].
  unfold db_ret in H1. inv_eqs. done.
Qed.

Definition all_confirmed (id : Z) (d : Db) : Prop :=
  Forall (fun p => po_id p = id -> po_status p = Confirmed) (db_payouts d).

Lemma confirmed_not_guarded id d p :
  all_confirmed id d -> In p (db_payouts d) -> op_guard (OpConfirmKrc20 id) p = false.
Proof.
  unfold all_confirmed. rewrite List.Forall_forall. intros H Hp. simpl.
  destruct (Z.eqb_spec (po_id p) id) as [E|]; [|done].
  unfold status_in. simpl. now rewrite (H p Hp E).
Qed.

Lemma status_in_single s p : status_in [s] p = true <-> po_status p = s.
Proof. unfold status_in. simpl. rewrite orb_false_r. apply bool_decide_eq_true. Qed.

Lemma confirm_krc20_all id d b d' :
  confirm_krc20_payout_once id d = Ok (b, d') -> all_confirmed id d'.
Proof.
  unfold confirm_krc20_payout_once. intros (n & d1 & H & H1)%db_bind_ok.
  apply update_payouts_ok in H as [-> _]. unfold db_ret in H1. inv_eqs.
  apply Forall_map, List.Forall_forall. intros p _.
  destruct (Z.eqb_spec (po_id p) id) as [_|]; simpl; [|intros; congruence].
  destruct (status_in [Confirmed] p) eqn:S; [|intros; reflexivity].
  intros _. now apply status_in_single.
Qed.

Lemma run_payout_op_keeps_confirmed op id d d' :
  payouts_wf d -> id < db_seq d -> all_confirmed id d -> run_payout_op op d = Ok (tt, d') ->
  all_confirmed id d' /\ id < db_seq d'.
Proof.
  unfold all_confirmed. rewrite !List.Forall_forall. intros W Hid A H. split.
  - intros p' Hp' E. destruct (run_payout_op_origin _ _ _ _ H Hp')
      as [(p & Hp & Ei & _ & _ & _ & _ & Ed & _)|(c & w & a & ->)]; [|simpl in E; lia].
    rewrite (A p Hp) in Ed by congruence. inversion Ed; congruence.
  - destruct (run_payout_op_shape _ _ _ H) as [(_ & -> & _)|(? & ? & ? & _ & -> & _)]; lia.
Qed.

(** A KRC-20 payout is confirmed exactly once: after
    [confirm_krc20_payout_once] has returned [true] for a row, every later call,
    with any repository operations in between, returns [false] and changes no
    payout row, so the caller credits the rebate at most once. *)
Theorem confirm_krc20_exactly_once id ops d d1 d2 d3 b :
  payouts_wf d -> confirm_krc20_payout_once id d = Ok (true, d1) ->
  run_payout_ops ops d1 = Ok (tt, d2) -> confirm_krc20_payout_once id d2 = Ok (b, d3) ->
  b = false /\ db_payouts d3 = db_payouts d2.
Proof.
  intros W H1 H2 H3. pose proof (confirm_krc20_all _ _ _ _ H1) as A1.
  destruct (confirm_krc20_run _ _ _ _ H1) as [R1 B1].
  assert (Hid : id < db_seq d1).
  { destruct (List.filter (op_guard (OpConfirmKrc20 id)) (db_payouts d)) as [|p l] eqn:F;
      [discriminate B1|].
    assert (In p (List.filter (op_guard (OpConfirmKrc20 id)) (db_payouts d))) as [Hp G]%filter_In
      by (rewrite F; now left).
    simpl in G. apply andb_true_iff in G as [E _]. apply Z.eqb_eq in E.
    pose proof (wf_ids_lt d W) as L. rewrite List.Forall_forall in L. specialize (L p Hp).
    destruct (run_payout_op_shape _ _ _ R1) as [(_ & -> & _)|(? & ? & ? & _ & -> & _)]; lia. }
  pose proof (run_payout_op_wf _ _ _ W R1) as W1. clear W H1 R1 B1.
  revert d1 A1 Hid W1 H2. induction ops as [|op ops IH]; intros d1 A1 Hid W1 H2.
  - unfold run_payout_ops in H2. simpl in H2. unfold db_ret in H2. inv_eqs.
    destruct (confirm_krc20_run _ _ _ _ H3) as [R3 ->].
    rewrite filter_nil by (intros p; apply confirmed_not_guarded, A1). split; [done|].
    destruct (run_payout_op_shape _ _ _ R3) as [(-> & _)|(? & ? & ? & E & Es & _)].
    + rewrite <- (map_id (db_payouts d2)) at 2. apply map_ext_in. intros p Hp.
      unfold op_row. now rewrite (confirmed_not_guarded id d2 p A1 Hp).
    + exfalso. unfold confirm_krc20_payout_once in H3.
      apply db_bind_ok in H3 as (? & ? & H3 & H4). apply update_payouts_ok in H3 as [-> _].
      unfold db_ret in H4. inv_eqs. simpl in Es. lia.
  - apply db_bind_ok in H2 as ([] & d1' & Ha & Hb).
    destruct (run_payout_op_keeps_confirmed _ _ _ _ W1 Hid A1 Ha) as [A1' Hid'].
    eapply IH; eauto using run_payout_op_wf.
Qed.
