(* ===== verification/PayoutSpec.v ===== *)
(** * Contracts of the payout repository

    Idempotency keys, idempotent insertion, absence of constraint failures on
    well-formed tables, and what the eligibility query selects. *)
From stdpp Require Import pretty.
From Stdlib Require Import Ascii.
From S2P Require Import Prelude F64 FeeModel Schema PayoutDb.
Open Scope Z_scope.

(** ** Idempotency keys *)

(** A string without the separator. *)
Fixpoint no_dash (s : string) : bool :=
  match s with
  | EmptyString => true
  | String c s => negb (Ascii.eqb c "-"%char) && no_dash s
  end.

Lemma append_cons c s t : String c s +:+ t = String c (s +:+ t).
Proof. reflexivity. Qed.
Lemma append_nil t : EmptyString +:+ t = t.
Proof. reflexivity. Qed.

Lemma no_dash_split u v u' v' :
  no_dash u = true -> no_dash u' = true ->
  u +:+ "-" +:+ v = u' +:+ "-" +:+ v' -> u = u' /\ v = v'.
Proof.
  revert u'. induction u as [|c u IH]; intros [|c' u']; simpl; intros H H' E;
    rewrite ?append_cons, ?append_nil in E; simplify_eq/=; try discriminate; [done|].
  apply andb_true_iff in H as [_ H]. apply andb_true_iff in H' as [_ H'].
  match goal with E : _ +:+ _ = _ +:+ _ |- _ => destruct (IH u' H H' E) as [-> ->] end. done.
Qed.

Lemma pretty_N_go_no_dash x s : no_dash s = true -> no_dash (pretty_N_go x s) = true.
Proof.
  revert s. induction (N.lt_wf_0 x) as [x _ IH]; intros s Hs.
  assert (x = 0 \/ 0 < x)%N as [->|Hx] by lia; [done|].
  rewrite pretty_N_go_step by done. apply IH; [now apply N.div_lt|].
  simpl. rewrite Hs, andb_true_r. unfold pretty_N_char. now repeat case_match.
Qed.

Lemma pretty_nonneg_no_dash z : 0 <= z -> no_dash (pretty z) = true.
Proof.
  intros Hz. destruct z as [|p|p]; [done| |lia].
  change (pretty (Zpos p)) with (pretty (Npos p)).
  unfold pretty, pretty_N. case_decide; [done|]. now apply pretty_N_go_no_dash.
Qed.

(** Distinct payout windows never share a cycle: the idempotency key
    determines the cycle kind and both window bounds. *)
Theorem idempotency_key_injective k a b k' a' b' :
  in_u64 a -> in_u64 b -> in_u64 a' -> in_u64 b' ->
  idempotency_key k a b = idempotency_key k' a' b' -> k = k' /\ a = a' /\ b = b'.
Proof.
  unfold in_u64, idempotency_key. intros Ha Hb Ha' Hb' E.
  apply no_dash_split in E as [Ek E]; [|now destruct k|now destruct k'].
  apply no_dash_split in E as [Ea Eb];
    [|apply pretty_nonneg_no_dash; lia|apply pretty_nonneg_no_dash; lia].
  apply (inj pretty) in Ea, Eb. destruct k, k'; simplify_eq; auto.
Qed.

Lemma idempotency_key_injective_witness :
  idempotency_key Zkas 3600 7200 = idempotency_key Zkas 3600 7200 /\
  Zkas = Zkas /\ 3600 = 3600 /\ 7200 = 7200.
Proof.
  split; [reflexivity|].
  apply (idempotency_key_injective Zkas 3600 7200 Zkas 3600 7200);
    [unfold in_u64, u64_max; lia .. | reflexivity].
Defined.

(** A key the pool generates never looks like an imported legacy cycle: the
    character after the kind prefix is a digit. *)
Lemma pretty_nonneg_head z c s : 0 <= z -> pretty z = String c s -> Ascii.eqb c "l" = false.
Proof.
  intros Hz E.
  assert (forall x s, match s with String c _ => Ascii.eqb c "l" = false | _ => True end ->
            match pretty_N_go x s with String c _ => Ascii.eqb c "l" = false | _ => True end) as G.
  { intros x. induction (N.lt_wf_0 x) as [x _ IH]; intros t Ht.
    assert (x = 0 \/ 0 < x)%N as [->|Hx] by lia; [done|].
    rewrite pretty_N_go_step by done. apply IH; [now apply N.div_lt|].
    unfold pretty_N_char. now repeat case_match. }
  destruct z as [|p|p]; [unfold pretty, pretty_Z in E; injection E as <- _; done| |lia].
  change (pretty (Zpos p)) with (pretty (Npos p)) in E. unfold pretty, pretty_N in E.
  case_decide; [injection E as <- _; done|].
  specialize (G (Npos p) ""%string I). rewrite E in G. exact G.
Qed.

(** ** Idempotent insertion *)

(** Re-planning a recipient is idempotent: once [ensure_payout] has
    returned a row for a (cycle, wallet), every later call for that pair, with
    any valid amount, returns the same row and leaves the database unchanged. *)
Theorem ensure_payout_idempotent c w a a' d p d' :
  ensure_payout c w a d = Ok (p, d') -> 0 < a' ->
  ensure_payout c w a' d' = Ok (p, d').
Proof.
  unfold ensure_payout. intros H Ha'.
  assert (forall x e, 0 < x -> payout_check (new_payout e c w x) = true) as C.
  { intros x e Hx. unfold payout_check. simpl. apply Z.ltb_lt in Hx. now rewrite Hx. }
  rewrite (C a' d' Ha'). simpl.
  destruct (payout_check (new_payout d c w a)); [|discriminate]. simpl in H.
  unfold find_payout in *.
  destruct (List.find (same_recipient c w) (db_payouts d)) as [q|] eqn:F; inv_eqs; [now rewrite F|].
  simpl. assert (List.find (same_recipient c w) (db_payouts d ++ [new_payout d c w a])
                 = Some (new_payout d c w a)) as ->; [|done].
  clear C. induction (db_payouts d) as [|r l IH]; simpl in *.
  - unfold same_recipient. simpl. now rewrite !Z.eqb_refl.
  - destruct (same_recipient c w r); [discriminate|]. auto.
Qed.

Lemma ensure_payout_idempotent_witness :
  exists p d', ensure_payout 7 3 100 empty_db = Ok (p, d') /\
    ensure_payout 7 3 250 d' = Ok (p, d') /\ po_amount_sompi p = 100.
Proof.
  eexists _, _. split; [reflexivity|]. split; [|reflexivity].
  apply (ensure_payout_idempotent 7 3 100 250 empty_db); [reflexivity|lia].
Defined.

(** ** No constraint failures on well-formed tables *)

Lemma payout_check_split p : payout_check p = true ->
  0 < po_amount_sompi p /\ hash_len_ok (po_tx_hash p) = true /\
  hash_len_ok (po_krc20_commit_hash p) = true /\ hash_len_ok (po_krc20_reveal_hash p) = true /\
  opt_ge (po_submitted_at p) (po_planned_at p) = true /\
  opt_ge (po_accepted_daa_score p) 0 = true.
Proof. unfold payout_check. intros. to_prop. auto 10. Qed.

Lemma po_submit_check h now p :
  payout_check p = true -> length h = 32%nat -> po_planned_at p <= now ->
  status_in [Planned; Submitted] p = true ->
  opt_le (po_submitted_at p) now -> opt_le (po_confirmed_at p) now ->
  (po_confirmed_at p <> None -> is_Some (po_submitted_at p)) ->
  payout_check (po_submit h now p) = true.
Proof.
  intros C Hh Hp _ Hs Hc _. unfold payout_check in *. to_prop. simpl.
  repeat (apply andb_true_iff; split); auto.
  - now apply Z.ltb_lt.
  - rewrite Hh. done.
  - destruct (po_submitted_at p); simpl in *; [done|]. now apply Z.leb_le.
  - destruct (po_confirmed_at p); [|done]. destruct (po_submitted_at p); [done|discriminate].
Qed.

Lemma submit_total d id h :
  payouts_wf d -> length h = 32%nat ->
  mark_payout_submitted id h d
  = Ok (tt, set_payouts (map (op_row (OpSubmit id h) (db_now d)) (db_payouts d)) d).
Proof.
  intros W Hh.
  pose proof (wf_check d W) as C. pose proof (wf_clock d W) as K.
  rewrite List.Forall_forall in C, K.
  unfold mark_payout_submitted, update_payouts, db_bind. rewrite tbl_update_total; [done|].
  intros r Hr G. apply andb_true_iff in G as [_ G]. specialize (C r Hr).
  destruct (K r Hr) as (K1 & K2 & K3).
  apply po_submit_check; auto. unfold payout_check in C. to_prop.
  destruct (po_confirmed_at r); [|done]. destruct (po_submitted_at r); [eauto|discriminate].
Qed.

(** On a well-formed payout table the three settlement updates of the
    shielded payout path never fail: no [CHECK] constraint can fire, so after a
    send the transaction id is recordable. *)
Theorem settlement_updates_total d id h daa :
  payouts_wf d -> length h = 32%nat -> 0 <= daa ->
  is_ok (mark_payout_submitted id h d) = true /\
  is_ok (mark_payout_accepted id daa d) = true /\
  is_ok (mark_payout_confirmed id d) = true.
Proof.
  intros W Hh Hd.
  pose proof (wf_check d W) as C. pose proof (wf_clock d W) as K. pose proof (wf_stamped d W) as S.
  rewrite List.Forall_forall in C, K, S.
  split; [now rewrite submit_total|].
  split; unfold mark_payout_accepted, mark_payout_confirmed,
    update_payouts, db_bind; rewrite tbl_update_total; try done; intros r Hr G;
    apply andb_true_iff in G as [_ G]; specialize (C r Hr); destruct (K r Hr) as (K1 & K2 & K3).
  - unfold payout_check in *. to_prop. simpl. repeat (apply andb_true_iff; split); auto.
    + now apply Z.ltb_lt.
    + destruct (po_accepted_daa_score r); simpl in *; [done|now apply Z.leb_le].
  - assert (is_Some (po_submitted_at r)) as [s Es].
    { apply (S r Hr). unfold status_in in *. simpl in *. exact G. }
    unfold payout_check in *. to_prop. simpl. rewrite Es in *.
    repeat (apply andb_true_iff; split); auto; [now apply Z.ltb_lt|].
    destruct (po_confirmed_at r); simpl in *; [done|]. now apply Z.leb_le.
Qed.

Definition sample_payout_db : Db :=
  mkDb 50 9 [sample_wallet 3 "miner"] [] [] [] [] [] []
    [mkPayout 8 7 3 100 Planned None None None 40 None None None None] [] ∅ [] [] [] [] [].

Lemma sample_payout_wf : payouts_wf sample_payout_db.
Proof.
  split; unfold sample_payout_db; simpl; repeat constructor; simpl; auto; try lia; try easy.
Qed.

Lemma settlement_updates_total_witness :
  is_ok (mark_payout_submitted 8 (repeat 0 32) sample_payout_db) = true /\
  is_ok (mark_payout_accepted 8 5 sample_payout_db) = true /\
  is_ok (mark_payout_confirmed 8 sample_payout_db) = true.
Proof.
  apply settlement_updates_total; [apply sample_payout_wf | reflexivity | lia].
Defined.

Lemma confirmed_is_terminal_witness :
  exists d', run_payout_ops [OpFail 8 "late"; OpConfirm 8; OpSubmit 8 (repeat 1 32)]
               (set_payouts [mkPayout 8 7 3 100 Confirmed (Some (repeat 0 32)) None None 40
                               (Some 41) (Some 42) (Some 5) None] sample_payout_db) = Ok (tt, d') /\
    exists p', In p' (db_payouts d') /\ po_id p' = 8 /\ po_cycle_id p' = 7 /\
    po_wallet_id p' = 3 /\ po_amount_sompi p' = 100 /\ po_status p' = Confirmed /\
    (forall t, Some 42 = Some t -> po_confirmed_at p' = Some t) /\
    (forall s, Some 5 = Some s -> po_accepted_daa_score p' = Some s).
Proof.
  eexists. split; [vm_compute; reflexivity|].
  apply (confirmed_is_terminal [OpFail 8 "late"; OpConfirm 8; OpSubmit 8 (repeat 1 32)]
           (set_payouts [mkPayout 8 7 3 100 Confirmed (Some (repeat 0 32)) None None 40
                           (Some 41) (Some 42) (Some 5) None] sample_payout_db) _
           (mkPayout 8 7 3 100 Confirmed (Some (repeat 0 32)) None None 40
              (Some 41) (Some 42) (Some 5) None)); [vm_compute; reflexivity | now left | reflexivity].
Defined.

Lemma confirm_krc20_exactly_once_witness :
  exists d1 d2 d3, confirm_krc20_payout_once 8 sample_payout_db = Ok (true, d1) /\
    run_payout_ops [OpFail 8 "late"] d1 = Ok (tt, d2) /\
    confirm_krc20_payout_once 8 d2 = Ok (false, d3) /\
    (false = false /\ db_payouts d3 = db_payouts d2).
Proof.
  eexists _, _, _.
  split; [vm_compute; reflexivity|]. split; [vm_compute; reflexivity|].
  split; [vm_compute; reflexivity|].
  eapply (confirm_krc20_exactly_once 8 [OpFail 8 "late"] sample_payout_db);
    [apply sample_payout_wf | vm_compute; reflexivity .. ].
Defined.

(** ** Eligibility *)

Lemma eligible_le_total a b : eligible_le a b = true \/ eligible_le b a = true.
Proof.
  unfold eligible_le.
  destruct (Z.ltb_spec (el_payable_sompi b) (el_payable_sompi a)); simpl; [auto|].
  destruct (Z.ltb_spec (el_payable_sompi a) (el_payable_sompi b)); simpl; [auto|].
  replace (el_payable_sompi b) with (el_payable_sompi a) by lia. rewrite Z.eqb_refl. simpl.
  destruct (Z.leb_spec (el_wallet_id a) (el_wallet_id b)); [auto|].
  right. apply Z.leb_le. lia.
Qed.

Lemma eligible_le_trans a b c :
  eligible_le a b = true -> eligible_le b c = true -> eligible_le a c = true.
Proof.
  unfold eligible_le. rewrite !orb_true_iff, !andb_true_iff, !Z.ltb_lt, !Z.eqb_eq, !Z.leb_le. lia.
Qed.

Lemma eligible_query k threshold d rows d' :
  list_eligible_wallets k threshold d = Ok (rows, d') ->
  d' = d /\
  (List.NoDup (map w_id (db_wallets d)) -> List.NoDup (map el_wallet_id rows)) /\
  (forall r, In r rows <->
     exists w, In w (db_wallets d) /\ wallet_allocations d (w_id w) <> [] /\
       threshold <= allocated_sompi d (w_id w) - confirmed_paid_sompi k d (w_id w) /\
       r = eligible_row k d w).
Proof.
  unfold list_eligible_wallets, db_read_checked. intros H.
  destruct (forallb _ _) eqn:F; [|discriminate]. injection H as <- <-.
  split; [done|]. split.
  - intros ND. apply sort_by_NoDup_map, NoDup_map_filter. rewrite map_map.
    now apply (NoDup_map_filter w_id).
  - intros r. rewrite sort_by_In, filter_In, in_map_iff. split.
    + intros [(w & <- & Hw) Ht]. apply filter_In in Hw as [Hw Hn]. apply Z.leb_le in Ht.
      exists w. repeat split; auto. intros E. now rewrite E in Hn.
    + intros (w & Hw & Hn & Ht & ->). split; [|now apply Z.leb_le].
      exists w. split; [done|]. apply filter_In. split; [done|].
      destruct (wallet_allocations d (w_id w)); [done|]. reflexivity.
Qed.

(** The eligibility query returns exactly the wallets that have been
    allocated something and whose allocated minus confirmed balance reaches the
    threshold, each once, largest balance first (ties by wallet id), with that
    balance as the payable amount. *)
Theorem eligible_wallets_spec k threshold d rows d' :
  List.NoDup (map w_id (db_wallets d)) ->
  list_eligible_wallets k threshold d = Ok (rows, d') ->
  d' = d /\
  StronglySorted (fun a b => eligible_le a b = true) rows /\
  List.NoDup (map el_wallet_id rows) /\
  (forall r, In r rows <->
     exists w, In w (db_wallets d) /\ wallet_allocations d (w_id w) <> [] /\
       threshold <= allocated_sompi d (w_id w) - confirmed_paid_sompi k d (w_id w) /\
       r = eligible_row k d w).
Proof.
  intros ND H. destruct (eligible_query _ _ _ _ _ H) as (E & N & S).
  split; [exact E|]. split; [|auto].
  unfold list_eligible_wallets, db_read_checked in H.
  destruct (forallb _ _) eqn:F; [|discriminate]. injection H as <- _.
  apply sort_by_sorted; [apply eligible_le_total | apply eligible_le_trans].
Qed.

Definition sample_eligible_db : Db :=
  mkDb 50 9 [sample_wallet 3 "a"; sample_wallet 4 "b"] [] [] []
    [mkShareAllocation 1 1 3 (f64_of_Z 1) (f64_of_Z 2) 900 0 0 900 40 0 0 Standard;
     mkShareAllocation 2 1 4 (f64_of_Z 1) (f64_of_Z 2) 1400 0 0 1400 40 0 0 Standard]
    [] [] [] [] ∅ [] [] [] [] [].

Lemma eligible_wallets_spec_witness :
  exists rows, list_eligible_wallets Zkas 500 sample_eligible_db = Ok (rows, sample_eligible_db) /\
    map el_payable_sompi rows = [1400; 900] /\
    StronglySorted (fun a b => eligible_le a b = true) rows.
Proof.
  eexists. split; [vm_compute; reflexivity|]. split; [reflexivity|].
  eapply (eligible_wallets_spec Zkas 500 sample_eligible_db); [|vm_compute; reflexivity].
  simpl. repeat constructor; simpl; intuition lia.
Defined.
