(* ===== verification/Domain.v ===== *)
(** * Domain types ([crates/katpool-domain/src])

    Validated addresses, worker names, share difficulties, block-hash display
    and the log redactor.  A Rust [str] is the list of its Unicode scalar
    values; [len()] is the length of its UTF-8 encoding. *)
From Stdlib Require Import SpecFloat Ascii.
From S2P Require Import Prelude F64.
Open Scope Z_scope.

(** ** Text *)

Definition text := list Z.

(** An ASCII literal, or an ASCII column of the database. *)
Definition lit (s : string) : text :=
  map (fun c => Z.of_nat (nat_of_ascii c)) (String.list_ascii_of_string s).

Definition utf8_width (c : Z) : Z :=
  if c <? 128 then 1 else if c <? 2048 then 2 else if c <? 65536 then 3 else 4.
Definition len (s : text) : Z := sumZ (map utf8_width s).

Definition is_ascii_digit (c : Z) : bool := (48 <=? c) && (c <=? 57).
Definition is_ascii_lowercase (c : Z) : bool := (97 <=? c) && (c <=? 122).
Definition is_ascii_uppercase (c : Z) : bool := (65 <=? c) && (c <=? 90).
Definition is_ascii_alphanumeric (c : Z) : bool :=
  is_ascii_digit c || is_ascii_lowercase c || is_ascii_uppercase c.

Fixpoint strip_prefix (p s : text) : option text :=
  match p, s with
  | [], _ => Some s
  | c :: p, d :: s => if c =? d then strip_prefix p s else None
  | _ :: _, [] => None
  end.

Lemma strip_prefix_Some p s body : strip_prefix p s = Some body <-> s = p ++ body.
Proof.
  revert s. induction p as [|c p IH]; intros s; simpl; [split; congruence|].
  destruct s as [|d s]; [split; discriminate|].
  destruct (Z.eqb_spec c d) as [->|Hne].
  - rewrite IH. split; congruence.
  - split; [discriminate|congruence].
Qed.

Lemma len_app a b : len (a ++ b) = len a + len b.
Proof. unfold len. now rewrite map_app, sumZ_app. Qed.

Lemma len_ascii s : Forall (fun c => c < 128) s -> len s = Z.of_nat (length s).
Proof.
  induction 1 as [|c s Hc _ IH]; [done|]. unfold len in *. cbn [map sumZ length].
  rewrite IH. unfold utf8_width. apply Z.ltb_lt in Hc. rewrite Hc. lia.
Qed.

(** ** [address.rs] *)

Inductive AddressError :=
| InvalidPrefix
| TooShort (len : Z)
| TooLong (len : Z)
| InvalidCharacter (ch : Z).

Definition ACCEPTED_PREFIXES : list text :=
  map lit ["zkastest:"; "zkassim:"; "zkasdev:"; "zkas:";
           "firecashtest:"; "firecashsim:"; "firecashdev:"; "firecash:";
           "kaspatest:"; "kaspa:"]%string.

Definition MIN_TOTAL_LEN : Z := 13.
Definition MAX_TOTAL_LEN : Z := 110.

Definition is_body_char (c : Z) : bool := is_ascii_lowercase c || is_ascii_digit c.

(** [iter().find_map(..)]. *)
Fixpoint find_map {A B} (f : A -> option B) (l : list A) : option B :=
  match l with
  | [] => None
  | x :: l => match f x with Some b => Some b | None => find_map f l end
  end.

Definition WalletAddress_new (s : text) : result text AddressError :=
  match find_map (fun p => strip_prefix p s) ACCEPTED_PREFIXES with
  | None => Err InvalidPrefix
  | Some body =>
      if len s <? MIN_TOTAL_LEN then Err (TooShort (len s))
      else if MAX_TOTAL_LEN <? len s then Err (TooLong (len s))
      else match List.find (fun c => negb (is_body_char c)) body with
           | Some ch => Err (InvalidCharacter ch)
           | None => Ok s
           end
  end.

Lemma find_map_Some {A B} (f : A -> option B) l b :
  find_map f l = Some b -> exists x, In x l /\ f x = Some b.
Proof.
  induction l as [|x l IH]; simpl; [discriminate|].
  destruct (f x) eqn:E; [intros [= ->]; eauto|]. intros H. destruct (IH H) as (y & Hy & Ey). eauto.
Qed.

Lemma find_map_None {A B} (f : A -> option B) l x : find_map f l = None -> In x l -> f x = None.
Proof.
  induction l as [|y l IH]; simpl; [done|].
  destruct (f y) eqn:E; [discriminate|]. intros H [->|Hx]; auto.
Qed.

Lemma find_none_forallb {A} (f : A -> bool) l :
  List.find (fun c => negb (f c)) l = None <-> forallb f l = true.
Proof.
  induction l as [|x l IH]; simpl; [done|]. destruct (f x); simpl; [exact IH|]. split; discriminate.
Qed.

(** The text before the first colon. *)
Fixpoint up_to_colon (s : text) : text :=
  match s with
  | [] => []
  | c :: s => if c =? 58 then [58] else c :: up_to_colon s
  end.

Lemma accepted_prefix_up_to_colon p body : In p ACCEPTED_PREFIXES -> up_to_colon (p ++ body) = p.
Proof. intros H. repeat (destruct H as [<-|H]; [reflexivity|]). destruct H. Qed.

(** Every accepted prefix ends at its only colon, so no prefix can shadow another. *)
Lemma accepted_prefix_unique p q b b' :
  In p ACCEPTED_PREFIXES -> In q ACCEPTED_PREFIXES -> p ++ b = q ++ b' -> p = q /\ b = b'.
Proof.
  intros Hp Hq E.
  assert (p = q) as -> by (rewrite <- (accepted_prefix_up_to_colon p b Hp), E;
                           now apply accepted_prefix_up_to_colon).
  split; [done|]. now apply app_inv_head in E.
Qed.

(** Address validation accepts exactly the strings made of an accepted prefix
    and a body of lowercase letters and digits, 13 to 110 bytes long in all, and
    returns them unchanged; the prefix is unique, so the order in which the
    prefixes are tried does not matter. *)
Theorem WalletAddress_new_spec s a :
  WalletAddress_new s = Ok a <->
  a = s /\ MIN_TOTAL_LEN <= len s <= MAX_TOTAL_LEN /\
  exists! pb, In (fst pb) ACCEPTED_PREFIXES /\ s = fst pb ++ snd pb /\
              forallb is_body_char (snd pb) = true.
Proof.
  unfold WalletAddress_new. split.
  - destruct (find_map _ _) as [body|] eqn:F; [|discriminate].
    apply find_map_Some in F as (p & Hp & E). apply strip_prefix_Some in E.
    destruct (Z.ltb_spec (len s) MIN_TOTAL_LEN); [discriminate|].
    destruct (Z.ltb_spec MAX_TOTAL_LEN (len s)); [discriminate|].
    destruct (List.find _ body) eqn:B; [discriminate|]. intros [= <-].
    apply find_none_forallb in B. split; [done|]. split; [lia|].
    exists (p, body). split; [auto|]. intros [q b] (Hq & Eq & _). cbn [fst snd] in *.
    destruct (accepted_prefix_unique p q body b Hp Hq) as [-> ->]; [congruence|done].
  - intros (-> & Hl & [p b] & (Hp & Es & Hb) & _). cbn [fst snd] in *.
    destruct (find_map _ _) as [body|] eqn:F.
    + apply find_map_Some in F as (q & Hq & E). apply strip_prefix_Some in E.
      destruct (accepted_prefix_unique p q b body) as [-> ->]; [done|done|congruence|].
      destruct (Z.ltb_spec (len s) MIN_TOTAL_LEN); [lia|].
      destruct (Z.ltb_spec MAX_TOTAL_LEN (len s)); [lia|].
      apply find_none_forallb in Hb. now rewrite Hb.
    + apply find_map_None with (x := p) in F; [|done].
      assert (strip_prefix p s = Some b) as E by now apply strip_prefix_Some. congruence.
Qed.

Lemma WalletAddress_new_same s a : WalletAddress_new s = Ok a -> a = s.
Proof.
  unfold WalletAddress_new. repeat (break_match; try discriminate). congruence.
Qed.

(** The length floor does not give the eight body characters its comment
    promises: the longest accepted prefix is itself 13 bytes long, so the bare
    prefix, with no body at all, is accepted as a wallet address. *)
Theorem bare_prefix_accepted :
  WalletAddress_new (lit "firecashtest:") = Ok (lit "firecashtest:").
Proof. reflexivity. Qed.

(** ** [worker.rs] *)

Inductive WorkerNameError :=
| WnEmpty
| WnTooLong (len : Z)
| WnInvalidCharacter (ch : Z).

Definition WORKER_MAX_LEN : Z := 64.

Definition is_safe_worker_char (c : Z) : bool :=
  is_ascii_alphanumeric c || existsb (Z.eqb c) (lit "_-.#@:+/\").

Definition WorkerName_new (s : text) : result text WorkerNameError :=
  match s with
  | [] => Err WnEmpty
  | _ =>
      if WORKER_MAX_LEN <? len s then Err (WnTooLong (len s))
      else match List.find (fun c => negb (is_safe_worker_char c)) s with
           | Some ch => Err (WnInvalidCharacter ch)
           | None => Ok s
           end
  end.

(** ** [difficulty.rs] *)

Inductive DifficultyError := NotFinite | NonPositive.

Definition ShareDifficulty_new (d : f64) : result f64 DifficultyError :=
  if negb (f64_is_finite d) then Err NotFinite
  else if f64_leb d f64_zero then Err NonPositive
  else Ok d.

(** ** [hash.rs] *)

Definition hex_digit (n : Z) : Z := if n <? 10 then 48 + n else 87 + n.
Definition hex_byte (b : Z) : text := [hex_digit (b / 16); hex_digit (b mod 16)].
Definition BlockHash_display (h : list Z) : text := flat_map hex_byte h.

Inductive BlockHashError := WrongLength (len : Z) | InvalidHex.

(** [decode] is the hex decoder for 32 bytes. *)
Definition BlockHash_from_hex (decode : text -> option (list Z)) (s : text) : result (list Z) BlockHashError :=
  if negb (len s =? 64) then Err (WrongLength (len s))
  else ok_or (decode s) InvalidHex.

(** ** [redact.rs] *)

Fixpoint split_once_colon (s : text) : option (text * text) :=
  match s with
  | [] => None
  | c :: s =>
      if c =? 58 then Some ([], s)
      else match split_once_colon s with
           | Some (a, b) => Some (c :: a, b)
           | None => None
           end
  end.

Definition ELLIPSIS : Z := 8230.

Definition redact_address (addr : text) : text :=
  let tail := rev (firstn 4 (rev addr)) in
  match split_once_colon addr with
  | Some (prefix, _) => prefix ++ [58; ELLIPSIS] ++ tail
  | None => ELLIPSIS :: tail
  end.

(** ** Properties of the small types *)

Lemma safe_worker_ascii c : is_safe_worker_char c = true -> 0 <= c < 128.
Proof.
  unfold is_safe_worker_char, is_ascii_alphanumeric, is_ascii_digit, is_ascii_lowercase,
    is_ascii_uppercase. rewrite !orb_true_iff, !andb_true_iff, !Z.leb_le, existsb_exists.
  intros [H|(x & Hx & E)]; [lia|]. apply Z.eqb_eq in E as ->.
  repeat (destruct Hx as [<-|Hx]; [vm_compute; split; congruence|]). destruct Hx.
Qed.

Lemma WorkerName_new_iff s a :
  WorkerName_new s = Ok a <->
  a = s /\ (1 <= length s <= 64)%nat /\ forallb is_safe_worker_char s = true.
Proof.
  assert (forallb is_safe_worker_char s = true -> len s = Z.of_nat (length s)) as Hlen.
  { intros H. apply len_ascii, List.Forall_forall. rewrite forallb_forall in H.
    intros c Hc. now apply safe_worker_ascii, H. }
  unfold WorkerName_new, WORKER_MAX_LEN. destruct s as [|c s]; [split; [discriminate|simpl; lia]|].
  set (t := c :: s) in *. destruct (List.find _ t) eqn:F.
  - destruct (Z.ltb_spec 64 (len t)); (split; [discriminate|]); intros (_ & _ & G);
      apply find_none_forallb in G; congruence.
  - apply find_none_forallb in F. specialize (Hlen F).
    destruct (Z.ltb_spec 64 (len t)); split; try discriminate; [lia|..].
    + intros [= <-]. subst t. simpl length in *. repeat split; auto; lia.
    + intros (-> & _). done.
Qed.

(** A worker name is accepted exactly when it has 1 to 64 characters, all of
    the safe ASCII set, and is kept as it is; in particular an accepted name has no
    control, quote, space or non-ASCII character. *)
Theorem WorkerName_new_spec s a :
  WorkerName_new s = Ok a <->
  a = s /\ (1 <= length s <= 64)%nat /\ forallb is_safe_worker_char s = true.
Proof. apply WorkerName_new_iff. Qed.

(** A share difficulty is accepted exactly when it is a finite, strictly
    positive double: no NaN, infinity, zero or negative value enters accounting. *)
Theorem ShareDifficulty_new_spec d x :
  ShareDifficulty_new d = Ok x <-> x = d /\ exists m e, d = S754_finite false m e.
Proof.
  unfold ShareDifficulty_new. destruct d as [[]|[]| |[] m e]; simpl; unfold f64_leb, SFleb; simpl;
    split; try discriminate; try (intros (_ & ? & ? & H); discriminate H); intros H.
  - inv_eqs. eauto.
  - now destruct H as [-> _].
Qed.

Lemma hex_digit_inj a b : 0 <= a < 16 -> 0 <= b < 16 -> hex_digit a = hex_digit b -> a = b.
Proof. unfold hex_digit. intros. destruct (Z.ltb_spec a 10), (Z.ltb_spec b 10); lia. Qed.

Lemma hex_byte_inj a b : 0 <= a < 256 -> 0 <= b < 256 -> hex_byte a = hex_byte b -> a = b.
Proof.
  unfold hex_byte. intros Ha Hb [= H1 H2].
  apply hex_digit_inj in H1; [|split; [apply Z.div_pos|apply Z.div_lt_upper_bound]; lia ..].
  apply hex_digit_inj in H2; [|apply Z.mod_pos_bound; lia ..].
  rewrite (Z.div_mod a 16), (Z.div_mod b 16) by lia. lia.
Qed.

Definition is_lower_hex (c : Z) : bool := is_ascii_digit c || ((97 <=? c) && (c <=? 102)).

Definition is_byte (b : Z) : Prop := 0 <= b < 256.

(** The displayed form of a 32-byte hash is 64 lowercase hex characters and
    identifies the hash. *)
Theorem BlockHash_display_faithful h h' :
  length h = 32%nat -> length h' = 32%nat -> Forall is_byte h -> Forall is_byte h' ->
  length (BlockHash_display h) = 64%nat /\ forallb is_lower_hex (BlockHash_display h) = true /\
  (BlockHash_display h = BlockHash_display h' -> h = h').
Proof.
  intros L L' B B'. unfold BlockHash_display.
  assert (forall l, length (flat_map hex_byte l) = (2 * length l)%nat) as FL
    by (induction l as [|x l IH]; simpl; [done|]; lia).
  split; [rewrite FL; lia|]. split.
  - clear -B. induction B as [|b h Hb _ IH]; simpl; [done|]. rewrite IH, !andb_true_r.
    assert (forall n, 0 <= n < 16 -> is_lower_hex (hex_digit n) = true) as D.
    { intros n Hn. unfold is_lower_hex, is_ascii_digit, hex_digit.
      rewrite orb_true_iff, !andb_true_iff, !Z.leb_le. destruct (Z.ltb_spec n 10); lia. }
    unfold is_byte in Hb. rewrite !D; [done|apply Z.mod_pos_bound; lia|].
    split; [apply Z.div_pos|apply Z.div_lt_upper_bound]; lia.
  - clear FL. assert (length h = length h') as E by lia. clear L L'. revert h' B' E.
    induction B as [|b h Hb _ IH]; intros [|b' h'] B' E H; try discriminate; [done|].
    inversion B' as [|? ? Hb' B'']; subst. simpl in H. injection H as E1 E2 H.
    f_equal; [|now apply IH; auto].
    apply hex_byte_inj; [done|done|]. unfold hex_byte. congruence.
Qed.

Lemma BlockHash_display_faithful_witness :
  length (BlockHash_display (repeat 7 32)) = 64%nat /\
  (BlockHash_display (repeat 7 32) = BlockHash_display (repeat 9 32) -> repeat 7 32 = repeat 9 32).
Proof.
  destruct (BlockHash_display_faithful (repeat 7 32) (repeat 9 32)) as (A & _ & C);
    try reflexivity; try (unfold is_byte; repeat constructor; lia). auto.
Defined.

Lemma split_once_prefix p body :
  In p ACCEPTED_PREFIXES -> split_once_colon (p ++ body) = Some (removelast p, body).
Proof. intros H. repeat (destruct H as [<-|H]; [reflexivity|]). destruct H. Qed.

Lemma accepted_prefix_last p : In p ACCEPTED_PREFIXES -> p = removelast p ++ [58].
Proof. intros H. repeat (destruct H as [<-|H]; [reflexivity|]). destruct H. Qed.

(** Redaction of a valid address whose body has at least four characters emits
    the network prefix, an ellipsis and the last four body characters, and nothing
    else: addresses that agree on those are indistinguishable in the logs. *)
Theorem redact_valid_address p body :
  In p ACCEPTED_PREFIXES -> (4 <= length body)%nat ->
  redact_address (p ++ body) = p ++ [ELLIPSIS] ++ skipn (length body - 4) body.
Proof.
  intros Hp Hb. unfold redact_address. rewrite (split_once_prefix p body Hp).
  assert (rev (firstn 4 (rev (p ++ body))) = skipn (length body - 4) body) as ->.
  { rewrite firstn_rev, rev_involutive, length_app.
    replace (length p + length body - 4)%nat with (length p + (length body - 4))%nat by lia.
    apply drop_app_add. }
  rewrite (accepted_prefix_last p Hp) at 2. now rewrite <- app_assoc.
Qed.

Lemma redact_valid_address_witness :
  redact_address (lit "kaspa:abcdef1234") = lit "kaspa:" ++ [ELLIPSIS] ++ lit "1234".
Proof.
  apply (redact_valid_address (lit "kaspa:") (lit "abcdef1234")); [simpl; tauto|simpl; lia].
Defined.
