(* ===== verification/Sender.v ===== *)
(** * The [shielded-pay] boundary ([payout-zkas/src/sender.rs])

    One send is one run of an external program: reading the treasury seed,
    building the command line, classifying the outcome and extracting the
    transaction id from the program's output. *)
From stdpp Require Import pretty.
From S2P Require Import Prelude F64 Domain.
Open Scope Z_scope.

(** ** Lines and white space *)

(** [char::is_whitespace]: the Unicode [White_Space] property. *)
Definition is_whitespace (c : Z) : bool :=
  ((9 <=? c) && (c <=? 13)) || (c =? 32) || (c =? 133) || (c =? 160) || (c =? 5760)
  || ((8192 <=? c) && (c <=? 8202)) || (c =? 8232) || (c =? 8233) || (c =? 8239)
  || (c =? 8287) || (c =? 12288).

Fixpoint trim_start (s : text) : text :=
  match s with
  | [] => []
  | c :: s' => if is_whitespace c then trim_start s' else s
  end.
Definition trim (s : text) : text := rev (trim_start (rev (trim_start s))).

(** [str::lines]: split at line feeds, drop one carriage return before each,
    and the empty piece after a final line feed. *)
Fixpoint split_lf (s : text) : list text :=
  match s with
  | [] => [[]]
  | c :: s =>
      if c =? 10 then [] :: split_lf s
      else match split_lf s with
           | l :: ls => (c :: l) :: ls
           | [] => [[c]]
           end
  end.

Definition strip_cr (l : text) : text :=
  match rev l with
  | 13 :: r => rev r
  | _ => l
  end.

(** The piece after the last line feed is not followed by one: it keeps its
    carriage return and is dropped when empty. *)
Fixpoint finish_lines (ls : list text) : list text :=
  match ls with
  | [] => []
  | [l] => match l with [] => [] | _ => [l] end
  | l :: ls => strip_cr l :: finish_lines ls
  end.
Definition lines (s : text) : list text := finish_lines (split_lf s).

Definition is_ascii_hexdigit (c : Z) : bool :=
  is_ascii_digit c || ((97 <=? c) && (c <=? 102)) || ((65 <=? c) && (c <=? 70)).

Definition is_hex64 (s : text) : bool := (len s =? 64) && forallb is_ascii_hexdigit s.

(** ** Errors *)

Inductive SendError :=
| Seed (msg : text)
| Spawn (bin msg : text)
| SendFailed (code : option Z) (stderr_tail : text)
| TimedOut (seconds : Z)
| NoTxid (stdout_tail : text).

Definition is_ambiguous (e : SendError) : bool :=
  match e with TimedOut _ | NoTxid _ => true | _ => false end.

(** ** The command-line sender *)

Record ShieldedPayCli := mkCli {
  cli_bin : text;
  cli_rpc_server : text;
  cli_seed_file : text;
  cli_fee_sompi : Z;
  cli_anchor_depth : option Z;
  cli_timeout_secs : Z
}.

(** How a spawned program ends, as [tokio::time::timeout(.., wait_with_output)]
    reports it. *)
Inductive Outcome :=
| Exited (success : bool) (code : option Z) (stdout stderr : text)
| WaitFailed (msg : text)
| Elapsed.

Definition join_bar (ls : list text) : text :=
  match ls with
  | [] => []
  | l :: ls => fold_left (fun acc x => acc ++ lit " | " ++ x) ls l
  end.

Definition tail (s : text) (max_lines : nat) : text :=
  join_bar (rev (firstn max_lines (rev (lines s)))).

Section Cli.
(** The file system, the process spawner and [KaspaHash::from_str]. *)
Variable read_to_string : text -> result text text.
Variable spawn : text -> list text -> result Outcome text.
Variable parse_hash : text -> option (list Z).

Definition parse_txid (stdout : text) : option (list Z) :=
  match List.find is_hex64 (map trim (rev (lines stdout))) with
  | Some l => parse_hash l
  | None => None
  end.

Definition read_seed (cli : ShieldedPayCli) : result text SendError :=
  match read_to_string (cli_seed_file cli) with
  | Err e => Err (Seed (lit "read " ++ cli_seed_file cli ++ lit ": " ++ e))
  | Ok raw =>
      let seed := trim raw in
      if negb (len seed =? 64) || negb (forallb is_ascii_hexdigit seed) then
        Err (Seed (cli_seed_file cli ++ lit " must contain exactly 64 hex chars (got "
                     ++ lit (pretty (len seed)) ++ lit " chars)"))
      else Ok seed
  end.

Definition send_args (cli : ShieldedPayCli) (seed to : text) (amount : Z) : list text :=
  [lit "send"; lit "-s"; cli_rpc_server cli; lit "--owner-seed-hex"; seed; lit "--to"; to;
   lit "--amount"; lit (pretty amount); lit "--fee"; lit (pretty (cli_fee_sompi cli))]
  ++ match cli_anchor_depth cli with
     | Some depth => [lit "--anchor-depth"; lit (pretty depth)]
     | None => []
     end.

Definition send (cli : ShieldedPayCli) (to : text) (amount : Z) : result (list Z) SendError :=
  let? seed := read_seed cli in
  match spawn (cli_bin cli) (send_args cli seed to amount) with
  | Err e => Err (Spawn (cli_bin cli) e)
  | Ok (WaitFailed e) => Err (Spawn (cli_bin cli) (lit "wait: " ++ e))
  | Ok Elapsed => Err (TimedOut (cli_timeout_secs cli))
  | Ok (Exited false code _ stderr) => Err (SendFailed code (tail stderr 4))
  | Ok (Exited true _ stdout _) =>
      match parse_txid stdout with
      | None => Err (NoTxid (tail stdout 4))
      | Some txid => Ok txid
      end
  end.
End Cli.

(** ** What a send reports *)

Lemma find_rev_map {A B} (f : A -> B) (p : B -> bool) l b :
  List.find p (map f (rev l)) = Some b <->
  exists pre x post, l = pre ++ x :: post /\ b = f x /\ p (f x) = true /\
    Forall (fun y => p (f y) = false) post.
Proof.
  induction l as [|y l IH] using rev_ind.
  - simpl. split; [discriminate|]. intros (pre & x & post & E & _). destruct pre; discriminate E.
  - rewrite rev_app_distr. simpl. destruct (p (f y)) eqn:P.
    + split.
      * intros [= <-]. exists l, y, []. auto.
      * intros (pre & x & post & E & -> & _ & F). destruct post as [|z post] using rev_ind.
        -- apply app_inj_tail in E as [_ ->]. done.
        -- rewrite app_comm_cons, app_assoc in E. apply app_inj_tail in E as [_ ->].
           apply Forall_app in F as [_ F]. inversion F; congruence.
    + rewrite IH. split; intros (pre & x & post & E & -> & Px & F).
      * exists pre, x, (post ++ [y]). subst l. rewrite <- app_assoc. repeat split; auto.
        apply Forall_app. auto.
      * destruct post as [|z post] using rev_ind.
        -- apply app_inj_tail in E as [_ ->]. congruence.
        -- rewrite app_comm_cons, app_assoc in E. apply app_inj_tail in E as [-> ->].
           apply Forall_app in F as [F _]. exists pre, x, post. auto.
Qed.

(** The transaction id is read from the last output line that, trimmed, is 64
    hex digits: earlier hashes in the log lines are never taken for it, and output
    with no such line yields none. *)
Theorem parse_txid_spec parse_hash stdout h :
  parse_txid parse_hash stdout = Some h <->
  exists pre l post, lines stdout = pre ++ l :: post /\ is_hex64 (trim l) = true /\
    Forall (fun l' => is_hex64 (trim l') = false) post /\ parse_hash (trim l) = Some h.
Proof.
  unfold parse_txid. destruct (List.find _ _) as [b|] eqn:F.
  - apply find_rev_map in F as (pre & x & post & E & -> & P & N). split.
    + intros H. exists pre, x, post. auto.
    + intros (pre' & x' & post' & E' & P' & N' & H).
      assert (Some (trim x) = Some (trim x')) as [= ->]; [|done].
      rewrite <- (proj2 (find_rev_map trim is_hex64 (lines stdout) (trim x)))
        by (exists pre, x, post; auto).
      apply find_rev_map. exists pre', x', post'. auto.
  - split; [discriminate|]. intros (pre & x & post & E & P & N & _).
    rewrite (proj2 (find_rev_map trim is_hex64 (lines stdout) (trim x))) in F; [discriminate|].
    exists pre, x, post. auto.
Qed.

Section Report.
Context (read_to_string : text -> result text text)
        (spawn : text -> list text -> result Outcome text)
        (parse_hash : text -> option (list Z)).

Lemma read_seed_hex cli seed : read_seed read_to_string cli = Ok seed -> is_hex64 seed = true.
Proof.
  unfold read_seed, is_hex64. destruct (read_to_string _) as [raw|e]; [|discriminate].
  destruct (len (trim raw) =? 64) eqn:L, (forallb is_ascii_hexdigit (trim raw)) eqn:H;
    simpl; try discriminate. intros [= <-]. now rewrite L, H.
Qed.
End Report.

(** What a send reports: a transaction id only when the program was run with a
    64-hex seed, exited successfully and printed it; an ambiguous error exactly when
    the program was started and then timed out or succeeded without printing an id.
    Every other failure, a non-zero exit included, is reported as unambiguous. *)
Theorem send_report read_to_string spawn parse_hash cli to amount :
  let run seed := spawn (cli_bin cli) (send_args cli seed to amount) in
  match send read_to_string spawn parse_hash cli to amount with
  | Ok txid => exists seed code out err, is_hex64 seed = true /\
      run seed = Ok (Exited true code out err) /\ parse_txid parse_hash out = Some txid
  | Err e => is_ambiguous e = true <->
      exists seed, read_seed read_to_string cli = Ok seed /\
        (run seed = Ok Elapsed \/
         exists code out err, run seed = Ok (Exited true code out err) /\
           parse_txid parse_hash out = None)
  end.
Proof.
  intros run. unfold send. destruct (read_seed read_to_string cli) as [seed|e] eqn:S.
  - apply read_seed_hex in S as Hx. cbn [rbind]. fold (run seed).
    destruct (run seed) as [[[] code out err| |]|e] eqn:R; simpl.
    + destruct (parse_txid parse_hash out) eqn:P; [eauto 10|]. split; [eauto 10|done].
    + split; [discriminate|]. intros (s & [= <-] & [H|(? & ? & ? & H & _)]); congruence.
    + split; [discriminate|]. intros (s & [= <-] & [H|(? & ? & ? & H & _)]); congruence.
    + split; [eauto|done].
    + split; [discriminate|]. intros (s & [= <-] & [H|(? & ? & ? & H & _)]); congruence.
  - simpl. assert (is_ambiguous e = false) as ->.
    { unfold read_seed in S. destruct (read_to_string _); [|injection S as <-; done].
      destruct (_ || _); [injection S as <-; done|discriminate]. }
    split; [discriminate|]. intros (s & H & _). discriminate.
Qed.
