(* ===== verification/ZkasEngine.v ===== *)
(** * The shielded payout engine ([payout-zkas/src])

    Cycle windows, confirmation policy, the chain reader, cycle planning and the
    engine's tick, as state passing over the
    database and a log of the sends that left the process.  The outside world
    (Postgres faults, the node, the spending subprocess) is an environment that
    answers each call by its index. *)
From stdpp Require Import pretty.
From Stdlib Require Import Ascii.
From S2P Require Import Prelude F64 FeeModel Schema PayoutDb PayoutSpec Domain Sender.
Open Scope Z_scope.

(** ** [window.rs] *)

Definition cycle_window (virtual_daa_score span : Z) : Z * Z :=
  let span := Z.max span 1 in
  let bucket := virtual_daa_score / span in
  let start := sat_u64 (bucket * span) in
  let stop := sat_u64 (start + span) in
  (start, stop).

(** ** [confirm.rs] *)

Definition ZKAS_PAYOUT_CONFIRMATION_DAA : Z := 100.

Inductive ConfirmationState := CsPending | CsAccepted | CsConfirmed | CsUnknown.

Record ConfirmationInputs := mkInputs {
  ci_virtual_daa_score : Z; ci_in_mempool : bool; ci_accept_daa : option Z
}.

Definition classify_confirmation (i : ConfirmationInputs) (confirmation_daa : Z)
  : ConfirmationState :=
  match ci_accept_daa i with
  | Some accept =>
      let depth := sat_u64 (ci_virtual_daa_score i - accept) in
      if confirmation_daa <=? depth then CsConfirmed else CsAccepted
  | None => if ci_in_mempool i then CsPending else CsUnknown
  end.

(** ** [chain.rs] *)

Inductive ChainError := Transport (msg : string) | CursorInvalid.

Record AcceptanceScan := mkScan {
  sc_accepted : list (bytes * Z);        (* [HashMap<txid, daa>] *)
  sc_new_cursor : option bytes
}.

(** [HashMap::insert] and [get]. *)
Definition amap_insert (k : bytes) (v : Z) (m : list (bytes * Z)) : list (bytes * Z) :=
  (k, v) :: List.filter (fun kv => negb (bool_decide (fst kv = k))) m.
Definition amap_get (k : bytes) (m : list (bytes * Z)) : option Z :=
  option_map snd (List.find (fun kv => bool_decide (fst kv = k)) m).

(** The node's reply to [get_virtual_chain_from_block]. *)
Record VirtualChainResponse := mkChainResponse {
  vc_added_chain_block_hashes : list bytes;
  vc_accepted_transaction_ids : list (bytes * list bytes)   (* accepting block, txids *)
}.

Fixpoint contains (needle hay : string) : bool :=
  String.prefix needle hay ||
  match hay with
  | EmptyString => false
  | String _ hay => contains needle hay
  end.

Definition ascii_lower (c : ascii) : ascii :=
  let n := nat_of_ascii c in
  if (65 <=? n)%nat && (n <=? 90)%nat then ascii_of_nat (n + 32) else c.

Fixpoint to_ascii_lowercase (s : string) : string :=
  match s with
  | EmptyString => EmptyString
  | String c s => String (ascii_lower c) (to_ascii_lowercase s)
  end.

Section GrpcChainReader.
(** The gRPC client: an entry lookup, the chain walk, a block's DAA score. *)
Variable get_mempool_entry : bytes -> result unit string.
Variable get_virtual_chain_from_block : bytes -> result VirtualChainResponse string.
Variable get_block_daa : bytes -> result Z string.

Definition in_mempool (txid : bytes) : result bool ChainError :=
  match get_mempool_entry txid with
  | Ok _ => Ok true
  | Err msg =>
      if contains "not found" (to_ascii_lowercase msg) then Ok false
      else Err (Transport msg)
  end.

Fixpoint scan_entries (watched : list bytes) (entries : list (bytes * list bytes))
    (accepted : list (bytes * Z)) : result (list (bytes * Z)) ChainError :=
  match entries with
  | [] => Ok accepted
  | (accepting, ids) :: entries =>
      let hits := List.filter (fun id => bool_decide (id ∈ watched)) ids in
      match hits with
      | [] => scan_entries watched entries accepted
      | _ =>
          let? daa := map_err Transport (get_block_daa accepting) in
          scan_entries watched entries
            (fold_left (fun m txid => amap_insert txid daa m) hits accepted)
      end
  end.

Definition accepted_since (cursor : bytes) (watched : list bytes)
  : result AcceptanceScan ChainError :=
  let? resp :=
    map_err (fun msg => if contains "not found" msg || contains "chain" msg
                        then CursorInvalid else Transport msg)
      (get_virtual_chain_from_block cursor) in
  let new_cursor := last (vc_added_chain_block_hashes resp) in
  if bool_decide (watched = []) then Ok (mkScan [] new_cursor) else
  let? accepted := scan_entries watched (vc_accepted_transaction_ids resp) [] in
  Ok (mkScan accepted new_cursor).
End GrpcChainReader.

(** ** [plan.rs] *)

Definition DEFAULT_PER_WALLET_CAP_SOMPI : Z := 30000000000.

Record PlanZkasCycleParams := mkPlanParams {
  pp_daa_start : Z; pp_daa_end : Z; pp_threshold_sompi : Z; pp_per_wallet_cap_sompi : Z
}.

Record PlanZkasCycleResult := mkPlanResult {
  pr_cycle : PayoutCycle; pr_payouts_planned : Z; pr_total_sompi : Z
}.

(** The planning loop: rows ensured, amounts clamped, running totals. *)
Fixpoint plan_rows (cycle_id cap : Z) (eligible : list EligibleWallet) (total recipients : Z)
  : DB (Z * Z) :=
  match eligible with
  | [] => db_ret (total, recipients)
  | w :: eligible =>
      let amount := Z.min (el_payable_sompi w) cap in
      ensure_payout cycle_id (el_wallet_id w) amount ;;;
      plan_rows cycle_id cap eligible (sat_i64 (total + amount)) (sat_i32 (recipients + 1))
  end.

Definition plan_zkas_cycle (p : PlanZkasCycleParams) : DB PlanZkasCycleResult :=
  cycle <-- create_cycle Zkas (pp_daa_start p) (pp_daa_end p) ;;
  eligible <-- list_zkas_eligible_wallets (pp_threshold_sompi p) ;;
  let cap := Z.max (pp_per_wallet_cap_sompi p) 1 in
  totals <-- plan_rows (cy_id cycle) cap eligible 0 0 ;;
  set_cycle_totals (cy_id cycle) (fst totals) (snd totals) ;;;
  db_ret (mkPlanResult cycle (Z.of_nat (length eligible)) (fst totals)).

(** ** [engine.rs]: configuration and state *)

Definition INFLIGHT_KEY : string := "zkas_payout_inflight".
Definition CONFIRM_CURSOR_KEY : string := "zkas_payout_confirm_cursor".

Definition over_spend_cap (total : Z) (cap : option Z) : bool :=
  match cap with Some c => c <? total | None => false end.

Inductive ExecutionMode := DryRun | Live.

Record ZkasPayoutEngineConfig := mkEngineConfig {
  cfg_cycle_span_daa : Z;
  cfg_threshold_sompi : Z;
  cfg_per_wallet_cap_sompi : Z;
  cfg_spend_cap_sompi : option Z;
  cfg_mode : ExecutionMode;
  cfg_max_sends_per_tick : nat
}.

Inductive EngineError :=
| EDb (e : DbError)
| EChain (e : ChainError)
| DaaOutOfRange (daa : Z)
| SpanTooSmall (span depth : Z)
| Panic.                                 (* an arithmetic overflow aborts the process *)

Record TickStats := mkStats {
  ts_planned : Z;
  ts_sends_attempted : Z;
  ts_sends_accepted : Z;
  ts_accepted : Z;
  ts_confirmed : Z;
  ts_inflight_latched : bool;
  ts_spend_capped : bool
}.

Definition stats0 : TickStats := mkStats 0 0 0 0 0 false false.
Definition st_planned n s := mkStats n (ts_sends_attempted s) (ts_sends_accepted s)
  (ts_accepted s) (ts_confirmed s) (ts_inflight_latched s) (ts_spend_capped s).
Definition st_attempt s := mkStats (ts_planned s) (ts_sends_attempted s + 1)
  (ts_sends_accepted s) (ts_accepted s) (ts_confirmed s) (ts_inflight_latched s) (ts_spend_capped s).
Definition st_sent s := mkStats (ts_planned s) (ts_sends_attempted s)
  (ts_sends_accepted s + 1) (ts_accepted s) (ts_confirmed s) (ts_inflight_latched s) (ts_spend_capped s).
Definition st_accepted s := mkStats (ts_planned s) (ts_sends_attempted s)
  (ts_sends_accepted s) (ts_accepted s + 1) (ts_confirmed s) (ts_inflight_latched s) (ts_spend_capped s).
Definition st_confirmed s := mkStats (ts_planned s) (ts_sends_attempted s)
  (ts_sends_accepted s) (ts_accepted s) (ts_confirmed s + 1) (ts_inflight_latched s) (ts_spend_capped s).
Definition st_latched s := mkStats (ts_planned s) (ts_sends_attempted s)
  (ts_sends_accepted s) (ts_accepted s) (ts_confirmed s) true (ts_spend_capped s).
Definition st_capped s := mkStats (ts_planned s) (ts_sends_attempted s)
  (ts_sends_accepted s) (ts_accepted s) (ts_confirmed s) (ts_inflight_latched s) true.

Definition engine_new (cfg : ZkasPayoutEngineConfig) : result ZkasPayoutEngineConfig EngineError :=
  if cfg_cycle_span_daa cfg <=? ZKAS_PAYOUT_CONFIRMATION_DAA
  then Err (SpanTooSmall (cfg_cycle_span_daa cfg) ZKAS_PAYOUT_CONFIRMATION_DAA)
  else Ok cfg.

(** ** The outside world *)

(** A send that left the process: which payout row, where, how much, and what
    the sender reported. *)
Record SendEntry := mkSend {
  se_payout_id : Z; se_address : string; se_amount : Z; se_outcome : result bytes SendError
}.

Record Env := mkEnv {
  env_lock : nat -> result bool DbError;
  env_fault : nat -> Fault;
  env_send : nat -> string -> Z -> result bytes SendError;
  env_virtual_daa : nat -> result Z ChainError;
  env_sink : nat -> result bytes ChainError;
  env_in_mempool : nat -> bytes -> result bool ChainError;
  env_accepted_since : nat -> bytes -> list bytes -> result AcceptanceScan ChainError;
  env_hash_show : bytes -> string;
  env_hash_parse : string -> option bytes
}.

Record World := mkWorld { wd_db : Db; wd_log : list SendEntry; wd_calls : nat }.

Definition M (A : Type) : Type := World -> World * result A EngineError.

Definition ret {A} (a : A) : M A := fun w => (w, Ok a).
Definition fail {A} (e : EngineError) : M A := fun w => (w, Err e).
Definition bind {A B} (m : M A) (k : A -> M B) : M B :=
  fun w => match m w with
           | (w', Ok a) => k a w'
           | (w', Err e) => (w', Err e)
           end.
Notation "x <- m ;; k" := (bind m (fun x => k))
  (at level 100, m at next level, right associativity) : kat_scope.

Definition tick_call (w : World) : World := mkWorld (wd_db w) (wd_log w) (S (wd_calls w)).
Definition with_db (d : Db) (w : World) : World := mkWorld d (wd_log w) (wd_calls w).

Section Engine.
Context (env : Env) (cfg : ZkasPayoutEngineConfig).

Definition call_db {A} (m : DB A) : M A :=
  fun w =>
    let w1 := tick_call w in
    match env_fault env (wd_calls w) with
    | FailBefore => (w1, Err (EDb Connection))
    | NoFault =>
        match m (wd_db w) with
        | Ok (a, d) => (with_db d w1, Ok a)
        | Err e => (w1, Err (EDb e))
        end
    | FailAfter =>
        match m (wd_db w) with
        | Ok (_, d) => (with_db d w1, Err (EDb Connection))
        | Err e => (w1, Err (EDb e))
        end
    end.

Definition call_chain {A} (f : nat -> result A ChainError) : M A :=
  fun w => (tick_call w, map_err EChain (f (wd_calls w))).

(** The spend itself: whatever the sender answers, the attempt is logged. *)
Definition call_send (payout_id : Z) (to : string) (amount : Z) : M (result bytes SendError) :=
  fun w =>
    let out := env_send env (wd_calls w) to amount in
    (mkWorld (wd_db w) (wd_log w ++ [mkSend payout_id to amount out]) (S (wd_calls w)), Ok out).

Definition call_lock : M bool :=
  fun w => (tick_call w, map_err EDb (env_lock env (wd_calls w))).

Definition inflight_latch : M (option string) := call_db (meta_get INFLIGHT_KEY).

(** One pass over the planned recipients this tick may send to. *)
Fixpoint send_loop (rs : list CycleRecipient) (stats : TickStats) : M TickStats :=
  match rs with
  | [] => ret stats
  | r :: rs =>
      match cfg_mode cfg with
      | DryRun => send_loop rs stats
      | Live =>
          let stats := st_attempt stats in
          _ <- call_db (meta_set INFLIGHT_KEY (pretty (re_payout_id r))) ;;
          match u64_try_from (re_amount_sompi r) with
          | None =>
              _ <- call_db (meta_delete INFLIGHT_KEY) ;;
              send_loop rs stats
          | Some amount =>
              out <- call_send (re_payout_id r) (re_address r) amount ;;
              match out with
              | Ok txid =>
                  _ <- call_db (mark_payout_submitted (re_payout_id r) txid) ;;
                  _ <- call_db (meta_delete INFLIGHT_KEY) ;;
                  send_loop rs (st_sent stats)
              | Err e =>
                  if is_ambiguous e then ret stats
                  else _ <- call_db (meta_delete INFLIGHT_KEY) ;; ret stats
              end
          end
      end
  end.

Definition is_planned (r : CycleRecipient) : bool := bool_decide (re_status r = Planned).

Definition broadcast_pass (cycle : PayoutCycle) (stats : TickStats) : M TickStats :=
  latch <- inflight_latch ;;
  match latch with
  | Some _ => ret (st_latched stats)
  | None =>
      recipients <- call_db (list_cycle_recipients (cy_id cycle)) ;;
      let planned := List.filter is_planned recipients in
      match planned with
      | [] => ret stats
      | _ =>
          match sum_i64 (map re_amount_sompi planned) with
          | None => fail Panic
          | Some total =>
              if over_spend_cap total (cfg_spend_cap_sompi cfg) then ret (st_capped stats)
              else send_loop (firstn (cfg_max_sends_per_tick cfg) planned) stats
          end
      end
  end.

Definition anchor_at_sink : M unit :=
  sink <- call_chain (env_sink env) ;;
  call_db (meta_set CONFIRM_CURSOR_KEY (env_hash_show env sink)).

Definition ensure_confirm_cursor : M unit :=
  cur <- call_db (meta_get CONFIRM_CURSOR_KEY) ;;
  match cur with
  | Some _ => ret tt
  | None => anchor_at_sink
  end.

(** [<[u8; 32]>::try_from]. *)
Definition bytes32 (h : bytes) : option bytes := if (length h =? 32)%nat then Some h else None.

Definition mark_accepted_u64 (payout_id daa : Z) : M unit :=
  match i64_try_from daa with
  | None => fail (DaaOutOfRange daa)
  | Some v => call_db (mark_payout_accepted payout_id v)
  end.

Definition confirm_one (virtual_daa : Z) (scan : AcceptanceScan) (p : ZkasInFlightPayout)
    (stats : TickStats) : M TickStats :=
  match bytes32 (if_tx_hash p) with
  | None => ret stats
  | Some txid =>
      let newly := amap_get txid (sc_accepted scan) in
      let recorded := match if_accepted_daa_score p with
                      | Some v => u64_try_from v
                      | None => None
                      end in
      let accept_daa := match recorded with Some v => Some v | None => newly end in
      in_mem <- match accept_daa with
                | None => call_chain (fun n => env_in_mempool env n txid)
                | Some _ => ret false
                end ;;
      match classify_confirmation (mkInputs virtual_daa in_mem accept_daa)
              ZKAS_PAYOUT_CONFIRMATION_DAA with
      | CsConfirmed =>
          _ <- match newly, recorded with
               | Some daa, None => mark_accepted_u64 (if_payout_id p) daa
               | _, _ => ret tt
               end ;;
          _ <- call_db (mark_payout_confirmed (if_payout_id p)) ;;
          ret (st_confirmed stats)
      | CsAccepted =>
          match recorded, newly with
          | None, Some daa =>
              _ <- mark_accepted_u64 (if_payout_id p) daa ;;
              ret (st_accepted stats)
          | _, _ => ret stats
          end
      | CsPending | CsUnknown => ret stats
      end
  end.

Fixpoint confirm_loop (virtual_daa : Z) (scan : AcceptanceScan) (ps : list ZkasInFlightPayout)
    (stats : TickStats) : M TickStats :=
  match ps with
  | [] => ret stats
  | p :: ps =>
      stats <- confirm_one virtual_daa scan p stats ;;
      confirm_loop virtual_daa scan ps stats
  end.

(** [chain.accepted_since], whose error the caller matches on. *)
Definition call_accepted_since (cursor : bytes) (watched : list bytes)
  : M (result AcceptanceScan ChainError) :=
  fun w => (tick_call w, Ok (env_accepted_since env (wd_calls w) cursor watched)).

Definition confirm_pass (virtual_daa : Z) (stats : TickStats) : M TickStats :=
  in_flight <- call_db list_zkas_in_flight_payouts ;;
  cursor_row <- call_db (meta_get CONFIRM_CURSOR_KEY) ;;
  match cursor_row with
  | None => _ <- ensure_confirm_cursor ;; ret stats
  | Some value =>
      match env_hash_parse env value with
      | None => _ <- anchor_at_sink ;; ret stats
      | Some cursor =>
          let watched := omap (fun p => bytes32 (if_tx_hash p)) in_flight in
          scan <- call_accepted_since cursor watched ;;
          match scan with
          | Err CursorInvalid => _ <- anchor_at_sink ;; ret stats
          | Err e => fail (EChain e)
          | Ok scan =>
              stats <- confirm_loop virtual_daa scan in_flight stats ;;
              match sc_new_cursor scan with
              | Some c =>
                  _ <- call_db (meta_set CONFIRM_CURSOR_KEY (env_hash_show env c)) ;;
                  ret stats
              | None => ret stats
              end
          end
      end
  end.

(** The status a cycle's payout rows fold into. *)
Definition fold_cycle_status (rows : list Payout) : option PayoutCycleStatus :=
  let count p := length (List.filter p rows) in
  let confirmed := count (status_in [Confirmed]) in
  let failed := count (status_in [Failed]) in
  let in_flight := count (status_in [Submitted; Accepted]) in
  if (confirmed =? length rows)%nat then Some CySettled
  else if (0 <? confirmed)%nat then Some CyPartiallySettled
  else if (0 <? in_flight)%nat then Some CyBroadcasting
  else if (failed =? length rows)%nat then Some CyFailed
  else None.

Definition reconcile_cycle (cycle_id : Z) : M unit :=
  rows <- call_db (list_for_cycle cycle_id) ;;
  match rows with
  | [] => ret tt
  | _ =>
      match fold_cycle_status rows with
      | Some CySettled => call_db (mark_cycle_settled cycle_id)
      | Some CyPartiallySettled => call_db (mark_cycle_partially_settled cycle_id)
      | Some CyBroadcasting => call_db (mark_cycle_broadcasting cycle_id)
      | Some CyFailed => call_db (mark_cycle_failed cycle_id)
      | _ => ret tt
      end
  end.

Definition resume_or_plan (start stop : Z) (stats : TickStats) : M (PayoutCycle * TickStats) :=
  found <- call_db (find_cycle_by_idempotency_key (idempotency_key Zkas start stop)) ;;
  match found with
  | Some cycle => ret (cycle, stats)
  | None =>
      plan <- call_db (plan_zkas_cycle
                (mkPlanParams start stop (cfg_threshold_sompi cfg) (cfg_per_wallet_cap_sompi cfg))) ;;
      ret (pr_cycle plan, st_planned (pr_payouts_planned plan) stats)
  end.

Definition tick_once : M TickStats :=
  leader <- call_lock ;;
  match leader with
  | false => ret stats0
  | true =>
      virtual_daa <- call_chain (env_virtual_daa env) ;;
      let window := cycle_window virtual_daa (cfg_cycle_span_daa cfg) in
      cs <- resume_or_plan (fst window) (snd window) stats0 ;;
      stats <- broadcast_pass (fst cs) (snd cs) ;;
      stats <- confirm_pass virtual_daa stats ;;
      _ <- reconcile_cycle (cy_id (fst cs)) ;;
      ret stats
  end.
End Engine.
