(* ===== verification/ZkasSafety.v ===== *)
(** * Money safety of the shielded payout engine

    Invariants of [ZkasEngine.tick_once] under every pattern of database faults,
    crashes, node answers and sender outcomes. *)
From stdpp Require Import pretty relations.
From Stdlib Require Import Ascii.
From S2P Require Import Prelude F64 FeeModel Schema PayoutDb PayoutSpec Domain Sender ZkasEngine.
Open Scope Z_scope.

(** ** How repository calls move the payout table *)

(** A row keeps its identity, recipient and amount, and never returns to
    [planned]. *)
Definition advances (p p' : Payout) : Prop :=
  po_id p' = po_id p /\ po_amount_sompi p' = po_amount_sompi p /\
  po_wallet_id p' = po_wallet_id p /\ po_cycle_id p' = po_cycle_id p /\
  (po_status p <> Planned -> po_status p' <> Planned).

Lemma advances_refl p : advances p p.
Proof. repeat split; auto. Qed.

Lemma advances_trans p1 p2 p3 : advances p1 p2 -> advances p2 p3 -> advances p1 p3.
Proof.
  intros (I1 & A1 & W1 & C1 & P1) (I2 & A2 & W2 & C2 & P2). repeat split; auto; congruence.
Qed.

(** The payout table after a call that leaves the in-flight latch alone. *)
Record db_ext (d d' : Db) : Prop := {
  ext_seq : db_seq d <= db_seq d';
  ext_rows : forall p', In p' (db_payouts d') ->
    (exists p, In p (db_payouts d) /\ advances p p') \/ db_seq d <= po_id p';
  ext_kept : forall p, In p (db_payouts d) -> exists p', In p' (db_payouts d') /\ advances p p';
  ext_wallets : incl (db_wallets d) (db_wallets d');
  ext_wf : payouts_wf d -> payouts_wf d';
  ext_latch : db_meta d' !! INFLIGHT_KEY = db_meta d !! INFLIGHT_KEY
}.

Lemma db_ext_refl d : db_ext d d.
Proof. split; eauto using advances_refl, incl_refl; lia. Qed.

Lemma db_ext_trans d1 d2 d3 : db_ext d1 d2 -> db_ext d2 d3 -> db_ext d1 d3.
Proof.
  intros [S1 R1 K1 V1 W1 L1] [S2 R2 K2 V2 W2 L2]. split; [lia| | |eauto using incl_tran|auto|congruence].
  - intros p3 H3. destruct (R2 p3 H3) as [(p2 & H2 & A2)|?]; [|right; lia].
    destruct (R1 p2 H2) as [(p1 & H1 & A1)|?]; [eauto using advances_trans|].
    right. destruct A2 as [-> _]. done.
  - intros p1 H1. destruct (K1 p1 H1) as (p2 & H2 & A2). destruct (K2 p2 H2) as (p3 & H3 & A3).
    eauto using advances_trans.
Qed.

(** Changing other tables keeps the payout table. *)
Lemma payouts_wf_same d d' :
  db_payouts d' = db_payouts d -> db_seq d <= db_seq d' -> db_now d <= db_now d' ->
  payouts_wf d -> payouts_wf d'.
Proof.
  intros E Es En W. split; rewrite ?E; try apply W.
  - eapply Forall_impl; [exact (wf_ids_lt d W)|]. simpl. intros. lia.
  - eapply Forall_impl; [exact (wf_clock d W)|]. simpl. intros p (A & B & C).
    repeat split; [lia| |]; [destruct (po_submitted_at p)|destruct (po_confirmed_at p)]; simpl in *; lia.
Qed.

Lemma db_ext_same d d' :
  db_payouts d' = db_payouts d -> db_seq d <= db_seq d' -> db_now d <= db_now d' ->
  incl (db_wallets d) (db_wallets d') ->
  db_meta d' !! INFLIGHT_KEY = db_meta d !! INFLIGHT_KEY -> db_ext d d'.
Proof.
  intros E Es En V L. split; [done|rewrite E..|done|now apply payouts_wf_same|done];
    eauto using advances_refl.
Qed.

Lemma run_payout_op_meta op d d' :
  run_payout_op op d = Ok (tt, d') ->
  db_meta d' = db_meta d /\ db_cycles d' = db_cycles d /\ db_wallets d' = db_wallets d.
Proof.
  destruct op; simpl; unfold mark_payout_submitted, mark_payout_accepted, mark_payout_confirmed,
    confirm_krc20_payout_once, mark_payout_failed, record_krc20_commit_hash,
    record_krc20_reveal_hash, insert_payout, ensure_payout, update_payouts, db_bind, db_ret;
    intros H; repeat (break_match_in H; try discriminate); inv_eqs; simpl in *; inv_eqs; auto.
Qed.

Lemma row_evolves_advances p p' : row_evolves p p' -> advances p p'.
Proof.
  intros (I & C & V & A & _ & Ed & _). repeat split; auto. intros Hn. inversion Ed; congruence.
Qed.

Lemma db_ext_op op d d' : run_payout_op op d = Ok (tt, d') -> db_ext d d'.
Proof.
  intros H. destruct (run_payout_op_meta _ _ _ H) as (Em & _ & Ew). split.
  - destruct (run_payout_op_shape _ _ _ H) as [(_ & -> & _)|(? & ? & ? & _ & -> & _)]; lia.
  - intros p' Hp'. destruct (run_payout_op_origin _ _ _ _ H Hp')
      as [(p & Hp & A)|(c & w & a & ->)]; [|right; simpl; lia].
    eauto using row_evolves_advances.
  - intros p Hp. destruct (run_payout_op_evolves _ _ _ _ H Hp) as (p' & Hp' & A).
    eauto using row_evolves_advances.
  - rewrite Ew. apply incl_refl.
  - intros W. exact (run_payout_op_wf _ _ _ W H).
  - now rewrite Em.
Qed.

(** A repository call whose every success extends the database. *)
Definition extends {A} (m : DB A) : Prop := forall d a d', m d = Ok (a, d') -> db_ext d d'.

Lemma extends_ret {A} (a : A) : extends (db_ret a).
Proof. intros d b d' H. unfold db_ret in H. inv_eqs. apply db_ext_refl. Qed.

Lemma extends_read {A} (f : Db -> A) : extends (db_read f).
Proof. intros d b d' H. unfold db_read in H. inv_eqs. apply db_ext_refl. Qed.

Lemma extends_read_checked {A} (f : Db -> result A DbError) : extends (db_read_checked f).
Proof.
  intros d b d' H. unfold db_read_checked in H. destruct (f d); inv_eqs. apply db_ext_refl.
Qed.

Lemma extends_bind {A B} (m : DB A) (k : A -> DB B) :
  extends m -> (forall a, extends (k a)) -> extends (db_bind m k).
Proof.
  intros Hm Hk d b d' (a & d1 & H1 & H2)%db_bind_ok.
  eapply db_ext_trans; [eapply Hm, H1 | eapply Hk, H2].
Qed.

Lemma extends_op op : extends (run_payout_op op).
Proof. intros d [] d' H. now apply (db_ext_op op). Qed.

Lemma extends_update_cycles p f : extends (update_cycles p f).
Proof.
  intros d n d' H. unfold update_cycles in H. destruct (tbl_update _ _ _ _) as [[rows m]|]; inv_eqs.
  apply db_ext_same; simpl; auto using incl_refl; lia.
Qed.

Lemma extends_create_cycle k a b : extends (create_cycle k a b).
Proof.
  intros d c d' H. unfold create_cycle in H. destruct (cycle_check _); [|discriminate].
  destruct (find_cycle _ d); inv_eqs; [apply db_ext_refl|].
  apply db_ext_same; simpl; auto using incl_refl; lia.
Qed.

Lemma extends_ensure_payout c w a : extends (ensure_payout c w a).
Proof.
  intros d p d' H. apply (db_ext_op (OpEnsure c w a)). simpl. unfold db_bind. now rewrite H.
Qed.

Lemma extends_meta_set k v : k <> INFLIGHT_KEY -> extends (meta_set k v).
Proof.
  intros Hk d [] d' H. unfold meta_set in H. inv_eqs.
  apply db_ext_same; simpl; auto using incl_refl; try lia. now rewrite lookup_insert_ne.
Qed.

Lemma extends_meta_get k : extends (meta_get k).
Proof. apply extends_read. Qed.

#[export] Hint Resolve extends_meta_get extends_ret extends_read extends_read_checked extends_bind
  extends_update_cycles extends_create_cycle extends_ensure_payout : kat.

Lemma extends_plan_rows cy cap el t r : extends (plan_rows cy cap el t r).
Proof.
  revert t r. induction el as [|w el IH]; intros t r; simpl; auto with kat.
Qed.

Lemma extends_set_totals i t r : extends (set_cycle_totals i t r).
Proof. unfold set_cycle_totals. auto with kat. Qed.

Lemma extends_plan p : extends (plan_zkas_cycle p).
Proof.
  unfold plan_zkas_cycle, list_zkas_eligible_wallets, list_eligible_wallets.
  apply extends_bind; [auto with kat|]. intros cy.
  apply extends_bind; [auto with kat|]. intros el.
  apply extends_bind; [apply extends_plan_rows|]. intros t.
  apply extends_bind; [apply extends_set_totals|]. auto with kat.
Qed.

Lemma extends_cycle_marks id :
  extends (mark_cycle_broadcasting id) /\ extends (mark_cycle_partially_settled id) /\
  extends (mark_cycle_settled id) /\ extends (mark_cycle_failed id).
Proof.
  split; [|split; [|split]]; intros d a d' H;
    unfold mark_cycle_broadcasting, mark_cycle_partially_settled,
      mark_cycle_settled, mark_cycle_failed in H;
    eapply (extends_bind (update_cycles _ _) (fun _ => db_ret tt)); eauto with kat.
Qed.

(** ** The invariant *)

(** A send the engine takes for final: accepted, or with an outcome the sender
    calls ambiguous. *)
Definition final_send (e : SendEntry) : bool :=
  match se_outcome e with Ok _ => true | Err e => is_ambiguous e end.

Definition final_ids (log : list SendEntry) : list Z := map se_payout_id (List.filter final_send log).

Definition latched (d : Db) : Prop := is_Some (db_meta d !! INFLIGHT_KEY).

(** The row of a final send is out of [planned], or broadcasting is halted. *)
Definition final_safe (d : Db) (id : Z) : Prop :=
  id < db_seq d /\
  (latched d \/ forall p, In p (db_payouts d) -> po_id p = id -> po_status p <> Planned).

(** No row is sent again after a final send. *)
Definition never_after_final (log : list SendEntry) : Prop :=
  forall l1 e l2, log = l1 ++ e :: l2 -> ~ In (se_payout_id e) (final_ids l1).

Record safe (w : World) : Prop := {
  safe_wf : payouts_wf (wd_db w);
  safe_once : never_after_final (wd_log w);
  safe_paid : Forall (final_safe (wd_db w)) (final_ids (wd_log w))
}.

Lemma final_safe_ext d d' id : db_ext d d' -> final_safe d id -> final_safe d' id.
Proof.
  intros [S R _ _ _ L] [Hs Hp]. split; [lia|].
  destruct Hp as [Hl|Hp]; [left; unfold latched; now rewrite L|].
  right. intros p' Hp' E. destruct (R p' Hp') as [(p & Hin & I & _ & _ & _ & A)|]; [|lia].
  apply A, Hp; [done|congruence].
Qed.

Lemma safe_ext w d' n :
  safe w -> db_ext (wd_db w) d' -> safe (mkWorld d' (wd_log w) n).
Proof.
  intros [W O P] E. split; simpl; [now apply E|done|].
  eapply Forall_impl; [exact P|]. intros id. now apply final_safe_ext.
Qed.

(** [keeps P m]: running [m] from a state with [P] ends, even by an error, in a
    state with [P]. *)
Definition keeps {A} (P : World -> Prop) (m : M A) : Prop := forall w, P w -> P (fst (m w)).

Lemma keeps_ret {A} P (a : A) : keeps P (ret a).
Proof. intros w H. exact H. Qed.
Lemma keeps_fail {A} P e : keeps P (@fail A e).
Proof. intros w H. exact H. Qed.
Lemma keeps_bind {A B} P (m : M A) (k : A -> M B) :
  keeps P m -> (forall a, keeps P (k a)) -> keeps P (bind m k).
Proof.
  intros Hm Hk w H. unfold bind. specialize (Hm w H).
  destruct (m w) as [w' [a|e]]; simpl in *; [apply Hk, Hm | exact Hm].
Qed.

#[export] Hint Resolve keeps_ret keeps_fail : kat.

(** A database property that a repository call preserves is kept by the call,
    whatever the faults. *)
Lemma keeps_call_inv {A} env (P : Db -> Prop) (m : DB A) :
  (forall d a d', P d -> m d = Ok (a, d') -> P d') ->
  keeps (fun w => P (wd_db w)) (call_db env m).
Proof.
  intros Hm w H. unfold call_db.
  destruct (env_fault env (wd_calls w)); simpl; [|exact H|];
    destruct (m (wd_db w)) as [[a d']|e] eqn:E; simpl; eauto.
Qed.

(** A property stable under [db_ext] is kept by every extending call. *)
Definition ext_stable (P : World -> Prop) : Prop :=
  forall w d' n, P w -> db_ext (wd_db w) d' -> P (mkWorld d' (wd_log w) n).

Lemma safe_stable : ext_stable safe.
Proof. intros w d' n. apply safe_ext. Qed.

Lemma keeps_call_db {A} env P (m : DB A) : ext_stable P -> extends m -> keeps P (call_db env m).
Proof.
  intros HP Hm w H. unfold call_db.
  pose proof (HP w (wd_db w) (S (wd_calls w)) H (db_ext_refl _)) as H0.
  destruct (env_fault env (wd_calls w)); [| exact H0 |];
    destruct (m (wd_db w)) as [[a d']|e] eqn:E; try exact H0;
    apply (HP w d' (S (wd_calls w)) H), (Hm _ _ _ E).
Qed.

Lemma keeps_call_chain {A} P (f : nat -> result A ChainError) :
  ext_stable P -> keeps P (call_chain f).
Proof. intros HP w H. apply (HP w (wd_db w) (S (wd_calls w)) H), db_ext_refl. Qed.

Section Keep.
Context (env : Env) (cfg : ZkasPayoutEngineConfig) (P : World -> Prop) (HP : ext_stable P).

Ltac keep :=
  repeat first [ apply keeps_bind; [|intros ?] | apply keeps_ret | apply keeps_fail
               | apply (keeps_call_chain P _ HP)
               | apply (keeps_call_db env P _ HP);
                   first [ now auto with kat | now (apply extends_meta_set) ]
               | break_match ].

Lemma keeps_anchor : keeps P (anchor_at_sink env).
Proof using HP. unfold anchor_at_sink. keep. Qed.

Lemma keeps_ensure_cursor : keeps P (ensure_confirm_cursor env).
Proof using HP.
  unfold ensure_confirm_cursor, meta_get, anchor_at_sink. keep.
Qed.

Lemma keeps_confirm_one v s p st : keeps P (confirm_one env v s p st).
Proof using HP.
  unfold confirm_one, mark_accepted_u64. keep;
    apply (keeps_call_db env P _ HP);
    first [apply (extends_op (OpAccept _ _)) | apply (extends_op (OpConfirm _))].
Qed.

Lemma keeps_confirm_loop v s ps st : keeps P (confirm_loop env v s ps st).
Proof using HP.
  revert st. induction ps as [|p ps IH]; intros st; simpl; [apply keeps_ret|].
  apply keeps_bind; [apply keeps_confirm_one | exact IH].
Qed.

Lemma keeps_accepted_since c l : keeps P (call_accepted_since env c l).
Proof using HP. intros w H. apply (HP w (wd_db w) (S (wd_calls w)) H), db_ext_refl. Qed.

Lemma keeps_confirm_pass v st : keeps P (confirm_pass env v st).
Proof using HP.
  unfold confirm_pass, list_zkas_in_flight_payouts, meta_get.
  keep; auto using keeps_anchor, keeps_ensure_cursor, keeps_confirm_loop, keeps_accepted_since.
Qed.

Lemma keeps_reconcile i : keeps P (reconcile_cycle env i).
Proof using HP.
  destruct (extends_cycle_marks i) as (H1 & H2 & H3 & H4).
  unfold reconcile_cycle, list_for_cycle. keep; now apply (keeps_call_db env P _ HP).
Qed.

Lemma keeps_resume_or_plan a b st : keeps P (resume_or_plan env cfg a b st).
Proof using HP.
  unfold resume_or_plan, find_cycle_by_idempotency_key. keep.
  apply (keeps_call_db env P _ HP), extends_plan.
Qed.

(** The tick keeps whatever the broadcast pass keeps. *)
Lemma keeps_tick :
  (forall cy st, keeps P (broadcast_pass env cfg cy st)) -> keeps P (tick_once env cfg).
Proof using HP.
  intros HB. unfold tick_once. apply keeps_bind.
  - intros w H. apply (HP w (wd_db w) (S (wd_calls w)) H), db_ext_refl.
  - intros []; [|apply keeps_ret].
    apply keeps_bind; [now apply keeps_call_chain|]. intros v.
    apply keeps_bind; [apply keeps_resume_or_plan|]. intros cs.
    apply keeps_bind; [apply HB|]. intros st.
    apply keeps_bind; [apply keeps_confirm_pass|]. intros st'.
    apply keeps_bind; [apply keeps_reconcile|]. intros _. apply keeps_ret.
Qed.
End Keep.

(** ** The broadcast loop *)

Definition planned_row (d : Db) (id : Z) : Prop :=
  exists p, In p (db_payouts d) /\ po_id p = id /\ po_status p = Planned.

Definition set_latch (v : string) (d : Db) : Db := set_meta (<[INFLIGHT_KEY := v]> (db_meta d)) d.
Definition clear_latch (d : Db) : Db := set_meta (delete INFLIGHT_KEY (db_meta d)) d.

Lemma set_latch_latched v d : latched (set_latch v d).
Proof. unfold latched, set_latch. simpl. rewrite lookup_insert_eq. eauto. Qed.

Lemma clear_latch_unlatched d : ~ latched (clear_latch d).
Proof. unfold latched, clear_latch. simpl. rewrite lookup_delete_eq. intros [? ?]. discriminate. Qed.

Lemma final_ids_snoc log e :
  final_ids (log ++ [e]) = if final_send e then final_ids log ++ [se_payout_id e] else final_ids log.
Proof.
  unfold final_ids. rewrite List.filter_app, map_app. simpl.
  destruct (final_send e); simpl; [done | now rewrite app_nil_r].
Qed.

Lemma naf_nil : never_after_final [].
Proof. intros [|] e l2 E; discriminate E. Qed.

Lemma naf_snoc log e :
  never_after_final (log ++ [e]) <-> never_after_final log /\ ~ In (se_payout_id e) (final_ids log).
Proof.
  split.
  - intros H. split; [|now apply (H log e [])]. intros l1 x l2 ->.
    apply (H l1 x (l2 ++ [e])). now rewrite <- app_assoc.
  - intros [H N] l1 x l2 E. destruct l2 as [|y l2 _] using rev_ind.
    + apply app_inj_tail in E as [-> ->]. exact N.
    + rewrite app_comm_cons, app_assoc in E. apply app_inj_tail in E as [-> _].
      now apply (H l1 x l2).
Qed.

(** Anything with an unchanged payout table is safe while latched. *)
Lemma safe_latched w d' log' n :
  safe w -> db_payouts d' = db_payouts (wd_db w) -> db_seq d' = db_seq (wd_db w) ->
  db_now d' = db_now (wd_db w) -> latched d' ->
  (log' = wd_log w \/ exists e, log' = wd_log w ++ [e] /\ se_payout_id e < db_seq d' /\
                             ~ In (se_payout_id e) (final_ids (wd_log w))) ->
  safe (mkWorld d' log' n).
Proof.
  intros [W O P] E Es En L Hlog.
  assert (payouts_wf d') as W' by (apply (payouts_wf_same (wd_db w)); auto; lia).
  assert (Forall (final_safe d') (final_ids (wd_log w))) as P'.
  { eapply Forall_impl; [exact P|]. intros id [Hs _]. split; [lia|auto]. }
  destruct Hlog as [->|(e & -> & He & Hn)]; split; simpl; auto; [now apply naf_snoc|].
  rewrite final_ids_snoc. destruct (final_send e); [|exact P'].
  apply Forall_app. split; [done|]. repeat constructor; auto.
Qed.

Lemma safe_unlatched w d' n :
  safe w -> ~ latched (wd_db w) ->
  db_payouts d' = db_payouts (wd_db w) -> db_seq d' = db_seq (wd_db w) ->
  db_now d' = db_now (wd_db w) -> safe (mkWorld d' (wd_log w) n).
Proof.
  intros [W O P] L E Es En. split; simpl; auto.
  - apply (payouts_wf_same (wd_db w)); auto; lia.
  - eapply Forall_impl; [exact P|]. intros id [Hs [Hl|Hp]]; [contradiction|].
    split; [lia|]. right. now rewrite E.
Qed.

(** A send reported as a failure is not final. *)
Lemma safe_failed w e d' n :
  safe w -> ~ latched (wd_db w) -> final_send e = false ->
  ~ In (se_payout_id e) (final_ids (wd_log w)) ->
  db_payouts d' = db_payouts (wd_db w) -> db_seq d' = db_seq (wd_db w) ->
  db_now d' = db_now (wd_db w) -> safe (mkWorld d' (wd_log w ++ [e]) n).
Proof.
  intros S L He Hn E Es En. destruct (safe_unlatched w d' n S L E Es En) as [W O P].
  split; simpl in *; [done|now apply naf_snoc|]. now rewrite final_ids_snoc, He.
Qed.

Lemma planned_not_paid w id :
  safe w -> ~ latched (wd_db w) -> planned_row (wd_db w) id ->
  id < db_seq (wd_db w) /\ ~ In id (final_ids (wd_log w)).
Proof.
  intros [W O P] L (p & Hp & <- & Hs). split.
  - pose proof (wf_ids_lt _ W) as H. rewrite List.Forall_forall in H. auto.
  - intros Hin. rewrite List.Forall_forall in P. destruct (P _ Hin) as [_ [Hl|Hq]]; [contradiction|].
    now apply (Hq p).
Qed.

Lemma mark_submitted_effect id h d d' :
  mark_payout_submitted id h d = Ok (tt, d') ->
  (forall p', In p' (db_payouts d') -> po_id p' = id -> po_status p' <> Planned) /\
  (forall id', id' <> id -> planned_row d id' -> planned_row d' id').
Proof.
  intros H. destruct (run_payout_op_shape (OpSubmit id h) d d' H)
    as [(E & _)|(c & w & a & _ & Es & _)].
  - unfold planned_row. rewrite E. split.
    + intros p' Hp' Hid. apply in_map_iff in Hp' as (p & <- & Hp).
      destruct (op_row_evolves (OpSubmit id h) (db_now d) p) as [Ei _]. rewrite Ei in Hid.
      unfold op_row. simpl. rewrite Hid, Z.eqb_refl. simpl.
      destruct (status_in [Planned; Submitted] p) eqn:G; [discriminate|].
      intros Hs. unfold status_in in G. rewrite Hs in G. discriminate G.
    + intros id' Hne (p & Hp & Hid & Hs). exists (op_row (OpSubmit id h) (db_now d) p).
      split; [now apply in_map|]. unfold op_row. simpl.
      destruct (Z.eqb_spec (po_id p) id); [congruence|]. simpl. auto.
  - exfalso. simpl in H. unfold mark_payout_submitted in H.
    apply db_bind_ok in H as (? & ? & H & H1). apply update_payouts_ok in H as [-> _].
    unfold db_ret in H1. inv_eqs. simpl in Es. lia.
Qed.

(** Unlatching after the row of the sent payout has left [planned]. *)
Lemma safe_recorded w d2 d3 e n :
  safe w -> ~ latched (wd_db w) -> db_payouts d2 = db_payouts (wd_db w) ->
  db_seq d2 = db_seq (wd_db w) -> db_now d2 = db_now (wd_db w) ->
  db_ext d2 d3 -> se_payout_id e < db_seq (wd_db w) ->
  ~ In (se_payout_id e) (final_ids (wd_log w)) ->
  (forall p, In p (db_payouts d3) -> po_id p = se_payout_id e -> po_status p <> Planned) ->
  safe (mkWorld (clear_latch d3) (wd_log w ++ [e]) n).
Proof.
  intros [W O P] L E Es En X Hs Hn Hr.
  assert (payouts_wf d3) as W3 by (apply X, (payouts_wf_same (wd_db w)); auto; lia).
  assert (forall id, In id (final_ids (wd_log w)) -> final_safe (clear_latch d3) id) as Hold.
  { intros id Hid. rewrite List.Forall_forall in P. destruct (P id Hid) as [Hlt [Hl|Hq]];
      [contradiction|]. pose proof (ext_seq _ _ X). split; [simpl; lia|]. right. simpl.
    intros p' Hp' Ei. destruct (ext_rows _ _ X p' Hp') as [(p & Hp & I & _ & _ & _ & A)|]; [|lia].
    apply A, Hq; [now rewrite <- E|congruence]. }
  pose proof (ext_seq _ _ X). split; simpl.
  - apply (payouts_wf_same d3); simpl; auto; lia.
  - now apply naf_snoc.
  - rewrite final_ids_snoc. apply List.Forall_forall. intros id Hid.
    destruct (final_send e); [|auto].
    apply in_app_iff in Hid as [Hid|[<-|[]]]; [auto|]. split; [simpl; lia|]. right. exact Hr.
Qed.

Section Broadcast.
Context (env : Env) (cfg : ZkasPayoutEngineConfig).

Lemma send_loop_safe rs : forall st w,
  safe w -> ~ latched (wd_db w) -> List.NoDup (map re_payout_id rs) ->
  Forall (fun r => planned_row (wd_db w) (re_payout_id r)) rs ->
  safe (fst (send_loop env cfg rs st w)).
Proof.
  induction rs as [|r rs IH]; intros st w S L ND PR; [exact S|].
  inversion ND as [|? ? Hnin ND']; subst. inversion PR as [|? ? Hr PR']; subst.
  destruct (planned_not_paid w _ S L Hr) as [Hlt Hnp].
  simpl. destruct (cfg_mode cfg); [now apply IH|].
  unfold bind at 1, call_db at 1, meta_set. simpl.
  assert (forall n, safe (mkWorld (set_latch (pretty (re_payout_id r)) (wd_db w)) (wd_log w) n)) as SL.
  { intros n. eapply safe_latched; eauto using set_latch_latched. }
  destruct (env_fault env (wd_calls w)); simpl;
    [| apply (safe_ext w _ _ S), db_ext_refl | apply SL].
  set (w1 := with_db _ _).
  assert (safe w1) as S1 by apply SL.
  assert (forall n, safe (mkWorld (clear_latch (wd_db w1)) (wd_log w) n)) as SC
    by (intros n; now apply safe_unlatched).
  destruct (u64_try_from (re_amount_sompi r)) as [amt|].
  2: { unfold bind at 1, call_db at 1, meta_delete.
       destruct (env_fault env (wd_calls w1)); simpl;
         [| apply (safe_ext w1 _ _ S1), db_ext_refl | apply SC].
       apply IH; [apply SC | apply clear_latch_unlatched | done | done]. }
  unfold bind at 1, call_send at 1. cbv zeta.
  set (e := mkSend _ _ _ _). set (w2 := mkWorld _ _ _).
  assert (safe w2) as S2.
  { apply (safe_latched w (wd_db w2) (wd_log w2) (wd_calls w2));
      [exact S | reflexivity .. | apply set_latch_latched |].
    right. exists e. repeat split; [exact Hlt | exact Hnp]. }
  destruct (env_send env (wd_calls w1) (re_address r) amt) as [txid|err] eqn:Eo.
  - unfold bind at 1, call_db at 1. set (n1 := env_fault env (wd_calls w2)).
    destruct (mark_payout_submitted (re_payout_id r) txid (wd_db w2)) as [[[] d3]|x] eqn:Em.
    2: { destruct n1; simpl; apply (safe_ext w2 _ _ S2), db_ext_refl. }
    pose proof (db_ext_op (OpSubmit (re_payout_id r) txid) _ _ Em) as X.
    destruct (mark_submitted_effect _ _ _ _ Em) as [Hdone Hrest].
    assert (forall n, safe (mkWorld d3 (wd_log w2) n)) as S3 by (intros n; now apply safe_ext).
    destruct n1; simpl; [| apply (safe_ext w2 _ _ S2), db_ext_refl | apply S3].
    set (w3 := with_db _ _).
    assert (forall n, safe (mkWorld (clear_latch (wd_db w3)) (wd_log w3) n)) as SC3.
    { intros n. apply (safe_recorded w (wd_db w2) d3 e n S L); auto. }
    unfold bind at 1, call_db at 1, meta_delete.
    destruct (env_fault env (wd_calls w3)); simpl; [| apply S3 | apply SC3].
    apply IH; [apply SC3 | apply clear_latch_unlatched | done |].
    rewrite List.Forall_forall in PR' |- *. intros r' Hr'. simpl.
    apply Hrest; [|now apply PR'].
    intros Eq. apply Hnin. rewrite <- Eq. now apply in_map.
  - destruct (is_ambiguous err) eqn:Ha; [exact S2|].
    unfold bind at 1, call_db at 1, meta_delete.
    destruct (env_fault env (wd_calls w2)); simpl;
      [| apply (safe_ext w2 _ _ S2), db_ext_refl |];
      apply (safe_failed w e (clear_latch (wd_db w2))); try reflexivity; try exact Hnp; auto;
      unfold final_send; subst e; simpl; rewrite Eo; exact Ha.
Qed.
End Broadcast.

Lemma recipients_spec d cycle_id r :
  In r (omap (recipient_row d) (sort_by payout_amount_le
          (List.filter (fun p => po_cycle_id p =? cycle_id) (db_payouts d)))) ->
  exists p, In p (db_payouts d) /\ re_payout_id r = po_id p /\ re_status r = po_status p /\
            re_amount_sompi r = po_amount_sompi p /\ po_cycle_id p = cycle_id /\
            exists wl, In wl (db_wallets d) /\ w_id wl = po_wallet_id p /\ re_address r = w_address wl.
Proof.
  intros (p & Hp & E)%In_omap. rewrite sort_by_In in Hp. apply filter_In in Hp as [Hp Hc].
  apply Z.eqb_eq in Hc. unfold recipient_row in E.
  destruct (List.find _ (db_wallets d)) as [wl|] eqn:F; inv_eqs.
  apply find_some in F as [Hw Hi]. apply Z.eqb_eq in Hi.
  exists p. simpl. repeat split; auto. eauto.
Qed.

Lemma recipients_nodup d cycle_id :
  payouts_wf d ->
  List.NoDup (map re_payout_id (omap (recipient_row d) (sort_by payout_amount_le
          (List.filter (fun p => po_cycle_id p =? cycle_id) (db_payouts d))))).
Proof.
  intros W. apply (NoDup_map_omap _ _ po_id).
  - intros p r E. unfold recipient_row in E. destruct (List.find _ (db_wallets d)); inv_eqs. done.
  - apply sort_by_NoDup_map, NoDup_map_filter, W.
Qed.

(** What the broadcast pass does, once its reads have succeeded. *)
Lemma broadcast_cases env cfg cy st w :
  let rs := omap (recipient_row (wd_db w)) (sort_by payout_amount_le
              (List.filter (fun p => po_cycle_id p =? cy_id cy) (db_payouts (wd_db w)))) in
  let planned := List.filter is_planned rs in
  (wd_db (fst (broadcast_pass env cfg cy st w)) = wd_db w /\
   wd_log (fst (broadcast_pass env cfg cy st w)) = wd_log w)
  \/ (~ latched (wd_db w) /\
      (exists total, sum_i64 (map re_amount_sompi planned) = Some total /\
         over_spend_cap total (cfg_spend_cap_sompi cfg) = false) /\
      exists n, broadcast_pass env cfg cy st w =
        send_loop env cfg (firstn (cfg_max_sends_per_tick cfg) planned) st
          (mkWorld (wd_db w) (wd_log w) n)).
Proof.
  intros rs planned. unfold broadcast_pass, inflight_latch, bind, call_db, meta_get, db_read,
    list_cycle_recipients, ret, fail, with_db, tick_call; cbn [wd_db wd_log wd_calls].
  destruct (env_fault env (wd_calls w)); [|left; split; reflexivity ..].
  destruct (db_meta (wd_db w) !! INFLIGHT_KEY) as [v|] eqn:L; [left; split; reflexivity|].
  unfold db_read. cbn [wd_db wd_log wd_calls].
  destruct (env_fault env (S (wd_calls w))); [|left; split; reflexivity ..]. cbn [wd_db wd_log wd_calls].
  change (List.filter is_planned (omap _ _)) with planned. clearbody planned. clear rs.
  destruct planned as [|r l]; [left; split; reflexivity|].
  destruct (sum_i64 (map re_amount_sompi (r :: l))) as [t|]; [|left; split; reflexivity].
  destruct (over_spend_cap t (cfg_spend_cap_sompi cfg)) eqn:EC; [left; split; reflexivity|].
  right. split; [unfold latched; rewrite L; intros [? ?]; discriminate|].
  split; [exists t; done|]. eexists. reflexivity.
Qed.

(** A database property kept by the latch and by [mark_payout_submitted] is kept
    by the broadcast pass. *)
Section BroadcastInv.
Context (env : Env) (cfg : ZkasPayoutEngineConfig) (P : Db -> Prop).
Hypothesis P_meta : forall d m, P d -> P (set_meta m d).
Hypothesis P_submit : forall i h d d', P d -> mark_payout_submitted i h d = Ok (tt, d') -> P d'.

Lemma keeps_loop_inv rs : forall st, keeps (fun w => P (wd_db w)) (send_loop env cfg rs st).
Proof using P_meta P_submit.
  induction rs as [|r rs IH]; intros st; simpl; [apply keeps_ret|].
  destruct (cfg_mode cfg); [apply IH|].
  assert (forall A (k : M A), keeps (fun w => P (wd_db w)) k ->
    keeps (fun w => P (wd_db w)) (bind (call_db env (meta_delete INFLIGHT_KEY)) (fun _ => k))) as Del.
  { intros A k Hk. apply keeps_bind; [|auto]. apply keeps_call_inv.
    intros d b d' H E. unfold meta_delete in E. inv_eqs. auto. }
  apply keeps_bind; [|intros _].
  { apply keeps_call_inv. intros d a d' H E. unfold meta_set in E. inv_eqs. auto. }
  destruct (u64_try_from (re_amount_sompi r)); [|now apply Del].
  apply keeps_bind; [intros w H; exact H|]. intros [txid|e].
  - apply keeps_bind; [|intros _; apply Del, IH].
    apply keeps_call_inv. intros d [] d'. apply P_submit.
  - destruct (is_ambiguous e); [apply keeps_ret|]. apply Del, keeps_ret.
Qed.

Lemma keeps_broadcast_inv cy st : keeps (fun w => P (wd_db w)) (broadcast_pass env cfg cy st).
Proof using P_meta P_submit.
  intros w H. destruct (broadcast_cases env cfg cy st w) as [[-> _]|(_ & _ & n & ->)]; [exact H|].
  apply keeps_loop_inv. exact H.
Qed.
End BroadcastInv.

Lemma broadcast_pass_wf env cfg cy st :
  keeps (fun w => payouts_wf (wd_db w)) (broadcast_pass env cfg cy st).
Proof.
  apply keeps_broadcast_inv.
  - intros d m W. apply (payouts_wf_same d); simpl; auto; lia.
  - intros i h d d' W H. exact (run_payout_op_wf (OpSubmit i h) d d' W H).
Qed.

Lemma planned_recipients env cfg cy w :
  let rs := omap (recipient_row (wd_db w)) (sort_by payout_amount_le
              (List.filter (fun p => po_cycle_id p =? cy_id cy) (db_payouts (wd_db w)))) in
  forall st n, safe w -> ~ latched (wd_db w) ->
  safe (fst (send_loop env cfg (firstn (cfg_max_sends_per_tick cfg) (List.filter is_planned rs)) st
               (mkWorld (wd_db w) (wd_log w) n))).
Proof.
  intros rs st n S L. apply send_loop_safe; [|exact L|..].
  - apply (safe_ext w _ _ S), db_ext_refl.
  - apply NoDup_map_firstn, NoDup_map_filter, recipients_nodup, S.
  - apply List.Forall_forall. intros r Hr%In_firstn. apply filter_In in Hr as [Hr Hp].
    apply recipients_spec in Hr as (p & Hin & Hid & Hst & _).
    exists p. repeat split; [exact Hin|congruence|].
    apply bool_decide_eq_true in Hp. congruence.
Qed.

Lemma broadcast_pass_safe env cfg cy st : keeps safe (broadcast_pass env cfg cy st).
Proof.
  intros w S. destruct (broadcast_cases env cfg cy st w) as [[Ed El]|(L & _ & n & E)].
  - destruct (fst (broadcast_pass env cfg cy st w)) as [d log n]. simpl in *. subst.
    apply (safe_ext w _ _ S), db_ext_refl.
  - rewrite E. now apply planned_recipients.
Qed.

Lemma tick_safe env cfg : keeps safe (tick_once env cfg).
Proof. apply keeps_tick; [exact safe_stable|]. intros. apply broadcast_pass_safe. Qed.

(** ** Histories of the pool *)

(** One event of the deployment: a tick of the engine (with any configuration and
    any answers of the outside world), a payout-table call of another engine, a
    write of the accountant to its own tables, an operator who establishes that a
    send which ended in an error did not pay (its entry then reads as a send that was
    never started), or an operator who clears the latch once the row of every send
    accepted or of unknown outcome has left [planned]. *)
Inductive pool_step : World -> World -> Prop :=
| StepTick env cfg w : pool_step w (fst (tick_once env cfg w))
| StepRepo op d' w :
    run_payout_op op (wd_db w) = Ok (tt, d') ->
    pool_step w (mkWorld d' (wd_log w) (wd_calls w))
| StepAccounting d' w :
    db_payouts d' = db_payouts (wd_db w) -> db_meta d' = db_meta (wd_db w) ->
    incl (db_wallets (wd_db w)) (db_wallets d') ->
    db_seq (wd_db w) <= db_seq d' -> db_now (wd_db w) <= db_now d' ->
    pool_step w (mkWorld d' (wd_log w) (wd_calls w))
| StepFoundUnpaid w l1 e l2 x msg :
    wd_log w = l1 ++ e :: l2 -> se_outcome e = Err x ->
    pool_step w (mkWorld (wd_db w)
      (l1 ++ mkSend (se_payout_id e) (se_address e) (se_amount e) (Err (Seed msg)) :: l2) (wd_calls w))
| StepClearLatch w :
    (forall p, In p (db_payouts (wd_db w)) -> In (po_id p) (final_ids (wd_log w)) ->
       po_status p <> Planned) ->
    pool_step w (mkWorld (clear_latch (wd_db w)) (wd_log w) (wd_calls w)).

Definition pool_reachable (d : Db) : World -> Prop := rtc pool_step (mkWorld d [] 0).

Lemma final_ids_app l1 l2 : final_ids (l1 ++ l2) = final_ids l1 ++ final_ids l2.
Proof. unfold final_ids. now rewrite List.filter_app, map_app. Qed.

(** Learning that a send did not pay only removes rows from the final ones. *)
Lemma final_ids_drop l1 e e' l2 :
  final_send e' = false -> incl (final_ids (l1 ++ e' :: l2)) (final_ids (l1 ++ e :: l2)).
Proof.
  intros He id. rewrite !final_ids_app. unfold final_ids at 2 4. simpl. rewrite He.
  destruct (final_send e); simpl; rewrite !in_app_iff; simpl; tauto.
Qed.

Lemma naf_drop l1 e e' l2 :
  final_send e' = false -> se_payout_id e' = se_payout_id e ->
  never_after_final (l1 ++ e :: l2) -> never_after_final (l1 ++ e' :: l2).
Proof.
  intros He Ei. induction l2 as [|x l2 IH] using rev_ind.
  - rewrite !naf_snoc, Ei. done.
  - rewrite !app_comm_cons, !app_assoc, !naf_snoc. intros [H N]. split; [auto|].
    intros Hin. apply N, (final_ids_drop _ _ _ _ He), Hin.
Qed.

Lemma sublist_ListNoDup {A} (l1 l2 : list A) : sublist l1 l2 -> List.NoDup l2 -> List.NoDup l1.
Proof. rewrite <- !NoDup_ListNoDup. intros H N. exact (sublist_NoDup l1 l2 N H). Qed.

Lemma safe_step w w' : pool_step w w' -> safe w -> safe w'.
Proof.
  intros H S. destruct H as [env cfg w|op d' w H|d' w E Em Ew Es En|w l1 e l2 x msg El _|w H].
  - now apply tick_safe.
  - now apply safe_ext, (db_ext_op op).
  - apply safe_ext; [done|]. apply db_ext_same; auto. now rewrite Em.
  - destruct S as [W O P]. rewrite El in O, P.
    split; simpl; [done|now apply (naf_drop l1 e)|].
    apply List.Forall_forall. intros id Hid. rewrite List.Forall_forall in P.
    apply P. eapply final_ids_drop; [|exact Hid]. reflexivity.
  - destruct S as [W O P]. split; simpl; [apply (payouts_wf_same (wd_db w)); simpl; auto; lia|done|].
    apply List.Forall_forall. intros id Hid. rewrite List.Forall_forall in P.
    destruct (P id Hid) as [Hs _]. split; [exact Hs|]. right. simpl. intros p Hp <-. auto.
Qed.

Lemma safe_reachable d w : payouts_wf d -> pool_reachable d w -> safe w.
Proof.
  intros W R. unfold pool_reachable in R.
  assert (safe (mkWorld d [] 0)) as S by (split; simpl; [done|exact naf_nil|constructor]).
  revert S. induction R as [|w1 w2 w3 H _ IH]; eauto using safe_step.
Qed.

(** A row is sent again only when the earlier send was not a final one. *)
Lemma naf_pair log l1 e1 l2 e2 l3 :
  never_after_final log -> log = l1 ++ e1 :: l2 ++ e2 :: l3 ->
  se_payout_id e1 = se_payout_id e2 -> final_send e1 = false.
Proof.
  intros H -> E. destruct (final_send e1) eqn:F; [exfalso|done].
  apply (H (l1 ++ e1 :: l2) e2 l3); [now rewrite <- app_assoc|].
  rewrite final_ids_app. unfold final_ids at 2. simpl. rewrite F. rewrite <- E.
  apply in_app_iff. right. now left.
Qed.
