(* ===== verification/ZkasSends.v ===== *)
(** * What one tick of the shielded payout engine sends

    Every send of a tick is for a planned row of the current cycle, at most
    [max_sends_per_tick] of them, within the spend cap, to the wallet's own
    address. *)
From stdpp Require Import pretty relations.
From S2P Require Import Prelude F64 FeeModel Schema PayoutDb PayoutSpec Domain Sender ZkasEngine ZkasSafety.
Open Scope Z_scope.

(** ** Rows and wallets survive *)

Definition rows_kept (d d' : Db) : Prop :=
  (forall p, In p (db_payouts d) -> exists p', In p' (db_payouts d') /\ advances p p') /\
  incl (db_wallets d) (db_wallets d').

Lemma rows_kept_ext d d' : db_ext d d' -> rows_kept d d'.
Proof. intros X. split; [apply (ext_kept _ _ X) | apply (ext_wallets _ _ X)]. Qed.

Lemma rows_kept_trans d1 d2 d3 : rows_kept d1 d2 -> rows_kept d2 d3 -> rows_kept d1 d3.
Proof.
  intros [K1 V1] [K2 V2]. split; [|eauto using incl_tran]. intros p1 H1.
  destruct (K1 p1 H1) as (p2 & H2 & A2). destruct (K2 p2 H2) as (p3 & H3 & A3).
  eauto using advances_trans.
Qed.

Lemma rows_kept_meta d m : rows_kept d (set_meta m d).
Proof. split; simpl; [eauto using advances_refl | apply incl_refl]. Qed.

(** ** The send loop *)

(** A log entry is the send of recipient [r]. *)
Definition sent_for (r : CycleRecipient) (e : SendEntry) : Prop :=
  se_payout_id e = re_payout_id r /\ se_address e = re_address r /\
  se_amount e = re_amount_sompi r.

Section Loop.
Context (env : Env) (cfg : ZkasPayoutEngineConfig).

(** Calls other than the send leave the log alone. *)
Lemma call_db_log {A} (m : DB A) w : wd_log (fst (call_db env m w)) = wd_log w.
Proof. unfold call_db. repeat break_match; reflexivity. Qed.

(** The log grows by sends for a subsequence of the recipients. *)
Definition loop_sends (rs : list CycleRecipient) (log log' : list SendEntry) : Prop :=
  exists sub new, log' = log ++ new /\ sublist sub rs /\ Forall2 sent_for sub new /\
    (cfg_mode cfg = DryRun -> new = []).

Lemma loop_sends_nil rs log : loop_sends rs log log.
Proof.
  exists [], []. rewrite app_nil_r. split; [done|].
  split; [apply sublist_nil_l|]. split; [constructor|done].
Qed.

Lemma loop_sends_skip r rs log log' : loop_sends rs log log' -> loop_sends (r :: rs) log log'.
Proof. intros (sub & new & Hl & Hs & H). exists sub, new. auto using sublist_cons. Qed.

Lemma loop_sends_cons r rs log log' e :
  cfg_mode cfg = Live -> sent_for r e ->
  loop_sends rs (log ++ [e]) log' -> loop_sends (r :: rs) log log'.
Proof.
  intros Hm He (sub & new & Hl & Hs & Hf & _). exists (r :: sub), (e :: new).
  split; [rewrite Hl, <- app_assoc; done|]. split; [now apply sublist_skip|].
  split; [now constructor|]. congruence.
Qed.

Lemma loop_sends_bind {A} rs (m : DB A) (k : A -> M TickStats) log w :
  wd_log w = log ->
  (forall a w1, wd_log w1 = log -> loop_sends rs log (wd_log (fst (k a w1)))) ->
  loop_sends rs log (wd_log (fst (bind (call_db env m) k w))).
Proof.
  intros E0 H. unfold bind. pose proof (call_db_log m w) as E. rewrite E0 in E.
  destruct (call_db env m w) as [w1 [a|x]]; simpl in *; [now apply H|].
  rewrite E. apply loop_sends_nil.
Qed.

Lemma send_loop_sends rs : forall st log w,
  wd_log w = log -> loop_sends rs log (wd_log (fst (send_loop env cfg rs st w))).
Proof.
  induction rs as [|r rs IH]; intros st log w E; simpl; [rewrite E; apply loop_sends_nil|].
  destruct (cfg_mode cfg) eqn:Hm; [now apply loop_sends_skip, IH|].
  apply loop_sends_bind; [done|]. intros [] w1 E1.
  destruct (u64_try_from (re_amount_sompi r)) as [amt|] eqn:Ha.
  2: { apply loop_sends_skip, loop_sends_bind; auto. }
  apply checked_u64_Some in Ha as [<- _].
  unfold bind at 1, call_send. cbv zeta.
  set (e := mkSend _ _ _ _). apply (loop_sends_cons r rs log _ e Hm); [repeat split|].
  rewrite E1.
  destruct (env_send env _ _ _) as [txid|err].
  - apply loop_sends_bind; [done|]. intros _ w3 E3. apply loop_sends_bind; auto.
  - destruct (is_ambiguous err); [apply loop_sends_nil|].
    apply loop_sends_bind; [done|]. intros _ w3 E3. simpl. rewrite E3. apply loop_sends_nil.
Qed.
End Loop.

(** ** The broadcast pass and the tick *)

(** Row and wallet a send was made for. *)
Definition row_of_send (d : Db) (e : SendEntry) : Prop :=
  exists p wl, In p (db_payouts d) /\ po_id p = se_payout_id e /\ po_amount_sompi p = se_amount e /\
    In wl (db_wallets d) /\ w_id wl = po_wallet_id p /\ w_address wl = se_address e.

Lemma row_of_send_kept d d' e : rows_kept d d' -> row_of_send d e -> row_of_send d' e.
Proof.
  intros [K V] (p & wl & Hp & Ei & Ea & Hw & Ew & Ead).
  destruct (K p Hp) as (p' & Hp' & I & A & W & _).
  exists p', wl. repeat split; auto; congruence.
Qed.

(** The sends [new] that one pass may add. *)
Record sends_bounded (cfg : ZkasPayoutEngineConfig) (d : Db) (new : list SendEntry) : Prop := {
  sb_live : new <> [] -> cfg_mode cfg = Live /\ ~ latched d;
  sb_count : (length new <= cfg_max_sends_per_tick cfg)%nat;
  sb_cap : forall cap, new <> [] -> cfg_spend_cap_sompi cfg = Some cap ->
             sumZ (map se_amount new) <= cap;
  sb_distinct : List.NoDup (map se_payout_id new)
}.

Lemma sends_bounded_nil cfg d : sends_bounded cfg d [].
Proof. split; simpl; try (intros; congruence); [lia|constructor]. Qed.

Lemma sumZ_sublist l1 l2 : sublist l1 l2 -> Forall (fun x => 0 <= x) l2 -> sumZ l1 <= sumZ l2.
Proof.
  induction 1 as [|x l1 l2 _ IH|x l1 l2 _ IH]; intros F; simpl; [lia|..];
    inversion F; subst; specialize (IH ltac:(assumption)); lia.
Qed.

Lemma sublist_map {A B} (f : A -> B) l1 l2 : sublist l1 l2 -> sublist (map f l1) (map f l2).
Proof. induction 1; simpl; constructor; auto. Qed.

Lemma Forall2_map_eq {A B C} (R : A -> B -> Prop) (f : A -> C) (g : B -> C) l1 l2 :
  (forall a b, R a b -> g b = f a) -> Forall2 R l1 l2 -> map g l2 = map f l1.
Proof. intros H. induction 1; simpl; [done|]. f_equal; auto. Qed.

Section Tick.
Context (env : Env) (cfg : ZkasPayoutEngineConfig).

Definition cycle_rows (d : Db) (cycle_id : Z) : list CycleRecipient :=
  omap (recipient_row d) (sort_by payout_amount_le
    (List.filter (fun p => po_cycle_id p =? cycle_id) (db_payouts d))).

Lemma cycle_rows_nonneg d cy :
  payouts_wf d ->
  Forall (fun x => 0 <= x) (map re_amount_sompi (List.filter is_planned (cycle_rows d cy))).
Proof.
  intros W. apply List.Forall_forall. intros x (r & <- & Hr)%in_map_iff.
  apply filter_In in Hr as [Hr _].
  apply recipients_spec in Hr as (p & Hp & _ & _ & -> & _).
  pose proof (wf_check d W) as C. rewrite List.Forall_forall in C. specialize (C p Hp).
  unfold payout_check in C. rewrite !andb_true_iff in C.
  destruct C as [[[[[[C _] _] _] _] _] _]. apply Z.ltb_lt in C. lia.
Qed.

Lemma broadcast_sends cy st w :
  payouts_wf (wd_db w) ->
  exists new, wd_log (fst (broadcast_pass env cfg cy st w)) = wd_log w ++ new /\
    sends_bounded cfg (wd_db w) new /\ Forall (row_of_send (wd_db w)) new.
Proof.
  intros W. destruct (broadcast_cases env cfg cy st w)
    as [[_ El]|(L & (total & Et & Ec) & n & E)].
  { exists []. rewrite El, app_nil_r. auto using sends_bounded_nil. }
  rewrite E. fold (cycle_rows (wd_db w) (cy_id cy)) in *.
  set (rows := List.filter is_planned (cycle_rows (wd_db w) (cy_id cy))) in *.
  edestruct (send_loop_sends env cfg (firstn (cfg_max_sends_per_tick cfg) rows) st (wd_log w))
    as (sub & new & -> & Hs & Hf & Hd); [reflexivity|].
  exists new. split; [done|].
  assert (map se_amount new = map re_amount_sompi sub) as Ea
    by (eapply Forall2_map_eq; [|exact Hf]; intros ? ? (_ & _ & ?); done).
  assert (map se_payout_id new = map re_payout_id sub) as Ei
    by (eapply Forall2_map_eq; [|exact Hf]; intros ? ? (? & _ & _); done).
  assert (sublist sub rows) as Hr by (etransitivity; [exact Hs|apply sublist_take]).
  split; [split|].
  - intros Hn. split; [|exact L]. destruct (cfg_mode cfg); [now destruct (Hn (Hd eq_refl))|done].
  - rewrite <- (Forall2_length _ _ _ Hf). apply sublist_length in Hs.
    rewrite length_firstn in Hs. lia.
  - intros cap _ Hc. rewrite Ea. apply sum_i64_Some in Et. unfold over_spend_cap in Ec.
    rewrite Hc in Ec. apply Z.ltb_ge in Ec. rewrite Et in Ec. etransitivity; [|exact Ec].
    apply sumZ_sublist; [now apply sublist_map | now apply cycle_rows_nonneg].
  - rewrite Ei. apply (sublist_ListNoDup _ (map re_payout_id rows)); [now apply sublist_map|].
    now apply NoDup_map_filter, recipients_nodup.
  - apply List.Forall_forall. intros e He.
    apply list_elem_of_In, list_elem_of_lookup_1 in He as [i Hi].
    eapply Forall2_lookup_r in Hf as (r & Hri & (E1 & E2 & E3)); [|exact Hi].
    apply list_elem_of_lookup_2 in Hri. eapply sublist_subseteq in Hri; [|exact Hr].
    apply list_elem_of_In, filter_In in Hri as [Hri _].
    apply recipients_spec in Hri as (p & Hp & Hid & _ & Ham & _ & wl & Hw & Hwi & Hwa).
    exists p, wl. repeat split; congruence.
Qed.

(** Steps that only extend the database and send nothing. *)
Definition quiet_from (w0 w : World) : Prop :=
  wd_log w = wd_log w0 /\ db_ext (wd_db w0) (wd_db w).

Lemma quiet_stable w0 : ext_stable (quiet_from w0).
Proof. intros w d' n [E X] X'. split; [exact E|]. simpl. eauto using db_ext_trans. Qed.

Lemma quiet_refl w : quiet_from w w.
Proof. split; [done|apply db_ext_refl]. Qed.

(** A tick without its broadcast pass is quiet. *)
Lemma tick_cases w :
  quiet_from w (fst (tick_once env cfg w)) \/
  exists cy st w1, quiet_from w w1 /\
    quiet_from (fst (broadcast_pass env cfg cy st w1)) (fst (tick_once env cfg w)).
Proof.
  remember (fst (tick_once env cfg w)) as w' eqn:E. revert E.
  unfold tick_once. unfold bind at 1, call_lock.
  assert (quiet_from w (tick_call w)) as Q0 by (split; [done|apply db_ext_refl]).
  destruct (map_err EDb _) as [[]|e]; simpl; [|intros ->; now left ..].
  unfold bind at 1.
  pose proof (keeps_call_chain (quiet_from w) (env_virtual_daa env) (quiet_stable w) _ Q0) as Q1.
  destruct (call_chain _ _) as [w1 [v|e]]; simpl in Q1 |- *; [|intros ->; now left].
  set (a := sat_u64 (_ * _)). set (b := sat_u64 (_ + _)). unfold bind at 1.
  pose proof (keeps_resume_or_plan env cfg (quiet_from w) (quiet_stable w) a b stats0 _ Q1) as Q2.
  destruct (resume_or_plan _ _ _ _ _ _) as [w2 [[cy st]|e]]; simpl in Q2 |- *; [|intros ->; now left].
  unfold bind at 1. intros ->. right. exists cy, st, w2. split; [exact Q2|].
  destruct (broadcast_pass env cfg cy st w2) as [w3 [st3|e]]; simpl; [|apply quiet_refl].
  apply (keeps_bind (quiet_from w3)); [apply keeps_confirm_pass, quiet_stable| |apply quiet_refl].
  intros st4. apply keeps_bind; [apply keeps_reconcile, quiet_stable|]. intros _. apply keeps_ret.
Qed.

Lemma broadcast_rows_kept cy st w :
  rows_kept (wd_db w) (wd_db (fst (broadcast_pass env cfg cy st w))).
Proof.
  apply (keeps_broadcast_inv env cfg (rows_kept (wd_db w)));
    [| |apply rows_kept_ext, db_ext_refl].
  - eauto using rows_kept_trans, rows_kept_meta.
  - intros i h d d' H E. eapply rows_kept_trans; [exact H|].
    apply rows_kept_ext, (db_ext_op (OpSubmit i h)), E.
Qed.

Lemma sends_bounded_ext d d' new : db_ext d d' -> sends_bounded cfg d' new -> sends_bounded cfg d new.
Proof.
  intros X [L N C D]. split; auto. intros H. destruct (L H) as [Hl Hn]. split; [done|].
  unfold latched in *. now rewrite <- (ext_latch _ _ X).
Qed.

Lemma tick_sends w :
  payouts_wf (wd_db w) ->
  exists new, wd_log (fst (tick_once env cfg w)) = wd_log w ++ new /\
    sends_bounded cfg (wd_db w) new /\
    Forall (row_of_send (wd_db (fst (tick_once env cfg w)))) new.
Proof.
  intros W. destruct (tick_cases w) as [[E _]|(cy & st & w1 & [E1 X1] & [E2 X2])].
  - exists []. rewrite app_nil_r. auto using sends_bounded_nil.
  - destruct (broadcast_sends cy st w1 (ext_wf _ _ X1 W)) as (new & En & B & R).
    exists new. rewrite E2, En, E1. split; [done|]. split; [eauto using sends_bounded_ext|].
    eapply Forall_impl; [exact R|]. intros e. apply row_of_send_kept.
    eapply rows_kept_trans; [apply (broadcast_rows_kept cy st)|now apply rows_kept_ext].
Qed.
End Tick.
