(* ===== verification/ZkasConfirm.v ===== *)
(** * When the shielded payout engine confirms a payout

    A row reaches [confirmed] in a tick only on chain evidence: an accepting DAA
    score, recorded earlier or reported by the node for the row's own
    transaction, at least [ZKAS_PAYOUT_CONFIRMATION_DAA] below the virtual DAA
    score the tick read. *)
From stdpp Require Import pretty relations.
From S2P Require Import Prelude F64 FeeModel Schema PayoutDb PayoutSpec Domain Sender ZkasEngine ZkasSafety ZkasSends.
Open Scope Z_scope.

(** ** Triples over the database *)

(** From a database with [P], [m] ends in [Q] if it returns and in [E] if it
    stops with an error or at a fault. *)
Definition triple {A} (P : Db -> Prop) (m : M A) (Q : A -> Db -> Prop) (E : Db -> Prop) : Prop :=
  forall w, P (wd_db w) ->
    match m w with
    | (w', Ok a) => Q a (wd_db w')
    | (w', Err _) => E (wd_db w')
    end.

Lemma triple_bind {A B} P (m : M A) Q E (k : A -> M B) R :
  triple P m Q E -> (forall a, triple (Q a) (k a) R E) -> triple P (bind m k) R E.
Proof.
  intros Hm Hk w H. unfold bind. specialize (Hm w H).
  destruct (m w) as [w' [a|e]]; [exact (Hk a w' Hm) | exact Hm].
Qed.

Lemma triple_ret {A} (P : Db -> Prop) (a : A) (Q : A -> Db -> Prop) E :
  (forall d, P d -> Q a d) -> triple P (ret a) Q E.
Proof. intros H w Hw. exact (H _ Hw). Qed.

Lemma triple_bind_ret {A B} P (a : A) (k : A -> M B) R E :
  triple P (k a) R E -> triple P (bind (ret a) k) R E.
Proof. intros H. exact H. Qed.

Lemma triple_fail {A} (P : Db -> Prop) e (Q : A -> Db -> Prop) (E : Db -> Prop) :
  (forall d, P d -> E d) -> triple P (fail e) Q E.
Proof. intros H w Hw. exact (H _ Hw). Qed.

Lemma triple_call_db {A} env P (m : DB A) Q E :
  (forall d, P d -> E d) ->
  (forall d a d', P d -> m d = Ok (a, d') -> Q a d' /\ E d') ->
  triple P (call_db env m) Q E.
Proof.
  intros HE HQ w H. unfold call_db.
  destruct (env_fault env (wd_calls w)); [|exact (HE _ H)|];
    destruct (m (wd_db w)) as [[a d']|e] eqn:Em; try exact (HE _ H);
    destruct (HQ _ _ _ H Em); assumption.
Qed.

(** Calls that do not touch the database. *)
Lemma triple_pure {A} (P : Db -> Prop) (m : M A) (E : Db -> Prop) :
  (forall w, wd_db (fst (m w)) = wd_db w) -> (forall d, P d -> E d) ->
  triple P m (fun _ => P) E.
Proof.
  intros Hm HE w H. specialize (Hm w). destruct (m w) as [w' [a|e]]; simpl in Hm; rewrite Hm; auto.
Qed.

Lemma triple_weaken {A} (P P' : Db -> Prop) (m : M A) Q Q' (E E' : Db -> Prop) :
  triple P' m Q' E' -> (forall d, P d -> P' d) -> (forall a d, Q' a d -> Q a d) ->
  (forall d, E' d -> E d) -> triple P m Q E.
Proof.
  intros H HP HQ HE w Hw. specialize (H w (HP _ Hw)). destruct (m w) as [w' [a|e]]; auto.
Qed.

(** ** Phases that confirm nothing *)

(** No row is newly confirmed and no accepting score is new. *)
Definition no_news (d d' : Db) : Prop :=
  forall p', In p' (db_payouts d') ->
    (po_status p' = Confirmed -> In p' (db_payouts d)) /\
    (forall a, po_accepted_daa_score p' = Some a ->
       exists p, In p (db_payouts d) /\ po_id p = po_id p' /\ po_accepted_daa_score p = Some a).

Lemma no_news_same d d' : db_payouts d' = db_payouts d -> no_news d d'.
Proof. intros E p'. rewrite E. split; eauto. Qed.

Lemma no_news_trans d1 d2 d3 : no_news d1 d2 -> no_news d2 d3 -> no_news d1 d3.
Proof.
  intros H1 H2 p3 Hp3. destruct (H2 p3 Hp3) as [C3 A3]. split.
  - intros Hc. exact (proj1 (H1 p3 (C3 Hc)) Hc).
  - intros a Ha. destruct (A3 a Ha) as (p2 & Hp2 & <- & Ha2). exact (proj2 (H1 p2 Hp2) a Ha2).
Qed.

Definition silent {A} (m : DB A) : Prop := forall d a d', m d = Ok (a, d') -> no_news d d'.

Lemma silent_same {A} (m : DB A) :
  (forall d a d', m d = Ok (a, d') -> db_payouts d' = db_payouts d) -> silent m.
Proof. intros H d a d' Hm. eapply no_news_same, H, Hm. Qed.

Lemma silent_bind {A B} (m : DB A) (k : A -> DB B) :
  silent m -> (forall a, silent (k a)) -> silent (db_bind m k).
Proof.
  intros Hm Hk d b d' (a & d1 & H1 & H2)%db_bind_ok.
  eapply no_news_trans; [eapply Hm, H1 | eapply Hk, H2].
Qed.

Lemma silent_ret {A} (a : A) : silent (db_ret a).
Proof. apply silent_same. intros d b d' H. unfold db_ret in H. now inv_eqs. Qed.
Lemma silent_read {A} (f : Db -> A) : silent (db_read f).
Proof. apply silent_same. intros d b d' H. unfold db_read in H. now inv_eqs. Qed.
Lemma silent_read_checked {A} (f : Db -> result A DbError) : silent (db_read_checked f).
Proof.
  apply silent_same. intros d b d' H. unfold db_read_checked in H. destruct (f d); now inv_eqs.
Qed.
Lemma silent_update_cycles p f : silent (update_cycles p f).
Proof.
  apply silent_same. intros d b d' H. unfold update_cycles in H.
  destruct (tbl_update _ _ _ _) as [[rows n]|]; now inv_eqs.
Qed.
Lemma silent_create_cycle k a b : silent (create_cycle k a b).
Proof.
  apply silent_same. intros d c d' H. unfold create_cycle in H. repeat break_match_in H; now inv_eqs.
Qed.
Lemma silent_meta_set k v : silent (meta_set k v).
Proof. apply silent_same. intros d b d' H. unfold meta_set in H. now inv_eqs. Qed.
Lemma silent_meta_delete k : silent (meta_delete k).
Proof. apply silent_same. intros d b d' H. unfold meta_delete in H. now inv_eqs. Qed.

Lemma silent_ensure c w a : silent (ensure_payout c w a).
Proof.
  intros d p d' H p' Hp'. unfold ensure_payout in H. repeat break_match_in H; inv_eqs;
    [split; eauto|]. simpl in Hp'. apply in_app_iff in Hp' as [Hp'|[<-|[]]]; [split; eauto|].
  split; simpl; intros; discriminate.
Qed.

Lemma silent_submit i h : silent (mark_payout_submitted i h).
Proof.
  intros d [] d' H p' Hp'.
  unfold mark_payout_submitted in H. apply db_bind_ok in H as (n & d1 & H & Hr).
  apply update_payouts_ok in H as [-> _]. unfold db_ret in Hr. inv_eqs.
  simpl in Hp'. apply in_map_iff in Hp' as (p & <- & Hp).
  destruct (_ && _); [|split; eauto]. split; simpl; [discriminate|].
  intros a Ha. exists p. auto.
Qed.

#[export] Hint Resolve silent_ret silent_read silent_read_checked silent_update_cycles
  silent_create_cycle silent_meta_set silent_meta_delete silent_ensure silent_submit
  silent_bind : kat.

Lemma silent_plan p : silent (plan_zkas_cycle p).
Proof.
  assert (forall cy cap el t r, silent (plan_rows cy cap el t r)) as Hr.
  { intros cy cap el. induction el; intros; simpl; auto with kat. }
  unfold plan_zkas_cycle, list_zkas_eligible_wallets, list_eligible_wallets, set_cycle_totals.
  repeat (apply silent_bind; [|intros]); auto with kat.
Qed.

Lemma keeps_silent {A} env d0 (m : DB A) :
  silent m -> keeps (fun w => no_news d0 (wd_db w)) (call_db env m).
Proof. intros Hm. apply keeps_call_inv. eauto using no_news_trans. Qed.

Section Quiet.
Context (env : Env) (cfg : ZkasPayoutEngineConfig) (d0 : Db).
Abbreviation calm := (keeps (fun w => no_news d0 (wd_db w))).

Lemma calm_broadcast cy st : calm (broadcast_pass env cfg cy st).
Proof.
  apply (keeps_broadcast_inv env cfg (no_news d0)).
  - intros d m H. eapply no_news_trans; [exact H|now apply no_news_same].
  - intros i h d d' H E. eapply no_news_trans; [exact H|exact (silent_submit i h _ _ _ E)].
Qed.

Lemma calm_resume_or_plan a b st : calm (resume_or_plan env cfg a b st).
Proof.
  unfold resume_or_plan, find_cycle_by_idempotency_key.
  apply keeps_bind; [apply keeps_silent; auto with kat|]. intros [cy|]; [apply keeps_ret|].
  apply keeps_bind; [apply keeps_silent, silent_plan|]. intros pl. apply keeps_ret.
Qed.
End Quiet.

(** ** The confirmation pass *)

Section Confirm.
Context (env : Env) (d0 : Db) (virtual_daa : Z).

(** Where an accepting score comes from. *)
Definition accept_evidence (p' : Payout) (a : Z) : Prop :=
  (exists p, In p (db_payouts d0) /\ po_id p = po_id p' /\ po_accepted_daa_score p = Some a) \/
  (exists n cursor watched scan h, env_accepted_since env n cursor watched = Ok scan /\
     po_tx_hash p' = Some h /\ amap_get h (sc_accepted scan) = Some a).

Definition deep_enough (p' : Payout) : Prop :=
  exists a, po_accepted_daa_score p' = Some a /\
    a + ZKAS_PAYOUT_CONFIRMATION_DAA <= virtual_daa /\ accept_evidence p' a.

Definition confirmed_ok (d : Db) : Prop :=
  forall p', In p' (db_payouts d) -> po_status p' = Confirmed ->
    In p' (db_payouts d0) \/ deep_enough p'.

(** The rows the loop has yet to visit are as they were read. *)
Definition as_read (d : Db) (f : ZkasInFlightPayout) : Prop :=
  forall p, In p (db_payouts d) -> po_id p = if_payout_id f ->
    status_in [Submitted; Accepted] p = true /\ po_tx_hash p = Some (if_tx_hash f) /\
    po_accepted_daa_score p = if_accepted_daa_score f /\
    (forall a, po_accepted_daa_score p = Some a ->
       exists q, In q (db_payouts d0) /\ po_id q = po_id p /\ po_accepted_daa_score q = Some a).

Definition loop_inv (fs : list ZkasInFlightPayout) (d : Db) : Prop :=
  confirmed_ok d /\ Forall (as_read d) fs.

(** Row [id] may be confirmed. *)
Definition ready (id : Z) (d : Db) : Prop :=
  forall p, In p (db_payouts d) -> po_id p = id -> deep_enough p.

Lemma accept_payouts i a d d' :
  mark_payout_accepted i a d = Ok (tt, d') ->
  db_payouts d' = map (op_row (OpAccept i a) (db_now d)) (db_payouts d).
Proof.
  intros H. unfold mark_payout_accepted in H. apply db_bind_ok in H as (n & d1 & H & Hr).
  apply update_payouts_ok in H as [-> _]. unfold db_ret in Hr. now inv_eqs.
Qed.

Lemma confirm_payouts i d d' :
  mark_payout_confirmed i d = Ok (tt, d') ->
  db_payouts d' = map (op_row (OpConfirm i) (db_now d)) (db_payouts d).
Proof.
  intros H. unfold mark_payout_confirmed in H. apply db_bind_ok in H as (n & d1 & H & Hr).
  apply update_payouts_ok in H as [-> _]. unfold db_ret in Hr. now inv_eqs.
Qed.

Lemma op_row_other op i now p :
  (op = OpConfirm i \/ exists a, op = OpAccept i a) -> po_id p <> i -> op_row op now p = p.
Proof.
  intros [->|[a ->]] H; unfold op_row; simpl; apply Z.eqb_neq in H; now rewrite H.
Qed.

Lemma as_read_op op i fs d d' :
  (op = OpConfirm i \/ exists a, op = OpAccept i a) ->
  db_payouts d' = map (op_row op (db_now d)) (db_payouts d) ->
  ~ In i (map if_payout_id fs) -> Forall (as_read d) fs -> Forall (as_read d') fs.
Proof.
  intros Hop E Hn F. apply List.Forall_forall. intros f Hf p' Hp' Hid.
  rewrite E in Hp'. apply in_map_iff in Hp' as (p & <- & Hp).
  destruct (op_row_evolves op (db_now d) p) as [Ei _].
  assert (po_id p <> i) as Hne.
  { intros Ep. apply Hn. rewrite <- Ep, <- Ei, Hid. now apply in_map. }
  rewrite (op_row_other op i _ p Hop Hne) in Hid |- *.
  rewrite List.Forall_forall in F. exact (F f Hf p Hp Hid).
Qed.

(** Recording the node's answer for a watched row makes it ready. *)
Lemma accept_ready i a d d' h n cursor watched scan :
  mark_payout_accepted i a d = Ok (tt, d') ->
  env_accepted_since env n cursor watched = Ok scan -> amap_get h (sc_accepted scan) = Some a ->
  a + ZKAS_PAYOUT_CONFIRMATION_DAA <= virtual_daa ->
  (forall p, In p (db_payouts d) -> po_id p = i ->
     status_in [Submitted; Accepted] p = true /\ po_tx_hash p = Some h /\
     po_accepted_daa_score p = None) ->
  ready i d'.
Proof.
  intros H Hs Hg Ha Hr p' Hp' Hid. rewrite (accept_payouts _ _ _ _ H) in Hp'.
  apply in_map_iff in Hp' as (p & <- & Hp).
  destruct (op_row_evolves (OpAccept i a) (db_now d) p) as [Ei _]. rewrite Ei in Hid.
  destruct (Hr p Hp Hid) as (St & Ht & Hnone). exists a.
  unfold op_row. simpl. rewrite Hid, Z.eqb_refl, St. simpl. rewrite Hnone. simpl.
  repeat split; auto. right. exists n, cursor, watched, scan, h. auto.
Qed.

Lemma accept_keeps_ok i a d d' :
  mark_payout_accepted i a d = Ok (tt, d') -> confirmed_ok d -> confirmed_ok d'.
Proof.
  intros H C p' Hp' Hs. rewrite (accept_payouts _ _ _ _ H) in Hp'.
  apply in_map_iff in Hp' as (p & <- & Hp). unfold op_row in *.
  destruct (op_guard _ _); [discriminate|]. now apply C.
Qed.

Lemma confirm_keeps_ok i d d' :
  mark_payout_confirmed i d = Ok (tt, d') -> ready i d -> confirmed_ok d -> confirmed_ok d'.
Proof.
  intros H R C p' Hp' Hs. rewrite (confirm_payouts _ _ _ H) in Hp'.
  apply in_map_iff in Hp' as (p & <- & Hp). unfold op_row in *.
  destruct (op_guard (OpConfirm i) p) eqn:G; [|now apply C].
  simpl in G. apply andb_true_iff in G as [Ei _]. apply Z.eqb_eq in Ei.
  destruct (R p Hp Ei) as (a & E1 & E2 & E3). right. exists a. auto.
Qed.

(** The accepting scores a [bigint] column with [CHECK (.. >= 0)] holds. *)
Definition scores_in_range (d : Db) : Prop :=
  forall p a, In p (db_payouts d) -> po_accepted_daa_score p = Some a -> in_u64 a.

Lemma classify_depth v m a :
  classify_confirmation (mkInputs v m (Some a)) ZKAS_PAYOUT_CONFIRMATION_DAA = CsConfirmed ->
  a + ZKAS_PAYOUT_CONFIRMATION_DAA <= v.
Proof.
  unfold classify_confirmation, ZKAS_PAYOUT_CONFIRMATION_DAA, sat_u64. simpl.
  destruct (Z.leb_spec 100 (Z.max 0 (Z.min u64_max (v - a)))); [lia|discriminate].
Qed.

Lemma classify_none v m : classify_confirmation (mkInputs v m None) ZKAS_PAYOUT_CONFIRMATION_DAA
  = if m then CsPending else CsUnknown.
Proof. reflexivity. Qed.

Context (scan : AcceptanceScan) (n : nat) (cursor : bytes) (watched : list bytes).
Hypothesis Hscan : env_accepted_since env n cursor watched = Ok scan.
Hypothesis Hrange : scores_in_range d0.

Lemma mark_accepted_triple i daa fs (P : Db -> Prop) :
  ~ In i (map if_payout_id fs) -> (forall d, P d -> loop_inv fs d) ->
  triple P (mark_accepted_u64 env i daa)
    (fun _ d' => loop_inv fs d' /\ exists d, P d /\ mark_payout_accepted i daa d = Ok (tt, d'))
    confirmed_ok.
Proof.
  intros Hn HP. unfold mark_accepted_u64.
  destruct (i64_try_from daa) as [x|] eqn:Ex; [|apply triple_fail; intros d H; apply HP, H].
  apply checked_i64_Some in Ex as [-> _].
  apply triple_call_db; [intros d H; apply HP, H|]. intros d [] d' H Hm.
  destruct (HP d H) as [C F]. pose proof (accept_keeps_ok _ _ _ _ Hm C) as C'.
  split; [|exact C']. split; [|eauto]. split; [exact C'|].
  eapply (as_read_op (OpAccept i x) i); eauto using accept_payouts.
Qed.

Lemma mark_confirmed_triple i fs :
  ~ In i (map if_payout_id fs) ->
  triple (fun d => loop_inv fs d /\ ready i d) (call_db env (mark_payout_confirmed i))
    (fun _ => loop_inv fs) confirmed_ok.
Proof.
  intros Hn. apply triple_call_db; [intros d [[C _] _]; exact C|].
  intros d [] d' [[C F] R] Hm. pose proof (confirm_keeps_ok _ _ _ Hm R C) as C'.
  split; [|exact C']. split; [exact C'|].
  eapply (as_read_op (OpConfirm i) i); eauto using confirm_payouts.
Qed.

(** A recorded score makes the row ready without another write. *)
Lemma recorded_ready f fs d a :
  loop_inv (f :: fs) d -> if_accepted_daa_score f = Some a ->
  a + ZKAS_PAYOUT_CONFIRMATION_DAA <= virtual_daa -> ready (if_payout_id f) d.
Proof.
  intros [_ F] E Ha p Hp Hid. inversion F as [|? ? Hf _]; subst.
  destruct (Hf p Hp Hid) as (_ & _ & Ea & Ev). exists a. rewrite Ea.
  split; [done|]. split; [done|]. left. destruct (Ev a) as (q & Hq & Hqi & Hqa); [congruence|eauto].
Qed.

Lemma loop_inv_tail f fs d : loop_inv (f :: fs) d -> loop_inv fs d.
Proof. intros [C F]. split; [done|]. now inversion F. Qed.

Lemma recorded_of_read f fs d p :
  loop_inv (f :: fs) d -> In p (db_payouts d) -> po_id p = if_payout_id f ->
  match if_accepted_daa_score f with Some v => u64_try_from v | None => None end
    = if_accepted_daa_score f.
Proof.
  intros [_ F] Hp Hid. inversion F as [|? ? Hf _]; subst.
  destruct (Hf p Hp Hid) as (_ & _ & Ea & Ev). rewrite <- Ea.
  destruct (po_accepted_daa_score p) as [a|]; [|done].
  destruct (Ev a eq_refl) as (q & Hq & _ & Hqa). apply checked_u64_Some.
  split; [done|]. eapply Hrange; eauto.
Qed.

Lemma newly_ready f fs d d' daa :
  loop_inv (f :: fs) d ->
  match if_accepted_daa_score f with Some v => u64_try_from v | None => None end = None ->
  amap_get (if_tx_hash f) (sc_accepted scan) = Some daa ->
  daa + ZKAS_PAYOUT_CONFIRMATION_DAA <= virtual_daa ->
  mark_payout_accepted (if_payout_id f) daa d = Ok (tt, d') -> ready (if_payout_id f) d'.
Proof using Hscan Hrange.
  intros I Hr Hg Ha Hm. eapply accept_ready; [exact Hm|exact Hscan|exact Hg|exact Ha|].
  intros p Hp Hid. pose proof (recorded_of_read f fs d p I Hp Hid) as E. rewrite Hr in E.
  destruct I as [_ F]. inversion F as [|? ? Hf _]; subst.
  destruct (Hf p Hp Hid) as (St & Ht & Ea & _). repeat split; auto. congruence.
Qed.

Lemma confirm_one_triple f fs st :
  ~ In (if_payout_id f) (map if_payout_id fs) ->
  triple (loop_inv (f :: fs)) (confirm_one env virtual_daa scan f st)
    (fun _ => loop_inv fs) confirmed_ok.
Proof using Hscan Hrange.
  intros Hn. unfold confirm_one.
  assert (forall s : TickStats, triple (loop_inv (f :: fs)) (ret s) (fun _ => loop_inv fs) confirmed_ok)
    as Skip by (intros s; apply triple_ret, loop_inv_tail).
  unfold bytes32. destruct (length (if_tx_hash f) =? 32)%nat; [|apply Skip]. cbv zeta.
  set (newly := amap_get (if_tx_hash f) (sc_accepted scan)).
  set (recorded := match if_accepted_daa_score f with Some v => u64_try_from v | None => None end).
  destruct recorded as [r|] eqn:Hr; cycle 1; [destruct newly as [daa|] eqn:Hnew|].
  - apply triple_bind_ret.
    destruct (classify_confirmation _ _) eqn:Cl; try apply Skip.
    + eapply triple_bind; [apply (mark_accepted_triple _ _ fs); eauto using loop_inv_tail|].
      intros []. apply triple_ret. intros d [I _]. exact I.
    + eapply triple_bind; [apply (mark_accepted_triple _ _ fs); eauto using loop_inv_tail|].
      intros []. apply (triple_bind _ _ (fun _ => loop_inv fs)); [|intros []; apply triple_ret; eauto].
      eapply triple_weaken; [apply (mark_confirmed_triple (if_payout_id f) fs Hn)| |done|done].
      intros d' [I (d & Id & Hm)]. split; [exact I|].
      exact (newly_ready f fs d d' daa Id Hr Hnew (classify_depth _ _ _ Cl) Hm).
  - eapply triple_bind; [apply triple_pure; [done|intros d I; apply I]|].
    intros b. rewrite classify_none. destruct b; apply Skip.
  - apply triple_bind_ret.
    destruct (classify_confirmation _ _) eqn:Cl; try (destruct newly; apply Skip).
    assert (triple (loop_inv (f :: fs)) (ret tt)
              (fun _ d => loop_inv fs d /\ ready (if_payout_id f) d) confirmed_ok) as Hready.
    { assert (if_accepted_daa_score f = Some r) as Er.
      { subst recorded. destruct (if_accepted_daa_score f); [|discriminate].
        now apply checked_u64_Some in Hr as [-> _]. }
      apply triple_ret. intros d I. split; [exact (loop_inv_tail f fs d I)|].
      exact (recorded_ready f fs d r I Er (classify_depth _ _ _ Cl)). }
    eapply triple_bind; [destruct newly; exact Hready|]. intros [].
    eapply triple_bind; [apply (mark_confirmed_triple (if_payout_id f) fs Hn)|].
    intros []. apply triple_ret. auto.
Qed.

Lemma confirm_loop_triple fs : forall st,
  List.NoDup (map if_payout_id fs) ->
  triple (loop_inv fs) (confirm_loop env virtual_daa scan fs st) (fun _ => confirmed_ok) confirmed_ok.
Proof using Hscan Hrange.
  induction fs as [|f fs IH]; intros st ND; simpl.
  - apply triple_ret. intros d [C _]. exact C.
  - inversion ND; subst. eapply triple_bind; [now apply confirm_one_triple|]. intros st'. now apply IH.
Qed.
End Confirm.

Lemma triple_keeps {A} (P : Db -> Prop) (m : M A) :
  keeps (fun w => P (wd_db w)) m -> triple P m (fun _ => P) P.
Proof. intros H w Hw. specialize (H w Hw). now destruct (m w) as [w' [a|e]]. Qed.

Section Pass.
Context (env : Env) (d0 : Db) (v : Z) (Hrange : scores_in_range d0).
Abbreviation ok := (confirmed_ok env d0 v).

Lemma keeps_ok_call {A} (m : DB A) : silent m -> keeps (fun w => ok (wd_db w)) (call_db env m).
Proof using.
  intros Hm. apply keeps_call_inv. intros d a d' H E p' Hp' Hs.
  apply H; [|done]. exact (proj1 (Hm _ _ _ E p' Hp') Hs).
Qed.

Lemma keeps_ok_anchor : keeps (fun w => ok (wd_db w)) (anchor_at_sink env).
Proof using.
  unfold anchor_at_sink. apply keeps_bind; [intros w H; exact H|]. intros h.
  apply keeps_ok_call. auto with kat.
Qed.

Lemma keeps_ok_cursor : keeps (fun w => ok (wd_db w)) (ensure_confirm_cursor env).
Proof using.
  unfold ensure_confirm_cursor, meta_get. apply keeps_bind; [apply keeps_ok_call; auto with kat|].
  intros [c|]; [apply keeps_ret|apply keeps_ok_anchor].
Qed.

Lemma keeps_ok_reconcile i : keeps (fun w => ok (wd_db w)) (reconcile_cycle env i).
Proof using.
  unfold reconcile_cycle, list_for_cycle.
  apply keeps_bind; [apply keeps_ok_call; auto with kat|]. intros rows.
  repeat (break_match; try apply keeps_ret); apply keeps_ok_call; intros d a d' H;
    unfold mark_cycle_broadcasting, mark_cycle_partially_settled, mark_cycle_settled,
      mark_cycle_failed in H;
    eapply (silent_bind (update_cycles _ _) (fun _ => db_ret tt)); eauto with kat.
Qed.

Lemma no_news_ok d : no_news d0 d -> ok d.
Proof using. intros H p' Hp' Hs. left. exact (proj1 (H p' Hp') Hs). Qed.

Definition in_flight (d : Db) : list ZkasInFlightPayout :=
  omap (in_flight_row d) (sort_by (fun a b => po_id a <=? po_id b) (db_payouts d)).

Lemma in_flight_inv d :
  payouts_wf d -> no_news d0 d ->
  loop_inv env d0 v (in_flight d) d /\ List.NoDup (map if_payout_id (in_flight d)).
Proof using.
  intros W N. split; [split; [now apply no_news_ok|]|].
  - apply List.Forall_forall. intros f (q & Hq & E)%In_omap p Hp Hid.
    rewrite sort_by_In in Hq. unfold in_flight_row in E.
    destruct (cycle_of d q) as [c|], (po_tx_hash q) as [h|] eqn:Hh; try discriminate.
    destruct (_ && _) eqn:G; [|discriminate]. inv_eqs. simpl in *.
    apply andb_true_iff in G as [_ G].
    assert (p = q) as -> by (eapply NoDup_map_inj; [apply (wf_ids d W)|..]; done).
    repeat split; auto. intros a Ha. now apply (N q Hq).
  - apply (NoDup_map_omap _ _ po_id); [|apply sort_by_NoDup_map, W].
    intros q f E. unfold in_flight_row in E. repeat break_match_in E; try discriminate.
    now inv_eqs.
Qed.

Lemma confirm_pass_triple st :
  triple (fun d => no_news d0 d /\ payouts_wf d) (confirm_pass env v st) (fun _ => ok) ok.
Proof using Hrange.
  unfold confirm_pass, list_zkas_in_flight_payouts, meta_get.
  apply (triple_bind _ _ (fun fs d => loop_inv env d0 v fs d /\ List.NoDup (map if_payout_id fs))).
  { apply triple_call_db; [intros d [N _]; now apply no_news_ok|].
    intros d fs d' [N W] E. unfold db_read in E. inv_eqs.
    split; [now apply in_flight_inv|now apply no_news_ok]. }
  intros fs. eapply triple_bind.
  { apply (triple_pure (fun d => loop_inv env d0 v fs d /\ List.NoDup (map if_payout_id fs)));
      [|intros d [[C _] _]; exact C].
    intros w. unfold call_db, db_read. now destruct (env_fault env (wd_calls w)). }
  assert (forall A (m : M A), keeps (fun w => ok (wd_db w)) m ->
    triple (fun d => loop_inv env d0 v fs d /\ List.NoDup (map if_payout_id fs))
      (bind m (fun _ => ret st)) (fun _ => ok) ok) as Reset.
  { intros A m K. eapply triple_bind; [|intros a; apply triple_ret; intros d H; exact H].
    eapply triple_weaken; [apply triple_keeps, K|intros d [[C _] _]; exact C|done|done]. }
  intros [value|]; [|apply Reset, keeps_ok_cursor].
  destruct (env_hash_parse env value) as [cursor|]; [|apply Reset, keeps_ok_anchor].
  intros w [I ND]. unfold bind at 1, call_accepted_since.
  destruct (env_accepted_since env _ _ _) as [scan|[msg|]] eqn:Hs;
    [|exact (proj1 I)|apply (Reset _ _ keeps_ok_anchor (tick_call w)); auto].
  apply (triple_bind (loop_inv env d0 v fs) _ (fun _ => ok) ok _ (fun _ => ok)).
  - eapply confirm_loop_triple; eauto.
  - intros st'. destruct (sc_new_cursor scan) as [c|]; [|apply triple_ret; auto].
    eapply triple_bind; [apply triple_keeps, keeps_ok_call; auto with kat|].
    intros []. apply triple_ret. auto.
  - exact I.
Qed.
End Pass.

(** ** The tick *)

Lemma tick_confirms env cfg w v :
  payouts_wf (wd_db w) -> scores_in_range (wd_db w) ->
  env_virtual_daa env (S (wd_calls w)) = Ok v ->
  confirmed_ok env (wd_db w) v (wd_db (fst (tick_once env cfg w))).
Proof.
  intros W Hr Hv. set (d0 := wd_db w).
  assert (forall d, db_payouts d = db_payouts d0 -> confirmed_ok env d0 v d) as Same
    by (intros d E; now apply no_news_ok, no_news_same).
  unfold tick_once. unfold bind at 1, call_lock.
  destruct (map_err EDb _) as [[]|e]; simpl; [|now apply Same ..].
  unfold bind at 1, call_chain. simpl. rewrite Hv. simpl.
  set (a := sat_u64 (_ * _)). set (b := sat_u64 (_ + _)). unfold bind at 1.
  set (w1 := tick_call (tick_call w)).
  pose proof (calm_resume_or_plan env cfg d0 a b stats0 w1 (no_news_same _ _ eq_refl)) as N2.
  pose proof (keeps_resume_or_plan env cfg (fun w => payouts_wf (wd_db w))
    (fun w d' n H X => ext_wf _ _ X H) a b stats0 w1 W) as W2. cbv beta in N2, W2.
  destruct (resume_or_plan _ _ _ _ _ _) as [w2 [[cy st]|e]]; simpl in N2, W2 |- *;
    [|now apply no_news_ok].
  unfold bind at 1.
  pose proof (calm_broadcast env cfg d0 cy st w2 N2) as N3.
  pose proof (broadcast_pass_wf env cfg cy st w2 W2) as W3. cbv beta in N3, W3.
  destruct (broadcast_pass _ _ _ _ _) as [w3 [st3|e]]; simpl in N3, W3 |- *;
    [|now apply no_news_ok].
  assert (triple (fun d => no_news d0 d /\ payouts_wf d)
    (bind (confirm_pass env v st3) (fun s => bind (reconcile_cycle env (cy_id cy)) (fun _ => ret s)))
    (fun _ => confirmed_ok env d0 v) (confirmed_ok env d0 v)) as T.
  { eapply triple_bind; [now apply confirm_pass_triple|]. intros s.
    eapply triple_bind; [apply triple_keeps, keeps_ok_reconcile|]. intros []. now apply triple_ret. }
  specialize (T w3 (conj N3 W3)). destruct (bind _ _ w3) as [w4 [s|e]]; exact T.
Qed.
