(* ===== verification/ZkasPlan.v ===== *)
(** * Cycle windows, planning and the acceptance scan of the shielded engine

    The functional specifications of [cycle_window], [plan_zkas_cycle],
    [fold_cycle_status], the chain reader's scan and a healthy broadcast. *)
From stdpp Require Import pretty relations.
From S2P Require Import Prelude F64 FeeModel Schema PayoutDb PayoutSpec Domain Sender ZkasEngine ZkasSafety ZkasSends.
Open Scope Z_scope.

(** ** Windows *)

(** The payout window of a DAA score below the saturation bound is the unique
    multiple-of-span bucket that contains it: every score of the bucket has the
    same window, and windows of other scores are equal or disjoint. *)
Theorem cycle_window_partition v v' span :
  0 <= v -> 0 <= v' -> 1 <= span -> v + span <= u64_max -> v' + span <= u64_max ->
  let '(a, b) := cycle_window v span in
  a <= v < b /\ b = a + span /\ a mod span = 0 /\
  (a <= v' < b <-> cycle_window v' span = (a, b)).
Proof.
  intros Hv Hv' Hs Hb Hb'.
  assert (forall x, 0 <= x -> x + span <= u64_max ->
    cycle_window x span = (x / span * span, x / span * span + span)) as W.
  { intros x H0 H1. unfold cycle_window. rewrite Z.max_l by lia.
    pose proof (Z.mul_div_le x span ltac:(lia)). assert (0 <= x / span) by (apply Z.div_pos; lia).
    rewrite !sat_u64_id; [done|unfold in_u64; nia ..]. }
  rewrite (W v Hv Hb), (W v' Hv' Hb').
  pose proof (Z.div_mod v span ltac:(lia)). pose proof (Z.mod_pos_bound v span ltac:(lia)).
  pose proof (Z.div_mod v' span ltac:(lia)). pose proof (Z.mod_pos_bound v' span ltac:(lia)).
  split; [nia|]. split; [done|]. split; [apply Z.mod_mul; lia|]. split.
  - intros Hin. replace (v' / span) with (v / span); [done|].
    apply Z.div_unique with (v' - v / span * span); [left; lia|ring].
  - intros [= E _]. nia.
Qed.

Lemma cycle_window_partition_witness :
  5000 <= 5999 < 6000 /\ 6000 = 5000 + 1000 /\ 5000 mod 1000 = 0 /\
  (5000 <= 5001 < 6000 <-> cycle_window 5001 1000 = (5000, 6000)).
Proof. apply (cycle_window_partition 5999 5001 1000); unfold u64_max; lia. Defined.

(** ** Confirmation policy *)

(** The confirmation policy: [Confirmed] exactly when an accepting score is at
    least the required depth below the virtual score, [Accepted] when it is
    shallower, and without one the mempool alone decides between [Pending] and
    [Unknown]; a transaction is never confirmed by its absence. *)
Theorem classify_confirmation_spec i depth :
  in_u64 (ci_virtual_daa_score i) -> (forall a, ci_accept_daa i = Some a -> in_u64 a) -> 0 < depth ->
  match classify_confirmation i depth with
  | CsConfirmed => exists a, ci_accept_daa i = Some a /\ a + depth <= ci_virtual_daa_score i
  | CsAccepted => exists a, ci_accept_daa i = Some a /\ ci_virtual_daa_score i < a + depth
  | CsPending => ci_accept_daa i = None /\ ci_in_mempool i = true
  | CsUnknown => ci_accept_daa i = None /\ ci_in_mempool i = false
  end.
Proof.
  intros Hv Ha Hd. unfold classify_confirmation, sat_u64, in_u64 in *.
  destruct (ci_accept_daa i) as [a|]; [|destruct (ci_in_mempool i); auto].
  specialize (Ha a eq_refl).
  destruct (Z.leb_spec depth (Z.max 0 (Z.min u64_max (ci_virtual_daa_score i - a)))); exists a;
    split; auto; lia.
Qed.

Lemma classify_confirmation_spec_witness :
  exists a, Some 5400 = Some a /\ a + 100 <= 5500.
Proof.
  apply (classify_confirmation_spec (mkInputs 5500 false (Some 5400)) 100);
    [unfold in_u64, u64_max; simpl; lia|intros a [= <-]; unfold in_u64, u64_max; lia|lia].
Defined.

(** ** The fold of a cycle's rows *)

Lemma length_filter_full {A} (f : A -> bool) l :
  length (List.filter f l) = length l <-> forallb f l = true.
Proof.
  induction l as [|x l IH]; simpl; [done|].
  pose proof (filter_length_le f l). destruct (f x); simpl; [rewrite <- IH; lia|].
  split; [lia|discriminate].
Qed.

Lemma length_filter_some {A} (f : A -> bool) l :
  (0 <? length (List.filter f l))%nat = existsb f l.
Proof. induction l as [|x l IH]; simpl; [done|]. now destruct (f x). Qed.

(** The status a cycle's rows fold into: [settled] when every payout is
    confirmed, [partially_settled] when only some are, [broadcasting] when none is
    but one is in flight, [failed] when all failed, and no change otherwise. *)
Theorem fold_cycle_status_spec rows :
  fold_cycle_status rows =
    if forallb (status_in [Confirmed]) rows then Some CySettled
    else if existsb (status_in [Confirmed]) rows then Some CyPartiallySettled
    else if existsb (status_in [Submitted; Accepted]) rows then Some CyBroadcasting
    else if forallb (status_in [Failed]) rows then Some CyFailed else None.
Proof.
  unfold fold_cycle_status. cbv zeta.
  assert (forall f, (length (List.filter f rows) =? length rows)%nat = forallb f rows) as Full.
  { intros f. apply eq_bool_prop_intro. rewrite !Is_true_true, Nat.eqb_eq. apply length_filter_full. }
  now rewrite !Full, !length_filter_some.
Qed.


(** ** The acceptance scan *)

Lemma amap_get_insert k k' v m :
  amap_get k (amap_insert k' v m) = if bool_decide (k' = k) then Some v else amap_get k m.
Proof.
  unfold amap_get, amap_insert. simpl. case_bool_decide as H; [done|]. f_equal.
  induction m as [|[k1 v1] m IH]; simpl; [done|].
  destruct (decide (k1 = k')) as [->|Hk]; simpl.
  - rewrite (bool_decide_true (k' = k')) by done. simpl. rewrite IH.
    now rewrite (bool_decide_false (k' = k)).
  - rewrite (bool_decide_false (k1 = k')) by done. simpl. now rewrite IH.
Qed.

Section Scan.
Context (get_block_daa : bytes -> result Z string).

Lemma hits_get daa hits m k :
  amap_get k (fold_left (fun m txid => amap_insert txid daa m) hits m) =
  if bool_decide (k ∈ hits) then Some daa else amap_get k m.
Proof.
  revert m. induction hits as [|h hits IH]; intros m; cbn [fold_left].
  { case_bool_decide; [set_solver|done]. }
  rewrite IH, amap_get_insert.
  case_bool_decide as Hin; case_bool_decide as Hcons; [done|set_solver|..];
    case_bool_decide as Heq; subst; set_solver.
Qed.

(** Entry by entry: a watched id takes the score of the block that lists it,
    any other keeps its previous value. *)
Lemma scan_entries_spec watched entries : forall m m',
  scan_entries get_block_daa watched entries m = Ok m' ->
  (forall k a, amap_get k m' = Some a ->
     amap_get k m = Some a \/
     k ∈ watched /\ exists acc ids, In (acc, ids) entries /\ k ∈ ids /\ get_block_daa acc = Ok a) /\
  (forall k, (is_Some (amap_get k m) \/
              k ∈ watched /\ exists acc ids, In (acc, ids) entries /\ k ∈ ids) ->
     is_Some (amap_get k m')).
Proof.
  induction entries as [|[acc ids] entries IH]; intros m m' H; simpl in H.
  { inv_eqs. split; [auto|]. intros k [?|(_ & ? & ? & [] & _)]; done. }
  set (hits := List.filter _ ids) in H.
  assert (forall k, k ∈ hits <-> k ∈ ids /\ k ∈ watched) as Hh.
  { intros k. rewrite !list_elem_of_In. unfold hits. rewrite filter_In.
    now rewrite bool_decide_eq_true, !list_elem_of_In. }
  assert (scan_entries get_block_daa watched entries m = Ok m' /\ hits = [] \/
    exists daa, get_block_daa acc = Ok daa /\
      scan_entries get_block_daa watched entries
        (fold_left (fun m txid => amap_insert txid daa m) hits m) = Ok m') as [[H1 E]|(daa & Hd & H1)].
  { destruct hits as [|h hs]; [auto|]. right. apply rbind_ok in H as (daa & Hd & H).
    exists daa. split; [|exact H]. destruct (get_block_daa acc); simpl in Hd; congruence. }
  - destruct (IH _ _ H1) as [A B]. split.
    + intros k a Hk. destruct (A k a Hk) as [?|(Hw & acc' & ids' & Hin & ?)]; [auto|].
      right. split; [done|]. exists acc', ids'. split; [now right|done].
    + intros k [?|(Hw & acc' & ids' & [[= <- <-]|Hin] & Hk)]; [auto| |eauto 10].
      exfalso. assert (k ∈ hits) as Hx by (apply Hh; done). rewrite E in Hx. set_solver.
  - destruct (IH _ _ H1) as [A B]. split.
    + intros k a Hk. destruct (A k a Hk) as [Hm|(Hw & acc' & ids' & Hin & ?)].
      * rewrite hits_get in Hm. case_bool_decide as Hx; [|auto]. inv_eqs.
        apply Hh in Hx as [? ?]. right. split; [done|]. exists acc, ids. split; [now left|done].
      * right. split; [done|]. exists acc', ids'. split; [now right|done].
    + intros k Hk. apply B. rewrite hits_get. case_bool_decide as Hx; [left; eauto|].
      destruct Hk as [?|(Hw & acc' & ids' & [[= <- <-]|Hin] & Hk)]; [auto| |eauto 10].
      exfalso. apply Hx, Hh. done.
Qed.
End Scan.

(** The acceptance scan is exact: it reports an accepting score for a
    transaction only if the transaction is watched and some chain entry lists it,
    with the DAA score of that entry's block; every watched transaction that an
    entry lists is reported; and the cursor moves to the last added chain block. *)
Theorem accepted_since_exact get_chain get_daa cursor watched resp scan :
  get_chain cursor = Ok resp ->
  accepted_since get_chain get_daa cursor watched = Ok scan ->
  (forall k a, amap_get k (sc_accepted scan) = Some a ->
     k ∈ watched /\ exists acc ids, In (acc, ids) (vc_accepted_transaction_ids resp) /\ k ∈ ids /\
       get_daa acc = Ok a) /\
  (forall k acc ids, k ∈ watched -> In (acc, ids) (vc_accepted_transaction_ids resp) -> k ∈ ids ->
     is_Some (amap_get k (sc_accepted scan))) /\
  sc_new_cursor scan = last (vc_added_chain_block_hashes resp).
Proof.
  intros Hc H. unfold accepted_since in H. rewrite Hc in H. simpl in H.
  case_bool_decide as Hw.
  - inv_eqs. simpl. split; [discriminate|]. split; [set_solver|done].
  - apply rbind_ok in H as (m & Hm & H). inv_eqs. simpl.
    destruct (scan_entries_spec _ _ _ _ _ Hm) as [A B]. split; [|split; [|done]].
    + intros k a Hk. destruct (A k a Hk) as [Hx|Hx]; [discriminate Hx|exact Hx].
    + intros k acc ids Hk Hi He. apply B. right. eauto.
Qed.

Lemma accepted_since_exact_witness :
  exists scan,
    accepted_since (fun _ => Ok (mkChainResponse [[1]; [2]] [([1], [[7]; [8]]); ([2], [[9]])]))
      (fun h => Ok (100 + sumZ h)) [0] [[8]; [9]] = Ok scan /\
    sc_new_cursor scan = Some [2] /\ is_Some (amap_get [8] (sc_accepted scan)).
Proof.
  eexists. split; [vm_compute; reflexivity|].
  edestruct (accepted_since_exact
    (fun _ => Ok (mkChainResponse [[1]; [2]] [([1], [[7]; [8]]); ([2], [[9]])]))
    (fun h => Ok (100 + sumZ h)) [0] [[8]; [9]]) as (_ & B & C);
    [reflexivity|vm_compute; reflexivity|].
  split; [exact C|]. apply (B [8] [1] [[7]; [8]]); [set_solver|now left|set_solver].
Defined.

(** ** Planning *)

(** Foreign keys: payouts belong to existing cycles, wallet ids are unique. *)
Record refs_wf (d : Db) : Prop := {
  rw_payout_cycle : Forall (fun p => po_cycle_id p < db_seq d) (db_payouts d);
  rw_wallets : List.NoDup (map w_id (db_wallets d))
}.

(** The row planned for an eligible wallet. *)
Definition planned_for (cycle_id cap : Z) (w : EligibleWallet) (p : Payout) : Prop :=
  po_cycle_id p = cycle_id /\ po_wallet_id p = el_wallet_id w /\ po_status p = Planned /\
  po_amount_sompi p = Z.min (el_payable_sompi w) cap /\ 0 < po_amount_sompi p.

Definition fresh_recipients (cycle_id : Z) (ws : list EligibleWallet) (d : Db) : Prop :=
  forall p w, In p (db_payouts d) -> In w ws -> same_recipient cycle_id (el_wallet_id w) p = false.

Lemma ensure_fresh c w a d p d' :
  find_payout (same_recipient c w) d = None -> ensure_payout c w a d = Ok (p, d') ->
  p = new_payout d c w a /\ 0 < a /\
  d' = set_seq (db_seq d + 1) (set_payouts (db_payouts d ++ [p]) d).
Proof.
  intros F H. unfold ensure_payout in H. rewrite F in H.
  destruct (payout_check _) eqn:C; simpl in H; [|discriminate]. inv_eqs.
  split; [done|]. split; [|done]. unfold payout_check in C. rewrite !andb_true_iff in C.
  destruct C as [[[[[[C _] _] _] _] _] _]. now apply Z.ltb_lt in C.
Qed.

Lemma fresh_find c w ws d :
  fresh_recipients c (w :: ws) d -> find_payout (same_recipient c (el_wallet_id w)) d = None.
Proof.
  intros F. unfold find_payout. destruct (List.find _ _) as [p|] eqn:E; [|done].
  apply find_some in E as [Hp E]. rewrite (F p w Hp (or_introl eq_refl)) in E. discriminate.
Qed.

Lemma plan_rows_spec c cap ws : forall t r d t' r' d',
  plan_rows c cap ws t r d = Ok ((t', r'), d') ->
  List.NoDup (map el_wallet_id ws) -> fresh_recipients c ws d ->
  0 <= t <= i64_max -> 0 <= r <= i32_max ->
  exists rows, db_payouts d' = db_payouts d ++ rows /\ Forall2 (planned_for c cap) ws rows /\
    db_cycles d' = db_cycles d /\ db_allocations d' = db_allocations d /\
    t' = Z.min i64_max (t + sumZ (map po_amount_sompi rows)) /\
    r' = Z.min i32_max (r + Z.of_nat (length rows)).
Proof.
  induction ws as [|w ws IH]; intros t r d t' r' d' H ND F Ht Hr; simpl in H.
  - unfold db_ret in H. inv_eqs. exists []. rewrite app_nil_r. simpl.
    repeat split; auto; lia.
  - apply db_bind_ok in H as (p & d1 & H1 & H). inversion ND as [|? ? Hn ND']; subst.
    destruct (ensure_fresh _ _ _ _ _ _ (fresh_find _ _ _ _ F) H1) as (Ep & Ha & E1).
    set (a := Z.min (el_payable_sompi w) cap) in *.
    destruct (IH _ _ _ _ _ _ H ND') as (rows & Er & Hf & Ec & Eal & Et & En).
    + rewrite E1. simpl. intros q v Hq Hv. apply in_app_iff in Hq as [Hq|[<-|[]]].
      * apply F; [done|now right].
      * rewrite Ep. unfold same_recipient. simpl. destruct (Z.eqb_spec c c); [|done]. simpl.
        apply Z.eqb_neq. intros E. apply Hn. rewrite E. now apply in_map.
    + unfold sat_i64, i64_max, i64_min. lia.
    + unfold sat_i32, i32_max. lia.
    + exists (p :: rows). rewrite Er, E1. simpl. rewrite <- app_assoc. split; [done|].
      split; [constructor; [|done]; rewrite Ep; repeat split; done|].
      rewrite Ec, Eal, E1. split; [done|]. split; [done|].
      assert (po_amount_sompi p = a) as Epa by now rewrite Ep.
      assert (0 <= sumZ (map po_amount_sompi rows)) as Hs.
      { apply sumZ_nonneg, Forall_map. clear -Hf.
        induction Hf as [|? ? ? ? Hx]; constructor; auto. destruct Hx as (_ & _ & _ & _ & ?). simpl; lia. }
      rewrite Epa. rewrite Et, En. unfold sat_i64, sat_i32, i64_max, i64_min, i32_max in *. lia.
Qed.

(** Adding a cycle with a fresh id changes nobody's balance. *)
Lemma find_app_fresh {A} (f : A -> bool) l x : f x = false -> List.find f (l ++ [x]) = List.find f l.
Proof. intros H. induction l as [|y l IH]; simpl; [now rewrite H|]. now destruct (f y). Qed.

Lemma eligible_row_cycles k d d1 c w :
  Forall (fun p => po_cycle_id p < cy_id c) (db_payouts d) ->
  db_cycles d1 = db_cycles d ++ [c] -> db_payouts d1 = db_payouts d ->
  db_allocations d1 = db_allocations d -> eligible_row k d1 w = eligible_row k d w.
Proof.
  intros F Ec Ep Ea. unfold eligible_row, allocated_sompi, wallet_allocations.
  assert (confirmed_paid_sompi k d1 (w_id w) = confirmed_paid_sompi k d (w_id w)) as ->; [|now rewrite Ea].
  unfold confirmed_paid_sompi, confirmed_payouts. rewrite Ep. f_equal. f_equal.
  apply filter_ext_in. intros p Hp. f_equal. unfold counts_as_confirmed, cycle_of, find_cycle.
  rewrite Ec, find_app_fresh; [done|].
  rewrite List.Forall_forall in F. apply Z.eqb_neq. specialize (F p Hp). simpl in F. lia.
Qed.

Definition planned_cycle (d : Db) (start stop : Z) : PayoutCycle :=
  mkCycle (db_seq d) Zkas CyPlanned (as_i64 start) (as_i64 stop) (db_now d) None None 0 0
    (idempotency_key Zkas start stop).

(** Planning a new cycle appends exactly one [planned] row per wallet whose
    allocated minus confirmed balance reaches the threshold, for that balance
    clamped to the per-wallet cap (so never more than the wallet is owed), leaves
    every other row alone, and records the (saturated) total and count. *)
Theorem plan_zkas_cycle_spec p d r d' :
  refs_wf d ->
  find_cycle (fun c => String.eqb (cy_idempotency_key c)
                         (idempotency_key Zkas (pp_daa_start p) (pp_daa_end p))) d = None ->
  plan_zkas_cycle p d = Ok (r, d') ->
  let c := planned_cycle d (pp_daa_start p) (pp_daa_end p) in
  exists ws rows,
    pr_cycle r = c /\ db_payouts d' = db_payouts d ++ rows /\
    Forall2 (planned_for (cy_id c) (Z.max (pp_per_wallet_cap_sompi p) 1)) ws rows /\
    List.NoDup (map el_wallet_id ws) /\
    (forall e, In e ws <-> exists w, In w (db_wallets d) /\ wallet_allocations d (w_id w) <> [] /\
       pp_threshold_sompi p <= el_payable_sompi e /\ e = eligible_row Zkas d w) /\
    pr_total_sompi r = Z.min i64_max (sumZ (map po_amount_sompi rows)) /\
    pr_payouts_planned r = Z.of_nat (length rows).
Proof.
  intros [Rp Rw] Fk H c. unfold plan_zkas_cycle in H.
  apply db_bind_ok in H as (cy & d1 & H1 & H). unfold create_cycle in H1.
  destruct (cycle_check _); [|discriminate]. rewrite Fk in H1. fold c in H1. injection H1 as <- <-.
  set (d1 := set_seq _ _) in H.
  apply db_bind_ok in H as (ws & d2 & H2 & H).
  destruct (eligible_query _ _ _ _ _ H2) as (-> & ND & Spec). clear H2. specialize (ND Rw).
  apply db_bind_ok in H as ([t n] & d3 & H3 & H). simpl in H.
  apply db_bind_ok in H as ([] & d4 & H4 & H). unfold db_ret in H. inv_eqs. simpl.
  destruct (plan_rows_spec _ _ _ _ _ _ _ _ _ H3 ND) as (rows & Er & Hf & _ & _ & Et & _).
  - intros q w Hq _. simpl in Hq. rewrite List.Forall_forall in Rp. specialize (Rp q Hq).
    unfold same_recipient. simpl. apply andb_false_iff. left. apply Z.eqb_neq. simpl in Rp. lia.
  - unfold i64_max. lia.
  - unfold i32_max. lia.
  - exists ws, rows. split; [done|]. split.
    { unfold set_cycle_totals in H4. apply db_bind_ok in H4 as (m & d5 & H4 & H5).
      unfold db_ret in H5. inv_eqs. unfold update_cycles in H4.
      destruct (tbl_update _ _ _ _) as [[cs m']|]; inv_eqs. simpl. rewrite Er. done. }
    split; [done|]. split; [done|]. split; [|split; [exact Et|]].
    + intros e. rewrite Spec. apply exist_proper. intros w.
      rewrite (eligible_row_cycles Zkas d d1 c w) by (done || apply Rp).
      split; intros (Hw & Ha & Ht & E); repeat split; auto; revert Ht; subst e;
        rewrite <- ?(eligible_row_cycles Zkas d d1 c w) by (done || apply Rp); done.
    + now rewrite (Forall2_length _ _ _ Hf).
Qed.

Lemma plan_zkas_cycle_spec_witness :
  exists r d' ws rows,
    plan_zkas_cycle (mkPlanParams 5000 6000 500 1000) sample_eligible_db = Ok (r, d') /\
    db_payouts d' = [] ++ rows /\ map po_amount_sompi rows = [1000; 900] /\
    Forall2 (planned_for 9 1000) ws rows.
Proof.
  eexists _, _.
  edestruct (plan_zkas_cycle_spec (mkPlanParams 5000 6000 500 1000) sample_eligible_db)
    as (ws & rows & _ & Er & Hf & _);
    [split; simpl; repeat constructor; simpl; intuition lia|reflexivity|vm_compute; reflexivity|].
  exists ws, rows. split; [vm_compute; reflexivity|]. split; [exact Er|]. split; [|exact Hf].
  simpl in Er. now rewrite <- Er.
Defined.

(** ** A healthy broadcast *)

(** The row of [r] after its send returned [h]. *)
Definition submitted_row (d : Db) (r : CycleRecipient) (h : bytes) : Prop :=
  exists p, In p (db_payouts d) /\ po_id p = re_payout_id r /\ po_status p = Submitted /\
    po_tx_hash p = Some h.

Section Healthy.
Context (env : Env) (cfg : ZkasPayoutEngineConfig) (txid : nat -> string -> Z -> bytes).
Hypothesis no_fault : forall n, env_fault env n = NoFault.
Hypothesis sender_ok : forall n a m, env_send env n a m = Ok (txid n a m).
Hypothesis txid_len : forall n a m, length (txid n a m) = 32%nat.
Hypothesis live : cfg_mode cfg = Live.

(** One recipient: latch, send, record, unlatch. *)
Lemma send_one r rs st w :
  payouts_wf (wd_db w) -> in_u64 (re_amount_sompi r) ->
  let h := txid (S (wd_calls w)) (re_address r) (re_amount_sompi r) in
  exists w1, send_loop env cfg (r :: rs) st w = send_loop env cfg rs (st_sent (st_attempt st)) w1 /\
    wd_log w1 = wd_log w ++ [mkSend (re_payout_id r) (re_address r) (re_amount_sompi r) (Ok h)] /\
    db_payouts (wd_db w1)
      = map (op_row (OpSubmit (re_payout_id r) h) (db_now (wd_db w))) (db_payouts (wd_db w)) /\
    ~ latched (wd_db w1) /\ payouts_wf (wd_db w1).
Proof using no_fault sender_ok txid_len live.
  intros W Ha h. simpl. rewrite live.
  assert (u64_try_from (re_amount_sompi r) = Some (re_amount_sompi r)) as ->
    by now apply checked_u64_Some.
  unfold bind, call_db, meta_set, call_send, tick_call, with_db. cbn [wd_db wd_log wd_calls].
  rewrite !no_fault. cbn [wd_db wd_log wd_calls].
  set (d1 := set_meta _ (wd_db w)).
  assert (payouts_wf d1) as W1 by (apply (payouts_wf_same (wd_db w)); simpl; auto; lia).
  rewrite sender_ok, no_fault. fold h. rewrite (submit_total d1 _ h W1) by apply txid_len.
  unfold meta_delete. rewrite no_fault. cbn [wd_db wd_log wd_calls].
  eexists. split; [reflexivity|]. cbn [wd_db wd_log wd_calls].
  split; [done|]. split; [done|]. split; [apply clear_latch_unlatched|].
  eapply (payouts_wf_same (set_payouts _ d1)); try reflexivity.
  apply (run_payout_op_wf (OpSubmit (re_payout_id r) h) d1); [exact W1|].
  exact (submit_total d1 _ h W1 (txid_len _ _ _)).
Qed.

Lemma submitted_stays d d' i h r h' :
  db_payouts d' = map (op_row (OpSubmit i h) (db_now d)) (db_payouts d) ->
  re_payout_id r <> i -> submitted_row d r h' -> submitted_row d' r h'.
Proof using.
  intros E Hn (p & Hp & Hi & Hs & Ht). exists (op_row (OpSubmit i h) (db_now d) p).
  split; [rewrite E; now apply in_map|]. unfold op_row. simpl.
  destruct (Z.eqb_spec (po_id p) i); [congruence|]. auto.
Qed.

Lemma planned_submits d d' r h :
  db_payouts d' = map (op_row (OpSubmit (re_payout_id r) h) (db_now d)) (db_payouts d) ->
  planned_row d (re_payout_id r) -> submitted_row d' r h.
Proof using.
  intros E (p & Hp & Hi & Hs). exists (op_row (OpSubmit (re_payout_id r) h) (db_now d) p).
  split; [rewrite E; now apply in_map|]. unfold op_row. simpl. rewrite Hi, Z.eqb_refl.
  unfold status_in. simpl. rewrite Hs. simpl. auto.
Qed.

Lemma planned_other d d' i h id :
  db_payouts d' = map (op_row (OpSubmit i h) (db_now d)) (db_payouts d) ->
  id <> i -> planned_row d id -> planned_row d' id.
Proof using.
  intros E Hn (p & Hp & Hi & Hs). exists (op_row (OpSubmit i h) (db_now d) p).
  split; [rewrite E; now apply in_map|]. unfold op_row. simpl.
  destruct (Z.eqb_spec (po_id p) i); [congruence|]. auto.
Qed.

(** What the loop has recorded for [r]: its send, and its row. *)
Definition done_with (d : Db) (r : CycleRecipient) (e : SendEntry) : Prop :=
  sent_for r e /\ exists h, se_outcome e = Ok h /\ submitted_row d r h.

Lemma send_loop_healthy rs : forall st w,
  payouts_wf (wd_db w) -> ~ latched (wd_db w) ->
  List.NoDup (map re_payout_id rs) ->
  Forall (fun r => planned_row (wd_db w) (re_payout_id r) /\ in_u64 (re_amount_sompi r)) rs ->
  exists w' st' new, send_loop env cfg rs st w = (w', Ok st') /\ wd_log w' = wd_log w ++ new /\
    Forall2 (done_with (wd_db w')) rs new /\ ~ latched (wd_db w') /\
    ts_sends_accepted st' = ts_sends_accepted st + Z.of_nat (length rs) /\
    (forall r h, ~ In (re_payout_id r) (map re_payout_id rs) -> submitted_row (wd_db w) r h ->
       submitted_row (wd_db w') r h).
Proof using no_fault sender_ok txid_len live.
  induction rs as [|r rs IH]; intros st w W L ND F.
  { exists w, st, []. rewrite app_nil_r. simpl. repeat split; auto; lia. }
  inversion ND as [|? ? Hn ND']; subst. inversion F as [|? ? [Hp Ha] F']; subst.
  destruct (send_one r rs st w W Ha) as (w1 & -> & El & Ep & L1 & W1).
  set (h := txid _ _ _) in *.
  destruct (IH (st_sent (st_attempt st)) w1 W1 L1 ND') as (w' & st' & new & E & El' & Hd & L' & Et & K).
  { rewrite List.Forall_forall in F' |- *. intros x Hx. destruct (F' x Hx) as [Px Ax].
    split; [|exact Ax]. apply (planned_other _ _ _ _ _ Ep); [|exact Px].
    intros Eq. apply Hn. rewrite <- Eq. now apply in_map. }
  exists w', st', (mkSend (re_payout_id r) (re_address r) (re_amount_sompi r) (Ok h) :: new).
  split; [exact E|]. split; [now rewrite El', El, <- app_assoc|].
  split; [constructor; [|exact Hd]|].
  - split; [done|]. exists h. split; [done|]. apply K; [exact Hn|].
    exact (planned_submits _ _ r h Ep Hp).
  - split; [exact L'|]. split; [rewrite Et; simpl length; simpl; lia|].
    intros r' h' Hr' Hs. simpl in Hr'. apply K; [tauto|].
    eapply submitted_stays; [exact Ep|intros Eq; apply Hr'; now left|exact Hs].
Qed.
End Healthy.

Definition planned_of_cycle (d : Db) (cycle_id : Z) : list CycleRecipient :=
  List.filter is_planned (cycle_rows d cycle_id).

Lemma planned_of_cycle_row d cy r : In r (planned_of_cycle d cy) -> planned_row d (re_payout_id r).
Proof.
  intros [Hr Hp]%filter_In. apply recipients_spec in Hr as (p & Hin & Hid & Hst & _).
  exists p. repeat split; [exact Hin|congruence|]. apply bool_decide_eq_true in Hp. congruence.
Qed.

Lemma planned_amounts d cy total :
  payouts_wf d -> sum_i64 (map re_amount_sompi (planned_of_cycle d cy)) = Some total ->
  Forall (fun r => in_u64 (re_amount_sompi r)) (planned_of_cycle d cy).
Proof.
  intros W E. pose proof (cycle_rows_nonneg d cy W) as N. fold (planned_of_cycle d cy) in N.
  pose proof (sum_i64_range _ _ E) as R. apply sum_i64_Some in E. subst total.
  apply List.Forall_forall. intros r Hr.
  pose proof (sumZ_elem_le _ _ N (in_map re_amount_sompi _ _ Hr)) as L.
  rewrite List.Forall_forall in N. specialize (N _ (in_map re_amount_sompi _ _ Hr)).
  unfold in_i64, in_u64, i64_max, u64_max in *. simpl in N. lia.
Qed.

(** C14. With a healthy database and sender, an open latch and a total within the
    spend cap, a live broadcast pass returns and pays every planned row it may take
    this tick, largest amounts first: each gets exactly one accepted send for its
    amount to its wallet, its row becomes [submitted] with that transaction id, and
    the latch is clear again. *)
Theorem broadcast_pays_planned env cfg txid cy st w total :
  (forall n, env_fault env n = NoFault) ->
  (forall n a m, env_send env n a m = Ok (txid n a m)) ->
  (forall n a m, length (txid n a m) = 32%nat) -> cfg_mode cfg = Live ->
  payouts_wf (wd_db w) -> ~ latched (wd_db w) ->
  sum_i64 (map re_amount_sompi (planned_of_cycle (wd_db w) (cy_id cy))) = Some total ->
  over_spend_cap total (cfg_spend_cap_sompi cfg) = false ->
  let due := firstn (cfg_max_sends_per_tick cfg) (planned_of_cycle (wd_db w) (cy_id cy)) in
  exists w' st' new, broadcast_pass env cfg cy st w = (w', Ok st') /\ wd_log w' = wd_log w ++ new /\
    Forall2 (done_with (wd_db w')) due new /\ ~ latched (wd_db w') /\
    ts_sends_accepted st' = ts_sends_accepted st + Z.of_nat (length due).
Proof.
  intros Hf Hs Ht Hl W L Es Ec due.
  assert (exists n, broadcast_pass env cfg cy st w
            = send_loop env cfg due st (mkWorld (wd_db w) (wd_log w) n)) as [n ->].
  { unfold broadcast_pass, inflight_latch, bind, call_db, meta_get, db_read, list_cycle_recipients,
      with_db, tick_call; cbn [wd_db wd_log wd_calls]. rewrite !Hf.
    destruct (db_meta (wd_db w) !! INFLIGHT_KEY) eqn:E; [destruct L; unfold latched; eauto|].
    cbn [wd_db wd_log wd_calls]. rewrite Hf. unfold db_read. cbn [wd_db wd_log wd_calls].
    change (List.filter is_planned (omap _ _)) with (planned_of_cycle (wd_db w) (cy_id cy)).
    rewrite Es, Ec. exists (S (S (wd_calls w))). subst due.
    destruct (planned_of_cycle (wd_db w) (cy_id cy)); [now rewrite firstn_nil|done]. }
  destruct (send_loop_healthy env cfg txid Hf Hs Ht Hl due st (mkWorld (wd_db w) (wd_log w) n))
    as (w' & st' & new & E & El & Hd & L' & Et & _); auto.
  - apply NoDup_map_firstn, NoDup_map_filter, recipients_nodup, W.
  - apply List.Forall_forall. intros r Hr%In_firstn. split; [eauto using planned_of_cycle_row|].
    pose proof (planned_amounts _ _ _ W Es) as A. rewrite List.Forall_forall in A. auto.
  - exists w', st', new. auto 10.
Qed.

Definition sample_env : Env :=
  mkEnv (fun _ => Ok true) (fun _ => NoFault) (fun n _ _ => Ok (repeat (Z.of_nat n) 32)) (fun _ => Ok 0)
    (fun _ => Ok [1]) (fun _ _ => Ok false) (fun _ _ _ => Ok (mkScan [] None))
    (fun _ => "cursor"%string) (fun _ => Some [1]).

Definition sample_cfg : ZkasPayoutEngineConfig := mkEngineConfig 1000 50 5000 (Some 100) Live 4.

Lemma broadcast_pays_planned_witness :
  exists w' st' new,
    broadcast_pass sample_env sample_cfg (planned_cycle (set_seq 7 empty_db) 0 1000) stats0
      (mkWorld sample_payout_db [] 0) = (w', Ok st') /\ wd_log w' = [] ++ new /\
    ts_sends_accepted st' = 0 + 1.
Proof.
  destruct (broadcast_pays_planned sample_env sample_cfg (fun n _ _ => repeat (Z.of_nat n) 32)
    (planned_cycle (set_seq 7 empty_db) 0 1000) stats0 (mkWorld sample_payout_db [] 0) 100)
    as (w' & st' & new & E & El & _ & _ & Et);
    [reflexivity|reflexivity|intros; apply repeat_length|reflexivity|apply sample_payout_wf
    |intros [? H]; vm_compute in H; discriminate H|reflexivity|reflexivity|].
  exists w', st', new. auto.
Defined.
