(* ===== verification/ZkasSpec.v ===== *)
(** * What the shielded payout engine promises

    The properties of [ZkasEngine]: when a payout row may be sent again in any
    history of the deployment, what one tick may send, when a payout becomes [confirmed],
    which window a DAA score belongs to, what the planner owes each wallet. *)
From stdpp Require Import pretty relations.
From Stdlib Require Import Ascii.
From S2P Require Import Prelude F64 FeeModel Schema PayoutDb PayoutSpec Domain Sender ZkasEngine ZkasSafety ZkasSends ZkasConfirm.
Open Scope Z_scope.

(** ** A deployment used by the witnesses *)

Definition demo_txid : bytes := repeat 7 32.

Definition demo_cfg : ZkasPayoutEngineConfig := mkEngineConfig 1000 100 5000 (Some 10000) Live 3.

(** A healthy node at virtual DAA [v], a sender that answers [out]. *)
Definition demo_env (v : Z) (out : result bytes SendError) (seen : list (bytes * Z)) : Env :=
  mkEnv (fun _ => Ok true) (fun _ => NoFault) (fun _ _ _ => out) (fun _ => Ok v)
    (fun _ => Ok [1]) (fun _ _ => Ok false) (fun _ _ _ => Ok (mkScan seen (Some [2])))
    (fun _ => "cursor"%string) (fun _ => Some [1]).

Definition demo_db : Db :=
  mkDb 50 20 [sample_wallet 3 "alice"; sample_wallet 4 "bob"] [] [] []
    [mkShareAllocation 1 1 3 (f64_of_Z 1) (f64_of_Z 2) 900 0 0 900 40 0 0 Standard;
     mkShareAllocation 2 1 4 (f64_of_Z 1) (f64_of_Z 2) 400 0 0 400 40 0 0 Standard]
    [] [] [] [] ∅ [] [] [] [] [].

Lemma demo_wf : payouts_wf demo_db.
Proof. split; simpl; repeat constructor. Qed.

(** ** When a row is sent again *)

(** Whether a send may have moved money.  Only a seed that could not be read rules
    it out: a non-zero exit leaves open whether the node admitted the transaction
    (the note on [SendError::Failed]), and a program that was started but could not
    be waited for is reported as [Spawn]. *)
Definition may_have_paid (e : SendEntry) : bool :=
  match se_outcome e with
  | Ok _ => true
  | Err (Seed _) => false
  | Err (Spawn _ _) | Err (SendFailed _ _) | Err (TimedOut _) | Err (NoTxid _) => true
  end.


(** The sends of a row that may have moved money. *)
Definition payments_of (id : Z) (log : list SendEntry) : list SendEntry :=
  List.filter (fun e => (se_payout_id e =? id) && may_have_paid e) log.








(** ** What a tick sends *)

(** C12. The sends of one tick: they are appended to the log; there are none unless
    the engine is live and no latch was held when the tick began; they are at most
    [max_sends_per_tick], for distinct rows, together within the spend cap; and each
    is for the exact amount of a payout row, to the address of the row's wallet. *)
Theorem tick_sends_bounded env cfg w :
  payouts_wf (wd_db w) ->
  exists new, wd_log (fst (tick_once env cfg w)) = wd_log w ++ new /\
    (new <> [] -> cfg_mode cfg = Live /\ ~ latched (wd_db w)) /\
    (length new <= cfg_max_sends_per_tick cfg)%nat /\
    List.NoDup (map se_payout_id new) /\
    (forall cap, new <> [] -> cfg_spend_cap_sompi cfg = Some cap -> sumZ (map se_amount new) <= cap) /\
    Forall (row_of_send (wd_db (fst (tick_once env cfg w)))) new.
Proof.
  intros W. destruct (tick_sends env cfg w W) as (new & E & [L N C D] & R). exists new. auto 10.
Qed.

Lemma tick_sends_bounded_witness :
  exists new, wd_log (fst (tick_once (demo_env 5500 (Ok demo_txid) []) demo_cfg (mkWorld demo_db [] 0)))
                = [] ++ new /\
    (length new <= 3)%nat /\
    (forall cap, new <> [] -> Some 10000 = Some cap -> sumZ (map se_amount new) <= cap).
Proof.
  destruct (tick_sends_bounded (demo_env 5500 (Ok demo_txid) []) demo_cfg (mkWorld demo_db [] 0)
              demo_wf) as (new & E & _ & N & _ & C & _).
  exists new. exact (conj E (conj N C)).
Defined.

(** ** When a payout is confirmed *)

(** C13. Confirmation is earned: if a row is [confirmed] after a tick, either it was
    so before, or it carries an accepting DAA score at least
    [ZKAS_PAYOUT_CONFIRMATION_DAA] below the virtual score the tick read, and that
    score was recorded for the row earlier or reported by the node for the row's
    own transaction. *)
Theorem confirmation_is_earned env cfg w v p' :
  payouts_wf (wd_db w) -> scores_in_range (wd_db w) ->
  env_virtual_daa env (S (wd_calls w)) = Ok v ->
  In p' (db_payouts (wd_db (fst (tick_once env cfg w)))) -> po_status p' = Confirmed ->
  In p' (db_payouts (wd_db w)) \/
  exists a, po_accepted_daa_score p' = Some a /\ a + ZKAS_PAYOUT_CONFIRMATION_DAA <= v /\
    accept_evidence env (wd_db w) p' a.
Proof. intros W R Hv Hp Hs. exact (tick_confirms env cfg w v W R Hv p' Hp Hs). Qed.

(** A submitted payout whose transaction was accepted at DAA 5100. *)
Definition demo_submitted : Payout :=
  mkPayout 8 7 3 900 Submitted (Some demo_txid) None None 40 (Some 41) None None None.

Definition demo_submitted_db : Db :=
  mkDb 50 20 [sample_wallet 3 "alice"] [] [] [] [] []
    [mkCycle 7 Zkas CyPlanned 5000 6000 40 None None 900 1 "zkas-5000-6000"]
    [demo_submitted] [] {["zkas_payout_confirm_cursor" := "c"]}%string [] [] [] [] [].

Definition demo_confirmed : Payout :=
  mkPayout 8 7 3 900 Confirmed (Some demo_txid) None None 40 (Some 41) (Some 50) (Some 5100) None.

Lemma demo_submitted_wf : payouts_wf demo_submitted_db.
Proof. split; simpl; repeat constructor; simpl; auto; try lia; eauto. Qed.

Lemma confirmation_is_earned_witness :
  In demo_confirmed (db_payouts demo_submitted_db) \/
  exists a, po_accepted_daa_score demo_confirmed = Some a /\ a + 100 <= 5500 /\
    accept_evidence (demo_env 5500 (Ok demo_txid) [(demo_txid, 5100)]) demo_submitted_db
      demo_confirmed a.
Proof.
  apply (confirmation_is_earned (demo_env 5500 (Ok demo_txid) [(demo_txid, 5100)]) demo_cfg
           (mkWorld demo_submitted_db [] 0) 5500 demo_confirmed demo_submitted_wf);
    [|reflexivity|vm_compute; now left|reflexivity].
  intros p a [<-|[]] H. discriminate H.
Defined.

(** ** Two executions the documentation rules out *)

(** Alice is owed 900 sompi.  A tick near the end of a window sends them; the
    transaction is not yet confirmed when the next window opens. *)
Definition late_world1 : World :=
  fst (tick_once (demo_env 5990 (Ok demo_txid) []) demo_cfg (mkWorld demo_db [] 0)).
Definition late_world2 : World :=
  fst (tick_once (demo_env 6010 (Ok (repeat 9 32)) []) demo_cfg late_world1).

Definition accepted_total (address : string) (log : list SendEntry) : Z :=
  sumZ (map se_amount (List.filter (fun e => String.eqb (se_address e) address
                                             && is_ok (se_outcome e)) log)).

(** A payout submitted near the end of a window is paid again in the next one:
    eligibility nets only [confirmed] payouts and a tick plans before it confirms,
    so with no fault at all two ticks across a window boundary send a wallet that
    is owed 900 sompi twice 900, under two payout rows. *)
Theorem unconfirmed_payout_paid_again :
  allocated_sompi demo_db 3 = 900 /\
  accepted_total (sample_address "alice") (wd_log late_world1) = 900 /\
  accepted_total (sample_address "alice") (wd_log late_world2) = 1800.
Proof. repeat split; vm_compute; reflexivity. Qed.

(** A cycle whose only payout is confirmed stays [planned]: when a crash
    separates a send from the reconcile step, the next tick confirms the row, but
    [mark_cycle_settled] does not accept a [planned] cycle, and the status never
    leaves [planned]. *)
Theorem confirmed_cycle_stays_planned :
  let w1 := fst (tick_once (demo_env 5500 (Ok demo_txid) [(demo_txid, 5100)]) demo_cfg
                   (mkWorld demo_submitted_db [] 0)) in
  let w2 := fst (tick_once (demo_env 5600 (Ok demo_txid) []) demo_cfg w1) in
  db_payouts (wd_db w2) = [demo_confirmed] /\ map cy_status (db_cycles (wd_db w2)) = [CyPlanned].
Proof. repeat split; vm_compute; reflexivity. Qed.

(** A send that exits non-zero is retried blindly: the latch is released and the
    row stays [planned], so the next tick sends the same row again, although the
    sender's documentation keeps the submission state of that failure open and says
    that the engine does not retry it blindly. *)
Theorem failed_send_is_retried :
  let env := demo_env 5500 (Err (SendFailed (Some 1) [])) [] in
  let w1 := fst (tick_once env demo_cfg (mkWorld demo_db [] 0)) in
  let w2 := fst (tick_once env demo_cfg w1) in
  map se_payout_id (wd_log w2) = [21; 21] /\ length (payments_of 21 (wd_log w2)) = 2%nat /\
  db_meta (wd_db w2) !! INFLIGHT_KEY = None.
Proof. repeat split; vm_compute; reflexivity. Qed.
