(* ===== verification/AccountDb.v ===== *)
(** * The accounting repositories ([crates/katpool-db/src/repo])

    [coinbase_reward.rs], [share_window.rs], [share_allocation.rs],
    [nacho_rebate.rs] and [audit.rs]: each function is the SQL statement of the
    source over the tables of [Schema]. *)
From stdpp Require Import pretty.
From Stdlib Require Import SpecFloat.
From S2P Require Import Prelude F64 FeeModel Schema PayoutDb.
Open Scope Z_scope.

(** ** [coinbase_reward.rs] *)

Inductive EnsureOutcome := Inserted | AlreadyExisted.

(** [x as i32] on a [u32]. *)
Definition as_i32 (z : Z) : Z := if z <=? i32_max then z else z - 2 ^ 32.

Definition same_outpoint (txid : bytes) (index : Z) (r : CoinbaseReward) : bool :=
  bool_decide (cr_outpoint_transaction_id r = txid) && (cr_outpoint_index r =? index).

Definition coinbase_ensure (txid : bytes) (index amount daa : Z) : DB (Z * EnsureOutcome) :=
  fun d =>
    let row := mkReward (db_seq d) txid (as_i32 index) amount (as_i64 daa) (db_now d) None in
    if negb (reward_check row) then Err check_violation else
    match List.find (same_outpoint txid (as_i32 index)) (db_rewards d) with
    | Some r => Ok ((cr_id r, AlreadyExisted), d)
    | None => Ok ((cr_id row, Inserted),
                  set_seq (db_seq d + 1) (set_rewards (db_rewards d ++ [row]) d))
    end.

Definition is_unallocated (r : CoinbaseReward) : bool := bool_decide (cr_allocated_at r = None).

Definition list_unallocated (limit : Z) : DB (list CoinbaseReward) :=
  db_read_checked (fun d =>
    sql_limit limit
      (sort_by (fun a b => (cr_block_daa_score a <? cr_block_daa_score b)
                           || ((cr_block_daa_score a =? cr_block_daa_score b)
                               && (cr_id a <=? cr_id b)))
         (List.filter is_unallocated (db_rewards d)))).

(** The row lock of [FOR UPDATE] serialises the transactions that take it; within
    one transaction it is a read. *)
Definition lock_for_allocation (id : Z) : DB (option CoinbaseReward) :=
  db_read (fun d => List.find (fun r => cr_id r =? id) (db_rewards d)).

Definition stamp_allocated (now : Z) (r : CoinbaseReward) : CoinbaseReward :=
  mkReward (cr_id r) (cr_outpoint_transaction_id r) (cr_outpoint_index r) (cr_amount_sompi r)
    (cr_block_daa_score r) (cr_discovered_at r) (coalesce (cr_allocated_at r) now).

Definition mark_allocated (id : Z) : DB unit :=
  fun d => match tbl_update reward_check (fun r => cr_id r =? id) (stamp_allocated (db_now d))
                   (db_rewards d) with
           | Ok (rows, _) => Ok (tt, set_rewards rows d)
           | Err e => Err e
           end.

Definition find_by_outpoint (txid : bytes) (index : Z) : DB (option CoinbaseReward) :=
  db_read (fun d => List.find (same_outpoint txid (as_i32 index)) (db_rewards d)).

(** ** [share_window.rs] *)

Definition same_window (wallet start stop : Z) (w : ShareWindow) : bool :=
  (sw_wallet_id w =? wallet) && (sw_daa_start w =? start) && (sw_daa_end w =? stop).

Definition window_insert (wallet daa_start daa_end started_at ended_at : Z) (weight : f64) (count : Z)
  : DB Z :=
  fun d =>
    let row := mkWindow (db_seq d) wallet (as_i64 daa_start) (as_i64 daa_end) started_at ended_at
                 weight count in
    if negb (window_check row) then Err check_violation else
    match List.find (same_window wallet (as_i64 daa_start) (as_i64 daa_end)) (db_windows d) with
    | Some _ => Err unique_violation
    | None => Ok (sw_id row, set_seq (db_seq d + 1) (set_windows (db_windows d ++ [row]) d))
    end.

Definition window_find (wallet daa_start daa_end : Z) : DB (option ShareWindow) :=
  db_read (fun d => List.find (same_window wallet (as_i64 daa_start) (as_i64 daa_end)) (db_windows d)).

Definition in_window (daa_start daa_end : Z) (w : ShareWindow) : bool :=
  (sw_daa_start w =? as_i64 daa_start) && (sw_daa_end w =? as_i64 daa_end).

Definition list_for_window (daa_start daa_end : Z) : DB (list ShareWindow) :=
  db_read (fun d => sort_by (fun a b => pg_leb (sw_total_weight b) (sw_total_weight a))
                      (List.filter (in_window daa_start daa_end) (db_windows d))).

(** ** [share_allocation.rs] *)

Definition DbWalletTier_as_str (t : WalletTier) : string := WalletTier_as_str t.

Record NewAllocation := mkNewAllocation {
  na_wallet_id : Z;
  na_weight : f64;
  na_window_total : f64;
  na_gross_share_sompi : Z;
  na_pool_fee_sompi : Z;
  na_nacho_accrual_sompi : Z;
  na_net_payout_sompi : Z;
  na_applied_topline_bps : Z;
  na_applied_rebate_bps : Z;
  na_applied_tier : WalletTier
}.

Definition na_is_balanced (a : NewAllocation) : bool :=
  na_gross_share_sompi a =?
    na_pool_fee_sompi a + na_nacho_accrual_sompi a + na_net_payout_sompi a.

Definition allocation_row (d : Db) (reward_id : Z) (i : nat) (a : NewAllocation) : ShareAllocation :=
  mkShareAllocation (db_seq d + Z.of_nat i) reward_id (na_wallet_id a) (na_weight a)
    (na_window_total a) (na_gross_share_sompi a) (na_pool_fee_sompi a)
    (na_nacho_accrual_sompi a) (na_net_payout_sompi a) (db_now d)
    (na_applied_topline_bps a) (na_applied_rebate_bps a) (na_applied_tier a).

(** [UNIQUE (coinbase_reward_id, wallet_id)] over the table after the insert. *)
Definition allocation_key (a : ShareAllocation) : Z * Z := (sa_coinbase_reward_id a, sa_wallet_id a).

Definition unbalanced_message (a : NewAllocation) : string :=
  "allocation for wallet " +:+ pretty (na_wallet_id a) +:+ " is unbalanced: gross="
    +:+ pretty (na_gross_share_sompi a) +:+ " fee=" +:+ pretty (na_pool_fee_sompi a)
    +:+ " accrual=" +:+ pretty (na_nacho_accrual_sompi a)
    +:+ " net=" +:+ pretty (na_net_payout_sompi a).

Definition insert_batch (reward_id : Z) (rows : list NewAllocation) : DB Z :=
  fun d =>
    match rows with
    | [] => Ok (0, d)
    | _ =>
        match List.find (fun a => negb (na_is_balanced a)) rows with
        | Some a => Err (Config (unbalanced_message a))
        | None =>
        let new := imap (allocation_row d reward_id) rows in
        if negb (forallb allocation_check new) then Err check_violation else
        if bool_decide (NoDup (map allocation_key (db_allocations d ++ new))) then
          Ok (Z.of_nat (length new),
              set_seq (db_seq d + Z.of_nat (length new)) (set_allocations (db_allocations d ++ new) d))
        else Err unique_violation
        end
    end.

Definition list_for_reward (reward_id : Z) : DB (list ShareAllocation) :=
  db_read (fun d => sort_by (fun a b => pg_leb (sa_weight b) (sa_weight a))
                      (List.filter (fun a => sa_coinbase_reward_id a =? reward_id) (db_allocations d))).

Definition allocations_for_wallet (wallet limit : Z) : DB (list ShareAllocation) :=
  db_read_checked (fun d =>
    sql_limit limit (sort_by (fun a b => sa_computed_at b <=? sa_computed_at a)
                       (wallet_allocations d wallet))).

Definition latest_applied_tier_for_wallet (wallet : Z) : DB (option WalletTier) :=
  db_read (fun d =>
    option_map sa_applied_tier
      (head (sort_by (fun a b => (sa_computed_at b <? sa_computed_at a)
                                 || ((sa_computed_at a =? sa_computed_at b) && (sa_id b <=? sa_id a)))
               (wallet_allocations d wallet)))).

Definition pending_balance_for_wallet (wallet : Z) : DB Z :=
  db_read_checked (fun d => sum_bigint (map sa_net_payout_sompi (wallet_allocations d wallet))).

(** ** [nacho_rebate.rs] *)

Definition pending_sompi (r : NachoRebate) : Z := nr_accrued_sompi r - nr_paid_sompi r.

Definition is_rebate_of (wallet : Z) (r : NachoRebate) : bool := nr_wallet_id r =? wallet.

Definition rebate_get (wallet : Z) : DB (option NachoRebate) :=
  db_read (fun d => List.find (is_rebate_of wallet) (db_rebates d)).

(** [UPDATE .. RETURNING] of the one row of a wallet, under [bigint] range and
    the table's [CHECK]s. *)
Definition update_rebate (wallet : Z) (f : NachoRebate -> NachoRebate) (d : Db)
  : result (NachoRebate * Db) DbError :=
  match List.find (is_rebate_of wallet) (db_rebates d) with
  | None => Err NotFound
  | Some r =>
      if negb (in_i64b (nr_accrued_sompi (f r)) && in_i64b (nr_paid_sompi (f r)))
      then Err numeric_overflow
      else match tbl_update rebate_check (is_rebate_of wallet) f (db_rebates d) with
           | Ok (rows, _) => Ok (f r, set_rebates rows d)
           | Err e => Err e
           end
  end.

Definition insert_rebate (wallet accrued : Z) (d : Db) : result (NachoRebate * Db) DbError :=
  let row := mkRebate wallet accrued 0 (db_now d) in
  if rebate_check row then Ok (row, set_rebates (db_rebates d ++ [row]) d) else Err check_violation.

Definition accrue (wallet delta : Z) : DB NachoRebate :=
  fun d =>
    if delta <? 0 then Err (Config ("accrue delta must be non-negative, got " +:+ pretty delta)) else
    match List.find (is_rebate_of wallet) (db_rebates d) with
    | None => insert_rebate wallet delta d
    | Some _ => update_rebate wallet
                  (fun r => mkRebate (nr_wallet_id r) (nr_accrued_sompi r + delta) (nr_paid_sompi r)
                              (db_now d)) d
    end.

Definition mark_paid (wallet delta : Z) : DB NachoRebate :=
  fun d =>
    if delta <? 0 then Err (Config ("mark_paid delta must be non-negative, got " +:+ pretty delta)) else
    update_rebate wallet
      (fun r => mkRebate (nr_wallet_id r) (nr_accrued_sompi r) (nr_paid_sompi r + delta) (db_now d)) d.

Definition set_accrual (wallet accrued : Z) : DB NachoRebate :=
  fun d =>
    if accrued <? 0 then Err (Config ("set_accrual value must be non-negative, got " +:+ pretty accrued)) else
    match List.find (is_rebate_of wallet) (db_rebates d) with
    | None => insert_rebate wallet accrued d
    | Some _ => update_rebate wallet
                  (fun r => mkRebate (nr_wallet_id r) accrued (nr_paid_sompi r) (db_now d)) d
    end.

Definition list_pending (min_pending limit : Z) : DB (list NachoRebate) :=
  db_read_checked (fun d =>
    sql_limit limit (sort_by (fun a b => pending_sompi b <=? pending_sompi a)
                       (List.filter (fun r => min_pending <=? pending_sompi r) (db_rebates d)))).

(** ** [audit.rs] *)

Record NewEntry := mkNewEntry {
  ne_actor : string;
  ne_action : string;
  ne_subject_type : option string;
  ne_subject_id : option Z;
  ne_correlation_id : option string;
  ne_payload : list (string * Json)
}.

Definition NewEntry_new (actor action : string) : NewEntry := mkNewEntry actor action None None None [].
Definition ne_subject (kind : string) (id : Z) (e : NewEntry) : NewEntry :=
  mkNewEntry (ne_actor e) (ne_action e) (Some kind) (Some id) (ne_correlation_id e) (ne_payload e).
Definition ne_with_correlation (id : string) (e : NewEntry) : NewEntry :=
  mkNewEntry (ne_actor e) (ne_action e) (ne_subject_type e) (ne_subject_id e) (Some id) (ne_payload e).
Definition ne_with_payload (p : list (string * Json)) (e : NewEntry) : NewEntry :=
  mkNewEntry (ne_actor e) (ne_action e) (ne_subject_type e) (ne_subject_id e) (ne_correlation_id e) p.

Definition audit_append (e : NewEntry) : DB Z :=
  fun d =>
    let row := mkAudit (db_seq d) (db_now d) (ne_actor e) (ne_action e) (ne_subject_type e)
                 (ne_subject_id e) (ne_correlation_id e) (ne_payload e) in
    Ok (au_id row, set_seq (db_seq d + 1) (set_audit (db_audit d ++ [row]) d)).

Definition list_for_subject (kind : string) (id limit : Z) : DB (list AuditEntry) :=
  db_read_checked (fun d =>
    sql_limit limit
      (sort_by (fun a b => au_occurred_at a <=? au_occurred_at b)
         (List.filter (fun a => bool_decide (au_subject_type a = Some kind)
                                && bool_decide (au_subject_id a = Some id)) (db_audit d)))).

(** ** The rebate ledger *)

Record rebates_wf (d : Db) : Prop := {
  rb_unique : List.NoDup (map nr_wallet_id (db_rebates d));
  rb_check : Forall (fun r => rebate_check r = true) (db_rebates d)
}.

(** What a wallet has accrued and been paid; zero before its first row. *)
Definition accrued_of (d : Db) (wallet : Z) : Z :=
  sumZ (map nr_accrued_sompi (List.filter (is_rebate_of wallet) (db_rebates d))).
Definition paid_of (d : Db) (wallet : Z) : Z :=
  sumZ (map nr_paid_sompi (List.filter (is_rebate_of wallet) (db_rebates d))).

Lemma filter_wallet_unique l w r :
  List.NoDup (map nr_wallet_id l) -> List.find (is_rebate_of w) l = Some r ->
  List.filter (is_rebate_of w) l = [r].
Proof.
  induction l as [|x l IH]; simpl; intros ND H; [discriminate|]. inversion ND; subst.
  unfold is_rebate_of in *. destruct (Z.eqb_spec (nr_wallet_id x) w) as [E|E]; [|auto].
  inv_eqs. f_equal. clear IH. rewrite <- (List.filter_ext_in (fun _ => false)).
  - clear. induction l; simpl; auto.
  - intros y Hy. symmetry. apply Z.eqb_neq. intros Ey. apply H2. rewrite <- Ey. now apply in_map.
Qed.

Lemma filter_find_none w l : List.find (is_rebate_of w) l = None -> List.filter (is_rebate_of w) l = [].
Proof.
  induction l as [|x l IH]; simpl; [done|]. destruct (is_rebate_of w x); [discriminate|auto].
Qed.

(** How one successful ledger update moves a wallet's pair, and nobody else's. *)
Definition ledger_moves (d d' : Db) (wallet accrued paid : Z) : Prop :=
  rebates_wf d' /\ accrued_of d' wallet = accrued /\ paid_of d' wallet = paid /\
  (forall w, w <> wallet -> accrued_of d' w = accrued_of d w /\ paid_of d' w = paid_of d w).

Lemma filter_map_other w wallet f l :
  w <> wallet -> (forall r, nr_wallet_id (f r) = nr_wallet_id r) ->
  List.filter (is_rebate_of w) (map (fun r => if is_rebate_of wallet r then f r else r) l)
  = List.filter (is_rebate_of w) l.
Proof.
  intros Hw Hf. induction l as [|x l IH]; simpl; [done|]. unfold is_rebate_of in *.
  destruct (Z.eqb_spec (nr_wallet_id x) wallet) as [E|E].
  - rewrite Hf. destruct (Z.eqb_spec (nr_wallet_id x) w); [congruence|exact IH].
  - destruct (nr_wallet_id x =? w); [now rewrite IH|exact IH].
Qed.

Lemma filter_map_same wallet f l r :
  (forall r, nr_wallet_id (f r) = nr_wallet_id r) -> List.filter (is_rebate_of wallet) l = [r] ->
  List.filter (is_rebate_of wallet) (map (fun r => if is_rebate_of wallet r then f r else r) l) = [f r].
Proof.
  intros Hf. assert (forall l', List.filter (is_rebate_of wallet)
      (map (fun r => if is_rebate_of wallet r then f r else r) l')
      = map f (List.filter (is_rebate_of wallet) l')) as E; [|intros H; now rewrite E, H].
  induction l' as [|x l' IH]; simpl; [done|]. destruct (is_rebate_of wallet x) eqn:B.
  - unfold is_rebate_of in *. rewrite Hf, B. simpl. now rewrite IH.
  - now rewrite B.
Qed.

Lemma update_rebate_moves wallet f d r d' :
  rebates_wf d -> (forall r, nr_wallet_id (f r) = nr_wallet_id r) ->
  update_rebate wallet f d = Ok (r, d') ->
  exists r0, List.filter (is_rebate_of wallet) (db_rebates d) = [r0] /\ r = f r0 /\
    ledger_moves d d' wallet (nr_accrued_sompi (f r0)) (nr_paid_sompi (f r0)).
Proof.
  intros [U C] Hf H. unfold update_rebate in H.
  destruct (List.find _ _) as [r0|] eqn:F; [|discriminate].
  destruct (negb _); [discriminate|].
  destruct (tbl_update _ _ _ _) as [[rows n]|] eqn:T; inv_eqs.
  pose proof (filter_wallet_unique _ _ _ U F) as E. exists r0. split; [exact E|]. split; [done|].
  pose proof (tbl_update_check _ _ _ _ _ _ T C) as C'.
  apply tbl_update_ok in T as [-> _].
  split; [split; [|exact C']|].
  - simpl. rewrite map_id_update; [exact U|]. intros x. now destruct (is_rebate_of wallet x).
  - unfold accrued_of, paid_of. simpl. rewrite (filter_map_same _ _ _ _ Hf E). simpl.
    split; [lia|]. split; [lia|]. intros w Hw. now rewrite filter_map_other.
Qed.

Lemma insert_rebate_moves wallet a d r d' :
  rebates_wf d -> List.find (is_rebate_of wallet) (db_rebates d) = None ->
  insert_rebate wallet a d = Ok (r, d') -> ledger_moves d d' wallet a 0.
Proof.
  intros [U C] F H. unfold insert_rebate in H.
  destruct (rebate_check _) eqn:K; inv_eqs. split; [split; simpl|].
  - rewrite map_app. apply NoDup_app_snoc; [exact U|]. simpl. intros (x & Ex & Hx)%in_map_iff.
    apply (find_none _ _ F) in Hx. unfold is_rebate_of in Hx. apply Z.eqb_neq in Hx. congruence.
  - apply Forall_app. auto.
  - unfold accrued_of, paid_of. simpl. rewrite !List.filter_app, (filter_find_none _ _ F). simpl.
    unfold is_rebate_of at 1 2. simpl. rewrite Z.eqb_refl. simpl. split; [lia|]. split; [lia|].
    intros w Hw. rewrite !List.filter_app. simpl. unfold is_rebate_of at 2 5. simpl.
    destruct (Z.eqb_spec wallet w); [congruence|]. now rewrite app_nil_r.
Qed.

Lemma accrue_moves w delta d r d' :
  rebates_wf d -> accrue w delta d = Ok (r, d') ->
  0 <= delta /\ ledger_moves d d' w (accrued_of d w + delta) (paid_of d w).
Proof.
  intros W H. unfold accrue in H. destruct (Z.ltb_spec delta 0); [discriminate|]. split; [done|].
  destruct (List.find _ _) as [r0|] eqn:F.
  - eapply update_rebate_moves in H; [|exact W|done]. destruct H as (r1 & E & _ & L).
    unfold accrued_of, paid_of. rewrite E. simpl in *. now rewrite !Z.add_0_r.
  - pose proof (insert_rebate_moves _ _ _ _ _ W F H) as L.
    unfold accrued_of, paid_of. now rewrite (filter_find_none _ _ F).
Qed.

Lemma mark_paid_moves w delta d r d' :
  rebates_wf d -> mark_paid w delta d = Ok (r, d') ->
  0 <= delta /\ ledger_moves d d' w (accrued_of d w) (paid_of d w + delta).
Proof.
  intros W H. unfold mark_paid in H. destruct (Z.ltb_spec delta 0); [discriminate|]. split; [done|].
  eapply update_rebate_moves in H; [|exact W|done]. destruct H as (r1 & E & _ & L).
  unfold accrued_of, paid_of. rewrite E. simpl in *. now rewrite !Z.add_0_r.
Qed.

(** Paid never exceeds accrued. *)
Lemma paid_le_accrued d w : rebates_wf d -> 0 <= paid_of d w <= accrued_of d w.
Proof.
  intros [_ C]. unfold paid_of, accrued_of. rewrite List.Forall_forall in C.
  assert (forall r, In r (List.filter (is_rebate_of w) (db_rebates d)) ->
            0 <= nr_paid_sompi r <= nr_accrued_sompi r) as B.
  { intros r [Hr _]%filter_In. specialize (C r Hr). unfold rebate_check in C. to_prop. lia. }
  split; [apply sumZ_nonneg, Forall_map, List.Forall_forall; intros r Hr; simpl; specialize (B r Hr); lia|].
  apply sumZ_le. intros r Hr. specialize (B r Hr). lia.
Qed.

(** The rebate ledger: an accrual adds exactly its amount to the
    wallet's accrued total, a payment adds exactly its amount to the paid total and
    succeeds only within what is pending; no other wallet's balance moves, and paid
    never exceeds accrued. *)
Theorem rebate_ledger d w delta r d' :
  rebates_wf d ->
  (accrue w delta d = Ok (r, d') ->
     ledger_moves d d' w (accrued_of d w + delta) (paid_of d w)) /\
  (mark_paid w delta d = Ok (r, d') ->
     0 <= delta <= accrued_of d w - paid_of d w /\
     ledger_moves d d' w (accrued_of d w) (paid_of d w + delta)).
Proof.
  intros W. split; intros H.
  - apply (accrue_moves _ _ _ _ _ W H).
  - destruct (mark_paid_moves _ _ _ _ _ W H) as [Hd L]. split; [|exact L].
    destruct L as (W' & Ea & Ep & _). pose proof (paid_le_accrued d' w W'). lia.
Qed.

Definition sample_rebates : Db := set_rebates [mkRebate 3 500 100 0; mkRebate 4 70 0 0] empty_db.

Lemma rebate_ledger_witness :
  exists r d', mark_paid 3 400 sample_rebates = Ok (r, d') /\
    ledger_moves sample_rebates d' 3 500 500 /\ is_ok (mark_paid 3 401 sample_rebates) = false.
Proof.
  eexists _, _. split; [vm_compute; reflexivity|]. split; [|vm_compute; reflexivity].
  eapply (rebate_ledger sample_rebates 3 400); [|vm_compute; reflexivity].
  split; simpl; repeat constructor; simpl; intuition lia.
Defined.
