(* ===== verification/Allocation.v ===== *)
(** * PROP allocation ([accountant/src/window.rs], [allocation.rs], [tier.rs])

    Closing a share window, pro-rating a matured coinbase reward over it, and the
    transaction that books the result.  A database call may fail before or after
    it takes effect; a transaction commits as a whole or not at all. *)
From stdpp Require Import pretty.
From Stdlib Require Import SpecFloat.
From S2P Require Import Prelude F64 FeeModel Schema PayoutDb Domain AccountDb.
Open Scope Z_scope.

(** ** [window.rs] *)

Record CloseOutcome := mkClose { co_wallets : Z; co_shares : Z; co_total_weight : f64 }.

Definition share_in_range (daa_start daa_end : Z) (s : Share) : bool :=
  (as_i64 daa_start <=? sh_daa_score s) && (sh_daa_score s <? as_i64 daa_end).

(** [GROUP BY wallet_id], one group per wallet in order of first appearance. *)
Fixpoint dedup (l : list Z) : list Z :=
  match l with
  | [] => []
  | x :: l => x :: List.filter (fun y => negb (y =? x)) (dedup l)
  end.

Lemma dedup_In x l : In x (dedup l) -> In x l.
Proof.
  induction l as [|y l IH]; simpl; [done|]. intros [->|H]; [by left|].
  apply filter_In in H as [H _]. auto.
Qed.

Definition min_credited (l : list Share) : option Z :=
  fold_right (fun s acc => match acc with
                           | Some m => Some (Z.min (sh_credited_at s) m)
                           | None => Some (sh_credited_at s)
                           end) None l.

(** The rollup of one wallet: weight, count, first credit. *)
Definition rollup (d : Db) (daa_start daa_end now wallet : Z) : result ShareWindow DbError :=
  let shares := List.filter (fun s => (sh_wallet_id s =? wallet) && share_in_range daa_start daa_end s)
                  (db_shares d) in
  let? weight := pg_sum (map sh_difficulty shares) in
  Ok (mkWindow 0 wallet (as_i64 daa_start) (as_i64 daa_end)
        (match min_credited shares with Some t => t | None => now end) now
        (match weight with Some w => w | None => f64_zero end) (Z.of_nat (length shares))).

Fixpoint rollups (d : Db) (daa_start daa_end now : Z) (wallets : list Z)
  : result (list ShareWindow) DbError :=
  match wallets with
  | [] => Ok []
  | w :: wallets =>
      let? row := rollup d daa_start daa_end now w in
      let? rows := rollups d daa_start daa_end now wallets in
      Ok (row :: rows)
  end.

(** [INSERT .. ON CONFLICT (wallet_id, daa_start, daa_end) DO UPDATE]. *)
Definition upsert_window (w : ShareWindow) : DB unit :=
  fun d =>
    let row := mkWindow (db_seq d) (sw_wallet_id w) (sw_daa_start w) (sw_daa_end w) (sw_started_at w)
                 (sw_ended_at w) (sw_total_weight w) (sw_share_count w) in
    if negb (window_check row) then Err check_violation else
    let same := same_window (sw_wallet_id w) (sw_daa_start w) (sw_daa_end w) in
    match List.find same (db_windows d) with
    | None => Ok (tt, set_seq (db_seq d + 1) (set_windows (db_windows d ++ [row]) d))
    | Some _ =>
        match tbl_update window_check same
                (fun old => mkWindow (sw_id old) (sw_wallet_id old) (sw_daa_start old) (sw_daa_end old)
                              (sw_started_at old) (sw_ended_at w) (sw_total_weight w)
                              (sw_share_count w)) (db_windows d) with
        | Ok (rows, _) => Ok (tt, set_windows rows d)
        | Err e => Err e
        end
    end.

Definition contributors (d : Db) (daa_start daa_end : Z) : list Z :=
  dedup (map sh_wallet_id (List.filter (share_in_range daa_start daa_end) (db_shares d))).

Definition close_window (daa_start daa_end now : Z) : DB CloseOutcome :=
  fun d =>
    if daa_end <=? daa_start then
      Err (Config ("close_window: daa_end (" +:+ pretty daa_end +:+ ") must be > daa_start ("
                     +:+ pretty daa_start +:+ ")"))
    else
      (rows <-- db_read_checked (fun d => rollups d daa_start daa_end now
                                            (contributors d daa_start daa_end)) ;;
       db_iter upsert_window rows ;;;
       totals <-- db_read_checked (fun d' =>
         let rows := List.filter (in_window daa_start daa_end) (db_windows d') in
         let? n := sum_bigint (map sw_share_count rows) in
         let? weight := pg_sum (map sw_total_weight rows) in
         Ok (match weight with Some w => w | None => f64_zero end, n)) ;;
       db_ret (mkClose (Z.of_nat (length (contributors d daa_start daa_end))) (snd totals) (fst totals))) d.

(** ** [tier.rs] *)

Inductive ClassifierError := Upstream (msg : string) | Malformed (msg : string).

(** What the allocation engine asks of a classifier. *)
Class TierClassifier := classify : text -> result WalletTier ClassifierError.

Definition StaticTierClassifier (fixed : WalletTier) : TierClassifier := fun _ => Ok fixed.

(** ** [allocation.rs]: arithmetic *)

Definition pro_rate (block_reward : Z) (weight total_weight : f64) : Z :=
  if f64_eqb weight f64_zero || f64_leb total_weight f64_zero then 0 else
  let ratio := f64_div weight total_weight in
  let portion := f64_mul (f64_of_Z block_reward) ratio in
  let floored := f64_floor portion in
  if f64_leb floored f64_zero then 0
  else if f64_leb (f64_of_Z block_reward) floored then block_reward
  else f64_as_i64 floored.

Record Totals := mkTotals3 { tt_pool_fee : Z; tt_nacho : Z; tt_net : Z }.

Definition sum_totals (l : list Allocation) : Totals :=
  fold_left (fun t a => mkTotals3 (sat_i64 (tt_pool_fee t + pool_fee_sompi a))
                          (sat_i64 (tt_nacho t + nacho_accrual_sompi a))
                          (sat_i64 (tt_net t + net_payout_sompi a))) l (mkTotals3 0 0 0).

(** The index of the smallest wallet id: the head of a stable sort of the
    indices by wallet id. *)
Definition residue_index (ids : list Z) : option nat :=
  head (sort_by (fun i j => List.nth i ids i64_max <=? List.nth j ids i64_max) (seq 0 (length ids))).

Definition award_residue (ids grosses : list Z) (residue : Z) : list Z :=
  match residue_index ids with
  | Some i => alter (fun g => sat_i64 (g + residue)) i grosses
  | None => grosses
  end.

(** ** [allocation.rs]: the engine *)

Inductive AllocationOutcome :=
| Allocated (wallet_count : Z) (total_net total_nacho total_fee residue : Z)
| AlreadyAllocated
| NoContributingWallets (retained : Z).

Inductive AllocationEngineError :=
| AeDb (e : DbError)
| AeSqlx (e : DbError)
| AeMath (e : AllocationError)
| UnknownReward (id : Z)
| InvalidWindowWeight (w : f64)
| InvalidWalletAddress (address : string)
| AePanic.

(** Code inside one transaction. *)
Definition TX (A : Type) : Type := Db -> result (A * Db) AllocationEngineError.
Definition tx_ret {A} (a : A) : TX A := fun d => Ok (a, d).
Definition tx_bind {A B} (m : TX A) (k : A -> TX B) : TX B :=
  fun d => match m d with Ok (a, d') => k a d' | Err e => Err e end.
Definition tx_db {A} (m : DB A) : TX A := fun d => map_err AeDb (m d).
Definition tx_fail {A} (e : AllocationEngineError) : TX A := fun _ => Err e.

(** Code that runs transactions one after another; each is a call that may
    fail before it begins or lose its acknowledgement. *)
Definition AM (A : Type) : Type := Db * nat -> (Db * nat) * result A AllocationEngineError.
Definition am_ret {A} (a : A) : AM A := fun s => (s, Ok a).
Definition am_fail {A} (e : AllocationEngineError) : AM A := fun s => (s, Err e).
Definition am_bind {A B} (m : AM A) (k : A -> AM B) : AM B :=
  fun s => match m s with
           | (s', Ok a) => k a s'
           | (s', Err e) => (s', Err e)
           end.

Notation "x <~ m ;; k" := (tx_bind m (fun x => k))
  (at level 100, m at next level, right associativity) : kat_scope.
Notation "x <== m ;; k" := (am_bind m (fun x => k))
  (at level 100, m at next level, right associativity) : kat_scope.

Section AllocationEngine.
Context (fault : nat -> Fault) (fee : FeeConfig) (instance_id : string) (now : Z).
Context {classifier : TierClassifier}.

Definition am_call {A} (m : TX A) : AM A :=
  fun s =>
    let '(d, n) := s in
    match fault n with
    | FailBefore => ((d, S n), Err (AeSqlx Connection))
    | NoFault =>
        match m d with
        | Ok (a, d') => ((d', S n), Ok a)
        | Err e => ((d, S n), Err e)
        end
    | FailAfter =>
        match m d with
        | Ok (_, d') => ((d', S n), Err (AeSqlx Connection))
        | Err e => ((d, S n), Err e)
        end
    end.

(** A domain address from a stored one. *)
Definition lookup_wallet_addr (wallet_id : Z) : TX text :=
  fun d =>
    match List.find (fun w => w_id w =? wallet_id) (db_wallets d) with
    | None => Err (AeSqlx NotFound)
    | Some w => match WalletAddress_new (lit (w_address w)) with
                | Ok a => Ok (a, d)
                | Err _ => Err (InvalidWalletAddress (w_address w))
                end
    end.

Definition tier_or_standard (r : result WalletTier ClassifierError) : WalletTier :=
  match r with Ok t => t | Err _ => Standard end.

Fixpoint classify_all (windows : list ShareWindow) : AM (list WalletTier) :=
  match windows with
  | [] => am_ret []
  | w :: windows =>
      addr <== am_call (lookup_wallet_addr (sw_wallet_id w)) ;;
      rest <== classify_all windows ;;
      am_ret (tier_or_standard (classify addr) :: rest)
  end.

Fixpoint compute_all (rows : list (Z * WalletTier)) : result (list Allocation) AllocationError :=
  match rows with
  | [] => Ok []
  | (gross, tier) :: rows =>
      let? a := compute_allocation fee gross tier in
      let? rest := compute_all rows in
      Ok (a :: rest)
  end.

(** [i16::try_from(..).unwrap_or(i16::MAX)]. *)
Definition to_i16 (z : Z) : Z := if z <=? i16_max then z else i16_max.

Definition db_tier (t : WalletTier) : WalletTier :=
  match t with Standard => Standard | Elite => Elite end.

Definition new_allocation (total_weight : f64) (w : ShareWindow) (a : Allocation) : NewAllocation :=
  mkNewAllocation (sw_wallet_id w) (sw_total_weight w) total_weight (gross_sompi a)
    (pool_fee_sompi a) (nacho_accrual_sompi a) (net_payout_sompi a)
    (to_i16 (applied_topline_bps a)) (to_i16 (applied_rebate_bps a)) (db_tier (applied_tier a)).

(** Rebates of the rows that accrue any. *)
Fixpoint accrue_all (rows : list (ShareWindow * Allocation)) : TX unit :=
  match rows with
  | [] => tx_ret tt
  | (w, a) :: rows =>
      if 0 <? nacho_accrual_sompi a
      then _ <~ tx_db (accrue (sw_wallet_id w) (nacho_accrual_sompi a)) ;; accrue_all rows
      else accrue_all rows
  end.

(** The final transaction: lock, gate, book, stamp, audit. *)
Definition book (reward_id reward_sompi residue : Z) (total_weight : f64)
    (windows : list ShareWindow) (allocations : list Allocation) : TX AllocationOutcome :=
  row <~ tx_db (lock_for_allocation reward_id) ;;
  match row with
  | None => tx_fail (UnknownReward reward_id)
  | Some r =>
      if bool_decide (is_Some (cr_allocated_at r)) then tx_ret AlreadyAllocated else
      _ <~ tx_db (insert_batch reward_id (zip_with (new_allocation total_weight) windows allocations)) ;;
      _ <~ accrue_all (zip windows allocations) ;;
      _ <~ tx_db (mark_allocated reward_id) ;;
      let t := sum_totals allocations in
      _ <~ tx_db (audit_append
             (ne_with_payload
                [("coinbase_reward_id", JNum reward_id); ("reward_sompi", JNum reward_sompi);
                 ("wallet_count", JNum (Z.of_nat (length windows)));
                 ("total_pool_fee_sompi", JNum (tt_pool_fee t));
                 ("total_nacho_accrual_sompi", JNum (tt_nacho t));
                 ("total_net_payout_sompi", JNum (tt_net t));
                 ("rounding_residue_sompi", JNum residue);
                 ("applied_topline_bps", JNum (topline_bps fee))]%string
                (ne_subject "coinbase_reward" reward_id
                   (NewEntry_new instance_id "coinbase_reward.allocated")))) ;;
      tx_ret (Allocated (Z.of_nat (length windows)) (tt_net t) (tt_nacho t) (tt_pool_fee t) residue)
  end.

Definition finalise_empty (reward_id reward : Z) : TX AllocationOutcome :=
  row <~ tx_db (lock_for_allocation reward_id) ;;
  match row with
  | None => tx_fail (UnknownReward reward_id)
  | Some r =>
      if bool_decide (is_Some (cr_allocated_at r)) then tx_ret AlreadyAllocated else
      _ <~ tx_db (mark_allocated reward_id) ;;
      _ <~ tx_db (audit_append
             (ne_with_payload
                [("coinbase_reward_id", JNum reward_id); ("reward_sompi", JNum reward);
                 ("note", JStr "no contributing wallets in share window; reward retained by pool")]%string
                (ne_subject "coinbase_reward" reward_id
                   (NewEntry_new instance_id "coinbase_reward.allocated_empty")))) ;;
      tx_ret (NoContributingWallets reward)
  end.

Definition allocate_coinbase_reward (reward_id reward_sompi daa_start daa_end : Z)
  : AM AllocationOutcome :=
  if reward_sompi <? 0 then am_fail (AeMath (NegativeGross reward_sompi)) else
  _ <== am_call (tx_db (close_window daa_start daa_end now)) ;;
  windows <== am_call (tx_db (list_for_window daa_start daa_end)) ;;
  match windows with
  | [] => am_call (finalise_empty reward_id reward_sompi)
  | _ =>
      let total_weight := f64_sum (map sw_total_weight windows) in
      if negb (f64_is_finite total_weight) || f64_leb total_weight f64_zero
      then am_fail (InvalidWindowWeight total_weight) else
      let grosses := map (fun w => pro_rate reward_sompi (sw_total_weight w) total_weight) windows in
      match sum_i64 grosses with
      | None => am_fail AePanic
      | Some summed =>
          let residue := sat_i64 (reward_sompi - summed) in
          let grosses := award_residue (map sw_wallet_id windows) grosses residue in
          tiers <== classify_all windows ;;
          match compute_all (zip grosses tiers) with
          | Err e => am_fail (AeMath e)
          | Ok allocations =>
              am_call (book reward_id reward_sompi residue total_weight windows allocations)
          end
      end
  end.
End AllocationEngine.
