(* ===== verification/WindowSpec.v ===== *)
(** * What closing a share window leaves in the table ([accountant/src/window.rs])

    The rows of the closed window are those of the wallets that submitted a share in
    it, each with the sum of its shares' difficulties, and the rows an earlier close
    of the same window left for other wallets. *)
From S2P Require Import Prelude F64 FeeModel Schema PayoutDb Domain AccountDb Allocation.
Open Scope Z_scope.

(** ** What the shares say *)

(** [i64] bounds of a window: the casts of its [u64] bounds. *)
Definition in_daa_range (a b score : Z) : Prop := as_i64 a <= score < as_i64 b.

(** A wallet submitted a share in the window. *)
Definition contributes (d : Db) (a b wallet : Z) : Prop :=
  exists s, In s (db_shares d) /\ sh_wallet_id s = wallet /\ in_daa_range a b (sh_daa_score s).

(** The difficulties of a wallet's shares in the window, in table order. *)
Definition difficulties (d : Db) (a b wallet : Z) : list f64 :=
  map sh_difficulty
    (List.filter (fun s => (sh_wallet_id s =? wallet) && share_in_range a b s) (db_shares d)).

(** An earlier close left a row of the same window. *)
Definition has_window (d : Db) (a b wallet : Z) : Prop :=
  exists x, In x (db_windows d) /\ sw_wallet_id x = wallet /\
            sw_daa_start x = as_i64 a /\ sw_daa_end x = as_i64 b.

Lemma share_in_range_spec a b s : share_in_range a b s = true <-> in_daa_range a b (sh_daa_score s).
Proof. unfold share_in_range, in_daa_range. rewrite andb_true_iff. lia. Qed.

Lemma In_dedup x l : In x (dedup l) <-> In x l.
Proof.
  split; [apply dedup_In|]. induction l as [|y l IH]; simpl; [done|].
  intros [->|H]; [by left|]. destruct (Z.eq_dec x y) as [->|Hn]; [by left|right].
  apply filter_In. split; [auto|]. apply negb_true_iff, Z.eqb_neq, Hn.
Qed.

Lemma contributors_spec d a b w : In w (contributors d a b) <-> contributes d a b w.
Proof.
  unfold contributors, contributes. rewrite In_dedup, in_map_iff.
  setoid_rewrite filter_In. setoid_rewrite share_in_range_spec.
  split; intros (s & H); exists s; tauto.
Qed.

(** A contributor has at least one share, so its sum is a value. *)
Lemma contributor_sum d a b w o :
  contributes d a b w -> pg_sum (difficulties d a b w) = Ok o -> exists x, o = Some x.
Proof.
  intros (s & Hs & <- & R) H. unfold difficulties in H.
  destruct (List.filter _ (db_shares d)) as [|y l] eqn:F.
  - exfalso. assert (In s []) as []. rewrite <- F. apply filter_In. split; [exact Hs|].
    now rewrite Z.eqb_refl, (proj2 (share_in_range_spec a b s) R).
  - simpl in H. apply rbind_ok in H as (r & _ & [= <-]). eauto.
Qed.

(** ** The rows of a window *)

Section Close.
Context (a b : Z).

Definition window_rows (d : Db) : list ShareWindow := List.filter (in_window a b) (db_windows d).

Lemma has_window_rows d w : has_window d a b w <-> In w (map sw_wallet_id (window_rows d)).
Proof.
  unfold has_window, window_rows, in_window. rewrite in_map_iff.
  setoid_rewrite filter_In. setoid_rewrite andb_true_iff. setoid_rewrite Z.eqb_eq.
  split; intros (x & H); exists x; tauto.
Qed.

Definition carries (w x : ShareWindow) : Prop :=
  sw_wallet_id x = sw_wallet_id w /\ sw_total_weight x = sw_total_weight w /\
  sw_share_count x = sw_share_count w.

Lemma same_window_here w x :
  in_window a b w = true ->
  same_window (sw_wallet_id w) (sw_daa_start w) (sw_daa_end w) x
  = (sw_wallet_id x =? sw_wallet_id w) && in_window a b x.
Proof.
  unfold in_window, same_window. intros [E1 E2]%andb_prop. apply Z.eqb_eq in E1, E2.
  rewrite E1, E2. now rewrite <- andb_assoc.
Qed.

(** Upserting one rollup: its wallet has the rollup's figures, every other row of the
    window is as before. *)
Lemma upsert_window_rows w d d' :
  in_window a b w = true -> upsert_window w d = Ok (tt, d') ->
  (forall x, In x (window_rows d') ->
     carries w x \/ (sw_wallet_id x <> sw_wallet_id w /\ In x (window_rows d))) /\
  (forall i, In i (map sw_wallet_id (window_rows d')) <->
     i = sw_wallet_id w \/ In i (map sw_wallet_id (window_rows d))).
Proof.
  intros Hw. unfold upsert_window, window_rows. destruct (negb _); [discriminate|].
  destruct (List.find _ _) as [x0|] eqn:F.
  - destruct (tbl_update _ _ _ _) as [[rows n]|] eqn:T; [|discriminate]. intros [= <-].
    apply tbl_update_ok in T as [-> _]. simpl.
    apply find_some in F as [Hin0 E0]. rewrite same_window_here in E0 by done.
    apply andb_prop in E0 as [E0 I0]. apply Z.eqb_eq in E0.
    split.
    + intros x [Hx Ix]%filter_In. apply in_map_iff in Hx as (y & <- & Hy).
      destruct (same_window _ _ _ y) eqn:E; rewrite same_window_here in E by done.
      * left. apply andb_prop in E as [E _]. apply Z.eqb_eq in E. repeat split; auto.
      * right. rewrite Ix, andb_true_r in E. apply Z.eqb_neq in E. split; [done|].
        apply filter_In. auto.
    + intros i. rewrite !in_map_iff. split.
      * intros (x & <- & [Hx Ix]%filter_In). apply in_map_iff in Hx as (y & <- & Hy). right.
        exists y. destruct (same_window _ _ _ y) eqn:E;
          (split; [done|]); apply filter_In; (split; [done|]); [|done].
        rewrite same_window_here in E by done. now apply andb_prop in E as [_ ->].
      * intros H. assert (exists y, sw_wallet_id y = i /\ In y (db_windows d) /\ in_window a b y = true)
          as (y & <- & Hy & Iy).
        { destruct H as [->|(y & <- & [? ?]%filter_In)]; eauto. }
        eexists. split; [|apply filter_In; split; [apply in_map, Hy|]];
          destruct (same_window _ _ _ y); auto.
  - intros [= <-]. simpl. rewrite List.filter_app. simpl.
    change (in_window a b (mkWindow _ _ _ _ _ _ _ _)) with (in_window a b w). rewrite Hw.
    split.
    + intros x [Hx|[<-|[]]]%in_app_iff; [right|left; repeat split].
      split; [|done]. apply filter_In in Hx as [Hx Ix]. intros E.
      pose proof (find_none _ _ F x Hx) as N. rewrite same_window_here, Ix, E, Z.eqb_refl in N by done.
      discriminate N.
    + intros i. rewrite map_app, in_app_iff. simpl. intuition auto.
Qed.

Lemma upsert_all_rows rows : forall d d',
  Forall (fun w => in_window a b w = true) rows -> db_iter upsert_window rows d = Ok (tt, d') ->
  (forall x, In x (window_rows d') ->
     (exists w, In w rows /\ carries w x) \/
     (~ In (sw_wallet_id x) (map sw_wallet_id rows) /\ In x (window_rows d))) /\
  (forall i, In i (map sw_wallet_id (window_rows d')) <->
     In i (map sw_wallet_id rows) \/ In i (map sw_wallet_id (window_rows d))).
Proof.
  induction rows as [|w rows IH]; intros d d' F H; simpl in H.
  - unfold db_ret in H. injection H as <-. simpl. split; [auto|]. tauto.
  - inversion F as [|? ? Fw F']; subst. apply db_bind_ok in H as ([] & d1 & H1 & H2).
    destruct (upsert_window_rows w d d1 Fw H1) as [U1 U2]. destruct (IH d1 d' F' H2) as [I1 I2].
    split.
    + intros x Hx. destruct (I1 x Hx) as [(w' & Hw & C)|[N H]]; [left; exists w'; simpl; auto|].
      destruct (U1 x H) as [C|[N' H']]; [left; exists w; simpl; auto|right].
      simpl. split; [|done]. intros [E|E]; [congruence|contradiction].
    + intros i. rewrite I2, U2. simpl. intuition congruence.
Qed.

Lemma rollups_spec d now wallets rows :
  rollups d a b now wallets = Ok rows ->
  map sw_wallet_id rows = wallets /\
  Forall (fun w => in_window a b w = true /\ exists o, pg_sum (difficulties d a b (sw_wallet_id w)) = Ok o /\
            sw_total_weight w = match o with Some x => x | None => f64_zero end) rows.
Proof.
  revert rows. induction wallets as [|i wallets IH]; simpl; intros rows H.
  - injection H as <-. split; [done|constructor].
  - apply rbind_ok in H as (row & H1 & H). apply rbind_ok in H as (rest & H2 & H).
    injection H as <-. destruct (IH rest H2) as [E F].
    unfold rollup in H1. apply rbind_ok in H1 as (o & Ho & H1). injection H1 as <-.
    simpl. split; [congruence|]. constructor; [|exact F]. unfold in_window. simpl.
    rewrite !Z.eqb_refl. split; [done|]. exists o. split; [exact Ho|done].
Qed.

(** Closing a window: its rows are those of the contributing wallets, each with the
    sum of its shares' difficulties, and those an earlier close left. *)
Lemma close_window_rows now d o d' :
  close_window a b now d = Ok (o, d') ->
  (forall i, In i (map sw_wallet_id (window_rows d')) <-> contributes d a b i \/ has_window d a b i) /\
  (forall x, In x (window_rows d') -> contributes d a b (sw_wallet_id x) ->
     pg_sum (difficulties d a b (sw_wallet_id x)) = Ok (Some (sw_total_weight x))).
Proof.
  unfold close_window. destruct (b <=? a); [discriminate|]. intros H.
  apply db_bind_ok in H as (rows & d0 & H0 & H). unfold db_read_checked in H0.
  destruct (rollups d a b now (contributors d a b)) as [rs|] eqn:R; [|discriminate].
  injection H0 as <- <-.
  apply db_bind_ok in H as ([] & d1 & H1 & H). apply db_bind_ok in H as (t & d2 & H2 & H).
  apply db_read_checked_same in H2 as <-. unfold db_ret in H. injection H as _ <-.
  destruct (rollups_spec _ _ _ _ R) as [Ei F].
  destruct (upsert_all_rows rs d d1) as [U1 U2]; [|exact H1|].
  { eapply Forall_impl; [exact F|]. now intros w [? _]. }
  rewrite Ei in U1, U2. split.
  - intros i. now rewrite U2, contributors_spec, has_window_rows.
  - intros x Hx C. destruct (U1 x Hx) as [(w & Hw & E1 & E2 & _)|[N _]];
      [|now rewrite contributors_spec in N].
    rewrite List.Forall_forall in F. destruct (F w Hw) as (_ & o' & Ho & Ew).
    rewrite <- E1 in Ho. destruct (contributor_sum _ _ _ _ _ C Ho) as [y ->].
    rewrite Ho, E2, Ew. done.
Qed.
End Close.
