(* ===== verification/AllocationSpec.v ===== *)
(** * What PROP allocation promises

    Every coinbase reward is distributed to the last sompi, at most once, in
    every history of allocation calls with any database faults. *)
From stdpp Require Import pretty relations.
From Stdlib Require Import SpecFloat.
From S2P Require Import Prelude F64 FeeModel Schema PayoutDb Domain AccountDb Allocation WindowSpec.
Open Scope Z_scope.

(** ** The residue *)

Lemma pro_rate_nonneg reward w t : 0 <= reward -> 0 <= pro_rate reward w t.
Proof.
  intros H. unfold pro_rate. destruct (_ || _); [done|]. cbv zeta.
  destruct (f64_leb (f64_floor _) f64_zero) eqn:E; [done|].
  destruct (f64_leb (f64_of_Z reward) _); [done|]. now apply f64_as_i64_pos_nonneg.
Qed.

Lemma residue_index_lt ids : ids <> [] -> exists i, residue_index ids = Some i /\ (i < length ids)%nat.
Proof.
  intros H. unfold residue_index. set (le := fun i j : nat => _).
  assert (length (sort_by le (seq 0 (length ids))) = length ids) as L
    by now rewrite sort_by_length, length_seq.
  destruct (sort_by le (seq 0 (length ids))) as [|i l] eqn:E.
  { destruct ids; [done|discriminate L]. }
  exists i. split; [done|].
  assert (In i (sort_by le (seq 0 (length ids)))) as Hi by (rewrite E; now left).
  rewrite sort_by_In, in_seq in Hi. lia.
Qed.

Lemma sumZ_alter f i l x :
  l !! i = Some x -> sumZ (alter f i l) = sumZ l - x + f x.
Proof.
  revert i. induction l as [|y l IH]; intros [|i] H; simpl in *; try discriminate.
  - injection H as ->. lia.
  - specialize (IH i H). unfold alter in IH |- *. simpl. rewrite IH. lia.
Qed.

(** Awarding the residue makes the shares sum to the reward exactly. *)
Lemma award_residue_sum ids grosses summed reward :
  ids <> [] -> length grosses = length ids -> Forall (fun g => 0 <= g) grosses ->
  sum_i64 grosses = Some summed -> 0 <= reward <= i64_max ->
  sumZ (award_residue ids grosses (sat_i64 (reward - summed))) = reward.
Proof.
  intros Hn Hl Hp Hs Hr. destruct (residue_index_lt ids Hn) as (i & Ei & Hi).
  unfold award_residue. rewrite Ei.
  destruct (lookup_lt_is_Some_2 grosses i) as [g Hg]; [lia|].
  pose proof (sum_i64_range _ _ Hs) as R. apply sum_i64_Some in Hs. subst summed.
  rewrite (sumZ_alter _ _ _ _ Hg).
  assert (0 <= g <= sumZ grosses) as Hgb.
  { apply list_elem_of_lookup_2, list_elem_of_In in Hg. split; [|now apply sumZ_elem_le].
    rewrite List.Forall_forall in Hp. auto. }
  unfold in_i64, i64_min, i64_max in *.
  rewrite (sat_i64_id (reward - sumZ grosses)) by (unfold in_i64, i64_min, i64_max; lia).
  rewrite sat_i64_id by (unfold in_i64, i64_min, i64_max; lia). lia.
Qed.

Lemma award_residue_length ids grosses r : length (award_residue ids grosses r) = length grosses.
Proof. unfold award_residue. destruct (residue_index ids); [apply length_alter|done]. Qed.

(** The residue goes to the smallest wallet id. *)
Lemma residue_index_smallest ids i k :
  residue_index ids = Some i -> (k < length ids)%nat -> List.nth i ids i64_max <= List.nth k ids i64_max.
Proof.
  unfold residue_index. set (le := fun i j : nat => _). intros E Hk.
  assert (In k (sort_by le (seq 0 (length ids)))) as Hin by (rewrite sort_by_In, in_seq; lia).
  assert (StronglySorted (fun a b => le a b = true) (sort_by le (seq 0 (length ids)))) as S.
  { apply sort_by_sorted; unfold le; intros *; rewrite ?Z.leb_le; lia. }
  destruct (sort_by le (seq 0 (length ids))) as [|j l]; [discriminate E|]. injection E as ->.
  destruct Hin as [->|Hin]; [lia|]. inversion S as [|? ? _ F]; subst.
  rewrite List.Forall_forall in F. apply F in Hin. now apply Z.leb_le.
Qed.

(** Every other share is what pro-rating gave. *)
Lemma award_residue_other ids grosses residue k j x y :
  NoDup ids -> ids !! k = Some x -> ids !! j = Some y -> y < x ->
  award_residue ids grosses residue !! k = grosses !! k.
Proof.
  intros N Hk Hj Hlt. unfold award_residue. destruct (residue_index ids) as [i|] eqn:E; [|done].
  apply lookup_lt_Some in Hj as Lj. pose proof (residue_index_smallest ids i j E Lj) as Hi.
  rewrite (nth_lookup_Some _ _ _ _ Hj) in Hi. destruct (decide (i = k)) as [->|Hne].
  - rewrite (nth_lookup_Some _ _ _ _ Hk) in Hi. lia.
  - apply list_lookup_alter_ne; lia.
Qed.

(** ** The computed rows *)

Section Rows.
Context (fee : FeeConfig).

Lemma compute_all_spec rows allocs :
  compute_all fee rows = Ok allocs ->
  map gross_sompi allocs = map fst rows /\ Forall (fun a => is_balanced a = true) allocs /\
  (fee_config_ok fee -> Forall (fun a => 0 <= pool_fee_sompi a /\ 0 <= nacho_accrual_sompi a /\
                                         0 <= net_payout_sompi a) allocs).
Proof.
  revert allocs. induction rows as [|[g t] rows IH]; simpl; intros allocs H.
  - inv_eqs. repeat split; constructor.
  - apply rbind_ok in H as (a & Ha & H). apply rbind_ok in H as (rest & Hr & H). inv_eqs.
    destruct (IH rest Hr) as (E & B & N). destruct (compute_allocation_balanced _ _ _ _ Ha) as [Eg Bg].
    simpl. split; [congruence|]. split; [now constructor|]. intros Hf.
    constructor; [|auto]. destruct (compute_allocation_nonneg _ _ _ _ Hf Ha) as (? & ? & ? & _). auto.
Qed.
End Rows.

Lemma balanced_sums l :
  Forall (fun a => is_balanced a = true) l ->
  sumZ (map gross_sompi l)
  = sumZ (map pool_fee_sompi l) + sumZ (map nacho_accrual_sompi l) + sumZ (map net_payout_sompi l).
Proof.
  induction 1 as [|a l Ha _ IH]; simpl; [done|]. unfold is_balanced in Ha. apply Z.eqb_eq in Ha. lia.
Qed.

(** Totals do not saturate when they fit. *)
Lemma sum_totals_from t l :
  Forall (fun a => 0 <= pool_fee_sompi a /\ 0 <= nacho_accrual_sompi a /\ 0 <= net_payout_sompi a) l ->
  0 <= tt_pool_fee t -> 0 <= tt_nacho t -> 0 <= tt_net t ->
  tt_pool_fee t + sumZ (map pool_fee_sompi l) <= i64_max ->
  tt_nacho t + sumZ (map nacho_accrual_sompi l) <= i64_max ->
  tt_net t + sumZ (map net_payout_sompi l) <= i64_max ->
  fold_left (fun t a => mkTotals3 (sat_i64 (tt_pool_fee t + pool_fee_sompi a))
                          (sat_i64 (tt_nacho t + nacho_accrual_sompi a))
                          (sat_i64 (tt_net t + net_payout_sompi a))) l t
  = mkTotals3 (tt_pool_fee t + sumZ (map pool_fee_sompi l))
      (tt_nacho t + sumZ (map nacho_accrual_sompi l)) (tt_net t + sumZ (map net_payout_sompi l)).
Proof.
  intros F. revert t. induction F as [|a l (H1 & H2 & H3) F IH]; simpl; intros t T1 T2 T3 B1 B2 B3.
  - rewrite !Z.add_0_r. now destruct t.
  - assert (0 <= sumZ (map pool_fee_sompi l) /\ 0 <= sumZ (map nacho_accrual_sompi l) /\
            0 <= sumZ (map net_payout_sompi l)) as (N1 & N2 & N3).
    { repeat split; apply sumZ_nonneg, Forall_map; (eapply Forall_impl; [exact F|]); simpl; tauto. }
    unfold i64_max in *.
    rewrite !sat_i64_id by (unfold in_i64, i64_min, i64_max; lia).
    rewrite IH; simpl; try lia. f_equal; lia.
Qed.

Lemma sum_totals_exact l reward :
  Forall (fun a => 0 <= pool_fee_sompi a /\ 0 <= nacho_accrual_sompi a /\ 0 <= net_payout_sompi a) l ->
  Forall (fun a => is_balanced a = true) l -> sumZ (map gross_sompi l) = reward -> reward <= i64_max ->
  sum_totals l = mkTotals3 (sumZ (map pool_fee_sompi l)) (sumZ (map nacho_accrual_sompi l))
                   (sumZ (map net_payout_sompi l)).
Proof.
  intros N B E H. pose proof (balanced_sums l B) as S.
  assert (0 <= sumZ (map pool_fee_sompi l) /\ 0 <= sumZ (map nacho_accrual_sompi l) /\
          0 <= sumZ (map net_payout_sompi l)) as (N1 & N2 & N3).
  { repeat split; apply sumZ_nonneg, Forall_map; (eapply Forall_impl; [exact N|]); simpl; tauto. }
  unfold sum_totals. rewrite sum_totals_from; simpl; auto; lia.
Qed.

(** ** What each phase leaves alone *)

(** What accounting never writes. *)
Definition outside (d : Db) :=
  (db_now d, db_wallets d, db_shares d, db_cycles d, db_payouts d, db_krc20 d, db_meta d,
   (db_workers d, db_rejects d, db_sessions d, db_blocks d)).

(** The accounting tables other than [share_window]. *)
Record books_same (d d' : Db) : Prop := {
  bs_allocations : db_allocations d' = db_allocations d;
  bs_rewards : db_rewards d' = db_rewards d;
  bs_rebates : db_rebates d' = db_rebates d;
  bs_audit : db_audit d' = db_audit d;
  bs_seq : db_seq d <= db_seq d';
  bs_outside : outside d' = outside d
}.

Lemma books_same_refl d : books_same d d.
Proof. split; auto; lia. Qed.
Lemma books_same_trans d1 d2 d3 : books_same d1 d2 -> books_same d2 d3 -> books_same d1 d3.
Proof. intros [] []. split; try congruence; lia. Qed.

Lemma upsert_window_books w d d' : upsert_window w d = Ok (tt, d') -> books_same d d'.
Proof.
  unfold upsert_window. intros H. repeat break_match_in H; inv_eqs; try discriminate;
    split; simpl; auto; lia.
Qed.

Lemma db_iter_books {A} (f : A -> DB unit) l :
  (forall x d d', f x d = Ok (tt, d') -> books_same d d') ->
  forall d d', db_iter f l d = Ok (tt, d') -> books_same d d'.
Proof.
  intros Hf. induction l as [|x l IH]; simpl; intros d d' H.
  - unfold db_ret in H. inv_eqs. apply books_same_refl.
  - apply db_bind_ok in H as ([] & d1 & H1 & H2). eauto using books_same_trans.
Qed.

Lemma close_window_books a b now d o d' : close_window a b now d = Ok (o, d') -> books_same d d'.
Proof.
  unfold close_window. destruct (b <=? a); [discriminate|]. intros H.
  apply db_bind_ok in H as (rows & d0 & H0 & H). apply db_read_checked_same in H0 as <-.
  apply db_bind_ok in H as ([] & d1 & H1 & H). apply db_bind_ok in H as (t & d2 & H2 & H).
  apply db_read_checked_same in H2 as <-. unfold db_ret in H. inv_eqs.
  apply db_iter_books in H1; [exact H1|apply upsert_window_books].
Qed.

(** The engine's reads never change the database. *)
Lemma lookup_same wid d a d' : lookup_wallet_addr wid d = Ok (a, d') -> d' = d.
Proof. unfold lookup_wallet_addr. intros H. repeat break_match_in H; now inv_eqs. Qed.

Section Run.
Context (fault : nat -> Fault) (fee : FeeConfig) (instance_id : string) (now : Z).
Context {classifier : TierClassifier}.

(** A call ends in the state before it or the state after it; it returns a value
    only from the latter. *)
Lemma am_call_cases {A} (m : TX A) d n d' n' r :
  am_call fault m (d, n) = ((d', n'), r) ->
  (d' = d /\ exists e, r = Err e) \/
  (exists a, m d = Ok (a, d') /\ (r = Ok a \/ exists e, r = Err e)).
Proof.
  unfold am_call. intros H. destruct (fault n), (m d) as [[a d1]|e] eqn:E; inv_eqs; eauto 10.
Qed.

Lemma am_call_ok {A} (m : TX A) d n d' n' a :
  am_call fault m (d, n) = ((d', n'), Ok a) -> m d = Ok (a, d').
Proof.
  unfold am_call. destruct (fault n), (m d) as [[? ?]|] eqn:E; intros H; inv_eqs; done.
Qed.

Lemma classify_all_same ws : forall d n d' n' r,
  classify_all fault ws (d, n) = ((d', n'), r) ->
  d' = d /\ (forall ts, r = Ok ts -> length ts = length ws).
Proof.
  induction ws as [|w ws IH]; intros d n d' n' r H; simpl in H.
  - unfold am_ret in H. inv_eqs. split; [done|]. now intros ts [= <-].
  - unfold am_bind in H. destruct (am_call _ _ _) as [[d1 n1] r1] eqn:E1.
    assert (d1 = d) as ->.
    { destruct (am_call_cases _ _ _ _ _ _ E1) as [[-> _]|(a & Ha & _)]; [done|].
      now apply lookup_same in Ha. }
    destruct r1 as [addr|e]; [|inv_eqs; split; [done|discriminate]].
    destruct (classify_all _ ws _) as [[d2 n2] r2] eqn:E2.
    destruct (IH _ _ _ _ _ E2) as [-> L].
    destruct r2 as [ts|e]; unfold am_ret in H; inv_eqs; (split; [done|]); intros ts' E; inv_eqs.
    simpl. now rewrite (L ts eq_refl).
Qed.

(** What a run books: the rows of the window it closed, its total weight, and the
    pro-rated shares with the residue awarded. *)
Record computed (a b reward : Z) (d d1 : Db) (residue : Z) (total : f64)
    (ws : list ShareWindow) (allocs : list Allocation) : Prop := {
  cp_closed : exists o, close_window a b now d = Ok (o, d1);
  cp_windows : Permutation (window_rows a b d1) ws;
  cp_total : total = f64_sum (map sw_total_weight ws);
  cp_gross : map gross_sompi allocs
    = award_residue (map sw_wallet_id ws)
        (map (fun w => pro_rate reward (sw_total_weight w) total) ws) residue
}.

(** Everything a run of the engine can do to the books. *)
Inductive run_shape (a b : Z) (rid reward : Z) (d d' : Db) (r : result AllocationOutcome AllocationEngineError)
  : Prop :=
| RunNothing e : books_same d d' -> r = Err e -> run_shape a b rid reward d d' r
| RunEmpty d1 out :
    books_same d d1 -> finalise_empty instance_id rid reward d1 = Ok (out, d') ->
    (r = Ok out \/ exists e, r = Err e) -> run_shape a b rid reward d d' r
| RunBook d1 out residue total windows allocs :
    books_same d d1 -> computed a b reward d d1 residue total windows allocs ->
    length allocs = length windows ->
    sumZ (map gross_sompi allocs) = reward -> reward <= i64_max ->
    Forall (fun a => is_balanced a = true) allocs ->
    (fee_config_ok fee -> Forall (fun a => 0 <= pool_fee_sompi a /\ 0 <= nacho_accrual_sompi a /\
                                           0 <= net_payout_sompi a) allocs) ->
    book fee instance_id rid reward residue total windows allocs d1 = Ok (out, d') ->
    (r = Ok out \/ exists e, r = Err e) -> run_shape a b rid reward d d' r.

Lemma allocate_shape rid reward a b d n d' n' r :
  reward <= i64_max ->
  allocate_coinbase_reward fault fee instance_id now rid reward a b (d, n) = ((d', n'), r) ->
  run_shape a b rid reward d d' r.
Proof.
  intros Hm H. unfold allocate_coinbase_reward in H.
  destruct (Z.ltb_spec reward 0); [unfold am_fail in H; inv_eqs; eapply RunNothing; eauto using books_same_refl|].
  unfold am_bind at 1 in H. destruct (am_call _ (tx_db (close_window a b now)) _) as [[d1 n1] r1] eqn:E1.
  assert (books_same d d1) as B1.
  { destruct (am_call_cases _ _ _ _ _ _ E1) as [[-> _]|(o & Ho & _)]; [apply books_same_refl|].
    unfold tx_db in Ho. destruct (close_window a b now d) as [[o1 d2]|] eqn:C; [|discriminate].
    injection Ho as _ <-. eapply close_window_books, C. }
  destruct r1 as [o|e]; [|inv_eqs; eapply RunNothing; eauto].
  assert (close_window a b now d = Ok (o, d1)) as C1.
  { apply am_call_ok in E1. unfold tx_db in E1. destruct (close_window a b now d) as [[? ?]|]; simpl in E1; congruence. }
  unfold am_bind at 1 in H. destruct (am_call _ (tx_db (list_for_window a b)) _) as [[d2 n2] r2] eqn:E2.
  assert (d2 = d1) as ->.
  { destruct (am_call_cases _ _ _ _ _ _ E2) as [[-> _]|(ws & Hw & _)]; [done|].
    unfold tx_db, list_for_window, db_read in Hw. now injection Hw as _ <-. }
  destruct r2 as [ws|e]; [|inv_eqs; eapply RunNothing; eauto].
  assert (Permutation (window_rows a b d1) ws) as Pw.
  { apply am_call_ok in E2. unfold tx_db, list_for_window, db_read in E2. injection E2 as <-.
    apply sort_by_perm. }
  destruct ws as [|w0 ws'].
  { destruct (am_call_cases _ _ _ _ _ _ H) as [[-> [e ->]]|(out & Ho & Hr)];
      [eapply RunNothing; eauto|eapply RunEmpty; eauto]. }
  set (ws := w0 :: ws') in *. set (tw := f64_sum (map sw_total_weight ws)) in *.
  destruct (_ || _); [unfold am_fail in H; inv_eqs; eapply RunNothing; eauto|]. cbv zeta in H.
  set (gs := map (fun w => pro_rate reward (sw_total_weight w) tw) ws) in *.
  destruct (sum_i64 gs) as [summed|] eqn:S;
    [|unfold am_fail in H; inv_eqs; eapply RunNothing; eauto].
  set (gs' := award_residue (map sw_wallet_id ws) gs (sat_i64 (reward - summed))) in *.
  unfold am_bind in H. destruct (classify_all _ ws _) as [[d3 n3] r3] eqn:E3.
  destruct (classify_all_same _ _ _ _ _ _ E3) as [-> L].
  destruct r3 as [ts|e]; [|inv_eqs; eapply RunNothing; eauto].
  destruct (compute_all fee (zip gs' ts)) as [allocs|e] eqn:Ca;
    [|unfold am_fail in H; inv_eqs; eapply RunNothing; eauto].
  destruct (compute_all_spec _ _ _ Ca) as (Eg & Bal & Non).
  assert (length gs' = length ws) as Lg
    by (unfold gs', gs; now rewrite award_residue_length, length_map).
  assert (map fst (zip gs' ts) = gs') as Ez by (apply fst_zip; rewrite (L ts eq_refl); lia).
  rewrite Ez in Eg.
  destruct (am_call_cases _ _ _ _ _ _ H) as [[-> [e ->]]|(out & Ho & Hr)];
    [eapply RunNothing; eauto|].
  eapply RunBook; eauto; [split; eauto|..].
  - rewrite <- Lg, <- Eg. now rewrite length_map.
  - rewrite Eg. apply award_residue_sum; auto; try lia.
    + unfold gs. now rewrite !length_map.
    + apply Forall_map, List.Forall_forall. intros w _. now apply pro_rate_nonneg.
Qed.
End Run.

(** ** What booking a reward does *)

Definition reward_row (d : Db) (rid : Z) : option CoinbaseReward :=
  List.find (fun r => cr_id r =? rid) (db_rewards d).

(** A reward was open and is now stamped, with [new] as its allocations. *)
Record booked (rid : Z) (d d' : Db) (new : list ShareAllocation) : Prop := {
  bk_open : exists r, reward_row d rid = Some r /\ cr_allocated_at r = None;
  bk_rows : db_allocations d' = db_allocations d ++ new;
  bk_reward_id : Forall (fun a => sa_coinbase_reward_id a = rid) new;
  bk_unique : new = [] \/ NoDup (map allocation_key (db_allocations d'));
  bk_stamped : db_rewards d'
    = map (fun r => if cr_id r =? rid then stamp_allocated (db_now d) r else r) (db_rewards d);
  bk_seq : db_seq d <= db_seq d';
  bk_outside : outside d' = outside d
}.

Lemma tx_bind_ok {A B} (m : TX A) (k : A -> TX B) d b d' :
  tx_bind m k d = Ok (b, d') -> exists a d1, m d = Ok (a, d1) /\ k a d1 = Ok (b, d').
Proof. unfold tx_bind. destruct (m d) as [[a d1]|e]; [eauto|discriminate]. Qed.

Lemma tx_db_ok {A} (m : DB A) d a d' : tx_db m d = Ok (a, d') -> m d = Ok (a, d').
Proof. unfold tx_db. destruct (m d) as [[x d1]|e]; simpl; congruence. Qed.

Lemma insert_batch_ok rid rows d k d' :
  insert_batch rid rows d = Ok (k, d') ->
  exists new, db_allocations d' = db_allocations d ++ new /\
    new = imap (allocation_row d rid) rows /\ db_rewards d' = db_rewards d /\
    db_rebates d' = db_rebates d /\ db_now d' = db_now d /\ db_seq d <= db_seq d' /\
    outside d' = outside d /\ (new = [] \/ NoDup (map allocation_key (db_allocations d'))).
Proof.
  unfold insert_batch. destruct rows as [|a rows].
  - intros [= <- <-]. exists []. rewrite app_nil_r. auto 10 with lia.
  - destruct (List.find _ _); [discriminate|]. cbv zeta.
    set (new := imap _ _). destruct (negb _); [discriminate|].
    case_bool_decide as ND; [|discriminate]. intros [= <- <-]. exists new. simpl.
    repeat split; auto. lia.
Qed.

Lemma accrue_same w x d r d' :
  accrue w x d = Ok (r, d') ->
  db_allocations d' = db_allocations d /\ db_rewards d' = db_rewards d /\
  db_now d' = db_now d /\ db_seq d' = db_seq d /\ outside d' = outside d.
Proof.
  unfold accrue, insert_rebate, update_rebate. intros H. repeat break_match_in H; inv_eqs; auto.
Qed.

Lemma accrue_all_same rows : forall d d',
  accrue_all rows d = Ok (tt, d') ->
  db_allocations d' = db_allocations d /\ db_rewards d' = db_rewards d /\
  db_now d' = db_now d /\ db_seq d' = db_seq d /\ outside d' = outside d.
Proof.
  induction rows as [|[w a] rows IH]; simpl; intros d d' H.
  - unfold tx_ret in H. inv_eqs. auto.
  - destruct (0 <? nacho_accrual_sompi a); [|auto].
    apply tx_bind_ok in H as (r & d1 & H1 & H2). apply tx_db_ok, accrue_same in H1 as (E1 & E2 & E3 & E4 & E5).
    destruct (IH _ _ H2) as (F1 & F2 & F3 & F4 & F5). repeat split; congruence.
Qed.

Lemma mark_allocated_ok rid d d' :
  mark_allocated rid d = Ok (tt, d') ->
  d' = set_rewards (map (fun r => if cr_id r =? rid then stamp_allocated (db_now d) r else r)
                      (db_rewards d)) d.
Proof.
  unfold mark_allocated. destruct (tbl_update _ _ _ _) as [[rows k]|] eqn:T; [|discriminate].
  intros [= <-]. apply tbl_update_ok in T as [-> _]. done.
Qed.

Lemma audit_append_ok e d k d' :
  audit_append e d = Ok (k, d') ->
  db_allocations d' = db_allocations d /\ db_rewards d' = db_rewards d /\
  db_rebates d' = db_rebates d /\ db_seq d <= db_seq d' /\ outside d' = outside d.
Proof. unfold audit_append. intros [= <- <-]. simpl. repeat split; lia. Qed.

Lemma finalise_empty_ok inst rid reward d out d' :
  finalise_empty inst rid reward d = Ok (out, d') ->
  (out = AlreadyAllocated /\ d' = d /\
     exists r, reward_row d rid = Some r /\ is_Some (cr_allocated_at r)) \/
  (out = NoContributingWallets reward /\ booked rid d d' []).
Proof.
  unfold finalise_empty. intros H. apply tx_bind_ok in H as (row & d1 & H1 & H).
  apply tx_db_ok in H1. unfold lock_for_allocation, db_read in H1. injection H1 as <- <-.
  fold (reward_row d rid) in H. destruct (reward_row d rid) as [r|] eqn:R; [|discriminate].
  case_bool_decide as A; [left; unfold tx_ret in H; inv_eqs; eauto|right].
  apply tx_bind_ok in H as ([] & d2 & H2 & H). apply tx_db_ok, mark_allocated_ok in H2 as ->.
  apply tx_bind_ok in H as (k & d3 & H3 & H). apply tx_db_ok, audit_append_ok in H3 as (Ea & Er & _ & Es & Eo).
  unfold tx_ret in H. inv_eqs. split; [done|]. split; simpl in *.
  - exists r. split; [done|]. now apply eq_None_not_Some.
  - now rewrite app_nil_r.
  - constructor.
  - now left.
  - exact Er.
  - exact Es.
  - exact Eo.
Qed.

(** A column of the inserted rows is a column of the computed allocations. *)
Lemma imap_zip_with_map {A B C E D} (F : nat -> C -> E) (f : A -> B -> C) (g : E -> D) (h : B -> D) l k :
  (forall i a b, g (F i (f a b)) = h b) -> length k = length l ->
  map g (imap F (zip_with f l k)) = map h k.
Proof.
  revert F k. induction l as [|a l IH]; intros F [|b k] H L; try discriminate; [done|].
  simpl zip_with. rewrite imap_cons. simpl. rewrite H, (IH (F ∘ S)); auto.
  intros i x y. apply H.
Qed.

Lemma imap_zip_with_fst {A B C E D} (F : nat -> C -> E) (f : A -> B -> C) (g : E -> D) (h : A -> D) l k :
  (forall i a b, g (F i (f a b)) = h a) -> length k = length l ->
  map g (imap F (zip_with f l k)) = map h l.
Proof.
  revert F k. induction l as [|a l IH]; intros F [|b k] H L; try discriminate; [done|].
  simpl zip_with. rewrite imap_cons. simpl. rewrite H, (IH (F ∘ S)); auto.
  intros i x y. apply H.
Qed.

Section Book.
Context (fee : FeeConfig) (instance_id : string).

Lemma book_ok rid reward residue total ws allocs d out d' :
  length allocs = length ws ->
  book fee instance_id rid reward residue total ws allocs d = Ok (out, d') ->
  (out = AlreadyAllocated /\ d' = d /\
     exists r, reward_row d rid = Some r /\ is_Some (cr_allocated_at r)) \/
  (exists new, booked rid d d' new /\
     map sa_gross_share_sompi new = map gross_sompi allocs /\
     map sa_net_payout_sompi new = map net_payout_sompi allocs /\
     map sa_pool_fee_sompi new = map pool_fee_sompi allocs /\
     map sa_nacho_accrual_sompi new = map nacho_accrual_sompi allocs /\
     map sa_wallet_id new = map sw_wallet_id ws /\ map sa_weight new = map sw_total_weight ws /\
     map sa_window_total new = map (fun _ => total) ws /\
     let t := sum_totals allocs in
     out = Allocated (Z.of_nat (length ws)) (tt_net t) (tt_nacho t) (tt_pool_fee t) residue).
Proof.
  intros L H. unfold book in H. apply tx_bind_ok in H as (row & d1 & H1 & H).
  apply tx_db_ok in H1. unfold lock_for_allocation, db_read in H1. injection H1 as <- <-.
  fold (reward_row d rid) in H. destruct (reward_row d rid) as [r|] eqn:R; [|discriminate].
  case_bool_decide as A; [left; unfold tx_ret in H; inv_eqs; eauto|right].
  apply tx_bind_ok in H as (k & d2 & H2 & H).
  apply tx_db_ok, insert_batch_ok in H2 as (new & Ea & En & Er & _ & Enow & Es & Eo & U).
  apply tx_bind_ok in H as ([] & d3 & H3 & H). apply accrue_all_same in H3 as (Ea3 & Er3 & En3 & Es3 & Eo3).
  apply tx_bind_ok in H as ([] & d4 & H4 & H). apply tx_db_ok, mark_allocated_ok in H4 as ->.
  apply tx_bind_ok in H as (k2 & d5 & H5 & H). apply tx_db_ok, audit_append_ok in H5 as (Ea5 & Er5 & _ & Es5 & Eo5).
  unfold tx_ret in H. injection H as <- <-. exists new.
  simpl in Ea5, Er5, Es5. split; [split|].
  - exists r. split; [done|]. now apply eq_None_not_Some.
  - congruence.
  - rewrite En. apply List.Forall_forall. intros a Ha.
    apply list_elem_of_In, elem_of_lookup_imap in Ha as (i & x & -> & _). done.
  - destruct U as [->|U]; [now left|right]. congruence.
  - rewrite Er5, En3, Enow, Er3, Er. done.
  - lia.
  - rewrite Eo5, <- Eo, <- Eo3. done.
  - subst new. repeat split; (apply imap_zip_with_map || apply imap_zip_with_fst); done.
Qed.
End Book.

(** ** The allocation ledger *)

Definition allocs_of (d : Db) (rid : Z) : list ShareAllocation :=
  List.filter (fun a => sa_coinbase_reward_id a =? rid) (db_allocations d).

(** A reward is untouched or distributed to the last sompi; only stamped rewards
    have allocations. *)
Definition reward_exact (d : Db) (r : CoinbaseReward) : Prop :=
  (cr_allocated_at r = None -> allocs_of d (cr_id r) = []) /\
  (allocs_of d (cr_id r) = [] \/
   sumZ (map sa_gross_share_sompi (allocs_of d (cr_id r))) = cr_amount_sompi r).

Record alloc_wf (d : Db) : Prop := {
  aw_ids : List.NoDup (map cr_id (db_rewards d));
  aw_ids_lt : Forall (fun r => cr_id r < db_seq d) (db_rewards d);
  aw_known : Forall (fun a => sa_coinbase_reward_id a < db_seq d) (db_allocations d);
  aw_range : Forall (fun r => cr_amount_sompi r <= i64_max) (db_rewards d);
  aw_exact : Forall (reward_exact d) (db_rewards d)
}.

Lemma alloc_wf_same d d' :
  db_allocations d' = db_allocations d -> db_rewards d' = db_rewards d -> db_seq d <= db_seq d' ->
  alloc_wf d -> alloc_wf d'.
Proof.
  intros Ea Er Es [N L K R X]. unfold reward_exact, allocs_of in *. split; rewrite ?Ea, ?Er; auto.
  - eapply Forall_impl; [exact L|]. simpl. lia.
  - eapply Forall_impl; [exact K|]. simpl. lia.
  - eapply Forall_impl; [exact X|]. unfold reward_exact, allocs_of. now rewrite Ea.
Qed.

Lemma reward_row_unique d rid r r' :
  List.NoDup (map cr_id (db_rewards d)) -> reward_row d rid = Some r ->
  In r' (db_rewards d) -> cr_id r' = rid -> r' = r.
Proof.
  intros N R H E. apply find_some in R as [Hr Er]. apply Z.eqb_eq in Er.
  eapply NoDup_map_inj; [exact N|done|done|congruence].
Qed.

Lemma allocs_of_booked rid d d' new i :
  booked rid d d' new ->
  allocs_of d' i = allocs_of d i ++ (if i =? rid then new else []).
Proof.
  intros B. unfold allocs_of. rewrite (bk_rows _ _ _ _ B), List.filter_app. f_equal.
  pose proof (bk_reward_id _ _ _ _ B) as F. clear B.
  induction F as [|a l Ha _ IH]; simpl; [now destruct (i =? rid)|].
  rewrite Ha, (Z.eqb_sym rid i), IH. now destruct (i =? rid).
Qed.

Lemma booked_wf rid d d' new :
  alloc_wf d -> booked rid d d' new ->
  (forall r, reward_row d rid = Some r -> new = [] \/
     sumZ (map sa_gross_share_sompi new) = cr_amount_sompi r) ->
  alloc_wf d'.
Proof.
  intros [N L K R X] B Hnew. pose proof (bk_seq _ _ _ _ B) as Hs.
  destruct (bk_open _ _ _ _ B) as (r0 & R0 & O0).
  set (f := fun r => if cr_id r =? rid then stamp_allocated (db_now d) r else r).
  assert (forall r, cr_id (f r) = cr_id r /\ cr_amount_sompi (f r) = cr_amount_sompi r) as Hf.
  { intros r. unfold f. now destruct (cr_id r =? rid). }
  assert (db_rewards d' = map f (db_rewards d)) as Er by apply B.
  split; rewrite ?Er, ?(bk_rows _ _ _ _ B).
  - rewrite map_map, (map_ext _ cr_id); [exact N|]. intros r. apply Hf.
  - apply Forall_map. eapply Forall_impl; [exact L|]. intros r Hr. simpl in Hr |- *. rewrite (proj1 (Hf r)). lia.
  - apply Forall_app. split; [eapply Forall_impl; [exact K|]; simpl; lia|].
    eapply Forall_impl; [exact (bk_reward_id _ _ _ _ B)|]. simpl. intros a ->.
    apply find_some in R0 as [H0 E0]. apply Z.eqb_eq in E0. rewrite List.Forall_forall in L.
    specialize (L r0 H0). simpl in L. lia.
  - apply Forall_map. eapply Forall_impl; [exact R|]. intros r. simpl. now rewrite (proj2 (Hf r)).
  - apply Forall_map, List.Forall_forall. intros r Hr. rewrite List.Forall_forall in X.
    destruct (X r Hr) as [X1 X2]. unfold reward_exact. destruct (Hf r) as [-> ->].
    rewrite (allocs_of_booked _ _ _ _ _ B). unfold f.
    destruct (Z.eqb_spec (cr_id r) rid) as [E|E]; [|rewrite app_nil_r; auto].
    rewrite (reward_row_unique d rid r0 r N R0 Hr E) in *. rewrite (X1 O0). simpl.
    rewrite O0. split; [discriminate|]. apply (Hnew r0 R0).
Qed.


(** One event: discovering a matured coinbase output, an allocation run for a
    recorded reward (any window, configuration, classifier and faults), the final
    transaction of a run whose earlier reads happened before other events (its rows
    then carry the shares that run computed, which sum to the reward), or writes
    elsewhere in the database. *)
Inductive acct_step (d : Db) : Db -> Prop :=
| StepDiscover txid index amount daa x d' :
    amount <= i64_max -> coinbase_ensure txid index amount daa d = Ok (x, d') -> acct_step d d'
| StepAllocate fault fee inst now (classifier : TierClassifier) r a b n d' n' res :
    In r (db_rewards d) ->
    allocate_coinbase_reward fault fee inst now (cr_id r) (cr_amount_sompi r) a b (d, n)
      = ((d', n'), res) ->
    acct_step d d'
| StepBook fee inst r residue total ws al out d' :
    In r (db_rewards d) -> length al = length ws -> sumZ (map gross_sompi al) = cr_amount_sompi r ->
    book fee inst (cr_id r) (cr_amount_sompi r) residue total ws al d = Ok (out, d') -> acct_step d d'
| StepBookEmpty inst rid reward out d' :
    finalise_empty inst rid reward d = Ok (out, d') -> acct_step d d'
| StepElsewhere d' :
    db_allocations d' = db_allocations d -> db_rewards d' = db_rewards d -> db_seq d <= db_seq d' ->
    acct_step d d'.

Lemma discover_wf txid index amount daa d x d' :
  amount <= i64_max -> alloc_wf d -> coinbase_ensure txid index amount daa d = Ok (x, d') -> alloc_wf d'.
Proof.
  intros Ha W H. unfold coinbase_ensure in H. destruct (negb _); [discriminate|].
  destruct (List.find _ _); inv_eqs; [exact W|]. destruct W as [N L K R X]. split; simpl.
  - rewrite map_app. apply NoDup_app_snoc; [exact N|]. simpl. intros (r & Er & Hr)%in_map_iff.
    rewrite List.Forall_forall in L. specialize (L r Hr). simpl in L. lia.
  - apply Forall_app. split; [eapply Forall_impl; [exact L|]; simpl; lia|].
    repeat constructor. simpl. lia.
  - eapply Forall_impl; [exact K|]. simpl. lia.
  - apply Forall_app. split; [exact R|]. repeat constructor. exact Ha.
  - apply Forall_app. split; [exact X|]. repeat constructor; unfold reward_exact, allocs_of; simpl;
      intros; try left; apply filter_nil; intros a Hin; apply Z.eqb_neq;
      rewrite List.Forall_forall in K; specialize (K a Hin); simpl in K; lia.
Qed.

Lemma books_same_wf d d' : books_same d d' -> alloc_wf d -> alloc_wf d'.
Proof. intros [Ea Er _ _ Es]. now apply alloc_wf_same. Qed.

Lemma books_same_row d d' rid : books_same d d' -> reward_row d' rid = reward_row d rid.
Proof. intros B. unfold reward_row. now rewrite (bs_rewards _ _ B). Qed.

Lemma finalise_wf inst rid reward d out d' :
  alloc_wf d -> finalise_empty inst rid reward d = Ok (out, d') -> alloc_wf d'.
Proof.
  intros W F. destruct (finalise_empty_ok _ _ _ _ _ _ F) as [(_ & -> & _)|[_ K]]; [exact W|].
  apply (booked_wf _ _ _ _ W K). auto.
Qed.

Lemma book_wf fee inst r residue total ws al d out d' :
  alloc_wf d -> In r (db_rewards d) -> length al = length ws ->
  sumZ (map gross_sompi al) = cr_amount_sompi r ->
  book fee inst (cr_id r) (cr_amount_sompi r) residue total ws al d = Ok (out, d') -> alloc_wf d'.
Proof.
  intros W Hr L S Bk.
  destruct (book_ok _ _ _ _ _ _ _ _ _ _ _ L Bk) as [(_ & -> & _)|(new & K & Eg & _)]; [exact W|].
  apply (booked_wf _ _ _ _ W K). intros r' R'. right. rewrite Eg, S. f_equal.
  now apply (reward_row_unique d (cr_id r) r' r (aw_ids d W)).
Qed.

Lemma acct_step_wf d d' : acct_step d d' -> alloc_wf d -> alloc_wf d'.
Proof.
  intros H W. destruct H as [txid index amount daa x d' Ha H
    |fault fee inst now cl r a b n d' n' res Hr H| | |d' Ea Er Es];
    [eapply discover_wf; eauto| |eapply book_wf; eauto|eapply finalise_wf; eauto
    |now apply (alloc_wf_same d)].
  assert (cr_amount_sompi r <= i64_max) as Hm
    by (pose proof (aw_range d W) as R; rewrite List.Forall_forall in R; now apply R).
  destruct (allocate_shape _ _ _ _ _ _ _ _ _ _ _ _ _ Hm H)
    as [e B _|d1 out B F _|d1 out res0 tot ws al B CP L S _ Bal _ Bk _]; [now apply (books_same_wf d)|..];
    pose proof (books_same_wf _ _ B W) as W1; [eapply finalise_wf; eauto|].
  apply (book_wf fee inst r res0 tot ws al d1 out); auto. now rewrite (bs_rewards _ _ B).
Qed.

(** C10. Every coinbase reward is distributed to the last sompi, and at most once:
    in every history of discoveries, allocation runs (repeated, or interleaved so that
    a run's final transaction lands after other events; with any configuration,
    classifier answers and database faults) and other writes,
    the gross shares booked for a reward sum to exactly its amount or there are
    none, and a reward that is not stamped as allocated has none. *)
Theorem rewards_distributed_exactly d d' r :
  alloc_wf d -> rtc acct_step d d' -> In r (db_rewards d') ->
  (allocs_of d' (cr_id r) = [] \/
   sumZ (map sa_gross_share_sompi (allocs_of d' (cr_id r))) = cr_amount_sompi r) /\
  (cr_allocated_at r = None -> allocs_of d' (cr_id r) = []).
Proof.
  intros W S Hr. assert (alloc_wf d') as W'.
  { revert W. induction S; eauto using acct_step_wf. }
  pose proof (aw_exact d' W') as X. rewrite List.Forall_forall in X. destruct (X r Hr). auto.
Qed.

(** The rows of one booking: one per contributor, or per row an earlier close of the
    window left; each contributor's with the sum of its shares' difficulties, against
    the sum over all rows; and every row but that of the smallest wallet id with the
    pro-rated gross. *)
Record fair_rows (reward a b : Z) (d : Db) (new : list ShareAllocation) : Prop := {
  fr_once : NoDup (map sa_wallet_id new);
  fr_wallets : forall w, In w (map sa_wallet_id new) <-> contributes d a b w \/ has_window d a b w;
  fr_weight : forall x, In x new -> contributes d a b (sa_wallet_id x) ->
    pg_sum (difficulties d a b (sa_wallet_id x)) = Ok (Some (sa_weight x));
  fr_total : forall x, In x new -> sa_window_total x = f64_sum (map sa_weight new);
  fr_pro_rata : forall x y, In x new -> In y new -> sa_wallet_id y < sa_wallet_id x ->
    sa_gross_share_sompi x = pro_rate reward (sa_weight x) (sa_window_total x)
}.

Lemma booked_once rid d d' new : booked rid d d' new -> NoDup (map sa_wallet_id new).
Proof.
  intros K. destruct (bk_unique _ _ _ _ K) as [->|U]; [constructor|].
  rewrite (bk_rows _ _ _ _ K), map_app in U. apply NoDup_app in U as (_ & _ & U).
  pose proof (bk_reward_id _ _ _ _ K) as F.
  assert (map allocation_key new = map (pair rid) (map sa_wallet_id new)) as E.
  { rewrite map_map. apply map_ext_in. intros x Hx. rewrite List.Forall_forall in F.
    unfold allocation_key. now rewrite (F x Hx). }
  rewrite E in U. apply NoDup_ListNoDup. apply NoDup_ListNoDup, NoDup_map_inv in U. exact U.
Qed.

Lemma lookup_map_eq {A B C} (f : A -> C) (g : B -> C) l k i a :
  map f l = map g k -> l !! i = Some a -> exists b, k !! i = Some b /\ f a = g b.
Proof.
  intros E H. assert (map f l !! i = Some (f a)) as Hf by (now rewrite list_lookup_fmap, H).
  rewrite E in Hf. change (map g k) with (g <$> k) in Hf.
  apply list_lookup_fmap_Some in Hf as (b & -> & Hb). eauto.
Qed.

Lemma computed_fair now rid reward a b d d1 d' residue total ws al new :
  computed now a b reward d d1 residue total ws al -> booked rid d1 d' new ->
  map sa_gross_share_sompi new = map gross_sompi al ->
  map sa_wallet_id new = map sw_wallet_id ws -> map sa_weight new = map sw_total_weight ws ->
  map sa_window_total new = map (fun _ => total) ws ->
  fair_rows reward a b d new.
Proof.
  intros [[o C] P T G] K Eg Ei Ew Et. destruct (close_window_rows _ _ _ _ _ _ C) as [Hi Hw].
  assert (forall x, In x new -> exists i w, new !! i = Some x /\ ws !! i = Some w /\ In w (window_rows a b d1) /\
            sa_wallet_id x = sw_wallet_id w /\ sa_weight x = sw_total_weight w /\ sa_window_total x = total) as Row.
  { intros x Hx. apply list_elem_of_In, list_elem_of_lookup_1 in Hx as (i & Hx).
    destruct (lookup_map_eq _ _ _ _ _ _ Ei Hx) as (w & W & E1).
    destruct (lookup_map_eq _ _ _ _ _ _ Ew Hx) as (w2 & W2 & E2).
    destruct (lookup_map_eq _ _ _ _ _ _ Et Hx) as (w3 & W3 & E3).
    replace w2 with w in * by congruence. exists i, w. repeat split; auto.
    apply (Permutation_in _ (Permutation_sym P)), list_elem_of_In. now apply list_elem_of_lookup_2 in W. }
  pose proof (booked_once _ _ _ _ K) as N. split; [exact N| | | |].
  - intros w. rewrite Ei, <- Hi. split; apply Permutation_in, Permutation_map; [now symmetry|done].
  - intros x Hx Cx. destruct (Row x Hx) as (i & w & _ & _ & Hin & E1 & E2 & _).
    rewrite E1 in *. rewrite E2. now apply Hw.
  - intros x Hx. destruct (Row x Hx) as (i & w & _ & _ & _ & _ & _ & E3). now rewrite E3, T, Ew.
  - intros x y Hx Hy Hlt. destruct (Row x Hx) as (i & w & Xi & Wi & _ & E1 & E2 & E3).
    destruct (Row y Hy) as (j & wy & Yj & _).
    rewrite G in Eg. rewrite <- (map_id (award_residue _ _ _)) in Eg.
    destruct (lookup_map_eq _ _ _ _ _ _ Eg Xi) as (g & Hg & ->).
    rewrite <- Ei in Hg.
    rewrite (award_residue_other _ _ _ i j (sa_wallet_id x) (sa_wallet_id y) N) in Hg;
      [|now rewrite list_lookup_fmap, Xi|now rewrite list_lookup_fmap, Yj|done].
    change (map (fun w => pro_rate reward (sw_total_weight w) total) ws) with
      ((fun w => pro_rate reward (sw_total_weight w) total) <$> ws) in Hg.
    rewrite list_lookup_fmap, Wi in Hg. simpl in Hg. congruence.
Qed.

(** C11. A fresh allocation conserves money and pays every contributor: the run
    appends one row for each wallet with a share in the window (or with a row an
    earlier close of that window left), whose weight is the sum of the wallet's share
    difficulties and whose gross share is its pro-rated part of the reward, the
    smallest wallet id's taking the rounding residue; the gross shares sum to the
    reward; the reported count is the number of rows, the reported totals are the exact
    column sums and add up to the reward; no amount is negative; and the reward is
    stamped. *)
Theorem allocation_conserves fault fee inst now (classifier : TierClassifier)
    rid reward a b d n d' n' count net nacho pool residue :
  fee_config_ok fee -> reward <= i64_max ->
  allocate_coinbase_reward fault fee inst now rid reward a b (d, n)
    = ((d', n'), Ok (Allocated count net nacho pool residue)) ->
  exists new, db_allocations d' = db_allocations d ++ new /\
    fair_rows reward a b d new /\
    Z.of_nat (length new) = count /\
    Forall (fun x => sa_coinbase_reward_id x = rid /\ 0 <= sa_net_payout_sompi x /\
                     0 <= sa_nacho_accrual_sompi x /\ 0 <= sa_pool_fee_sompi x) new /\
    sumZ (map sa_gross_share_sompi new) = reward /\
    net = sumZ (map sa_net_payout_sompi new) /\ nacho = sumZ (map sa_nacho_accrual_sompi new) /\
    pool = sumZ (map sa_pool_fee_sompi new) /\ net + nacho + pool = reward /\
    (forall r, reward_row d' rid = Some r -> is_Some (cr_allocated_at r)).
Proof.
  intros Hf Hm H.
  destruct (allocate_shape _ _ _ _ _ _ _ _ _ _ _ _ _ Hm H)
    as [e _ E|d1 out B F [E|[e E]]|d1 out res0 tot ws al B CP L S _ Bal Non Bk [E|[e E]]];
    try discriminate E; injection E as <-.
  { destruct (finalise_empty_ok _ _ _ _ _ _ F) as [(E & _)|[E _]]; discriminate E. }
  specialize (Non Hf).
  destruct (book_ok _ _ _ _ _ _ _ _ _ _ _ L Bk) as [(E & _)|(new & K & Eg & En & Ep & Ea & Ei & Ew & Et & E)];
    [discriminate E|]. cbv zeta in E.
  rewrite (sum_totals_exact al reward Non Bal S Hm) in E. injection E as -> -> -> -> ->.
  exists new. rewrite (bk_rows _ _ _ _ K), (bs_allocations _ _ B). split; [done|].
  split; [exact (computed_fair _ _ _ _ _ _ _ _ _ _ _ _ _ CP K Eg Ei Ew Et)|].
  assert (length new = length al) as Ln by now rewrite <- (length_map sa_gross_share_sompi), Eg, length_map.
  split; [lia|]. split; [|split; [congruence|]].
  - assert (Forall (fun x => 0 <= x) (map sa_net_payout_sompi new) /\
            Forall (fun x => 0 <= x) (map sa_nacho_accrual_sompi new) /\
            Forall (fun x => 0 <= x) (map sa_pool_fee_sompi new)) as (F1 & F2 & F3).
    { rewrite En, Ea, Ep. repeat split; apply Forall_map; (eapply Forall_impl; [exact Non|]); simpl; tauto. }
    rewrite Forall_map in F1, F2, F3. rewrite List.Forall_forall in F1, F2, F3 |- *.
    pose proof (bk_reward_id _ _ _ _ K) as F0. rewrite List.Forall_forall in F0. auto.
  - rewrite En, Ea, Ep. repeat split; auto; [pose proof (balanced_sums al Bal); lia|].
    intros r R. apply find_some in R as [Hr Er]. rewrite (bk_stamped _ _ _ _ K) in Hr.
    apply in_map_iff in Hr as (r0 & <- & _). destruct (cr_id r0 =? rid) eqn:E0.
    + simpl. destruct (cr_allocated_at r0); simpl; eauto.
    + simpl in Er. congruence.
Qed.

(** Replays are harmless: once a reward is stamped, every further run for it
    (with any amount, window, configuration or faults) changes no allocation, rebate,
    reward or audit row, and reports either [AlreadyAllocated] or an error. *)
Theorem allocated_reward_is_final fault fee inst now (classifier : TierClassifier)
    rid reward a b d n d' n' res r :
  reward <= i64_max -> reward_row d rid = Some r -> is_Some (cr_allocated_at r) ->
  allocate_coinbase_reward fault fee inst now rid reward a b (d, n) = ((d', n'), res) ->
  db_allocations d' = db_allocations d /\ db_rebates d' = db_rebates d /\
  db_rewards d' = db_rewards d /\ db_audit d' = db_audit d /\
  (res = Ok AlreadyAllocated \/ exists e, res = Err e).
Proof.
  intros Hm R A H.
  assert (forall d1 new, books_same d d1 -> booked rid d1 d' new -> False) as No.
  { intros d1 new B K. destruct (bk_open _ _ _ _ K) as (r1 & R1 & O1).
    rewrite (books_same_row _ _ _ B), R in R1. injection R1 as <-. rewrite O1 in A. now destruct A. }
  destruct (allocate_shape _ _ _ _ _ _ _ _ _ _ _ _ _ Hm H)
    as [e B E|d1 out B F Hr|d1 out res0 tot ws al B CP L S _ Bal _ Bk Hr].
  - destruct B. eauto 10.
  - destruct (finalise_empty_ok _ _ _ _ _ _ F) as [(-> & -> & _)|[_ K]]; [destruct B; auto 10|].
    now destruct (No _ _ B K).
  - destruct (book_ok _ _ _ _ _ _ _ _ _ _ _ L Bk) as [(-> & -> & _)|(new & K & _)];
      [destruct B; auto 10|]. now destruct (No _ _ B K).
Qed.

(** ** Concrete runs *)

Definition sample_alloc_db (amount : Z) : Db :=
  mkDb 50 9 [sample_wallet 3 "alicealice"; sample_wallet 4 "bobbobbob"]
    [sample_share 3 (f64_of_Z 1) 100 10; sample_share 4 (f64_of_Z 2) 150 11] []
    [mkReward 5 (repeat 1 32) 0 amount 200 40 None] [] [] [] [] [] ∅ [] [] [] [] [].

Definition sample_fee : FeeConfig := mkFeeConfig 75.

Definition sample_run (d : Db) : (Db * nat) * result AllocationOutcome AllocationEngineError :=
  allocate_coinbase_reward (classifier := StaticTierClassifier Standard) (fun _ => NoFault) sample_fee
    "accountant" 45 5 1000000 0 200 (d, 0%nat).

Definition sample_alloc_after : Db := fst (fst (sample_run (sample_alloc_db 1000000))).

Lemma sample_alloc_wf : alloc_wf (sample_alloc_db 1000000).
Proof.
  split; simpl; repeat constructor; simpl; unfold i64_max; try lia; try (intros []; lia); auto.
Qed.

Lemma rewards_distributed_exactly_witness :
  let r := mkReward 5 (repeat 1 32) 0 1000000 200 40 (Some 50) in
  In r (db_rewards sample_alloc_after) /\ length (allocs_of sample_alloc_after 5) = 2%nat /\
  (allocs_of sample_alloc_after 5 = [] \/
   sumZ (map sa_gross_share_sompi (allocs_of sample_alloc_after 5)) = 1000000).
Proof.
  split; [vm_compute; now left|]. split; [vm_compute; reflexivity|].
  apply (rewards_distributed_exactly (sample_alloc_db 1000000) sample_alloc_after
           (mkReward 5 (repeat 1 32) 0 1000000 200 40 (Some 50)) sample_alloc_wf);
    [|vm_compute; now left].
  apply rtc_once.
  eapply (StepAllocate _ (fun _ => NoFault) sample_fee "accountant" 45 (StaticTierClassifier Standard)
            (mkReward 5 (repeat 1 32) 0 1000000 200 40 None) 0 200 0%nat); [now left|].
  vm_compute. reflexivity.
Defined.

Lemma allocation_conserves_witness :
  exists new net nacho pool residue,
    snd (sample_run (sample_alloc_db 1000000)) = Ok (Allocated 2 net nacho pool residue) /\
    db_allocations sample_alloc_after = [] ++ new /\ In 4 (map sa_wallet_id new) /\
    net + nacho + pool = 1000000.
Proof.
  edestruct (allocation_conserves (fun _ => NoFault) sample_fee "accountant" 45
    (StaticTierClassifier Standard) 5 1000000 0 200 (sample_alloc_db 1000000) 0%nat)
    as (new & E & F & _ & _ & _ & _ & _ & _ & S & _);
    [unfold fee_config_ok, MAX_TOPLINE_BPS; simpl; lia|unfold i64_max; lia|vm_compute; reflexivity|].
  eexists new, _, _, _, _. split; [vm_compute; reflexivity|]. split; [exact E|]. split; [|exact S].
  apply (fr_wallets _ _ _ _ _ F). left. exists (sample_share 4 (f64_of_Z 2) 150 11).
  split; [right; now left|]. split; [reflexivity|]. unfold in_daa_range. vm_compute. split; [intros H; discriminate H|reflexivity].
Defined.

Lemma allocated_reward_is_final_witness :
  db_allocations (fst (fst (sample_run sample_alloc_after))) = db_allocations sample_alloc_after /\
  snd (sample_run sample_alloc_after) = Ok AlreadyAllocated.
Proof.
  split; [|vm_compute; reflexivity].
  edestruct (allocated_reward_is_final (fun _ => NoFault) sample_fee "accountant" 45
    (StaticTierClassifier Standard) 5 1000000 0 200 sample_alloc_after 0%nat) as (E & _);
    [unfold i64_max; lia|vm_compute; reflexivity|vm_compute; eauto|vm_compute; reflexivity|].
  etransitivity; [|exact E]. vm_compute. reflexivity.
Defined.

(** ** Rounding beyond 2^53 *)

Definition big_reward : Z := 2 ^ 53 + 3.

Definition big_alloc_db (extra : list Share) : Db :=
  mkDb 50 9 [sample_wallet 2 "carolcarol"; sample_wallet 3 "alicealice";
             sample_wallet 4 "bobbobbob"]
    (extra ++ [sample_share 3 (f64_of_Z 1) 100 10; sample_share 4 (f64_of_Z 1) 150 11]) []
    [mkReward 5 (repeat 1 32) 0 big_reward 200 40 None] [] [] [] [] [] ∅ [] [] [] [] [].

Definition big_run (extra : list Share) : result AllocationOutcome AllocationEngineError :=
  snd (allocate_coinbase_reward (classifier := StaticTierClassifier Standard) (fun _ => NoFault)
         sample_fee "accountant" 45 5 big_reward 0 200 (big_alloc_db extra, 0%nat)).

(** The floored shares of a reward can exceed it: for a reward of 2^53 + 3 sompi
    and two equal weights they sum to one sompi more and the residue is negative; when
    the smallest wallet id has a negligible weight, the negative residue makes its
    share negative and the reward cannot be allocated at all. *)
Theorem floored_shares_exceed_reward :
  big_run [] = Ok (Allocated 2 8939645260330439 0 67553994410556 (-1)) /\
  big_run [sample_share 2 (f64_div (f64_of_Z 1) (f64_of_Z (2 ^ 60))) 100 10]
    = Err (AeMath (NegativeGross (-1))).
Proof. split; vm_compute; reflexivity. Qed.
