(* ===== verification/Vesting.v ===== *)
(** * Cliff vesting and payout policy ([accountant/src/vesting.rs], [payout.rs])

    A matured reward pays half before the ten-day cliff and in full from it on.
    A [Duration] is its number of nanoseconds; [None] is a panic (a failed
    [assert!] or [debug_assert!], or an arithmetic overflow: the release profile
    sets [overflow-checks]). *)
From S2P Require Import Prelude.
Open Scope Z_scope.

(** ** [vesting.rs] *)

Definition VESTING_CLIFF_DAYS : Z := 10.
Definition nanos_per_sec : Z := 1000000000.
Definition VESTING_CLIFF : Z := VESTING_CLIFF_DAYS * 24 * 60 * 60 * nanos_per_sec.
Definition EARLY_PAYOUT_BPS : Z := 5000.
Definition FULL_PAYOUT_BPS : Z := 10000.

Inductive ForfeitPolicy := Treasury | Redistribute | Burn.
Definition ForfeitPolicy_default : ForfeitPolicy := Treasury.

Record VestedSplit := mkSplit {
  vs_gross_sompi : Z;
  vs_miner_sompi : Z;
  vs_forfeit_sompi : Z;
  vs_applied_bps : Z;
  vs_matured : bool
}.

Definition vs_is_balanced (s : VestedSplit) : option bool :=
  sum ← checked_i64 (vs_miner_sompi s + vs_forfeit_sompi s);
  Some (sum =? vs_gross_sompi s).

Definition vest_reward (gross_sompi age : Z) : option VestedSplit :=
  if gross_sompi <? 0 then None else
  let matured := VESTING_CLIFF <=? age in
  let applied_bps := if matured then FULL_PAYOUT_BPS else EARLY_PAYOUT_BPS in
  let scaled := Z.quot (gross_sompi * applied_bps) FULL_PAYOUT_BPS in
  miner_sompi ← i64_try_from scaled;
  forfeit_sompi ← checked_i64 (gross_sompi - miner_sompi);
  Some (mkSplit gross_sompi miner_sompi forfeit_sompi applied_bps matured).

Record ClaimTotals := mkClaim {
  ct_gross_sompi : Z;
  ct_miner_sompi : Z;
  ct_forfeit_sompi : Z;
  ct_matured_count : Z;
  ct_early_count : Z
}.

Definition ClaimTotals_default : ClaimTotals := mkClaim 0 0 0 0 0.

Definition ct_is_balanced (t : ClaimTotals) : option bool :=
  sum ← checked_i64 (ct_miner_sompi t + ct_forfeit_sompi t);
  Some (sum =? ct_gross_sompi t).

Definition checked_u32 (z : Z) : option Z :=
  if (0 <=? z) && (z <=? u32_max) then Some z else None.

(** The three [+=] of the sompi totals, in order. *)
Definition add_split (t : ClaimTotals) (s : VestedSplit) : option ClaimTotals :=
  gross ← checked_i64 (ct_gross_sompi t + vs_gross_sompi s);
  miner ← checked_i64 (ct_miner_sompi t + vs_miner_sompi s);
  forfeit ← checked_i64 (ct_forfeit_sompi t + vs_forfeit_sompi s);
  Some (mkClaim gross miner forfeit (ct_matured_count t) (ct_early_count t)).

Definition bump_matured (t : ClaimTotals) : option ClaimTotals :=
  n ← checked_u32 (ct_matured_count t + 1);
  Some (mkClaim (ct_gross_sompi t) (ct_miner_sompi t) (ct_forfeit_sompi t) n (ct_early_count t)).

Definition bump_early (t : ClaimTotals) : option ClaimTotals :=
  n ← checked_u32 (ct_early_count t + 1);
  Some (mkClaim (ct_gross_sompi t) (ct_miner_sompi t) (ct_forfeit_sompi t) (ct_matured_count t) n).

(** A reward is [(gross_sompi, age)]. *)
Fixpoint vest_claim_from (totals : ClaimTotals) (rewards : list (Z * Z)) : option ClaimTotals :=
  match rewards with
  | [] => Some totals
  | (gross, age) :: rewards =>
      split ← vest_reward gross age;
      totals ← add_split totals split;
      totals ← (if vs_matured split then bump_matured totals else bump_early totals);
      vest_claim_from totals rewards
  end.

Definition vest_claim (rewards : list (Z * Z)) : option ClaimTotals :=
  vest_claim_from ClaimTotals_default rewards.

(** ** [payout.rs] *)

Inductive PayoutTrigger := AutoSweep | SignedClaim.

Definition requires_signature (t : PayoutTrigger) : bool :=
  match t with SignedClaim => true | AutoSweep => false end.

Record PayoutPlan := mkPlan {
  pp_trigger : PayoutTrigger;
  pp_totals : ClaimTotals;
  pp_requires_signature : bool;
  pp_included_count : Z;
  pp_deferred_count : Z
}.

Definition pp_is_empty (p : PayoutPlan) : bool := pp_included_count p =? 0.

(** The loop of the automatic sweep: totals, included, deferred. *)
Fixpoint sweep_from (totals : ClaimTotals) (included deferred : Z) (rewards : list (Z * Z))
  : option (ClaimTotals * Z * Z) :=
  match rewards with
  | [] => Some (totals, included, deferred)
  | (gross, age) :: rewards =>
      if VESTING_CLIFF <=? age then
        split ← vest_reward gross age;
        if negb (vs_matured split && (vs_forfeit_sompi split =? 0)) then None else
        totals ← add_split totals split;
        totals ← bump_matured totals;
        included ← checked_u32 (included + 1);
        sweep_from totals included deferred rewards
      else
        deferred ← checked_u32 (deferred + 1);
        sweep_from totals included deferred rewards
  end.

(** [u32::try_from(n).unwrap_or(u32::MAX)]. *)
Definition u32_or_max (n : Z) : Z := match checked_u32 n with Some v => v | None => u32_max end.

Definition plan_payout (rewards : list (Z * Z)) (trigger : PayoutTrigger) : option PayoutPlan :=
  match trigger with
  | AutoSweep =>
      '(totals, included, deferred) ← sweep_from ClaimTotals_default 0 0 rewards;
      Some (mkPlan trigger totals false included deferred)
  | SignedClaim =>
      let included := u32_or_max (Z.of_nat (length rewards)) in
      totals ← vest_claim rewards;
      Some (mkPlan trigger totals true included 0)
  end.

(** [Duration::saturating_sub]. *)
Definition time_until_auto_payout (age : Z) : Z := Z.max 0 (VESTING_CLIFF - age).

Definition has_auto_payable (ages : list Z) : bool := existsb (fun age => VESTING_CLIFF <=? age) ages.

(** ** Reference: what a reward pays *)

Definition vested (r : Z * Z) : bool := VESTING_CLIFF <=? snd r.
Definition due (r : Z * Z) : Z := if vested r then fst r else fst r / 2.
Definition withheld (r : Z * Z) : Z := fst r - due r.
Definition credited (r : Z * Z) : Prop := 0 <= fst r <= i64_max.

Lemma due_bounds r : 0 <= fst r -> 0 <= due r <= fst r.
Proof.
  unfold due. intros. destruct (vested r); [lia|].
  split; [apply Z.div_pos; lia|]. apply Z.div_le_upper_bound; lia.
Qed.

Lemma vest_reward_due r :
  credited r ->
  vest_reward (fst r) (snd r) =
    Some (mkSplit (fst r) (due r) (withheld r)
            (if vested r then FULL_PAYOUT_BPS else EARLY_PAYOUT_BPS) (vested r)).
Proof.
  intros [H0 H1]. pose proof (due_bounds r H0) as Hd. unfold vest_reward, withheld.
  destruct (Z.ltb_spec (fst r) 0); [lia|]. fold (vested r).
  assert (Z.quot (fst r * (if vested r then FULL_PAYOUT_BPS else EARLY_PAYOUT_BPS)) FULL_PAYOUT_BPS
          = due r) as ->.
  { unfold due, FULL_PAYOUT_BPS, EARLY_PAYOUT_BPS. destruct (vested r).
    - apply Z.quot_mul; lia.
    - rewrite Z.quot_div_nonneg by lia. replace 10000 with (2 * 5000) by lia.
      rewrite Z.div_mul_cancel_r; lia. }
  assert (i64_try_from (due r) = Some (due r)) as ->
    by (apply checked_i64_Some; unfold in_i64, i64_min, i64_max in *; lia).
  simpl. assert (checked_i64 (fst r - due r) = Some (fst r - due r)) as ->
    by (apply checked_i64_Some; unfold in_i64, i64_min, i64_max in *; lia).
  done.
Qed.

(** ** The loops compute the sums *)

Definition count (p : Z * Z -> bool) (rewards : list (Z * Z)) : Z :=
  Z.of_nat (length (List.filter p rewards)).

Lemma count_nonneg p l : 0 <= count p l.
Proof. unfold count. lia. Qed.

Lemma count_cons p r l : count p (r :: l) = (if p r then 1 else 0) + count p l.
Proof. unfold count. simpl. destruct (p r); simpl length; lia. Qed.

Lemma count_split p l : count p l + count (fun r => negb (p r)) l = Z.of_nat (length l).
Proof.
  induction l as [|r l IH]; [done|]. rewrite !count_cons. simpl length. destruct (p r); simpl; lia.
Qed.

(** Totals that more rewards of [room] sompi cannot overflow. *)
Record fits (t : ClaimTotals) (room : Z) : Prop := {
  fits_room : ct_gross_sompi t + room <= i64_max;
  fits_miner : 0 <= ct_miner_sompi t <= ct_gross_sompi t;
  fits_forfeit : 0 <= ct_forfeit_sompi t <= ct_gross_sompi t
}.

Lemma checked_u32_some z : 0 <= z <= u32_max -> checked_u32 z = Some z.
Proof. intros. unfold checked_u32. destruct (Z.leb_spec 0 z), (Z.leb_spec z u32_max); simpl; lia || done. Qed.

Lemma add_split_fits t r room b m :
  credited r -> 0 <= room -> fits t (fst r + room) ->
  let t' := mkClaim (ct_gross_sompi t + fst r) (ct_miner_sompi t + due r)
              (ct_forfeit_sompi t + withheld r) (ct_matured_count t) (ct_early_count t) in
  add_split t (mkSplit (fst r) (due r) (withheld r) b m) = Some t' /\ fits t' room.
Proof.
  intros [H0 H1] Hr [Hg Hm Hf] t'. pose proof (due_bounds r H0) as Hd.
  unfold add_split, withheld in *. simpl.
  assert (forall z, 0 <= z <= i64_max -> checked_i64 z = Some z) as C.
  { intros. apply checked_i64_Some. unfold in_i64, i64_min in *. lia. }
  rewrite !C by lia. simpl. split; [done|]. split; simpl; lia.
Qed.

Lemma vest_claim_from_cons t r rewards :
  vest_claim_from t (r :: rewards) =
    (split ← vest_reward (fst r) (snd r);
     totals ← add_split t split;
     totals ← (if vs_matured split then bump_matured totals else bump_early totals);
     vest_claim_from totals rewards).
Proof. destruct r; done. Qed.

Lemma sweep_from_cons t i e r rewards :
  sweep_from t i e (r :: rewards) =
    if vested r then
      split ← vest_reward (fst r) (snd r);
      if negb (vs_matured split && (vs_forfeit_sompi split =? 0)) then None else
      totals ← add_split t split;
      totals ← bump_matured totals;
      i' ← checked_u32 (i + 1);
      sweep_from totals i' e rewards
    else e' ← checked_u32 (e + 1); sweep_from t i e' rewards.
Proof. destruct r; done. Qed.

Lemma vest_claim_from_sums rewards : forall t,
  Forall credited rewards -> fits t (sumZ (map fst rewards)) ->
  0 <= ct_matured_count t -> 0 <= ct_early_count t ->
  ct_matured_count t + ct_early_count t + Z.of_nat (length rewards) <= u32_max ->
  vest_claim_from t rewards =
    Some (mkClaim (ct_gross_sompi t + sumZ (map fst rewards)) (ct_miner_sompi t + sumZ (map due rewards))
            (ct_forfeit_sompi t + sumZ (map withheld rewards))
            (ct_matured_count t + count vested rewards)
            (ct_early_count t + count (fun r => negb (vested r)) rewards)).
Proof.
  induction rewards as [|r rewards IH]; intros t Hc Hf Hm He Hn.
  { simpl. destruct t; simpl. unfold count; simpl. do 2 f_equal; lia. }
  inversion Hc as [|? ? Hr Hc']; subst. rewrite vest_claim_from_cons, (vest_reward_due r Hr).
  cbn [mbind option_bind].
  assert (0 <= sumZ (map fst rewards)).
  { apply sumZ_nonneg, Forall_map. eapply Forall_impl; [exact Hc'|]. intros ? []; simpl; lia. }
  edestruct (add_split_fits t r _ (if vested r then FULL_PAYOUT_BPS else EARLY_PAYOUT_BPS) (vested r) Hr H Hf)
    as [-> Hf'].
  cbn [mbind option_bind vs_matured]. rewrite !count_cons. simpl length in Hn. simpl map. simpl sumZ.
  destruct (vested r) eqn:Ev; unfold bump_matured, bump_early; cbn [ct_matured_count ct_early_count negb];
    rewrite checked_u32_some by lia; cbn [mbind option_bind];
    (rewrite IH; [cbn; do 2 f_equal; lia|done| |cbn; lia..]);
    destruct Hf' as [? ? ?]; split; cbn in *; lia.
Qed.

Lemma vested_sum_le rewards :
  Forall credited rewards ->
  0 <= sumZ (map fst (List.filter vested rewards)) <= sumZ (map fst rewards).
Proof.
  intros Hc. rewrite List.Forall_forall in Hc. split.
  - apply sumZ_nonneg, Forall_map, List.Forall_forall. intros x Hx. apply filter_In in Hx as [Hx _].
    destruct (Hc x Hx). simpl; lia.
  - apply sumZ_filter_le. intros x Hx. destruct (Hc x Hx). lia.
Qed.

Lemma count_zero_existsb rewards :
  (count vested rewards =? 0) = negb (has_auto_payable (map snd rewards)).
Proof.
  induction rewards as [|r rewards IH]; [done|]. rewrite count_cons. simpl. fold (vested r).
  pose proof (count_nonneg vested rewards). destruct (vested r); simpl; [|exact IH].
  apply Z.eqb_neq. lia.
Qed.

Lemma sweep_from_sums rewards : forall t included deferred,
  Forall credited rewards -> fits t (sumZ (map fst (List.filter vested rewards))) ->
  0 <= ct_matured_count t -> 0 <= included -> 0 <= deferred ->
  ct_matured_count t + Z.of_nat (length rewards) <= u32_max ->
  included + Z.of_nat (length rewards) <= u32_max ->
  deferred + Z.of_nat (length rewards) <= u32_max ->
  let total := sumZ (map fst (List.filter vested rewards)) in
  sweep_from t included deferred rewards =
    Some (mkClaim (ct_gross_sompi t + total) (ct_miner_sompi t + total) (ct_forfeit_sompi t)
            (ct_matured_count t + count vested rewards) (ct_early_count t),
          included + count vested rewards,
          deferred + count (fun r => negb (vested r)) rewards).
Proof.
  induction rewards as [|r rewards IH]; intros t i e Hc Hf Hm Hi He Hn1 Hn2 Hn3 total.
  { unfold total, count. destruct t; simpl. rewrite !Z.add_0_r. done. }
  inversion Hc as [|? ? Hr Hc']; subst. rewrite sweep_from_cons.
  rewrite !count_cons. unfold total. simpl List.filter in *. simpl length in *.
  destruct (vested r) eqn:Ev; cbn [negb].
  2:{ rewrite checked_u32_some by lia. cbn [mbind option_bind]. rewrite IH by (done || lia).
      apply (f_equal Some), pair_eq; split; [apply pair_eq; split; [f_equal|]|]; lia. }
  rewrite (vest_reward_due r Hr), Ev. cbn [mbind option_bind vs_matured vs_forfeit_sompi].
  assert (Hw : withheld r = 0) by (unfold withheld, due; rewrite Ev; lia).
  rewrite Hw. cbn [andb negb Z.eqb].
  assert (0 <= sumZ (map fst (List.filter vested rewards))).
  { apply vested_sum_le. done. }
  pose proof (add_split_fits t r _ FULL_PAYOUT_BPS true Hr H Hf) as [Ha Hf']. rewrite Hw in Ha, Hf'. rewrite Ha.
  cbn [mbind option_bind bump_matured ct_matured_count]. unfold bump_matured. cbn [ct_matured_count].
  rewrite !checked_u32_some by lia. cbn [mbind option_bind].
  assert (due r = fst r) as Hdue by (unfold due; rewrite Ev; done). rewrite Hdue in *.
  rewrite IH; [|done| |cbn; lia..].
  - cbn. apply (f_equal Some), pair_eq; split; [apply pair_eq; split; [f_equal|]|]; lia.
  - destruct Hf' as [? ? ?]. split; cbn in *; lia.
Qed.

Lemma fits_default l : sumZ l <= i64_max -> fits ClaimTotals_default (sumZ l).
Proof. intros. split; simpl; lia. Qed.

Lemma sum_due_withheld l : sumZ (map due l) + sumZ (map withheld l) = sumZ (map fst l).
Proof. induction l as [|r l IH]; [done|]. simpl. unfold withheld at 1. lia. Qed.

(** ** Claims *)

(** For every credited reward (0 to the 64-bit maximum) the split returns: the
    miner gets half, rounded down, before the cliff and everything from the cliff
    on, the rest is withheld, and nothing is created or lost.  A longer wait never
    pays less. *)
Theorem vest_reward_spec gross age :
  0 <= gross <= i64_max ->
  exists s, vest_reward gross age = Some s /\
    vs_miner_sompi s = (if VESTING_CLIFF <=? age then gross else gross / 2) /\
    vs_miner_sompi s + vs_forfeit_sompi s = gross /\
    0 <= vs_miner_sompi s /\ 0 <= vs_forfeit_sompi s /\
    vs_is_balanced s = Some true /\
    (forall age', age <= age' -> exists s', vest_reward gross age' = Some s' /\
                                   vs_miner_sompi s <= vs_miner_sompi s').
Proof.
  intros H. pose proof (due_bounds (gross, age) ltac:(simpl; lia)) as Hd.
  pose proof (vest_reward_due (gross, age) H) as E. cbn [fst snd] in E. rewrite E. clear E.
  eexists. split; [done|]. simpl. unfold withheld in *. cbn [fst] in *.
  split; [done|]. split; [lia|]. split; [lia|]. split; [lia|]. split.
  - unfold vs_is_balanced. cbn [vs_miner_sompi vs_forfeit_sompi vs_gross_sompi].
    replace (due (gross, age) + (gross - due (gross, age))) with gross by lia.
    assert (checked_i64 gross = Some gross) as ->
      by (apply checked_i64_Some; unfold in_i64, i64_min; lia).
    cbn. rewrite Z.eqb_refl. done.
  - intros age' Ha. pose proof (vest_reward_due (gross, age') H) as E. cbn [fst snd] in E. rewrite E.
    eexists. split; [done|].
    cbn [vs_miner_sompi]. unfold due, vested. cbn [fst snd].
    pose proof (Z.div_le_upper_bound gross 2 gross ltac:(lia) ltac:(lia)).
    destruct (Z.leb_spec VESTING_CLIFF age), (Z.leb_spec VESTING_CLIFF age'); lia.
Qed.

(** The payout policy, for credited rewards that the counters can hold: the plan
    is returned; an automatic sweep pays exactly the rewards at or past the cliff,
    in full, unsigned, and defers the others; a signed claim pays every reward its
    due share and defers none.  Both conserve value and account for every reward. *)
Theorem plan_payout_spec rewards trigger :
  Forall credited rewards -> sumZ (map fst rewards) <= i64_max ->
  Z.of_nat (length rewards) <= u32_max ->
  exists p, plan_payout rewards trigger = Some p /\
    let included := match trigger with
                    | AutoSweep => List.filter vested rewards
                    | SignedClaim => rewards
                    end in
    ct_gross_sompi (pp_totals p) = sumZ (map fst included) /\
    ct_miner_sompi (pp_totals p) = sumZ (map due included) /\
    ct_miner_sompi (pp_totals p) + ct_forfeit_sompi (pp_totals p) = ct_gross_sompi (pp_totals p) /\
    (trigger = AutoSweep -> ct_forfeit_sompi (pp_totals p) = 0) /\
    pp_included_count p = Z.of_nat (length included) /\
    pp_included_count p + pp_deferred_count p = Z.of_nat (length rewards) /\
    pp_requires_signature p = requires_signature trigger /\
    ct_matured_count (pp_totals p) + ct_early_count (pp_totals p) = pp_included_count p.
Proof.
  intros Hc Hs Hn. destruct trigger; simpl.
  - pose proof (vested_sum_le rewards Hc) as Hle.
    rewrite sweep_from_sums by (done || (apply fits_default; lia) || (simpl; lia)). simpl.
    eexists. split; [done|]. simpl. rewrite !Z.add_0_l.
    pose proof (count_split vested rewards).
    assert (sumZ (map due (List.filter vested rewards)) = sumZ (map fst (List.filter vested rewards))) as ->.
    { f_equal. apply map_ext_in. intros x Hx. apply filter_In in Hx as [_ Hx]. unfold due. rewrite Hx. done. }
    unfold count in *. repeat split; lia.
  - unfold vest_claim.
    rewrite vest_claim_from_sums by (done || (apply fits_default; lia) || (simpl; lia)). simpl.
    eexists. split; [done|]. simpl. rewrite !Z.add_0_l.
    pose proof (count_split vested rewards). pose proof (sum_due_withheld rewards).
    unfold u32_or_max. rewrite checked_u32_some by lia. repeat split; lia || discriminate.
Qed.

(** A reward waits exactly [time_until_auto_payout] for the automatic sweep: it is
    vested then and at no earlier age; and the next sweep pays something exactly
    when [has_auto_payable] says so. *)
Theorem auto_payout_timing gross age rewards :
  0 <= age ->
  (forall wait, 0 <= wait -> (vested (gross, age + wait) = true <-> time_until_auto_payout age <= wait)) /\
  (forall p, plan_payout rewards AutoSweep = Some p -> Forall credited rewards ->
     sumZ (map fst rewards) <= i64_max -> Z.of_nat (length rewards) <= u32_max ->
     pp_is_empty p = negb (has_auto_payable (map snd rewards))).
Proof.
  intros Ha. split.
  - intros wait Hw. unfold vested, time_until_auto_payout. cbn [snd]. rewrite Z.leb_le. lia.
  - intros p Hp Hc Hs Hn. simpl in Hp.
    rewrite sweep_from_sums in Hp by (done || (apply fits_default; pose proof (vested_sum_le rewards Hc); lia) || (simpl; lia)).
    simpl in Hp. injection Hp as <-. unfold pp_is_empty. simpl. apply count_zero_existsb.
Qed.

Definition sample_rewards : list (Z * Z) :=
  [(6000000001, 0); (6000000000, VESTING_CLIFF); (7, VESTING_CLIFF - 1)].

Lemma sample_rewards_credited : Forall credited sample_rewards.
Proof. repeat constructor; simpl; unfold i64_max; lia. Qed.

Lemma vest_reward_spec_witness :
  (exists s, vest_reward 6000000001 0 = Some s /\ vs_miner_sompi s = 3000000000) /\
  exists s, vest_reward i64_max VESTING_CLIFF = Some s /\ vs_miner_sompi s = i64_max.
Proof.
  split.
  - edestruct (vest_reward_spec 6000000001 0) as (s & H & Hm & _); [unfold i64_max; lia|]. eauto.
  - edestruct (vest_reward_spec i64_max VESTING_CLIFF) as (s & H & Hm & _); [unfold i64_max; lia|]. eauto.
Defined.

Lemma plan_payout_spec_witness :
  (exists p, plan_payout sample_rewards AutoSweep = Some p /\
     ct_miner_sompi (pp_totals p) = 6000000000 /\ pp_deferred_count p = 2) /\
  exists p, plan_payout sample_rewards SignedClaim = Some p /\
     ct_miner_sompi (pp_totals p) = 9000000003 /\ ct_forfeit_sompi (pp_totals p) = 3000000005.
Proof.
  split.
  - edestruct (plan_payout_spec sample_rewards AutoSweep) as (p & H & _ & Hm & _ & _ & Hi & Hd & _);
      [exact sample_rewards_credited|vm_compute; discriminate|vm_compute; discriminate|].
    exists p. split; [exact H|]. split; [rewrite Hm; reflexivity|]. rewrite Hi in Hd.
    change (1 + pp_deferred_count p = 3) in Hd. lia.
  - edestruct (plan_payout_spec sample_rewards SignedClaim) as (p & H & Hg & Hm & Hb & _);
      [exact sample_rewards_credited|vm_compute; discriminate|vm_compute; discriminate|].
    exists p. split; [exact H|]. split; [rewrite Hm; reflexivity|].
    rewrite Hm, Hg in Hb. change (9000000003 + ct_forfeit_sompi (pp_totals p) = 12000000008) in Hb. lia.
Defined.
