(* ===== verification/IngestDb.v ===== *)
(** * Identity, share, rejection and block repositories ([crates/katpool-db/src/repo])

    [wallet.rs], [worker.rs], [share.rs], [share_reject.rs] and [block.rs]: each
    function is the SQL statement of the source over the tables of [Schema], with
    the [CHECK], [UNIQUE] and foreign-key constraints of the migrations.  An
    [INSERT .. ON CONFLICT] checks the proposed row before it looks for the
    conflict. *)
From Stdlib Require Import SpecFloat Ascii.
From S2P Require Import Prelude F64 FeeModel Schema PayoutDb Domain AccountDb.
Open Scope Z_scope.

(** A text column from ASCII text. *)
Definition to_column (t : text) : string :=
  String.string_of_list_ascii (map (fun c => ascii_of_nat (Z.to_nat c)) t).

(** ** [wallet.rs] *)

(** [wallet_address_format]: the address families of a network. *)
Definition address_families (network : string) : list text :=
  if String.eqb network "mainnet" then map lit ["zkas:"; "firecash:"; "kaspa:"]%string
  else if String.eqb network "testnet-10" || String.eqb network "testnet-11"
       then map lit ["zkastest:"; "firecashtest:"; "kaspatest:"]%string
  else if String.eqb network "devnet" then map lit ["zkasdev:"; "firecashdev:"; "kaspadev:"]%string
  else if String.eqb network "simnet" then map lit ["zkassim:"; "firecashsim:"; "kaspasim:"]%string
  else [].

(** [^(family):[a-z0-9]{40,100}$] *)
Definition family_match (address family : text) : bool :=
  match strip_prefix family address with
  | Some body => (40 <=? length body)%nat && (length body <=? 100)%nat && forallb is_body_char body
  | None => false
  end.

Definition wallet_check (w : Wallet) : bool :=
  existsb (family_match (lit (w_address w))) (address_families (w_network w)).

Definition touch_wallet (now : Z) (w : Wallet) : Wallet :=
  mkWallet (w_id w) (w_address w) (w_network w) (w_first_seen_at w) now.

Definition has_address (address : string) (w : Wallet) : bool := String.eqb (w_address w) address.

Definition wallet_ensure (address : text) (network : string) : DB Wallet :=
  fun d =>
    let row := mkWallet (db_seq d) (to_column address) network (db_now d) (db_now d) in
    if negb (wallet_check row) then Err check_violation else
    match List.find (has_address (w_address row)) (db_wallets d) with
    | None => Ok (row, set_seq (db_seq d + 1) (set_wallets (db_wallets d ++ [row]) d))
    | Some w =>
        match tbl_update wallet_check (has_address (w_address row)) (touch_wallet (db_now d))
                (db_wallets d) with
        | Ok (rows, _) => Ok (touch_wallet (db_now d) w, set_wallets rows d)
        | Err e => Err e
        end
    end.

Definition fetch_one {A} (o : option A) : result A DbError := ok_or o NotFound.

Definition wallet_get_by_id (id : Z) : DB Wallet :=
  db_read_checked (fun d => fetch_one (List.find (fun w => w_id w =? id) (db_wallets d))).

Definition find_by_address (address : text) : DB (option Wallet) :=
  db_read (fun d => List.find (has_address (to_column address)) (db_wallets d)).

(** ** [worker.rs] *)

(** [worker_name_length] and [worker_name_charset]. *)
Definition worker_charset (c : Z) : bool :=
  is_ascii_uppercase c || is_ascii_lowercase c || is_ascii_digit c
  || existsb (Z.eqb c) (lit "_-.#@:+/\").

Definition worker_check (w : Worker) : bool :=
  let name := lit (wk_name w) in
  (1 <=? length name)%nat && (length name <=? 64)%nat && forallb worker_charset name.

Definition touch_worker (now : Z) (w : Worker) : Worker :=
  mkWorker (wk_id w) (wk_wallet_id w) (wk_name w) (wk_first_seen_at w) now.

Definition same_worker (wallet_id : Z) (name : string) (w : Worker) : bool :=
  (wk_wallet_id w =? wallet_id) && String.eqb (wk_name w) name.

Definition has_wallet (d : Db) (id : Z) : bool := existsb (fun w => w_id w =? id) (db_wallets d).
Definition has_worker (d : Db) (id : Z) : bool := existsb (fun w => wk_id w =? id) (db_workers d).

Definition worker_ensure (wallet_id : Z) (name : text) : DB Worker :=
  fun d =>
    let row := mkWorker (db_seq d) wallet_id (to_column name) (db_now d) (db_now d) in
    if negb (worker_check row) then Err check_violation else
    match List.find (same_worker wallet_id (wk_name row)) (db_workers d) with
    | None =>
        if has_wallet d wallet_id
        then Ok (row, set_seq (db_seq d + 1) (set_workers (db_workers d ++ [row]) d))
        else Err foreign_key_violation
    | Some w =>
        match tbl_update worker_check (same_worker wallet_id (wk_name row)) (touch_worker (db_now d))
                (db_workers d) with
        | Ok (rows, _) => Ok (touch_worker (db_now d) w, set_workers rows d)
        | Err e => Err e
        end
    end.

Definition worker_get_by_id (id : Z) : DB Worker :=
  db_read_checked (fun d => fetch_one (List.find (fun w => wk_id w =? id) (db_workers d))).

Definition workers_for_wallet (wallet_id : Z) : DB (list Worker) :=
  db_read (fun d => sort_by (fun a b => wk_last_seen_at b <=? wk_last_seen_at a)
                      (List.filter (fun w => wk_wallet_id w =? wallet_id) (db_workers d))).

(** ** [share.rs] *)

(** [session_id] is [NULL] in every call of the program; the key of a session is
    checked like the others. *)
Definition insert_credited (wallet_id worker_id : Z) (session_id : option Z) (difficulty : f64)
    (daa_score : Z) (correlation_id : string) : DB Z :=
  fun d =>
    let row := mkShare (db_seq d) wallet_id worker_id session_id difficulty (as_i64 daa_score)
                 (db_now d) correlation_id in
    if negb (share_check row) then Err check_violation else
    if has_wallet d wallet_id && has_worker d worker_id
       && match session_id with
          | None => true
          | Some s => existsb (fun c => cs_id c =? s) (db_sessions d)
          end
    then Ok (sh_id row, set_seq (db_seq d + 1) (set_shares (db_shares d ++ [row]) d))
    else Err foreign_key_violation.

Definition in_daa_window (daa_start daa_end : Z) (s : Share) : bool :=
  (as_i64 daa_start <=? sh_daa_score s) && (sh_daa_score s <? as_i64 daa_end).

Definition wallet_in_window (wallet_id daa_start daa_end : Z) (s : Share) : bool :=
  (sh_wallet_id s =? wallet_id) && in_daa_window daa_start daa_end s.

(** [Option<f64>::unwrap_or(0.0)]. *)
Definition or_zero (o : option f64) : f64 := match o with Some w => w | None => f64_zero end.

Definition sum_weight_for_window (wallet_id daa_start daa_end : Z) : DB f64 :=
  db_read_checked (fun d =>
    let? w := pg_sum (map sh_difficulty
                (List.filter (wallet_in_window wallet_id daa_start daa_end) (db_shares d))) in
    Ok (or_zero w)).

Definition count_for_window (wallet_id daa_start daa_end : Z) : DB Z :=
  db_read (fun d =>
    Z.of_nat (length (List.filter (wallet_in_window wallet_id daa_start daa_end) (db_shares d)))).

Definition total_weight_for_window (daa_start daa_end : Z) : DB f64 :=
  db_read_checked (fun d =>
    let? w := pg_sum (map sh_difficulty (List.filter (in_daa_window daa_start daa_end) (db_shares d))) in
    Ok (or_zero w)).

(** ** [share_reject.rs], with the domain reasons of [katpool-domain/src/events.rs] *)

Inductive ShareRejectReason :=
| Stale | LowDifficulty | BadPow | MissingJob | MalformedFrame | DuplicateSubmit | BadAddress.

Definition ShareRejectReason_as_str (r : ShareRejectReason) : string :=
  match r with
  | Stale => "stale"
  | LowDifficulty => "low_difficulty"
  | BadPow => "bad_pow"
  | MissingJob => "missing_job"
  | MalformedFrame => "malformed_frame"
  | DuplicateSubmit => "duplicate_submit"
  | BadAddress => "bad_address"
  end.

(** The domain enumeration is [#[non_exhaustive]]; on its present variants the
    conversion is total. *)
Definition reject_try_from (r : ShareRejectReason) : result DbShareRejectReason string :=
  match r with
  | Stale => Ok DbStale
  | LowDifficulty => Ok DbLowDifficulty
  | BadPow => Ok DbBadPow
  | MissingJob => Ok DbMissingJob
  | MalformedFrame => Ok DbMalformedFrame
  | DuplicateSubmit => Ok DbDuplicateSubmit
  | BadAddress => Ok DbBadAddress
  end.

Definition DbShareRejectReason_as_str (r : DbShareRejectReason) : string :=
  match r with
  | DbStale => "stale"
  | DbLowDifficulty => "low_difficulty"
  | DbBadPow => "bad_pow"
  | DbMissingJob => "missing_job"
  | DbMalformedFrame => "malformed_frame"
  | DbDuplicateSubmit => "duplicate_submit"
  | DbBadAddress => "bad_address"
  end.

Definition reject_insert (wallet_id worker_id : Z) (reason : DbShareRejectReason)
    (correlation_id : string) : DB Z :=
  fun d =>
    let row := mkReject (db_seq d) wallet_id worker_id reason (db_now d) correlation_id in
    if has_wallet d wallet_id && has_worker d worker_id
    then Ok (rj_id row, set_seq (db_seq d + 1) (set_rejects (db_rejects d ++ [row]) d))
    else Err foreign_key_violation.

Definition all_reject_reasons : list DbShareRejectReason :=
  [DbStale; DbLowDifficulty; DbBadPow; DbMissingJob; DbMalformedFrame; DbDuplicateSubmit; DbBadAddress].

(** [SELECT reason, count( * ) .. GROUP BY reason ORDER BY count( * ) DESC]. *)
Definition count_by_reason (rows : list ShareReject) : list (DbShareRejectReason * Z) :=
  sort_by (fun a b => snd b <=? snd a)
    (List.filter (fun rc => 0 <? snd rc)
       (map (fun r => (r, Z.of_nat (length (List.filter (fun x => bool_decide (rj_reason x = r)) rows))))
          all_reject_reasons)).

Definition count_by_reason_for_wallet (wallet_id since : Z) : DB (list (DbShareRejectReason * Z)) :=
  db_read (fun d => count_by_reason
    (List.filter (fun r => (rj_wallet_id r =? wallet_id) && (since <=? rj_rejected_at r)) (db_rejects d))).

Definition rejects_for_wallet (wallet_id limit : Z) : DB (list ShareReject) :=
  db_read_checked (fun d =>
    sql_limit limit (sort_by (fun a b => rj_rejected_at b <=? rj_rejected_at a)
                       (List.filter (fun r => rj_wallet_id r =? wallet_id) (db_rejects d)))).

Definition count_by_reason_pool_wide (since : Z) : DB (list (DbShareRejectReason * Z)) :=
  db_read (fun d => count_by_reason (List.filter (fun r => since <=? rj_rejected_at r) (db_rejects d))).

(** ** [block.rs] *)

Definition has_hash (hash : bytes) (b : Block) : bool := bool_decide (bk_hash b = hash).

Definition found_row (d : Db) (hash : bytes) (wallet worker daa_score nonce : Z) (correlation_id : string)
  : Block :=
  mkBlock (db_seq d) hash wallet worker (as_i64 daa_score) None (as_i64 nonce) Found (db_now d)
    None None None None correlation_id.

Definition block_append (row : Block) : DB Z :=
  fun d =>
    if has_wallet d (bk_finder_wallet_id row) && has_worker d (bk_finder_worker_id row)
    then Ok (bk_id row, set_seq (db_seq d + 1) (set_blocks (db_blocks d ++ [row]) d))
    else Err foreign_key_violation.

Definition block_insert (hash : bytes) (wallet worker daa_score nonce : Z) (correlation_id : string)
  : DB Z :=
  fun d =>
    let row := found_row d hash wallet worker daa_score nonce correlation_id in
    if negb (block_check row) then Err check_violation else
    match List.find (has_hash hash) (db_blocks d) with
    | Some _ => Err unique_violation
    | None => block_append row d
    end.

Definition block_ensure (hash : bytes) (wallet worker daa_score nonce : Z) (correlation_id : string)
  : DB (Z * EnsureOutcome) :=
  fun d =>
    let row := found_row d hash wallet worker daa_score nonce correlation_id in
    if negb (block_check row) then Err check_violation else
    match List.find (has_hash hash) (db_blocks d) with
    | Some b => Ok ((bk_id b, AlreadyExisted), d)
    | None => (id <-- block_append row ;; db_ret (id, Inserted)) d
    end.

Definition find_by_hash (hash : bytes) : DB (option Block) :=
  db_read (fun d => List.find (has_hash hash) (db_blocks d)).

Definition update_blocks (p : Block -> bool) (f : Block -> Block) : DB unit :=
  fun d => match tbl_update block_check p f (db_blocks d) with
           | Ok (rows, _) => Ok (tt, set_blocks rows d)
           | Err e => Err e
           end.

Definition status_in (l : list BlockStatus) (b : Block) : bool := bool_decide (bk_status b ∈ l).

Definition to_submitted (now : Z) (b : Block) : Block :=
  mkBlock (bk_id b) (bk_hash b) (bk_finder_wallet_id b) (bk_finder_worker_id b) (bk_daa_score b)
    (bk_blue_score b) (bk_nonce b) SubmittedToNode (bk_found_at b) (coalesce (bk_submitted_at b) now)
    (bk_confirmed_at b) (bk_matured_at b) (bk_miner_reward_sompi b) (bk_correlation_id b).

Definition mark_submitted (hash : bytes) : DB unit :=
  fun d => update_blocks (fun b => has_hash hash b && status_in [Found; SubmittedToNode] b)
             (to_submitted (db_now d)) d.

Definition to_confirmed_blue (now : Z) (blue_score : option Z) (b : Block) : Block :=
  mkBlock (bk_id b) (bk_hash b) (bk_finder_wallet_id b) (bk_finder_worker_id b) (bk_daa_score b)
    (match blue_score with Some s => Some s | None => bk_blue_score b end) (bk_nonce b) ConfirmedBlue
    (bk_found_at b) (bk_submitted_at b) (coalesce (bk_confirmed_at b) now) (bk_matured_at b)
    (bk_miner_reward_sompi b) (bk_correlation_id b).

Definition mark_confirmed_blue (hash : bytes) (blue_score : option Z) : DB unit :=
  fun d => update_blocks (fun b => has_hash hash b && status_in [SubmittedToNode; ConfirmedBlue] b)
             (to_confirmed_blue (db_now d) blue_score) d.

Definition to_matured (now miner_reward_sompi : Z) (b : Block) : Block :=
  mkBlock (bk_id b) (bk_hash b) (bk_finder_wallet_id b) (bk_finder_worker_id b) (bk_daa_score b)
    (bk_blue_score b) (bk_nonce b) Matured (bk_found_at b) (bk_submitted_at b) (bk_confirmed_at b)
    (coalesce (bk_matured_at b) now) (Some miner_reward_sompi) (bk_correlation_id b).

Definition mark_matured (hash : bytes) (miner_reward_sompi : Z) : DB unit :=
  fun d => update_blocks (fun b => has_hash hash b && status_in [ConfirmedBlue; Matured] b)
             (to_matured (db_now d) miner_reward_sompi) d.

Definition to_orphaned (b : Block) : Block :=
  mkBlock (bk_id b) (bk_hash b) (bk_finder_wallet_id b) (bk_finder_worker_id b) (bk_daa_score b)
    (bk_blue_score b) (bk_nonce b) Orphaned (bk_found_at b) (bk_submitted_at b) (bk_confirmed_at b)
    (bk_matured_at b) (bk_miner_reward_sompi b) (bk_correlation_id b).

Definition mark_orphaned (hash : bytes) : DB unit :=
  update_blocks (fun b => has_hash hash b && negb (status_in [Matured] b)) to_orphaned.

Definition list_recent (limit : Z) (before_id : option Z) : DB (list Block) :=
  db_read_checked (fun d =>
    sql_limit limit
      (sort_by (fun a b => bk_id b <=? bk_id a)
         (List.filter (fun b => match before_id with None => true | Some x => bk_id b <? x end)
            (db_blocks d)))).

Record RecentBlockIdentity := mkRecentBlock {
  rb_hash : bytes;
  rb_worker_name : string;
  rb_wallet_address : string;
  rb_daa_score : Z;
  rb_miner_reward_sompi : option Z;
  rb_found_at : Z
}.

(** The two inner joins. *)
Definition recent_row (d : Db) (b : Block) : option RecentBlockIdentity :=
  w ← List.find (fun w => wk_id w =? bk_finder_worker_id b) (db_workers d);
  wal ← List.find (fun w => w_id w =? bk_finder_wallet_id b) (db_wallets d);
  Some (mkRecentBlock (bk_hash b) (wk_name w) (w_address wal) (bk_daa_score b)
          (bk_miner_reward_sompi b) (bk_found_at b)).

Definition list_recent_with_identity (limit : Z) : DB (list RecentBlockIdentity) :=
  db_read_checked (fun d =>
    sql_limit limit (omap (recent_row d) (sort_by (fun a b => bk_id b <=? bk_id a) (db_blocks d)))).

Definition block_total_count : DB Z := db_read (fun d => Z.of_nat (length (db_blocks d))).

Definition count_by_status : DB (list (BlockStatus * Z)) :=
  db_read (fun d =>
    List.filter (fun sc => 0 <? snd sc)
      (map (fun s => (s, Z.of_nat (length (List.filter (status_in [s]) (db_blocks d)))))
         [Found; SubmittedToNode; ConfirmedBlue; Matured; Orphaned])).

Definition list_by_status (statuses : list BlockStatus) (limit : Z) : DB (list Block) :=
  db_read_checked (fun d =>
    sql_limit limit (sort_by (fun a b => bk_found_at a <=? bk_found_at b)
                       (List.filter (status_in statuses) (db_blocks d)))).
