(* ===== verification/SessionDb.v ===== *)
(** * Connection sessions ([crates/katpool-db/src/repo/connection_session.rs])

    The session rows, and [str::parse::<IpAddr>] of the standard library, which
    the event consumer applies before it writes one.  The [INET] column holds the
    parsed address. *)
From Stdlib Require Import SpecFloat.
From S2P Require Import Prelude F64 FeeModel Schema PayoutDb Domain AccountDb IngestDb.
Open Scope Z_scope.

(** ** [IpAddr::from_str] *)

(** A reader consumes a prefix of the text or fails without consuming. *)
Definition reader (A : Type) : Type := text -> option (A * text).

Definition read_char (c : Z) : reader unit :=
  fun s => match s with x :: s => if x =? c then Some (tt, s) else None | [] => None end.

Definition to_digit (radix c : Z) : option Z :=
  let v := if is_ascii_digit c then Some (c - 48)
           else if is_ascii_lowercase c then Some (c - 87)
           else if is_ascii_uppercase c then Some (c - 55) else None in
  match v with Some d => if d <? radix then Some d else None | None => None end.

(** The longest run of digits, at most [max] of them: count, value, rest; [None]
    when there are more. *)
Fixpoint read_digits (radix : Z) (max : nat) (count acc : Z) (s : text) : option (Z * Z * text) :=
  match s with
  | [] => Some (count, acc, [])
  | c :: s' =>
      match to_digit radix c with
      | None => Some (count, acc, s)
      | Some d =>
          match max with
          | O => None
          | S max => read_digits radix max (count + 1) (acc * radix + d) s'
          end
      end
  end.

(** [read_number(radix, Some(max), allow_zero_prefix)] into an integer of at most
    [top]. *)
Definition read_number (radix : Z) (max : nat) (allow_zero_prefix : bool) (top : Z) : reader Z :=
  fun s =>
    match read_digits radix max 0 0 s with
    | None => None
    | Some (count, v, rest) =>
        let zero_prefix := match s with c :: _ => c =? 48 | [] => false end in
        if (count =? 0) || (top <? v) || (negb allow_zero_prefix && zero_prefix && (1 <? count))
        then None else Some (v, rest)
    end.

Definition read_ipv4_addr : reader (list Z) :=
  fun s =>
    '(a, s) ← read_number 10 3 false 255 s;
    '(_, s) ← read_char 46 s;
    '(b, s) ← read_number 10 3 false 255 s;
    '(_, s) ← read_char 46 s;
    '(c, s) ← read_number 10 3 false 255 s;
    '(_, s) ← read_char 46 s;
    '(d, s) ← read_number 10 3 false 255 s;
    Some ([a; b; c; d], s).

(** The separator is read before every group but the first. *)
Definition read_separator {A} (first : bool) (r : reader A) : reader A :=
  fun s => if first then r s else '(_, s) ← read_char 58 s; r s.

(** [limit] groups at most: the groups, whether they end with an embedded IPv4
    address, and the rest. *)
Fixpoint read_groups (limit : nat) (first : bool) (s : text) : list Z * bool * text :=
  match limit with
  | O => ([], false, s)
  | S limit' =>
      let embedded :=
        match limit' with
        | O => None
        | S _ => read_separator first read_ipv4_addr s
        end in
      match embedded with
      | Some ([a; b; c; d], rest) => ([a * 256 + b; c * 256 + d], true, rest)
      | _ =>
          match read_separator first (read_number 16 4 true 65535) s with
          | None => ([], false, s)
          | Some (g, rest) =>
              let '(gs, v4, rest) := read_groups limit' false rest in (g :: gs, v4, rest)
          end
      end
  end.

Definition read_ipv6_addr : reader (list Z) :=
  fun s =>
    let '(head, head_ipv4, s) := read_groups 8 true s in
    if (length head =? 8)%nat then Some (head, s)
    else if head_ipv4 then None
    else
      '(_, s) ← read_char 58 s;
      '(_, s) ← read_char 58 s;
      let '(tail, _, s) := read_groups (8 - (length head + 1)) true s in
      Some (head ++ repeat 0 (8 - length head - length tail) ++ tail, s).

Definition whole {A} (r : reader A) (s : text) : option A :=
  match r s with Some (a, []) => Some a | _ => None end.

(** [IpAddr::from_str]: an IPv4 address, else an IPv6 address; nothing may
    follow. *)
Definition parse_ip (s : text) : option IpAddr :=
  let r := fun s => match read_ipv4_addr s with
                    | Some (o, rest) => Some (IpV4 o, rest)
                    | None => match read_ipv6_addr s with
                              | Some (g, rest) => Some (IpV6 g, rest)
                              | None => None
                              end
                    end in
  whole r s.

(** ** The repository *)

Definition session_insert (worker_id : option Z) (remote_ip : IpAddr) (remote_app country : option string)
    (connected_at : Z) (disconnected_at : option Z) : DB Z :=
  fun d =>
    let row := mkSession (db_seq d) worker_id remote_ip remote_app connected_at disconnected_at 0 0 0
                 country in
    if match worker_id with None => true | Some w => has_worker d w end
    then Ok (cs_id row, set_seq (db_seq d + 1) (set_sessions (db_sessions d ++ [row]) d))
    else Err foreign_key_violation.

(** [open] *)
Definition session_open (worker_id : option Z) (remote_ip : IpAddr) (remote_app country : option string)
    (connected_at : Z) : DB Z :=
  session_insert worker_id remote_ip remote_app country connected_at None.

Definition record_closed (worker_id : option Z) (remote_ip : IpAddr) (remote_app country : option string)
    (connected_at disconnected_at : Z) : DB Z :=
  session_insert worker_id remote_ip remote_app country connected_at (Some disconnected_at).

Definition update_sessions (p : ConnectionSession -> bool) (f : ConnectionSession -> ConnectionSession)
  : DB Z :=
  fun d => match tbl_update session_check p f (db_sessions d) with
           | Ok (rows, n) => Ok (n, set_sessions rows d)
           | Err e => Err e
           end.

Definition set_disconnected (t : Z) (s : ConnectionSession) : ConnectionSession :=
  mkSession (cs_id s) (cs_worker_id s) (cs_remote_ip s) (cs_remote_app s) (cs_connected_at s) (Some t)
    (cs_shares_credited s) (cs_shares_rejected s) (cs_malformed_frames s) (cs_country s).

(** [close]: the first disconnect time stays. *)
Definition session_close (session_id : Z) : DB unit :=
  fun d => (_ <-- update_sessions (fun s => cs_id s =? session_id)
                    (fun s => set_disconnected (match cs_disconnected_at s with
                                                | Some t => t
                                                | None => db_now d
                                                end) s) ;;
            db_ret tt) d.

Definition is_open (s : ConnectionSession) : bool := bool_decide (cs_disconnected_at s = None).

Definition close_all_open : DB Z := fun d => update_sessions is_open (set_disconnected (db_now d)) d.

Record ActiveSessions := mkActive { as_sessions : Z; as_workers : Z }.

(** [count(DISTINCT worker_id)] counts the non-null ids. *)
Definition distinct_workers (rows : list ConnectionSession) : Z :=
  Z.of_nat (length (remove_dups (omap cs_worker_id rows))).

Definition active_summary : DB ActiveSessions :=
  db_read (fun d => let rows := List.filter is_open (db_sessions d) in
                    mkActive (Z.of_nat (length rows)) (distinct_workers rows)).

Definition increment_counters (session_id credited rejected malformed : Z) : DB unit :=
  fun d =>
    let f s := mkSession (cs_id s) (cs_worker_id s) (cs_remote_ip s) (cs_remote_app s) (cs_connected_at s)
                 (cs_disconnected_at s) (cs_shares_credited s + credited)
                 (cs_shares_rejected s + rejected) (cs_malformed_frames s + malformed) (cs_country s) in
    let hit s := cs_id s =? session_id in
    if existsb (fun s => hit s && negb (in_i64b (cs_shares_credited (f s))
                                        && in_i64b (cs_shares_rejected (f s))
                                        && in_i64b (cs_malformed_frames (f s)))) (db_sessions d)
    then Err numeric_overflow
    else (_ <-- update_sessions hit f ;; db_ret tt) d.

(** Open, or ended at or after [since]. *)
Definition overlaps (since : Z) (s : ConnectionSession) : bool :=
  match cs_disconnected_at s with None => true | Some t => since <=? t end.

(** [GROUP BY key ORDER BY workers DESC, sessions DESC]. *)
Definition breakdown {K} `{EqDecision K} (key : ConnectionSession -> K) (rows : list ConnectionSession)
  : list (K * Z * Z) :=
  sort_by (fun a b => (snd (fst b) <? snd (fst a))
                      || ((snd (fst a) =? snd (fst b)) && (snd b <=? snd a)))
    (map (fun k => let group := List.filter (fun s => bool_decide (key s = k)) rows in
                   (k, distinct_workers group, Z.of_nat (length group)))
       (remove_dups (map key rows))).

Definition firmware_breakdown (since : Z) : DB (list (option string * Z * Z)) :=
  db_read (fun d => breakdown cs_remote_app (List.filter (overlaps since) (db_sessions d))).

Definition country_breakdown (since : Z) : DB (list (string * Z * Z)) :=
  db_read (fun d =>
    omap (fun row => let '(k, w, n) := row in option_map (fun c => (c, w, n)) k)
      (breakdown cs_country
         (List.filter (fun s => bool_decide (is_Some (cs_country s)) && overlaps since s) (db_sessions d)))).

Definition sessions_for_worker (worker_id limit : Z) : DB (list ConnectionSession) :=
  db_read_checked (fun d =>
    sql_limit limit (sort_by (fun a b => cs_connected_at b <=? cs_connected_at a)
                       (List.filter (fun s => bool_decide (cs_worker_id s = Some worker_id))
                          (db_sessions d)))).
