(* ===== verification/ShareStats.v ===== *)
(** * Share statistics ([crates/katpool-db/src/repo/share_stats.rs])

    The read-only aggregations behind the HTTP API: counts, hashrate estimates
    over a window, time series on a bucket grid, and the leaderboard.  Instants
    are microseconds since the epoch, what a [timestamptz] column holds; rates are
    binary64 as in the source. *)
From Stdlib Require Import SpecFloat.
From S2P Require Import Prelude F64 FeeModel Schema PayoutDb Domain AccountDb IngestDb.
Open Scope Z_scope.

Definition HASHES_PER_DIFFICULTY : f64 := f64_of_Z 4294967296.

Definition hashrate_hs (weight secs : f64) : f64 := f64_div (f64_mul weight HASHES_PER_DIFFICULTY) secs.

(** [TimeDelta::num_seconds]: whole seconds, towards zero. *)
Definition num_seconds (micros : Z) : Z := Z.quot micros 1000000.

Definition effective_window_secs (since until : Z) (pool_first : option Z) : f64 :=
  let start := match pool_first with
               | Some first => if since <? first then first else since
               | None => since
               end in
  f64_of_Z (Z.max (num_seconds (until - start)) 1).

(** ** Selections *)

Definition credited_since (since : Z) (s : Share) : bool := since <=? sh_credited_at s.
Definition credited_in (since until : Z) (s : Share) : bool :=
  (since <=? sh_credited_at s) && (sh_credited_at s <? until).
Definition of_wallet (wallet_id : Z) (s : Share) : bool := sh_wallet_id s =? wallet_id.
Definition of_worker (worker_id : Z) (s : Share) : bool := sh_worker_id s =? worker_id.

(** [sum(difficulty)], [count( * )], [min(credited_at)] of a selection. *)
Definition weight_of (p : Share -> bool) (d : Db) : result (option f64) DbError :=
  pg_sum (map sh_difficulty (List.filter p (db_shares d))).
Definition count_of (p : Share -> bool) (d : Db) : Z := Z.of_nat (length (List.filter p (db_shares d))).
Definition first_credited (p : Share -> bool) (d : Db) : option Z :=
  fold_right (fun s acc => Some (match acc with Some m => Z.min (sh_credited_at s) m
                                 | None => sh_credited_at s end))
    None (List.filter p (db_shares d)).

Record AcceptedShareStats := mkAccepted { ac_share_count : Z; ac_total_weight : f64 }.

Definition accepted (p : Share -> bool) : DB AcceptedShareStats :=
  db_read_checked (fun d => let? w := weight_of p d in Ok (mkAccepted (count_of p d) (or_zero w))).

Definition accepted_for_wallet (wallet_id since : Z) : DB AcceptedShareStats :=
  accepted (fun s => of_wallet wallet_id s && credited_since since s).
Definition accepted_pool_wide (since : Z) : DB AcceptedShareStats := accepted (credited_since since).
Definition accepted_for_worker (worker_id since : Z) : DB AcceptedShareStats :=
  accepted (fun s => of_worker worker_id s && credited_since since s).

(** ** Window estimates *)

Definition estimate (what : string) (p : Share -> bool) (since until : Z) : DB f64 :=
  if until <=? since then db_err (Config (what +:+ ": until must be after since"))
  else db_read_checked (fun d =>
    let? w := weight_of (fun s => p s && credited_in since until s) d in
    let first := first_credited (credited_in since until) d in
    Ok (hashrate_hs (or_zero w) (effective_window_secs since until first))).

Definition hashrate_estimate_for_wallet (wallet_id : Z) : Z -> Z -> DB f64 :=
  estimate "hashrate_estimate_for_wallet" (of_wallet wallet_id).
Definition hashrate_estimate_pool_wide : Z -> Z -> DB f64 :=
  estimate "hashrate_estimate_pool_wide" (fun _ => true).
Definition hashrate_estimate_for_worker (worker_id : Z) : Z -> Z -> DB f64 :=
  estimate "hashrate_estimate_for_worker" (of_worker worker_id).

Record WalletShareSummary := mkSummary {
  wsu_accepted_count : Z; wsu_accepted_weight : f64; wsu_rejected_count : Z
}.

Definition accepted_and_rejected_for_wallet (wallet_id since : Z) : DB WalletShareSummary :=
  db_read_checked (fun d =>
    let p s := of_wallet wallet_id s && credited_since since s in
    let? w := weight_of p d in
    Ok (mkSummary (count_of p d) (or_zero w)
          (Z.of_nat (length (List.filter (fun r => (rj_wallet_id r =? wallet_id) && (since <=? rj_rejected_at r))
                               (db_rejects d)))))).

Record ActiveCounts := mkActiveCounts { an_wallets : Z; an_workers : Z }.

Definition count_distinct (l : list Z) : Z := Z.of_nat (length (remove_dups l)).

Definition active_participant_counts (since : Z) : DB ActiveCounts :=
  db_read (fun d =>
    let rows := List.filter (credited_since since) (db_shares d) in
    mkActiveCounts (count_distinct (map sh_wallet_id rows)) (count_distinct (map sh_worker_id rows))).

(** ** Series *)

Record HashratePoint := mkPoint { hp_bucket_start : Z; hp_hashrate : f64; hp_is_partial : bool }.

Definition validate_series_args (from until bucket_secs : Z) (what : string) : result f64 DbError :=
  if until <=? from then Err (Config (what +:+ ": until must be after from"))
  else if bucket_secs <=? 0 then Err (Config (what +:+ ": bucket_secs must be positive"))
  else Ok (f64_of_Z bucket_secs).

Definition bucket_effective_secs (bucket_start until bucket_secs : Z) : f64 :=
  let elapsed := num_seconds (until - bucket_start) in
  if bucket_secs <=? elapsed then f64_of_Z bucket_secs else f64_of_Z (Z.max elapsed 1).

(** [extract(epoch FROM t)] read as a double: the division rounds once while the
    microseconds fit 53 bits. *)
Definition extract_epoch (t : Z) : f64 := f64_div (f64_of_Z t) (f64_of_Z 1000000).

(** [floor(extract(epoch FROM credited_at) / $b) * $b] *)
Definition bucket_epoch (bucket_secs : Z) (s : Share) : f64 :=
  let b := f64_of_Z bucket_secs in
  f64_mul (f64_floor (f64_div (extract_epoch (sh_credited_at s)) b)) b.

(** Equality of doubles in Postgres, which [GROUP BY] uses. *)
Definition pg_eqb (x y : f64) : bool := pg_leb x y && pg_leb y x.

(** The groups, in order of first appearance. *)
Fixpoint group_by {A} (key : A -> f64) (rows : list A) : list (f64 * list A) :=
  match rows with
  | [] => []
  | r :: rows =>
      let k := key r in
      let groups := group_by key rows in
      match List.find (fun g => pg_eqb (fst g) k) groups with
      | Some g => (k, r :: snd g) :: List.filter (fun g => negb (pg_eqb (fst g) k)) groups
      | None => (k, [r]) :: groups
      end
  end.

(** [GROUP BY bucket_epoch ORDER BY bucket_epoch ASC] of a selection. *)
Definition bucket_groups (bucket_secs : Z) (p : Share -> bool) (d : Db) : list (f64 * list Share) :=
  sort_by (fun a b => pg_leb (fst a) (fst b))
    (group_by (bucket_epoch bucket_secs) (List.filter p (db_shares d))).

(** [f64::round]: half away from zero. *)
Definition f64_round (x : f64) : f64 :=
  match x with
  | S754_finite s m e =>
      if 0 <=? e then x
      else let q := (2 * Zpos m + 2 ^ (- e)) / (2 * 2 ^ (- e)) in
           if s then f64_of_Z (- q) else f64_of_Z q
  | _ => x
  end.

Section Series.
(** Which seconds [DateTime::from_timestamp] can represent. *)
Variable in_chrono_range : Z -> bool.

Definition bucket_start_of (what : string) (epoch : f64) : result Z DbError :=
  let secs := f64_as_i64 (f64_round epoch) in
  if in_chrono_range secs then Ok (secs * 1000000)
  else Err (Config (what +:+ ": bucket epoch out of range")).

Fixpoint map_result {A B} (f : A -> result B DbError) (l : list A) : result (list B) DbError :=
  match l with
  | [] => Ok []
  | x :: l => let? y := f x in let? ys := map_result f l in Ok (y :: ys)
  end.

Definition point_from_row (bucket_secs until : Z) (row : f64 * option f64) : result HashratePoint DbError :=
  let? bucket_start := bucket_start_of "hashrate series" (fst row) in
  let effective := bucket_effective_secs bucket_start until bucket_secs in
  Ok (mkPoint bucket_start (hashrate_hs (or_zero (snd row)) effective)
        (f64_ltb effective (f64_of_Z bucket_secs))).

Definition points_from_rows (rows : list (f64 * option f64)) (bucket_secs until : Z)
  : result (list HashratePoint) DbError :=
  map_result (point_from_row bucket_secs until) rows.

Definition series (what : string) (p : Share -> bool) (from until bucket_secs : Z) : DB (list HashratePoint) :=
  match validate_series_args from until bucket_secs what with
  | Err e => db_err e
  | Ok _ => db_read_checked (fun d =>
      let? rows := map_result (fun g : f64 * list Share => let? w := pg_sum (map sh_difficulty (snd g)) in
                                                          Ok (fst g, w))
                     (bucket_groups bucket_secs (fun s => p s && credited_in from until s) d) in
      points_from_rows rows bucket_secs until)
  end.

Definition hashrate_series_pool_wide : Z -> Z -> Z -> DB (list HashratePoint) :=
  series "hashrate_series_pool_wide" (fun _ => true).
Definition hashrate_series_for_wallet (wallet_id : Z) : Z -> Z -> Z -> DB (list HashratePoint) :=
  series "hashrate_series_for_wallet" (of_wallet wallet_id).

Record ActiveMinersPoint := mkMinersPoint { am_bucket_start : Z; am_miners : Z }.

Definition active_wallets_series (from until bucket_secs : Z) : DB (list ActiveMinersPoint) :=
  match validate_series_args from until bucket_secs "active_wallets_series" with
  | Err e => db_err e
  | Ok _ => db_read_checked (fun d =>
      map_result (fun g : f64 * list Share =>
                    let? bucket_start := bucket_start_of "active miners series" (fst g) in
                    Ok (mkMinersPoint bucket_start (count_distinct (map sh_wallet_id (snd g)))))
        (bucket_groups bucket_secs (credited_in from until) d))
  end.
End Series.

(** ** The leaderboard *)

Record LeaderboardEntry := mkLeader {
  le_address : string;
  le_network : string;
  le_accepted_shares : Z;
  le_total_weight : f64;
  le_hashrate_hs : f64
}.

Record LeaderRow := mkLeaderRow { lr_wallet : Wallet; lr_count : Z; lr_weight : f64 }.

(** [ORDER BY total_weight DESC, accepted_shares DESC, w.id ASC] *)
Definition leader_before (a b : LeaderRow) : bool :=
  pg_ltb (lr_weight b) (lr_weight a)
  || (pg_eqb (lr_weight a) (lr_weight b)
      && ((lr_count b <? lr_count a)
          || ((lr_count a =? lr_count b) && (w_id (lr_wallet a) <=? w_id (lr_wallet b))))).

(** The inner join drops wallets without a share in the window. *)
Fixpoint leader_rows (since until : Z) (d : Db) (wallets : list Wallet) : result (list LeaderRow) DbError :=
  match wallets with
  | [] => Ok []
  | w :: wallets =>
      let p s := of_wallet (w_id w) s && credited_in since until s in
      let? weight := weight_of p d in
      let? rows := leader_rows since until d wallets in
      Ok (match weight with Some x => mkLeaderRow w (count_of p d) x :: rows | None => rows end)
  end.

Definition leaderboard (since until limit : Z) : DB (list LeaderboardEntry) :=
  if until <=? since then db_err (Config "leaderboard: until must be after since")
  else db_read_checked (fun d =>
    let? rows := leader_rows since until d (db_wallets d) in
    let? rows := sql_limit limit (sort_by leader_before rows) in
    let pool_first := match rows with [] => None | _ => first_credited (credited_in since until) d end in
    let secs := effective_window_secs since until pool_first in
    Ok (map (fun r => mkLeader (w_address (lr_wallet r)) (w_network (lr_wallet r)) (lr_count r) (lr_weight r)
                        (hashrate_hs (lr_weight r) secs)) rows)).

(** ** The order of doubles *)

(** NaN is above every value, the two zeroes are equal. *)
Definition pg_rank (x : f64) : Z * Z * Z :=
  match x with
  | S754_nan => (3, 0, 0)
  | S754_infinity false => (2, 0, 0)
  | S754_finite false m e => (1, e, Zpos m)
  | S754_zero _ => (0, 0, 0)
  | S754_finite true m e => (-1, - e, - Zpos m)
  | S754_infinity true => (-2, 0, 0)
  end.

Definition rank_le (a b : Z * Z * Z) : Prop :=
  let '(a1, a2, a3) := a in let '(b1, b2, b3) := b in
  a1 < b1 \/ a1 = b1 /\ (a2 < b2 \/ a2 = b2 /\ a3 <= b3).

Lemma pg_leb_rank x y : pg_leb x y = true <-> rank_le (pg_rank x) (pg_rank y).
Proof.
  unfold pg_leb, f64_leb, SFleb, rank_le.
  destruct x as [sx|sx| |sx mx ex], y as [sy|sy| |sy my ey]; try destruct sx; try destruct sy; cbn;
    try (destruct (Z.compare_spec ex ey)); try (split; [intros|]; (done || lia)).
  all: change (Pos.compare_cont Eq mx my) with (Z.compare (Zpos mx) (Zpos my));
    destruct (Z.compare_spec (Zpos mx) (Zpos my)); cbn; split; intros; (done || lia).
Qed.

Lemma pg_leb_total x y : pg_leb x y = true \/ pg_leb y x = true.
Proof.
  rewrite !pg_leb_rank. unfold rank_le. destruct (pg_rank x) as [[a b] c], (pg_rank y) as [[a' b'] c']. lia.
Qed.

Lemma pg_leb_trans x y z : pg_leb x y = true -> pg_leb y z = true -> pg_leb x z = true.
Proof.
  rewrite !pg_leb_rank. unfold rank_le.
  destruct (pg_rank x) as [[a b] c], (pg_rank y) as [[a' b'] c'], (pg_rank z) as [[a'' b''] c'']. lia.
Qed.

Lemma pg_eqb_iff x y : pg_eqb x y = true <-> pg_rank x = pg_rank y.
Proof.
  unfold pg_eqb. rewrite andb_true_iff, !pg_leb_rank. unfold rank_le.
  destruct (pg_rank x) as [[a b] c], (pg_rank y) as [[a' b'] c']. split.
  - intros. f_equal; [f_equal|]; lia.
  - intros [= -> -> ->]. lia.
Qed.

Lemma pg_eqb_refl x : pg_eqb x x = true.
Proof. by apply pg_eqb_iff. Qed.

(** ** Grouping loses and duplicates nothing *)

Section Groups.
Context {A : Type} (key : A -> f64).

(** Groups with distinct keys, each holding only its own rows. *)
Record groups_ok (gs : list (f64 * list A)) : Prop := {
  go_distinct : NoDup (map (fun g => pg_rank (fst g)) gs);
  go_members : forall k rows, In (k, rows) gs -> rows <> [] /\ forall r, In r rows -> pg_eqb (key r) k = true
}.

Lemma filter_all {B} (f : B -> bool) l : (forall x, In x l -> f x = true) -> List.filter f l = l.
Proof.
  induction l as [|x l IH]; intros H; simpl; [done|]. rewrite (H x) by now left.
  f_equal. apply IH. intros y Hy. apply H. now right.
Qed.

Lemma group_by_ok rows : groups_ok (group_by key rows) /\ Permutation (flat_map snd (group_by key rows)) rows.
Proof.
  induction rows as [|r rows [[N M] P]]; simpl; [split; [split; [constructor|intros ? ? []]|done]|].
  set (gs := group_by key rows) in *. destruct (List.find (fun g => pg_eqb (fst g) (key r)) gs) as [[k grp]|] eqn:F.
  - apply List.find_some in F as [Hin E]. cbn in E. split; [split; cbn|cbn].
    + constructor.
      * rewrite list_elem_of_In, in_map_iff. intros (g & Eg & Hg). apply filter_In in Hg as [_ Hg].
        apply negb_true_iff in Hg. apply pg_eqb_iff in Eg. congruence.
      * apply NoDup_ListNoDup, NoDup_map_filter. by apply NoDup_ListNoDup.
    + intros k' rows' [[= <- <-]|H].
      * split; [done|]. intros x [->|Hx]; [apply pg_eqb_refl|]. destruct (M _ _ Hin) as [_ Hk].
        specialize (Hk x Hx). apply pg_eqb_iff in Hk, E. apply pg_eqb_iff. congruence.
      * apply filter_In in H as [H _]. by apply M.
    + apply perm_skip. rewrite <- P. clear P M. induction gs as [|[k1 g1] gs IH]; [done|].
      cbn in N. apply NoDup_cons in N as [N1 N]. cbn. destruct Hin as [[= -> ->]|Hin].
      * rewrite E. cbn. apply Permutation_app_head. rewrite filter_all; [done|].
        intros g Hg. apply negb_true_iff, not_true_iff_false. intros Eg. apply N1.
        rewrite list_elem_of_In, in_map_iff. exists g. split; [|done]. apply pg_eqb_iff in E, Eg. congruence.
      * destruct (pg_eqb k1 (key r)) eqn:E1.
        { exfalso. apply N1. rewrite list_elem_of_In, in_map_iff. exists (k, grp). split; [|done].
          apply pg_eqb_iff in E, E1. cbn. congruence. }
        cbn. rewrite <- (IH N Hin). rewrite !app_assoc. apply Permutation_app_tail, Permutation_app_comm.
  - split; [split; cbn|cbn; by apply perm_skip].
    + constructor; [|done]. rewrite list_elem_of_In, in_map_iff. intros (g & Eg & Hg).
      apply (List.find_none _ _ F) in Hg. apply pg_eqb_iff in Eg. congruence.
    + intros k' rows' [[= <- <-]|H]; [|by apply M]. split; [done|]. intros x [->|[]]. apply pg_eqb_refl.
Qed.
End Groups.

Lemma bucket_groups_ok b p d :
  groups_ok (bucket_epoch b) (bucket_groups b p d) /\
  Permutation (flat_map snd (bucket_groups b p d)) (List.filter p (db_shares d)) /\
  StronglySorted (fun g h => pg_leb (fst g) (fst h) = true) (bucket_groups b p d).
Proof.
  unfold bucket_groups. set (gs := group_by _ _). destruct (group_by_ok (bucket_epoch b) (List.filter p (db_shares d)))
    as [[N M] P]. fold gs in N, M, P.
  pose proof (sort_by_perm (fun g h : f64 * list Share => pg_leb (fst g) (fst h)) gs) as Q.
  split; [split|split].
  - by rewrite <- Q.
  - intros k rows H. apply M. eapply Permutation_in; [symmetry; exact Q|exact H].
  - rewrite <- P. apply Permutation_flat_map. by symmetry.
  - apply (sort_by_sorted (fun g h : f64 * list Share => pg_leb (fst g) (fst h))).
    + intros g h. apply pg_leb_total.
    + intros g h i. apply pg_leb_trans.
Qed.

Lemma map_result_Forall2 {A B} (f : A -> result B DbError) l ys :
  map_result f l = Ok ys -> Forall2 (fun x y => f x = Ok y) l ys.
Proof.
  revert ys. induction l as [|x l IH]; intros ys H; simpl in H; [injection H as <-; constructor|].
  apply rbind_ok in H as (y & Ey & H). apply rbind_ok in H as (ys' & E & [= <-]). constructor; auto.
Qed.

(** What the rows of a series are made from: each selected share is in exactly one
    group, the groups ascend, and a share's group is its own bucket. *)
Record series_groups (b : Z) (sel : list Share) (groups : list (f64 * list Share)) : Prop := {
  sg_once : Permutation (flat_map snd groups) sel;
  sg_distinct : NoDup (map (fun g => pg_rank (fst g)) groups);
  sg_ascending : StronglySorted (fun g h => pg_leb (fst g) (fst h) = true) groups;
  sg_own : forall k rows s, In (k, rows) groups -> In s rows -> pg_eqb (bucket_epoch b s) k = true
}.

Lemma bucket_groups_series b p d : series_groups b (List.filter p (db_shares d)) (bucket_groups b p d).
Proof.
  destruct (bucket_groups_ok b p d) as ([N M] & P & S). split; [done..|].
  intros k rows s Hg Hs. destruct (M k rows Hg) as [_ H]. by apply H.
Qed.

(** A hashrate series accounts for every share of its range exactly once: the
    selected shares are partitioned into the points' buckets, each point's rate is
    its bucket's summed difficulty over the bucket's seconds, the points ascend
    without repeating a bucket, empty buckets have no point, and nothing is
    written. *)
Theorem series_counts_each_share_once in_range what p from until b d pts d' :
  series in_range what p from until b d = Ok (pts, d') ->
  d' = d /\ from < until /\ 0 < b /\
  exists groups,
    series_groups b (List.filter (fun s => p s && credited_in from until s) (db_shares d)) groups /\
    Forall2 (fun g pt => exists w, pg_sum (map sh_difficulty (snd g)) = Ok w /\ snd g <> [] /\
                           point_from_row in_range b until (fst g, w) = Ok pt) groups pts.
Proof.
  unfold series, validate_series_args. destruct (Z.leb_spec until from); [discriminate|].
  destruct (Z.leb_spec b 0); [discriminate|]. cbn. unfold db_read_checked.
  set (sel := fun s => _ && _). intros H1. destruct (rbind _ _) as [pts'|] eqn:E; [|discriminate].
  injection H1 as -> ->. repeat split; [lia..|]. exists (bucket_groups b sel d').
  split; [apply bucket_groups_series|]. apply rbind_ok in E as (rows & Er & Ep).
  apply map_result_Forall2 in Er. unfold points_from_rows in Ep. apply map_result_Forall2 in Ep.
  destruct (bucket_groups_ok b sel d') as ([_ M] & _). revert pts Ep M.
  induction Er as [|g row gs rows Eg _ IH]; intros pts Ep M; inversion Ep as [|? pt ? pts'' Ept Ep']; subst; constructor.
  - apply rbind_ok in Eg as (w & Ew & [= <-]). exists w. split; [done|]. split; [|done].
    destruct g as [k grp]. by destruct (M k grp (or_introl eq_refl)).
  - apply IH; [done|]. intros k grp Hg. apply M. by right.
Qed.

(** ** Concrete series *)

(** One share of difficulty one at each of the given instants. *)
Definition shares_at (times : list Z) : Db :=
  set_shares (map (fun t => mkShare t 3 103 None (f64_of_Z 1) 100 t "share") times) empty_db.

Definition any_second (_ : Z) : bool := true.

Lemma series_counts_each_share_once_witness :
  exists pts, series any_second "series" (fun _ => true) 0 130000000 60
      (shares_at [59000000; 61000000; 100000000; 125000000]) = Ok (pts, shares_at [59000000; 61000000; 100000000; 125000000]) /\
    map (fun p => (hp_bucket_start p, hp_is_partial p)) pts = [(0, false); (60000000, false); (120000000, true)] /\
    exists groups : list (f64 * list Share), Permutation (flat_map snd groups)
      (db_shares (shares_at [59000000; 61000000; 100000000; 125000000])).
Proof.
  eexists. split; [vm_compute; reflexivity|]. split; [vm_compute; reflexivity|].
  edestruct (series_counts_each_share_once any_second "series" (fun _ => true) 0 130000000 60
    (shares_at [59000000; 61000000; 100000000; 125000000])) as (_ & _ & _ & groups & [P _ _ _] & _);
    [vm_compute; reflexivity|].
  exists groups. exact P.
Defined.
