(* ===== verification/BlockSpec.v ===== *)
(** * The block lifecycle ([crates/katpool-db/src/repo/block.rs])

    Every block row moves only along [found -> submitted_to_node ->
    confirmed_blue -> matured], or to [orphaned] before it matures; its time
    stamps say which steps it took; on a well-formed table no lifecycle update
    (with a non-negative reward) can fail a [CHECK]. *)
From Stdlib Require Import SpecFloat.
From S2P Require Import Prelude F64 FeeModel Schema PayoutDb Domain AccountDb IngestDb.
Open Scope Z_scope.

(** ** The state machine *)

Inductive lifecycle : BlockStatus -> BlockStatus -> Prop :=
| LcSubmit : lifecycle Found SubmittedToNode
| LcConfirm : lifecycle SubmittedToNode ConfirmedBlue
| LcMature : lifecycle ConfirmedBlue Matured
| LcOrphan s : s <> Matured -> lifecycle s Orphaned.

Lemma matured_is_terminal s : rtc lifecycle Matured s -> s = Matured.
Proof. intros H. inversion H as [|? ? ? L]; [done|]. inversion L; congruence. Qed.

Lemma orphaned_is_terminal s : rtc lifecycle Orphaned s -> s = Orphaned.
Proof.
  intros H. remember Orphaned as o eqn:E. induction H as [|x y z L _ IH]; [done|]. subst.
  inversion L; subst. auto.
Qed.

(** The columns no update touches. *)
Record same_block (b b' : Block) : Prop := {
  sb_id : bk_id b' = bk_id b;
  sb_hash : bk_hash b' = bk_hash b;
  sb_wallet : bk_finder_wallet_id b' = bk_finder_wallet_id b;
  sb_worker : bk_finder_worker_id b' = bk_finder_worker_id b;
  sb_daa : bk_daa_score b' = bk_daa_score b;
  sb_found : bk_found_at b' = bk_found_at b
}.

#[export] Instance same_block_preorder : PreOrder same_block.
Proof.
  split; [intros b; split; done|]. intros a b c [? ? ? ? ? ?] [? ? ? ? ? ?]. split; congruence.
Qed.

Definition opt_le (o : option Z) (hi : Z) : Prop := match o with Some t => t <= hi | None => True end.

(** The time stamps agree with the status. *)
Definition stamps_ok (b : Block) : Prop :=
  match bk_status b with
  | Found => bk_submitted_at b = None /\ bk_confirmed_at b = None /\ bk_matured_at b = None
  | SubmittedToNode =>
      is_Some (bk_submitted_at b) /\ bk_confirmed_at b = None /\ bk_matured_at b = None
  | ConfirmedBlue => is_Some (bk_submitted_at b) /\ is_Some (bk_confirmed_at b) /\ bk_matured_at b = None
  | Matured => is_Some (bk_submitted_at b) /\ is_Some (bk_confirmed_at b) /\ is_Some (bk_matured_at b)
               /\ is_Some (bk_miner_reward_sompi b)
  | Orphaned => bk_matured_at b = None
  end.

Record block_ok (now : Z) (b : Block) : Prop := {
  bo_check : block_check b = true;
  bo_found : bk_found_at b <= now;
  bo_submitted : opt_le (bk_submitted_at b) now;
  bo_confirmed : opt_le (bk_confirmed_at b) now;
  bo_matured : opt_le (bk_matured_at b) now;
  bo_stamps : stamps_ok b
}.

Record blocks_wf (d : Db) : Prop := {
  bw_hashes : List.NoDup (map bk_hash (db_blocks d));
  bw_rows : Forall (block_ok (db_now d)) (db_blocks d)
}.

(** One write of the block table, or a write elsewhere while the clock moves on. *)
Inductive block_step (d : Db) : Db -> Prop :=
| BsInsert hash wallet worker daa nonce cid id d' :
    block_insert hash wallet worker daa nonce cid d = Ok (id, d') -> block_step d d'
| BsEnsure hash wallet worker daa nonce cid r d' :
    block_ensure hash wallet worker daa nonce cid d = Ok (r, d') -> block_step d d'
| BsSubmitted hash d' : mark_submitted hash d = Ok (tt, d') -> block_step d d'
| BsConfirmed hash blue d' : mark_confirmed_blue hash blue d = Ok (tt, d') -> block_step d d'
| BsMatured hash reward d' : mark_matured hash reward d = Ok (tt, d') -> block_step d d'
| BsOrphaned hash d' : mark_orphaned hash d = Ok (tt, d') -> block_step d d'
| BsElsewhere d' : db_blocks d' = db_blocks d -> db_now d <= db_now d' -> block_step d d'.

(** ** Rows *)

Lemma block_ok_later now now' b : now <= now' -> block_ok now b -> block_ok now' b.
Proof.
  intros Hle [? ? Hs Hc Hm ?]. split; try done; try lia; unfold opt_le in *; break_match; lia || done.
Qed.

(** Each update keeps a good row good and takes one step of the machine. *)
Definition good_update (now : Z) (p : Block -> bool) (f : Block -> Block) : Prop :=
  forall b, block_ok now b -> p b = true -> block_check (f b) = true ->
    block_ok now (f b) /\ same_block b (f b) /\ rtc lifecycle (bk_status b) (bk_status (f b)).

Ltac row_update :=
  intros b [Hk Hf Hs Hc Hm Ht] Hp Hk'; to_prop; unfold status_in in *;
  repeat match goal with H : bool_decide _ = true |- _ => apply bool_decide_eq_true in H end;
  unfold stamps_ok in Ht;
  destruct (bk_status b) eqn:St; try (exfalso; set_solver);
  (split; [split; simpl; auto; unfold stamps_ok; simpl; unfold coalesce, opt_le in *;
             repeat break_match; eauto; try lia; naive_solver
          |split; [split; done|simpl; try (apply rtc_once; constructor; done); try apply rtc_refl]]).

Lemma submitted_good now hash :
  good_update now (fun b => has_hash hash b && status_in [Found; SubmittedToNode] b) (to_submitted now).
Proof. row_update. Qed.

Lemma confirmed_good now hash blue :
  good_update now (fun b => has_hash hash b && status_in [SubmittedToNode; ConfirmedBlue] b)
    (to_confirmed_blue now blue).
Proof. row_update. Qed.

Lemma matured_good now hash reward :
  good_update now (fun b => has_hash hash b && status_in [ConfirmedBlue; Matured] b)
    (to_matured now reward).
Proof. row_update. Qed.

Lemma orphaned_good now hash :
  good_update now (fun b => has_hash hash b && negb (status_in [Matured] b)) to_orphaned.
Proof.
  intros b [Hk Hf Hs Hc Hm Ht] Hp Hk'. to_prop. unfold status_in in *.
  assert (bk_status b <> Matured) as Hne.
  { intros E. rewrite bool_decide_eq_false in H0. set_solver. }
  split; [|split; [split; done|apply rtc_once; by constructor]].
  split; simpl; auto. unfold stamps_ok in *. simpl. destruct (bk_status b); naive_solver.
Qed.

(** ** The table *)

(** What a step does to each row. *)
Definition rows_advance (d d' : Db) : Prop :=
  forall b, In b (db_blocks d) ->
    exists b', In b' (db_blocks d') /\ same_block b b' /\ rtc lifecycle (bk_status b) (bk_status b').

Lemma rows_advance_same d d' : db_blocks d' = db_blocks d -> rows_advance d d'.
Proof. intros E b Hb. exists b. rewrite E. split; [done|]. split; [reflexivity|apply rtc_refl]. Qed.

Lemma rows_advance_trans d1 d2 d3 : rows_advance d1 d2 -> rows_advance d2 d3 -> rows_advance d1 d3.
Proof.
  intros H1 H2 b Hb. destruct (H1 b Hb) as (b' & Hb' & S1 & L1).
  destruct (H2 b' Hb') as (b'' & Hb'' & S2 & L2).
  exists b''. split; [done|]. split; [by transitivity b'|by transitivity (bk_status b')].
Qed.

Lemma update_blocks_step p f d d' :
  good_update (db_now d) p f -> blocks_wf d -> update_blocks p f d = Ok (tt, d') ->
  blocks_wf d' /\ rows_advance d d'.
Proof.
  intros G [Hn Hr] H. unfold update_blocks in H.
  destruct (tbl_update _ _ _ _) as [[rows n]|] eqn:E; [|discriminate]. inv_eqs.
  assert (forall b, In b (db_blocks d) -> p b = true -> block_check (f b) = true) as Hc.
  { intros b Hb Hp. unfold tbl_update in E. destruct (forallb _ _) eqn:F; [|discriminate].
    rewrite forallb_forall in F. specialize (F b Hb). rewrite Hp in F. exact F. }
  apply tbl_update_ok in E as [-> _]. rewrite List.Forall_forall in Hr.
  assert (forall b, In b (db_blocks d) ->
            let b' := if p b then f b else b in
            block_ok (db_now d) b' /\ same_block b b' /\ rtc lifecycle (bk_status b) (bk_status b')) as K.
  { intros b Hb. simpl. destruct (p b) eqn:Hp; [by apply G; auto|].
    split; [auto|]. split; [reflexivity|apply rtc_refl]. }
  split; [split; simpl|].
  - rewrite List.map_map. erewrite map_ext_in; [exact Hn|]. intros b Hb. apply (K b Hb).
  - apply List.Forall_forall. intros x Hx. apply in_map_iff in Hx as (b & <- & Hb). apply (K b Hb).
  - intros b Hb. destruct (K b Hb) as (_ & S & L). simpl.
    eexists. split; [apply in_map; exact Hb|]. by split.
Qed.

Lemma find_hash_none hash l : List.find (has_hash hash) l = None -> ~ In hash (map bk_hash l).
Proof.
  intros F H. apply in_map_iff in H as (b & E & Hb). eapply List.find_none in F; [|exact Hb].
  unfold has_hash in F. rewrite bool_decide_eq_false in F. congruence.
Qed.

(** A new block starts in [found], and its hash was not there. *)
Lemma block_append_step d row id d' :
  blocks_wf d -> block_check row = true -> bk_found_at row = db_now d -> bk_status row = Found ->
  bk_submitted_at row = None -> bk_confirmed_at row = None -> bk_matured_at row = None ->
  List.find (has_hash (bk_hash row)) (db_blocks d) = None ->
  block_append row d = Ok (id, d') -> blocks_wf d' /\ rows_advance d d'.
Proof.
  intros [Hn Hr] Hk Hf Hs H1 H2 H3 F H. unfold block_append in H.
  destruct (has_wallet _ _ && _); [|discriminate]. inv_eqs. split; [split; simpl|].
  - rewrite map_app. apply NoDup_app_snoc; [exact Hn|]. by apply find_hash_none.
  - apply Forall_app. split; [exact Hr|]. constructor; [|constructor].
    split; rewrite ?H1, ?H2, ?H3; simpl; auto; [lia|]. unfold stamps_ok. rewrite Hs. auto.
  - intros b Hb. exists b. simpl. split; [apply in_app_iff; by left|]. split; [reflexivity|apply rtc_refl].
Qed.

Lemma block_step_ok d d' : blocks_wf d -> block_step d d' -> blocks_wf d' /\ rows_advance d d'.
Proof.
  intros W S. destruct S as [hash ? ? ? ? ? ? d' H|hash ? ? ? ? ? r d' H|hash d' H|hash ? d' H|
                             hash ? d' H|hash d' H|d' E Hle].
  - unfold block_insert in H. break_match_in H; [discriminate|]. break_match_in H; [discriminate|].
    to_prop. eapply block_append_step; [exact W|..|exact H]; simpl; auto.
  - unfold block_ensure in H. break_match_in H; [discriminate|]. break_match_in H.
    + inv_eqs. split; [done|]. by apply rows_advance_same.
    + to_prop. apply db_bind_ok in H as (x & d1 & H & E). unfold db_ret in E. inv_eqs.
      eapply block_append_step; [exact W|..|exact H]; simpl; auto.
  - eapply update_blocks_step; [apply submitted_good|done|exact H].
  - eapply update_blocks_step; [apply confirmed_good|done|exact H].
  - eapply update_blocks_step; [apply matured_good|done|exact H].
  - eapply update_blocks_step; [apply orphaned_good|done|exact H].
  - destruct W as [Hn Hr]. split; [split; rewrite E; [done|]|by apply rows_advance_same].
    eapply Forall_impl; [exact Hr|]. intros b. by apply block_ok_later.
Qed.

Lemma block_steps_ok d d' : blocks_wf d -> rtc block_step d d' -> blocks_wf d' /\ rows_advance d d'.
Proof.
  intros W S. induction S as [d|d d1 d2 S _ IH]; [split; [done|by apply rows_advance_same]|].
  destruct (block_step_ok _ _ W S) as [W1 R1]. destruct (IH W1) as [W2 R2].
  split; [done|by eapply rows_advance_trans].
Qed.

(** C40. The lifecycle of a block: whatever writes follow, its row stays, with the same
    hash, finder and score, and its status has only moved along the machine; a
    matured block stays matured and an orphaned one orphaned; hashes stay unique
    and the time stamps of every row say which steps it took. *)
Theorem block_lifecycle d d' b :
  blocks_wf d -> rtc block_step d d' -> In b (db_blocks d) ->
  blocks_wf d' /\
  exists b', In b' (db_blocks d') /\ same_block b b' /\
    rtc lifecycle (bk_status b) (bk_status b') /\ stamps_ok b' /\
    (bk_status b = Matured -> bk_status b' = Matured) /\
    (bk_status b = Orphaned -> bk_status b' = Orphaned).
Proof.
  intros W S Hb. destruct (block_steps_ok _ _ W S) as [W' R]. split; [done|].
  destruct (R b Hb) as (b' & Hb' & SB & L). exists b'. split; [done|]. split; [done|]. split; [done|].
  split.
  - destruct W' as [_ Hr]. rewrite List.Forall_forall in Hr. apply (Hr b' Hb').
  - split; intros E; rewrite E in L; [by apply matured_is_terminal|by apply orphaned_is_terminal].
Qed.

(** On a well-formed table the updates of the consumer and of the maturity sweep
    return: no [CHECK] can fail them. *)
Theorem lifecycle_updates_total d hash :
  blocks_wf d ->
  (exists d', mark_submitted hash d = Ok (tt, d')) /\
  (exists d', mark_confirmed_blue hash None d = Ok (tt, d')) /\
  (exists d', mark_orphaned hash d = Ok (tt, d')) /\
  (forall reward, 0 <= reward -> exists d', mark_matured hash reward d = Ok (tt, d')).
Proof.
  intros [_ Hr]. rewrite List.Forall_forall in Hr.
  repeat split; intros; unfold mark_submitted, mark_confirmed_blue, mark_orphaned, mark_matured, update_blocks;
    (rewrite tbl_update_total; [by eexists|]); intros b Hb Hp; destruct (Hr b Hb) as [Hk Hf Hs Hc Hm Ht];
    to_prop; unfold status_in, block_check, stamps_ok, opt_le, opt_ge in *; simpl;
    repeat match goal with H : bool_decide _ = true |- _ => apply bool_decide_eq_true in H end;
    to_prop; repeat (apply andb_true_iff; split); try done; unfold coalesce;
    destruct (bk_status b); try (exfalso; set_solver); destruct_and?;
    repeat match goal with
           | H : is_Some _ |- _ => destruct H as [? H]
           | H : bk_submitted_at b = _ |- _ => rewrite H in *
           | H : bk_confirmed_at b = _ |- _ => rewrite H in *
           | H : bk_matured_at b = _ |- _ => rewrite H in *
           end; try done; try (by apply Nat.eqb_eq); try (apply Z.leb_le; lia).
Qed.

(** ** A concrete history *)

Definition sample_hash : bytes := repeat 7 32.

Definition sample_block_db : Db :=
  mkDb 50 9 [sample_wallet 3 "miner"] [] [] [] [] [] [] [] [] ∅ []
    [mkWorker 4 3 "rig" 1 1] [] [] [mkBlock 8 sample_hash 3 4 100 None 0 Found 40 None None None None "b"].

Lemma sample_block_wf : blocks_wf sample_block_db.
Proof.
  split; simpl; [repeat constructor; simpl; tauto|]. constructor; [|constructor].
  split; simpl; auto; [lia|]. unfold stamps_ok. simpl. auto.
Qed.

Lemma block_lifecycle_witness :
  exists d b', rtc block_step sample_block_db d /\ In b' (db_blocks d) /\ bk_status b' = Matured /\
    bk_hash b' = sample_hash.
Proof.
  pose (d1 := match mark_submitted sample_hash sample_block_db with Ok (_, d) => d | Err _ => empty_db end).
  pose (d2 := match mark_confirmed_blue sample_hash None d1 with Ok (_, d) => d | Err _ => empty_db end).
  pose (d3 := match mark_matured sample_hash 77 d2 with Ok (_, d) => d | Err _ => empty_db end).
  assert (S : rtc block_step sample_block_db d3).
  { eapply rtc_l; [eapply (BsSubmitted _ sample_hash d1); vm_compute; reflexivity|].
    eapply rtc_l; [eapply (BsConfirmed _ sample_hash None d2); vm_compute; reflexivity|].
    eapply rtc_l; [eapply (BsMatured _ sample_hash 77 d3); vm_compute; reflexivity|]. apply rtc_refl. }
  edestruct (block_lifecycle sample_block_db d3
    (mkBlock 8 sample_hash 3 4 100 None 0 Found 40 None None None None "b") sample_block_wf S)
    as (_ & b' & Hb & SB & _); [now left|].
  exists d3, b'. split; [exact S|]. split; [exact Hb|]. split; [|apply SB].
  vm_compute in Hb. destruct Hb as [<-|[]]. reflexivity.
Defined.

Lemma lifecycle_updates_total_witness : exists d', mark_orphaned sample_hash sample_block_db = Ok (tt, d').
Proof. apply (lifecycle_updates_total sample_block_db sample_hash sample_block_wf). Defined.
