(* ===== verification/Consumer.v ===== *)
(** * The event consumer ([accountant/src/consumer.rs], [error.rs])

    The bridge's events become rows: each handler is one transaction (two calls
    for an accepted block).  Any call may fail before it takes effect or lose its
    acknowledgement; the consumer logs the error and goes on. *)
From Stdlib Require Import SpecFloat.
From S2P Require Import Prelude F64 FeeModel Schema PayoutDb Domain AccountDb IngestDb SessionDb.
Open Scope Z_scope.

(** ** Events ([katpool-domain/src/events.rs]) *)

Inductive PoolEvent :=
| ShareCredited (wallet worker : text) (difficulty : f64) (daa_score ts : Z) (correlation_id : string)
| ShareRejected (wallet worker : text) (reason : ShareRejectReason) (ts : Z) (correlation_id : string)
| BlockFound (wallet worker : text) (hash : bytes) (daa_score ts : Z) (correlation_id : string)
| BlockAccepted (hash : bytes) (ts : Z) (correlation_id : string)
| SessionOpened (conn_id : Z) (wallet worker : option text) (remote_ip : text)
    (remote_app : option string) (connected_at : Z) (correlation_id : string)
| SessionClosed (conn_id : Z) (wallet worker : option text) (remote_ip : text)
    (remote_app : option string) (connected_at ts : Z) (correlation_id : string).

(** ** Errors and configuration *)

Inductive EventError :=
| WalletEnsure (e : DbError)
| WorkerEnsure (e : DbError)
| ShareInsert (e : DbError)
| ShareRejectInsert (e : DbError)
| UnknownRejectReason (reason : string)
| BlockEnsure (e : DbError)
| BlockMarkSubmitted (e : DbError)
| OrphanBlockAccepted (hash : text)
| SessionBadIp (ip : text)
| SessionRecord (e : DbError).

Definition VALID_NETWORKS : list string :=
  ["mainnet"; "testnet-10"; "testnet-11"; "devnet"; "simnet"]%string.

Record ConsumerConfig := mkConsumerConfig { cc_instance_id : string; cc_network : string }.

Inductive ConsumerConfigError := InvalidNetwork (supplied : string) (allowed : list string).

Definition ConsumerConfig_new (instance_id network : string) : result ConsumerConfig ConsumerConfigError :=
  if existsb (String.eqb network) VALID_NETWORKS
  then Ok (mkConsumerConfig instance_id network)
  else Err (InvalidNetwork network VALID_NETWORKS).

(** ** Handlers *)

(** The database, the rows opened per connection, and the number of database
    calls made. *)
Record CState := mkCState { cst_db : Db; cst_open : gmap Z Z; cst_calls : nat }.

Definition CM (A : Type) : Type := CState -> CState * result A EventError.
Definition cm_ret {A} (a : A) : CM A := fun s => (s, Ok a).
Definition cm_fail {A} (e : EventError) : CM A := fun s => (s, Err e).
Definition cm_bind {A B} (m : CM A) (k : A -> CM B) : CM B :=
  fun s => match m s with
           | (s', Ok a) => k a s'
           | (s', Err e) => (s', Err e)
           end.

(** Statements of one transaction; each maps its own error. *)
Definition ETX (A : Type) : Type := Db -> result (A * Db) EventError.
Definition etx_ret {A} (a : A) : ETX A := fun d => Ok (a, d).
Definition etx_bind {A B} (m : ETX A) (k : A -> ETX B) : ETX B :=
  fun d => match m d with Ok (a, d') => k a d' | Err e => Err e end.
Definition etx_db {A} (err : DbError -> EventError) (m : DB A) : ETX A := fun d => map_err err (m d).

Notation "x <-e m ;; k" := (etx_bind m (fun x => k))
  (at level 100, m at next level, right associativity) : kat_scope.
Notation "x <-c m ;; k" := (cm_bind m (fun x => k))
  (at level 100, m at next level, right associativity) : kat_scope.

Section Consumer.
Context (fault : nat -> Fault) (cfg : ConsumerConfig) (geoip : option (IpAddr -> option string)).

(** A transaction, or a single statement: [err] labels a lost connection. *)
Definition cm_call {A} (err : DbError -> EventError) (m : ETX A) : CM A :=
  fun s =>
    let next d := mkCState d (cst_open s) (S (cst_calls s)) in
    match fault (cst_calls s) with
    | FailBefore => (next (cst_db s), Err (err Connection))
    | NoFault =>
        match m (cst_db s) with
        | Ok (a, d') => (next d', Ok a)
        | Err e => (next (cst_db s), Err e)
        end
    | FailAfter =>
        match m (cst_db s) with
        | Ok (_, d') => (next d', Err (err Connection))
        | Err e => (next (cst_db s), Err e)
        end
    end.

(** [wallet::ensure] then [worker::ensure]. *)
Definition ensure_identity (wallet worker : text) : ETX (Z * Z) :=
  w <-e etx_db WalletEnsure (wallet_ensure wallet (cc_network cfg)) ;;
  wk <-e etx_db WorkerEnsure (worker_ensure (w_id w) worker) ;;
  etx_ret (w_id w, wk_id wk).

Definition handle_share_rejected (wallet worker : text) (reason : ShareRejectReason)
    (correlation_id : string) : CM unit :=
  match reject_try_from reason with
  | Err r => cm_fail (UnknownRejectReason r)
  | Ok db_reason =>
      cm_call ShareRejectInsert
        (ids <-e ensure_identity wallet worker ;;
         _ <-e etx_db ShareRejectInsert (reject_insert (fst ids) (snd ids) db_reason correlation_id) ;;
         etx_ret tt)
  end.

Definition share_tx (wallet worker : text) (difficulty : f64) (daa_score : Z) (correlation_id : string)
  : ETX unit :=
  ids <-e ensure_identity wallet worker ;;
  _ <-e etx_db ShareInsert
          (insert_credited (fst ids) (snd ids) None difficulty daa_score correlation_id) ;;
  etx_ret tt.

Definition handle_share_credited (wallet worker : text) (difficulty : f64) (daa_score : Z)
    (correlation_id : string) : CM unit :=
  cm_call ShareInsert (share_tx wallet worker difficulty daa_score correlation_id).

(** The event carries no nonce: 0 is recorded. *)
Definition handle_block_found (wallet worker : text) (hash : bytes) (daa_score : Z)
    (correlation_id : string) : CM unit :=
  cm_call BlockEnsure
    (ids <-e ensure_identity wallet worker ;;
     _ <-e etx_db BlockEnsure (block_ensure hash (fst ids) (snd ids) daa_score 0 correlation_id) ;;
     etx_ret tt).

Definition handle_block_accepted (hash : bytes) : CM unit :=
  existing <-c cm_call BlockMarkSubmitted (etx_db BlockMarkSubmitted (find_by_hash hash)) ;;
  match existing with
  | None => cm_fail (OrphanBlockAccepted (BlockHash_display hash))
  | Some _ => cm_call BlockMarkSubmitted (etx_db BlockMarkSubmitted (mark_submitted hash))
  end.

Definition country_of (ip : IpAddr) : option string :=
  match geoip with Some g => g ip | None => None end.

(** The worker of a session that authorised with both names. *)
Definition session_worker (wallet worker : option text) : ETX (option Z) :=
  match wallet, worker with
  | Some a, Some n => ids <-e ensure_identity a n ;; etx_ret (Some (snd ids))
  | _, _ => etx_ret None
  end.

Definition handle_session_opened (conn_id : Z) (wallet worker : option text) (remote_ip : text)
    (remote_app : option string) (connected_at : Z) : CM unit :=
  match parse_ip remote_ip with
  | None => cm_fail (SessionBadIp remote_ip)
  | Some ip =>
      session_id <-c cm_call SessionRecord
        (worker_id <-e session_worker wallet worker ;;
         etx_db SessionRecord (session_open worker_id ip remote_app (country_of ip) connected_at)) ;;
      fun s => (mkCState (cst_db s) (<[conn_id := session_id]> (cst_open s)) (cst_calls s), Ok tt)
  end.

Definition handle_session_closed (conn_id : Z) (wallet worker : option text) (remote_ip : text)
    (remote_app : option string) (connected_at disconnected_at : Z) : CM unit :=
  fun s =>
    let open_row := cst_open s !! conn_id in
    let s := mkCState (cst_db s) (delete conn_id (cst_open s)) (cst_calls s) in
    match open_row with
    | Some session_id => cm_call SessionRecord (etx_db SessionRecord (session_close session_id)) s
    | None =>
        match parse_ip remote_ip with
        | None => cm_fail (SessionBadIp remote_ip) s
        | Some ip =>
            cm_call SessionRecord
              (worker_id <-e session_worker wallet worker ;;
               _ <-e etx_db SessionRecord (record_closed worker_id ip remote_app (country_of ip)
                                             connected_at disconnected_at) ;;
               etx_ret tt) s
        end
    end.

(** Dispatch; errors are logged and dropped. *)
Definition dispatch (e : PoolEvent) : CM unit :=
  match e with
  | ShareCredited wallet worker difficulty daa _ cid =>
      handle_share_credited wallet worker difficulty daa cid
  | ShareRejected wallet worker reason _ cid => handle_share_rejected wallet worker reason cid
  | BlockFound wallet worker hash daa _ cid => handle_block_found wallet worker hash daa cid
  | BlockAccepted hash _ _ => handle_block_accepted hash
  | SessionOpened conn wallet worker ip app connected _ =>
      handle_session_opened conn wallet worker ip app connected
  | SessionClosed conn wallet worker ip app connected ts _ =>
      handle_session_closed conn wallet worker ip app connected ts
  end.

Definition handle_event (e : PoolEvent) (s : CState) : CState := fst (dispatch e s).

(** What the broadcast channel yields. *)
Inductive Recv := RecvEvent (e : PoolEvent) | RecvLagged (skipped : Z) | RecvClosed.

Definition step (r : Recv) (s : CState) : CState * bool :=
  match r with
  | RecvEvent e => (handle_event e s, true)
  | RecvLagged _ => (s, true)
  | RecvClosed => (s, false)
  end.

(** Close the sessions a previous process left open; a failure is only logged. *)
Definition startup_session_sweep (s : CState) : CState :=
  fst (cm_call SessionRecord (etx_db SessionRecord close_all_open) s).

Fixpoint run_from (rx : list Recv) (s : CState) : CState :=
  match rx with
  | [] => s
  | r :: rx => let '(s', continue) := step r s in if continue then run_from rx s' else s'
  end.

Definition run (rx : list Recv) (s : CState) : CState := run_from rx (startup_session_sweep s).

(** [replay_all] ([accountant/src/replay.rs]). *)
Definition replay_all (events : list PoolEvent) (s : CState) : CState :=
  fold_left (fun s e => handle_event e s) events s.
End Consumer.
