(* ===== verification/ConsumerSpec.v ===== *)
(** * What the event consumer guarantees

    Referential integrity of the rows it writes in every history, the exact
    effect of a credited share, and the gap between the addresses the pool
    accepts and those its database stores. *)
From Stdlib Require Import SpecFloat Ascii.
From S2P Require Import Prelude F64 FeeModel Schema PayoutDb Domain AccountDb IngestDb SessionDb.
From S2P Require Import BlockSpec Consumer Allocation.
Open Scope Z_scope.

(** ** Text columns *)

Definition latin (t : text) : Prop := Forall (fun c => 0 <= c < 256) t.

Lemma lit_to_column t : latin t -> lit (to_column t) = t.
Proof.
  intros H. unfold lit, to_column. rewrite String.list_ascii_of_string_of_list_ascii, List.map_map.
  induction H as [|c t Hc _ IH]; [done|]. simpl. rewrite IH, nat_ascii_embedding by lia. f_equal. lia.
Qed.

Lemma safe_worker_latin s : forallb is_safe_worker_char s = true -> latin s.
Proof.
  rewrite forallb_forall. intros H. apply List.Forall_forall. intros c Hc.
  apply H, safe_worker_ascii in Hc. lia.
Qed.

Lemma body_char_latin s : forallb is_body_char s = true -> latin s.
Proof.
  rewrite forallb_forall. intros H. apply List.Forall_forall. intros c Hc. apply H in Hc.
  unfold is_body_char, is_ascii_lowercase, is_ascii_digit in Hc. to_prop. destruct Hc; to_prop; lia.
Qed.

Lemma lit_latin s : latin (lit s).
Proof.
  unfold lit. apply Forall_map, List.Forall_forall. intros c _.
  pose proof (nat_ascii_bounded c). lia.
Qed.

Lemma address_latin a a' : WalletAddress_new a = Ok a' -> latin a.
Proof.
  unfold WalletAddress_new. destruct (find_map _ _) as [body|] eqn:F; [|discriminate].
  destruct (_ <? _); [discriminate|]. destruct (_ <? _); [discriminate|].
  destruct (List.find _ _) eqn:G; [discriminate|]. intros _. apply find_none_forallb in G.
  apply find_map_Some in F as (p & Hp & E). apply strip_prefix_Some in E as ->.
  apply Forall_app. split; [|by apply body_char_latin].
  unfold ACCEPTED_PREFIXES in Hp. apply in_map_iff in Hp as (q & <- & _). apply lit_latin.
Qed.

(** The two worker-name checks agree: the domain's and the migration's. *)
Lemma worker_charset_safe c : worker_charset c = is_safe_worker_char c.
Proof.
  unfold worker_charset, is_safe_worker_char, is_ascii_alphanumeric.
  destruct (is_ascii_uppercase c), (is_ascii_lowercase c), (is_ascii_digit c); done.
Qed.

(** ** The identity tables *)

Definition worker_key (k : Worker) : Z * string := (wk_wallet_id k, wk_name k).
Definition worker_ref (k : Worker) : Z * Z := (wk_id k, wk_wallet_id k).

Record ident_wf (d : Db) : Prop := {
  iw_ids : List.NoDup (map w_id (db_wallets d));
  iw_addresses : List.NoDup (map w_address (db_wallets d));
  iw_wallets : Forall (fun w => w_id w < db_seq d /\ wallet_check w = true /\
                         exists a, WalletAddress_new (lit (w_address w)) = Ok a) (db_wallets d);
  iw_workers : List.NoDup (map wk_id (db_workers d));
  iw_keys : List.NoDup (map worker_key (db_workers d));
  iw_worker_rows : Forall (fun k => wk_id k < db_seq d /\ worker_check k = true /\
                             In (wk_wallet_id k) (map w_id (db_wallets d))) (db_workers d);
  iw_shares : Forall (fun s => share_check s = true /\
                        In (sh_wallet_id s) (map w_id (db_wallets d)) /\
                        In (sh_worker_id s, sh_wallet_id s) (map worker_ref (db_workers d)))
                (db_shares d);
  iw_blocks : Forall (fun b => In (bk_finder_wallet_id b) (map w_id (db_wallets d)) /\
                        In (bk_finder_worker_id b, bk_finder_wallet_id b)
                          (map worker_ref (db_workers d))) (db_blocks d)
}.

(** Who a wallet and a worker are. *)
Definition wallet_name (w : Wallet) : Z * string := (w_id w, w_address w).
Definition worker_name (k : Worker) : Z * Z * string := (wk_id k, wk_wallet_id k, wk_name k).

(** The identity rows of [d'] are those of [d] and perhaps more. *)
Record ident_grow (d d' : Db) : Prop := {
  ig_wallets : incl (map wallet_name (db_wallets d)) (map wallet_name (db_wallets d'));
  ig_workers : incl (map worker_name (db_workers d)) (map worker_name (db_workers d'));
  ig_shares : db_shares d' = db_shares d;
  ig_blocks : db_blocks d' = db_blocks d;
  ig_now : db_now d' = db_now d;
  ig_seq : db_seq d <= db_seq d'
}.

(** Refreshing rows. *)
Lemma touch_wallets_wf d p :
  ident_wf d ->
  let d' := set_wallets (map (fun r => if p r : bool then touch_wallet (db_now d) r else r)
                           (db_wallets d)) d in
  ident_wf d' /\ ident_grow d d'.
Proof.
  intros [W1 W2 W3 W4 W5 W6 W7 W8].
  assert (forall {B} (f : Wallet -> B), (forall now w, f (touch_wallet now w) = f w) ->
            map f (map (fun r => if p r then touch_wallet (db_now d) r else r) (db_wallets d))
            = map f (db_wallets d)) as M.
  { intros B f Hf. apply map_id_update. intros x. destruct (p x); auto. }
  split; split; simpl; rewrite ?M by done; try done; try apply incl_refl.
  apply List.Forall_forall. intros x Hx. apply in_map_iff in Hx as (y & <- & Hy).
  rewrite List.Forall_forall in W3. specialize (W3 y Hy). destruct (p y); exact W3.
Qed.

Lemma touch_workers_wf d p :
  ident_wf d ->
  let d' := set_workers (map (fun r => if p r : bool then touch_worker (db_now d) r else r)
                           (db_workers d)) d in
  ident_wf d' /\ ident_grow d d'.
Proof.
  intros [W1 W2 W3 W4 W5 W6 W7 W8].
  assert (forall {B} (f : Worker -> B), (forall now w, f (touch_worker now w) = f w) ->
            map f (map (fun r => if p r then touch_worker (db_now d) r else r) (db_workers d))
            = map f (db_workers d)) as M.
  { intros B f Hf. apply map_id_update. intros x. destruct (p x); auto. }
  split; split; simpl; rewrite ?M by done; try done; try apply incl_refl.
  apply List.Forall_forall. intros x Hx. apply in_map_iff in Hx as (y & <- & Hy).
  rewrite List.Forall_forall in W6. specialize (W6 y Hy). destruct (p y); exact W6.
Qed.

(** New rows. *)
Lemma fresh_id {R} (id : R -> Z) (P : R -> Prop) (rows : list R) seq :
  Forall (fun r => id r < seq /\ P r) rows -> ~ In seq (map id rows).
Proof.
  intros H Hin. apply in_map_iff in Hin as (x & E & Hx). rewrite List.Forall_forall in H.
  destruct (H x Hx). lia.
Qed.

Lemma incl_map_snoc {A B} (f : A -> B) l x : incl (map f l) (map f (l ++ [x])).
Proof. intros y Hy. rewrite map_app. apply in_app_iff. by left. Qed.

Lemma new_wallet_wf d w :
  ident_wf d -> w_id w = db_seq d -> wallet_check w = true ->
  (exists a, WalletAddress_new (lit (w_address w)) = Ok a) ->
  ~ In (w_address w) (map w_address (db_wallets d)) ->
  let d' := set_seq (db_seq d + 1) (set_wallets (db_wallets d ++ [w]) d) in
  ident_wf d' /\ ident_grow d d'.
Proof.
  intros [W1 W2 W3 W4 W5 W6 W7 W8] Hid Hk Ha Hn.
  assert (incl (map w_id (db_wallets d)) (map w_id (db_wallets d ++ [w]))) as Hi by apply incl_map_snoc.
  split; split; simpl; try done; try lia; try apply incl_refl; try apply incl_map_snoc.
  - rewrite map_app. apply NoDup_app_snoc; [done|]. rewrite Hid. exact (fresh_id _ _ _ _ W3).
  - rewrite map_app. by apply NoDup_app_snoc.
  - apply Forall_app. split; [|constructor; [|constructor]; simpl; split; [lia|auto]].
    eapply Forall_impl; [exact W3|]. simpl. intros x (? & ?). split; [lia|done].
  - eapply Forall_impl; [exact W6|]. simpl. intros x (? & ? & ?). split; [lia|]. auto.
  - eapply Forall_impl; [exact W7|]. simpl. intros x (? & ? & ?). auto.
  - eapply Forall_impl; [exact W8|]. simpl. intros x (? & ?). auto.
Qed.

Lemma new_worker_wf d k :
  ident_wf d -> wk_id k = db_seq d -> worker_check k = true ->
  In (wk_wallet_id k) (map w_id (db_wallets d)) ->
  ~ In (worker_key k) (map worker_key (db_workers d)) ->
  let d' := set_seq (db_seq d + 1) (set_workers (db_workers d ++ [k]) d) in
  ident_wf d' /\ ident_grow d d'.
Proof.
  intros [W1 W2 W3 W4 W5 W6 W7 W8] Hid Hk Ha Hn.
  assert (incl (map worker_ref (db_workers d)) (map worker_ref (db_workers d ++ [k]))) as Hi
    by apply incl_map_snoc.
  split; split; simpl; try done; try lia; try apply incl_refl; try apply incl_map_snoc.
  - eapply Forall_impl; [exact W3|]. simpl. intros x (? & ?). split; [lia|done].
  - rewrite map_app. apply NoDup_app_snoc; [done|]. rewrite Hid. exact (fresh_id _ _ _ _ W6).
  - rewrite map_app. by apply NoDup_app_snoc.
  - apply Forall_app. split; [|constructor; [|constructor]; simpl; split; [lia|auto]].
    eapply Forall_impl; [exact W6|]. simpl. intros x (? & ?). split; [lia|done].
  - eapply Forall_impl; [exact W7|]. simpl. intros x (? & ? & ?). auto.
  - eapply Forall_impl; [exact W8|]. simpl. intros x (? & ?). auto.
Qed.

Lemma wallet_ensure_ok a network d w d' :
  WalletAddress_new a = Ok a -> ident_wf d -> wallet_ensure a network d = Ok (w, d') ->
  ident_wf d' /\ ident_grow d d' /\ In w (db_wallets d') /\ lit (w_address w) = a.
Proof.
  intros Ha W H. assert (lit (to_column a) = a) as Hl by (eapply lit_to_column, address_latin, Ha).
  unfold wallet_ensure in H. simpl in H.
  destruct (wallet_check _) eqn:Ck; [|discriminate]. simpl in H.
  destruct (List.find _ _) as [w0|] eqn:F.
  - destruct (tbl_update _ _ _ _) as [[rows n]|] eqn:T; [|discriminate]. inv_eqs.
    apply tbl_update_ok in T as [-> _]. apply List.find_some in F as [Hw0 E]. pose proof E as E'.
    unfold has_address in E'. apply String.eqb_eq in E'.
    destruct (touch_wallets_wf d (has_address (to_column a)) W) as [W' G].
    split; [exact W'|]. split; [exact G|]. split; simpl; [|by rewrite E'].
    apply in_map_iff. exists w0. rewrite E. done.
  - inv_eqs. edestruct (fun H => new_wallet_wf d _ W H Ck) as [W' G]; [done|..].
    + simpl. rewrite Hl. eauto.
    + simpl. intros Hin. apply in_map_iff in Hin as (x & E & Hx).
      eapply List.find_none in F; [|exact Hx]. unfold has_address in F. by apply String.eqb_neq in F.
    + split; [exact W'|]. split; [exact G|]. split; [|exact Hl]. simpl. apply in_app_iff. right. by left.
Qed.

Lemma has_wallet_In d id : has_wallet d id = true <-> In id (map w_id (db_wallets d)).
Proof.
  unfold has_wallet. rewrite existsb_exists, in_map_iff.
  split; intros (w & H1 & H2); exists w; [apply Z.eqb_eq in H2|apply Z.eqb_eq in H1]; auto.
Qed.

Lemma worker_ensure_ok wallet name d k d' :
  latin name -> ident_wf d -> worker_ensure wallet name d = Ok (k, d') ->
  ident_wf d' /\ ident_grow d d' /\ In k (db_workers d') /\ wk_wallet_id k = wallet /\
  lit (wk_name k) = name.
Proof.
  intros Hn W H. assert (lit (to_column name) = name) as Hl by by apply lit_to_column.
  unfold worker_ensure in H. simpl in H.
  destruct (worker_check _) eqn:Ck; [|discriminate]. simpl in H.
  destruct (List.find _ _) as [w0|] eqn:F.
  - destruct (tbl_update _ _ _ _) as [[rows n]|] eqn:T; [|discriminate]. inv_eqs.
    apply tbl_update_ok in T as [-> _]. apply List.find_some in F as [Hw0 E]. pose proof E as E'.
    unfold same_worker in E'. apply andb_true_iff in E' as [E1 E2].
    apply Z.eqb_eq in E1. apply String.eqb_eq in E2.
    destruct (touch_workers_wf d (same_worker wallet (to_column name)) W) as [W' G].
    split; [exact W'|]. split; [exact G|]. split; simpl; [|by rewrite E2].
    apply in_map_iff. exists w0. rewrite E. done.
  - destruct (has_wallet d wallet) eqn:Hw; [|discriminate]. inv_eqs. apply has_wallet_In in Hw.
    edestruct (fun H => new_worker_wf d _ W H Ck Hw) as [W' G]; [done|..].
    + simpl. intros Hin. apply in_map_iff in Hin as (x & E & Hx).
      eapply List.find_none in F; [|exact Hx]. unfold same_worker in F. unfold worker_key in E.
      simpl in E. injection E as E1 E2. rewrite E1, E2, Z.eqb_refl, String.eqb_refl in F. done.
    + split; [exact W'|]. split; [exact G|]. split; [|done]. simpl. apply in_app_iff. right. by left.
Qed.

(** ** Effects of a transaction *)

Lemma ident_grow_refl d : ident_grow d d.
Proof. split; try done; apply incl_refl. Qed.

Lemma ident_grow_trans d1 d2 d3 : ident_grow d1 d2 -> ident_grow d2 d3 -> ident_grow d1 d3.
Proof. intros [] []. split; try congruence; try lia; eapply incl_tran; eauto. Qed.

(** A credited share of the event stream. *)
Record Credit := mkCredit {
  cd_wallet : text; cd_worker : text; cd_difficulty : f64; cd_daa : Z; cd_correlation_id : string
}.

(** The row of a credit: its figures, under the wallet and worker it names. *)
Record row_of (d : Db) (c : Credit) (s : Share) : Prop := {
  ro_difficulty : sh_difficulty s = cd_difficulty c;
  ro_daa : sh_daa_score s = as_i64 (cd_daa c);
  ro_correlation : sh_correlation_id s = cd_correlation_id c;
  ro_session : sh_session_id s = None;
  ro_wallet : exists w, In w (db_wallets d) /\ w_id w = sh_wallet_id s /\ lit (w_address w) = cd_wallet c;
  ro_worker : exists k, In k (db_workers d) /\ wk_id k = sh_worker_id s /\
                wk_wallet_id k = sh_wallet_id s /\ lit (wk_name k) = cd_worker c
}.

Lemma row_of_grow d d' c s :
  incl (map wallet_name (db_wallets d)) (map wallet_name (db_wallets d')) ->
  incl (map worker_name (db_workers d)) (map worker_name (db_workers d')) ->
  row_of d c s -> row_of d' c s.
Proof.
  intros G1 G2 [H1 H2 H3 H4 (w & Hw & E1 & E2) (k & Hk & E3 & E4 & E5)]. split; try done.
  - assert (In (wallet_name w) (map wallet_name (db_wallets d'))) as I by (apply G1, in_map, Hw).
    apply in_map_iff in I as (w' & E & Hw'). exists w'. unfold wallet_name in E. injection E as ? ?.
    split; [done|]. split; congruence.
  - assert (In (worker_name k) (map worker_name (db_workers d'))) as I by (apply G2, in_map, Hk).
    apply in_map_iff in I as (k' & E & Hk'). exists k'. unfold worker_name in E. injection E as ? ? ?.
    split; [done|]. repeat split; congruence.
Qed.

Record effect (c : option Credit) (d d' : Db) : Prop := {
  ef_wf : ident_wf d';
  ef_wallets : incl (map wallet_name (db_wallets d)) (map wallet_name (db_wallets d'));
  ef_workers : incl (map worker_name (db_workers d)) (map worker_name (db_workers d'));
  ef_shares : db_shares d' = db_shares d \/
              exists cr s, c = Some cr /\ db_shares d' = db_shares d ++ [s] /\ row_of d' cr s;
  ef_blocks : rtc block_step d d'
}.

Lemma effect_refl c d : ident_wf d -> effect c d d.
Proof. intros. split; try done; try apply incl_refl; by left. Qed.

Lemma grow_effect d d' : ident_wf d' -> ident_grow d d' -> effect None d d'.
Proof.
  intros W [? ? ? ? ? ?]. split; try done; [by left|]. apply rtc_once, BsElsewhere; [done|lia].
Qed.

Lemma effect_then c d1 d2 d3 : effect None d1 d2 -> effect c d2 d3 -> effect c d1 d3.
Proof.
  intros [_ A1 B1 S1 R1] [W A2 B2 S2 R2]. split; [done|eapply incl_tran; eauto..| |by transitivity d2].
  destruct S1 as [S1|(? & ? & ? & _)]; [|done]. rewrite <- S1. exact S2.
Qed.

Lemma etx_bind_ok {A B} (m : ETX A) (k : A -> ETX B) d b d' :
  etx_bind m k d = Ok (b, d') -> exists a d1, m d = Ok (a, d1) /\ k a d1 = Ok (b, d').
Proof. unfold etx_bind. destruct (m d) as [[a d1]|]; [eauto|discriminate]. Qed.

Lemma etx_db_ok {A} err (m : DB A) d a d' : etx_db err m d = Ok (a, d') -> m d = Ok (a, d').
Proof. unfold etx_db. destruct (m d) as [[]|]; simpl; [congruence|discriminate]. Qed.

Lemma etx_ret_ok {A} (a b : A) d d' : etx_ret a d = Ok (b, d') -> a = b /\ d = d'.
Proof. unfold etx_ret. split; congruence. Qed.

Lemma ensure_identity_ok cfg wallet worker d ids d' :
  WalletAddress_new wallet = Ok wallet -> latin worker -> ident_wf d ->
  ensure_identity cfg wallet worker d = Ok (ids, d') ->
  ident_wf d' /\ ident_grow d d' /\
  (exists w, In w (db_wallets d') /\ w_id w = fst ids /\ lit (w_address w) = wallet) /\
  (exists k, In k (db_workers d') /\ wk_id k = snd ids /\ wk_wallet_id k = fst ids /\
             lit (wk_name k) = worker).
Proof.
  intros Ha Hw W H. unfold ensure_identity in H. apply etx_bind_ok in H as (w & d1 & H1 & H).
  apply etx_db_ok in H1. apply etx_bind_ok in H as (k & d2 & H2 & H). apply etx_db_ok in H2.
  apply etx_ret_ok in H as [<- <-]. apply wallet_ensure_ok in H1 as (W1 & G1 & I1 & E1); [|done..].
  apply worker_ensure_ok in H2 as (W2 & G2 & I2 & E2 & E3); [|done..].
  split; [done|]. split; [by eapply ident_grow_trans|]. split; [|simpl; eauto 6].
  assert (In (wallet_name w) (map wallet_name (db_wallets d2))) as I by (apply G2, in_map, I1).
  apply in_map_iff in I as (w' & E & Hw'). unfold wallet_name in E. injection E as ? ?.
  exists w'. simpl. split; [done|]. split; congruence.
Qed.

(** Writes to the other tables. *)
Lemma elsewhere_effect d d' :
  ident_wf d -> db_wallets d' = db_wallets d -> db_workers d' = db_workers d ->
  db_shares d' = db_shares d -> db_blocks d' = db_blocks d -> db_seq d <= db_seq d' ->
  db_now d <= db_now d' -> effect None d d'.
Proof.
  intros [W1 W2 W3 W4 W5 W6 W7 W8] E1 E2 E3 E4 Hs Hn.
  split; [split; rewrite ?E1, ?E2, ?E3, ?E4; try done| | | |].
  - eapply Forall_impl; [exact W3|]. simpl. intros x (? & ?). split; [lia|done].
  - eapply Forall_impl; [exact W6|]. simpl. intros x (? & ?). split; [lia|done].
  - rewrite E1. apply incl_refl.
  - rewrite E2. apply incl_refl.
  - by left.
  - by apply rtc_once, BsElsewhere.
Qed.

Lemma session_insert_effect w ip app c t1 t2 d id d' :
  ident_wf d -> session_insert w ip app c t1 t2 d = Ok (id, d') -> effect None d d'.
Proof.
  intros W H. unfold session_insert in H.
  destruct (match w with None => true | Some w => has_worker d w end); [|discriminate]. inv_eqs.
  apply elsewhere_effect; simpl; done || lia.
Qed.

Lemma update_sessions_effect p f d n d' :
  ident_wf d -> update_sessions p f d = Ok (n, d') -> effect None d d'.
Proof.
  intros W H. unfold update_sessions in H. destruct (tbl_update _ _ _ _) as [[rows m]|]; [|discriminate].
  inv_eqs. apply elsewhere_effect; simpl; done || lia.
Qed.

Lemma session_close_effect id d d' : ident_wf d -> session_close id d = Ok (tt, d') -> effect None d d'.
Proof.
  intros W H. unfold session_close in H. apply db_bind_ok in H as (n & d1 & H & E).
  unfold db_ret in E. inv_eqs. by eapply update_sessions_effect.
Qed.

Lemma reject_insert_effect w k r c d id d' :
  ident_wf d -> reject_insert w k r c d = Ok (id, d') -> effect None d d'.
Proof.
  intros W H. unfold reject_insert in H. break_match_in H; [|discriminate]. inv_eqs.
  apply elsewhere_effect; simpl; done || lia.
Qed.

(** One more share row. *)
Lemma insert_credited_effect cr wid kid d id d' :
  ident_wf d ->
  (exists w, In w (db_wallets d) /\ w_id w = wid /\ lit (w_address w) = cd_wallet cr) ->
  (exists k, In k (db_workers d) /\ wk_id k = kid /\ wk_wallet_id k = wid /\ lit (wk_name k) = cd_worker cr) ->
  insert_credited wid kid None (cd_difficulty cr) (cd_daa cr) (cd_correlation_id cr) d = Ok (id, d') ->
  effect (Some cr) d d' /\ exists s, db_shares d' = db_shares d ++ [s] /\ row_of d' cr s.
Proof.
  intros [W1 W2 W3 W4 W5 W6 W7 W8] (w & Hw & E1 & E2) (k & Hk & E3 & E4 & E5) H.
  unfold insert_credited in H. destruct (share_check _) eqn:Ck; [|discriminate]. simpl in H.
  break_match_in H; [|discriminate]. inv_eqs.
  set (s := mkShare _ _ _ _ _ _ _ _) in *.
  set (d' := set_seq _ _). assert (row_of d' cr s) as R by (split; simpl; eauto 6).
  split; [|by exists s].
  split; [split; simpl; try done|apply incl_refl..| |by apply rtc_once, BsElsewhere].
  - eapply Forall_impl; [exact W3|]. simpl. intros x (? & ?). split; [lia|done].
  - eapply Forall_impl; [exact W6|]. simpl. intros x (? & ?). split; [lia|done].
  - apply Forall_app. split; [exact W7|]. constructor; [|constructor]. split; [done|]. split; simpl.
    + apply in_map_iff. eauto.
    + apply in_map_iff. exists k. unfold worker_ref. split; [congruence|done].
  - right. exists cr, s. done.
Qed.

Lemma block_ensure_effect hash wid kid daa nonce cid d r d' :
  ident_wf d -> In wid (map w_id (db_wallets d)) -> In (kid, wid) (map worker_ref (db_workers d)) ->
  block_ensure hash wid kid daa nonce cid d = Ok (r, d') -> effect None d d'.
Proof.
  intros W Hw Hk H. pose proof (BsEnsure d hash wid kid daa nonce cid r d' H) as S.
  unfold block_ensure in H. break_match_in H; [discriminate|]. break_match_in H.
  { inv_eqs. by apply effect_refl. }
  apply db_bind_ok in H as (x & d1 & H & E). unfold db_ret in E. inv_eqs.
  unfold block_append in H. break_match_in H; [|discriminate]. inv_eqs.
  destruct W as [W1 W2 W3 W4 W5 W6 W7 W8].
  split; [split; simpl; try done|apply incl_refl..|by left|by apply rtc_once].
  - eapply Forall_impl; [exact W3|]. simpl. intros x (? & ?). split; [lia|done].
  - eapply Forall_impl; [exact W6|]. simpl. intros x (? & ?). split; [lia|done].
  - apply Forall_app. split; [exact W8|]. constructor; [|constructor]. done.
Qed.

Lemma submitted_effect hash d d' : ident_wf d -> mark_submitted hash d = Ok (tt, d') -> effect None d d'.
Proof.
  intros W H. pose proof (BsSubmitted d hash d' H) as S. unfold mark_submitted, update_blocks in H.
  destruct (tbl_update _ _ _ _) as [[rows n]|] eqn:T; [|discriminate]. inv_eqs.
  apply tbl_update_ok in T as [-> _]. destruct W as [W1 W2 W3 W4 W5 W6 W7 W8].
  split; [split; simpl; try done|apply incl_refl..|by left|by apply rtc_once].
  apply List.Forall_forall. intros x Hx. apply in_map_iff in Hx as (y & <- & Hy).
  rewrite List.Forall_forall in W8. specialize (W8 y Hy). destruct (_ && _); exact W8.
Qed.

(** ** Events *)

(** The validated domain types an event carries. *)
Definition name_ok (w : text) : Prop := WorkerName_new w = Ok w.
Definition address_ok (a : text) : Prop := WalletAddress_new a = Ok a.
Definition opt_all (P : text -> Prop) (o : option text) : Prop :=
  match o with Some x => P x | None => True end.

Definition event_valid (e : PoolEvent) : Prop :=
  match e with
  | ShareCredited a n diff _ _ _ => address_ok a /\ name_ok n /\ ShareDifficulty_new diff = Ok diff
  | ShareRejected a n _ _ _ => address_ok a /\ name_ok n
  | BlockFound a n h _ _ _ => address_ok a /\ name_ok n /\ length h = 32%nat
  | BlockAccepted h _ _ => length h = 32%nat
  | SessionOpened _ a n _ _ _ _ => opt_all address_ok a /\ opt_all name_ok n
  | SessionClosed _ a n _ _ _ _ _ => opt_all address_ok a /\ opt_all name_ok n
  end.

Lemma name_latin n : name_ok n -> latin n.
Proof.
  unfold name_ok, WorkerName_new. destruct n as [|c n]; [discriminate|].
  destruct (_ <? _); [discriminate|]. destruct (List.find _ _) eqn:F; [discriminate|]. intros _.
  by apply safe_worker_latin, find_none_forallb.
Qed.

Definition credit_of (e : PoolEvent) : option Credit :=
  match e with
  | ShareCredited a n diff daa _ cid => Some (mkCredit a n diff daa cid)
  | _ => None
  end.

Section Histories.
Context (fault : nat -> Fault) (cfg : ConsumerConfig) (geoip : option (IpAddr -> option string)).

Lemma cm_call_cases {A} err (m : ETX A) s s' r :
  cm_call fault err m s = (s', r) ->
  cst_db s' = cst_db s \/ exists a, m (cst_db s) = Ok (a, cst_db s').
Proof.
  unfold cm_call. destruct (fault _), (m (cst_db s)) as [[a d']|] eqn:E; intros H; inv_eqs; simpl; eauto.
Qed.

(** A call whose every commit has an effect has that effect. *)
Lemma cm_call_effect {A} err (m : ETX A) c s :
  ident_wf (cst_db s) -> (forall a d', m (cst_db s) = Ok (a, d') -> effect c (cst_db s) d') ->
  effect c (cst_db s) (cst_db (fst (cm_call fault err m s))).
Proof.
  intros W H. destruct (cm_call fault err m s) as [s' r] eqn:E. simpl.
  apply cm_call_cases in E as [->|(a & E)]; [by apply effect_refl|eauto].
Qed.

Lemma share_tx_effect a n diff daa cid d d' :
  address_ok a -> name_ok n -> ident_wf d -> share_tx cfg a n diff daa cid d = Ok (tt, d') ->
  let cr := mkCredit a n diff daa cid in
  effect (Some cr) d d' /\ exists s, db_shares d' = db_shares d ++ [s] /\ row_of d' cr s.
Proof.
  intros Ha Hn W H cr. unfold share_tx in H. apply etx_bind_ok in H as (ids & d1 & H1 & H).
  apply etx_bind_ok in H as (id & d2 & H2 & H). apply etx_ret_ok in H as [_ <-]. apply etx_db_ok in H2.
  pose proof H1 as H1'. apply ensure_identity_ok in H1 as (W1 & G & Iw & Ik); [|done|by apply name_latin|done].
  destruct (insert_credited_effect (mkCredit a n diff daa cid) _ _ _ _ _ W1 Iw Ik H2) as [E R].
  split; [eapply effect_then; [by apply grow_effect|done]|]. rewrite <- (ig_shares _ _ G). exact R.
Qed.

Lemma session_worker_effect wallet worker d r d' :
  opt_all address_ok wallet -> opt_all name_ok worker -> ident_wf d ->
  session_worker cfg wallet worker d = Ok (r, d') -> ident_wf d' /\ effect None d d'.
Proof.
  intros Ha Hn W H. unfold session_worker in H.
  destruct wallet as [a|]; [|apply etx_ret_ok in H as [_ <-]; split; [|apply effect_refl]; done].
  destruct worker as [n|]; [|apply etx_ret_ok in H as [_ <-]; split; [|apply effect_refl]; done].
  apply etx_bind_ok in H as (ids & d1 & H & E). apply etx_ret_ok in E as [_ <-].
  apply ensure_identity_ok in H as (W1 & G & _); [|done|by apply name_latin|done].
  split; [done|by apply grow_effect].
Qed.

Lemma share_rejected_effect a n reason cid s :
  address_ok a -> name_ok n -> ident_wf (cst_db s) ->
  effect None (cst_db s) (cst_db (fst (handle_share_rejected fault cfg a n reason cid s))).
Proof.
  intros Ha Hn W. unfold handle_share_rejected. destruct (reject_try_from _); [|by apply effect_refl].
  apply cm_call_effect; [done|]. intros x d' H.
  apply etx_bind_ok in H as (ids & d1 & H1 & H). apply etx_bind_ok in H as (id & d2 & H2 & H).
  apply etx_ret_ok in H as [_ <-]. apply etx_db_ok in H2.
  apply ensure_identity_ok in H1 as (W1 & G & _); [|done|by apply name_latin|done].
  eapply effect_then; [by apply grow_effect|by eapply reject_insert_effect].
Qed.

Lemma block_found_effect a n h daa cid s :
  address_ok a -> name_ok n -> ident_wf (cst_db s) ->
  effect None (cst_db s) (cst_db (fst (handle_block_found fault cfg a n h daa cid s))).
Proof.
  intros Ha Hn W. apply cm_call_effect; [done|]. intros x d' H.
  apply etx_bind_ok in H as (ids & d1 & H1 & H). apply etx_bind_ok in H as (id & d2 & H2 & H).
  apply etx_ret_ok in H as [_ <-]. apply etx_db_ok in H2.
  apply ensure_identity_ok in H1 as (W1 & G & (w & Hw & E1 & _) & (k & Hk & E2 & E3 & _));
    [|done|by apply name_latin|done].
  eapply effect_then; [by apply grow_effect|]. eapply block_ensure_effect; [done| | |exact H2].
  - rewrite <- E1. by apply in_map.
  - apply in_map_iff. exists k. split; [|done]. unfold worker_ref. congruence.
Qed.

Lemma block_accepted_effect h s :
  ident_wf (cst_db s) -> effect None (cst_db s) (cst_db (fst (handle_block_accepted fault h s))).
Proof.
  intros W. unfold handle_block_accepted, cm_bind.
  destruct (cm_call fault _ _ s) as [s1 r] eqn:C.
  assert (cst_db s1 = cst_db s) as E.
  { apply cm_call_cases in C as [->|(a & C)]; [done|].
    unfold etx_db, find_by_hash, db_read in C. simpl in C. congruence. }
  rewrite <- E in *. destruct r as [[b|]|]; [|by apply effect_refl..]. apply cm_call_effect; [done|].
  intros [] d' H. apply etx_db_ok in H. by eapply submitted_effect.
Qed.

Lemma session_opened_effect conn a n ip app t s :
  opt_all address_ok a -> opt_all name_ok n -> ident_wf (cst_db s) ->
  effect None (cst_db s) (cst_db (fst (handle_session_opened fault cfg geoip conn a n ip app t s))).
Proof.
  intros Ha Hn W. unfold handle_session_opened. destruct (parse_ip _); [|by apply effect_refl]. unfold cm_bind.
  set (m := etx_bind _ _). pose proof (cm_call_effect SessionRecord m None s W) as C.
  assert (forall x d', m (cst_db s) = Ok (x, d') -> effect None (cst_db s) d') as M.
  { intros x d' H. apply etx_bind_ok in H as (w & d1 & H1 & H).
    apply session_worker_effect in H1 as [W1 E1]; auto. apply etx_db_ok in H.
    eapply effect_then; [exact E1|by eapply session_insert_effect]. }
  destruct (cm_call fault _ m s) as [s1 [x|]]; simpl in *; auto.
Qed.

Lemma session_closed_effect conn a n ip app t1 t2 s :
  opt_all address_ok a -> opt_all name_ok n -> ident_wf (cst_db s) ->
  effect None (cst_db s) (cst_db (fst (handle_session_closed fault cfg geoip conn a n ip app t1 t2 s))).
Proof.
  intros Ha Hn W. unfold handle_session_closed. destruct (cst_open s !! conn).
  - apply (cm_call_effect _ _ None (mkCState (cst_db s) _ _) W). intros [] d' H.
    apply etx_db_ok in H. by eapply session_close_effect.
  - destruct (parse_ip _); [|by apply effect_refl].
    apply (cm_call_effect _ _ None (mkCState (cst_db s) _ _) W). intros x d' H.
    apply etx_bind_ok in H as (w & d1 & H1 & H). apply session_worker_effect in H1 as [W1 E1]; auto.
    apply etx_bind_ok in H as (y & d2 & H2 & H). apply etx_ret_ok in H as [_ <-].
    apply etx_db_ok in H2. eapply effect_then; [exact E1|by eapply session_insert_effect].
Qed.

Lemma dispatch_effect e s :
  event_valid e -> ident_wf (cst_db s) ->
  effect (credit_of e) (cst_db s) (cst_db (handle_event fault cfg geoip e s)).
Proof.
  intros V W. unfold handle_event. destruct e; simpl in V; destruct_and?.
  - apply cm_call_effect; [done|]. intros [] d' ?. by apply share_tx_effect.
  - by apply share_rejected_effect.
  - by apply block_found_effect.
  - by apply block_accepted_effect.
  - by apply session_opened_effect.
  - by apply session_closed_effect.
Qed.

(** The rows a sequence of effects adds. *)
Lemma replay_rows events : forall s,
  Forall event_valid events -> ident_wf (cst_db s) ->
  let d' := cst_db (replay_all fault cfg geoip events s) in
  ident_wf d' /\ rtc block_step (cst_db s) d' /\
  incl (map wallet_name (db_wallets (cst_db s))) (map wallet_name (db_wallets d')) /\
  incl (map worker_name (db_workers (cst_db s))) (map worker_name (db_workers d')) /\
  exists credits rows, db_shares d' = db_shares (cst_db s) ++ rows /\
    credits `sublist_of` omap credit_of events /\ Forall2 (row_of d') credits rows.
Proof.
  induction events as [|e events IH]; intros s V W.
  { simpl. split; [done|]. split; [apply rtc_refl|]. split; [apply incl_refl|]. split; [apply incl_refl|].
    exists [], []. rewrite app_nil_r. split; [done|]. split; constructor. }
  inversion V as [|? ? Ve Vs]; subst. destruct (dispatch_effect e s Ve W) as [W1 A1 B1 S1 R1].
  specialize (IH (handle_event fault cfg geoip e s) Vs W1). simpl in IH. cbn [replay_all fold_left].
  destruct IH as (W2 & R2 & A2 & B2 & credits & rows & E & L & F). unfold replay_all in *.
  split; [done|]. split; [by etransitivity|]. split; [by eapply incl_tran|]. split; [by eapply incl_tran|].
  destruct S1 as [S1|(cr & sh & C & S1 & R)].
  - exists credits, rows. rewrite E, S1. split; [done|]. split; [|done]. simpl.
    destruct (credit_of e); [by constructor|done].
  - exists (cr :: credits), (sh :: rows). rewrite E, S1, <- app_assoc. split; [done|].
    simpl. rewrite C. split; [by constructor|]. constructor; [|done]. by eapply row_of_grow.
Qed.
End Histories.

(** ** Claims *)

(** C38. Whatever events arrive and whichever database calls fail or lose their
    acknowledgement, the rows stay referentially sound (addresses and worker names
    unique and valid, every share and block under an existing wallet and a worker
    of that wallet), blocks only move along their lifecycle, and the shares added
    are, in order, those of a subsequence of the credited events: none invented,
    none twice, each with the difficulty, score, wallet and worker of its event. *)
Theorem replay_integrity fault cfg geoip events s :
  Forall event_valid events -> ident_wf (cst_db s) ->
  let d' := cst_db (replay_all fault cfg geoip events s) in
  ident_wf d' /\ rtc block_step (cst_db s) d' /\
  exists credits rows, db_shares d' = db_shares (cst_db s) ++ rows /\
    credits `sublist_of` omap credit_of events /\ Forall2 (row_of d') credits rows.
Proof.
  intros V W d'. destruct (replay_rows fault cfg geoip events s V W) as (W' & R & _ & _ & H).
  split; [done|]. split; [done|]. exact H.
Qed.

(** Totality of the identity upserts on a sound database. *)
Lemma wallet_ensure_total a network d :
  ident_wf d -> latin a -> existsb (family_match a) (address_families network) = true ->
  exists w d', wallet_ensure a network d = Ok (w, d').
Proof.
  intros W Hl Hf. unfold wallet_ensure, wallet_check at 1. cbn [w_address w_network].
  rewrite lit_to_column by done. rewrite Hf. cbn [negb].
  destruct (List.find _ _); [|eauto]. rewrite tbl_update_total; [eauto|]. intros r Hr _.
  pose proof (iw_wallets d W) as Hw. rewrite List.Forall_forall in Hw.
  destruct (Hw r Hr) as (_ & Hc & _). exact Hc.
Qed.

Lemma worker_ensure_total wallet n d :
  ident_wf d -> name_ok n -> In wallet (map w_id (db_wallets d)) ->
  exists k d', worker_ensure wallet n d = Ok (k, d').
Proof.
  intros W Hn Hw. unfold worker_ensure, worker_check at 1. cbn [wk_name].
  rewrite lit_to_column by by apply name_latin.
  assert (forallb worker_charset n = forallb is_safe_worker_char n) as ->.
  { induction n as [|c n IH]; [done|]. simpl. rewrite worker_charset_safe. f_equal.
    clear Hn IH. induction n as [|x n IH]; [done|]. simpl. by rewrite worker_charset_safe, IH. }
  apply WorkerName_new_iff in Hn as (_ & Hlen & Hc).
  rewrite Hc. destruct (Nat.leb_spec 1 (length n)); [|lia]. destruct (Nat.leb_spec (length n) 64); [|lia].
  cbn [andb negb]. apply has_wallet_In in Hw. rewrite Hw.
  destruct (List.find _ _); [|eauto]. rewrite tbl_update_total; [eauto|]. intros r Hr _.
  pose proof (iw_worker_rows d W) as Hk. rewrite List.Forall_forall in Hk.
  destruct (Hk r Hr) as (_ & Hc' & _). exact Hc'.
Qed.

Lemma share_check_ok s diff :
  ShareDifficulty_new diff = Ok diff -> sh_difficulty s = diff -> 0 <= sh_daa_score s ->
  share_check s = true.
Proof.
  intros Hd E Hs. unfold share_check. rewrite E. clear E. apply andb_true_iff. split; [|by apply Z.leb_le].
  unfold ShareDifficulty_new in Hd. destruct diff as [[]|[]| |[] m e]; try discriminate; done.
Qed.

(** A valid credited share whose address has the form its network stores is
    recorded when the database answers: the handler returns, and exactly one share
    row is added, with the event's figures, under the wallet of that address and
    its worker of that name. *)
Theorem share_credited_recorded fault cfg a n diff daa cid s :
  fault (cst_calls s) = NoFault -> ident_wf (cst_db s) ->
  event_valid (ShareCredited a n diff daa 0 cid) ->
  existsb (family_match a) (address_families (cc_network cfg)) = true ->
  0 <= daa <= i64_max ->
  exists s' row, handle_share_credited fault cfg a n diff daa cid s = (s', Ok tt) /\
    db_shares (cst_db s') = db_shares (cst_db s) ++ [row] /\
    row_of (cst_db s') (mkCredit a n diff daa cid) row /\ ident_wf (cst_db s').
Proof.
  intros F W (Ha & Hn & Hd) Hf Hdaa. set (d := cst_db s) in *.
  destruct (wallet_ensure_total a (cc_network cfg) d W (address_latin a a Ha) Hf) as (w & d1 & E1).
  pose proof E1 as E1'. apply wallet_ensure_ok in E1' as (W1 & G1 & I1 & L1); [|done..].
  destruct (worker_ensure_total (w_id w) n d1 W1 Hn (in_map _ _ _ I1)) as (k & d2 & E2).
  pose proof E2 as E2'. apply worker_ensure_ok in E2' as (W2 & G2 & I2 & L2 & L3);
    [|by apply name_latin|done].
  assert (exists d3, share_tx cfg a n diff daa cid d = Ok (tt, d3)) as (d3 & E).
  { unfold share_tx, ensure_identity, etx_bind, etx_db, etx_ret. rewrite E1. simpl. rewrite E2. simpl.
    unfold insert_credited.
    rewrite (share_check_ok _ diff) by (done || (simpl; rewrite as_i64_id; lia)). cbn [negb].
    assert (has_wallet d2 (w_id w) = true) as ->.
    { apply has_wallet_In. rewrite <- L2.
      pose proof (iw_worker_rows d2 W2) as Hk. rewrite List.Forall_forall in Hk. apply (Hk k I2). }
    assert (has_worker d2 (wk_id k) = true) as ->.
    { unfold has_worker. apply existsb_exists. exists k. split; [done|apply Z.eqb_refl]. }
    simpl. eauto. }
  destruct (share_tx_effect cfg a n diff daa cid d d3 Ha Hn W E) as [Ef (row & Er & R)].
  eexists (mkCState d3 (cst_open s) (S (cst_calls s))), row.
  unfold handle_share_credited, cm_call. rewrite F. fold d. rewrite E.
  split; [done|]. split; [done|]. split; [done|]. apply Ef.
Qed.

(** The rows the allocation engine reads back resolve: for every wallet with a
    share in a window, the stored address is found and is a valid address, so the
    tier lookup can fail neither with a missing row nor with an invalid address. *)
Theorem contributors_resolve d daa_start daa_end wallet :
  ident_wf d -> In wallet (contributors d daa_start daa_end) ->
  exists a, lookup_wallet_addr wallet d = Ok (a, d) /\ address_ok a.
Proof.
  intros W H. unfold contributors in H. apply dedup_In, in_map_iff in H as (sh & <- & Hs).
  apply filter_In in Hs as [Hs _]. pose proof (iw_shares d W) as Fs. rewrite List.Forall_forall in Fs.
  destruct (Fs sh Hs) as (_ & Hw & _). apply in_map_iff in Hw as (w0 & E0 & Hw0).
  unfold lookup_wallet_addr.
  destruct (List.find (fun w => w_id w =? sh_wallet_id sh) (db_wallets d)) as [w|] eqn:F.
  - apply List.find_some in F as [Hw _]. pose proof (iw_wallets d W) as Fw.
    rewrite List.Forall_forall in Fw. destruct (Fw w Hw) as (_ & _ & a & Ea). rewrite Ea.
    exists a. split; [done|]. pose proof (WalletAddress_new_same _ _ Ea) as ->. exact Ea.
  - eapply List.find_none in F; [|exact Hw0]. simpl in F. apply Z.eqb_neq in F. done.
Qed.

(** A pool address the database refuses: the domain accepts a body of ten
    characters, the [wallet_address_format] constraint asks for forty, so every
    share credited to such an address is dropped, on every network. *)
Theorem short_address_shares_dropped fault cfg n diff daa cid s :
  let a := lit "zkas:alicealice" in
  address_ok a /\
  cst_db (fst (handle_share_credited fault cfg a n diff daa cid s)) = cst_db s /\
  (fault (cst_calls s) = NoFault ->
   snd (handle_share_credited fault cfg a n diff daa cid s) = Err (WalletEnsure check_violation)).
Proof.
  intros a. assert (forall d, share_tx cfg a n diff daa cid d = Err (WalletEnsure check_violation)) as E.
  { intros d. unfold share_tx, ensure_identity, etx_bind, etx_db.
    assert (wallet_ensure a (cc_network cfg) d = Err check_violation) as ->; [|done].
    unfold wallet_ensure. assert (forall w, w_address w = to_column a -> wallet_check w = false) as ->; [|done..].
    intros w Hw. unfold wallet_check, address_families. rewrite Hw.
    repeat (destruct (_ || _) || destruct (String.eqb _ _)); reflexivity. }
  split; [reflexivity|]. unfold handle_share_credited, cm_call. rewrite E.
  destruct (fault _); done.
Qed.

(** ** Concrete histories *)

Definition sample_consumer : ConsumerConfig := mkConsumerConfig "primary" "mainnet".
Definition sample_events : list PoolEvent :=
  let a := lit (sample_address "alice") in
  [ShareCredited a (lit "rig-1") (f64_of_Z 4) 100 1 "e1";
   ShareCredited (lit "zkas:alicealice") (lit "rig-1") (f64_of_Z 4) 101 2 "e2";
   BlockFound a (lit "rig-1") sample_hash 101 3 "e3";
   BlockAccepted sample_hash 4 "e3";
   ShareCredited a (lit "rig-2") (f64_of_Z 8) 102 5 "e4";
   ShareCredited a (lit "rig-2") (f64_of_Z 8) 103 6 "e5"].

(** The third credited share meets a lost connection. *)
Definition sample_fault (n : nat) : Fault := if (n =? 5)%nat then FailBefore else NoFault.
Definition sample_start : CState := mkCState empty_db ∅ 0.
Definition sample_end : CState := replay_all sample_fault sample_consumer None sample_events sample_start.

Lemma sample_events_valid : Forall event_valid sample_events.
Proof. repeat constructor; vm_compute; reflexivity. Qed.

Lemma empty_ident_wf : ident_wf empty_db.
Proof. split; simpl; constructor. Qed.

Lemma sample_end_wf : ident_wf (cst_db sample_end).
Proof.
  exact (proj1 (replay_rows sample_fault sample_consumer None sample_events sample_start
                  sample_events_valid empty_ident_wf)).
Qed.

Lemma replay_integrity_witness :
  ident_wf (cst_db sample_end) /\
  map sh_correlation_id (db_shares (cst_db sample_end)) = ["e1"; "e5"]%string /\
  map bk_status (db_blocks (cst_db sample_end)) = [SubmittedToNode].
Proof.
  split; [|split; vm_compute; reflexivity].
  apply (replay_integrity sample_fault sample_consumer None sample_events sample_start
           sample_events_valid empty_ident_wf).
Defined.

Lemma share_credited_recorded_witness :
  exists s' row,
    handle_share_credited (fun _ => NoFault) sample_consumer (lit (sample_address "alice")) (lit "rig-1")
      (f64_of_Z 4) 100 "e1" sample_start = (s', Ok tt) /\
    db_shares (cst_db s') = [row] /\ sh_difficulty row = f64_of_Z 4.
Proof.
  destruct (share_credited_recorded (fun _ => NoFault) sample_consumer (lit (sample_address "alice"))
              (lit "rig-1") (f64_of_Z 4) 100 "e1" sample_start) as (s' & row & E & Er & R & _).
  - reflexivity.
  - exact empty_ident_wf.
  - repeat split; vm_compute; reflexivity.
  - vm_compute. reflexivity.
  - unfold i64_max. lia.
  - exists s', row. split; [exact E|]. split; [exact Er|]. exact (ro_difficulty _ _ _ R).
Defined.

Lemma contributors_resolve_witness :
  exists w a, contributors (cst_db sample_end) 0 200 = [w] /\
    lookup_wallet_addr w (cst_db sample_end) = Ok (a, cst_db sample_end) /\ address_ok a.
Proof.
  destruct (contributors_resolve (cst_db sample_end) 0 200 1) as (a & E & Ha).
  - exact sample_end_wf.
  - vm_compute. left. reflexivity.
  - exists 1, a. split; [vm_compute; reflexivity|]. split; [exact E|exact Ha].
Defined.

Lemma short_address_shares_dropped_witness :
  snd (handle_share_credited (fun _ => NoFault) sample_consumer (lit "zkas:alicealice") (lit "rig")
         (f64_of_Z 1) 1 "e" sample_start) = Err (WalletEnsure check_violation).
Proof.
  apply (short_address_shares_dropped (fun _ => NoFault) sample_consumer (lit "rig") (f64_of_Z 1) 1 "e"
           sample_start). reflexivity.
Defined.
