(* ===== verification/Replay.v ===== *)
(** * The replay harness ([accountant/src/replay.rs])

    Event logs, the content snapshot of the consumer's tables, and the dual
    replay that compares two of them.  What the two databases may differ in is
    explicit: their clock and sequences at every event ([Moment]), and the order
    in which a scan meets the rows ([scan]).  The JSON parser and the collation of
    text columns are parameters. *)
From Stdlib Require Import SpecFloat.
From S2P Require Import Prelude F64 Schema Domain Sender IngestDb Consumer.
Open Scope Z_scope.

(** ** Event logs *)

Inductive LogError := LineUnreadable (line_no : Z) | LineInvalid (line_no : Z) (line : text).

Section Log.
Context (from_str : text -> option PoolEvent).

(** The lines of the reader from number [line_no] on; [None] is a failed read. *)
Fixpoint load_lines (line_no : Z) (reader : list (option text)) : result (list PoolEvent) LogError :=
  match reader with
  | [] => Ok []
  | None :: _ => Err (LineUnreadable (line_no + 1))
  | Some line :: reader =>
      let trimmed := trim line in
      if match trimmed with [] => true | c :: _ => c =? 35 end then load_lines (line_no + 1) reader    (* # *)
      else match from_str trimmed with
           | None => Err (LineInvalid (line_no + 1) trimmed)
           | Some event => let? events := load_lines (line_no + 1) reader in Ok (event :: events)
           end
  end.

Definition load_ndjson_reader (reader : list (option text)) : result (list PoolEvent) LogError :=
  load_lines 0 reader.
End Log.

(** ** Snapshots *)

Record DbSnapshot := mkSnapshot {
  ds_wallets : list (string * string);
  ds_workers : list string;
  ds_shares : list (f64 * Z * string);
  ds_rejects : list (string * string);
  ds_blocks : list (bytes * Z * Z * string * string)
}.

(** [memcmp] order: of [BYTEA], and of [UUID] in its canonical text. *)
Fixpoint bytes_leb (a b : list Z) : bool :=
  match a, b with
  | [], _ => true
  | _, [] => false
  | x :: a, y :: b => (x <? y) || ((x =? y) && bytes_leb a b)
  end.
Definition uuid_leb (a b : string) : bool := bytes_leb (lit a) (lit b).

Definition BlockStatus_as_str (s : BlockStatus) : string :=
  match s with
  | Found => "found"
  | SubmittedToNode => "submitted_to_node"
  | ConfirmedBlue => "confirmed_blue"
  | Matured => "matured"
  | Orphaned => "orphaned"
  end.

(** [ORDER BY key]. *)
Definition order_by {R K} (le : K -> K -> bool) (key : R -> K) : list R -> list R :=
  sort_by (fun a b => le (key a) (key b)).

Section Snapshot.
Context (text_leb : string -> string -> bool).

Definition share_columns (s : Share) : f64 * Z * string := (sh_difficulty s, sh_daa_score s, sh_correlation_id s).
Definition reject_columns (r : ShareReject) : string * string :=
  (DbShareRejectReason_as_str (rj_reason r), rj_correlation_id r).
Definition block_columns (b : Block) : bytes * Z * Z * string * string :=
  (bk_hash b, bk_daa_score b, bk_nonce b, BlockStatus_as_str (bk_status b), bk_correlation_id b).

(** [scan] is the order in which the database meets the rows of a table. *)
Definition snapshot (scan : forall R, list R -> list R) (d : Db) : DbSnapshot := {|
  ds_wallets := order_by text_leb fst (map (fun w => (w_address w, w_network w)) (scan _ (db_wallets d)));
  ds_workers := order_by text_leb id (map wk_name (scan _ (db_workers d)));
  ds_shares := order_by uuid_leb snd (map share_columns (scan _ (db_shares d)));
  ds_rejects := order_by uuid_leb snd (map reject_columns (scan _ (db_rejects d)));
  ds_blocks := order_by bytes_leb (fun r => r.1.1.1.1) (map block_columns (scan _ (db_blocks d)))
|}.

(** The derived [PartialEq]: difficulties are compared as floats. *)
Definition share_columns_eqb (a b : f64 * Z * string) : bool :=
  f64_eqb a.1.1 b.1.1 && (a.1.2 =? b.1.2) && String.eqb a.2 b.2.
Fixpoint list_eqb {R} (eqb : R -> R -> bool) (a b : list R) : bool :=
  match a, b with
  | [], [] => true
  | x :: a, y :: b => eqb x y && list_eqb eqb a b
  | _, _ => false
  end.
Definition snapshot_eqb (a b : DbSnapshot) : bool :=
  bool_decide (ds_wallets a = ds_wallets b) && bool_decide (ds_workers a = ds_workers b)
  && list_eqb share_columns_eqb (ds_shares a) (ds_shares b)
  && bool_decide (ds_rejects a = ds_rejects b) && bool_decide (ds_blocks a = ds_blocks b).

Inductive ReplayError := ReplayConfig (e : ConsumerConfigError) | SnapshotsDiffer.

Definition assert_snapshots_equal (a b : DbSnapshot) : result unit ReplayError :=
  if snapshot_eqb a b then Ok tt else Err SnapshotsDiffer.

(** ** Dual replay *)

(** The database's clock when an event is handled, and how many ids other users of
    its sequences (or rolled-back rows) have drawn before. *)
Record Moment := mkMoment { mo_now : Z; mo_drawn : nat }.

Definition arrive (m : Moment) (s : CState) : CState :=
  mkCState (mkDb (mo_now m) (db_seq (cst_db s) + Z.of_nat (mo_drawn m)) (db_wallets (cst_db s)) (db_shares (cst_db s))
              (db_windows (cst_db s)) (db_rewards (cst_db s)) (db_allocations (cst_db s)) (db_rebates (cst_db s))
              (db_cycles (cst_db s)) (db_payouts (cst_db s)) (db_krc20 (cst_db s)) (db_meta (cst_db s))
              (db_audit (cst_db s)) (db_workers (cst_db s)) (db_rejects (cst_db s)) (db_sessions (cst_db s))
              (db_blocks (cst_db s)))
    (cst_open s) (cst_calls s).

(** [replay_all] against a healthy database whose clock moves. *)
Fixpoint replay_timed (cfg : ConsumerConfig) (geoip : option (IpAddr -> option string)) (at_ : nat -> Moment)
    (events : list PoolEvent) (s : CState) : CState :=
  match events with
  | [] => s
  | e :: events =>
      replay_timed cfg geoip (fun i => at_ (S i)) events
        (handle_event (fun _ => NoFault) cfg geoip e (arrive (at_ O) s))
  end.

(** One of the two databases. *)
Record Site := mkSite {
  si_db : Db;
  si_at : nat -> Moment;
  si_scan : forall R, list R -> list R
}.

Definition replay_site (cfg : ConsumerConfig) (events : list PoolEvent) (si : Site) : DbSnapshot :=
  snapshot (si_scan si) (cst_db (replay_timed cfg None (si_at si) events (mkCState (si_db si) ∅ 0))).

Definition verify_dual_replay (events : list PoolEvent) (instance_a instance_b network : string) (a b : Site)
  : result unit ReplayError :=
  let? cfg_a := map_err ReplayConfig (ConsumerConfig_new instance_a network) in
  let? cfg_b := map_err ReplayConfig (ConsumerConfig_new instance_b network) in
  assert_snapshots_equal (replay_site cfg_a events a) (replay_site cfg_b events b).
End Snapshot.
