(* ===== verification/ReplaySpec.v ===== *)
(** * What the replay harness can promise

    The consumer's tables, seen without ids and clocks, are a function of the
    event stream ([Ledger], [ledger_event]): the detailed handlers refine it on
    any database whose clock does not run backwards.  Hence two replays agree,
    wherever they run; and two ways in which they do not when an assumption is
    dropped. *)
From Stdlib Require Import SpecFloat Ascii.
From stdpp Require Import sorting.
From S2P Require Import Prelude F64 FeeModel Schema PayoutDb Domain Sender AccountDb IngestDb SessionDb.
From S2P Require Import BlockSpec Consumer ConsumerSpec Replay.
Open Scope Z_scope.

(** ** The ledger of a stream *)

(** Wallets by address, workers by their wallet's address and name, and the other
    rows without ids, owners and times; [lg_open] are the connections whose opening was
    recorded. *)
Record Ledger := mkLedger {
  lg_wallets : list (string * string);
  lg_workers : list (string * string);
  lg_shares : list (f64 * Z * string);
  lg_rejects : list (string * string);
  lg_blocks : list (bytes * Z * Z * BlockStatus * string);
  lg_open : gset Z
}.

Definition empty_ledger : Ledger := mkLedger [] [] [] [] [] ∅.

Section LedgerSteps.
Context (network : string).

Definition identity_ok (a n : text) : bool :=
  wallet_check (mkWallet 0 (to_column a) network 0 0) && worker_check (mkWorker 0 0 (to_column n) 0 0).

(** [x] is added unless its key is there. *)
Definition add_key {R K} `{EqDecision K} (key : R -> K) (x : R) (l : list R) : list R :=
  if decide (key x ∈ map key l) then l else l ++ [x].

Definition enroll (a n : text) (l : Ledger) : option Ledger :=
  if identity_ok a n then
    Some (mkLedger (add_key fst (to_column a, network) (lg_wallets l))
            (add_key id (to_column a, to_column n) (lg_workers l))
            (lg_shares l) (lg_rejects l) (lg_blocks l) (lg_open l))
  else None.

Definition enroll_opt (a n : option text) (l : Ledger) : option Ledger :=
  match a, n with Some a, Some n => enroll a n l | _, _ => Some l end.

Definition block_key (r : bytes * Z * Z * BlockStatus * string) : bytes := r.1.1.1.1.

Definition accept_row (hash : bytes) (r : bytes * Z * Z * BlockStatus * string) :=
  let '(h, daa, nonce, status, cid) := r in
  (h, daa, nonce,
   if bool_decide (h = hash) && bool_decide (status ∈ [Found; SubmittedToNode]) then SubmittedToNode else status, cid).

Definition set_open (o : gset Z) (l : Ledger) : Ledger :=
  mkLedger (lg_wallets l) (lg_workers l) (lg_shares l) (lg_rejects l) (lg_blocks l) o.

Definition ledger_event (e : PoolEvent) (l : Ledger) : Ledger :=
  match e with
  | ShareCredited a n difficulty daa _ cid =>
      match enroll a n l with
      | Some l' =>
          if pg_ltb f64_zero difficulty && (0 <=? as_i64 daa)
          then mkLedger (lg_wallets l') (lg_workers l') (lg_shares l' ++ [(difficulty, as_i64 daa, cid)]) (lg_rejects l')
                 (lg_blocks l') (lg_open l')
          else l
      | None => l
      end
  | ShareRejected a n reason _ cid =>
      match enroll a n l with
      | Some l' => mkLedger (lg_wallets l') (lg_workers l') (lg_shares l')
                     (lg_rejects l' ++ [(ShareRejectReason_as_str reason, cid)]) (lg_blocks l') (lg_open l')
      | None => l
      end
  | BlockFound a n hash daa _ cid =>
      match enroll a n l with
      | Some l' =>
          if (length hash =? 32)%nat && (0 <=? as_i64 daa)
          then mkLedger (lg_wallets l') (lg_workers l') (lg_shares l') (lg_rejects l')
                 (add_key block_key (hash, as_i64 daa, 0, Found, cid) (lg_blocks l')) (lg_open l')
          else l
      | None => l
      end
  | BlockAccepted hash _ _ =>
      mkLedger (lg_wallets l) (lg_workers l) (lg_shares l) (lg_rejects l) (map (accept_row hash) (lg_blocks l)) (lg_open l)
  | SessionOpened conn a n ip _ _ _ =>
      match parse_ip ip, enroll_opt a n l with
      | Some _, Some l' => set_open ({[conn]} ∪ lg_open l') l'
      | _, _ => l
      end
  | SessionClosed conn a n ip _ _ _ _ =>
      if decide (conn ∈ lg_open l) then set_open (lg_open l ∖ {[conn]}) l
      else match parse_ip ip with
           | Some _ => default l (enroll_opt a n l)
           | None => l
           end
  end.

Definition ledger_of (events : list PoolEvent) (l : Ledger) : Ledger :=
  fold_left (fun l e => ledger_event e l) events l.
End LedgerSteps.

(** ** Seeing a database as a ledger *)

Definition addr_of (d : Db) (id : Z) : string :=
  match List.find (fun w => w_id w =? id) (db_wallets d) with Some w => w_address w | None => "" end.

Definition block_row (b : Block) := (bk_hash b, bk_daa_score b, bk_nonce b, bk_status b, bk_correlation_id b).

Definition view_db (o : gset Z) (d : Db) : Ledger :=
  mkLedger (map (fun w => (w_address w, w_network w)) (db_wallets d))
    (map (fun k => (addr_of d (wk_wallet_id k), wk_name k)) (db_workers d))
    (map share_columns (db_shares d)) (map reject_columns (db_rejects d)) (map block_row (db_blocks d)) o.

Definition view (s : CState) : Ledger := view_db (dom (cst_open s)) (cst_db s).

Lemma addr_of_name d id a :
  ident_wf d -> In (id, a) (map wallet_name (db_wallets d)) -> addr_of d id = a.
Proof.
  intros W H. apply in_map_iff in H as (w & [= <- <-] & Hw). unfold addr_of.
  destruct (List.find _ _) as [v|] eqn:F.
  - apply List.find_some in F as [Hv E]. apply Z.eqb_eq in E. f_equal. by eapply NoDup_map_inj; [apply (iw_ids d W)|..].
  - eapply List.find_none in F; [|exact Hw]. cbn in F. by rewrite Z.eqb_refl in F.
Qed.

Lemma addr_of_grow d d' id :
  ident_wf d -> ident_wf d' -> ident_grow d d' -> In id (map w_id (db_wallets d)) -> addr_of d' id = addr_of d id.
Proof.
  intros W W' G H. apply in_map_iff in H as (w & <- & Hw). apply (in_map wallet_name) in Hw.
  rewrite (addr_of_name d _ _ W Hw). by apply addr_of_name, (ig_wallets d d' G).
Qed.

(** ** Enrolment *)

Lemma add_key_old {R K} `{EqDecision K} (key : R -> K) x l : In (key x) (map key l) -> add_key key x l = l.
Proof. intros H. unfold add_key. case_decide as D; [done|]. exfalso. by apply D, list_elem_of_In. Qed.

Lemma add_key_new {R K} `{EqDecision K} (key : R -> K) x l : ~ In (key x) (map key l) -> add_key key x l = l ++ [x].
Proof. intros H. unfold add_key. case_decide as D; [|done]. exfalso. by apply H, list_elem_of_In. Qed.

(** Rows, other tables and the clock after a change of the wallet or worker table. *)
Record same_rest (d d' : Db) : Prop := {
  sr_now : db_now d' = db_now d;
  sr_shares : db_shares d' = db_shares d;
  sr_rejects : db_rejects d' = db_rejects d;
  sr_blocks : db_blocks d' = db_blocks d
}.

Lemma wallet_ensure_view network a d :
  ident_wf d -> address_ok a ->
  if wallet_check (mkWallet 0 (to_column a) network 0 0) then
    exists w d', wallet_ensure a network d = Ok (w, d') /\ ident_wf d' /\ ident_grow d d' /\ same_rest d d' /\
      In (w_id w, to_column a) (map wallet_name (db_wallets d')) /\ db_workers d' = db_workers d /\
      map (fun w => (w_address w, w_network w)) (db_wallets d')
      = add_key fst (to_column a, network) (map (fun w => (w_address w, w_network w)) (db_wallets d))
  else exists e, wallet_ensure a network d = Err e.
Proof.
  intros W A. destruct (wallet_check _) eqn:Ck.
  2: { unfold wallet_ensure. assert (forall w, w_address w = to_column a -> w_network w = network -> wallet_check w = false) as ->;
         [|by eexists|done..]. intros w E N. unfold wallet_check in *. by rewrite E, N. }
  assert (existsb (family_match a) (address_families network) = true) as F.
  { unfold wallet_check in Ck. cbn [w_address w_network] in Ck. by rewrite lit_to_column in Ck by (eapply address_latin, A). }
  destruct (wallet_ensure_total a network d W (address_latin _ _ A) F) as (w & d' & E). exists w, d'.
  destruct (wallet_ensure_ok a network d w d' A W E) as (W' & G & I & L). split; [done|]. split; [done|]. split; [done|].
  unfold wallet_ensure in E. cbn in E. destruct (negb _); [done|]. destruct (List.find _ _) as [w0|] eqn:Fd.
  - destruct (tbl_update _ _ _ _) as [[rows n]|] eqn:T; [|done]. injection E as <- <-. apply tbl_update_ok in T as [-> _].
    apply List.find_some in Fd as [Hw0 E0]. apply String.eqb_eq in E0. split; [done|]. cbn. split; [|split; [done|]].
    + pose proof (in_map wallet_name _ _ I) as J. cbn in J. unfold wallet_name at 1 in J. cbn in J. by rewrite E0 in J.
    + rewrite map_map, add_key_old.
      * apply map_ext. intros x. by destruct (has_address _ x).
      * rewrite map_map. apply in_map_iff. exists w0. by rewrite E0.
  - injection E as <- <-. split; [done|]. cbn. split; [|split; [done|]].
    + exact (in_map wallet_name _ _ I).
    + rewrite map_app. cbn. rewrite add_key_new; [done|]. rewrite map_map. cbn. intros H.
      apply in_map_iff in H as (x & Ex & Hx). eapply List.find_none in Fd; [|exact Hx]. unfold has_address in Fd.
      by apply String.eqb_neq in Fd.
Qed.

Lemma workers_view_kept d d' l :
  ident_wf d -> ident_wf d' -> ident_grow d d' ->
  Forall (fun k => In (wk_wallet_id k) (map w_id (db_wallets d))) l ->
  map (fun k => (addr_of d' (wk_wallet_id k), wk_name k)) l = map (fun k => (addr_of d (wk_wallet_id k), wk_name k)) l.
Proof.
  intros W W' G F. induction F as [|k l Hk _ IH]; [done|]. cbn. by rewrite IH, (addr_of_grow d d').
Qed.

Lemma worker_wallets d : ident_wf d -> Forall (fun k => In (wk_wallet_id k) (map w_id (db_wallets d))) (db_workers d).
Proof. intros W. eapply Forall_impl; [exact (iw_worker_rows d W)|]. by intros k (_ & _ & ?). Qed.

(** Two wallets do not share an address, so a worker is known by that address and
    its name. *)
Lemma same_worker_view d wid a n k :
  ident_wf d -> In (wid, a) (map wallet_name (db_wallets d)) -> In k (db_workers d) ->
  same_worker wid n k = true <-> (addr_of d (wk_wallet_id k), wk_name k) = (a, n).
Proof.
  intros W Hw Hk. unfold same_worker. rewrite andb_true_iff, Z.eqb_eq, String.eqb_eq. split.
  - intros [-> ->]. by rewrite (addr_of_name d wid a).
  - intros [= Ea ->]. split; [|done]. pose proof (worker_wallets d W) as F. rewrite List.Forall_forall in F.
    specialize (F k Hk). apply in_map_iff in F as (v & Ev & Hv). pose proof (in_map wallet_name _ _ Hv) as Hv'.
    unfold wallet_name in Hv' at 1. rewrite Ev in Hv'. rewrite (addr_of_name d _ _ W Hv') in Ea.
    apply in_map_iff in Hw as (u & [= <- <-] & Hu). rewrite <- Ev. f_equal. by eapply NoDup_map_inj; [apply (iw_addresses d W)|..].
Qed.

Lemma worker_ensure_view wid a n d :
  ident_wf d -> name_ok n -> In (wid, a) (map wallet_name (db_wallets d)) ->
  exists k d', worker_ensure wid n d = Ok (k, d') /\ ident_wf d' /\ ident_grow d d' /\ same_rest d d' /\
    db_wallets d' = db_wallets d /\ In k (db_workers d') /\
    map (fun k => (addr_of d' (wk_wallet_id k), wk_name k)) (db_workers d')
    = add_key id (a, to_column n) (map (fun k => (addr_of d (wk_wallet_id k), wk_name k)) (db_workers d)).
Proof.
  intros W N Hw. assert (In wid (map w_id (db_wallets d))) as Hid.
  { apply in_map_iff in Hw as (w & [= <- _] & Hw). by apply in_map. }
  destruct (worker_ensure_total wid n d W N Hid) as (k & d' & E). exists k, d'.
  destruct (worker_ensure_ok wid n d k d' (name_latin n N) W E) as (W' & G & I & _).
  split; [done|]. split; [done|]. split; [done|]. unfold worker_ensure in E. cbn in E. destruct (negb _); [done|].
  destruct (List.find _ _) as [k0|] eqn:Fd.
  - destruct (tbl_update _ _ _ _) as [[rows c]|] eqn:T; [|done]. injection E as <- <-. apply tbl_update_ok in T as [-> _].
    split; [done|]. split; [done|]. split; [exact I|]. cbn. apply List.find_some in Fd as [Hk0 E0].
    rewrite map_map, add_key_old.
    + apply map_ext. intros x. by destruct (same_worker _ _ x).
    + rewrite map_map. apply in_map_iff. exists k0. split; [|done]. by apply (same_worker_view d wid a).
  - destruct (has_wallet d wid); [|done]. injection E as <- <-. split; [done|]. split; [done|]. split; [exact I|]. cbn.
    rewrite map_app. cbn. replace (addr_of _ wid) with a.
    2: { symmetry. exact (addr_of_name d wid a W Hw). }
    rewrite add_key_new; [done|]. rewrite map_id. intros H. apply in_map_iff in H as (x & Ex & Hx).
    apply (same_worker_view d wid a (to_column n) x W Hw Hx) in Ex. eapply List.find_none in Fd; [|exact Hx]. congruence.
Qed.

Lemma ensure_identity_view cfg a n o d :
  ident_wf d -> address_ok a -> name_ok n ->
  match enroll (cc_network cfg) a n (view_db o d) with
  | Some l => exists ids d', ensure_identity cfg a n d = Ok (ids, d') /\ same_rest d d' /\ view_db o d' = l /\
                has_wallet d' (fst ids) = true /\ has_worker d' (snd ids) = true
  | None => exists e, ensure_identity cfg a n d = Err e
  end.
Proof.
  intros W A N. pose proof (wallet_ensure_view (cc_network cfg) a d W A) as H. unfold enroll, identity_ok.
  destruct (wallet_check _); cbn [andb].
  2: { destruct H as [e H]. exists (WalletEnsure e). unfold ensure_identity, etx_bind, etx_db. by rewrite H. }
  destruct H as (w & d1 & E1 & W1 & G1 & R1 & I1 & K1 & V1).
  destruct (worker_ensure_view (w_id w) (to_column a) n d1 W1 N I1) as (k & d2 & E2 & W2 & G2 & R2 & K2 & I2 & V2).
  assert (worker_check (mkWorker 0 0 (to_column n) 0 0) = true) as ->.
  { unfold worker_ensure in E2. cbn zeta in E2. destruct (worker_check _) eqn:C in E2; [exact C|done]. }
  exists (w_id w, wk_id k), d2. unfold ensure_identity, etx_bind, etx_db, etx_ret. rewrite E1. cbn [map_err]. rewrite E2.
  split; [done|]. destruct R1 as [N1 S1 J1 B1], R2 as [N2 S2 J2 B2]. split; [split; congruence|]. split; [|split; cbn].
  - unfold view_db. rewrite K2, V1, V2, S2, S1, J2, J1, B2, B1, K1. cbn.
    by rewrite (workers_view_kept d d1 _ W W1 G1 (worker_wallets d W)).
  - apply has_wallet_In. rewrite K2. apply in_map_iff in I1 as (v & [= <- _] & Hv). by apply in_map.
  - unfold has_worker. apply existsb_exists. exists k. by rewrite Z.eqb_refl.
Qed.

(** ** Each event *)

Abbreviation healthy := (fun _ : nat => NoFault).

Lemma cm_call_healthy {A} err (m : ETX A) s :
  cm_call healthy err m s =
  match m (cst_db s) with
  | Ok (a, d') => (mkCState d' (cst_open s) (S (cst_calls s)), Ok a)
  | Err e => (mkCState (cst_db s) (cst_open s) (S (cst_calls s)), Err e)
  end.
Proof. reflexivity. Qed.

Section Events.
Context (cfg : ConsumerConfig) (geoip : option (IpAddr -> option string)).

(** A transaction that enrols first: what is left is the rest of it. *)
Lemma enroll_then {A} a n (rest : Z * Z -> ETX A) o d (P : result (A * Db) EventError -> Prop) :
  ident_wf d -> address_ok a -> name_ok n ->
  (forall ids d' l, enroll (cc_network cfg) a n (view_db o d) = Some l -> same_rest d d' -> view_db o d' = l ->
     has_wallet d' (fst ids) = true -> has_worker d' (snd ids) = true -> P (rest ids d')) ->
  (forall e, enroll (cc_network cfg) a n (view_db o d) = None -> P (Err e)) ->
  P (etx_bind (ensure_identity cfg a n) rest d).
Proof.
  intros W A' N H1 H2. pose proof (ensure_identity_view cfg a n o d W A' N) as H. unfold etx_bind.
  destruct (enroll _ _ _ _) as [l|] eqn:E.
  - destruct H as (ids & d' & -> & R & V & Hw & Hk). by eapply H1.
  - destruct H as [e ->]. by apply H2.
Qed.

Lemma credited_view a n diff daa ts cid s :
  ident_wf (cst_db s) -> address_ok a -> name_ok n ->
  view (handle_event healthy cfg geoip (ShareCredited a n diff daa ts cid) s)
  = ledger_event (cc_network cfg) (ShareCredited a n diff daa ts cid) (view s).
Proof.
  intros W A N. unfold handle_event. cbn [dispatch ledger_event]. unfold handle_share_credited, share_tx.
  rewrite cm_call_healthy. unfold view at 2.
  apply (enroll_then a n _ (dom (cst_open s)) (cst_db s)); [done..| |].
  - intros ids d' l -> R V Hw Hk. unfold etx_bind, etx_db, insert_credited, share_check. cbn [sh_difficulty sh_daa_score].
    destruct (pg_ltb _ _ && _); cbn [negb map_err]; [|done]. rewrite Hw, Hk. cbn [andb map_err etx_ret fst].
    unfold view, view_db. cbn. rewrite map_app. cbn. rewrite <- V. done.
  - intros e ->. done.
Qed.
Lemma rejected_view a n reason ts cid s :
  ident_wf (cst_db s) -> address_ok a -> name_ok n ->
  view (handle_event healthy cfg geoip (ShareRejected a n reason ts cid) s)
  = ledger_event (cc_network cfg) (ShareRejected a n reason ts cid) (view s).
Proof.
  intros W A N. unfold handle_event. cbn [dispatch ledger_event]. unfold handle_share_rejected.
  assert (exists r, reject_try_from reason = Ok r /\ DbShareRejectReason_as_str r = ShareRejectReason_as_str reason)
    as (r & -> & <-) by (destruct reason; by eexists).
  rewrite cm_call_healthy. unfold view at 2.
  apply (enroll_then a n _ (dom (cst_open s)) (cst_db s)); [done..| |].
  - intros ids d' l -> R V Hw Hk. unfold etx_bind, etx_db, reject_insert. rewrite Hw, Hk. cbn [andb map_err etx_ret fst].
    unfold view, view_db. cbn. rewrite map_app. cbn. rewrite <- V. done.
  - intros e ->. done.
Qed.

Lemma hash_known hash bs : List.find (has_hash hash) bs = None <-> ~ In hash (map block_key (map block_row bs)).
Proof.
  rewrite map_map. split.
  - intros F H. apply in_map_iff in H as (b & E & Hb). eapply List.find_none in F; [|exact Hb].
    unfold has_hash in F. by apply bool_decide_eq_false in F.
  - intros H. destruct (List.find _ _) as [b|] eqn:F; [|done]. apply List.find_some in F as [Hb E].
    apply bool_decide_eq_true in E. destruct H. apply in_map_iff. by exists b.
Qed.

Lemma found_view a n hash daa ts cid s :
  ident_wf (cst_db s) -> address_ok a -> name_ok n ->
  view (handle_event healthy cfg geoip (BlockFound a n hash daa ts cid) s)
  = ledger_event (cc_network cfg) (BlockFound a n hash daa ts cid) (view s).
Proof.
  intros W A N. unfold handle_event. cbn [dispatch ledger_event]. unfold handle_block_found.
  rewrite cm_call_healthy. unfold view at 2.
  apply (enroll_then a n _ (dom (cst_open s)) (cst_db s)); [done..| |].
  - intros ids d' l -> R V Hw Hk. unfold etx_bind, etx_db, block_ensure.
    assert (block_check (found_row d' hash (fst ids) (snd ids) daa 0 cid) = (length hash =? 32)%nat && (0 <=? as_i64 daa)) as ->.
    { unfold block_check. cbn -[as_i64]. by rewrite !andb_true_r. }
    destruct (_ && _); cbn [negb map_err]; [|done]. rewrite <- V. destruct (List.find _ _) as [b|] eqn:F.
    + cbn [map_err etx_ret fst]. unfold view, view_db at 2. cbn [cst_db cst_open lg_blocks]. rewrite add_key_old; [done|].
      cbn. destruct (in_dec (fun x y : bytes => decide (x = y)) hash (map block_key (map block_row (db_blocks d')))) as [I|I]; [exact I|].
      apply hash_known in I. congruence.
    + apply hash_known in F. unfold db_bind, block_append. cbn [found_row bk_finder_wallet_id bk_finder_worker_id].
      rewrite Hw, Hk. cbn [andb db_ret map_err etx_ret fst]. unfold view, view_db.
      cbn [cst_db cst_open lg_blocks lg_wallets lg_workers lg_shares lg_rejects lg_open]. rewrite add_key_new by exact F.
      cbn -[as_i64]. by rewrite map_app.
  - intros e ->. done.
Qed.

Lemma accepted_view hash ts cid s :
  blocks_wf (cst_db s) ->
  view (handle_event healthy cfg geoip (BlockAccepted hash ts cid) s)
  = ledger_event (cc_network cfg) (BlockAccepted hash ts cid) (view s).
Proof.
  intros W. unfold handle_event. cbn [dispatch ledger_event]. unfold handle_block_accepted, cm_bind. rewrite cm_call_healthy.
  unfold etx_db at 1, find_by_hash, db_read. cbn [map_err]. destruct (List.find _ _) as [b|] eqn:F.
  - rewrite cm_call_healthy. cbn [cst_db cst_open cst_calls].
    destruct (proj1 (lifecycle_updates_total (cst_db s) hash W)) as [d' E]. unfold etx_db. rewrite E. cbn [map_err fst].
    unfold mark_submitted, update_blocks in E. destruct (tbl_update _ _ _ _) as [[rows k]|] eqn:T; [|done].
    injection E as <-. apply tbl_update_ok in T as [-> _]. unfold view, view_db. cbn. f_equal. rewrite !map_map.
    apply map_ext. intros x. unfold has_hash, status_in, accept_row. cbn. by destruct (_ && _).
  - cbn [fst]. apply hash_known in F. unfold view, view_db. cbn. f_equal. rewrite map_map. apply map_ext_in. intros x Hx.
    unfold accept_row. cbn. rewrite bool_decide_false; [done|]. intros E. apply F. rewrite map_map. apply in_map_iff. by exists x.
Qed.
Lemma session_worker_view wallet worker o d :
  ident_wf d -> opt_all address_ok wallet -> opt_all name_ok worker ->
  match enroll_opt (cc_network cfg) wallet worker (view_db o d) with
  | Some l => exists r d', session_worker cfg wallet worker d = Ok (r, d') /\ view_db o d' = l /\
                match r with Some w => has_worker d' w | None => true end = true
  | None => exists e, session_worker cfg wallet worker d = Err e
  end.
Proof.
  intros W A N. destruct wallet as [a|], worker as [n|]; cbn [enroll_opt session_worker]; try by exists None, d.
  pose proof (ensure_identity_view cfg a n o d W A N) as H. unfold etx_bind. destruct (enroll _ _ _ _) as [l|].
  - destruct H as (ids & d' & -> & _ & V & _ & Hk). by exists (Some (snd ids)), d'.
  - destruct H as [e ->]. by exists e.
Qed.

(** Inserting a session row for a worker that is there succeeds and is not seen. *)
Lemma session_insert_view w ip app country t1 t2 o d :
  match w with Some w => has_worker d w | None => true end = true ->
  exists id d', session_insert w ip app country t1 t2 d = Ok (id, d') /\ view_db o d' = view_db o d.
Proof. intros H. unfold session_insert. rewrite H. by eexists _, _. Qed.

Lemma opened_view conn a n ip app t cid s :
  ident_wf (cst_db s) -> opt_all address_ok a -> opt_all name_ok n ->
  view (handle_event healthy cfg geoip (SessionOpened conn a n ip app t cid) s)
  = ledger_event (cc_network cfg) (SessionOpened conn a n ip app t cid) (view s).
Proof.
  intros W A N. unfold handle_event. cbn [dispatch ledger_event]. unfold handle_session_opened.
  destruct (parse_ip ip) as [addr|]; [|done]. unfold cm_bind. rewrite cm_call_healthy. unfold view at 2 3.
  pose proof (session_worker_view a n (dom (cst_open s)) (cst_db s) W A N) as H. unfold etx_bind, etx_db.
  destruct (enroll_opt _ _ _ _) as [l|]; [|by destruct H as [e ->]]. destruct H as (r & d' & -> & <- & Hk).
  destruct (session_insert_view r addr app (country_of geoip addr) t None (dom (cst_open s)) d' Hk) as (id & d2 & E & V).
  unfold session_open. rewrite E. cbn [map_err fst cst_db cst_open cst_calls]. rewrite <- V. unfold view, view_db, set_open. cbn.
  by rewrite dom_insert_L.
Qed.

Lemma session_close_view id o d : match session_close id d with Ok (_, d') => view_db o d' = view_db o d | Err _ => True end.
Proof. unfold session_close, db_bind, update_sessions. by destruct (tbl_update _ _ _ _) as [[rows k]|]. Qed.

Lemma closed_view conn a n ip app t1 t2 cid s :
  ident_wf (cst_db s) -> opt_all address_ok a -> opt_all name_ok n ->
  view (handle_event healthy cfg geoip (SessionClosed conn a n ip app t1 t2 cid) s)
  = ledger_event (cc_network cfg) (SessionClosed conn a n ip app t1 t2 cid) (view s).
Proof.
  intros W A N. unfold handle_event. cbn [dispatch ledger_event]. unfold handle_session_closed.
  unfold view at 2. cbn [view_db lg_open]. destruct (cst_open s !! conn) as [id|] eqn:O.
  - rewrite decide_True by (apply elem_of_dom; by exists id). rewrite cm_call_healthy. unfold etx_db. cbn [cst_db cst_open].
    pose proof (session_close_view id (dom (cst_open s) ∖ {[conn]}) (cst_db s)) as V.
    destruct (session_close id (cst_db s)) as [[u d']|]; cbn [map_err fst]; unfold view, set_open; cbn [cst_db cst_open];
      rewrite dom_delete_L; [by rewrite V|done].
  - assert (conn ∉ dom (cst_open s)) as D by by apply not_elem_of_dom. rewrite decide_False by done.
    rewrite delete_id by done. assert (view (mkCState (cst_db s) (cst_open s) (cst_calls s)) = view s) as V0 by done.
    destruct (parse_ip ip) as [addr|]; [|done]. rewrite cm_call_healthy. cbn [cst_db cst_open cst_calls].
    pose proof (session_worker_view a n (dom (cst_open s)) (cst_db s) W A N) as H. unfold etx_bind, etx_db.
    unfold view at 2 3. destruct (enroll_opt _ _ _ _) as [l|]; [|by destruct H as [e ->]].
    destruct H as (r & d' & -> & <- & Hk).
    destruct (session_insert_view r addr app (country_of geoip addr) t1 (Some t2) (dom (cst_open s)) d' Hk) as (id & d2 & E & V).
    unfold record_closed. rewrite E. cbn [map_err etx_ret fst default]. exact V.
Qed.

(** The handlers refine the ledger. *)
Lemma event_view e s :
  event_valid e -> ident_wf (cst_db s) -> blocks_wf (cst_db s) ->
  view (handle_event healthy cfg geoip e s) = ledger_event (cc_network cfg) e (view s).
Proof.
  destruct e; cbn [event_valid]; intros V W B; destruct_and?.
  - by apply credited_view.
  - by apply rejected_view.
  - by apply found_view.
  - by apply accepted_view.
  - by apply opened_view.
  - by apply closed_view.
Qed.
End Events.

(** ** Clocks *)

(** Transactions do not move the clock. *)
Definition keeps_now {A} (m : ETX A) : Prop := forall d a d', m d = Ok (a, d') -> db_now d' = db_now d.

Lemma now_bind {A B} (m : ETX A) (k : A -> ETX B) : keeps_now m -> (forall a, keeps_now (k a)) -> keeps_now (etx_bind m k).
Proof. intros M K d b d' H. apply etx_bind_ok in H as (a & d1 & H1 & H2). rewrite <- (M _ _ _ H1). by eapply K. Qed.

Lemma now_ret {A} (a : A) : keeps_now (etx_ret a).
Proof. intros d b d' H. by apply etx_ret_ok in H as [_ <-]. Qed.

Ltac keeps_statement :=
  intros ? ? ? H; apply etx_db_ok in H; repeat break_match_in H; inv_eqs; try done; cbn.

Lemma keeps_wallet err a network : keeps_now (etx_db err (wallet_ensure a network)).
Proof. unfold wallet_ensure. keeps_statement. Qed.
Lemma keeps_worker err w n : keeps_now (etx_db err (worker_ensure w n)).
Proof. unfold worker_ensure. keeps_statement. Qed.
Lemma keeps_share err w k ss diff daa cid : keeps_now (etx_db err (insert_credited w k ss diff daa cid)).
Proof. unfold insert_credited. keeps_statement. Qed.
Lemma keeps_reject err w k r cid : keeps_now (etx_db err (reject_insert w k r cid)).
Proof. unfold reject_insert. keeps_statement. Qed.
Lemma keeps_block err h w k daa nonce cid : keeps_now (etx_db err (block_ensure h w k daa nonce cid)).
Proof. unfold block_ensure, db_bind, block_append, db_ret. keeps_statement. Qed.
Lemma keeps_find err h : keeps_now (etx_db err (find_by_hash h)).
Proof. unfold find_by_hash, db_read. keeps_statement. Qed.
Lemma keeps_submitted err h : keeps_now (etx_db err (mark_submitted h)).
Proof. unfold mark_submitted, update_blocks. keeps_statement. Qed.
Lemma keeps_session err w ip app c t1 t2 : keeps_now (etx_db err (session_insert w ip app c t1 t2)).
Proof. unfold session_insert. keeps_statement. Qed.
Lemma keeps_close err i : keeps_now (etx_db err (session_close i)).
Proof.
  intros d [] d' H. apply etx_db_ok in H. unfold session_close, db_bind, update_sessions in H.
  destruct (tbl_update _ _ _ _) as [[rows k]|]; [|done]. by injection H as <-.
Qed.

Create HintDb clock.
#[export] Hint Resolve now_bind now_ret keeps_wallet keeps_worker keeps_share keeps_reject keeps_block keeps_find
  keeps_submitted keeps_session keeps_close : clock.

Lemma keeps_identity cfg a n : keeps_now (ensure_identity cfg a n).
Proof. unfold ensure_identity. auto 6 with clock. Qed.
#[export] Hint Resolve keeps_identity : clock.

Lemma keeps_session_worker cfg a n : keeps_now (session_worker cfg a n).
Proof. unfold session_worker. destruct a, n; auto with clock. Qed.
#[export] Hint Resolve keeps_session_worker : clock.

Lemma call_now {A} err (m : ETX A) s : keeps_now m -> db_now (cst_db (fst (cm_call healthy err m s))) = db_now (cst_db s).
Proof. intros K. rewrite cm_call_healthy. destruct (m (cst_db s)) as [[a d']|] eqn:E; [by apply K in E|done]. Qed.
#[export] Hint Resolve call_now : clock.

Lemma event_now cfg geoip e s : db_now (cst_db (handle_event healthy cfg geoip e s)) = db_now (cst_db s).
Proof.
  unfold handle_event. destruct e; cbn [dispatch].
  - apply call_now. unfold share_tx. auto 6 with clock.
  - unfold handle_share_rejected. destruct (reject_try_from _); [|done]. apply call_now. auto 6 with clock.
  - apply call_now. auto 6 with clock.
  - unfold handle_block_accepted, cm_bind.
    pose proof (call_now BlockMarkSubmitted _ s (keeps_find BlockMarkSubmitted hash)) as E.
    destruct (cm_call _ _ _ s) as [s1 [[b|]|]]; try exact E. rewrite <- E. apply call_now. auto with clock.
  - unfold handle_session_opened. destruct (parse_ip _) as [ip|]; [|done]. unfold cm_bind. set (m := etx_bind _ _).
    assert (keeps_now m) as K by (unfold m, session_open; auto with clock). pose proof (call_now SessionRecord m s K) as E.
    by destruct (cm_call _ _ m s) as [s1 []].
  - unfold handle_session_closed. destruct (cst_open s !! conn_id); [apply (call_now _ _ (mkCState _ _ _)); auto with clock|].
    destruct (parse_ip _) as [ip|]; [|done]. apply (call_now _ _ (mkCState _ _ _)). unfold record_closed. auto 6 with clock.
Qed.

(** A clock that does not run backwards, from [now] on. *)
Definition forward (now : Z) (at_ : nat -> Moment) : Prop :=
  now <= mo_now (at_ O) /\ forall i, mo_now (at_ i) <= mo_now (at_ (S i)).

Lemma arrive_wf m s :
  ident_wf (cst_db s) -> blocks_wf (cst_db s) -> db_now (cst_db s) <= mo_now m ->
  ident_wf (cst_db (arrive m s)) /\ blocks_wf (cst_db (arrive m s)).
Proof.
  intros W B L. destruct (elsewhere_effect (cst_db s) (cst_db (arrive m s)) W) as [W' _ _ _ R]; cbn; try done; [lia|].
  split; [exact W'|]. by apply (block_steps_ok _ _ B R).
Qed.

(** A replay computes the ledger of its events, whatever its clock and ids. *)
Lemma replay_view cfg geoip events : forall at_ s,
  Forall event_valid events -> ident_wf (cst_db s) -> blocks_wf (cst_db s) -> forward (db_now (cst_db s)) at_ ->
  view (replay_timed cfg geoip at_ events s) = ledger_of (cc_network cfg) events (view s).
Proof.
  induction events as [|e events IH]; intros at_ s V W B [L F]; [done|]. apply Forall_cons in V as [Ve V].
  cbn [replay_timed ledger_of fold_left]. destruct (arrive_wf (at_ O) s W B L) as [W1 B1].
  destruct (dispatch_effect healthy cfg geoip e (arrive (at_ O) s) Ve W1) as [W2 _ _ _ R].
  rewrite IH; [|done|done|by apply (block_steps_ok _ _ B1 R)|split; [by rewrite event_now; apply F|intros i; apply F]].
  by rewrite event_view.
Qed.

(** ** Orders *)

(** A total order, given as a comparison: what a deterministic collation is. *)
Class Ordering {K} (le : K -> K -> bool) : Prop := {
  ord_total a b : le a b = true \/ le b a = true;
  ord_trans a b c : le a b = true -> le b c = true -> le a c = true;
  ord_anti a b : le a b = true -> le b a = true -> a = b
}.

#[export] Instance bytes_ordering : Ordering bytes_leb.
Proof.
  split.
  - induction a as [|x a IH]; intros [|y b]; cbn; auto. destruct (Z.ltb_spec x y), (Z.ltb_spec y x); cbn; auto.
    assert (x = y) as -> by lia. rewrite Z.eqb_refl. apply IH.
  - induction a as [|x a IH]; intros [|y b] [|z c]; cbn; try done. rewrite !orb_true_iff, !andb_true_iff, !Z.ltb_lt, !Z.eqb_eq.
    intros [H1|[-> H1]] [H2|[-> H2]]; [left; lia|auto..|]. right. split; [done|by eapply IH].
  - induction a as [|x a IH]; intros [|y b]; cbn; try done. rewrite !orb_true_iff, !andb_true_iff, !Z.ltb_lt, !Z.eqb_eq.
    intros [H1|[-> H1]] [H2|[E H2]]; try lia. f_equal. by apply IH.
Qed.

Lemma lit_inj a b : lit a = lit b -> a = b.
Proof.
  revert b. induction a as [|c a IH]; intros [|c' b]; try done. unfold lit. cbn. intros [= E H].
  apply Nat2Z.inj in E. apply (f_equal ascii_of_nat) in E. rewrite !ascii_nat_embedding in E. subst. f_equal. by apply IH.
Qed.

#[export] Instance uuid_ordering : Ordering uuid_leb.
Proof.
  split; unfold uuid_leb; intros.
  - apply ord_total.
  - by eapply ord_trans.
  - by apply lit_inj, ord_anti.
Qed.

(** Sorting by a key that tells the rows apart does not depend on how the rows were
    met. *)
Lemma order_by_scan {R K} (le : K -> K -> bool) `{!Ordering le} (key : R -> K) l l' :
  (forall x y, In x l -> In y l -> key x = key y -> x = y) -> Permutation l' l ->
  order_by le key l' = order_by le key l.
Proof.
  intros D P. unfold order_by. set (cmp := fun a b => le (key a) (key b)).
  apply (StronglySorted_unique_strong (fun a b => cmp a b = true)).
  - intros x y Hx Hy H1 H2. apply list_elem_of_In, sort_by_In in Hx, Hy. apply D; [by eapply Permutation_in|done|by apply (ord_anti (le := le))].
  - apply sort_by_sorted; [intros; apply (ord_total (le := le))|intros ? ? ?; apply (ord_trans (le := le))].
  - apply sort_by_sorted; [intros; apply (ord_total (le := le))|intros ? ? ?; apply (ord_trans (le := le))].
  - etransitivity; [symmetry; apply sort_by_perm|]. etransitivity; [exact P|apply sort_by_perm].
Qed.

Lemma keyed_apart {R K} (key : R -> K) l : List.NoDup (map key l) -> forall x y, In x l -> In y l -> key x = key y -> x = y.
Proof. intros N x y. by apply NoDup_map_inj. Qed.

(** ** The snapshot of a ledger *)

Section Snapshots.
Context (text_leb : string -> string -> bool) `{!Ordering text_leb}.

Definition block_text (r : bytes * Z * Z * BlockStatus * string) : bytes * Z * Z * string * string :=
  let '(h, daa, nonce, status, cid) := r in (h, daa, nonce, BlockStatus_as_str status, cid).

Definition ledger_snapshot (l : Ledger) : DbSnapshot := {|
  ds_wallets := order_by text_leb fst (lg_wallets l);
  ds_workers := order_by text_leb id (map snd (lg_workers l));
  ds_shares := order_by uuid_leb snd (lg_shares l);
  ds_rejects := order_by uuid_leb snd (lg_rejects l);
  ds_blocks := order_by bytes_leb (fun r => r.1.1.1.1) (map block_text (lg_blocks l))
|}.

(** No two rows of a table are sorted by the same key. *)
Record tie_free (l : Ledger) : Prop := {
  tf_wallets : List.NoDup (map fst (lg_wallets l));
  tf_shares : List.NoDup (map snd (lg_shares l));
  tf_rejects : List.NoDup (map snd (lg_rejects l));
  tf_blocks : List.NoDup (map block_key (lg_blocks l))
}.

Lemma snapshot_view (scan : forall R, list R -> list R) o d :
  (forall R (l : list R), Permutation (scan R l) l) -> tie_free (view_db o d) ->
  snapshot text_leb scan d = ledger_snapshot (view_db o d).
Proof.
  intros S [Tw Ts Tr Tb]. unfold snapshot, ledger_snapshot. cbn [view_db lg_wallets lg_workers lg_shares lg_rejects lg_blocks] in *.
  f_equal.
  - apply order_by_scan; [done|by apply keyed_apart|by apply Permutation_map, S].
  - rewrite map_map. cbn. apply order_by_scan; [done|by intros|by apply Permutation_map, S].
  - apply order_by_scan; [apply _|by apply keyed_apart|by apply Permutation_map, S].
  - apply order_by_scan; [apply _|by apply keyed_apart|by apply Permutation_map, S].
  - rewrite map_map. apply order_by_scan; [apply _| |by apply Permutation_map, S].
    apply keyed_apart. rewrite map_map in *. exact Tb.
Qed.
End Snapshots.

(** ** What the ledger of a stream is like *)

Definition share_id (e : PoolEvent) : option string :=
  match e with ShareCredited _ _ _ _ _ cid => Some cid | _ => None end.
Definition reject_id (e : PoolEvent) : option string :=
  match e with ShareRejected _ _ _ _ cid => Some cid | _ => None end.

Definition proper (x : f64) : Prop := f64_eqb x x = true.

Lemma difficulty_proper d : ShareDifficulty_new d = Ok d -> proper d.
Proof.
  intros H. apply ShareDifficulty_new_spec in H as (_ & m & e & ->). unfold proper, f64_eqb, SFeqb. cbn.
  by rewrite Z.compare_refl, Pos.compare_refl.
Qed.

Lemma add_key_nodup {R K} `{EqDecision K} (key : R -> K) x l : List.NoDup (map key l) -> List.NoDup (map key (add_key key x l)).
Proof.
  intros N. unfold add_key. case_decide as D; [done|]. rewrite map_app. apply NoDup_app_snoc; [done|].
  intros H. by apply D, list_elem_of_In.
Qed.

(** What holds of the ledger while [rest] is still to come. *)
Record ledger_wf (rest : list PoolEvent) (l : Ledger) : Prop := {
  lw_wallets : List.NoDup (map fst (lg_wallets l));
  lw_blocks : List.NoDup (map block_key (lg_blocks l));
  lw_shares : List.NoDup (map snd (lg_shares l) ++ omap share_id rest);
  lw_rejects : List.NoDup (map snd (lg_rejects l) ++ omap reject_id rest);
  lw_proper : Forall (fun r => proper r.1.1) (lg_shares l)
}.

Lemma NoDup_drop {A} (l r : list A) x : List.NoDup (l ++ x :: r) -> List.NoDup (l ++ r).
Proof. apply NoDup_remove_1. Qed.

Lemma NoDup_shift {A} (l r : list A) x : List.NoDup (l ++ x :: r) -> List.NoDup ((l ++ [x]) ++ r).
Proof. by rewrite <- app_assoc. Qed.

Lemma enroll_frame network a n l l' :
  enroll network a n l = Some l' ->
  lg_shares l' = lg_shares l /\ lg_rejects l' = lg_rejects l /\ lg_blocks l' = lg_blocks l /\
  (List.NoDup (map fst (lg_wallets l)) -> List.NoDup (map fst (lg_wallets l'))).
Proof. unfold enroll. destruct (identity_ok _ _ _); [|done]. intros [= <-]. repeat split. apply add_key_nodup. Qed.

Lemma enroll_opt_frame network a n l l' :
  enroll_opt network a n l = Some l' ->
  lg_shares l' = lg_shares l /\ lg_rejects l' = lg_rejects l /\ lg_blocks l' = lg_blocks l /\
  (List.NoDup (map fst (lg_wallets l)) -> List.NoDup (map fst (lg_wallets l'))).
Proof. destruct a, n; cbn [enroll_opt]; try (by intros [= <-]). apply enroll_frame. Qed.

Lemma ledger_event_wf network e rest l :
  event_valid e -> ledger_wf (e :: rest) l -> ledger_wf rest (ledger_event network e l).
Proof.
  intros V [Ww Wb Ws Wr Wp]. destruct e; cbn in Ws, Wr; cbn [event_valid] in V; cbn [ledger_event].
  - destruct (enroll _ _ _ _) as [l'|] eqn:E; [|split; try done; by eapply NoDup_drop]. apply enroll_frame in E as (Es & Er & Eb & Ew).
    destruct (_ && _); split; cbn; rewrite ?Es, ?Er, ?Eb, ?map_app; auto; try (by eapply NoDup_drop); [by apply NoDup_shift|].
    apply Forall_app. split; [done|]. constructor; [|done]. by apply difficulty_proper, V.
  - destruct (enroll _ _ _ _) as [l'|] eqn:E; [|split; try done; by eapply NoDup_drop]. apply enroll_frame in E as (Es & Er & Eb & Ew).
    split; cbn; rewrite ?Es, ?Er, ?Eb, ?map_app; auto. by apply NoDup_shift.
  - destruct (enroll _ _ _ _) as [l'|] eqn:E; [|by split]. apply enroll_frame in E as (Es & Er & Eb & Ew).
    destruct (_ && _); split; cbn; rewrite ?Es, ?Er, ?Eb; auto. by apply add_key_nodup.
  - split; cbn; auto. rewrite map_map. erewrite map_ext; [exact Wb|]. by intros [[[[h z1] z2] st] c].
  - destruct (parse_ip _); [|by split]. destruct (enroll_opt _ _ _ _) as [l'|] eqn:E; [|by split].
    apply enroll_opt_frame in E as (Es & Er & Eb & Ew). split; cbn; rewrite ?Es, ?Er, ?Eb; auto.
  - destruct (decide _); [by split|]. destruct (parse_ip _); [|by split]. destruct (enroll_opt _ _ _ _) as [l'|] eqn:E; [|by split].
    apply enroll_opt_frame in E as (Es & Er & Eb & Ew). split; cbn; rewrite ?Es, ?Er, ?Eb; auto.
Qed.

Lemma ledger_of_wf network events : forall l,
  Forall event_valid events -> ledger_wf events l -> ledger_wf [] (ledger_of network events l).
Proof.
  induction events as [|e events IH]; intros l V W; [done|]. apply Forall_cons in V as [Ve V]. cbn. apply IH; [done|].
  by apply ledger_event_wf.
Qed.

Lemma ledger_wf_tie_free l : ledger_wf [] l -> tie_free l.
Proof. intros [? ? S R ?]. cbn in S, R. rewrite app_nil_r in S, R. by split. Qed.

(** ** Dual replay *)

(** A database the consumer has not written to. *)
Record fresh (d : Db) : Prop := {
  fr_wallets : db_wallets d = [];
  fr_workers : db_workers d = [];
  fr_shares : db_shares d = [];
  fr_rejects : db_rejects d = [];
  fr_blocks : db_blocks d = []
}.

Record site_ok (si : Site) : Prop := {
  so_fresh : fresh (si_db si);
  so_clock : forward (db_now (si_db si)) (si_at si);
  so_scan : forall R (l : list R), Permutation (si_scan si R l) l
}.

Lemma fresh_wf d : fresh d -> ident_wf d /\ blocks_wf d.
Proof.
  intros [W K S R B]. split; split; rewrite ?W, ?K, ?S, ?B; constructor.
Qed.

Lemma list_eqb_refl {R} (eqb : R -> R -> bool) l : Forall (fun x => eqb x x = true) l -> list_eqb eqb l l = true.
Proof. induction 1 as [|x l H _ IH]; [done|]. cbn. by rewrite H. Qed.

Section Determinism.
Context (text_leb : string -> string -> bool) `{!Ordering text_leb}.

Lemma snapshot_eqb_refl s : Forall (fun r => proper r.1.1) (ds_shares s) -> snapshot_eqb s s = true.
Proof.
  intros F. unfold snapshot_eqb. rewrite !bool_decide_true by done. rewrite list_eqb_refl; [done|].
  eapply Forall_impl; [exact F|]. intros [[d z] c] P. unfold share_columns_eqb. cbn in *.
  by rewrite P, Z.eqb_refl, String.eqb_refl.
Qed.

(** What a site holds after the replay. *)
Lemma site_snapshot cfg events si :
  Forall event_valid events -> List.NoDup (omap share_id events) -> List.NoDup (omap reject_id events) -> site_ok si ->
  let l := ledger_of (cc_network cfg) events empty_ledger in
  replay_site text_leb cfg events si = ledger_snapshot text_leb l /\ ledger_wf [] l.
Proof.
  intros V Ns Nr [F C S] l. destruct (fresh_wf _ F) as [W B].
  assert (ledger_wf [] l) as L by (apply ledger_of_wf; [done|split; cbn; (done || constructor)]).
  pose proof (replay_view cfg None events (si_at si) (mkCState (si_db si) ∅ 0) V W B C) as H.
  assert (view (mkCState (si_db si) ∅ 0) = empty_ledger) as E.
  { destruct F as [E1 E2 E3 E4 E5]. unfold view, view_db. cbn. by rewrite E1, E2, E3, E4, E5, dom_empty_L. }
  rewrite E in H. split; [|exact L]. unfold replay_site.
  rewrite (snapshot_view text_leb _ (dom (cst_open (replay_timed cfg None (si_at si) events (mkCState (si_db si) ∅ 0))))); [|done|].
  - f_equal. exact H.
  - fold (view (replay_timed cfg None (si_at si) events (mkCState (si_db si) ∅ 0))). rewrite H. by apply ledger_wf_tie_free.
Qed.

(** C39. Replay is deterministic.  Two replays of one stream into databases the consumer
    has not written to agree, wherever they run: whatever the instances are called,
    whatever the clocks show (if they do not run backwards), whatever ids the
    sequences hand out and in whatever order a scan meets the rows, both snapshots
    are that of the stream's ledger and the comparison succeeds.  The correlation
    ids of the credited shares differ, and so do those of the rejections. *)
Theorem replay_deterministic events instance_a instance_b network a b :
  existsb (String.eqb network) VALID_NETWORKS = true -> Forall event_valid events ->
  List.NoDup (omap share_id events) -> List.NoDup (omap reject_id events) -> site_ok a -> site_ok b ->
  verify_dual_replay text_leb events instance_a instance_b network a b = Ok tt /\
  forall cfg si, (si = a \/ si = b) -> cc_network cfg = network ->
    replay_site text_leb cfg events si = ledger_snapshot text_leb (ledger_of network events empty_ledger).
Proof.
  intros N V Ns Nr A B. split.
  - unfold verify_dual_replay, ConsumerConfig_new. rewrite N. cbn [map_err rbind]. set (ca := mkConsumerConfig _ _).
    set (cb := mkConsumerConfig _ _). destruct (site_snapshot ca events a V Ns Nr A) as [-> L].
    destruct (site_snapshot cb events b V Ns Nr B) as [-> _]. cbn [ca cb cc_network] in *.
    unfold assert_snapshots_equal. rewrite snapshot_eqb_refl; [done|]. cbn. apply List.Forall_forall. intros x Hx.
    apply sort_by_In in Hx. pose proof (lw_proper _ _ L) as P. rewrite List.Forall_forall in P. by apply P.
  - intros cfg si [->| ->] <-; by apply site_snapshot.
Qed.
End Determinism.

(** ** Event logs *)

(** A log that was written one event per line, with comments and blank lines
    between, is read back as its events; the reader stops at the first line that is
    neither. *)
Section LogRoundTrip.
Context (from_str : text -> option PoolEvent) (to_string : PoolEvent -> text).

Inductive log_of : list PoolEvent -> list (option text) -> Prop :=
| LogEnd : log_of [] []
| LogEvent e events line reader :
    trim line = to_string e -> log_of events reader -> log_of (e :: events) (Some line :: reader)
| LogSkip events line reader :
    (trim line = [] \/ exists s, trim line = 35 :: s) -> log_of events reader -> log_of events (Some line :: reader).

Lemma log_round_trip events reader n :
  (forall e, from_str (to_string e) = Some e) -> (forall e, exists c s, to_string e = c :: s /\ c <> 35) ->
  log_of events reader -> load_lines from_str n reader = Ok events.
Proof.
  intros F H L. revert n. induction L as [|e events line reader E _ IH|events line reader E _ IH]; intros n; cbn; [done|..].
  - rewrite E. destruct (H e) as (c & s & Es & Hc). pose proof (F e) as Fe. rewrite Es in *.
    destruct (Z.eqb_spec c 35); [done|]. by rewrite Fe, IH.
  - destruct E as [->|[s ->]]; apply IH.
Qed.
End LogRoundTrip.

(** ** Concrete replays *)

Definition replay_events : list PoolEvent :=
  let a := lit (sample_address "alice") in let b := lit (sample_address "bob") in
  [ShareCredited b (lit "rig-1") (f64_of_Z 4) 100 1 "e1";
   ShareCredited a (lit "rig-2") (f64_of_Z 8) 101 2 "e0";
   ShareRejected a (lit "rig-2") Stale 2 "r1";
   BlockFound b (lit "rig-1") sample_hash 101 3 "e3";
   BlockAccepted sample_hash 4 "e3"].

Definition site (now : Z) (seq : Z) (drawn : nat) (scan : forall R, list R -> list R) : Site :=
  mkSite (set_seq seq (mkDb now 1 [] [] [] [] [] [] [] [] [] ∅ [] [] [] [] []))
    (fun i => mkMoment (now + Z.of_nat i) drawn) scan.

Lemma site_is_ok now seq drawn scan : (forall R (l : list R), Permutation (scan R l) l) -> site_ok (site now seq drawn scan).
Proof. intros S. split; [by split|split; cbn; [lia|intros i; lia]|exact S]. Qed.

Definition here : Site := site 10 1 0 (fun _ l => l).
Definition elsewhere : Site := site 5000 77 3 (fun _ => @rev _).

Lemma replay_deterministic_witness :
  verify_dual_replay uuid_leb replay_events "primary" "backup" "mainnet" here elsewhere = Ok tt /\
  map snd (ds_shares (replay_site uuid_leb sample_consumer replay_events elsewhere)) = ["e0"; "e1"]%string.
Proof.
  split; [|vm_compute; reflexivity].
  apply (replay_deterministic uuid_leb replay_events "primary" "backup" "mainnet" here elsewhere).
  - reflexivity.
  - repeat constructor; vm_compute; reflexivity.
  - cbn. repeat constructor; cbn; intuition discriminate.
  - cbn. repeat constructor; cbn; intuition discriminate.
  - apply site_is_ok. intros R l. reflexivity.
  - apply site_is_ok. intros R l. apply Permutation_sym, Permutation_rev.
Defined.

(** A clock that is set back between a block and its acceptance: the acceptance
    violates the order of the block's time stamps and is dropped. *)
Definition set_back : Site :=
  mkSite (si_db here) (fun i => mkMoment (if (i <=? 3)%nat then 100 else 99) 0) (si_scan here).

Theorem clock_set_back_differs :
  verify_dual_replay uuid_leb replay_events "primary" "backup" "mainnet" here set_back = Err SnapshotsDiffer.
Proof. vm_compute. reflexivity. Qed.

(** Two credited shares under one correlation id are ordered as the scan meets them. *)
Theorem equal_ids_differ :
  verify_dual_replay uuid_leb
    [ShareCredited (lit (sample_address "alice")) (lit "rig") (f64_of_Z 4) 100 1 "e";
     ShareCredited (lit (sample_address "alice")) (lit "rig") (f64_of_Z 8) 101 1 "e"]
    "primary" "backup" "mainnet" here elsewhere = Err SnapshotsDiffer.
Proof. vm_compute. reflexivity. Qed.
