(* ===== verification/Maturity.v ===== *)
(** * The maturity tracker ([accountant/src/maturity.rs])

    One sweep resolves submitted blocks by their colour and turns matured
    coinbase outputs into allocated rewards.  The node's answers, and the outcome
    of each database call, are those of the environment at the call's index. *)
From Stdlib Require Import SpecFloat.
From S2P Require Import Prelude F64 FeeModel Schema PayoutDb Domain AccountDb IngestDb Allocation.
Open Scope Z_scope.

Definition DEFAULT_COINBASE_MATURITY : Z := 100.
Definition DEFAULT_WINDOW_DAA_SPAN : Z := 600.
Definition DEFAULT_BATCH_SIZE : Z := 200.
Definition DEFAULT_POLL_INTERVAL_SECS : Z := 15.

Inductive KaspadError := KTransport (msg : string) | KMalformed (msg : string).
Inductive BlockColor := Blue | Red | NotYetMerged.

Record CoinbaseUtxo := mkUtxo {
  ut_transaction_id : bytes;
  ut_index : Z;
  ut_amount_sompi : Z;
  ut_block_daa_score : Z
}.

(** Code that calls the database and the node: the database and the index of the
    next call; an error keeps both. *)
Definition EM (E A : Type) : Type := Db * nat -> (Db * nat) * result A E.
Definition tm_ret {E A} (a : A) : EM E A := fun s => (s, Ok a).
Definition tm_fail {E A} (e : E) : EM E A := fun s => (s, Err e).
Definition tm_bind {E A B} (m : EM E A) (k : A -> EM E B) : EM E B :=
  fun s => match m s with
           | (s', Ok a) => k a s'
           | (s', Err e) => (s', Err e)
           end.

Notation "x <-t m ;; k" := (tm_bind m (fun x => k))
  (at level 100, m at next level, right associativity) : kat_scope.

Definition em_map_err {E F A} (f : E -> F) (m : EM E A) : EM F A :=
  fun s => let '(s', r) := m s in (s', map_err f r).

(** A question to the node, answered at the call's index. *)
Definition em_ask {E A} (f : nat -> result A E) : EM E A :=
  fun s => let '(d, n) := s in ((d, S n), f n).

(** A call of the repository, whose outcome the environment decides. *)
Definition em_db {E A} (fault : nat -> Fault) (lift : DbError -> E) (m : DB A) : EM E A :=
  fun s =>
    let '(d, n) := s in
    match fault n with
    | FailBefore => ((d, S n), Err (lift Connection))
    | NoFault =>
        match m d with
        | Ok (a, d') => ((d', S n), Ok a)
        | Err e => ((d, S n), Err (lift e))
        end
    | FailAfter =>
        match m d with
        | Ok (_, d') => ((d', S n), Err (lift Connection))
        | Err e => ((d, S n), Err (lift e))
        end
    end.

(** What the tracker asks of a node.  Looking for outputs may use the database:
    the shielded scanner keeps its cursor there. *)
Class KaspadClient := {
  get_virtual_daa_score : nat -> result Z KaspadError;
  get_block_color : nat -> bytes -> result BlockColor KaspadError;
  get_pool_coinbase_utxos : (nat -> Fault) -> EM KaspadError (list CoinbaseUtxo)
}.

(** The contract: a client writes nothing but key/value entries. *)
Class KaspadFrame (K : KaspadClient) : Prop :=
  discover_frame : forall fault d n d' n' r,
    get_pool_coinbase_utxos fault (d, n) = ((d', n'), r) -> exists m, d' = set_meta m d.

Record MaturityConfig := mkMaturityConfig {
  mc_poll_interval_secs : Z;
  mc_coinbase_maturity : Z;
  mc_window_daa_span : Z;
  mc_batch_size : Z;
  mc_coinbase_min_daa_score : Z
}.

Definition MaturityConfig_default : MaturityConfig :=
  mkMaturityConfig DEFAULT_POLL_INTERVAL_SECS DEFAULT_COINBASE_MATURITY DEFAULT_WINDOW_DAA_SPAN
    DEFAULT_BATCH_SIZE 0.

Record SweepStats := mkSweepStats {
  ss_confirmed_blue : Z;
  ss_orphaned : Z;
  ss_blocks_waiting : Z;
  ss_rewards_discovered : Z;
  ss_rewards_allocated : Z;
  ss_rewards_empty : Z;
  ss_errors : Z;
  ss_rewards_skipped_below_floor : Z
}.

Definition SweepStats_default : SweepStats := mkSweepStats 0 0 0 0 0 0 0 0.

(** The counters of one item. *)
Definition stats_add (s t : SweepStats) : SweepStats :=
  mkSweepStats (ss_confirmed_blue s + ss_confirmed_blue t) (ss_orphaned s + ss_orphaned t)
    (ss_blocks_waiting s + ss_blocks_waiting t) (ss_rewards_discovered s + ss_rewards_discovered t)
    (ss_rewards_allocated s + ss_rewards_allocated t) (ss_rewards_empty s + ss_rewards_empty t)
    (ss_errors s + ss_errors t) (ss_rewards_skipped_below_floor s + ss_rewards_skipped_below_floor t).

Definition one_confirmed := mkSweepStats 1 0 0 0 0 0 0 0.
Definition one_orphaned := mkSweepStats 0 1 0 0 0 0 0 0.
Definition one_waiting := mkSweepStats 0 0 1 0 0 0 0 0.
Definition one_discovered := mkSweepStats 0 0 0 1 0 0 0 0.
Definition one_allocated := mkSweepStats 0 0 0 0 1 0 0 0.
Definition one_empty := mkSweepStats 0 0 0 0 0 1 0 0.
Definition one_error := mkSweepStats 0 0 0 0 0 0 1 0.
Definition one_skipped := mkSweepStats 0 0 0 0 0 0 0 1.

Inductive BlockOutcome := BoConfirmedBlue | BoOrphaned | BoStillWaiting.

Inductive TrackerError :=
| TkKaspad (e : KaspadError)
| TkDb (e : DbError)
| TkEngine (e : AllocationEngineError)
| TkMalformed (reason : string).

Definition is_mature (virtual_daa_score block_daa_score coinbase_maturity : Z) : bool :=
  match checked_u64 (virtual_daa_score - block_daa_score) with
  | Some depth => coinbase_maturity <=? depth
  | None => false
  end.

Definition bytes_to_hash (b : bytes) : option bytes := if (length b =? 32)%nat then Some b else None.

(** The tracker's code. *)
Definition TM (A : Type) : Type := EM TrackerError A.

Definition tm_ask {A} (f : nat -> result A KaspadError) : TM A := em_ask (fun n => map_err TkKaspad (f n)).

(** The result of [m], error included, as a value: the per-item [match]. *)
Definition tm_try {A} (m : TM A) : TM (result A TrackerError) :=
  fun s => let '(s', r) := m s in (s', Ok r).

Section Tracker.
Context (fault : nat -> Fault) (clock : nat -> Z) (fee : FeeConfig) (instance_id : string).
Context {classifier : TierClassifier} {kaspad : KaspadClient} (cfg : MaturityConfig).

Definition tm_db {A} (m : DB A) : TM A := em_db fault TkDb m.

Definition process_submitted (blk : Block) (virtual_daa_score : Z) : TM BlockOutcome :=
  match bytes_to_hash (bk_hash blk) with
  | None => tm_fail (TkMalformed "block.hash is not 32 bytes")
  | Some hash =>
      color <-t tm_ask (fun n => get_block_color n hash) ;;
      match color with
      | Blue => _ <-t tm_db (mark_confirmed_blue hash None) ;; tm_ret BoConfirmedBlue
      | Red => _ <-t tm_db (mark_orphaned hash) ;; tm_ret BoOrphaned
      | NotYetMerged =>
          let block_daa := as_u64 (bk_daa_score blk) in
          if sat_u64 (block_daa + mc_coinbase_maturity cfg) <=? virtual_daa_score
          then _ <-t tm_db (mark_orphaned hash) ;; tm_ret BoOrphaned
          else tm_ret BoStillWaiting
      end
  end.

Definition block_stats (r : result BlockOutcome TrackerError) : SweepStats :=
  match r with
  | Ok BoConfirmedBlue => one_confirmed
  | Ok BoOrphaned => one_orphaned
  | Ok BoStillWaiting => one_waiting
  | Err _ => one_error
  end.

Fixpoint process_blocks (active : list Block) (virtual_daa_score : Z) (stats : SweepStats)
  : TM SweepStats :=
  match active with
  | [] => tm_ret stats
  | blk :: active =>
      r <-t tm_try (process_submitted blk virtual_daa_score) ;;
      process_blocks active virtual_daa_score (stats_add stats (block_stats r))
  end.

Definition sweep_blocks (virtual_daa_score : Z) (stats : SweepStats) : TM SweepStats :=
  active <-t tm_db (list_by_status [SubmittedToNode] (mc_batch_size cfg)) ;;
  process_blocks active virtual_daa_score stats.

(** One output: skipped while immature, below the floor or out of range; else
    recorded by its outpoint. *)
Definition record_utxo (virtual_daa_score : Z) (utxo : CoinbaseUtxo) (stats : SweepStats)
  : TM SweepStats :=
  if negb (is_mature virtual_daa_score (ut_block_daa_score utxo) (mc_coinbase_maturity cfg))
  then tm_ret stats
  else if ut_block_daa_score utxo <? mc_coinbase_min_daa_score cfg
  then tm_ret (stats_add stats one_skipped)
  else match i64_try_from (ut_amount_sompi utxo) with
       | None => tm_ret (stats_add stats one_error)
       | Some amount =>
           r <-t tm_try (tm_db (coinbase_ensure (ut_transaction_id utxo) (ut_index utxo) amount
                                  (ut_block_daa_score utxo))) ;;
           match r with
           | Ok (_, Inserted) => tm_ret (stats_add stats one_discovered)
           | Ok (_, AlreadyExisted) => tm_ret stats
           | Err _ => tm_ret (stats_add stats one_error)
           end
       end.

Fixpoint record_utxos (virtual_daa_score : Z) (utxos : list CoinbaseUtxo) (stats : SweepStats)
  : TM SweepStats :=
  match utxos with
  | [] => tm_ret stats
  | u :: utxos =>
      stats <-t record_utxo virtual_daa_score u stats ;;
      record_utxos virtual_daa_score utxos stats
  end.

(** The window that ends at the reward's score. *)
Definition allocate_reward (reward : CoinbaseReward) : TM AllocationOutcome :=
  fun s =>
    let daa := as_u64 (cr_block_daa_score reward) in
    let '(s', r) :=
      allocate_coinbase_reward fault fee instance_id (clock (snd s)) (cr_id reward)
        (cr_amount_sompi reward) (sat_u64 (daa - mc_window_daa_span cfg)) daa s in
    (s', map_err TkEngine r).

Definition allocation_stats (r : result AllocationOutcome TrackerError) : SweepStats :=
  match r with
  | Ok (Allocated _ _ _ _ _) => one_allocated
  | Ok (NoContributingWallets _) => one_empty
  | Ok AlreadyAllocated => SweepStats_default
  | Err _ => one_error
  end.

(** A panic aborts the process. *)
Fixpoint allocate_rewards (pending : list CoinbaseReward) (stats : SweepStats) : TM SweepStats :=
  match pending with
  | [] => tm_ret stats
  | reward :: pending =>
      r <-t tm_try (allocate_reward reward) ;;
      match r with
      | Err (TkEngine AePanic) => tm_fail (TkEngine AePanic)
      | _ => allocate_rewards pending (stats_add stats (allocation_stats r))
      end
  end.

Definition sweep_rewards (virtual_daa_score : Z) (stats : SweepStats) : TM SweepStats :=
  utxos <-t em_map_err TkKaspad (get_pool_coinbase_utxos fault) ;;
  stats <-t record_utxos virtual_daa_score utxos stats ;;
  pending <-t tm_db (list_unallocated (mc_batch_size cfg)) ;;
  allocate_rewards pending stats.

Definition run_once : TM SweepStats :=
  virtual_daa_score <-t tm_ask get_virtual_daa_score ;;
  stats <-t sweep_blocks virtual_daa_score SweepStats_default ;;
  sweep_rewards virtual_daa_score stats.
End Tracker.
