(* ===== verification/MaturitySpec.v ===== *)
(** * What a maturity sweep guarantees

    In every sweep, whatever the node answers and whichever database calls fail,
    the allocation ledger stays exact, blocks only move along their lifecycle and
    only matured outputs above the floor become rewards; with a healthy node and
    database each submitted block is resolved by its colour and each matured
    output is recorded. *)
From Stdlib Require Import SpecFloat.
From S2P Require Import Prelude F64 FeeModel Schema PayoutDb Domain AccountDb IngestDb BlockSpec.
From S2P Require Import Allocation AllocationSpec Maturity.
Open Scope Z_scope.

(** ** Rewards persist *)

(** The columns of a reward no write touches. *)
Definition reward_key (r : CoinbaseReward) : Z * bytes * Z * Z * Z :=
  (cr_id r, cr_outpoint_transaction_id r, cr_outpoint_index r, cr_amount_sompi r, cr_block_daa_score r).

Lemma stamp_key now r : reward_key (stamp_allocated now r) = reward_key r.
Proof. done. Qed.

Lemma booked_keys rid d d' new :
  booked rid d d' new -> map reward_key (db_rewards d') = map reward_key (db_rewards d).
Proof.
  intros B. rewrite (bk_stamped _ _ _ _ B). apply map_id_update. intros r. by destruct (_ =? _).
Qed.

Lemma allocate_frame fault fee inst now (classifier : TierClassifier) rid reward a b d n d' n' r :
  reward <= i64_max ->
  allocate_coinbase_reward fault fee inst now rid reward a b (d, n) = ((d', n'), r) ->
  map reward_key (db_rewards d') = map reward_key (db_rewards d) /\ outside d' = outside d.
Proof.
  intros Hm H. destruct (allocate_shape _ _ _ _ _ _ _ _ _ _ _ _ _ Hm H)
    as [e B _|d1 out B F _|d1 out res0 tot ws al B _ L S _ _ _ Bk _];
    rewrite <- (bs_rewards _ _ B), <- (bs_outside _ _ B).
  - done.
  - destruct (finalise_empty_ok _ _ _ _ _ _ F) as [(_ & -> & _)|[_ K]]; [done|].
    split; [by eapply booked_keys|apply K].
  - destruct (book_ok _ _ _ _ _ _ _ _ _ _ _ L Bk) as [(_ & -> & _)|(new & K & _)]; [done|].
    split; [by eapply booked_keys|apply K].
Qed.

(** ** What a step of a sweep may do *)

(** A reward row made from a matured output above the floor. *)
Record recorded_from (cfg : MaturityConfig) (v : Z) (u : CoinbaseUtxo) (r : CoinbaseReward) : Prop := {
  rf_mature : ut_block_daa_score u + mc_coinbase_maturity cfg <= v;
  rf_floor : mc_coinbase_min_daa_score cfg <= ut_block_daa_score u;
  rf_txid : cr_outpoint_transaction_id r = ut_transaction_id u;
  rf_index : cr_outpoint_index r = as_i32 (ut_index u);
  rf_amount : cr_amount_sompi r = ut_amount_sompi u;
  rf_daa : cr_block_daa_score r = as_i64 (ut_block_daa_score u)
}.

Lemma recorded_from_key cfg v u r r' :
  reward_key r' = reward_key r -> recorded_from cfg v u r -> recorded_from cfg v u r'.
Proof.
  unfold reward_key. intros E [? ? ? ? ? ?]. injection E as ? ? ? ? ?. split; congruence.
Qed.

Section Sweep.
Context (fault : nat -> Fault) (clock : nat -> Z) (fee : FeeConfig) (instance_id : string).
Context {classifier : TierClassifier} {kaspad : KaspadClient} {frame : KaspadFrame kaspad}
  (cfg : MaturityConfig).

(** What is known of the key/value entries, and of the outputs the client reports
    while it holds. *)
Variables (meta_inv : gmap string string -> Prop) (reported : CoinbaseUtxo -> Prop).
Hypothesis discover_ok : forall d n d' n' r,
  meta_inv (db_meta d) -> get_pool_coinbase_utxos fault (d, n) = ((d', n'), r) ->
  meta_inv (db_meta d') /\ forall utxos u, r = Ok utxos -> In u utxos -> reported u.

Record swept (v : Z) (d d' : Db) : Prop := {
  sw_acct : rtc acct_step d d';
  sw_blocks : rtc block_step d d';
  sw_kept : incl (map reward_key (db_rewards d)) (map reward_key (db_rewards d'));
  sw_meta : meta_inv (db_meta d) -> meta_inv (db_meta d');
  sw_new : forall r, In r (db_rewards d') ->
    In (reward_key r) (map reward_key (db_rewards d)) \/
    exists u, reported u /\ recorded_from cfg v u r
}.

Lemma swept_refl v d : swept v d d.
Proof. split; try apply rtc_refl; try apply incl_refl; [done|]. intros r Hr. left. by apply in_map. Qed.

Lemma swept_trans v d1 d2 d3 : swept v d1 d2 -> swept v d2 d3 -> swept v d1 d3.
Proof.
  intros [A1 B1 K1 M1 N1] [A2 B2 K2 M2 N2]. split; [by etransitivity..|by eapply incl_tran|by auto|].
  intros r Hr. destruct (N2 r Hr) as [H|H]; [|by right].
  apply in_map_iff in H as (r0 & E & Hr0). destruct (N1 r0 Hr0) as [H|(u & Hu & H)].
  - left. by rewrite <- E.
  - right. exists u. split; [done|]. by eapply recorded_from_key.
Qed.

(** Code that only sweeps. *)
Definition sweeps {A} (v : Z) (m : TM A) : Prop :=
  forall d n d' n' r, alloc_wf d -> meta_inv (db_meta d) -> m (d, n) = ((d', n'), r) ->
    alloc_wf d' /\ swept v d d'.

Lemma sweeps_ret {A} v (a : A) : sweeps v (tm_ret a).
Proof. intros d n d' n' r W I H. unfold tm_ret in H. inv_eqs. split; [done|apply swept_refl]. Qed.

Lemma sweeps_fail {A} v e : sweeps v (tm_fail (A := A) e).
Proof. intros d n d' n' r W I H. unfold tm_fail in H. inv_eqs. split; [done|apply swept_refl]. Qed.

Lemma sweeps_bind {A B} v (m : TM A) (k : A -> TM B) :
  sweeps v m -> (forall a, sweeps v (k a)) -> sweeps v (tm_bind m k).
Proof.
  intros Hm Hk d n d' n' r W I H. unfold tm_bind in H.
  destruct (m (d, n)) as [[d1 n1] [a|e]] eqn:E; destruct (Hm _ _ _ _ _ W I E) as [W1 S1].
  - destruct (Hk a _ _ _ _ _ W1 (sw_meta _ _ _ S1 I) H) as [W2 S2]. split; [done|by eapply swept_trans].
  - inv_eqs. done.
Qed.

Lemma sweeps_ask {A} v (f : nat -> result A KaspadError) : sweeps v (tm_ask f).
Proof. intros d n d' n' r W I H. unfold tm_ask, em_ask in H. inv_eqs. split; [done|apply swept_refl]. Qed.

Lemma sweeps_try {A} v (m : TM A) : sweeps v m -> sweeps v (tm_try m).
Proof.
  intros Hm d n d' n' r W I H. unfold tm_try in H.
  destruct (m (d, n)) as [[d1 n1] x] eqn:E. inv_eqs. by eapply Hm.
Qed.

Lemma sweeps_db {A} v (m : DB A) :
  (forall d a d', alloc_wf d -> m d = Ok (a, d') -> alloc_wf d' /\ swept v d d') -> sweeps v (tm_db fault m).
Proof.
  intros Hm d n d' n' r W I H. unfold tm_db, em_db in H.
  destruct (fault n), (m d) as [[a d1]|e] eqn:E; inv_eqs; eauto using swept_refl.
Qed.

Lemma sweeps_read {A} v (f : Db -> result A DbError) : sweeps v (tm_db fault (db_read_checked f)).
Proof.
  apply sweeps_db. intros d a d' W H. apply db_read_checked_same in H as <-. split; [done|apply swept_refl].
Qed.

(** ** The calls of a sweep *)

Lemma block_write_swept v p f d d' :
  alloc_wf d -> update_blocks p f d = Ok (tt, d') -> block_step d d' -> alloc_wf d' /\ swept v d d'.
Proof.
  intros W H S. unfold update_blocks in H. destruct (tbl_update _ _ _ _) as [[rows k]|]; [|discriminate].
  inv_eqs. split; [by apply (alloc_wf_same d)|].
  split; [by apply rtc_once, StepElsewhere|by apply rtc_once|apply incl_refl|done|].
  intros r Hr. left. by apply in_map.
Qed.

Lemma process_submitted_sweeps v blk virtual : sweeps v (process_submitted fault cfg blk virtual).
Proof.
  assert (forall hash, sweeps v (tm_db fault (mark_orphaned hash))) as Ho.
  { intros hash. apply sweeps_db. intros d [] d' W H. eapply block_write_swept; [done|exact H|].
    by eapply BsOrphaned. }
  unfold process_submitted. destruct (bytes_to_hash _) as [hash|]; [|apply sweeps_fail].
  apply sweeps_bind; [apply sweeps_ask|]. intros [].
  - apply sweeps_bind; [|intros; apply sweeps_ret]. apply sweeps_db. intros d [] d' W H.
    eapply block_write_swept; [done|exact H|]. by eapply BsConfirmed.
  - apply sweeps_bind; [apply Ho|intros; apply sweeps_ret].
  - destruct (_ <=? _); [|apply sweeps_ret]. apply sweeps_bind; [apply Ho|intros; apply sweeps_ret].
Qed.

Lemma sweep_blocks_sweeps v virtual stats : sweeps v (sweep_blocks fault cfg virtual stats).
Proof.
  unfold sweep_blocks. apply sweeps_bind; [apply sweeps_read|]. intros active. revert stats.
  induction active as [|b active IH]; intros stats; simpl; [apply sweeps_ret|].
  apply sweeps_bind; [apply sweeps_try, process_submitted_sweeps|]. intros r. apply IH.
Qed.

Lemma is_mature_iff virtual block maturity :
  0 <= maturity -> 0 <= block -> virtual <= u64_max ->
  is_mature virtual block maturity = true <-> block + maturity <= virtual.
Proof.
  intros. unfold is_mature. destruct (checked_u64 _) as [depth|] eqn:E.
  - apply checked_u64_Some in E as [<- _]. rewrite Z.leb_le. lia.
  - split; [discriminate|]. intros. exfalso.
    assert (checked_u64 (virtual - block) = Some (virtual - block)) as E'; [|congruence].
    apply checked_u64_Some. unfold in_u64. lia.
Qed.

Lemma is_mature_deep virtual block maturity :
  is_mature virtual block maturity = true -> block + maturity <= virtual.
Proof.
  unfold is_mature. destruct (checked_u64 _) as [depth|] eqn:E; [|discriminate].
  apply checked_u64_Some in E as [<- _]. rewrite Z.leb_le. lia.
Qed.

Lemma coinbase_ensure_swept v u d x d' :
  reported u -> is_mature v (ut_block_daa_score u) (mc_coinbase_maturity cfg) = true ->
  mc_coinbase_min_daa_score cfg <= ut_block_daa_score u -> ut_amount_sompi u <= i64_max -> alloc_wf d ->
  coinbase_ensure (ut_transaction_id u) (ut_index u) (ut_amount_sompi u) (ut_block_daa_score u) d
    = Ok (x, d') ->
  alloc_wf d' /\ swept v d d'.
Proof.
  intros Hu Hm Hf Ha W H. split; [by eapply discover_wf|].
  assert (acct_step d d') as S by (eapply StepDiscover; [|exact H]; done).
  unfold coinbase_ensure in H. destruct (negb _); [discriminate|].
  destruct (List.find _ _); inv_eqs; [apply swept_refl|].
  split; [by apply rtc_once|by apply rtc_once, BsElsewhere|simpl|done|].
  - intros k Hk. rewrite map_app. apply in_app_iff. by left.
  - simpl. intros r Hr. apply in_app_iff in Hr as [Hr|[<-|[]]]; [left; by apply in_map|right].
    exists u. split; [done|]. split; simpl; try done. by apply is_mature_deep.
Qed.

Lemma record_utxos_sweeps v utxos : forall stats,
  (forall u, In u utxos -> reported u) -> sweeps v (record_utxos fault cfg v utxos stats).
Proof.
  induction utxos as [|u utxos IH]; intros stats Hu; simpl; [apply sweeps_ret|].
  apply sweeps_bind; [|intros; apply IH; intros; apply Hu; by right].
  unfold record_utxo. destruct (is_mature _ _ _) eqn:Hm; [|apply sweeps_ret].
  destruct (Z.ltb_spec (ut_block_daa_score u) (mc_coinbase_min_daa_score cfg)); [apply sweeps_ret|].
  destruct (i64_try_from _) as [amount|] eqn:Ha; [|apply sweeps_ret].
  apply checked_i64_Some in Ha as [<- [_ Ha]].
  apply sweeps_bind; [|intros [[? []]|]; apply sweeps_ret].
  apply sweeps_try, sweeps_db. intros d x d' W H'. eapply coinbase_ensure_swept; eauto. apply Hu. by left.
Qed.

(** An allocation run for a row that is in the table. *)
Lemma allocate_reward_swept v reward d n d' n' r :
  alloc_wf d -> In (reward_key reward) (map reward_key (db_rewards d)) ->
  allocate_reward fault clock fee instance_id cfg reward (d, n) = ((d', n'), r) ->
  alloc_wf d' /\ swept v d d'.
Proof.
  intros W Hk H. unfold allocate_reward in H.
  destruct (allocate_coinbase_reward _ _ _ _ _ _ _ _ _) as [[d1 n1] r1] eqn:E. inv_eqs.
  apply in_map_iff in Hk as (row & Ek & Hrow). unfold reward_key in Ek. injection Ek as Ei _ _ Ea _.
  rewrite <- Ei, <- Ea in E.
  assert (cr_amount_sompi row <= i64_max) as Hm.
  { pose proof (aw_range d W) as R. rewrite List.Forall_forall in R. by apply R. }
  assert (acct_step d d') as S by (eapply StepAllocate; [exact Hrow|exact E]).
  destruct (allocate_frame _ _ _ _ _ _ _ _ _ _ _ _ _ _ Hm E) as [K O].
  split; [by eapply acct_step_wf|]. unfold outside in O. injection O as O1 O2 O3 O4 O5 O6 O7 O8 O9 O10 O11.
  split; [by apply rtc_once|apply rtc_once, BsElsewhere; [done|lia]|rewrite K; apply incl_refl|congruence|].
  intros r0 Hr0. left. rewrite <- K. by apply in_map.
Qed.

Lemma allocate_rewards_swept v pending : forall stats d n d' n' r,
  alloc_wf d -> (forall x, In x pending -> In (reward_key x) (map reward_key (db_rewards d))) ->
  allocate_rewards fault clock fee instance_id cfg pending stats (d, n) = ((d', n'), r) ->
  alloc_wf d' /\ swept v d d'.
Proof.
  induction pending as [|x pending IH]; intros stats d n d' n' r W Hk H; simpl in H.
  { unfold tm_ret in H. inv_eqs. split; [done|apply swept_refl]. }
  unfold tm_bind, tm_try in H.
  destruct (allocate_reward _ _ _ _ _ x (d, n)) as [[d1 n1] r1] eqn:E.
  eapply (allocate_reward_swept v) in E as [W1 S1]; [|done|apply Hk; by left].
  assert (forall stats', allocate_rewards fault clock fee instance_id cfg pending stats' (d1, n1)
            = ((d', n'), r) -> alloc_wf d' /\ swept v d d') as Go.
  { intros stats' H'. apply IH in H' as [W2 S2]; [split; [done|by eapply swept_trans]|done|].
    intros y Hy. apply (sw_kept _ _ _ S1), Hk. by right. }
  destruct r1 as [?|[| |[]|]]; eauto. unfold tm_fail in H. inv_eqs. done.
Qed.

(** Discovery writes only key/value entries. *)
Lemma discover_swept v d n d' n' r :
  alloc_wf d -> meta_inv (db_meta d) -> get_pool_coinbase_utxos fault (d, n) = ((d', n'), r) ->
  alloc_wf d' /\ swept v d d'.
Proof.
  intros W I H. destruct (discover_ok _ _ _ _ _ I H) as [I' _].
  destruct (discover_frame _ _ _ _ _ _ H) as [m ->]. split; [by apply (alloc_wf_same d)|].
  split; [by apply rtc_once, StepElsewhere|by apply rtc_once, BsElsewhere|apply incl_refl|done|].
  intros r0 Hr. left. by apply in_map.
Qed.

Lemma unallocated_read limit d n d' n' r :
  tm_db fault (list_unallocated limit) (d, n) = ((d', n'), r) ->
  d' = d /\ forall pending, r = Ok pending -> forall x, In x pending -> In x (db_rewards d).
Proof.
  intros E. unfold tm_db, em_db, list_unallocated, db_read_checked, sql_limit in E.
  destruct (limit <? 0); destruct (fault n); inv_eqs; (split; [done|]); intros pending Hp;
    inv_eqs; try discriminate. intros x Hx. apply In_firstn, sort_by_In, filter_In in Hx as [Hx _]. done.
Qed.

Lemma sweep_rewards_sweeps v stats :
  sweeps v (sweep_rewards fault clock fee instance_id cfg v stats).
Proof.
  unfold sweep_rewards. intros d n d' n' r W I H. unfold tm_bind at 1 in H. unfold em_map_err in H.
  destruct (get_pool_coinbase_utxos fault (d, n)) as [[d0 n0] r0] eqn:Hu.
  destruct (discover_swept v _ _ _ _ _ W I Hu) as [W0 S0].
  destruct r0 as [utxos|]; simpl in H; [|inv_eqs; done].
  cut (alloc_wf d' /\ swept v d0 d'); [intros [? ?]; split; [done|by eapply swept_trans]|].
  pose proof (sw_meta _ _ _ S0 I) as I0. destruct (discover_ok _ _ _ _ _ I Hu) as [_ Hr]. clear W S0.
  unfold tm_bind at 1 in H.
  destruct (record_utxos _ _ _ _ _ _) as [[d1 n1] r1] eqn:E.
  eapply record_utxos_sweeps in E as [W1 S1]; [|intros u; by apply Hr|done|done].
  destruct r1 as [stats1|]; [|inv_eqs; done].
  unfold tm_bind in H. destruct (tm_db fault _ (d1, n1)) as [[d2 n2] r2] eqn:E2.
  apply unallocated_read in E2 as [-> P].
  destruct r2 as [pending|]; [|inv_eqs; done].
  eapply (allocate_rewards_swept v) in H as [W2 S2]; [split; [done|by eapply swept_trans]|done|].
  intros x Hx. by apply in_map, (P pending).
Qed.
(** A whole sweep; it does nothing when the node does not tell its virtual score. *)
Lemma run_once_swept d n d' n' r :
  alloc_wf d -> meta_inv (db_meta d) -> run_once fault clock fee instance_id cfg (d, n) = ((d', n'), r) ->
  alloc_wf d' /\ ((exists v, get_virtual_daa_score n = Ok v /\ swept v d d') \/ d' = d).
Proof.
  intros W I H. unfold run_once, tm_bind at 1, tm_ask, em_ask in H.
  destruct (get_virtual_daa_score n) as [v|] eqn:Hv; simpl in H; [|inv_eqs; auto].
  eapply (sweeps_bind v) in H as [W' S];
    [eauto|apply sweep_blocks_sweeps|intros; apply sweep_rewards_sweeps|exact W|exact I].
Qed.
End Sweep.

(** ** Claims *)

(** The client reported the output in some call. *)
Definition reported {kaspad : KaspadClient} (fault : nat -> Fault) (u : CoinbaseUtxo) : Prop :=
  exists s s' utxos, get_pool_coinbase_utxos fault s = (s', Ok utxos) /\ In u utxos.

Lemma reported_ok (kaspad : KaspadClient) fault d n d' n' r :
  True -> get_pool_coinbase_utxos fault (d, n) = ((d', n'), r) ->
  True /\ forall utxos u, r = Ok utxos -> In u utxos -> reported fault u.
Proof. intros _ H. split; [done|]. intros utxos u -> Hu. by exists (d, n), (d', n'), utxos. Qed.

(** C31. Only matured coinbase outputs above the floor become rewards: after a sweep,
    whatever the node answered and whichever database calls failed, every reward
    row was there before with the same outpoint, amount and score, or records an
    output the node reported, at least [coinbase_maturity] below the virtual score
    the sweep read and not below the configured floor, with its outpoint, amount
    and score; and no reward is lost. *)
Theorem sweep_records_only_matured fault clock fee inst (classifier : TierClassifier)
    (kaspad : KaspadClient) (frame : KaspadFrame kaspad) cfg d n d' n' res :
  alloc_wf d -> run_once fault clock fee inst cfg (d, n) = ((d', n'), res) ->
  incl (map reward_key (db_rewards d)) (map reward_key (db_rewards d')) /\
  forall r, In r (db_rewards d') ->
    In (reward_key r) (map reward_key (db_rewards d)) \/
    exists v u, get_virtual_daa_score n = Ok v /\ reported fault u /\ recorded_from cfg v u r.
Proof.
  intros W H.
  destruct (run_once_swept fault clock fee inst cfg (fun _ => True) (reported fault)
              (fun d n d' n' r _ => reported_ok _ _ _ _ _ _ _ I) d n d' n' res W I H)
    as [_ [(v & Hv & S)| ->]].
  - split; [apply S|]. intros r Hr. destruct (sw_new _ _ _ _ _ _ S r Hr) as [|(u & Hu & R)]; [by left|].
    right. exists v, u. done.
  - split; [apply incl_refl|]. intros r Hr. left. by apply in_map.
Qed.

(** Sweeps, interleaved with writes that touch neither rewards nor allocations nor
    blocks. *)
Inductive tracker_step (d : Db) : Db -> Prop :=
| TsSweep fault clock fee inst (classifier : TierClassifier) (kaspad : KaspadClient)
    (frame : KaspadFrame kaspad) cfg n d' n' res :
    run_once fault clock fee inst cfg (d, n) = ((d', n'), res) -> tracker_step d d'
| TsElsewhere d' :
    db_allocations d' = db_allocations d -> db_rewards d' = db_rewards d ->
    db_blocks d' = db_blocks d -> db_seq d <= db_seq d' -> db_now d <= db_now d' -> tracker_step d d'.

Lemma tracker_step_ok d d' :
  alloc_wf d -> tracker_step d d' -> alloc_wf d' /\ rtc block_step d d'.
Proof.
  intros W [fault clock fee inst cl kaspad frame cfg n d1 n' res H|d1 Ea Er Eb Es En].
  - destruct (run_once_swept fault clock fee inst cfg (fun _ => True) (reported fault)
                (fun d n d' n' r _ => reported_ok _ _ _ _ _ _ _ I) d n d1 n' res W I H)
      as [W1 [(v & _ & S)| ->]]; (split; [done|]); [apply S|apply rtc_refl].
  - split; [by apply (alloc_wf_same d)|by apply rtc_once, BsElsewhere].
Qed.

(** In every history of sweeps, with any node, configuration, classifier and
    database faults, each reward is distributed exactly or not at all, and each
    block row stays with its hash and finder and only moves along the lifecycle. *)
Theorem sweeps_keep_books d d' :
  alloc_wf d -> blocks_wf d -> rtc tracker_step d d' ->
  blocks_wf d' /\ rows_advance d d' /\
  forall r, In r (db_rewards d') ->
    (allocs_of d' (cr_id r) = [] \/
     sumZ (map sa_gross_share_sompi (allocs_of d' (cr_id r))) = cr_amount_sompi r) /\
    (cr_allocated_at r = None -> allocs_of d' (cr_id r) = []).
Proof.
  intros W B S. assert (alloc_wf d' /\ rtc block_step d d') as [W' R].
  { clear B. revert W. induction S as [d|d d1 d2 S _ IH]; intros W; [split; [done|apply rtc_refl]|].
    destruct (tracker_step_ok _ _ W S) as [W1 R1]. destruct (IH W1) as [W2 R2].
    split; [done|by etransitivity]. }
  destruct (block_steps_ok _ _ B R) as [B' A]. split; [done|]. split; [done|].
  intros r Hr. pose proof (aw_exact d' W') as X. rewrite List.Forall_forall in X.
  destruct (X r Hr). auto.
Qed.

(** ** A healthy sweep *)

Definition resolution (cfg : MaturityConfig) (v : Z) (blk : Block) (c : BlockColor)
  : BlockOutcome * BlockStatus :=
  match c with
  | Blue => (BoConfirmedBlue, ConfirmedBlue)
  | Red => (BoOrphaned, Orphaned)
  | NotYetMerged =>
      if bk_daa_score blk + mc_coinbase_maturity cfg <=? v
      then (BoOrphaned, Orphaned) else (BoStillWaiting, SubmittedToNode)
  end.

(** An update that hits a row, on a table where it can fail no [CHECK]. *)
Lemma update_hits p f d blk d' :
  update_blocks p f d = Ok (tt, d') -> In blk (db_blocks d) -> p blk = true -> In (f blk) (db_blocks d').
Proof.
  unfold update_blocks. destruct (tbl_update _ _ _ _) as [[rows k]|] eqn:T; [|discriminate].
  intros [= <-] Hb Hp. apply tbl_update_ok in T as [-> _]. simpl. apply in_map_iff. exists blk.
  by rewrite Hp.
Qed.

Lemma submitted_hit blk (l : list BlockStatus) :
  bk_status blk = SubmittedToNode -> SubmittedToNode ∈ l ->
  has_hash (bk_hash blk) blk && status_in l blk = true.
Proof.
  intros E Hl. unfold has_hash, status_in. rewrite E, !bool_decide_eq_true_2 by done. done.
Qed.

Lemma orphan_hit blk :
  bk_status blk = SubmittedToNode -> has_hash (bk_hash blk) blk && negb (status_in [Matured] blk) = true.
Proof.
  intros E. unfold has_hash, status_in. rewrite E, bool_decide_eq_true_2 by done.
  rewrite bool_decide_eq_false_2 by set_solver. done.
Qed.

(** Marking a submitted block, on a sound table. *)
Lemma mark_resolves blk d :
  blocks_wf d -> In blk (db_blocks d) -> bk_status blk = SubmittedToNode ->
  (exists d', mark_confirmed_blue (bk_hash blk) None d = Ok (tt, d') /\
     exists b', In b' (db_blocks d') /\ same_block blk b' /\ bk_status b' = ConfirmedBlue) /\
  (exists d', mark_orphaned (bk_hash blk) d = Ok (tt, d') /\
     exists b', In b' (db_blocks d') /\ same_block blk b' /\ bk_status b' = Orphaned).
Proof.
  intros B Hb Hs. destruct (lifecycle_updates_total d (bk_hash blk) B) as (_ & (d1 & E1) & (d2 & E2) & _).
  split; eexists; (split; [eassumption|]); (eexists; split; [eapply update_hits; [eassumption|exact Hb|]|]).
  - apply submitted_hit; [done|set_solver].
  - split; done.
  - by apply orphan_hit.
  - split; done.
Qed.

(** A submitted block is resolved by its colour: blue confirms it, red orphans it,
    and one that is not yet merged is orphaned once it is [coinbase_maturity] deep
    and left to wait before that; the row of the block ends in that status and the
    tracker reports it. *)
Theorem process_submitted_spec fault (kaspad : KaspadClient) cfg blk v d n c :
  blocks_wf d -> In blk (db_blocks d) -> bk_status blk = SubmittedToNode ->
  fault (S n) = NoFault -> get_block_color n (bk_hash blk) = Ok c ->
  0 <= mc_coinbase_maturity cfg -> v < u64_max ->
  exists d' n', process_submitted fault cfg blk v (d, n) = ((d', n'), Ok (fst (resolution cfg v blk c))) /\
    exists b', In b' (db_blocks d') /\ same_block blk b' /\ bk_status b' = snd (resolution cfg v blk c).
Proof.
  intros B Hb Hs F Hc Hm Hv. destruct (mark_resolves blk d B Hb Hs) as [(d1 & E1 & R1) (d2 & E2 & R2)].
  pose proof (bw_rows d B) as Rows. rewrite List.Forall_forall in Rows.
  pose proof (bo_check _ _ (Rows blk Hb)) as Ck. unfold block_check in Ck. to_prop.
  unfold process_submitted, bytes_to_hash. rewrite H, Nat.eqb_refl.
  unfold tm_bind, tm_ask, em_ask, tm_db, em_db. rewrite Hc. simpl map_err. cbv iota beta.
  destruct c; simpl resolution.
  - rewrite F, E1. exists d1, (S (S n)). done.
  - rewrite F, E2. exists d2, (S (S n)). done.
  - assert (as_u64 (bk_daa_score blk) = bk_daa_score blk) as ->.
    { unfold as_u64. destruct (Z.leb_spec 0 (bk_daa_score blk)); [done|lia]. }
    assert ((sat_u64 (bk_daa_score blk + mc_coinbase_maturity cfg) <=? v)
            = (bk_daa_score blk + mc_coinbase_maturity cfg <=? v)) as ->.
    { unfold sat_u64 in *. apply eq_bool_prop_intro. rewrite !Is_true_true, !Z.leb_le. lia. }
    destruct (_ <=? v).
    + rewrite F, E2. exists d2, (S (S n)). done.
    + exists d, (S n). split; [done|]. exists blk. split; [done|]. split; [reflexivity|done].
Qed.

(** The outputs a healthy sweep must record. *)
Definition recordable (cfg : MaturityConfig) (v : Z) (u : CoinbaseUtxo) : Prop :=
  length (ut_transaction_id u) = 32%nat /\ 0 <= ut_index u <= i32_max /\
  0 <= ut_amount_sompi u <= i64_max /\ 0 <= ut_block_daa_score u <= i64_max /\
  ut_block_daa_score u + mc_coinbase_maturity cfg <= v /\
  mc_coinbase_min_daa_score cfg <= ut_block_daa_score u.

Definition has_outpoint (d : Db) (u : CoinbaseUtxo) : Prop :=
  exists r, In r (db_rewards d) /\ cr_outpoint_transaction_id r = ut_transaction_id u /\
    cr_outpoint_index r = ut_index u.

Lemma coinbase_ensure_records cfg v u d :
  recordable cfg v u ->
  exists x d', coinbase_ensure (ut_transaction_id u) (ut_index u) (ut_amount_sompi u)
                 (ut_block_daa_score u) d = Ok (x, d') /\ has_outpoint d' u /\
               incl (db_rewards d) (db_rewards d').
Proof.
  intros (Hl & Hi & Ha & Hd & _ & _). unfold coinbase_ensure, reward_check. simpl.
  assert (as_i32 (ut_index u) = ut_index u) as ->.
  { unfold as_i32. destruct (Z.leb_spec (ut_index u) i32_max); [done|lia]. }
  rewrite (as_i64_id (ut_block_daa_score u)) by done. rewrite Hl.
  repeat (match goal with |- context [0 <=? ?x] => destruct (Z.leb_spec 0 x); [|lia] end). simpl.
  destruct (List.find _ _) as [r|] eqn:F.
  - apply List.find_some in F as [Hr E]. unfold same_outpoint in E. to_prop.
    apply bool_decide_eq_true in H2. eexists _, d. split; [done|]. split; [by exists r|apply incl_refl].
  - eexists _, _. split; [done|]. split; simpl.
    + eexists. simpl. split; [apply in_app_iff; right; by left|done].
    + by apply incl_appl, incl_refl.
Qed.

Lemma coinbase_ensure_incl t i a b d x d' :
  coinbase_ensure t i a b d = Ok (x, d') -> incl (db_rewards d) (db_rewards d').
Proof.
  unfold coinbase_ensure. destruct (negb _); [discriminate|]. destruct (List.find _ _); intros; inv_eqs.
  - apply incl_refl.
  - simpl. by apply incl_appl, incl_refl.
Qed.

Lemma record_utxo_healthy fault cfg v u stats d n :
  fault n = NoFault -> 0 <= mc_coinbase_maturity cfg -> v <= u64_max ->
  exists d' n' s', record_utxo fault cfg v u stats (d, n) = ((d', n'), Ok s') /\
    incl (db_rewards d) (db_rewards d') /\ (recordable cfg v u -> has_outpoint d' u).
Proof.
  intros F Hm Hv. unfold record_utxo.
  destruct (is_mature _ _ _) eqn:M; simpl.
  2:{ exists d, n, stats. split; [done|]. split; [apply incl_refl|]. intros (_ & _ & _ & ? & ? & _).
      apply not_true_iff_false in M. destruct M. apply is_mature_iff; lia. }
  destruct (Z.ltb_spec (ut_block_daa_score u) (mc_coinbase_min_daa_score cfg)).
  { eexists d, n, _. split; [done|]. split; [apply incl_refl|]. intros (_ & _ & _ & _ & _ & ?). lia. }
  destruct (i64_try_from _) as [amount|] eqn:Ha.
  2:{ eexists d, n, _. split; [done|]. split; [apply incl_refl|]. intros (_ & _ & ? & _).
      assert (i64_try_from (ut_amount_sompi u) = Some (ut_amount_sompi u)); [|congruence].
      apply checked_i64_Some. unfold in_i64, i64_min. lia. }
  apply checked_i64_Some in Ha as [<- _]. unfold tm_bind, tm_try, tm_db, em_db. rewrite F.
  destruct (coinbase_ensure _ _ _ _ d) as [[[id []] d1]|e] eqn:E.
  - eexists d1, (S n), _. split; [done|]. split; [by eapply coinbase_ensure_incl|]. intros R.
    destruct (coinbase_ensure_records cfg v u d R) as (x & d2 & E2 & H2 & _). congruence.
  - eexists d1, (S n), _. split; [done|]. split; [by eapply coinbase_ensure_incl|]. intros R.
    destruct (coinbase_ensure_records cfg v u d R) as (x & d2 & E2 & H2 & _). congruence.
  - eexists d, (S n), _. split; [done|]. split; [apply incl_refl|]. intros R.
    destruct (coinbase_ensure_records cfg v u d R) as (x & d2 & E2 & H2 & _). congruence.
Qed.

(** With a healthy database every matured output above the floor is recorded: after
    the recording pass each of them has its reward row, so the allocation pass that
    follows will see it. *)
Theorem matured_outputs_recorded fault cfg v utxos stats d n :
  (forall k, fault k = NoFault) -> 0 <= mc_coinbase_maturity cfg -> v <= u64_max ->
  exists d' n' stats', record_utxos fault cfg v utxos stats (d, n) = ((d', n'), Ok stats') /\
    incl (db_rewards d) (db_rewards d') /\
    forall u, In u utxos -> recordable cfg v u -> has_outpoint d' u.
Proof.
  intros F Hm Hv. revert stats d n. induction utxos as [|u utxos IH]; intros stats d n; simpl.
  { exists d, n, stats. split; [done|]. split; [apply incl_refl|done]. }
  destruct (record_utxo_healthy fault cfg v u stats d n (F n) Hm Hv) as (d1 & n1 & s1 & E & I & R).
  unfold tm_bind. rewrite E. destruct (IH s1 d1 n1) as (d2 & n2 & s2 & E2 & I2 & R2).
  exists d2, n2, s2. split; [done|]. split; [by eapply incl_tran|].
  intros x [<-|Hx] Rx; [|by apply R2]. destruct (R Rx) as (r & Hr & Er). exists r. split; [by apply I2|done].
Qed.

(** ** A concrete sweep *)

(** One blue block; two outputs, one of them immature. *)
Definition sample_kaspad : KaspadClient := {|
  get_virtual_daa_score := fun _ => Ok 400;
  get_block_color := fun _ _ => Ok Blue;
  get_pool_coinbase_utxos := fun _ =>
    em_ask (fun _ => Ok [mkUtxo (repeat 1 32) 0 1000000 200; mkUtxo (repeat 2 32) 1 5 350])
|}.

Lemma sample_frame : KaspadFrame sample_kaspad.
Proof.
  intros fault d n d' n' r H. unfold get_pool_coinbase_utxos, sample_kaspad, em_ask in H. inv_eqs.
  exists (db_meta d'). by destruct d'.
Qed.

Definition sample_sweep_db : Db :=
  mkDb 50 9 [sample_wallet 3 "alice"; sample_wallet 4 "bob"]
    [sample_share 3 (f64_of_Z 1) 100 10; sample_share 4 (f64_of_Z 2) 150 11] [] [] [] [] [] [] [] ∅ []
    [] [] [] [mkBlock 8 sample_hash 3 103 300 None 0 SubmittedToNode 40 (Some 41) None None None "b"].

Definition sample_sweep : (Db * nat) * result SweepStats TrackerError :=
  run_once (classifier := StaticTierClassifier Standard) (kaspad := sample_kaspad) (fun _ => NoFault)
    (fun _ => 45) (mkFeeConfig 75) "accountant" MaturityConfig_default (sample_sweep_db, 0%nat).

Lemma sample_sweep_alloc_wf : alloc_wf sample_sweep_db.
Proof. split; simpl; constructor. Qed.

Lemma sample_sweep_blocks_wf : blocks_wf sample_sweep_db.
Proof.
  split; simpl; [repeat constructor; simpl; tauto|]. constructor; [|constructor].
  split; simpl; auto; try lia. unfold stamps_ok. simpl. eauto.
Qed.

Lemma sample_sweep_result :
  snd sample_sweep = Ok (mkSweepStats 1 0 0 1 1 0 0 0).
Proof. vm_compute. reflexivity. Qed.

Lemma sweep_records_only_matured_witness :
  exists r, db_rewards (fst (fst sample_sweep)) = [r] /\ cr_amount_sompi r = 1000000 /\
    (In (reward_key r) (map reward_key (db_rewards sample_sweep_db)) \/
     exists v u, get_virtual_daa_score (KaspadClient := sample_kaspad) 0 = Ok v /\
       reported (kaspad := sample_kaspad) (fun _ => NoFault) u /\ recorded_from MaturityConfig_default v u r).
Proof.
  eexists. split; [vm_compute; reflexivity|]. split; [reflexivity|].
  eapply (sweep_records_only_matured (fun _ => NoFault) (fun _ => 45) (mkFeeConfig 75) "accountant"
            (StaticTierClassifier Standard) sample_kaspad sample_frame MaturityConfig_default
            sample_sweep_db 0%nat);
    [exact sample_sweep_alloc_wf|vm_compute; reflexivity|vm_compute; now left].
Defined.

Lemma sweeps_keep_books_witness :
  blocks_wf (fst (fst sample_sweep)) /\ rows_advance sample_sweep_db (fst (fst sample_sweep)).
Proof.
  edestruct (sweeps_keep_books sample_sweep_db (fst (fst sample_sweep)) sample_sweep_alloc_wf
               sample_sweep_blocks_wf) as (B & R & _); [|split; [exact B|exact R]].
  apply rtc_once.
  eapply (TsSweep _ (fun _ => NoFault) (fun _ => 45) (mkFeeConfig 75) "accountant"
            (StaticTierClassifier Standard) sample_kaspad sample_frame MaturityConfig_default 0%nat).
  vm_compute. reflexivity.
Defined.

Lemma process_submitted_spec_witness :
  exists d' n', process_submitted (kaspad := sample_kaspad) (fun _ => NoFault) MaturityConfig_default
    (mkBlock 8 sample_hash 3 103 300 None 0 SubmittedToNode 40 (Some 41) None None None "b") 400
    (sample_sweep_db, 0%nat) = ((d', n'), Ok BoConfirmedBlue).
Proof.
  destruct (process_submitted_spec (fun _ => NoFault) sample_kaspad MaturityConfig_default
    (mkBlock 8 sample_hash 3 103 300 None 0 SubmittedToNode 40 (Some 41) None None None "b") 400
    sample_sweep_db 0%nat Blue sample_sweep_blocks_wf) as (d' & n' & E & _);
    [now left|reflexivity|reflexivity|reflexivity|simpl; unfold DEFAULT_COINBASE_MATURITY; lia|reflexivity|].
  exists d', n'. exact E.
Defined.

Lemma matured_outputs_recorded_witness :
  exists d' n' s', record_utxos (fun _ => NoFault) MaturityConfig_default 400
    [mkUtxo (repeat 1 32) 0 1000000 200] SweepStats_default (sample_sweep_db, 0%nat) = ((d', n'), Ok s') /\
    has_outpoint d' (mkUtxo (repeat 1 32) 0 1000000 200).
Proof.
  destruct (matured_outputs_recorded (fun _ => NoFault) MaturityConfig_default 400
    [mkUtxo (repeat 1 32) 0 1000000 200] SweepStats_default sample_sweep_db 0%nat)
    as (d' & n' & s' & E & _ & R);
    [reflexivity|simpl; unfold DEFAULT_COINBASE_MATURITY; lia|unfold u64_max; lia|].
  exists d', n', s'. split; [exact E|]. apply R; [now left|].
  unfold recordable, i32_max, i64_max; simpl; unfold DEFAULT_COINBASE_MATURITY. repeat split; lia.
Defined.
