(* ===== verification/ShieldedScan.v ===== *)
(** * Node clients of the tracker ([accountant/src/kaspad_grpc.rs], [shielded_scan.rs])

    The two implementations of [KaspadClient]: the transparent client, which
    lists the pool's outputs, and the scanner of shielded coinbases, which walks
    the selected chain behind a cursor it keeps in [pool_meta].  The gRPC surface
    of the node, and the text form of its hashes, are the interface [NodeRpc]. *)
From S2P Require Import Prelude Schema PayoutDb Domain Maturity.
From Stdlib Require Import Ascii.
Open Scope Z_scope.

Definition Hash := bytes.

(** ** The node's gRPC surface *)

Inductive RpcError := MergerNotFound (h : Hash) | General (msg : text) | OtherRpcError.

Record ShieldedCoinbaseOutput := mkShieldedOutput { so_script_public_key : bytes; so_value : Z }.

Record ShieldedChainBlock := mkShieldedBlock {
  sb_hash : Hash;
  sb_daa_score : Z;
  sb_coinbase_txid : Hash;
  sb_coinbase_outputs : list ShieldedCoinbaseOutput
}.

Record ShieldedBlocksResponse := mkShieldedResponse { sr_reorged : bool; sr_blocks : list ShieldedChainBlock }.

Record UtxosByAddressesEntry := mkUtxoEntry {
  ue_transaction_id : Hash;
  ue_index : Z;
  ue_amount : Z;
  ue_block_daa_score : Z;
  ue_is_coinbase : bool
}.

Record BlockDagInfo := mkDagInfo { di_virtual_daa_score : Z; di_pruning_point_hash : Hash }.

(** Answers by call index. *)
Class NodeRpc := {
  get_block_dag_info : nat -> result BlockDagInfo RpcError;
  get_current_block_color : nat -> Hash -> result bool RpcError;
  get_utxos_by_addresses : nat -> result (list UtxosByAddressesEntry) RpcError;
  get_shielded_blocks : nat -> Hash -> Z -> result ShieldedBlocksResponse RpcError;
  hash_to_string : Hash -> string;
  hash_from_str : string -> option Hash
}.

(** ** [kaspad_grpc.rs] *)

(** [str::contains]. *)
Fixpoint contains (p s : text) : bool :=
  match strip_prefix p s with
  | Some _ => true
  | None => match s with [] => false | _ :: s => contains p s end
  end.

Definition MERGER_NOT_FOUND_FRAGMENT : text := lit "doesn't have any merger block".

Definition is_merger_not_found (err : RpcError) : bool :=
  match err with
  | MergerNotFound _ => true
  | General msg => contains MERGER_NOT_FOUND_FRAGMENT msg
  | OtherRpcError => false
  end.

(** The texts of the causes are not modelled. *)
Definition map_rpc_error_to_transport (_ : RpcError) : KaspadError := KTransport "rpc".

Definition coinbase_utxos_from_entries (entries : list UtxosByAddressesEntry) : list CoinbaseUtxo :=
  map (fun e => mkUtxo (ue_transaction_id e) (ue_index e) (ue_amount e) (ue_block_daa_score e))
    (List.filter ue_is_coinbase entries).

Section Clients.
Context {rpc : NodeRpc}.

Definition grpc_virtual_daa_score (n : nat) : result Z KaspadError :=
  map_err map_rpc_error_to_transport
    (let? info := get_block_dag_info n in Ok (di_virtual_daa_score info)).

Definition grpc_block_color (n : nat) (hash : Hash) : result BlockColor KaspadError :=
  match get_current_block_color n hash with
  | Ok blue => Ok (if blue then Blue else Red)
  | Err e => if is_merger_not_found e then Ok NotYetMerged else Err (map_rpc_error_to_transport e)
  end.

Definition grpc_pool_coinbase_utxos (n : nat) : result (list CoinbaseUtxo) KaspadError :=
  map_err map_rpc_error_to_transport
    (let? entries := get_utxos_by_addresses n in Ok (coinbase_utxos_from_entries entries)).

Definition KaspadGrpcClient : KaspadClient := {|
  get_virtual_daa_score := grpc_virtual_daa_score;
  get_block_color := grpc_block_color;
  get_pool_coinbase_utxos := fun _ => em_ask grpc_pool_coinbase_utxos
|}.

(** ** [shielded_scan.rs] *)

Definition SHIELDED_SCAN_CURSOR_KEY : string := "shielded_scan_cursor".
Definition DEFAULT_PAGE_LIMIT : Z := 1000.
Definition DEFAULT_MAX_PAGES_PER_SWEEP : Z := 50.
Definition DEFAULT_MATURITY_SAFETY_DAA : Z := 50.

Record ShieldedRewardScanner := mkScanner {
  sc_treasury_recipients : list bytes;
  sc_coinbase_maturity : Z;
  sc_page_limit : Z;
  sc_max_pages_per_sweep : Z
}.

Inductive ScannerConfigError := NotShielded (address : text) | ScEmpty.

(** A pool address: whether its version is [ShieldedOrchard], its payload and its
    text. *)
Record Address := mkAddress { ad_shielded : bool; ad_payload : bytes; ad_text : text }.

Definition ShieldedRewardScanner_new (pool_addresses : list Address) (coinbase_maturity : Z)
  : result ShieldedRewardScanner ScannerConfigError :=
  match pool_addresses with
  | [] => Err ScEmpty
  | _ =>
      match List.find (fun a => negb (ad_shielded a)) pool_addresses with
      | Some a => Err (NotShielded (redact_address (ad_text a)))
      | None => Ok (mkScanner (map ad_payload pool_addresses) coinbase_maturity DEFAULT_PAGE_LIMIT
                      DEFAULT_MAX_PAGES_PER_SWEEP)
      end
  end.

(** One matched output; the position is its outpoint index. *)
Definition treasury_output (recipients : list bytes) (b : ShieldedChainBlock) (index : nat)
    (out : ShieldedCoinbaseOutput) : option CoinbaseUtxo :=
  if bool_decide (so_script_public_key out ∈ recipients) then
    amount ← i64_try_from (so_value out);
    if Z.of_nat index <=? u32_max
    then Some (mkUtxo (sb_coinbase_txid b) (Z.of_nat index) (as_u64 amount) (sb_daa_score b))
    else None
  else None.

Fixpoint treasury_outputs (recipients : list bytes) (b : ShieldedChainBlock) (index : nat)
    (outs : list ShieldedCoinbaseOutput) : list CoinbaseUtxo :=
  match outs with
  | [] => []
  | out :: outs =>
      option_list (treasury_output recipients b index out)
        ++ treasury_outputs recipients b (S index) outs
  end.

Fixpoint extract_treasury_rewards (blocks : list ShieldedChainBlock) (recipients : list bytes)
    (safe_ingest_daa : Z) (rewards : list CoinbaseUtxo) (last_ingested : option Hash)
  : list CoinbaseUtxo * option Hash :=
  match blocks with
  | [] => (rewards, last_ingested)
  | b :: blocks =>
      if safe_ingest_daa <? sb_daa_score b then (rewards, last_ingested)
      else extract_treasury_rewards blocks recipients safe_ingest_daa
             (rewards ++ treasury_outputs recipients b 0 (sb_coinbase_outputs b)) (Some (sb_hash b))
  end.

Section Scan.
Context (fault : nat -> Fault) (sc : ShieldedRewardScanner).

Definition safe_ingest_daa (virtual_daa_score : Z) : Z :=
  sat_u64 (sat_u64 (virtual_daa_score - sc_coinbase_maturity sc) - DEFAULT_MATURITY_SAFETY_DAA).

Definition load_cursor : EM KaspadError (option Hash) :=
  row <-t em_db fault (fun _ => KTransport "cursor read") (meta_get SHIELDED_SCAN_CURSOR_KEY) ;;
  match row with
  | None => tm_ret None
  | Some value =>
      match hash_from_str value with
      | Some h => tm_ret (Some h)
      | None => tm_fail (KMalformed "stored cursor")
      end
  end.

Definition store_cursor (hash : Hash) : EM KaspadError unit :=
  em_db fault (fun _ => KTransport "cursor write")
    (meta_set SHIELDED_SCAN_CURSOR_KEY (hash_to_string hash)).

Definition pruning_point : EM KaspadError Hash :=
  em_ask (fun n => map_err (fun _ => KTransport "rpc")
                     (let? info := get_block_dag_info n in Ok (di_pruning_point_hash info))).

(** The loop over the pages. *)
Fixpoint scan_pages (pages : nat) (safe_daa : Z) (cursor : Hash) (all_rewards : list CoinbaseUtxo)
  : EM KaspadError (list CoinbaseUtxo) :=
  match pages with
  | O => tm_ret all_rewards
  | S pages =>
      resp <-t em_ask (fun n => map_err (fun _ => KTransport "get_shielded_blocks")
                                  (get_shielded_blocks n cursor (sc_page_limit sc))) ;;
      if sr_reorged resp then
        pp <-t pruning_point ;;
        _ <-t store_cursor pp ;;
        tm_ret all_rewards
      else
      if (length (sr_blocks resp) =? 0)%nat then tm_ret all_rewards
      else
          let (rewards, last_ingested) :=
            extract_treasury_rewards (sr_blocks resp) (sc_treasury_recipients sc) safe_daa [] None in
          match last_ingested with
          | Some h =>
              _ <-t store_cursor h ;;
              if match last (sr_blocks resp) with
                 | Some b => safe_daa <? sb_daa_score b
                 | None => false
                 end
              then tm_ret (all_rewards ++ rewards)
              else scan_pages pages safe_daa h (all_rewards ++ rewards)
          | None => tm_ret (all_rewards ++ rewards)
          end
  end.

Definition scan_pool_coinbase_utxos : EM KaspadError (list CoinbaseUtxo) :=
  virtual_daa_score <-t em_ask grpc_virtual_daa_score ;;
  loaded <-t load_cursor ;;
  cursor <-t match loaded with Some hash => tm_ret hash | None => pruning_point end ;;
  scan_pages (Z.to_nat (sc_max_pages_per_sweep sc)) (safe_ingest_daa virtual_daa_score) cursor [].
End Scan.

Definition ScannerClient (sc : ShieldedRewardScanner) : KaspadClient := {|
  get_virtual_daa_score := grpc_virtual_daa_score;
  get_block_color := grpc_block_color;
  get_pool_coinbase_utxos := fun fault => scan_pool_coinbase_utxos fault sc
|}.
End Clients.
