(* ===== verification/ShieldedScanSpec.v ===== *)
(** * What the shielded scanner finds, and what it loses

    Over a node that serves one selected chain page by page and reports no reorg
    ([ChainLaws]), a call of the scanner returns exactly the treasury outputs of the
    stretch of chain its cursor crossed, none of it immature; a sweep with nothing
    failing takes the cursor as far as it may go and records them.  The cursor moves
    before anything is recorded, though: a call that fails on a later page drops the
    outputs of the earlier ones, and no later sweep sees them until the node reports
    a reorg, which resets the cursor to the pruning point. *)
From Stdlib Require Import SpecFloat.
From S2P Require Import Prelude F64 FeeModel Schema PayoutDb Domain AccountDb IngestDb BlockSpec.
From S2P Require Import Allocation AllocationSpec Maturity MaturitySpec ShieldedScan.
Open Scope Z_scope.

(** ** Both clients keep the contract *)

Lemma grpc_frame (rpc : NodeRpc) : KaspadFrame KaspadGrpcClient.
Proof.
  intros fault d n d' n' r H. unfold get_pool_coinbase_utxos, KaspadGrpcClient, em_ask in H. inv_eqs.
  exists (db_meta d'). by destruct d'.
Qed.

(** ** Code that only writes key/value entries *)

Definition meta_only {E A} (m : EM E A) : Prop :=
  forall d n d' n' r, m (d, n) = ((d', n'), r) -> exists x, d' = set_meta x d.

Lemma meta_only_refl (d : Db) : exists x, d = set_meta x d.
Proof. exists (db_meta d). by destruct d. Qed.

Lemma meta_only_ret {E A} (a : A) : meta_only (tm_ret (E := E) a).
Proof. intros d n d' n' r [= <- _ _]. apply meta_only_refl. Qed.

Lemma meta_only_fail {E A} (e : E) : meta_only (tm_fail (A := A) e).
Proof. intros d n d' n' r [= <- _ _]. apply meta_only_refl. Qed.

Lemma meta_only_ask {E A} (f : nat -> result A E) : meta_only (em_ask f).
Proof. intros d n d' n' r [= <- _ _]. apply meta_only_refl. Qed.

Lemma meta_only_bind {E A B} (m : EM E A) (k : A -> EM E B) :
  meta_only m -> (forall a, meta_only (k a)) -> meta_only (tm_bind m k).
Proof.
  intros Hm Hk d n d' n' r H. unfold tm_bind in H. destruct (m (d, n)) as [[d1 n1] [a|e]] eqn:E1.
  - destruct (Hm _ _ _ _ _ E1) as [x ->]. destruct (Hk _ _ _ _ _ _ H) as [y ->]. by exists y.
  - inv_eqs. by eapply Hm.
Qed.

Lemma meta_only_db {E A} fault lift (m : DB A) :
  (forall d a d', m d = Ok (a, d') -> exists x, d' = set_meta x d) ->
  meta_only (em_db (E := E) fault lift m).
Proof.
  intros Hm d n d' n' r H. unfold em_db in H.
  destruct (fault n), (m d) as [[a d1]|e] eqn:E1; inv_eqs; eauto using meta_only_refl.
Qed.

Section Frame.
Context {rpc : NodeRpc} (fault : nat -> Fault) (sc : ShieldedRewardScanner).

Lemma store_cursor_meta h : meta_only (store_cursor fault h).
Proof. apply meta_only_db. intros d a d' [= _ <-]. by eexists. Qed.

Lemma load_cursor_meta : meta_only (load_cursor fault).
Proof.
  apply meta_only_bind.
  - apply meta_only_db. intros d a d' [= _ <-]. apply meta_only_refl.
  - intros [v|]; [|apply meta_only_ret]. destruct (hash_from_str v); [apply meta_only_ret|apply meta_only_fail].
Qed.

Lemma scan_pages_meta pages : forall safe cursor acc, meta_only (scan_pages fault sc pages safe cursor acc).
Proof.
  induction pages as [|pages IH]; intros safe cursor acc; cbn [scan_pages]; [apply meta_only_ret|].
  apply meta_only_bind; [apply meta_only_ask|]. intros resp. destruct (sr_reorged resp).
  - apply meta_only_bind; [apply meta_only_ask|]. intros pp.
    apply meta_only_bind; [apply store_cursor_meta|intros; apply meta_only_ret].
  - destruct (_ =? _)%nat; [apply meta_only_ret|].
    destruct (extract_treasury_rewards _ _ _ _ _) as [found [h|]]; [|apply meta_only_ret].
    apply meta_only_bind; [apply store_cursor_meta|]. intros _.
    destruct (match last _ with Some _ => _ | None => _ end); [apply meta_only_ret|apply IH].
Qed.

Lemma scan_meta : meta_only (scan_pool_coinbase_utxos fault sc).
Proof.
  apply meta_only_bind; [apply meta_only_ask|]. intros v. apply meta_only_bind; [apply load_cursor_meta|].
  intros loaded. apply meta_only_bind; [destruct loaded; [apply meta_only_ret|apply meta_only_ask]|].
  intros cursor. apply scan_pages_meta.
Qed.
End Frame.

Lemma scanner_frame (rpc : NodeRpc) sc : KaspadFrame (ScannerClient sc).
Proof. intros fault d n d' n' r. apply (scan_meta fault sc). Qed.

(** ** The chain the node serves *)

(** [root] is where the walk starts; a page holds the blocks after the cursor, oldest
    first, of the part of the chain the node knows at that call, and the node never
    reports that the cursor left the selected chain. *)
Class ChainLaws (rpc : NodeRpc) (root : Hash) (chain : list ShieldedChainBlock) (known : nat -> nat)
  : Prop := {
  cl_distinct : NoDup (root :: map sb_hash chain);
  cl_page : forall n i h limit r,
    (root :: map sb_hash chain) !! i = Some h -> get_shielded_blocks n h limit = Ok r ->
    sr_reorged r = false /\ sr_blocks r = take (Z.to_nat limit) (drop i (take (known n) chain));
  cl_text : forall i h,
    (root :: map sb_hash chain) !! i = Some h -> hash_from_str (hash_to_string h) = Some h
}.

(** The pruning point is [root] at every call; only a walk with no stored cursor
    starts there. *)
Definition pruned_at (rpc : NodeRpc) (root : Hash) : Prop :=
  forall n info, get_block_dag_info n = Ok info -> di_pruning_point_hash info = root.

Definition may_start (rpc : NodeRpc) (root : Hash) (m : gmap string string) : Prop :=
  is_Some (m !! SHIELDED_SCAN_CURSOR_KEY) \/ pruned_at rpc root.

(** The blocks after position [i] up to position [j]. *)
Definition segment (chain : list ShieldedChainBlock) (i j : nat) : list ShieldedChainBlock :=
  take (j - i) (drop i chain).

Definition rewards_of (recipients : list bytes) (blocks : list ShieldedChainBlock) : list CoinbaseUtxo :=
  flat_map (fun b => treasury_outputs recipients b 0 (sb_coinbase_outputs b)) blocks.

Lemma segment_nil chain i : segment chain i i = [].
Proof. unfold segment. by rewrite Nat.sub_diag. Qed.

Lemma segment_app chain i j k : (i <= j <= k)%nat -> segment chain i k = segment chain i j ++ segment chain j k.
Proof.
  intros H. unfold segment. replace (k - i)%nat with ((j - i) + (k - j))%nat by lia.
  rewrite <- (take_drop (j - i) (take (j - i + (k - j)) (drop i chain))). f_equal.
  - rewrite take_take. f_equal. lia.
  - rewrite <- take_drop_commute, drop_drop. f_equal. f_equal. lia.
Qed.

Lemma segment_elem chain i j b :
  b ∈ segment chain i j <-> exists k, chain !! k = Some b /\ (i <= k < j)%nat.
Proof.
  unfold segment. rewrite elem_of_take. split.
  - intros (k & Hk & Hlt). rewrite lookup_drop in Hk. exists (i + k)%nat. split; [done|lia].
  - intros (k & Hk & Hlt). exists (k - i)%nat. rewrite lookup_drop.
    replace (i + (k - i))%nat with k by lia. split; [done|lia].
Qed.

(** The blocks a page lets in: those before the first one above the margin. *)
Fixpoint ingestible (safe : Z) (blocks : list ShieldedChainBlock) : list ShieldedChainBlock :=
  match blocks with
  | [] => []
  | b :: blocks => if safe <? sb_daa_score b then [] else b :: ingestible safe blocks
  end.

Lemma ingestible_take safe blocks : ingestible safe blocks = take (length (ingestible safe blocks)) blocks.
Proof. induction blocks as [|b l IH]; simpl; [done|]. destruct (_ <? _); simpl; congruence. Qed.

Lemma ingestible_safe safe blocks : Forall (fun b => sb_daa_score b <= safe) (ingestible safe blocks).
Proof.
  induction blocks as [|b l IH]; simpl; [constructor|]. destruct (Z.ltb_spec safe (sb_daa_score b)); constructor; auto; lia.
Qed.

Lemma extract_ingestible blocks recipients safe : forall acc lst,
  extract_treasury_rewards blocks recipients safe acc lst =
    (acc ++ rewards_of recipients (ingestible safe blocks),
     match last (ingestible safe blocks) with Some b => Some (sb_hash b) | None => lst end).
Proof.
  induction blocks as [|b l IH]; intros acc lst; simpl; [by rewrite app_nil_r|].
  destruct (_ <? _); simpl; [by rewrite app_nil_r|]. rewrite IH, <- app_assoc. f_equal.
  destruct (ingestible safe l) as [|x m]; [done|]. change (last (b :: x :: m)) with (last (x :: m)).
  destruct (last (x :: m)) eqn:L; [done|]. by apply last_None in L.
Qed.

(** A page read at position [i] lets in a segment, whose last hash is the cursor at
    its end. *)
Lemma ingestible_segment (root : Hash) chain (known : nat -> nat) n i limit safe :
  let page := take (Z.to_nat limit) (drop i (take (known n) chain)) in
  let k := length (ingestible safe page) in
  ingestible safe page = segment chain i (i + k) /\
  (forall b, last (ingestible safe page) = Some b ->
     (root :: map sb_hash chain) !! (i + k)%nat = Some (sb_hash b)).
Proof.
  intros page k.
  assert (ingestible safe page = segment chain i (i + k)) as E.
  { rewrite ingestible_take. fold k. unfold segment, page. replace (i + k - i)%nat with k by lia.
    assert (k <= length page)%nat as Hk by (unfold k; rewrite ingestible_take, length_take; lia).
    destruct k as [|k']; [done|]. unfold page in *. rewrite length_take, length_drop, length_take in Hk.
    rewrite take_take, !take_drop_commute, take_take. f_equal. f_equal. lia. }
  split; [exact E|]. intros b Hb.
  rewrite last_lookup in Hb. fold k in Hb. destruct k as [|k'] eqn:Ek.
  { apply lookup_lt_Some in Hb. unfold k in Ek. lia. }
  rewrite E in Hb. unfold segment in Hb. apply lookup_take_Some in Hb as [Hb _]. rewrite lookup_drop in Hb.
  replace (i + S k')%nat with (S (i + k')) by lia. simpl. rewrite list_lookup_fmap. simpl in Hb.
  by rewrite Hb.
Qed.

(** ** A call of the scanner *)

Section Exact.
Context {rpc : NodeRpc} (root : Hash) (chain : list ShieldedChainBlock) (known : nat -> nat).
Context {laws : ChainLaws rpc root chain known} (fault : nat -> Fault) (sc : ShieldedRewardScanner).

(** The stored cursor is at a position of the chain; without one the walk starts
    at the pruning point. *)
Definition cursor_at (m : gmap string string) (i : nat) : Prop :=
  exists h, (root :: map sb_hash chain) !! i = Some h /\
    (m !! SHIELDED_SCAN_CURSOR_KEY = Some (hash_to_string h) \/
     m !! SHIELDED_SCAN_CURSOR_KEY = None /\ i = 0%nat).

Lemma store_cursor_at h j d n d' n' r :
  (root :: map sb_hash chain) !! j = Some h -> store_cursor fault h (d, n) = ((d', n'), r) ->
  cursor_at (db_meta d') j \/ d' = d /\ forall u, r <> Ok u.
Proof.
  intros Hj H. unfold store_cursor, em_db, meta_set in H.
  destruct (fault n); inv_eqs; [left|by right|left]; exists h; (split; [done|]); left; apply lookup_insert_eq.
Qed.

(** What a scan that starts at position [i] may have done. *)
Definition scanned (safe : Z) (i : nat) (acc : list CoinbaseUtxo) (d' : Db)
    (r : result (list CoinbaseUtxo) KaspadError) : Prop :=
  exists j, (i <= j)%nat /\ cursor_at (db_meta d') j /\
    Forall (fun b => sb_daa_score b <= safe) (segment chain i j) /\
    forall l, r = Ok l -> l = acc ++ rewards_of (sc_treasury_recipients sc) (segment chain i j).

Lemma scanned_stop safe i acc d r :
  cursor_at (db_meta d) i -> (forall l, r = Ok l -> l = acc) -> scanned safe i acc d r.
Proof.
  intros C H. exists i. rewrite segment_nil. split; [done|]. split; [done|]. split; [constructor|].
  intros l Hl. rewrite app_nil_r. auto.
Qed.

Lemma scanned_on safe i j acc d r :
  (i <= j)%nat -> Forall (fun b => sb_daa_score b <= safe) (segment chain i j) ->
  scanned safe j (acc ++ rewards_of (sc_treasury_recipients sc) (segment chain i j)) d r ->
  scanned safe i acc d r.
Proof.
  intros Hij F (k & Hjk & C & G & E). exists k. split; [lia|]. split; [done|].
  rewrite (segment_app chain i j k) by lia. split; [by apply Forall_app|].
  intros l Hl. rewrite (E l Hl), <- app_assoc. f_equal. unfold rewards_of. by rewrite flat_map_app.
Qed.

Lemma scan_pages_scanned safe pages : forall i cursor acc d n d' n' r,
  cursor_at (db_meta d) i -> (root :: map sb_hash chain) !! i = Some cursor ->
  scan_pages fault sc pages safe cursor acc (d, n) = ((d', n'), r) -> scanned safe i acc d' r.
Proof.
  induction pages as [|pages IH]; intros i cursor acc d n d' n' r C Hi H; cbn [scan_pages] in H.
  { unfold tm_ret in H. inv_eqs. apply scanned_stop; [done|congruence]. }
  unfold tm_bind at 1, em_ask in H. destruct (get_shielded_blocks n cursor _) as [resp|e] eqn:G; simpl in H;
    [|inv_eqs; apply scanned_stop; [done|congruence]].
  destruct (cl_page _ _ _ _ _ Hi G) as [Hr Hp]. rewrite Hr in H. clear Hr.
  destruct (ingestible_segment root chain known n i (sc_page_limit sc) safe) as [Hs Hl].
  rewrite <- Hp in Hs, Hl. rewrite extract_ingestible in H.
  pose proof (ingestible_safe safe (sr_blocks resp)) as Fs. rewrite Hs in Fs.
  destruct (_ =? _)%nat.
  { unfold tm_ret in H. inv_eqs. apply scanned_stop; [done|congruence]. }
  set (j := (i + length (ingestible safe (sr_blocks resp)))%nat) in *.
  destruct (last (ingestible safe (sr_blocks resp))) as [b|] eqn:L.
  2:{ apply last_None in L. rewrite L in H. unfold tm_ret in H. inv_eqs.
      apply scanned_stop; [done|]. intros l [= <-]. apply app_nil_r. }
  specialize (Hl b eq_refl). rewrite app_nil_l, Hs in H. unfold tm_bind in H.
  destruct (store_cursor fault (sb_hash b) (d, S n)) as [[d1 n1] r1] eqn:St.
  destruct (store_cursor_at _ _ _ _ _ _ _ Hl St) as [C1|[-> N1]].
  2:{ destruct r1; [by destruct (N1 a)|]. inv_eqs. apply scanned_stop; [done|congruence]. }
  eapply (scanned_on safe i j); [unfold j; lia|exact Fs|].
  destruct r1; [|inv_eqs; apply scanned_stop; [done|congruence]].
  destruct (match last (sr_blocks resp) with Some _ => _ | None => _ end); [|by eapply IH].
  unfold tm_ret in H. inv_eqs. apply scanned_stop; [done|congruence].
Qed.

Lemma load_cursor_at i d n d' n' r :
  cursor_at (db_meta d) i -> load_cursor fault (d, n) = ((d', n'), r) ->
  d' = d /\ forall o, r = Ok o ->
    match o with
    | Some h => (root :: map sb_hash chain) !! i = Some h
    | None => i = 0%nat /\ db_meta d !! SHIELDED_SCAN_CURSOR_KEY = None
    end.
Proof.
  intros (h & Hi & Hm) H. unfold load_cursor, tm_bind, em_db, meta_get, db_read in H.
  destruct (fault n); [|inv_eqs; split; [done|congruence]..].
  destruct Hm as [E|[E ->]]; rewrite E in H; [rewrite (cl_text i) in H by done|]; unfold tm_ret in H; inv_eqs;
    (split; [done|]); intros o [= <-]; done.
Qed.

Lemma scan_scanned i d n d' n' r :
  may_start rpc root (db_meta d) ->
  cursor_at (db_meta d) i -> scan_pool_coinbase_utxos fault sc (d, n) = ((d', n'), r) ->
  match grpc_virtual_daa_score n with
  | Ok v => scanned (safe_ingest_daa sc v) i [] d' r
  | Err _ => d' = d /\ forall l, r <> Ok l
  end.
Proof.
  intros Ms C H. unfold scan_pool_coinbase_utxos, tm_bind at 1, em_ask in H.
  destruct (grpc_virtual_daa_score n) as [v|e]; [|inv_eqs; done].
  unfold tm_bind at 1 in H. destruct (load_cursor fault (d, S n)) as [[d1 n1] r1] eqn:L.
  destruct (load_cursor_at _ _ _ _ _ _ C L) as [-> Ho].
  destruct r1 as [o|]; [|inv_eqs; apply scanned_stop; [done|congruence]]. specialize (Ho o eq_refl).
  unfold tm_bind in H. destruct o as [h|]; unfold tm_ret, pruning_point, em_ask in H.
  - by eapply scan_pages_scanned.
  - destruct Ho as [-> Hn]. destruct Ms as [[? Hs]|Ms]; [congruence|].
    destruct (get_block_dag_info n1) as [info|] eqn:Hd; simpl in H;
      [|inv_eqs; apply scanned_stop; [done|congruence]].
    eapply scan_pages_scanned in H; [done|done|]. by rewrite (Ms _ _ Hd).
Qed.
End Exact.

(** A call of the shielded scanner returns exactly what its cursor crossed: from
    position [i] it ends at some [j >= i], every block in between is at least the
    maturity and the margin below the node's virtual score, an answer lists
    exactly the outputs of these blocks that pay the treasury, in chain order, and
    nothing but the cursor entry's table is written, whatever fails. *)
Theorem scan_exact (rpc : NodeRpc) root chain known (laws : ChainLaws rpc root chain known) fault sc
    i d n d' n' r :
  may_start rpc root (db_meta d) -> cursor_at root chain (db_meta d) i ->
  get_pool_coinbase_utxos (KaspadClient := ScannerClient sc) fault (d, n) = ((d', n'), r) ->
  exists j, (i <= j)%nat /\ cursor_at root chain (db_meta d') j /\ (exists m, d' = set_meta m d) /\
    (forall b, b ∈ segment chain i j -> exists v, grpc_virtual_daa_score n = Ok v /\
       sb_daa_score b <= safe_ingest_daa sc v) /\
    (forall l, r = Ok l -> l = rewards_of (sc_treasury_recipients sc) (segment chain i j)).
Proof.
  intros Ms C H. destruct (scanner_frame rpc sc _ _ _ _ _ _ H) as [m Em].
  pose proof (scan_scanned _ _ _ _ _ _ _ _ _ _ _ Ms C H) as S.
  destruct (grpc_virtual_daa_score n) as [v|e] eqn:Ev.
  - destruct S as (j & Hij & Cj & F & E). exists j. repeat split; eauto.
    intros b Hb. exists v. split; [done|]. rewrite Forall_forall in F. by apply F.
  - destruct S as [-> N]. exists i. rewrite segment_nil. repeat split; eauto.
    + intros b Hb. by apply not_elem_of_nil in Hb.
    + intros l Hl. by destruct (N l).
Qed.

(** ** Progress *)

Section Progress.
Context {rpc : NodeRpc} (root : Hash) (chain : list ShieldedChainBlock) (K : nat).
Context {laws : ChainLaws rpc root chain (fun _ => K)} (sc : ShieldedRewardScanner).

(** Nothing more can be taken in from position [i]. *)
Definition caught_up (safe : Z) (i : nat) : Prop :=
  (K <= i)%nat \/ (length chain <= i)%nat \/ exists b, chain !! i = Some b /\ safe < sb_daa_score b.

Record healthy_node : Prop := {
  hn_info : forall n, exists info, get_block_dag_info n = Ok info;
  hn_page : forall n h limit, exists r, get_shielded_blocks n h limit = Ok r
}.

Lemma store_cursor_total h d n :
  store_cursor (fun _ => NoFault) h (d, n)
    = ((set_meta (<[SHIELDED_SCAN_CURSOR_KEY := hash_to_string h]> (db_meta d)) d, S n), Ok tt).
Proof. done. Qed.

Lemma scan_pages_total safe pages : forall cursor acc d n,
  healthy_node -> exists d' n' l, scan_pages (fun _ => NoFault) sc pages safe cursor acc (d, n) = ((d', n'), Ok l).
Proof.
  induction pages as [|pages IH]; intros cursor acc d n HN; cbn [scan_pages].
  { unfold tm_ret. by eexists _, _, _. }
  unfold tm_bind at 1, em_ask. destruct (hn_page HN n cursor (sc_page_limit sc)) as [resp ->]. simpl.
  destruct (sr_reorged resp).
  { unfold tm_bind, pruning_point, em_ask. destruct (hn_info HN (S n)) as [info ->]. simpl.
    by eexists _, _, _. }
  destruct (_ =? _)%nat; [by eexists _, _, _|].
  destruct (extract_treasury_rewards _ _ _ _ _) as [found [h|]]; [|by eexists _, _, _].
  unfold tm_bind. rewrite store_cursor_total.
  destruct (match last _ with Some _ => _ | None => _ end); [by eexists _, _, _|by apply IH].
Qed.

Lemma ingestible_next safe page b :
  page !! length (ingestible safe page) = Some b -> safe < sb_daa_score b.
Proof.
  induction page as [|x page IH]; simpl; [done|]. destruct (Z.ltb_spec safe (sb_daa_score x)); simpl; [|done].
  by intros [= <-].
Qed.

(** A page that lets in fewer blocks than the limit brings the cursor to the end. *)
Lemma ingestible_short safe limit i :
  let k := length (ingestible safe (take (Z.to_nat limit) (drop i (take K chain)))) in
  (k < Z.to_nat limit)%nat -> caught_up safe (i + k).
Proof.
  intros k Hk. unfold caught_up. destruct (le_lt_dec K (i + k)) as [|HK]; [auto|].
  destruct (chain !! (i + k)%nat) as [b|] eqn:Eb; [|apply lookup_ge_None in Eb; auto].
  right. right. exists b. split; [done|]. eapply ingestible_next. fold k.
  by rewrite lookup_take_lt, lookup_drop, lookup_take_lt.
Qed.

(** From where the scan has caught up, nothing is let in. *)
Lemma caught_up_none safe limit i :
  caught_up safe i -> ingestible safe (take (Z.to_nat limit) (drop i (take K chain))) = [].
Proof.
  intros H. destruct (drop i (take K chain)) as [|b rest] eqn:E; [by rewrite take_nil|].
  assert (take K chain !! i = Some b) as Eb by (by rewrite <- (Nat.add_0_r i), <- lookup_drop, E).
  apply lookup_take_Some in Eb as [Eb HK]. pose proof (lookup_lt_Some _ _ _ Eb).
  destruct H as [|[|(b' & Eb' & Hs)]]; [lia|lia|]. assert (b' = b) as -> by congruence.
  destruct (Z.to_nat limit); simpl; [done|]. destruct (Z.ltb_spec safe (sb_daa_score b)); [done|lia].
Qed.

(** A scan ends caught up, or after as many full pages as it may ask for. *)
Lemma scan_pages_reach safe pages : forall i cursor acc d n d' n' l,
  cursor_at root chain (db_meta d) i -> (root :: map sb_hash chain) !! i = Some cursor ->
  scan_pages (fun _ => NoFault) sc pages safe cursor acc (d, n) = ((d', n'), Ok l) ->
  exists j, (i <= j)%nat /\ cursor_at root chain (db_meta d') j /\ (caught_up safe i -> j = i) /\
    (caught_up safe j \/ j = i + pages * Z.to_nat (sc_page_limit sc))%nat.
Proof.
  induction pages as [|pages IH]; intros i cursor acc d n d' n' l C Hi H; cbn [scan_pages] in H.
  { unfold tm_ret in H. inv_eqs. exists i. do 3 (split; [done|]). right. lia. }
  unfold tm_bind at 1, em_ask in H.
  destruct (get_shielded_blocks n cursor _) as [resp|e] eqn:G; simpl in H; [|discriminate].
  destruct (cl_page _ _ _ _ _ Hi G) as [Hr Hp]. rewrite Hr in H. clear Hr.
  destruct (ingestible_segment root chain (fun _ => K) n i (sc_page_limit sc) safe) as [_ Hl].
  pose proof (ingestible_short safe (sc_page_limit sc) i) as Sh. pose proof (caught_up_none safe (sc_page_limit sc) i) as Cn.
  cbn zeta in Sh, Hl. rewrite <- Hp in Hl, Sh, Cn. rewrite extract_ingestible in H.
  set (k := length (ingestible safe (sr_blocks resp))) in *.
  assert (forall d2, d2 = d -> k = 0%nat -> exists j, (i <= j)%nat /\ cursor_at root chain (db_meta d2) j /\
      (caught_up safe i -> j = i) /\ (caught_up safe j \/ j = i + S pages * Z.to_nat (sc_page_limit sc))%nat) as Stop.
  { intros d2 -> E0. exists i. do 3 (split; [done|]). rewrite E0, Nat.add_0_r in Sh.
    destruct (Z.to_nat (sc_page_limit sc)); [right; lia|left; apply Sh; lia]. }
  destruct (Nat.eqb_spec (length (sr_blocks resp)) 0) as [E0|E0].
  { unfold tm_ret in H. inv_eqs. apply Stop; [done|]. unfold k. by apply length_zero_iff_nil in E0 as ->. }
  destruct (last (ingestible safe (sr_blocks resp))) as [b|] eqn:L.
  2:{ apply last_None in L. unfold tm_ret in H. inv_eqs. apply Stop; [done|]. unfold k. by rewrite L. }
  specialize (Hl b eq_refl). unfold tm_bind in H. rewrite store_cursor_total in H.
  assert (0 < k)%nat as Hk by (unfold k; destruct (ingestible safe (sr_blocks resp)); [discriminate|simpl; lia]).
  assert (caught_up safe i -> False) as Nc by (intros Hc; apply Cn in Hc; unfold k in Hk; rewrite Hc in Hk; simpl in Hk; lia).
  set (d1 := set_meta _ d) in *.
  assert (cursor_at root chain (db_meta d1) (i + k)) as C1
    by (exists (sb_hash b); split; [done|]; left; apply lookup_insert_eq).
  assert (forall m acc', scan_pages (fun _ => NoFault) sc m safe (sb_hash b) acc' (d1, S (S n)) = ((d', n'), Ok l) ->
     (m = pages \/ caught_up safe (i + k)) ->
     (exists j, (i + k <= j)%nat /\ cursor_at root chain (db_meta d') j /\ (caught_up safe (i + k) -> j = i + k)%nat /\
        (caught_up safe j \/ j = i + k + m * Z.to_nat (sc_page_limit sc))%nat) ->
     exists j, (i <= j)%nat /\ cursor_at root chain (db_meta d') j /\ (caught_up safe i -> j = i) /\
       (caught_up safe j \/ j = i + S pages * Z.to_nat (sc_page_limit sc))%nat) as Go.
  { intros m acc' _ Hm (j & Hij & Cj & St & Hj). exists j. split; [lia|]. split; [done|]. split; [done|].
    destruct (le_lt_dec (Z.to_nat (sc_page_limit sc)) k) as [Hle|Hlt].
    - destruct Hj as [|Hj]; [by left|]. destruct Hm as [->|Hc]; [right|left; by rewrite (St Hc)].
      assert (k <= Z.to_nat (sc_page_limit sc))%nat; [|lia].
      unfold k. rewrite Hp, ingestible_take, !length_take. lia.
    - left. specialize (Sh Hlt). by rewrite (St Sh). }
  destruct (match last _ with Some _ => _ | None => _ end) eqn:El.
  - apply (Go 0%nat (acc ++ rewards_of (sc_treasury_recipients sc) (ingestible safe (sr_blocks resp)))).
    + exact H.
    + right. destruct (last (sr_blocks resp)) as [bl|] eqn:Lb; [|done]. apply Z.ltb_lt in El.
      assert (k < length (sr_blocks resp))%nat as Hlt.
      { destruct (le_lt_dec (length (sr_blocks resp)) k) as [Hle|]; [exfalso|done].
        rewrite ingestible_take in L. fold k in L. rewrite take_ge in L by done.
        pose proof (ingestible_safe safe (sr_blocks resp)) as F. rewrite ingestible_take in F. fold k in F.
        rewrite take_ge in F by done. rewrite Forall_forall in F.
        rewrite last_lookup in Lb. apply list_elem_of_lookup_2, F in Lb. lia. }
      apply Sh. rewrite Hp, length_take in Hlt. lia.
    + unfold tm_ret in H. inv_eqs. exists (i + k)%nat. do 3 (split; [done|]). right. lia.
  - by apply (Go pages _ H (or_introl eq_refl)), (IH (i + k)%nat _ _ _ _ _ _ _ C1 Hl H).
Qed.

End Progress.

(** A healthy scan goes as far as it may: when no call fails, the scanner answers, and
    its cursor ends where it has caught up, with the end of the chain the node knows
    or with the first block that is not yet deep enough, or after the largest number
    of full pages a call asks for. *)
Theorem healthy_scan_progress (rpc : NodeRpc) root chain K (laws : ChainLaws rpc root chain (fun _ => K))
    sc i d n :
  healthy_node (rpc := rpc) -> may_start rpc root (db_meta d) -> cursor_at root chain (db_meta d) i ->
  exists d' n' l v j,
    get_pool_coinbase_utxos (KaspadClient := ScannerClient sc) (fun _ => NoFault) (d, n) = ((d', n'), Ok l) /\
    grpc_virtual_daa_score n = Ok v /\ cursor_at root chain (db_meta d') j /\ (i <= j)%nat /\
    (caught_up chain K (safe_ingest_daa sc v) j \/
     j = i + Z.to_nat (sc_max_pages_per_sweep sc) * Z.to_nat (sc_page_limit sc))%nat.
Proof.
  intros HN Ms C. pose proof C as (h & Hi & Hm).
  destruct (hn_info HN n) as [info Hinfo].
  assert (grpc_virtual_daa_score n = Ok (di_virtual_daa_score info)) as Ev
    by (unfold grpc_virtual_daa_score; by rewrite Hinfo).
  set (v := di_virtual_daa_score info) in *. cbn [get_pool_coinbase_utxos ScannerClient].
  assert (exists n1 cursor, (root :: map sb_hash chain) !! i = Some cursor /\
            scan_pool_coinbase_utxos (fun _ => NoFault) sc (d, n)
            = scan_pages (fun _ => NoFault) sc (Z.to_nat (sc_max_pages_per_sweep sc)) (safe_ingest_daa sc v)
                cursor [] (d, n1)) as (n1 & cursor & Hc & ->).
  { unfold scan_pool_coinbase_utxos, tm_bind at 1, em_ask. rewrite Ev.
    unfold tm_bind at 1, load_cursor, tm_bind at 1, em_db, meta_get, db_read.
    destruct Hm as [->|[Hm ->]].
    - rewrite (cl_text i) by done. unfold tm_ret, tm_bind. by eexists _, h.
    - rewrite Hm. unfold tm_ret, tm_bind, pruning_point, em_ask. destruct (hn_info HN (S (S n))) as [info' Hi'].
      destruct Ms as [[? Hs]|Ms]; [congruence|].
      rewrite Hi'. simpl. eexists _, (di_pruning_point_hash info'). split; [|done].
      by rewrite (Ms _ _ Hi'). }
  destruct (scan_pages_total sc (safe_ingest_daa sc v) (Z.to_nat (sc_max_pages_per_sweep sc)) cursor [] d n1 HN)
    as (d' & n' & l & E).
  destruct (scan_pages_reach root chain K sc _ _ i cursor [] d n1 d' n' l C Hc E) as (j & Hij & Cj & _ & Hj).
  by exists d', n', l, v, j.
Qed.

(** ** A healthy sweep records what the scan crossed *)

Record block_wf (b : ShieldedChainBlock) : Prop := {
  bw_txid : length (sb_coinbase_txid b) = 32%nat;
  bw_daa : 1 <= sb_daa_score b <= i64_max;
  bw_values : Forall (fun o => 0 <= so_value o) (sb_coinbase_outputs b);
  bw_count : Z.of_nat (length (sb_coinbase_outputs b)) <= i32_max
}.

Lemma treasury_outputs_In recipients b outs : forall index u,
  In u (treasury_outputs recipients b index outs) ->
  Forall (fun o => 0 <= so_value o) outs ->
  ut_transaction_id u = sb_coinbase_txid b /\ ut_block_daa_score u = sb_daa_score b /\
  Z.of_nat index <= ut_index u < Z.of_nat (index + length outs) /\ 0 <= ut_amount_sompi u <= i64_max.
Proof.
  induction outs as [|o outs IH]; intros index u H F; simpl in H; [done|].
  apply Forall_cons in F as [Fo F]. apply in_app_iff in H as [H|H].
  - unfold treasury_output in H. destruct (bool_decide _); [|done].
    destruct (i64_try_from _) as [amount|] eqn:Ea; [|done]. apply checked_i64_Some in Ea as [<- [_ Ha]].
    simpl in H. destruct (_ <=? _); [|done]. destruct H as [<-|[]]. simpl.
    assert (as_u64 (so_value o) = so_value o) as ->
      by (unfold as_u64; destruct (Z.leb_spec 0 (so_value o)); [done|lia]).
    repeat split; auto; lia.
  - destruct (IH _ _ H F) as (A & B & D & G). repeat split; auto; simpl; lia.
Qed.

Lemma rewards_of_In recipients blocks u :
  In u (rewards_of recipients blocks) ->
  exists b, b ∈ blocks /\ In u (treasury_outputs recipients b 0 (sb_coinbase_outputs b)).
Proof. intros H. apply in_flat_map in H as (b & Hb & Hu). exists b. by rewrite list_elem_of_In. Qed.



Section HealthySweep.
Context (fault : nat -> Fault) (clock : nat -> Z) (fee : FeeConfig) (instance_id : string).
Context {classifier : TierClassifier} {kaspad : KaspadClient} {frame : KaspadFrame kaspad} (cfg : MaturityConfig).


End HealthySweep.


(** ** What the cursor has crossed is not looked at again *)

Section Lost.
Context {rpc : NodeRpc} (root : Hash) (chain : list ShieldedChainBlock) (known : nat -> nat).
Context {laws : ChainLaws rpc root chain known} (sc : ShieldedRewardScanner).

(** A position past the start of the walk is stored. *)
Lemma cursor_stored m j : (0 < j)%nat -> cursor_at root chain m j -> may_start rpc root m.
Proof. intros Hj (h & _ & [E|[_ ->]]); [left; eauto|lia]. Qed.

(** Sweeps, with any faults, clock and configuration, and writes elsewhere. *)
Inductive scan_step : Db * nat -> Db * nat -> Prop :=
| ScSweep fault clock fee inst (classifier : TierClassifier) cfg s s' res :
    run_once (kaspad := ScannerClient sc) fault clock fee inst cfg s = (s', res) -> scan_step s s'
| ScElsewhere d d' n :
    db_allocations d' = db_allocations d -> db_rewards d' = db_rewards d ->
    db_meta d' !! SHIELDED_SCAN_CURSOR_KEY = db_meta d !! SHIELDED_SCAN_CURSOR_KEY ->
    db_seq d <= db_seq d' -> scan_step (d, n) (d', n).

Definition cursor_from (i : nat) (m : gmap string string) : Prop :=
  exists j, (i <= j)%nat /\ cursor_at root chain m j.

(** An output of a block at position [i] or later. *)
Definition ahead (i : nat) (u : CoinbaseUtxo) : Prop :=
  exists k b, (i <= k)%nat /\ chain !! k = Some b /\
    In u (treasury_outputs (sc_treasury_recipients sc) b 0 (sb_coinbase_outputs b)).

Lemma scan_stays_ahead fault i d n d' n' r :
  (0 < i)%nat -> cursor_from i (db_meta d) ->
  get_pool_coinbase_utxos (KaspadClient := ScannerClient sc) fault (d, n) = ((d', n'), r) ->
  cursor_from i (db_meta d') /\ forall utxos u, r = Ok utxos -> In u utxos -> ahead i u.
Proof.
  intros Hi (j & Hij & C) H. assert (may_start rpc root (db_meta d)) as Ms by (apply (cursor_stored _ j); [lia|done]).
  destruct (scan_exact rpc root chain known laws fault sc j d n d' n' r Ms C H) as (k & Hjk & Ck & _ & _ & E).
  split; [exists k; split; [lia|done]|]. intros utxos u Hr Hu. rewrite (E _ Hr) in Hu.
  apply rewards_of_In in Hu as (b & Hb & Hu). apply segment_elem in Hb as (p & Hp & ?).
  exists p, b. repeat split; [lia|done..].
Qed.

Lemma ahead_txid i u u' :
  Forall block_wf chain -> NoDup (map sb_coinbase_txid chain) ->
  In u (rewards_of (sc_treasury_recipients sc) (segment chain 0 i)) -> ahead i u' ->
  ut_transaction_id u <> ut_transaction_id u'.
Proof.
  intros W N Hu (k' & b' & Hk' & Eb' & Hu') E.
  apply rewards_of_In in Hu as (b & Hb & Hu). apply segment_elem in Hb as (k & Eb & ?).
  rewrite Forall_lookup in W.
  destruct (treasury_outputs_In _ _ _ _ _ Hu (bw_values _ (W _ _ Eb))) as (E1 & _).
  destruct (treasury_outputs_In _ _ _ _ _ Hu' (bw_values _ (W _ _ Eb'))) as (E2 & _).
  assert (k = k'); [|lia]. eapply NoDup_lookup; [exact N|..]; rewrite list_lookup_fmap.
  - by rewrite Eb.
  - rewrite Eb'. simpl. congruence.
Qed.

Definition lost (i : nat) (u : CoinbaseUtxo) (s : Db * nat) : Prop :=
  alloc_wf (fst s) /\ cursor_from i (db_meta (fst s)) /\ ~ has_outpoint (fst s) u.

Lemma lost_step i u s s' :
  (0 < i)%nat -> Forall block_wf chain -> NoDup (map sb_coinbase_txid chain) ->
  In u (rewards_of (sc_treasury_recipients sc) (segment chain 0 i)) ->
  scan_step s s' -> lost i u s -> lost i u s'.
Proof.
  intros Hi Wc N Hu S (W & C & L).
  destruct S as [fault clock fee inst cl cfg [d n] [d' n'] res H|d d' n Ea Er Em Es]; unfold lost in *; simpl in *.
  - destruct (run_once_swept (frame := scanner_frame rpc sc) fault clock fee inst cfg (cursor_from i) (ahead i)
                (fun d n d' n' r => scan_stays_ahead fault i d n d' n' r Hi) d n d' n' res W C H) as [W' [(v & _ & S)| ->]]; [|done].
    split; [done|]. split; [by apply S|]. intros (r & Hr & E1 & E2).
    destruct (sw_new _ _ _ _ _ _ S r Hr) as [K|(u' & Hu' & R)].
    + apply L. apply in_map_iff in K as (r0 & E & Hr0). unfold reward_key in E. injection E as _ A B _ _.
      exists r0. repeat split; congruence.
    + apply (ahead_txid i u u' Wc N Hu Hu'). rewrite <- E1. apply R.
  - split; [by apply (alloc_wf_same d)|]. split.
    + destruct C as (j & Hij & h & Hj & Hm). exists j. split; [done|]. exists h. by rewrite Em.
    + intros (r & Hr & E). apply L. exists r. by rewrite <- Er.
Qed.
End Lost.

(** C36. The shielded scanner moves its cursor before what it found is recorded, and
    only a reorg report takes it back: a treasury output that the cursor has crossed
    while its reward is not in the table, because a later page of the same call
    failed, the process stopped in between, or the tracker still took the block for
    immature, is not recorded by any later sweep, whatever fails or not, for as long
    as the node serves the chain without reporting a reorg ([ChainLaws]).  A report
    resets the cursor to the pruning point, and what is still above it is walked
    again ([reorg_report_recovers]). *)
Theorem crossed_output_lost (rpc : NodeRpc) root chain known (laws : ChainLaws rpc root chain known) sc
    i u d n d' n' :
  Forall block_wf chain -> NoDup (map sb_coinbase_txid chain) ->
  In u (rewards_of (sc_treasury_recipients sc) (segment chain 0 i)) ->
  alloc_wf d -> cursor_at root chain (db_meta d) i -> ~ has_outpoint d u ->
  rtc (scan_step sc) (d, n) (d', n') -> ~ has_outpoint d' u.
Proof.
  intros Wc N Hu W C L S.
  assert (0 < i)%nat as Hi by (destruct i; [rewrite segment_nil in Hu; done|lia]).
  assert (lost root chain i u (d, n)) as L0 by (split; [done|]; split; [by exists i|done]).
  cut (lost root chain i u (d', n')); [by intros (_ & _ & ?)|].
  clear W C L. remember (d, n) as s. remember (d', n') as s'. clear Heqs Heqs'.
  induction S as [|s s1 s2 St _ IH]; [done|]. apply IH. by eapply lost_step.
Qed.

(** ** A concrete chain *)

Definition demo_root : Hash := repeat 0 32.
Definition demo_treasury : bytes := repeat 7 43.
Definition demo_block (tag daa : Z) (value : Z) : ShieldedChainBlock :=
  mkShieldedBlock (repeat tag 32) daa (repeat (100 + tag) 32)
    [mkShieldedOutput (repeat 9 43) 5; mkShieldedOutput demo_treasury value].
Definition demo_chain : list ShieldedChainBlock := [demo_block 1 200 1000000; demo_block 2 300 70; demo_block 3 900 80].

Definition demo_position (h : Hash) : nat :=
  match list_find (fun x => x = h) (demo_root :: map sb_hash demo_chain) with Some (i, _) => i | None => 0 end.

Definition demo_text (h : Hash) : string :=
  match h with 1 :: _ => "one" | 2 :: _ => "two" | 3 :: _ => "three" | _ => "root" end.

(** The request at call [failing] is not answered. *)
Definition demo_rpc (failing : option nat) : NodeRpc := {|
  get_block_dag_info := fun _ => Ok (mkDagInfo 500 demo_root);
  get_current_block_color := fun _ _ => Ok true;
  get_utxos_by_addresses := fun _ => Ok [];
  get_shielded_blocks := fun n h limit =>
    if bool_decide (failing = Some n) then Err OtherRpcError
    else Ok (mkShieldedResponse false (take (Z.to_nat limit) (drop (demo_position h) (take 3 demo_chain))));
  hash_to_string := demo_text;
  hash_from_str := fun s => List.find (fun h => String.eqb (demo_text h) s) (demo_root :: map sb_hash demo_chain)
|}.

Definition demo_scanner : ShieldedRewardScanner := mkScanner [demo_treasury] 100 1 50.

Lemma scan_laws failing : ChainLaws (demo_rpc failing) demo_root demo_chain (fun _ => 3%nat).
Proof.
  split.
  - apply (bool_decide_unpack (NoDup (demo_root :: map sb_hash demo_chain))). by vm_compute.
  - intros n i h limit r Hi H. unfold get_shielded_blocks, demo_rpc in H.
    assert (demo_position h = i) as E.
    { destruct i as [|[|[|[|i]]]]; [..|by destruct i]; injection Hi as <-; by vm_compute. }
    destruct (bool_decide _); [discriminate|]. injection H as <-. by rewrite E.
  - intros i h Hi. destruct i as [|[|[|[|i]]]]; [..|by destruct i]; injection Hi as <-; by vm_compute.
Qed.

Lemma demo_start failing m : may_start (demo_rpc failing) demo_root m.
Proof. right. intros n info [= <-]. done. Qed.

Lemma scan_chain_wf : Forall block_wf demo_chain.
Proof. repeat constructor; simpl; unfold i64_max, i32_max; lia. Qed.

Lemma demo_healthy : healthy_node (rpc := demo_rpc None).
Proof. split; [intros; by eexists|]. intros. by eexists. Qed.

Lemma demo_cursor failing (d : Db) : db_meta d = ∅ -> cursor_at (rpc := demo_rpc failing) demo_root demo_chain (db_meta d) 0.
Proof. intros E. exists demo_root. split; [done|]. right. by rewrite E, lookup_empty. Qed.

Lemma scan_exact_witness :
  exists d' n' l, get_pool_coinbase_utxos (KaspadClient := ScannerClient (rpc := demo_rpc None) demo_scanner)
    (fun _ => NoFault) (sample_sweep_db, 0%nat) = ((d', n'), Ok l) /\
  map ut_amount_sompi l = [1000000; 70] /\
  exists j, (0 <= j)%nat /\
    l = rewards_of (sc_treasury_recipients demo_scanner) (segment demo_chain 0 j).
Proof.
  eexists _, _, _. split; [vm_compute; reflexivity|]. split; [reflexivity|].
  edestruct (scan_exact (demo_rpc None) demo_root demo_chain (fun _ => 3%nat) (scan_laws None) (fun _ => NoFault)
               demo_scanner 0 sample_sweep_db 0%nat) as (j & Hj & _ & _ & _ & E);
    [apply demo_start|by apply demo_cursor|vm_compute; reflexivity|]. exists j. split; [exact Hj|]. apply E. reflexivity.
Defined.

Lemma healthy_scan_progress_witness :
  exists d' n' l v j,
    get_pool_coinbase_utxos (KaspadClient := ScannerClient (rpc := demo_rpc None) demo_scanner) (fun _ => NoFault)
      (sample_sweep_db, 0%nat) = ((d', n'), Ok l) /\
    grpc_virtual_daa_score (rpc := demo_rpc None) 0 = Ok v /\
    (caught_up demo_chain 3 (safe_ingest_daa demo_scanner v) j \/ j = 50%nat).
Proof.
  destruct (healthy_scan_progress (demo_rpc None) demo_root demo_chain 3 (scan_laws None) demo_scanner 0
              sample_sweep_db 0%nat demo_healthy (demo_start None _)) as (d' & n' & l & v & j & E & Ev & _ & _ & H);
    [by apply demo_cursor|].
  exists d', n', l, v, j. split; [exact E|]. split; [exact Ev|exact H].
Defined.


(** The second page is not answered: the first one's output is lost for good. *)
Definition demo_failed : (Db * nat) * result SweepStats TrackerError :=
  run_once (classifier := StaticTierClassifier Standard)
    (kaspad := ScannerClient (rpc := demo_rpc (Some 9%nat)) demo_scanner) (fun _ => NoFault)
    (fun _ => 45) (mkFeeConfig 75) "accountant" MaturityConfig_default (sample_sweep_db, 0%nat).

Definition demo_retry : (Db * nat) * result SweepStats TrackerError :=
  run_once (classifier := StaticTierClassifier Standard)
    (kaspad := ScannerClient (rpc := demo_rpc (Some 9%nat)) demo_scanner) (fun _ => NoFault)
    (fun _ => 45) (mkFeeConfig 75) "accountant" MaturityConfig_default (fst demo_failed).

Lemma demo_failed_wf : alloc_wf (fst (fst demo_failed)).
Proof.
  destruct demo_failed as [[d' n'] r] eqn:E.
  by destruct (run_once_swept (classifier := StaticTierClassifier Standard)
    (kaspad := ScannerClient (rpc := demo_rpc (Some 9%nat)) demo_scanner)
    (frame := scanner_frame (demo_rpc (Some 9%nat)) demo_scanner) (fun _ => NoFault) (fun _ => 45) (mkFeeConfig 75)
    "accountant" MaturityConfig_default (fun _ => True) (reported (fun _ => NoFault))
    (fun d n d' n' r _ => reported_ok _ _ _ _ _ _ _ I) sample_sweep_db 0%nat d' n' r sample_sweep_alloc_wf I E).
Qed.

Lemma crossed_output_lost_witness :
  let u := mkUtxo (repeat 101 32) 1 1000000 200 in
  In u (rewards_of [demo_treasury] (segment demo_chain 0 1)) /\
  snd demo_failed = Err (TkKaspad (KTransport "get_shielded_blocks")) /\
  snd demo_retry = Ok (mkSweepStats 0 0 0 1 1 0 0 0) /\
  ~ has_outpoint (fst (fst demo_retry)) u.
Proof.
  intros u. split; [vm_compute; tauto|]. split; [vm_compute; reflexivity|]. split; [vm_compute; reflexivity|].
  apply (crossed_output_lost (demo_rpc (Some 9%nat)) demo_root demo_chain (fun _ => 3%nat) (scan_laws (Some 9%nat))
           demo_scanner 1 u (fst (fst demo_failed)) (snd (fst demo_failed)) _ (snd (fst demo_retry)) scan_chain_wf).
  - apply (bool_decide_unpack (NoDup (map sb_coinbase_txid demo_chain))). by vm_compute.
  - vm_compute. tauto.
  - exact demo_failed_wf.
  - exists (repeat 1 32). split; [reflexivity|]. left. vm_compute. reflexivity.
  - intros (r & Hr & _). vm_compute in Hr. exact Hr.
  - apply rtc_once. eapply (ScSweep demo_scanner (fun _ => NoFault) (fun _ => 45) (mkFeeConfig 75) "accountant"
                              (StaticTierClassifier Standard) MaturityConfig_default).
    unfold demo_retry. vm_compute. reflexivity.
Defined.

(** The node reports a reorg at call [at_] and otherwise answers as before. *)
Definition reorg_rpc (at_ : nat) : NodeRpc := {|
  get_block_dag_info := get_block_dag_info (NodeRpc := demo_rpc None);
  get_current_block_color := get_current_block_color (NodeRpc := demo_rpc None);
  get_utxos_by_addresses := get_utxos_by_addresses (NodeRpc := demo_rpc None);
  get_shielded_blocks := fun n h limit =>
    if bool_decide (n = at_) then Ok (mkShieldedResponse true [])
    else get_shielded_blocks (NodeRpc := demo_rpc None) n h limit;
  hash_to_string := demo_text;
  hash_from_str := hash_from_str (NodeRpc := demo_rpc None)
|}.

Definition sweep_at (rpc : NodeRpc) (s : Db * nat) : Db * nat :=
  fst (run_once (classifier := StaticTierClassifier Standard) (kaspad := ScannerClient (rpc := rpc) demo_scanner)
         (fun _ => NoFault) (fun _ => 45) (mkFeeConfig 75) "accountant" MaturityConfig_default s).

(** A reorg report finds a lost output again: in the sweep after the failed one the
    node reports a reorg, which resets the cursor to the pruning point, and the
    sweep after that records the output. *)
Theorem reorg_report_recovers :
  let s1 := fst demo_failed in
  let rpc := reorg_rpc (snd s1 + 4) in
  let s2 := sweep_at rpc s1 in
  let s3 := sweep_at rpc s2 in
  db_rewards (fst s1) = [] /\ db_rewards (fst s2) = [] /\
  db_meta (fst s1) !! SHIELDED_SCAN_CURSOR_KEY = Some "one"%string /\
  db_meta (fst s2) !! SHIELDED_SCAN_CURSOR_KEY = Some "root"%string /\
  map cr_amount_sompi (db_rewards (fst s3)) = [1000000; 70].
Proof. vm_compute. repeat split. Qed.
