(* ===== verification/StorageMass.v ===== *)
(** * Storage-mass planning ([crates/katpool-storagemass/src])

    The transaction shapes the planner measures, the three masses and their
    limits, the network fee policy, the greedy payout batch planner and the
    treasury consolidation planner.

    The mass formulas and the output size estimate belong to
    [kaspa_consensus_core], which is not part of the repository: they are the
    operations of the class [MassCalculator].  A [ScriptPublicKey] is only
    copied, so it is a type parameter.  [usize] counts are [nat]; sompi amounts
    are [Z], and a [u64] sum that overflows panics, which is [None]. *)
From S2P Require Import Prelude F64.
From Stdlib Require Import SpecFloat.

(** ** Consensus data the planner builds ([kaspa_consensus_core::tx]) *)

Record TransactionOutpoint := mkOutpoint {
  op_transaction_id : list Z;
  op_index : Z
}.

#[export] Instance TransactionOutpoint_eq_dec : EqDecision TransactionOutpoint.
Proof. solve_decision. Defined.

Record UtxoEntry (Script : Type) := mkUtxoEntry {
  ue_amount : Z;
  ue_script_public_key : Script;
  ue_block_daa_score : Z;
  ue_is_coinbase : bool;
  ue_covenant_id : option (list Z)
}.
Arguments mkUtxoEntry {Script} _ _ _ _ _.
Arguments ue_amount {Script} _.
Arguments ue_script_public_key {Script} _.
Arguments ue_block_daa_score {Script} _.
Arguments ue_is_coinbase {Script} _.
Arguments ue_covenant_id {Script} _.

Record TransactionInput := mkTransactionInput {
  ti_previous_outpoint : TransactionOutpoint;
  ti_signature_script : list Z;
  ti_sequence : Z;
  ti_sig_op_count : Z
}.

Record TransactionOutput (Script : Type) := mkTransactionOutput {
  to_value : Z;
  to_script_public_key : Script
}.
Arguments mkTransactionOutput {Script} _ _.
Arguments to_value {Script} _.
Arguments to_script_public_key {Script} _.

Record Transaction (Script : Type) := mkTransaction {
  tx_version : Z;
  tx_inputs : list TransactionInput;
  tx_outputs : list (TransactionOutput Script);
  tx_lock_time : Z;
  tx_subnetwork_id : list Z;
  tx_gas : Z;
  tx_payload : list Z
}.
Arguments mkTransaction {Script} _ _ _ _ _ _ _.
Arguments tx_version {Script} _.
Arguments tx_inputs {Script} _.
Arguments tx_outputs {Script} _.
Arguments tx_lock_time {Script} _.
Arguments tx_subnetwork_id {Script} _.
Arguments tx_gas {Script} _.
Arguments tx_payload {Script} _.

(** ** The consensus mass calculator, as the planner calls it

    [calc_non_contextual_masses] returns the compute and the transient mass;
    [calc_contextual_masses] returns the storage mass, or nothing for a shape
    it cannot price; [output_serialized_size] is
    [transaction_output_estimated_serialized_size]. *)
Class MassCalculator (Script : Type) := {
  calc_non_contextual_masses : Transaction Script -> Z * Z;
  calc_contextual_masses : Transaction Script -> list (UtxoEntry Script) -> option Z;
  output_serialized_size : TransactionOutput Script -> Z
}.

(** ** Masses and limits ([evaluator.rs]) *)

Definition MAX_STANDARD_TX_MASS : Z := 100000.
Definition MIN_PAYOUT_OUTPUT_SOMPI : Z := 1900000.

Record TxMass := mkTxMass {
  compute_mass : Z;
  storage_mass : Z;
  transient_mass : Z
}.

Definition effective (m : TxMass) : Z :=
  Z.max (Z.max (compute_mass m) (storage_mass m)) (transient_mass m).

Definition fits_independently (m : TxMass) (block_mass_limit : Z) : bool :=
  (compute_mass m <=? block_mass_limit) &&
  (storage_mass m <=? block_mass_limit) &&
  (transient_mass m <=? block_mass_limit).

Inductive MassEvaluationError :=
| InputCountMismatch (tx_inputs entries : nat)
| StorageMassIncomputable.

(** ** Fee policy ([fee.rs]) *)

Definition MIN_RELAY_TX_FEE_SOMPI_PER_KG : Z := 100000.
Definition DUST_INPUT_SERIALIZED_SIZE : Z := 148.

Record FeeRate := mkFeeRate {
  feerate_sompi_per_gram : f64;
  min_relay_sompi_per_kg : Z
}.

Definition FeeRate_ZERO : FeeRate := mkFeeRate f64_zero 0.

Definition from_feerate (feerate : f64) : FeeRate :=
  mkFeeRate
    (if f64_is_finite feerate && f64_ltb f64_zero feerate then feerate else f64_zero)
    MIN_RELAY_TX_FEE_SOMPI_PER_KG.

Definition reserves_fee (fr : FeeRate) : bool :=
  f64_ltb f64_zero (feerate_sompi_per_gram fr) || (0 <? min_relay_sompi_per_kg fr).

Definition minimum_relay_fee (fr : FeeRate) (compute_mass : Z) : Z :=
  let fee := sat_u64 (compute_mass * min_relay_sompi_per_kg fr) / 1000 in
  if fee =? 0 then min_relay_sompi_per_kg fr else fee.

Definition fee_for (fr : FeeRate) (mass : TxMass) : Z :=
  let scaled := f64_mul (feerate_sompi_per_gram fr) (f64_of_Z (effective mass)) in
  let estimate :=
    if f64_is_finite scaled && f64_ltb f64_zero scaled
    then f64_as_u64 (f64_min (f64_ceil scaled) (f64_of_Z u64_max))
    else 0 in
  Z.max estimate (minimum_relay_fee fr (compute_mass mass)).

(** The fee both planners reserve for a measured shape. *)
Definition reserved_fee (fr : FeeRate) (mass : TxMass) : Z :=
  if reserves_fee fr then fee_for fr mass else 0.

(** ** Planner data ([types.rs]) *)

Definition PLANNING_VIRTUAL_TXID_BYTES : list Z := repeat 0 31 ++ [1].

Record TreasuryUtxo (Script : Type) := mkTreasuryUtxo {
  tu_outpoint : TransactionOutpoint;
  tu_entry : UtxoEntry Script
}.
Arguments mkTreasuryUtxo {Script} _ _.
Arguments tu_outpoint {Script} _.
Arguments tu_entry {Script} _.

Record PayoutRecipient (Script : Type) := mkPayoutRecipient {
  pr_id : string;
  pr_amount_sompi : Z;
  pr_script_public_key : Script
}.
Arguments mkPayoutRecipient {Script} _ _ _.
Arguments pr_id {Script} _.
Arguments pr_amount_sompi {Script} _.
Arguments pr_script_public_key {Script} _.

Record PlannedBatch (Script : Type) := mkPlannedBatch {
  pb_inputs : list (TreasuryUtxo Script);
  pb_payouts : list (PayoutRecipient Script);
  pb_change_amount_sompi : Z;
  pb_mass : TxMass
}.
Arguments mkPlannedBatch {Script} _ _ _ _.
Arguments pb_inputs {Script} _.
Arguments pb_payouts {Script} _.
Arguments pb_change_amount_sompi {Script} _.
Arguments pb_mass {Script} _.

Record PlanBatchesResult (Script : Type) := mkPlanBatchesResult {
  pl_batches : list (PlannedBatch Script);
  pl_deferred_below_floor : list (PayoutRecipient Script);
  pl_unpaid : list (PayoutRecipient Script)
}.
Arguments mkPlanBatchesResult {Script} _ _ _.
Arguments pl_batches {Script} _.
Arguments pl_deferred_below_floor {Script} _.
Arguments pl_unpaid {Script} _.

Definition SIGNED_P2PK_SIG_SCRIPT_LEN : nat := 66.
Definition standard_subnetwork : list Z :=
  [1; 2; 3; 4; 5; 6; 7; 8; 9; 10; 0; 0; 0; 0; 0; 0; 0; 0; 0; 0].
Definition MAX_OUTPUTS_PER_INPUT : nat := 10.
Definition MIN_CONSOLIDATION_INPUTS : nat := 2.

(** ** Building and measuring a shape *)

Definition is_planning_virtual {Script} (u : TreasuryUtxo Script) : bool :=
  bool_decide (op_transaction_id (tu_outpoint u) = PLANNING_VIRTUAL_TXID_BYTES).

Definition utxo_amount {Script} (u : TreasuryUtxo Script) : Z := ue_amount (tu_entry u).

Definition build_populated {Script} (inputs : list (TreasuryUtxo Script))
    (payouts : list (PayoutRecipient Script)) (change_script : Script)
    (change_amount_sompi : Z) : Transaction Script * list (UtxoEntry Script) :=
  let tx_inputs :=
    map (fun u => mkTransactionInput (tu_outpoint u)
                    (repeat 0 SIGNED_P2PK_SIG_SCRIPT_LEN) 0 1) inputs in
  let outputs :=
    map (fun p => mkTransactionOutput (pr_amount_sompi p) (pr_script_public_key p)) payouts in
  let outputs :=
    if 0 <? change_amount_sompi
    then outputs ++ [mkTransactionOutput change_amount_sompi change_script]
    else outputs in
  (mkTransaction 0 tx_inputs outputs 0 standard_subnetwork 0 [], map tu_entry inputs).

(** What one turn of the [while] loop of [build_one_batch] decides. *)
Inductive turn (A : Type) := Return (a : A) | Widen.
Arguments Return {A} a.
Arguments Widen {A}.

Section Planner.
Context {Script : Type} `{MC : MassCalculator Script}.

(** [MassEvaluator::block_mass_limit]: the consensus parameter the evaluator
    was built with. *)
Context (block_mass_limit : Z).

Definition evaluate_populated (tx : Transaction Script) (entries : list (UtxoEntry Script)) :
    result TxMass MassEvaluationError :=
  if negb (length (tx_inputs tx) =? length entries)%nat
  then Err (InputCountMismatch (length (tx_inputs tx)) (length entries))
  else
    let '(compute, transient) := calc_non_contextual_masses tx in
    let? storage := ok_or (calc_contextual_masses tx entries) StorageMassIncomputable in
    Ok (mkTxMass compute storage transient).

Definition fits_block (tx : Transaction Script) (entries : list (UtxoEntry Script)) : bool :=
  match evaluate_populated tx entries with
  | Ok m => fits_independently m block_mass_limit
  | Err _ => false
  end.

(** [evaluate_shape] and [evaluate_self_send]: the masses of a built shape,
    when each of them is within [limit]. *)
Definition evaluate_within (limit : Z) (inputs : list (TreasuryUtxo Script))
    (payouts : list (PayoutRecipient Script)) (change_script : Script) (change_amount : Z) :
    option TxMass :=
  let '(tx, entries) := build_populated inputs payouts change_script change_amount in
  match evaluate_populated tx entries with
  | Ok m => if fits_independently m limit then Some m else None
  | Err _ => None
  end.

Definition evaluate_shape := evaluate_within block_mass_limit.

Definition evaluate_self_send (inputs : list (TreasuryUtxo Script)) (treasury_script : Script)
    (change_amount : Z) : option TxMass :=
  evaluate_within MAX_STANDARD_TX_MASS inputs [] treasury_script change_amount.

Definition is_change_dust (value_sompi : Z) (change_script : Script) : bool :=
  let serialized :=
    sat_u64 (output_serialized_size (mkTransactionOutput value_sompi change_script)
             + DUST_INPUT_SERIALIZED_SIZE) in
  value_sompi * 1000 / (3 * serialized) <? MIN_RELAY_TX_FEE_SOMPI_PER_KG.

(** ** The batch planner ([planner.rs]) *)

Definition partition_by_floor (recipients : list (PayoutRecipient Script)) :
    list (PayoutRecipient Script) * list (PayoutRecipient Script) :=
  fold_left (fun '(payable, deferred) r =>
               if MIN_PAYOUT_OUTPUT_SOMPI <=? pr_amount_sompi r
               then (payable ++ [r], deferred) else (payable, deferred ++ [r]))
    recipients ([], []).

Definition sort_utxos_desc : list (TreasuryUtxo Script) -> list (TreasuryUtxo Script) :=
  sort_by (fun a b => utxo_amount b <=? utxo_amount a).

Definition sort_recipients_desc :
    list (PayoutRecipient Script) -> list (PayoutRecipient Script) :=
  sort_by (fun a b => pr_amount_sompi b <=? pr_amount_sompi a).

(** [filter_map(|&i| recipients.get(i))]. *)
Definition pick (recipients : list (PayoutRecipient Script)) (selected : list nat) :
    list (PayoutRecipient Script) :=
  omap (fun i => recipients !! i) selected.

Definition sum_amounts (l : list (PayoutRecipient Script)) : option Z :=
  sum_u64 (map pr_amount_sompi l).

Definition sum_inputs (l : list (TreasuryUtxo Script)) : option Z :=
  sum_u64 (map utxo_amount l).

(** One recipient of the greedy loop: the next selection. *)
Definition greedy_step (inputs : list (TreasuryUtxo Script)) (input_sum : Z)
    (recipients : list (PayoutRecipient Script)) (change_script : Script) (fee_rate : FeeRate)
    (selected : list nat) (idx : nat) (rec : PayoutRecipient Script) : option (list nat) :=
  selected_sum ← sum_amounts (pick recipients selected);
  let candidate_sum := sat_u64 (selected_sum + pr_amount_sompi rec) in
  if input_sum <? candidate_sum then Some selected
  else
    let candidate := selected ++ [idx] in
    let payout_refs := pick recipients candidate in
    if negb (length payout_refs =? length candidate)%nat then Some selected
    else
      match evaluate_shape inputs payout_refs change_script (input_sum - candidate_sum) with
      | None => Some selected
      | Some mass =>
          let fee := reserved_fee fee_rate mass in
          Some (if sat_u64 (candidate_sum + fee) <=? input_sum then candidate else selected)
      end.

Fixpoint greedy_loop (inputs : list (TreasuryUtxo Script)) (input_sum : Z)
    (recipients : list (PayoutRecipient Script)) (change_script : Script) (fee_rate : FeeRate)
    (max_outputs : nat) (selected : list nat) (idx : nat)
    (rest : list (PayoutRecipient Script)) : option (list nat) :=
  match rest with
  | [] => Some selected
  | rec :: rest =>
      if (max_outputs <=? length selected)%nat then Some selected
      else
        selected ← greedy_step inputs input_sum recipients change_script fee_rate selected idx rec;
        greedy_loop inputs input_sum recipients change_script fee_rate max_outputs selected
          (S idx) rest
  end.

Definition greedy_recipients_for_inputs (inputs : list (TreasuryUtxo Script)) (input_sum : Z)
    (recipients : list (PayoutRecipient Script)) (change_script : Script) (fee_rate : FeeRate) :
    option (option (list nat)) :=
  let max_outputs := Nat.max (length inputs * MAX_OUTPUTS_PER_INPUT) 1 in
  selected ← greedy_loop inputs input_sum recipients change_script fee_rate max_outputs [] 0
               recipients;
  Some (match selected with [] => None | _ => Some selected end).

(** The loop body after a selection was made. *)
Definition close_batch (inputs : list (TreasuryUtxo Script)) (input_sum : Z)
    (recipients : list (PayoutRecipient Script)) (change_script : Script) (fee_rate : FeeRate)
    (selected : list nat) : option (turn (PlannedBatch Script)) :=
  payout_sum ← sum_amounts (pick recipients selected);
  if input_sum <? payout_sum then Some Widen
  else
    let payout_refs := pick recipients selected in
    if negb (length payout_refs =? length selected)%nat then Some Widen
    else
      match evaluate_shape inputs payout_refs change_script (input_sum - payout_sum) with
      | None => Some Widen
      | Some gross_mass =>
          let fee := reserved_fee fee_rate gross_mass in
          if input_sum <? sat_u64 (payout_sum + fee) then Some Widen
          else
            let change_amount := input_sum - payout_sum - fee in
            if reserves_fee fee_rate &&
               ((change_amount =? 0) || is_change_dust change_amount change_script)
            then
              match evaluate_shape inputs payout_refs change_script 0 with
              | Some mass => Some (Return (mkPlannedBatch inputs payout_refs 0 mass))
              | None => Some Widen
              end
            else Some (Return (mkPlannedBatch inputs payout_refs change_amount gross_mass))
      end.

(** The [while input_count <= max_inputs] loop; the fuel bounds the number of
    turns and running out of it is [None]. *)
Fixpoint build_from (fuel : nat) (utxos : list (TreasuryUtxo Script))
    (recipients : list (PayoutRecipient Script)) (change_script : Script) (fee_rate : FeeRate)
    (input_count : nat) : option (option (PlannedBatch Script)) :=
  match fuel with
  | O => None
  | S fuel =>
      if (length utxos <? input_count)%nat then Some None
      else
        let inputs := firstn input_count utxos in
        input_sum ← sum_inputs inputs;
        selection ← greedy_recipients_for_inputs inputs input_sum recipients change_script fee_rate;
        match selection with
        | None => Some None
        | Some selected =>
            next ← (match selected with
                    | [] => Some Widen
                    | _ => close_batch inputs input_sum recipients change_script fee_rate selected
                    end);
            match next with
            | Return batch => Some (Some batch)
            | Widen => build_from fuel utxos recipients change_script fee_rate (S input_count)
            end
        end
  end.

Definition build_one_batch (utxos : list (TreasuryUtxo Script))
    (recipients : list (PayoutRecipient Script)) (change_script : Script) (fee_rate : FeeRate) :
    option (option (PlannedBatch Script)) :=
  build_from (S (length utxos)) utxos recipients change_script fee_rate 1.

Definition planning_change_utxo (batch_index : Z) (amount_sompi : Z) (change_script : Script) :
    TreasuryUtxo Script :=
  mkTreasuryUtxo (mkOutpoint PLANNING_VIRTUAL_TXID_BYTES batch_index)
    (mkUtxoEntry amount_sompi change_script 0 false None).

Definition remove_consumed (utxos consumed : list (TreasuryUtxo Script)) :
    list (TreasuryUtxo Script) :=
  List.filter (fun u => negb (existsb (fun c => bool_decide (tu_outpoint c = tu_outpoint u))
                                consumed)) utxos.

Definition remove_paid (recipients paid : list (PayoutRecipient Script)) :
    list (PayoutRecipient Script) :=
  List.filter (fun r => negb (existsb (fun p => bool_decide (pr_id p = pr_id r)) paid)) recipients.

(** The funding set for the next batch. *)
Definition next_utxos (utxos : list (TreasuryUtxo Script)) (batch : PlannedBatch Script)
    (change_script : Script) (done : list (PlannedBatch Script)) : list (TreasuryUtxo Script) :=
  let utxos := remove_consumed utxos (pb_inputs batch) in
  let batch_index := Z.of_nat (length done) in
  if (0 <? pb_change_amount_sompi batch) && (batch_index <=? u32_max)
  then sort_utxos_desc
         (utxos ++ [planning_change_utxo batch_index (pb_change_amount_sompi batch) change_script])
  else utxos.

Fixpoint plan_loop (fuel : nat) (utxos : list (TreasuryUtxo Script))
    (payable : list (PayoutRecipient Script)) (change_script : Script) (fee_rate : FeeRate)
    (done : list (PlannedBatch Script)) :
    option (list (PlannedBatch Script) * list (PayoutRecipient Script)) :=
  match fuel with
  | O => None
  | S fuel =>
      match payable, utxos with
      | [], _ | _, [] => Some (done, payable)
      | _, _ =>
          found ← build_one_batch utxos payable change_script fee_rate;
          match found with
          | None => Some (done, payable)
          | Some batch =>
              plan_loop fuel (next_utxos utxos batch change_script done)
                (remove_paid payable (pb_payouts batch)) change_script fee_rate (done ++ [batch])
          end
      end
  end.

Definition plan_batches (utxos : list (TreasuryUtxo Script))
    (recipients : list (PayoutRecipient Script)) (change_script : Script) (fee_rate : FeeRate) :
    option (PlanBatchesResult Script) :=
  let '(payable, deferred) := partition_by_floor recipients in
  let utxos := sort_utxos_desc utxos in
  let payable := sort_recipients_desc payable in
  '(done, unpaid) ← plan_loop (S (length payable)) utxos payable change_script fee_rate [];
  Some (mkPlanBatchesResult done deferred unpaid).
End Planner.

(** ** The consolidation planner ([consolidation.rs]) *)

Section Consolidation.
Context {Script : Type} `{MC : MassCalculator Script}.

Definition sort_utxos_asc : list (TreasuryUtxo Script) -> list (TreasuryUtxo Script) :=
  sort_by (fun a b => utxo_amount a <=? utxo_amount b).

(** The outer [option] is the panic of the sum. *)
Definition fits_prefix (utxos : list (TreasuryUtxo Script)) (treasury_script : Script) (n : nat) :
    option (option TxMass) :=
  if (length utxos <? n)%nat then Some None
  else
    let inputs := firstn n utxos in
    input_sum ← sum_inputs inputs;
    Some (evaluate_self_send inputs treasury_script input_sum).

(** The [while lo < hi] loop. *)
Fixpoint search_loop (fuel : nat) (utxos : list (TreasuryUtxo Script)) (treasury_script : Script)
    (lo hi : nat) : option nat :=
  match fuel with
  | O => None
  | S fuel =>
      if (lo <? hi)%nat then
        let mid := (lo + ((hi - lo) / 2 + (hi - lo) mod 2))%nat in
        fit ← fits_prefix utxos treasury_script mid;
        match fit with
        | Some _ => search_loop fuel utxos treasury_script mid hi
        | None => search_loop fuel utxos treasury_script lo (mid - 1)
        end
      else Some lo
  end.

Definition max_inputs_that_fit (utxos : list (TreasuryUtxo Script)) (treasury_script : Script)
    (max_inputs_per_tx : nat) : option nat :=
  let hi_bound := Nat.min max_inputs_per_tx (length utxos) in
  if (hi_bound =? 0)%nat then Some 0%nat
  else
    first ← fits_prefix utxos treasury_script 1;
    match first with
    | None => Some 0%nat
    | Some _ => search_loop hi_bound utxos treasury_script 1 hi_bound
    end.

(** [slice::chunks]: consecutive runs of [n] elements, the last one shorter. *)
Fixpoint chunks_from {A} (fuel n : nat) (l : list A) : list (list A) :=
  match fuel, l with
  | S fuel, _ :: _ => firstn n l :: chunks_from fuel n (skipn n l)
  | _, _ => []
  end.

Definition chunks {A} (n : nat) (l : list A) : list (list A) := chunks_from (length l) n l.

Fixpoint consolidate_loop (cs : list (list (TreasuryUtxo Script))) (treasury_script : Script)
    (fee_rate : FeeRate) (max_txs : nat) (done : list (PlannedBatch Script)) :
    option (list (PlannedBatch Script)) :=
  match cs with
  | [] => Some done
  | chunk :: cs =>
      if (max_txs <=? length done)%nat then Some done
      else if (length chunk <? MIN_CONSOLIDATION_INPUTS)%nat then Some done
      else
        input_sum ← sum_inputs chunk;
        match evaluate_self_send chunk treasury_script input_sum with
        | None => consolidate_loop cs treasury_script fee_rate max_txs done
        | Some mass =>
            if reserves_fee fee_rate && (input_sum <=? fee_for fee_rate mass)
            then consolidate_loop cs treasury_script fee_rate max_txs done
            else
              consolidate_loop cs treasury_script fee_rate max_txs
                (done ++ [mkPlannedBatch chunk [] input_sum mass])
        end
  end.

Definition plan_consolidation (utxos : list (TreasuryUtxo Script)) (treasury_script : Script)
    (fee_rate : FeeRate) (max_inputs_per_tx max_txs : nat) : option (list (PlannedBatch Script)) :=
  let utxos := List.filter (fun u => negb (is_planning_virtual u)) utxos in
  if (max_txs =? 0)%nat || (max_inputs_per_tx <? MIN_CONSOLIDATION_INPUTS)%nat
     || (length utxos <? MIN_CONSOLIDATION_INPUTS)%nat
  then Some []
  else
    let utxos := sort_utxos_asc utxos in
    cap ← max_inputs_that_fit utxos treasury_script max_inputs_per_tx;
    if (cap <? MIN_CONSOLIDATION_INPUTS)%nat then Some []
    else consolidate_loop (chunks cap utxos) treasury_script fee_rate max_txs [].
End Consolidation.
