(* ===== verification/StorageMassSpec.v ===== *)
(** * What the storage-mass planners guarantee

    The batch planner terminates, splits the recipients between batches,
    deferred and unpaid, spends no coin twice, chains its planned change only
    forwards, and every batch it emits balances and fits the mass limit.  The
    consolidation planner's binary search is the linear maximum, and its
    batches merge disjoint runs of real coins. *)
From S2P Require Import Prelude F64 StorageMass.

(** Step through binds whose first computation is known. *)
Ltac run := cbn [mbind option_bind negb].

(** ** Fees *)

Lemma minimum_relay_fee_nonneg fr c :
  0 <= min_relay_sompi_per_kg fr -> 0 <= minimum_relay_fee fr c.
Proof.
  intros H. unfold minimum_relay_fee.
  assert (0 <= sat_u64 (c * min_relay_sompi_per_kg fr) / 1000)
    by (apply Z.div_pos; unfold sat_u64, u64_max; lia).
  destruct (_ =? 0); lia.
Qed.

Lemma fee_for_relay fr m : minimum_relay_fee fr (compute_mass m) <= fee_for fr m.
Proof. unfold fee_for. apply Z.le_max_r. Qed.

Lemma reserved_fee_nonneg fr m : 0 <= min_relay_sompi_per_kg fr -> 0 <= reserved_fee fr m.
Proof.
  intros H. unfold reserved_fee. destruct (reserves_fee fr); [|lia].
  pose proof (fee_for_relay fr m). pose proof (minimum_relay_fee_nonneg fr (compute_mass m) H). lia.
Qed.

(** ** Selections *)

Section Select.
Context {Script : Type}.
Implicit Types rs : list (PayoutRecipient Script).

Lemma pick_cons rs i sel :
  pick rs (i :: sel) =
  match rs !! i with Some r => r :: pick rs sel | None => pick rs sel end.
Proof. reflexivity. Qed.

Lemma pick_app rs s1 s2 : pick rs (s1 ++ s2) = pick rs s1 ++ pick rs s2.
Proof. apply omap_app. Qed.

Lemma pick_In rs sel r : In r (pick rs sel) -> In r rs.
Proof. intros (i & _ & Hi)%In_omap. apply list_elem_of_In. eapply list_elem_of_lookup_2, Hi. Qed.

Lemma pick_length rs sel :
  Forall (fun i => i < length rs)%nat sel -> length (pick rs sel) = length sel.
Proof.
  induction 1 as [|i sel Hi _ IH]; [done|]. rewrite pick_cons.
  destruct (lookup_lt_is_Some_2 rs i Hi) as [r Hr]. rewrite Hr. simpl. now rewrite IH.
Qed.

Lemma pick_NoDup rs sel :
  List.NoDup sel -> List.NoDup (map pr_id rs) -> List.NoDup (map pr_id (pick rs sel)).
Proof.
  intros Hs Hr. induction Hs as [|i sel Hi Hs IH]; [constructor|].
  rewrite pick_cons. destruct (rs !! i) as [r|] eqn:E; simpl; auto.
  constructor; auto. intros (r' & Hid & (j & Hj & Hr')%In_omap)%in_map_iff.
  apply Hi. assert (i = j) as ->; [|done].
  apply (NoDup_lookup (map pr_id rs) i j (pr_id r)); rewrite ?NoDup_ListNoDup; auto;
    rewrite list_lookup_fmap; [now rewrite E|rewrite Hr'; simpl; now rewrite Hid].
Qed.

Lemma pick_amounts_nonneg rs sel :
  Forall (fun r => 0 <= pr_amount_sompi r) rs ->
  Forall (fun x => 0 <= x) (map pr_amount_sompi (pick rs sel)).
Proof.
  intros H. apply List.Forall_forall. intros x (r & <- & Hr%pick_In)%in_map_iff.
  rewrite List.Forall_forall in H. auto.
Qed.

Lemma sum_inputs_firstn (us : list (TreasuryUtxo Script)) n :
  Forall (fun u => 0 <= utxo_amount u) us -> sumZ (map utxo_amount us) < u64_max ->
  sum_inputs (firstn n us) = Some (sumZ (map utxo_amount (firstn n us))).
Proof.
  intros H Hs. unfold sum_inputs. rewrite List.Forall_forall in H. apply sum_u64_total.
  - apply List.Forall_forall. intros x (u & <- & Hu%In_firstn)%in_map_iff. auto.
  - pose proof (sumZ_firstn_le utxo_amount n us H). lia.
Qed.
End Select.

(** ** One batch *)

Section Batch.
Context {Script : Type} `{MC : MassCalculator Script}.
Context (limit : Z) (cs : Script) (fr : FeeRate).
Hypothesis fr_relay : 0 <= min_relay_sompi_per_kg fr.
Implicit Types (us ins : list (TreasuryUtxo Script)) (rs : list (PayoutRecipient Script)).

Definition total_in us : Z := sumZ (map utxo_amount us).
Definition total_out rs : Z := sumZ (map pr_amount_sompi rs).

(** [rs] can be paid from [ins]: the shape with all the change fits the limit
    as [m] and the inputs cover the payouts and the fee reserved for [m]. *)
Definition affordable ins rs (m : TxMass) : Prop :=
  evaluate_shape limit ins rs cs (total_in ins - total_out rs) = Some m /\
  total_out rs + reserved_fee fr m <= total_in ins.

(** What the greedy loop maintains about its selection before index [idx]. *)
Record selection ins rs (max_outputs idx : nat) (sel : list nat) : Prop := {
  sel_range : Forall (fun i => i < idx)%nat sel;
  sel_nodup : List.NoDup sel;
  sel_count : (length sel <= max_outputs)%nat;
  sel_sum : total_out (pick rs sel) <= total_in ins;
  sel_afford : sel = [] \/ exists m, affordable ins (pick rs sel) m
}.

Lemma evaluate_shape_fits ins rs c m :
  evaluate_shape limit ins rs cs c = Some m -> fits_independently m limit = true.
Proof.
  unfold evaluate_shape, evaluate_within. destruct (build_populated _ _ _ _).
  destruct (evaluate_populated _ _); [|done]. destruct (fits_independently a limit) eqn:E; [|done].
  now intros [= <-].
Qed.

Lemma sum_amounts_total rs sel b :
  Forall (fun r => 0 <= pr_amount_sompi r) rs -> b < u64_max ->
  total_out (pick rs sel) <= b -> sum_amounts (pick rs sel) = Some (total_out (pick rs sel)).
Proof.
  intros Hr Hb Hs. unfold sum_amounts. apply sum_u64_total; [now apply pick_amounts_nonneg|].
  fold (total_out (pick rs sel)). lia.
Qed.

Lemma total_out_nonneg rs : Forall (fun r => 0 <= pr_amount_sompi r) rs -> 0 <= total_out rs.
Proof. intros H. apply sumZ_nonneg. now rewrite List.Forall_map. Qed.

Lemma pick_Forall (P : PayoutRecipient Script -> Prop) rs sel :
  Forall P rs -> Forall P (pick rs sel).
Proof. rewrite !List.Forall_forall. intros H r Hr%pick_In. auto. Qed.

Lemma selection_snoc ins rs mo idx sel r m :
  selection ins rs mo idx sel -> rs !! idx = Some r -> (length sel < mo)%nat ->
  affordable ins (pick rs (sel ++ [idx])) m ->
  selection ins rs mo (S idx) (sel ++ [idx]).
Proof.
  intros [Hr Hn Hc Hs Ha] Hi Hl Hm. pose proof Hm as [_ Hsum].
  pose proof (reserved_fee_nonneg fr m fr_relay). constructor.
  - apply List.Forall_app. split; [|repeat constructor; lia].
    eapply List.Forall_impl; [|exact Hr]. simpl. lia.
  - apply NoDup_app_snoc; [done|]. rewrite List.Forall_forall in Hr. intros E%Hr. lia.
  - rewrite length_app. simpl. lia.
  - lia.
  - right. eauto.
Qed.

Lemma selection_weaken ins rs mo idx n sel :
  (idx <= n)%nat -> selection ins rs mo idx sel -> selection ins rs mo n sel.
Proof.
  intros Hle [Hr Hn Hc Hs Ha]. constructor; auto.
  eapply List.Forall_impl; [|exact Hr]. simpl. lia.
Qed.

Lemma selection_skip ins rs mo idx sel :
  selection ins rs mo idx sel -> selection ins rs mo (S idx) sel.
Proof. apply selection_weaken. lia. Qed.

Lemma greedy_step_spec ins rs mo sel idx r :
  Forall (fun r => 0 <= pr_amount_sompi r) rs -> total_in ins < u64_max ->
  selection ins rs mo idx sel -> rs !! idx = Some r -> (length sel < mo)%nat ->
  exists sel', greedy_step limit ins (total_in ins) rs cs fr sel idx r = Some sel' /\
    selection ins rs mo (S idx) sel'.
Proof.
  intros Hr Ht Hsel Hi Hl. pose proof Hsel as [Hrg Hn Hc Hs Ha].
  unfold greedy_step. rewrite (sum_amounts_total rs sel (total_in ins)) by auto. simpl.
  assert (0 <= pr_amount_sompi r).
  { rewrite List.Forall_forall in Hr. apply Hr, list_elem_of_In. eapply list_elem_of_lookup_2, Hi. }
  pose proof (total_out_nonneg _ (pick_Forall _ rs sel Hr)).
  set (cand := sat_u64 _). destruct (Z.ltb_spec (total_in ins) cand) as [L|L];
    [eauto using selection_skip|].
  assert (cand = total_out (pick rs (sel ++ [idx]))) as Hcand.
  { rewrite pick_app, pick_cons, Hi. unfold total_out. rewrite map_app, sumZ_app. simpl.
    fold (total_out (pick rs sel)). unfold cand, sat_u64 in *. lia. }
  destruct (negb _); [eauto using selection_skip|].
  rewrite Hcand in L |- *.
  destruct (evaluate_shape _ _ _ _ _) as [m|] eqn:E; [|eauto using selection_skip].
  pose proof (reserved_fee_nonneg fr m fr_relay).
  destruct (Z.leb_spec (sat_u64 (total_out (pick rs (sel ++ [idx])) + reserved_fee fr m))
              (total_in ins)) as [L'|L']; [|eauto using selection_skip].
  eexists. split; [done|]. eapply selection_snoc; eauto. split; [exact E|].
  unfold sat_u64 in L'. lia.
Qed.

Lemma greedy_loop_spec ins rs mo rest : forall pre sel,
  Forall (fun r => 0 <= pr_amount_sompi r) rs -> total_in ins < u64_max ->
  rs = pre ++ rest -> selection ins rs mo (length pre) sel ->
  exists sel', greedy_loop limit ins (total_in ins) rs cs fr mo sel (length pre) rest = Some sel' /\
    selection ins rs mo (length rs) sel'.
Proof.
  induction rest as [|r rest IH]; intros pre sel Hr Ht Hd Hsel; cbn [greedy_loop].
  - exists sel. split; [done|]. rewrite app_nil_r in Hd. subst pre. exact Hsel.
  - destruct (Nat.leb_spec mo (length sel)) as [Hl|Hl].
    + exists sel. split; [done|]. eapply selection_weaken, Hsel. rewrite Hd, length_app. lia.
    + destruct (greedy_step_spec ins rs mo sel (length pre) r) as (sel' & -> & Hsel'); auto.
      { rewrite Hd. now rewrite lookup_app_r, Nat.sub_diag by lia. }
      cbn. replace (S (length pre)) with (length (pre ++ [r])) in * by (rewrite length_app; simpl; lia).
      apply IH; auto. now rewrite <- app_assoc.
Qed.

Lemma greedy_spec ins rs :
  Forall (fun r => 0 <= pr_amount_sompi r) rs -> 0 <= total_in ins < u64_max -> ins <> [] ->
  exists o, greedy_recipients_for_inputs limit ins (total_in ins) rs cs fr = Some o /\
    forall sel, o = Some sel ->
      sel <> [] /\ selection ins rs (length ins * MAX_OUTPUTS_PER_INPUT) (length rs) sel.
Proof.
  intros Hr Ht Hne. unfold greedy_recipients_for_inputs.
  replace (Nat.max _ 1) with (length ins * MAX_OUTPUTS_PER_INPUT)%nat
    by (destruct ins; [done|unfold MAX_OUTPUTS_PER_INPUT; simpl; lia]).
  destruct (greedy_loop_spec ins rs (length ins * MAX_OUTPUTS_PER_INPUT) rs [] [])
    as (sel & E0 & Hsel); [auto|lia|auto| |].
  { constructor; auto using List.Forall_nil, List.NoDup_nil; simpl; unfold total_out; simpl; lia. }
  simpl in E0. rewrite E0. cbn. eexists. split; [reflexivity|]. intros sel' E. destruct sel; [done|].
  injection E as <-. split; [done|exact Hsel].
Qed.

(** A batch drawn from [us] and [rs]. *)
Record batch_from us rs (b : PlannedBatch Script) : Prop := {
  bf_prefix : exists n, (1 <= n <= length us)%nat /\ pb_inputs b = firstn n us;
  bf_picked : exists sel, sel <> [] /\ List.NoDup sel /\
    Forall (fun i => i < length rs)%nat sel /\ pb_payouts b = pick rs sel;
  bf_count : (length (pb_payouts b) <= length (pb_inputs b) * MAX_OUTPUTS_PER_INPUT)%nat;
  bf_change : 0 <= pb_change_amount_sompi b;
  bf_mass : fits_independently (pb_mass b) limit = true;
  bf_fee : exists gross, affordable (pb_inputs b) (pb_payouts b) gross /\
    total_out (pb_payouts b) + pb_change_amount_sompi b + reserved_fee fr gross
      <= total_in (pb_inputs b) /\
    (pb_change_amount_sompi b = 0 \/
     pb_mass b = gross /\
     total_out (pb_payouts b) + pb_change_amount_sompi b + reserved_fee fr gross
       = total_in (pb_inputs b));
  bf_not_dust : reserves_fee fr = true -> pb_change_amount_sompi b = 0 \/
    is_change_dust (pb_change_amount_sompi b) cs = false
}.

(** Closing a selection either returns a batch or widens; with a fee policy
    that never drops change, it returns one. *)
Lemma close_batch_spec us rs n sel :
  Forall (fun r => 0 <= pr_amount_sompi r) rs ->
  total_in (firstn n us) < u64_max -> (1 <= n <= length us)%nat -> sel <> [] ->
  selection (firstn n us) rs (length (firstn n us) * MAX_OUTPUTS_PER_INPUT) (length rs) sel ->
  exists t, close_batch limit (firstn n us) (total_in (firstn n us)) rs cs fr sel = Some t /\
    (t = Widen \/ exists b, t = Return b /\ batch_from us rs b).
Proof.
  intros Hr Ht Hn Hne [Hrg Hnd Hc Hs Ha]. destruct Ha as [->|[g Hg]]; [done|]. pose proof Hg as [He Hf].
  pose proof (total_out_nonneg _ (pick_Forall _ rs sel Hr)).
  pose proof (reserved_fee_nonneg fr g fr_relay).
  unfold close_batch. rewrite (sum_amounts_total rs sel (total_in (firstn n us))) by auto. run.
  destruct (Z.ltb_spec (total_in (firstn n us)) (total_out (pick rs sel))); [lia|].
  pose proof (pick_length rs sel Hrg) as Hpl. rewrite Hpl, Nat.eqb_refl. run. rewrite He.
  rewrite sat_u64_id by (unfold in_u64; lia).
  destruct (Z.ltb_spec (total_in (firstn n us)) (total_out (pick rs sel) + reserved_fee fr g)); [lia|].
  set (ch := total_in _ - _ - _). destruct (_ && _) eqn:D.
  - destruct (evaluate_shape _ _ _ _ 0) as [m|] eqn:E0; [|eauto].
    eexists. split; [done|]. right. eexists. split; [done|].
    constructor; simpl; eauto; try lia; eauto using evaluate_shape_fits.
    exists g. split; [done|]. split; [lia|auto].
  - eexists. split; [done|]. right. eexists. split; [done|].
    constructor; simpl; eauto; try lia; eauto using evaluate_shape_fits.
    + exists g. split; [done|]. split; [unfold ch; lia|right; split; [done|unfold ch; lia]].
    + intros Hrf. rewrite Hrf in D. simpl in D. to_prop. auto.
Qed.

Lemma total_in_firstn us n :
  Forall (fun u => 0 <= utxo_amount u) us -> 0 <= total_in (firstn n us) <= total_in us.
Proof.
  intros H. rewrite List.Forall_forall in H. split; [|now apply sumZ_firstn_le].
  apply sumZ_nonneg, List.Forall_forall. intros x (u & <- & Hu%In_firstn)%in_map_iff. auto.
Qed.

Lemma build_from_spec us rs : forall fuel n,
  Forall (fun r => 0 <= pr_amount_sompi r) rs -> Forall (fun u => 0 <= utxo_amount u) us ->
  total_in us < u64_max -> (1 <= n <= S (length us))%nat -> (fuel + n = S (S (length us)))%nat ->
  exists o, build_from limit fuel us rs cs fr n = Some o /\
    forall b, o = Some b -> batch_from us rs b.
Proof.
  induction fuel as [|fuel IH]; intros n Hr Hu Ht Hn Hf; [lia|]. cbn [build_from].
  destruct (Nat.ltb_spec (length us) n) as [L|L]; [eexists; split; [done|discriminate]|].
  pose proof (total_in_firstn us n Hu).
  rewrite sum_inputs_firstn by auto. fold (total_in (firstn n us)). run.
  destruct (greedy_spec (firstn n us) rs) as (o & -> & Hsel); [auto|lia| |].
  { destruct us, n; simpl in *; try lia; done. }
  run. destruct o as [sel|]; [|eexists; split; [done|discriminate]].
  destruct (Hsel sel eq_refl) as [Hne Hs]. destruct sel as [|i sel]; [done|].
  destruct (close_batch_spec us rs n (i :: sel)) as (t & -> & [->|(b & -> & Hb)]); auto; try lia.
  - run. apply IH; auto; lia.
  - run. eexists. split; [done|]. now intros b' [= <-].
Qed.

Lemma build_one_batch_spec us rs :
  Forall (fun r => 0 <= pr_amount_sompi r) rs -> Forall (fun u => 0 <= utxo_amount u) us ->
  total_in us < u64_max ->
  exists o, build_one_batch limit us rs cs fr = Some o /\ forall b, o = Some b -> batch_from us rs b.
Proof. intros. apply build_from_spec; auto; lia. Qed.

(** ** The planning loop *)

(** Amounts are unsigned and the treasury holds less than [u64::MAX] sompi. *)
Record funded us rs : Prop := {
  fd_us : Forall (fun u => 0 <= utxo_amount u) us;
  fd_rs : Forall (fun r => 0 <= pr_amount_sompi r) rs;
  fd_total : total_in us < u64_max
}.

Lemma batch_payout_In us rs b r : batch_from us rs b -> In r (pb_payouts b) -> In r rs.
Proof. intros [_ (sel & _ & _ & _ & ->) _ _ _ _ _]. apply pick_In. Qed.

Lemma batch_payouts_nonempty us rs b : batch_from us rs b -> pb_payouts b <> [].
Proof.
  intros [_ (sel & Hne & _ & Hrg & ->) _ _ _ _ _] E. apply (f_equal length) in E.
  rewrite pick_length in E by done. now destruct sel.
Qed.

Lemma remove_paid_shrinks us rs b :
  batch_from us rs b -> (length (remove_paid rs (pb_payouts b)) < length rs)%nat.
Proof.
  intros Hb. pose proof (batch_payouts_nonempty _ _ _ Hb) as Hne.
  pose proof (batch_payout_In _ _ _ : forall r, batch_from us rs b -> _ -> In r rs) as Hin.
  destruct (pb_payouts b) as [|p ps] eqn:E; [done|].
  assert (In p rs) as Hp by (apply Hin; [exact Hb|now left]). clear Hin.
  unfold remove_paid. apply in_split in Hp as (l1 & l2 & ->).
  rewrite List.filter_app, !length_app. simpl. rewrite bool_decide_eq_true_2 by done. simpl.
  pose proof (List.filter_length_le (fun r => negb (existsb (fun p' => bool_decide (pr_id p' = pr_id r)) (p :: ps))) l1).
  pose proof (List.filter_length_le (fun r => negb (existsb (fun p' => bool_decide (pr_id p' = pr_id r)) (p :: ps))) l2).
  simpl in *. lia.
Qed.

Lemma remove_consumed_In us ins u :
  In u (remove_consumed us ins) <->
  In u us /\ ~ In (tu_outpoint u) (map tu_outpoint ins).
Proof.
  unfold remove_consumed. rewrite filter_In, negb_true_iff, <- not_true_iff_false, existsb_exists.
  setoid_rewrite bool_decide_eq_true. rewrite in_map_iff. firstorder.
Qed.

Lemma remove_consumed_prefix us n :
  remove_consumed us (firstn n us) = remove_consumed (skipn n us) (firstn n us).
Proof.
  transitivity (remove_consumed (firstn n us ++ skipn n us) (firstn n us));
    [now rewrite firstn_skipn|].
  unfold remove_consumed. rewrite List.filter_app.
  rewrite filter_nil; [done|]. intros u Hu.
  apply negb_false_iff, existsb_exists. exists u. split; [done|]. now apply bool_decide_eq_true.
Qed.

Lemma total_in_split us n : total_in us = total_in (firstn n us) + total_in (skipn n us).
Proof. unfold total_in. now rewrite <- sumZ_app, <- map_app, firstn_skipn. Qed.

Lemma total_in_app us1 us2 : total_in (us1 ++ us2) = total_in us1 + total_in us2.
Proof. unfold total_in. now rewrite map_app, sumZ_app. Qed.

Lemma total_in_sort us : total_in (sort_utxos_desc us) = total_in us.
Proof. symmetry. apply sumZ_Permutation, Permutation_map, sort_by_perm. Qed.

Lemma batch_change_le us rs b :
  batch_from us rs b -> Forall (fun r => 0 <= pr_amount_sompi r) rs ->
  pb_change_amount_sompi b <= total_in (pb_inputs b).
Proof.
  intros Hb Hr. destruct (bf_fee _ _ _ Hb) as (g & _ & Hle & _).
  pose proof (reserved_fee_nonneg fr g fr_relay).
  assert (0 <= total_out (pb_payouts b)); [|lia]. apply total_out_nonneg.
  rewrite List.Forall_forall in *. intros r Hr'. eapply Hr, batch_payout_In; eauto.
Qed.

Lemma next_utxos_perm us b done :
  Permutation (next_utxos us b cs done)
    (remove_consumed us (pb_inputs b) ++
     if (0 <? pb_change_amount_sompi b) && (Z.of_nat (length done) <=? u32_max)
     then [planning_change_utxo (Z.of_nat (length done)) (pb_change_amount_sompi b) cs] else []).
Proof.
  unfold next_utxos. destruct (_ && _); [symmetry; apply sort_by_perm|now rewrite app_nil_r].
Qed.

Lemma next_utxos_total us b done :
  total_in (next_utxos us b cs done) =
  total_in (remove_consumed us (pb_inputs b)) +
  if (0 <? pb_change_amount_sompi b) && (Z.of_nat (length done) <=? u32_max)
  then pb_change_amount_sompi b else 0.
Proof.
  unfold total_in at 1.
  rewrite (sumZ_Permutation _ _ (Permutation_map utxo_amount (next_utxos_perm us b done))).
  rewrite map_app, sumZ_app. fold (total_in (remove_consumed us (pb_inputs b))).
  destruct (_ && _); simpl; unfold utxo_amount; simpl; lia.
Qed.

Lemma remove_consumed_total us ins :
  Forall (fun u => 0 <= utxo_amount u) us -> total_in (remove_consumed us ins) <= total_in us.
Proof. intros H. rewrite List.Forall_forall in H. now apply sumZ_filter_le. Qed.

Lemma funded_step us rs b done :
  funded us rs -> batch_from us rs b ->
  funded (next_utxos us b cs done) (remove_paid rs (pb_payouts b)).
Proof.
  intros [Hu Hr Ht] Hb. pose proof (batch_change_le _ _ _ Hb Hr) as Hc.
  pose proof (bf_change _ _ _ Hb). pose proof (next_utxos_perm us b done) as Hp.
  destruct (bf_prefix _ _ _ Hb) as (n & Hn & Hi). constructor.
  - apply (Permutation_Forall (Permutation_sym Hp)), List.Forall_app. split.
    + rewrite List.Forall_forall in *. intros u (Hin & _)%remove_consumed_In. auto.
    + destruct (_ && _); repeat constructor; done.
  - rewrite List.Forall_forall in *. intros r (Hin & _)%filter_In. auto.
  - rewrite (total_in_split us n) in Ht. rewrite Hi in Hc. rewrite next_utxos_total.
    rewrite Hi, remove_consumed_prefix.
    assert (Forall (fun u => 0 <= utxo_amount u) (skipn n us)) as Hsk
      by (rewrite <- (firstn_skipn n us), List.Forall_app in Hu; tauto).
    pose proof (remove_consumed_total (skipn n us) (firstn n us) Hsk). destruct (_ && _); lia.
Qed.

(** The rule for the loop: an invariant of the step holds when it stops, and
    it stops within one turn per payable recipient. *)
Lemma plan_loop_rule (I : list (TreasuryUtxo Script) -> list (PayoutRecipient Script) ->
                          list (PlannedBatch Script) -> Prop) :
  (forall us rs done b, funded us rs -> I us rs done -> batch_from us rs b ->
     I (next_utxos us b cs done) (remove_paid rs (pb_payouts b)) (done ++ [b])) ->
  forall fuel us rs done, funded us rs -> I us rs done -> (length rs < fuel)%nat ->
  exists us' rs' done', plan_loop limit fuel us rs cs fr done = Some (done', rs') /\ I us' rs' done'.
Proof.
  intros Hstep fuel. induction fuel as [|fuel IH]; intros us rs done Hf HI Hl; [lia|].
  cbn [plan_loop]. destruct rs as [|r rs]; [eauto 6|]. destruct us as [|u us]; [eauto 6|].
  destruct (build_one_batch_spec (u :: us) (r :: rs)) as (o & -> & Hb); try apply Hf.
  run. destruct o as [b|]; [|eauto 6]. specialize (Hb b eq_refl).
  apply IH; [now apply funded_step|now apply Hstep|].
  pose proof (remove_paid_shrinks _ _ _ Hb). lia.
Qed.

(** ** The result of planning *)

Lemma partition_by_floor_filter rs :
  partition_by_floor rs =
  (List.filter (fun r => MIN_PAYOUT_OUTPUT_SOMPI <=? pr_amount_sompi r) rs,
   List.filter (fun r => negb (MIN_PAYOUT_OUTPUT_SOMPI <=? pr_amount_sompi r)) rs).
Proof.
  unfold partition_by_floor.
  enough (forall a d, fold_left (fun '(payable, deferred) r =>
      if MIN_PAYOUT_OUTPUT_SOMPI <=? pr_amount_sompi r
      then (payable ++ [r], deferred) else (payable, deferred ++ [r])) rs (a, d) =
    (a ++ List.filter (fun r => MIN_PAYOUT_OUTPUT_SOMPI <=? pr_amount_sompi r) rs,
     d ++ List.filter (fun r => negb (MIN_PAYOUT_OUTPUT_SOMPI <=? pr_amount_sompi r)) rs)) as H
    by apply (H [] []).
  induction rs as [|r rs IH]; intros a d; simpl; [now rewrite !app_nil_r|].
  destruct (_ <=? _); simpl; rewrite IH, <- app_assoc; done.
Qed.

Lemma partition_perm rs a d : partition_by_floor rs = (a, d) -> Permutation rs (a ++ d).
Proof.
  rewrite partition_by_floor_filter. intros [= <- <-].
  induction rs as [|r rs IH]; simpl; [done|]. destruct (_ <=? _); simpl; [now constructor|].
  etransitivity; [apply perm_skip, IH|apply Permutation_middle].
Qed.

Lemma partition_floor rs a d :
  partition_by_floor rs = (a, d) ->
  Forall (fun r => MIN_PAYOUT_OUTPUT_SOMPI <= pr_amount_sompi r) a /\
  Forall (fun r => pr_amount_sompi r < MIN_PAYOUT_OUTPUT_SOMPI) d.
Proof.
  rewrite partition_by_floor_filter. intros [= <- <-].
  split; apply List.Forall_forall; intros r (_ & Hr)%filter_In; to_prop; lia.
Qed.

Lemma funded_sorted us rs a d :
  funded us rs -> partition_by_floor rs = (a, d) ->
  funded (sort_utxos_desc us) (sort_recipients_desc a).
Proof.
  intros [Hu Hr Ht] Hp. constructor.
  - eapply Permutation_Forall; [apply sort_by_perm|done].
  - eapply Permutation_Forall; [apply sort_by_perm|]. apply partition_perm in Hp.
    apply (Permutation_Forall Hp), List.Forall_app in Hr. tauto.
  - now rewrite total_in_sort.
Qed.

(** The rule lifted to [plan_batches]. *)
Lemma plan_batches_rule (I : list (TreasuryUtxo Script) -> list (PayoutRecipient Script) ->
                             list (PlannedBatch Script) -> Prop) us rs a d :
  funded us rs -> partition_by_floor rs = (a, d) ->
  I (sort_utxos_desc us) (sort_recipients_desc a) [] ->
  (forall us rs done b, funded us rs -> I us rs done -> batch_from us rs b ->
     I (next_utxos us b cs done) (remove_paid rs (pb_payouts b)) (done ++ [b])) ->
  exists us' r, plan_batches limit us rs cs fr = Some r /\
    pl_deferred_below_floor r = d /\ I us' (pl_unpaid r) (pl_batches r).
Proof.
  intros Hf Hp H0 Hstep. unfold plan_batches. rewrite Hp.
  destruct (plan_loop_rule I Hstep (S (length (sort_recipients_desc a))) (sort_utxos_desc us)
              (sort_recipients_desc a) []) as (us' & rs' & done' & -> & HI);
    [eauto using funded_sorted|done|lia|].
  run. eauto.
Qed.

Lemma plan_batches_invariant (I : list (TreasuryUtxo Script) -> list (PayoutRecipient Script) ->
                                  list (PlannedBatch Script) -> Prop) us rs a d r :
  funded us rs -> partition_by_floor rs = (a, d) -> plan_batches limit us rs cs fr = Some r ->
  I (sort_utxos_desc us) (sort_recipients_desc a) [] ->
  (forall us rs done b, funded us rs -> I us rs done -> batch_from us rs b ->
     I (next_utxos us b cs done) (remove_paid rs (pb_payouts b)) (done ++ [b])) ->
  exists us', pl_deferred_below_floor r = d /\ I us' (pl_unpaid r) (pl_batches r).
Proof.
  intros Hf Hp E H0 Hs. destruct (plan_batches_rule I us rs a d Hf Hp H0 Hs) as (us' & r' & E' & Hd & HI).
  assert (r' = r) as -> by congruence. eauto.
Qed.

Lemma remove_paid_In rs ps r :
  In r (remove_paid rs ps) <-> In r rs /\ ~ In (pr_id r) (map pr_id ps).
Proof.
  unfold remove_paid. rewrite filter_In, negb_true_iff, <- not_true_iff_false, existsb_exists.
  setoid_rewrite bool_decide_eq_true. rewrite in_map_iff. firstorder.
Qed.

Lemma batch_payouts_NoDup us rs b :
  batch_from us rs b -> List.NoDup (map pr_id rs) -> List.NoDup (map pr_id (pb_payouts b)).
Proof. intros Hb. destruct (bf_picked _ _ _ Hb) as (sel & _ & Hs & _ & ->). now apply pick_NoDup. Qed.

Lemma remove_paid_perm us rs b :
  batch_from us rs b -> List.NoDup (map pr_id rs) ->
  Permutation rs (pb_payouts b ++ remove_paid rs (pb_payouts b)).
Proof.
  intros Hb Hn. pose proof (batch_payouts_NoDup _ _ _ Hb Hn) as Hp.
  pose proof (fun r => batch_payout_In us rs b r Hb) as Hin.
  apply Permutation.NoDup_Permutation.
  - eapply NoDup_map_inv, Hn.
  - apply List.NoDup_app; [eapply NoDup_map_inv, Hp|eapply List.NoDup_filter, NoDup_map_inv, Hn|].
    intros r Hr [_ Hr']%remove_paid_In. apply Hr', in_map, Hr.
  - intros r. rewrite in_app_iff, remove_paid_In. split; [|intros [?%Hin|[? _]]; done].
    intros Hr. destruct (in_dec (fun x y : string => decide (x = y)) (pr_id r) (map pr_id (pb_payouts b))) as [H|H]; [|auto].
    apply in_map_iff in H as (p & E & Hp'). left.
    now rewrite <- (NoDup_map_inj pr_id rs p r Hn (Hin p Hp') Hr E).
Qed.

(** Planning terminates: with unsigned amounts and a treasury below
    [u64::MAX] sompi, [plan_batches] returns a plan, of at most one transaction
    per recipient, within the one turn per payable recipient its loop is given. *)
Theorem plan_batches_terminates us rs :
  funded us rs ->
  exists r, plan_batches limit us rs cs fr = Some r /\
    (length (pl_batches r) + length (pl_unpaid r) <= length rs)%nat.
Proof.
  intros Hf. destruct (partition_by_floor rs) as [a d] eqn:Hp.
  destruct (plan_batches_rule (fun _ rs' done => length done + length rs' <= length rs)%nat
              us rs a d Hf Hp) as (us' & r & E & _ & HI); [|
    |eauto].
  - simpl. unfold sort_recipients_desc. rewrite sort_by_length.
    apply partition_perm, Permutation_length in Hp. rewrite length_app in Hp. lia.
  - simpl. intros us1 rs1 done b _ HI Hb. pose proof (remove_paid_shrinks _ _ _ Hb).
    rewrite length_app. simpl. lia.
Qed.

Lemma plan_partition us rs r :
  funded us rs -> List.NoDup (map pr_id rs) -> plan_batches limit us rs cs fr = Some r ->
  Permutation rs
    (concat (map pb_payouts (pl_batches r)) ++ pl_unpaid r ++ pl_deferred_below_floor r) /\
  Forall (fun p => MIN_PAYOUT_OUTPUT_SOMPI <= pr_amount_sompi p)
    (concat (map pb_payouts (pl_batches r)) ++ pl_unpaid r) /\
  Forall (fun p => pr_amount_sompi p < MIN_PAYOUT_OUTPUT_SOMPI) (pl_deferred_below_floor r).
Proof.
  intros Hf Hn E. destruct (partition_by_floor rs) as [a d] eqn:Hp.
  pose proof (partition_perm _ _ _ Hp) as Hperm. destruct (partition_floor _ _ _ Hp) as [Ha Hd].
  assert (List.NoDup (map pr_id a)) as Hna.
  { apply (Permutation_NoDup (Permutation_map pr_id Hperm)) in Hn. rewrite map_app in Hn.
    now apply List.NoDup_app_remove_r in Hn. }
  destruct (plan_batches_invariant (fun _ rs' done =>
      List.NoDup (map pr_id rs') /\ Permutation a (concat (map pb_payouts done) ++ rs'))
      us rs a d r Hf Hp E) as (us' & <- & _ & HI).
  - split; [now apply sort_by_NoDup_map|apply sort_by_perm].
  - intros us1 rs1 done b _ [Hn1 HI] Hb. split; [now apply NoDup_map_filter|].
    rewrite map_app, concat_app. simpl. rewrite app_nil_r, <- app_assoc.
    etransitivity; [exact HI|]. apply Permutation_app_head. now apply remove_paid_perm with us1.
  - split; [|split; [|exact Hd]].
    + rewrite app_assoc. etransitivity; [exact Hperm|]. now apply Permutation_app_tail.
    + eapply Permutation_Forall; [exact HI|exact Ha].
Qed.

(** C17. No recipient is lost, paid twice or paid below the floor: for distinct
    recipient ids, the payouts of the batches, the deferred and the unpaid
    recipients together are exactly the requested ones; exactly those below
    0.019 KAS are deferred. *)
Theorem plan_batches_partition us rs r :
  funded us rs -> List.NoDup (map pr_id rs) -> plan_batches limit us rs cs fr = Some r ->
  Permutation rs
    (concat (map pb_payouts (pl_batches r)) ++ pl_unpaid r ++ pl_deferred_below_floor r) /\
  Forall (fun p => MIN_PAYOUT_OUTPUT_SOMPI <= pr_amount_sompi p)
    (concat (map pb_payouts (pl_batches r)) ++ pl_unpaid r) /\
  Forall (fun p => pr_amount_sompi p < MIN_PAYOUT_OUTPUT_SOMPI) (pl_deferred_below_floor r).
Proof. apply plan_partition. Qed.

(** What every emitted batch satisfies, whatever it was drawn from. *)
Record batch_sound (b : PlannedBatch Script) : Prop := {
  bs_nonempty : pb_inputs b <> [] /\ pb_payouts b <> [];
  bs_floor : Forall (fun p => MIN_PAYOUT_OUTPUT_SOMPI <= pr_amount_sompi p) (pb_payouts b);
  bs_count : (length (pb_payouts b) <= length (pb_inputs b) * MAX_OUTPUTS_PER_INPUT)%nat;
  bs_mass : fits_independently (pb_mass b) limit = true;
  bs_fee : exists gross, affordable (pb_inputs b) (pb_payouts b) gross /\
    0 <= pb_change_amount_sompi b /\
    total_out (pb_payouts b) + pb_change_amount_sompi b + reserved_fee fr gross
      <= total_in (pb_inputs b) /\
    (pb_change_amount_sompi b = 0 \/
     pb_mass b = gross /\
     total_out (pb_payouts b) + pb_change_amount_sompi b + reserved_fee fr gross
       = total_in (pb_inputs b));
  bs_not_dust : reserves_fee fr = true -> pb_change_amount_sompi b = 0 \/
    is_change_dust (pb_change_amount_sompi b) cs = false
}.

Lemma batch_from_sound us rs b :
  Forall (fun p => MIN_PAYOUT_OUTPUT_SOMPI <= pr_amount_sompi p) rs ->
  batch_from us rs b -> batch_sound b.
Proof.
  intros Hr Hb. pose proof Hb as [(n & Hn & Hi) _ Hc Hch Hm (g & Hg & Hle & Hor) Hd].
  constructor; eauto.
  - split; [|eapply batch_payouts_nonempty, Hb]. rewrite Hi. destruct us, n; simpl in *; try lia; done.
  - rewrite List.Forall_forall in *. intros p Hp. eapply Hr, batch_payout_In; eauto.
Qed.

Lemma plan_sound us rs r :
  funded us rs -> plan_batches limit us rs cs fr = Some r ->
  Forall batch_sound (pl_batches r).
Proof.
  intros Hf E. destruct (partition_by_floor rs) as [a d] eqn:Hp.
  destruct (partition_floor _ _ _ Hp) as [Ha _].
  destruct (plan_batches_invariant (fun _ rs' done =>
      Forall (fun p => MIN_PAYOUT_OUTPUT_SOMPI <= pr_amount_sompi p) rs' /\ Forall batch_sound done)
      us rs a d r Hf Hp E) as (us' & _ & _ & HI); [| |exact HI].
  - split; [eapply Permutation_Forall; [apply sort_by_perm|exact Ha]|constructor].
  - intros us1 rs1 done b _ [Hr HI] Hb. split.
    + rewrite List.Forall_forall in *. intros p [Hin _]%remove_paid_In. auto.
    + apply List.Forall_app. split; [done|].
      apply List.Forall_cons; [eapply batch_from_sound; eauto|constructor].
Qed.

(** C18. Every planned transaction can be broadcast as far as the planner can
    see: it pays someone, each payout is at least the floor, at most ten
    outputs per input, each of its three masses is within the limit, inputs
    cover payouts, change and the fee reserved for the measured shape, all of
    the surplus is change unless the change was dropped, and a kept change is
    not dust. *)
Theorem plan_batches_sound us rs r :
  funded us rs -> plan_batches limit us rs cs fr = Some r ->
  Forall batch_sound (pl_batches r).
Proof. apply plan_sound. Qed.

(** ** Coins *)

(** [u] is the change of batch [i] of [done], a planning-only coin. *)
Definition change_of (done : list (PlannedBatch Script)) (i : nat) (u : TreasuryUtxo Script) : Prop :=
  exists b, done !! i = Some b /\ 0 < pb_change_amount_sompi b /\
    u = planning_change_utxo (Z.of_nat i) (pb_change_amount_sompi b) cs.

Record spends (us0 us : list (TreasuryUtxo Script)) (done : list (PlannedBatch Script)) : Prop := {
  sp_once : List.NoDup (map tu_outpoint (concat (map pb_inputs done) ++ us));
  sp_left : forall u, In u us -> In u us0 \/ exists i, change_of done i u;
  sp_spent : forall j b u, done !! j = Some b -> In u (pb_inputs b) ->
    In u us0 \/ exists i, (i < j)%nat /\ change_of done i u
}.

Lemma NoDup_map_snoc_if {A B} (f : A -> B) (c : bool) l x :
  List.NoDup (map f l) -> (forall y, In y l -> f y <> f x) ->
  List.NoDup (map f (l ++ if c then [x] else [])).
Proof.
  intros Hl Hx. destruct c; [|now rewrite app_nil_r]. rewrite map_app. apply NoDup_app_snoc; [done|].
  intros (y & E & Hy)%in_map_iff. now apply (Hx y).
Qed.

Lemma change_of_snoc done b i u : change_of done i u -> change_of (done ++ [b]) i u.
Proof.
  intros (b' & Hi & Hc). exists b'. split; [|exact Hc]. now apply lookup_app_l_Some.
Qed.

Lemma change_of_lt done i u : change_of done i u -> (i < length done)%nat.
Proof. intros (b & Hi & _). eapply lookup_lt_Some, Hi. Qed.

Lemma next_utxos_In us b done u :
  In u (next_utxos us b cs done) ->
  In u (remove_consumed us (pb_inputs b)) \/ change_of (done ++ [b]) (length done) u.
Proof.
  intros H%(Permutation_in _ (next_utxos_perm us b done)). apply in_app_iff in H as [H|H]; [auto|].
  destruct (_ && _) eqn:D; [|done]. to_prop. destruct H as [<-|[]]. right. exists b.
  rewrite lookup_app_r, Nat.sub_diag by lia. auto.
Qed.

Lemma spends_fresh us0 us done :
  Forall (fun u => is_planning_virtual u = false) us0 -> spends us0 us done ->
  forall u, In u (concat (map pb_inputs done) ++ us) ->
  tu_outpoint u <> mkOutpoint PLANNING_VIRTUAL_TXID_BYTES (Z.of_nat (length done)).
Proof.
  intros Hv [_ Hl Hs] u Hu E.
  assert (In u us0 \/ exists i, change_of done i u) as [Hin|(i & Hi)].
  - apply in_app_iff in Hu as [Hu|Hu]; [|auto].
    apply in_concat in Hu as (l & (b & <- & Hb)%in_map_iff & Hu).
    apply list_elem_of_In, list_elem_of_lookup in Hb as [j Hj].
    destruct (Hs j b u Hj Hu) as [?|(i & _ & ?)]; eauto.
  - rewrite List.Forall_forall in Hv. specialize (Hv u Hin). unfold is_planning_virtual in Hv.
    rewrite E in Hv. now rewrite bool_decide_eq_true_2 in Hv.
  - pose proof (change_of_lt _ _ _ Hi). destruct Hi as (b & _ & _ & ->). simpl in E.
    injection E as E. lia.
Qed.

Lemma spends_step us0 us rs done b :
  Forall (fun u => is_planning_virtual u = false) us0 -> spends us0 us done ->
  batch_from us rs b -> spends us0 (next_utxos us b cs done) (done ++ [b]).
Proof.
  intros Hv Hsp Hb. pose proof (spends_fresh _ _ _ Hv Hsp) as Hfresh. destruct Hsp as [Hn Hl Hs].
  destruct (bf_prefix _ _ _ Hb) as (n & _ & Hi).
  assert (forall u, In u (pb_inputs b) -> In u us) as Hin by (rewrite Hi; intros u; apply In_firstn).
  constructor.
  - apply (Permutation_NoDup (l := map tu_outpoint
      ((concat (map pb_inputs done) ++ pb_inputs b ++ remove_consumed us (pb_inputs b)) ++
       if (0 <? pb_change_amount_sompi b) && (Z.of_nat (length done) <=? u32_max)
       then [planning_change_utxo (Z.of_nat (length done)) (pb_change_amount_sompi b) cs] else []))).
    + apply Permutation_map. rewrite map_app, concat_app. simpl. rewrite app_nil_r, <- !app_assoc.
      do 2 apply Permutation_app_head. symmetry. apply next_utxos_perm.
    + apply NoDup_map_snoc_if.
      * rewrite Hi, remove_consumed_prefix, app_assoc. apply NoDup_map_app_filter.
        now rewrite <- app_assoc, firstn_skipn.
      * intros u Hu. apply Hfresh. rewrite !in_app_iff in *.
        destruct Hu as [Hu|[Hu|(Hu & _)%remove_consumed_In]]; auto.
  - intros u [Hu|Hu]%next_utxos_In; [|eauto]. apply remove_consumed_In in Hu as [Hu _].
    destruct (Hl u Hu) as [?|(i & ?)]; eauto using change_of_snoc.
  - intros j b' u Hj Hu. apply lookup_app_Some in Hj as [Hj|[Hge Hj]].
    + destruct (Hs j b' u Hj Hu) as [?|(i & Hlt & ?)]; eauto 6 using change_of_snoc.
    + apply list_lookup_singleton_Some in Hj as [Hz <-].
      destruct (Hl u (Hin u Hu)) as [?|(i & Hc)]; [auto|]. right. exists i.
      pose proof (change_of_lt _ _ _ Hc). split; [lia|]. now apply change_of_snoc.
Qed.

(** A plan spends every coin at most once, and only coins it may: an input
    of batch [j] is a coin of the treasury or the recorded change, at its exact
    amount, of a batch planned before [j].  (Assumes distinct outpoints, none of
    them the planning sentinel.) *)
Theorem plan_batches_no_double_spend us rs r :
  funded us rs -> List.NoDup (map tu_outpoint us) ->
  Forall (fun u => is_planning_virtual u = false) us ->
  plan_batches limit us rs cs fr = Some r ->
  List.NoDup (map tu_outpoint (concat (map pb_inputs (pl_batches r)))) /\
  forall j b u, pl_batches r !! j = Some b -> In u (pb_inputs b) ->
    In u us \/ exists i, (i < j)%nat /\ change_of (pl_batches r) i u.
Proof.
  intros Hf Hn Hv E. destruct (partition_by_floor rs) as [a d] eqn:Hp.
  destruct (plan_batches_invariant (fun us' _ done => spends us us' done) us rs a d r Hf Hp E)
    as (us' & _ & [Ho _ Hs]).
  - constructor; simpl; [now apply sort_by_NoDup_map| |done]. intros u Hu%sort_by_In. auto.
  - intros us1 rs1 done b _ HI Hb. eapply spends_step; eauto.
  - split; [|exact Hs]. rewrite map_app in Ho. now apply List.NoDup_app_remove_r in Ho.
Qed.

(** Whatever the outpoints, an input is a given coin or a planning-only one. *)
Lemma plan_inputs_origin us rs r b u :
  funded us rs -> plan_batches limit us rs cs fr = Some r -> In b (pl_batches r) ->
  In u (pb_inputs b) -> In u us \/ is_planning_virtual u = true.
Proof.
  intros Hf E. destruct (partition_by_floor rs) as [a d] eqn:Hp. revert b u.
  destruct (plan_batches_invariant (fun us' _ done =>
      (forall u, In u us' -> In u us \/ is_planning_virtual u = true) /\
      forall b u, In b done -> In u (pb_inputs b) -> In u us \/ is_planning_virtual u = true)
      us rs a d r Hf Hp E) as (us' & _ & _ & HI); [| |exact HI].
  - split; [|done]. intros u Hu%sort_by_In. auto.
  - intros us1 rs1 done b _ [Hl HI] Hb. destruct (bf_prefix _ _ _ Hb) as (n & _ & Hi). split.
    + intros u [[Hu _]%remove_consumed_In|(b' & _ & _ & ->)]%next_utxos_In; [auto|].
      right. now apply bool_decide_eq_true.
    + intros b' u [Hb'|[<-|[]]]%in_app_iff Hu; [eauto|]. rewrite Hi in Hu. apply Hl. eapply In_firstn, Hu.
Qed.

(** ** The largest coin bounds every payout *)

Lemma greedy_loop_none ins isum rs mo rest : forall sel idx,
  isum < u64_max -> Forall (fun r => isum < pr_amount_sompi r) rest ->
  Forall (fun r => 0 <= pr_amount_sompi r) rs -> sel = [] ->
  greedy_loop limit ins isum rs cs fr mo sel idx rest = Some [].
Proof.
  induction rest as [|r rest IH]; intros sel idx Hi Hrest Hrs ->; [done|]. cbn [greedy_loop].
  destruct (mo <=? _)%nat; [done|]. inversion_clear Hrest as [|? ? Hr Hrest'].
  unfold greedy_step. run. change (sum_amounts (pick rs [])) with (Some 0). run.
  destruct (Z.ltb_spec isum (sat_u64 (0 + pr_amount_sompi r))) as [|L]; [run; now apply IH|].
  unfold sat_u64 in L. lia.
Qed.

(** The planner never combines coins for a payout it cannot make from one:
    when every recipient asks for more than the largest coin, [build_one_batch]
    stops at one input, so nothing is planned and everyone stays unpaid,
    however much the treasury holds in total.  The loop's "widen inputs" steps
    are not reached, because an empty selection is returned as [None]. *)
Theorem payout_over_largest_coin_unpaid us rs r :
  funded us rs -> plan_batches limit us rs cs fr = Some r ->
  (forall u p, In u us -> In p rs -> MIN_PAYOUT_OUTPUT_SOMPI <= pr_amount_sompi p ->
     utxo_amount u < pr_amount_sompi p) ->
  pl_batches r = [] /\
  Permutation rs (pl_unpaid r ++ pl_deferred_below_floor r).
Proof.
  intros Hf E Hbig. pose proof Hf as [Hu Hr Ht]. unfold plan_batches in E.
  destruct (partition_by_floor rs) as [a d] eqn:Hp.
  pose proof (partition_perm _ _ _ Hp) as Hperm. destruct (partition_floor _ _ _ Hp) as [Ha _].
  pose proof (funded_sorted _ _ _ _ Hf Hp) as [Hsu Hsr Hst].
  assert (Forall (fun p => forall u, In u (sort_utxos_desc us) -> utxo_amount u < pr_amount_sompi p)
            (sort_recipients_desc a)) as Hbig'.
  { apply List.Forall_forall. intros p Hpa%sort_by_In u Huu%sort_by_In. apply Hbig; [done| |].
    - apply (Permutation_in _ (Permutation_sym Hperm)), in_app_iff. auto.
    - rewrite List.Forall_forall in Ha. auto. }
  assert (plan_loop limit (S (length (sort_recipients_desc a))) (sort_utxos_desc us)
            (sort_recipients_desc a) cs fr [] = Some ([], sort_recipients_desc a)) as Hl.
  { cbn [plan_loop]. destruct (sort_recipients_desc a) as [|p ps]; [done|].
    destruct (sort_utxos_desc us) as [|u us']; [done|].
    unfold build_one_batch. cbn [build_from length Nat.ltb Nat.leb].
    rewrite (sum_inputs_firstn (u :: us') 1) by done. run. unfold greedy_recipients_for_inputs.
    rewrite greedy_loop_none; [done| | |done|done].
    - pose proof (total_in_firstn (u :: us') 1 Hsu). unfold total_in in *. lia.
    - eapply List.Forall_impl; [|exact Hbig']. cbv beta. intros q Hq. simpl.
      specialize (Hq u (or_introl eq_refl)). lia. }
  rewrite Hl in E. revert E. run. intros [= <-]. split; [done|]. simpl.
  etransitivity; [exact Hperm|]. apply Permutation_app_tail, sort_by_perm.
Qed.
End Batch.

(** ** A concrete calculator

    One sompi-weighted output charges [10^12 / value] of storage mass, as KIP-9
    does for a transaction whose inputs are large. *)
#[export] Instance sample_calculator : MassCalculator nat := {|
  calc_non_contextual_masses tx :=
    (1000 + 1000 * Z.of_nat (length (tx_inputs tx)) + 300 * Z.of_nat (length (tx_outputs tx)),
     400 * Z.of_nat (length (tx_inputs tx) + length (tx_outputs tx)));
  calc_contextual_masses tx _ :=
    if forallb (fun o => 0 <? to_value o) (tx_outputs tx)
    then Some (sumZ (map (fun o => 10 ^ 12 / to_value o) (tx_outputs tx))) else None;
  output_serialized_size _ := 52
|}.

Definition sample_coin (i v : Z) : TreasuryUtxo nat :=
  mkTreasuryUtxo (mkOutpoint (repeat 7 32) i) (mkUtxoEntry v 0%nat 5 true None).
Definition sample_recipient (name : string) (v : Z) : PayoutRecipient nat :=
  mkPayoutRecipient name v 1%nat.
Definition sample_coins : list (TreasuryUtxo nat) :=
  [sample_coin 0 300000000; sample_coin 1 10000000000].
Definition sample_recipients : list (PayoutRecipient nat) :=
  [sample_recipient "a" 5000000000; sample_recipient "b" 1000000;
   sample_recipient "c" 200000000; sample_recipient "d" 9000000000].
Definition sample_rate : FeeRate := from_feerate f64_zero.

Definition plan_view (r : PlanBatchesResult nat) :=
  (map (fun b => (map utxo_amount (pb_inputs b), map pr_id (pb_payouts b),
                  pb_change_amount_sompi b)) (pl_batches r),
   map pr_id (pl_deferred_below_floor r), map pr_id (pl_unpaid r)).

Example sample_plan :
  option_map plan_view (plan_batches 500000 sample_coins sample_recipients 0%nat sample_rate)
  = Some ([([10000000000], ["d"; "c"], 799710000)], ["b"], ["a"])%string.
Proof. vm_compute. reflexivity. Qed.

Lemma sample_funded : funded sample_coins sample_recipients.
Proof. repeat constructor; vm_compute; discriminate. Qed.

Lemma plan_batches_terminates_witness :
  exists r, plan_batches 500000 sample_coins sample_recipients 0%nat sample_rate = Some r /\
    (length (pl_batches r) + length (pl_unpaid r) <= 4)%nat.
Proof.
  apply (plan_batches_terminates 500000 0%nat sample_rate ltac:(vm_compute; discriminate)
           sample_coins sample_recipients sample_funded).
Defined.

Definition sample_result : PlanBatchesResult nat :=
  default (mkPlanBatchesResult [] [] [])
    (plan_batches 500000 sample_coins sample_recipients 0%nat sample_rate).

Lemma sample_result_ok :
  plan_batches 500000 sample_coins sample_recipients 0%nat sample_rate = Some sample_result.
Proof. vm_compute. reflexivity. Qed.

Lemma plan_batches_partition_witness :
  Permutation sample_recipients
    (concat (map pb_payouts (pl_batches sample_result)) ++ pl_unpaid sample_result ++
     pl_deferred_below_floor sample_result).
Proof.
  apply (plan_batches_partition 500000 0%nat sample_rate ltac:(vm_compute; discriminate)
           sample_coins sample_recipients sample_result sample_funded);
    [|exact sample_result_ok].
  repeat constructor; simpl; intuition discriminate.
Defined.

Lemma plan_batches_sound_witness :
  Forall (batch_sound 500000 0%nat sample_rate) (pl_batches sample_result).
Proof.
  apply (plan_batches_sound 500000 0%nat sample_rate ltac:(vm_compute; discriminate)
           sample_coins sample_recipients sample_result sample_funded sample_result_ok).
Defined.

Lemma plan_batches_no_double_spend_witness :
  List.NoDup (map tu_outpoint (concat (map pb_inputs (pl_batches sample_result)))).
Proof.
  apply (plan_batches_no_double_spend 500000 0%nat sample_rate ltac:(vm_compute; discriminate)
           sample_coins sample_recipients sample_result sample_funded); [| |exact sample_result_ok].
  - repeat constructor; simpl; intuition discriminate.
  - repeat constructor.
Defined.

(** Two coins of 50 KAS never pay 80 KAS. *)
Definition two_coins : list (TreasuryUtxo nat) := [sample_coin 0 5000000000; sample_coin 1 5000000000].

Lemma payout_over_largest_coin_unpaid_witness :
  pl_batches (mkPlanBatchesResult (Script := nat) [] [] [sample_recipient "a" 8000000000]) = [] /\
  total_in two_coins = 10000000000.
Proof.
  split; [|reflexivity].
  apply (payout_over_largest_coin_unpaid 500000 0%nat sample_rate
           two_coins [sample_recipient "a" 8000000000]).
  - repeat constructor; vm_compute; discriminate.
  - vm_compute. reflexivity.
  - intros u p [<-|[<-|[]]] [<-|[]] _; reflexivity.
Defined.

(** Reserving the fee from the change can push a batch over the mass limit:
    the recorded mass is that of the shape before the fee was taken, and with a
    calculator that charges small outputs more, as KIP-9 does, the transaction
    the batch describes no longer fits although its recorded mass does. *)
Theorem reserved_fee_can_exceed_mass_limit :
  exists b, option_map pl_batches
      (plan_batches 500000 [sample_coin 0 5002200000] [sample_recipient "a" 5000000000] 0%nat
         sample_rate) = Some [b] /\
    fits_independently (pb_mass b) 500000 = true /\
    evaluate_shape 500000 (pb_inputs b) (pb_payouts b) 0%nat (pb_change_amount_sompi b) = None.
Proof. eexists. split; [vm_compute; reflexivity|]. split; vm_compute; reflexivity. Qed.
