(* ===== verification/ConsolidationSpec.v ===== *)
(** * What the consolidation planner guarantees

    [max_inputs_that_fit] is the linear maximum whenever a shorter prefix fits
    whenever a longer one does, and [plan_consolidation] merges disjoint runs of
    real coins into transactions the mempool's mass limit admits. *)
From S2P Require Import Prelude F64 StorageMass StorageMassSpec.

Section Search.
Context {Script : Type} `{MC : MassCalculator Script} (ts : Script).
Implicit Types us : list (TreasuryUtxo Script).

(** The coins are unsigned amounts that sum below [u64::MAX]. *)
Definition summable us : Prop :=
  Forall (fun u => 0 <= utxo_amount u) us /\ total_in us < u64_max.

Definition fits us (n : nat) : bool :=
  match fits_prefix us ts n with Some (Some _) => true | _ => false end.

(** The reference: try every count from [n] down. *)
Fixpoint largest_fit us (n : nat) : nat :=
  match n with
  | O => O
  | S m => if fits us n then n else largest_fit us m
  end.

(** The evaluator's documented monotonicity (consolidation.rs, on
    [max_inputs_that_fit]): removing inputs from a self-send never makes it
    too heavy. *)
Definition mass_monotone us : Prop :=
  forall m n, (1 <= m <= n)%nat -> (n <= length us)%nat -> fits us n = true -> fits us m = true.

Lemma fits_prefix_total us n :
  summable us -> exists o, fits_prefix us ts n = Some o /\ (fits us n = true <-> o <> None).
Proof.
  intros [Hu Ht]. unfold fits, fits_prefix. destruct (_ <? _)%nat.
  - exists None. split; [done|]. split; done.
  - rewrite sum_inputs_firstn by done. run. eexists. split; [done|].
    destruct (evaluate_self_send _ _ _); done.
Qed.

Lemma largest_fit_le us n : (largest_fit us n <= n)%nat.
Proof. induction n as [|n IH]; cbn [largest_fit]; [lia|]. destruct (fits us (S n)); lia. Qed.

(** A count that fits while none above it does is the reference's answer. *)
Lemma largest_fit_unique us lo n :
  (1 <= lo <= n)%nat -> fits us lo = true ->
  (forall m, (lo < m <= n)%nat -> fits us m = false) -> largest_fit us n = lo.
Proof.
  induction n as [|n IH]; intros Hlo Hf Hno; [lia|]. cbn [largest_fit].
  destruct (Nat.eq_dec lo (S n)) as [->|]; [now rewrite Hf|].
  rewrite (Hno (S n)) by lia. apply IH; auto; [lia|]. intros m Hm. apply Hno. lia.
Qed.

Lemma search_loop_spec us bound : summable us -> mass_monotone us -> (bound <= length us)%nat ->
  forall fuel lo hi, (1 <= lo <= hi)%nat -> (hi <= bound)%nat -> (hi - lo < fuel)%nat ->
  fits us lo = true -> (forall m, (hi < m <= bound)%nat -> fits us m = false) ->
  search_loop fuel us ts lo hi = Some (largest_fit us bound).
Proof.
  intros Hs Hm Hb fuel. induction fuel as [|fuel IH]; intros lo hi Hlo Hhi Hfuel Hf Hno; [lia|].
  cbn [search_loop]. destruct (Nat.ltb_spec lo hi) as [L|L].
  - set (mid := (lo + _)%nat).
    assert (lo < mid <= hi)%nat.
    { unfold mid. pose proof (Nat.div_mod_eq (hi - lo) 2). pose proof (Nat.mod_upper_bound (hi - lo) 2). lia. }
    destruct (fits_prefix_total us mid Hs) as (o & -> & Ho). run. destruct o as [m|].
    + apply IH; auto; try lia. now apply Ho.
    + assert (fits us mid = false) as Hmid.
      { apply not_true_is_false. intros H1. now apply Ho in H1. }
      apply IH; auto; try lia. intros m Hr. apply not_true_is_false. intros Hfm.
      destruct (Nat.le_gt_cases m hi); [|rewrite Hno in Hfm by lia; discriminate].
      rewrite (Hm mid m) in Hmid; [discriminate| | |done]; lia.
  - f_equal. symmetry. apply largest_fit_unique; auto; [lia|]. intros m Hr. apply Hno. lia.
Qed.

(** C20. The binary search for the input ceiling computes the same count as
    trying every prefix from the longest down, for every set of coins whose
    self-send mass is monotone in the number of inputs. *)
Theorem max_inputs_that_fit_is_linear us k :
  summable us -> mass_monotone us ->
  max_inputs_that_fit us ts k = Some (largest_fit us (Nat.min k (length us))).
Proof.
  intros Hs Hm. unfold max_inputs_that_fit. set (hb := Nat.min k (length us)).
  destruct (Nat.eqb_spec hb 0) as [->|Hne]; [done|].
  destruct (fits_prefix_total us 1 Hs) as (o & -> & Ho). run. destruct o as [m|].
  - apply search_loop_spec; auto; try lia. now apply Ho.
  - assert (fits us 1 = false) as H1 by (apply not_true_is_false; intros H; now apply Ho in H).
    f_equal. assert (forall n, (n <= length us)%nat -> largest_fit us n = 0%nat) as H0.
    { induction n as [|n IH]; intros Hn; [done|]. cbn [largest_fit].
      destruct (fits us (S n)) eqn:E; [|apply IH; lia].
      rewrite (Hm 1%nat (S n)) in H1; [discriminate| | |done]; lia. }
    symmetry. apply H0. lia.
Qed.

(** Without monotonicity the search still returns, and never above the bound. *)
Lemma search_loop_total us : summable us -> forall fuel lo hi,
  (1 <= lo <= hi)%nat -> (hi - lo < fuel)%nat ->
  exists n, search_loop fuel us ts lo hi = Some n /\ (lo <= n <= hi)%nat.
Proof.
  intros Hs fuel. induction fuel as [|fuel IH]; intros lo hi Hlo Hfuel; [lia|].
  cbn [search_loop]. destruct (Nat.ltb_spec lo hi) as [L|L]; [|exists lo; split; [done|lia]].
  set (mid := (lo + _)%nat).
  assert (lo < mid <= hi)%nat.
  { unfold mid. pose proof (Nat.div_mod_eq (hi - lo) 2). pose proof (Nat.mod_upper_bound (hi - lo) 2). lia. }
  destruct (fits_prefix_total us mid Hs) as ([m|] & -> & _); run.
  - destruct (IH mid hi) as (n & -> & ?); [lia|lia|]. exists n. split; [done|lia].
  - destruct (IH lo (mid - 1)%nat) as (n & -> & ?); [lia|lia|]. exists n. split; [done|lia].
Qed.

Lemma max_inputs_total us k :
  summable us -> exists n, max_inputs_that_fit us ts k = Some n /\ (n <= k)%nat.
Proof.
  intros Hs. unfold max_inputs_that_fit. destruct (Nat.eqb_spec (Nat.min k (length us)) 0);
    [eexists; split; [done|lia]|].
  destruct (fits_prefix_total us 1 Hs) as ([m|] & -> & _); run; [|eexists; split; [done|lia]].
  destruct (search_loop_total us Hs (Nat.min k (length us)) 1 (Nat.min k (length us)))
    as (n' & -> & ?); [lia|lia|]. eexists. split; [done|lia].
Qed.
End Search.

(** ** Chunks *)

Lemma chunks_from_concat {A} n : forall fuel (l : list A),
  (0 < n)%nat -> (length l <= fuel)%nat -> concat (chunks_from fuel n l) = l.
Proof.
  induction fuel as [|fuel IH]; intros [|x l] Hn Hl; try done; [simpl in Hl; lia|].
  cbn [chunks_from concat]. rewrite IH; [apply firstn_skipn|done|].
  rewrite length_skipn. simpl in *. lia.
Qed.

Lemma chunks_concat {A} n (l : list A) : (0 < n)%nat -> concat (chunks n l) = l.
Proof. intros. now apply chunks_from_concat. Qed.

Lemma chunks_length {A} n (l : list A) : Forall (fun c => length c <= n)%nat (chunks n l).
Proof.
  unfold chunks. generalize (length l) at 1. intros fuel. revert l.
  induction fuel as [|fuel IH]; intros [|x l]; constructor; auto. rewrite length_firstn. lia.
Qed.

Section Consolidate.
Context {Script : Type} `{MC : MassCalculator Script} (ts : Script) (fr : FeeRate).
Implicit Types us : list (TreasuryUtxo Script).

(** A consolidation batch over the coins [c]. *)
Record self_send (cap : nat) (b : PlannedBatch Script) : Prop := {
  ss_count : (MIN_CONSOLIDATION_INPUTS <= length (pb_inputs b) <= cap)%nat;
  ss_payouts : pb_payouts b = [];
  ss_change : pb_change_amount_sompi b = total_in (pb_inputs b);
  ss_mass : evaluate_self_send (pb_inputs b) ts (total_in (pb_inputs b)) = Some (pb_mass b);
  ss_limit : fits_independently (pb_mass b) MAX_STANDARD_TX_MASS = true;
  ss_fee : reserves_fee fr = true -> fee_for fr (pb_mass b) < total_in (pb_inputs b)
}.

Lemma self_send_fits c v m :
  evaluate_self_send c ts v = Some m -> fits_independently m MAX_STANDARD_TX_MASS = true.
Proof.
  unfold evaluate_self_send, evaluate_within. destruct (build_populated _ _ _ _).
  destruct (evaluate_populated _ _); [|done]. destruct (fits_independently _ _) eqn:E; [|done].
  now intros [= <-].
Qed.

Lemma summable_app us1 us2 : summable (us1 ++ us2) -> summable us1 /\ summable us2.
Proof.
  intros [[H1 H2]%List.Forall_app Ht]. rewrite total_in_app in Ht.
  assert (forall us, Forall (fun u => 0 <= utxo_amount u) us -> 0 <= total_in us) as nonneg
    by (intros us Hu; apply sumZ_nonneg; now rewrite List.Forall_map).
  pose proof (nonneg us1 H1). pose proof (nonneg us2 H2). split; split; auto; lia.
Qed.

Lemma summable_sum us : summable us -> sum_inputs us = Some (total_in us).
Proof. intros [Hu Ht]. rewrite <- (firstn_all us) at 1. rewrite sum_inputs_firstn, firstn_all; done. Qed.

Lemma consolidate_loop_spec cap max_txs : forall cs done,
  summable (concat cs) -> Forall (fun c => length c <= cap)%nat cs ->
  Forall (self_send cap) done -> (length done <= max_txs)%nat ->
  exists bs, consolidate_loop cs ts fr max_txs done = Some bs /\ Forall (self_send cap) bs /\
    (length bs <= max_txs)%nat /\
    exists new, bs = done ++ new /\ sublist (concat (map pb_inputs new)) (concat cs).
Proof.
  induction cs as [|c cs IH]; intros done Hs Hc Hd Hl; cbn [consolidate_loop].
  { exists done. repeat split; auto. exists []. now rewrite app_nil_r. }
  assert (forall P, P done -> exists bs, Some done = Some bs /\ P bs) as stop by eauto.
  inversion_clear Hc as [|? ? Hcc Hcs]. destruct (summable_app c (concat cs) Hs) as [Hsc Hs'].
  destruct (Nat.leb_spec max_txs (length done)) as [L|L].
  { apply stop. repeat split; auto. exists []. rewrite app_nil_r. split; [done|apply sublist_nil_l]. }
  destruct (Nat.ltb_spec (length c) MIN_CONSOLIDATION_INPUTS) as [L2|L2].
  { apply stop. repeat split; auto. exists []. rewrite app_nil_r. split; [done|apply sublist_nil_l]. }
  rewrite summable_sum by done. run.
  assert (exists bs, consolidate_loop cs ts fr max_txs done = Some bs /\ Forall (self_send cap) bs /\
    (length bs <= max_txs)%nat /\
    exists new, bs = done ++ new /\ sublist (concat (map pb_inputs new)) (c ++ concat cs)) as skip.
  { destruct (IH done) as (bs & -> & ? & ? & new & ? & ?); auto. exists bs. repeat split; auto.
    exists new. split; [done|]. now apply sublist_inserts_l. }
  destruct (evaluate_self_send c ts (total_in c)) as [m|] eqn:E; [|exact skip].
  destruct (_ && _) eqn:G; [exact skip|].
  destruct (IH (done ++ [mkPlannedBatch c [] (total_in c) m])) as (bs & -> & ? & ? & new & -> & Hsub); auto.
  - apply List.Forall_app. split; [done|]. apply List.Forall_cons; [|constructor].
    constructor; simpl; eauto using self_send_fits. intros Hr. rewrite Hr in G. simpl in G. to_prop. done.
  - rewrite length_app. simpl. lia.
  - eexists. repeat split; eauto. eexists. rewrite <- app_assoc. split; [done|].
    simpl. now apply sublist_app.
Qed.

Lemma summable_filter p us : summable us -> summable (List.filter p us).
Proof.
  intros [Hu Ht]. rewrite List.Forall_forall in Hu. split.
  - apply List.Forall_forall. intros u [Hin _]%filter_In. auto.
  - pose proof (sumZ_filter_le utxo_amount p us Hu). unfold total_in in *. lia.
Qed.

Lemma summable_perm us us' : Permutation us us' -> summable us -> summable us'.
Proof.
  intros Hp [Hu Ht]. split; [now apply (Permutation_Forall Hp)|].
  unfold total_in in *. now rewrite <- (sumZ_Permutation _ _ (Permutation_map utxo_amount Hp)).
Qed.

Lemma plan_consolidation_ok us k max_txs :
  summable us ->
  exists bs, plan_consolidation us ts fr k max_txs = Some bs /\
    (length bs <= max_txs)%nat /\ Forall (self_send k) bs /\
    sublist (concat (map pb_inputs bs))
      (sort_utxos_asc (List.filter (fun u => negb (is_planning_virtual u)) us)).
Proof.
  intros Hs. unfold plan_consolidation. set (real := List.filter _ us).
  assert (exists bs : list (PlannedBatch Script), Some [] = Some bs /\
    (length bs <= max_txs)%nat /\ Forall (self_send k) bs /\
    sublist (concat (map pb_inputs bs)) (sort_utxos_asc real)) as none.
  { exists []. simpl. repeat split; [lia|constructor|apply sublist_nil_l]. }
  destruct (_ || _); [exact none|].
  assert (summable (sort_utxos_asc real)) as Hr
    by (eapply summable_perm; [apply sort_by_perm|now apply summable_filter]).
  destruct (max_inputs_total ts (sort_utxos_asc real) k Hr) as (cap & -> & Hk). run.
  destruct (Nat.ltb_spec cap MIN_CONSOLIDATION_INPUTS) as [|L]; [exact none|].
  unfold MIN_CONSOLIDATION_INPUTS in L.
  pose proof (chunks_concat cap (sort_utxos_asc real) ltac:(lia)) as Hc.
  destruct (consolidate_loop_spec cap max_txs (chunks cap (sort_utxos_asc real)) [])
    as (bs & -> & Hb & Hl & new & E & Hsub); [now rewrite Hc|apply chunks_length|constructor|simpl; lia|].
  simpl in E. subst new. exists bs. rewrite Hc in Hsub. repeat split; auto.
  eapply List.Forall_impl; [|exact Hb]. intros b [[H1 H2] ? ? ? ? ?]. constructor; auto; lia.
Qed.

(** Consolidation always returns, and merges real coins only: at most
    [max_txs] transactions, each of two up to [max_inputs_per_tx] inputs with no
    payout, the whole input sum as its output and every mass within the mempool
    limit; together they take, smallest coins first, each coin at most once. *)
Theorem plan_consolidation_sound us k max_txs :
  summable us ->
  exists bs, plan_consolidation us ts fr k max_txs = Some bs /\
    (length bs <= max_txs)%nat /\ Forall (self_send k) bs /\
    sublist (concat (map pb_inputs bs))
      (sort_utxos_asc (List.filter (fun u => negb (is_planning_virtual u)) us)).
Proof. apply plan_consolidation_ok. Qed.
End Consolidate.

(** ** Witnesses *)

Definition ten_coins : list (TreasuryUtxo nat) :=
  map (fun i => sample_coin (Z.of_nat i) 390000000) (seq 0 10).

(** With [400 * (n + 1)] transient and [1000 + 1000 n + 300] compute mass, 98
    inputs are the ceiling; ten coins all fit. *)
Lemma max_inputs_that_fit_is_linear_witness :
  max_inputs_that_fit ten_coins 0%nat 50 = Some (largest_fit 0%nat ten_coins 10) /\
  largest_fit 0%nat ten_coins 10 = 10%nat.
Proof.
  split; [|vm_compute; reflexivity].
  apply (max_inputs_that_fit_is_linear 0%nat ten_coins 50).
  - split; [repeat constructor; vm_compute; discriminate|reflexivity].
  - intros m n Hm Hn _. change (length ten_coins) with 10%nat in Hn.
    do 11 (destruct m as [|m]; [try lia; vm_compute; reflexivity|]). lia.
Defined.

Lemma plan_consolidation_sound_witness :
  exists bs, plan_consolidation ten_coins 0%nat sample_rate 4 5 = Some bs /\
    (length bs <= 5)%nat /\ Forall (self_send 0%nat sample_rate 4) bs.
Proof.
  destruct (plan_consolidation_sound 0%nat sample_rate ten_coins 4 5) as (bs & H1 & H2 & H3 & _).
  - split; [repeat constructor; vm_compute; discriminate|reflexivity].
  - eauto.
Defined.

Example ten_coins_in_three :
  option_map (map (fun b => (length (pb_inputs b), pb_change_amount_sompi b)))
    (plan_consolidation ten_coins 0%nat sample_rate 4 5)
  = Some [(4%nat, 1560000000); (4%nat, 1560000000); (2%nat, 780000000)].
Proof. vm_compute. reflexivity. Qed.
