(* ===== verification/KasEngine.v ===== *)
(** * The KAS payout engine ([payout-kas/src])

    Cycle windows, confirmation and maturity policy, cycle planning and
    resumption, transaction assembly and exact-fee signing, broadcasting,
    confirmation, reconciliation and the engine's tick, as state passing over
    the database and a log of the transactions handed to the node.

    The node, the address codec and the Schnorr signer are an environment: node
    calls are answered by their index, so every interleaving of answers and
    faults is covered. *)
From stdpp Require Import pretty.
From S2P Require Import Prelude F64 FeeModel Schema Domain AccountDb IngestDb PayoutDb StorageMass.
Open Scope Z_scope.

(** ** [window.rs] *)

Definition cycle_window (virtual_daa_score span : Z) : Z * Z :=
  let span := Z.max span 1 in
  let bucket := virtual_daa_score / span in
  let start := sat_u64 (bucket * span) in
  let stop := sat_u64 (start + span) in
  (start, stop).

(** ** [confirm.rs] *)

Definition KAS_PAYOUT_CONFIRMATION_DAA : Z := 100.
Definition NON_COINBASE_MATURITY_DAA : Z := 10.
Definition COINBASE_MATURITY_DAA : Z := 1000.

Inductive ConfirmationState := CsPending | CsAccepted | CsConfirmed | CsUnknown.

Record ConfirmationInputs := mkInputs {
  ci_virtual_daa_score : Z;
  ci_in_mempool : bool;
  ci_change_block_daa_score : option Z;
  ci_recorded_accept_daa : option Z
}.

Definition classify_confirmation (i : ConfirmationInputs) : ConfirmationState :=
  let accept_daa :=
    match ci_recorded_accept_daa i with
    | Some daa => Some daa
    | None => ci_change_block_daa_score i
    end in
  match accept_daa with
  | Some daa =>
      if sat_u64 (daa + KAS_PAYOUT_CONFIRMATION_DAA) <=? ci_virtual_daa_score i
      then CsConfirmed else CsAccepted
  | None => if ci_in_mempool i then CsPending else CsUnknown
  end.

Definition is_spendable (block_daa_score : Z) (is_coinbase : bool) (virtual_daa_score : Z) : bool :=
  let needed := if is_coinbase then COINBASE_MATURITY_DAA else NON_COINBASE_MATURITY_DAA in
  sat_u64 (block_daa_score + needed) <=? virtual_daa_score.

(** ** [signer.rs] and [execute.rs]: errors, modes, reports *)

Inductive SignError :=
| VirtualInput
| EmptyInputs
| SignKey (msg : string)
| SignVerify (input : nat) (reason : string).

(** [EngineError] with the errors it wraps transparently. *)
Inductive KasError :=
| KDb (e : DbError)
| KKaspad (msg : string)
| KSign (e : SignError)
| KMass (e : MassEvaluationError)
| KRecipientAddress (wallet_id : Z) (reason : string)
| KAmount (payout_id amount : Z)
| KUnknownRecipient (id : string)
| KSpanTooSmall (span depth : Z)
| KSpendCapExceeded (total cap : Z)
| KPanic.                                (* an arithmetic overflow aborts the process *)

Inductive ExecutionMode := Live | DryRun.

Definition is_dry_run (m : ExecutionMode) : bool :=
  match m with DryRun => true | Live => false end.

Record ExecutionReport := mkExecutionReport {
  er_planned_batches : nat;
  er_spendable_utxos : nat;
  er_submitted_txids : list bytes;
  er_submitted_payouts : nat;
  er_deferred_below_floor : nat;
  er_unpaid : nat;
  er_submit_errors : list (bytes * string)
}.

Definition report0 : ExecutionReport := mkExecutionReport 0 0 [] 0 0 0 [].

Record ConfirmReport := mkConfirmReport {
  cr_accepted : nat; cr_confirmed : nat; cr_pending : nat; cr_unknown : nat
}.

Definition confirm_report0 : ConfirmReport := mkConfirmReport 0 0 0 0.

Record SignedBatch (Script : Type) := mkSignedBatch {
  sb_tx : Transaction Script;
  sb_entries : list (UtxoEntry Script)
}.
Arguments mkSignedBatch {Script} _ _.
Arguments sb_tx {Script} _.
Arguments sb_entries {Script} _.

(** ** The outside world *)

Class KasEnv (Script : Type) := {
  ke_lock : nat -> result bool DbError;
  ke_fault : nat -> Fault;
  ke_virtual_daa_score : nat -> result Z string;
  ke_treasury_utxos : nat -> result (list (TreasuryUtxo Script)) string;
  ke_fee_estimate : nat -> result f64 string;
  ke_submit_transaction : nat -> Transaction Script -> result bytes string;
  ke_transaction_in_mempool : nat -> bytes -> result bool string;
  (* [Address::try_from] and [pay_to_address_script] *)
  ke_script_of : string -> result Script string;
  ke_treasury_script : Script;
  (* key loading, signing, [finalize] and the script engine's verification *)
  ke_sign : Transaction Script -> list (UtxoEntry Script) -> result (Transaction Script) SignError;
  (* [Transaction::id] *)
  ke_txid : Transaction Script -> bytes;
  ke_tx_version : Z;
  ke_native_subnetwork : list Z;
  ke_block_mass_limit : Z
}.

(** A transaction handed to the node: the payout rows it settles, the batch it
    was built from and the node's answer. *)
Record Broadcast (Script : Type) := mkBroadcast {
  bc_payout_ids : list Z;
  bc_tx : Transaction Script;
  bc_entries : list (UtxoEntry Script);
  bc_answer : result bytes string
}.
Arguments mkBroadcast {Script} _ _ _ _.
Arguments bc_payout_ids {Script} _.
Arguments bc_tx {Script} _.
Arguments bc_entries {Script} _.
Arguments bc_answer {Script} _.

Record World (Script : Type) := mkWorld {
  wd_db : Db;
  wd_log : list (Broadcast Script);
  wd_calls : nat
}.
Arguments mkWorld {Script} _ _ _.
Arguments wd_db {Script} _.
Arguments wd_log {Script} _.
Arguments wd_calls {Script} _.

Record PayoutEngineConfig := mkEngineConfig {
  cfg_cycle_span_daa : Z;
  cfg_threshold_sompi : Z;
  cfg_max_payout_sompi_per_cycle : option Z;
  cfg_mode : ExecutionMode
}.

Record PlanKasCycleParams := mkPlanParams {
  pp_daa_start : Z; pp_daa_end : Z; pp_threshold_sompi : Z
}.

Record CycleState := mkCycleState { cst_cycle : PayoutCycle; cst_payouts : list Payout }.

Record PayoutStatusCounts := mkCounts {
  pc_total : nat; pc_pending : nat; pc_in_flight : nat; pc_confirmed : nat; pc_failed : nat
}.

Record TickReport := mkTickReport {
  tr_cycle_id : Z; tr_virtual_daa : Z; tr_daa_start : Z; tr_daa_end : Z;
  tr_broadcast : ExecutionReport; tr_confirm : ConfirmReport; tr_status : PayoutCycleStatus
}.

Inductive TickOutcome := SkippedNotLeader | Ran (r : TickReport).

(** ** [cycle.rs]: pure parts *)

Definition AUDIT_ACTOR : string := "payout-kas".

Definition count_status (c : PayoutStatusCounts) (p : Payout) : PayoutStatusCounts :=
  match po_status p with
  | Planned => mkCounts (pc_total c) (S (pc_pending c)) (pc_in_flight c) (pc_confirmed c) (pc_failed c)
  | Submitted | Accepted =>
      mkCounts (pc_total c) (pc_pending c) (S (pc_in_flight c)) (pc_confirmed c) (pc_failed c)
  | Confirmed =>
      mkCounts (pc_total c) (pc_pending c) (pc_in_flight c) (S (pc_confirmed c)) (pc_failed c)
  | Failed => mkCounts (pc_total c) (pc_pending c) (pc_in_flight c) (pc_confirmed c) (S (pc_failed c))
  end.

Definition from_payouts (payouts : list Payout) : PayoutStatusCounts :=
  fold_left count_status payouts (mkCounts (length payouts) 0 0 0 0).

Definition derive_cycle_status (c : PayoutStatusCounts) : PayoutCycleStatus :=
  if (pc_total c =? 0)%nat then CyPlanned
  else if (pc_confirmed c =? pc_total c)%nat then CySettled
  else if (pc_confirmed c + pc_failed c =? pc_total c)%nat then
    if (0 <? pc_confirmed c)%nat then CyPartiallySettled else CyFailed
  else if (0 <? pc_confirmed c)%nat then CyPartiallySettled
  else if (0 <? pc_in_flight c)%nat || (0 <? pc_failed c)%nat then CyBroadcasting
  else CyPlanned.

Definition pending (s : CycleState) : list Payout :=
  List.filter (status_in [Planned]) (cst_payouts s).

(** [{:?}] of a cycle status. *)
Definition debug_status (s : PayoutCycleStatus) : string :=
  match s with
  | CyPlanned => "Planned"
  | CyBroadcasting => "Broadcasting"
  | CyPartiallySettled => "PartiallySettled"
  | CySettled => "Settled"
  | CyFailed => "Failed"
  end.

Definition over_spend_cap (total : Z) (cap : option Z) : bool :=
  match cap with Some c => c <? total | None => false end.

Definition engine_new (cfg : PayoutEngineConfig) : result PayoutEngineConfig KasError :=
  if cfg_cycle_span_daa cfg <=? KAS_PAYOUT_CONFIRMATION_DAA
  then Err (KSpanTooSmall (cfg_cycle_span_daa cfg) KAS_PAYOUT_CONFIRMATION_DAA)
  else Ok cfg.

(** ** [plan.rs]: the planning transaction *)

Fixpoint plan_rows (cycle_id : Z) (eligible : list EligibleWallet) (total recipients : Z)
  : DB (Z * Z) :=
  match eligible with
  | [] => db_ret (total, recipients)
  | w :: eligible =>
      ensure_payout cycle_id (el_wallet_id w) (el_payable_sompi w) ;;;
      plan_rows cycle_id eligible (sat_i64 (total + el_payable_sompi w)) (sat_i32 (recipients + 1))
  end.

Definition plan_tx (p : PlanKasCycleParams) : DB PayoutCycle :=
  cycle <-- create_cycle Kas (pp_daa_start p) (pp_daa_end p) ;;
  eligible <-- list_kas_eligible_wallets (pp_threshold_sompi p) ;;
  totals <-- plan_rows (cy_id cycle) eligible 0 0 ;;
  set_cycle_totals (cy_id cycle) (fst totals) (snd totals) ;;;
  db_ret cycle.

(** [reconcile_cycle_status]'s transaction. *)
Definition reconcile_tx (cycle_id : Z) (counts : PayoutStatusCounts) (derived : PayoutCycleStatus)
  : DB unit :=
  (match derived with
   | CyPlanned => db_ret tt
   | CyBroadcasting => mark_cycle_broadcasting cycle_id
   | CyPartiallySettled =>
       mark_cycle_broadcasting cycle_id ;;; mark_cycle_partially_settled cycle_id
   | CySettled => mark_cycle_broadcasting cycle_id ;;; mark_cycle_settled cycle_id
   | CyFailed => mark_cycle_failed cycle_id
   end) ;;;
  audit_append
    (ne_with_payload
       [("total", JNum (Z.of_nat (pc_total counts))); ("pending", JNum (Z.of_nat (pc_pending counts)));
        ("in_flight", JNum (Z.of_nat (pc_in_flight counts)));
        ("confirmed", JNum (Z.of_nat (pc_confirmed counts)));
        ("failed", JNum (Z.of_nat (pc_failed counts)));
        ("derived", JStr (debug_status derived))]%string
       (ne_subject "payout_cycle" cycle_id (NewEntry_new AUDIT_ACTOR "cycle.reconcile"))) ;;;
  db_ret tt.

(** Recording intent for a whole batch in one transaction. *)
Definition submit_tx (txid : bytes) (ids : list Z) : DB unit :=
  db_iter (fun id => mark_payout_submitted id txid) ids.

(** ** The engine's monad *)

Section Engine.
Context {Script : Type} `{MC : MassCalculator Script} `{EV : KasEnv Script}.
Context (cfg : PayoutEngineConfig).

Definition M (A : Type) : Type := World Script -> World Script * result A KasError.

Definition ret {A} (a : A) : M A := fun w => (w, Ok a).
Definition fail {A} (e : KasError) : M A := fun w => (w, Err e).
Definition bind {A B} (m : M A) (k : A -> M B) : M B :=
  fun w => match m w with
           | (w', Ok a) => k a w'
           | (w', Err e) => (w', Err e)
           end.
Notation "x <~ m ;; k" := (bind m (fun x => k))
  (at level 100, m at next level, right associativity).

Definition lift {A} (r : result A KasError) : M A := fun w => (w, r).

Definition tick_call (w : World Script) : World Script :=
  mkWorld (wd_db w) (wd_log w) (S (wd_calls w)).
Definition with_db (d : Db) (w : World Script) : World Script :=
  mkWorld d (wd_log w) (wd_calls w).

Definition call_db {A} (m : DB A) : M A :=
  fun w =>
    let w1 := tick_call w in
    match ke_fault (wd_calls w) with
    | FailBefore => (w1, Err (KDb Connection))
    | NoFault =>
        match m (wd_db w) with
        | Ok (a, d) => (with_db d w1, Ok a)
        | Err e => (w1, Err (KDb e))
        end
    | FailAfter =>
        match m (wd_db w) with
        | Ok (_, d) => (with_db d w1, Err (KDb Connection))
        | Err e => (w1, Err (KDb e))
        end
    end.

Definition call_node {A} (f : nat -> result A string) : M A :=
  fun w => (tick_call w, map_err KKaspad (f (wd_calls w))).

(** A node call whose failure the caller handles. *)
Definition call_node_try {A} (f : nat -> result A string) : M (result A string) :=
  fun w => (tick_call w, Ok (f (wd_calls w))).

(** [client.submit_transaction]: whatever the node answers, the attempt left
    the process. *)
Definition call_submit (ids : list Z) (s : SignedBatch Script) : M (result bytes string) :=
  fun w =>
    let out := ke_submit_transaction (wd_calls w) (sb_tx s) in
    (mkWorld (wd_db w) (wd_log w ++ [mkBroadcast ids (sb_tx s) (sb_entries s) out])
       (S (wd_calls w)), Ok out).

Definition call_lock : M bool :=
  fun w => (tick_call w, map_err KDb (ke_lock (wd_calls w))).

(** ** [signer.rs] *)

Definition build_unsigned (batch : PlannedBatch Script) (treasury_script : Script) :
    result (Transaction Script * list (UtxoEntry Script)) SignError :=
  match pb_inputs batch with
  | [] => Err EmptyInputs
  | _ =>
      if existsb is_planning_virtual (pb_inputs batch) then Err VirtualInput
      else
        let inputs := map (fun u => mkTransactionInput (tu_outpoint u) [] 0 1) (pb_inputs batch) in
        let outputs :=
          map (fun p => mkTransactionOutput (pr_amount_sompi p) (pr_script_public_key p))
            (pb_payouts batch) in
        let outputs :=
          if 0 <? pb_change_amount_sompi batch
          then outputs ++ [mkTransactionOutput (pb_change_amount_sompi batch) treasury_script]
          else outputs in
        Ok (mkTransaction ke_tx_version inputs outputs 0 ke_native_subnetwork 0 [],
            map tu_entry (pb_inputs batch))
  end.

Definition batch_txid (batch : PlannedBatch Script) (treasury_script : Script) :
    result bytes SignError :=
  let? (tx, _) := build_unsigned batch treasury_script in
  Ok (ke_txid tx).

Definition sign_batch (batch : PlannedBatch Script) (treasury_script : Script) :
    result (SignedBatch Script) SignError :=
  let? (unsigned, entries) := build_unsigned batch treasury_script in
  let? tx := ke_sign unsigned entries in
  Ok (mkSignedBatch tx entries).

(** ** [execute.rs] *)

Definition sign_batch_with_exact_fee (batch : PlannedBatch Script) (treasury_script : Script)
    (fee_rate : FeeRate) : result (SignedBatch Script) KasError :=
  let? provisional := map_err KSign (sign_batch batch treasury_script) in
  if negb (reserves_fee fee_rate) then Ok provisional
  else
    let? mass := map_err KMass (evaluate_populated (sb_tx provisional) (sb_entries provisional)) in
    let fee := fee_for fee_rate mass in
    let? input_sum := ok_or (sum_inputs (pb_inputs batch)) KPanic in
    let? payout_sum := ok_or (sum_amounts (pb_payouts batch)) KPanic in
    match checked_u64 (input_sum - payout_sum) ≫= (fun rem => checked_u64 (rem - fee)) with
    | None => Ok provisional
    | Some change =>
        let change :=
          if negb (change =? 0) && is_change_dust change treasury_script then 0 else change in
        if change =? pb_change_amount_sompi batch then Ok provisional
        else
          map_err KSign
            (sign_batch (mkPlannedBatch (pb_inputs batch) (pb_payouts batch) change (pb_mass batch))
               treasury_script)
    end.

(** The recipient of one pending row, as the planner wants it. *)
Definition resolve_recipient (p : Payout) : M (PayoutRecipient Script) :=
  amount <~ lift (ok_or (u64_try_from (po_amount_sompi p)) (KAmount (po_id p) (po_amount_sompi p))) ;;
  w <~ call_db (wallet_get_by_id (po_wallet_id p)) ;;
  script <~ lift (map_err (KRecipientAddress (po_wallet_id p)) (ke_script_of (w_address w))) ;;
  ret (mkPayoutRecipient (pretty (po_id p)) amount script).

Fixpoint resolve_recipients (ps : list Payout) : M (list (PayoutRecipient Script)) :=
  match ps with
  | [] => ret []
  | p :: ps =>
      r <~ resolve_recipient p ;;
      rs <~ resolve_recipients ps ;;
      ret (r :: rs)
  end.

(** [by_id.get(&r.id)]: the last row inserted under that key. *)
Definition lookup_row (pending : list Payout) (id : string) : option Payout :=
  List.find (fun p => String.eqb (pretty (po_id p)) id) (rev pending).

Fixpoint batch_rows (pending : list Payout) (rs : list (PayoutRecipient Script)) :
    result (list Z) KasError :=
  match rs with
  | [] => Ok []
  | r :: rs =>
      let? row := ok_or (lookup_row pending (pr_id r)) (KUnknownRecipient (pr_id r)) in
      let? ids := batch_rows pending rs in
      Ok (po_id row :: ids)
  end.

(** [<[u8; 32]>::try_from]. *)
Definition bytes32 (h : bytes) : option bytes := if (length h =? 32)%nat then Some h else None.

(** The spendable coins: mature, and not the change of an unsettled payout. *)
Definition spendable_coins (virtual_daa : Z) (protected : list bytes)
    (snapshots : list (TreasuryUtxo Script)) : list (TreasuryUtxo Script) :=
  List.filter (fun s => negb (bool_decide (op_transaction_id (tu_outpoint s) ∈ protected)))
    (List.filter (fun s => is_spendable (ue_block_daa_score (tu_entry s))
                             (ue_is_coinbase (tu_entry s)) virtual_daa) snapshots).

Definition er_txid (t : bytes) (r : ExecutionReport) : ExecutionReport :=
  mkExecutionReport (er_planned_batches r) (er_spendable_utxos r) (er_submitted_txids r ++ [t])
    (er_submitted_payouts r) (er_deferred_below_floor r) (er_unpaid r) (er_submit_errors r).
Definition er_payouts (n : nat) (r : ExecutionReport) : ExecutionReport :=
  mkExecutionReport (er_planned_batches r) (er_spendable_utxos r) (er_submitted_txids r)
    (er_submitted_payouts r + n) (er_deferred_below_floor r) (er_unpaid r) (er_submit_errors r).
Definition er_error (t : bytes) (e : string) (r : ExecutionReport) : ExecutionReport :=
  mkExecutionReport (er_planned_batches r) (er_spendable_utxos r) (er_submitted_txids r)
    (er_submitted_payouts r) (er_deferred_below_floor r) (er_unpaid r)
    (er_submit_errors r ++ [(t, e)]).

Fixpoint broadcast_loop (mode : ExecutionMode) (pending : list Payout) (fee_rate : FeeRate)
    (bs : list (PlannedBatch Script)) (report : ExecutionReport) : M ExecutionReport :=
  match bs with
  | [] => ret report
  | batch :: bs =>
      ids <~ lift (batch_rows pending (pb_payouts batch)) ;;
      signed <~ lift (sign_batch_with_exact_fee batch ke_treasury_script fee_rate) ;;
      let txid := ke_txid (sb_tx signed) in
      match mode with
      | DryRun => broadcast_loop mode pending fee_rate bs (er_txid txid report)
      | Live =>
          _ <~ call_db (submit_tx txid ids) ;;
          let report := er_payouts (length ids) report in
          out <~ call_submit ids signed ;;
          broadcast_loop mode pending fee_rate bs
            (match out with Ok _ => er_txid txid report | Err e => er_error txid e report end)
      end
  end.

Definition live_fee_rate : M FeeRate :=
  estimate <~ call_node_try ke_fee_estimate ;;
  ret (from_feerate (match estimate with Ok f => f | Err _ => f64_zero end)).

Definition broadcast_cycle (cycle : CycleState) (mode : ExecutionMode) : M ExecutionReport :=
  let pending := pending cycle in
  match pending with
  | [] => ret report0
  | _ =>
      recipients <~ resolve_recipients pending ;;
      virtual_daa <~ call_node ke_virtual_daa_score ;;
      hashes <~ call_db in_flight_spend_tx_hashes ;;
      let protected := omap bytes32 hashes in
      snapshots <~ call_node ke_treasury_utxos ;;
      let utxos := spendable_coins virtual_daa protected snapshots in
      fee_rate <~ live_fee_rate ;;
      plan <~ lift (ok_or (plan_batches ke_block_mass_limit utxos recipients ke_treasury_script
                             fee_rate) KPanic) ;;
      let report := mkExecutionReport (length (pl_batches plan)) (length utxos) [] 0
                      (length (pl_deferred_below_floor plan)) (length (pl_unpaid plan)) [] in
      _ <~ (match mode, pl_batches plan with
            | Live, _ :: _ => call_db (mark_cycle_broadcasting (cy_id (cst_cycle cycle)))
            | _, _ => ret tt
            end) ;;
      broadcast_loop mode pending fee_rate (pl_batches plan) report
  end.

(** [HashMap::from_iter] then [get]: the last coin of a transaction wins. *)
Definition change_daa (snapshots : list (TreasuryUtxo Script)) (txid : bytes) : option Z :=
  option_map (fun s => ue_block_daa_score (tu_entry s))
    (List.find (fun s => bool_decide (op_transaction_id (tu_outpoint s) = txid)) (rev snapshots)).

Definition confirm_one (virtual_daa : Z) (snapshots : list (TreasuryUtxo Script)) (p : Payout)
    (report : ConfirmReport) : M ConfirmReport :=
  match po_tx_hash p ≫= bytes32 with
  | None => ret report
  | Some txid =>
      let on_chain := change_daa snapshots txid in
      let recorded := po_accepted_daa_score p ≫= u64_try_from in
      in_mempool <~ (match on_chain, recorded with
                     | None, None => call_node (fun n => ke_transaction_in_mempool n txid)
                     | _, _ => ret false
                     end) ;;
      match classify_confirmation (mkInputs virtual_daa in_mempool on_chain recorded) with
      | CsAccepted =>
          let seen := match on_chain with Some v => Some v | None => recorded end in
          let accept_daa := default 0 (seen ≫= i64_try_from) in
          _ <~ call_db (mark_payout_accepted (po_id p) accept_daa) ;;
          ret (mkConfirmReport (S (cr_accepted report)) (cr_confirmed report) (cr_pending report)
                 (cr_unknown report))
      | CsConfirmed =>
          _ <~ call_db (mark_payout_confirmed (po_id p)) ;;
          ret (mkConfirmReport (cr_accepted report) (S (cr_confirmed report)) (cr_pending report)
                 (cr_unknown report))
      | CsPending =>
          ret (mkConfirmReport (cr_accepted report) (cr_confirmed report) (S (cr_pending report))
                 (cr_unknown report))
      | CsUnknown =>
          ret (mkConfirmReport (cr_accepted report) (cr_confirmed report) (cr_pending report)
                 (S (cr_unknown report)))
      end
  end.

Fixpoint confirm_loop (virtual_daa : Z) (snapshots : list (TreasuryUtxo Script)) (ps : list Payout)
    (report : ConfirmReport) : M ConfirmReport :=
  match ps with
  | [] => ret report
  | p :: ps =>
      report <~ confirm_one virtual_daa snapshots p report ;;
      confirm_loop virtual_daa snapshots ps report
  end.

Definition in_flight (cycle : CycleState) : list Payout :=
  List.filter (fun p => status_in [Submitted; Accepted] p && bool_decide (is_Some (po_tx_hash p)))
    (cst_payouts cycle).

Definition confirm_cycle (cycle : CycleState) : M ConfirmReport :=
  match in_flight cycle with
  | [] => ret confirm_report0
  | ps =>
      virtual_daa <~ call_node ke_virtual_daa_score ;;
      snapshots <~ call_node ke_treasury_utxos ;;
      confirm_loop virtual_daa snapshots ps confirm_report0
  end.

(** ** [plan.rs] and [cycle.rs]: effects *)

Definition plan_kas_cycle (p : PlanKasCycleParams) : M CycleState :=
  cycle <~ call_db (plan_tx p) ;;
  payouts <~ call_db (list_for_cycle (cy_id cycle)) ;;
  cycle <~ call_db (get_cycle (cy_id cycle)) ;;
  ret (mkCycleState cycle payouts).

Definition resume_or_plan_kas_cycle (p : PlanKasCycleParams) : M CycleState :=
  let key := idempotency_key Kas (pp_daa_start p) (pp_daa_end p) in
  found <~ call_db (find_cycle_by_idempotency_key key) ;;
  match found with
  | Some cycle =>
      payouts <~ call_db (list_for_cycle (cy_id cycle)) ;;
      _ <~ call_db (audit_append
             (ne_with_payload
                [("idempotency_key", JStr (cy_idempotency_key cycle));
                 ("status", JStr (debug_status (cy_status cycle)));
                 ("recipients", JNum (Z.of_nat (length payouts)))]%string
                (ne_subject "payout_cycle" (cy_id cycle) (NewEntry_new AUDIT_ACTOR "cycle.resume")))) ;;
      ret (mkCycleState cycle payouts)
  | None =>
      planned <~ plan_kas_cycle p ;;
      _ <~ call_db (audit_append
             (ne_with_payload
                [("idempotency_key", JStr (cy_idempotency_key (cst_cycle planned)));
                 ("recipients", JNum (Z.of_nat (length (cst_payouts planned))));
                 ("total_sompi", JNum (cy_total_sompi (cst_cycle planned)))]%string
                (ne_subject "payout_cycle" (cy_id (cst_cycle planned))
                   (NewEntry_new AUDIT_ACTOR "cycle.plan")))) ;;
      ret planned
  end.

Definition reconcile_cycle_status (cycle_id : Z) : M PayoutCycleStatus :=
  payouts <~ call_db (list_for_cycle cycle_id) ;;
  let counts := from_payouts payouts in
  let derived := derive_cycle_status counts in
  _ <~ call_db (reconcile_tx cycle_id counts derived) ;;
  ret derived.

(** ** [engine.rs] *)

Definition outbound_sompi (payouts : list Payout) : Z :=
  fold_left (fun acc p => sat_i64 (acc + po_amount_sompi p))
    (List.filter (fun p => negb (status_in [Failed] p)) payouts) 0.

Definition run_locked : M TickOutcome :=
  virtual_daa <~ call_node ke_virtual_daa_score ;;
  let window := cycle_window virtual_daa (cfg_cycle_span_daa cfg) in
  state <~ resume_or_plan_kas_cycle
             (mkPlanParams (fst window) (snd window) (cfg_threshold_sompi cfg)) ;;
  let cycle_id := cy_id (cst_cycle state) in
  let outbound := outbound_sompi (cst_payouts state) in
  if over_spend_cap outbound (cfg_max_payout_sompi_per_cycle cfg)
  then fail (KSpendCapExceeded outbound (default 0 (cfg_max_payout_sompi_per_cycle cfg)))
  else
    broadcast <~ broadcast_cycle state (cfg_mode cfg) ;;
    cycle <~ call_db (get_cycle cycle_id) ;;
    payouts <~ call_db (list_for_cycle cycle_id) ;;
    confirm <~ confirm_cycle (mkCycleState cycle payouts) ;;
    status <~ reconcile_cycle_status cycle_id ;;
    ret (Ran (mkTickReport cycle_id virtual_daa (fst window) (snd window) broadcast confirm status)).

Definition run_once : M TickOutcome :=
  leader <~ call_lock ;;
  match leader with
  | false => ret SkippedNotLeader
  | true => run_locked
  end.
End Engine.
