(* ===== verification/KasLedger.v ===== *)
(** * The payout ledger: an abstract specification of the KAS payout engine

    What a payout engine promises, without transactions, coins, fees or faults:
    a table of payout rows and the list of payments handed to the network.  Rows
    are planned; intent is recorded for a set of planned rows under a
    transaction id; a payment is sent only for rows whose intent is recorded
    under its id, and never for a row sent before; rows advance to accepted and
    confirmed.  [KasSafety] shows that the engine refines this machine. *)
From stdpp Require Import relations.
From S2P Require Import Prelude F64 FeeModel Schema.
Open Scope Z_scope.

Record lrow := mkRow { lr_id : Z; lr_status : PayoutStatus; lr_hash : option bytes }.

Record ledger := mkLedger {
  lg_rows : list lrow;
  lg_sent : list (list Z * bytes)
}.

Definition sent_ids (l : ledger) : list Z := concat (map fst (lg_sent l)).

Definition record_row (txid : bytes) (id : Z) (r : lrow) : lrow :=
  if lr_id r =? id then mkRow (lr_id r) Submitted (Some txid) else r.

Definition record_rows (txid : bytes) (ids : list Z) (rows : list lrow) : list lrow :=
  fold_left (fun rows id => map (record_row txid id) rows) ids rows.

Definition advance_row (from : list PayoutStatus) (to : PayoutStatus) (id : Z) (r : lrow) : lrow :=
  if (lr_id r =? id) && existsb (fun s => bool_decide (lr_status r = s)) from
  then mkRow (lr_id r) to (lr_hash r) else r.

(** Every row of [id] is [s], and there is one. *)
Definition row_is (rows : list lrow) (id : Z) (P : lrow -> Prop) : Prop :=
  In id (map lr_id rows) /\ forall r, In r rows -> lr_id r = id -> P r.

Inductive lstep : ledger -> ledger -> Prop :=
| LPlan id l :
    ~ In id (map lr_id (lg_rows l)) ->
    lstep l (mkLedger (lg_rows l ++ [mkRow id Planned None]) (lg_sent l))
| LRecord ids txid l :
    List.NoDup ids ->
    (forall id, In id ids -> row_is (lg_rows l) id (fun r => lr_status r = Planned)) ->
    lstep l (mkLedger (record_rows txid ids (lg_rows l)) (lg_sent l))
| LBroadcast ids txid l :
    List.NoDup ids ->
    (forall id, In id ids -> row_is (lg_rows l) id (fun r => r = mkRow id Submitted (Some txid))) ->
    (forall id, In id ids -> ~ In id (sent_ids l)) ->
    lstep l (mkLedger (lg_rows l) (lg_sent l ++ [(ids, txid)]))
| LAccept id l :
    lstep l (mkLedger (map (advance_row [Submitted; Accepted] Accepted id) (lg_rows l)) (lg_sent l))
| LConfirm id l :
    lstep l (mkLedger (map (advance_row [Submitted; Accepted; Confirmed] Confirmed id) (lg_rows l))
               (lg_sent l)).

(** The ledger's invariant: nothing is sent twice, and everything sent is on
    record, out of [planned], under the id it was sent with. *)
Record lg_ok (l : ledger) : Prop := {
  lk_once : List.NoDup (sent_ids l);
  lk_recorded : forall ids txid id, In (ids, txid) (lg_sent l) -> In id ids ->
    row_is (lg_rows l) id (fun r => lr_status r <> Planned /\ lr_hash r = Some txid)
}.

Lemma row_is_impl rows id (P Q : lrow -> Prop) :
  (forall r, P r -> Q r) -> row_is rows id P -> row_is rows id Q.
Proof. intros H [Hi Hr]. split; auto. Qed.

Lemma row_is_map rows id (f : lrow -> lrow) (P Q : lrow -> Prop) :
  (forall r, lr_id (f r) = lr_id r) -> (forall r, In r rows -> lr_id r = id -> P r -> Q (f r)) ->
  row_is rows id P -> row_is (map f rows) id Q.
Proof.
  intros Hf HQ [Hi Hr]. split.
  - rewrite map_map. erewrite map_ext; [exact Hi|]. exact Hf.
  - intros r' (r & <- & Hin)%in_map_iff E. rewrite Hf in E. auto.
Qed.

Lemma record_row_id txid id r : lr_id (record_row txid id r) = lr_id r.
Proof. unfold record_row. now destruct (_ =? _). Qed.

Lemma advance_row_id from to id r : lr_id (advance_row from to id r) = lr_id r.
Proof. unfold advance_row. now destruct (_ && _). Qed.

(** Recording leaves the rows of other ids alone and submits its own. *)
Lemma record_rows_other txid ids rows id P :
  ~ In id ids -> row_is rows id P -> row_is (record_rows txid ids rows) id P.
Proof.
  unfold record_rows. revert rows. induction ids as [|i ids IH]; simpl; intros rows Hn H; [done|].
  apply IH; [tauto|]. eapply row_is_map, H; [apply record_row_id|].
  intros r _ E HP. unfold record_row. destruct (Z.eqb_spec (lr_id r) i); [|done].
  exfalso. apply Hn. left. congruence.
Qed.

Lemma record_rows_own txid ids rows id P :
  In id ids -> row_is rows id P ->
  row_is (record_rows txid ids rows) id (fun r => r = mkRow id Submitted (Some txid)).
Proof.
  unfold record_rows. revert rows P. induction ids as [|i ids IH]; simpl; intros rows P Hin H; [done|].
  assert (row_is (map (record_row txid i) rows) id (fun r => lr_id r = id)) as Hid.
  { eapply row_is_map, H; [apply record_row_id|]. intros r _ E _. now rewrite record_row_id. }
  destruct (in_dec Z.eq_dec id ids) as [Hin'|Hn]; [eapply IH; eauto|].
  destruct Hin as [->|]; [|done]. apply record_rows_other; [done|].
  eapply row_is_map, H; [apply record_row_id|]. intros r _ E _.
  unfold record_row. now rewrite E, Z.eqb_refl.
Qed.

Lemma sent_ids_snoc l rows ids txid :
  sent_ids (mkLedger rows (lg_sent l ++ [(ids, txid)])) = sent_ids l ++ ids.
Proof. unfold sent_ids. simpl. rewrite map_app, concat_app. simpl. now rewrite app_nil_r. Qed.

Lemma sent_In l ids txid id : In (ids, txid) (lg_sent l) -> In id ids -> In id (sent_ids l).
Proof.
  intros Hs Hi. unfold sent_ids. apply in_concat. exists ids. split; [|done].
  apply in_map_iff. now exists (ids, txid).
Qed.

Lemma NoDup_app_disjoint {A} (l1 l2 : list A) :
  List.NoDup l1 -> List.NoDup l2 -> (forall x, In x l2 -> ~ In x l1) -> List.NoDup (l1 ++ l2).
Proof. intros H1 H2 H. apply List.NoDup_app; auto. intros x Hx Hx'. exact (H x Hx' Hx). Qed.

Lemma lstep_ok l l' : lstep l l' -> lg_ok l -> lg_ok l'.
Proof.
  intros Hs [Ho Hr]. destruct Hs as [id l Hf|ids txid l Hn Hp|ids txid l Hn Hp Hd|id l|id l].
  - constructor; simpl; [exact Ho|]. intros ids txid i Hs Hi.
    destruct (Hr ids txid i Hs Hi) as [Hin H]. split.
    + rewrite map_app, in_app_iff. auto.
    + intros r [Hr'|[<-|[]]]%in_app_iff E; [auto|]. simpl in E. subst i. contradiction.
  - constructor; simpl; [exact Ho|]. intros ids' txid' i Hs Hi.
    pose proof (Hr ids' txid' i Hs Hi) as H. apply record_rows_other; [|exact H].
    intros Hin. destruct (Hp i Hin) as [Hex Hpl]. apply in_map_iff in Hex as (r & E & Hrow).
    destruct H as [_ H]. destruct (H r Hrow E) as [Hnp _]. apply Hnp. auto.
  - constructor.
    + rewrite sent_ids_snoc. apply NoDup_app_disjoint; auto.
    + simpl. intros ids' txid' i [Hs|[[= <- <-]|[]]]%in_app_iff Hi; [eauto|].
      eapply row_is_impl; [|apply Hp, Hi]. intros r ->. simpl. split; [discriminate|done].
  - constructor; simpl; [exact Ho|]. intros ids txid i Hs Hi.
    eapply row_is_map; [apply advance_row_id| |apply (Hr ids txid i Hs Hi)].
    intros r _ _ [Hp Hh]. unfold advance_row. destruct (_ && _); simpl; split; auto; discriminate.
  - constructor; simpl; [exact Ho|]. intros ids txid i Hs Hi.
    eapply row_is_map; [apply advance_row_id| |apply (Hr ids txid i Hs Hi)].
    intros r _ _ [Hp Hh]. unfold advance_row. destruct (_ && _); simpl; split; auto; discriminate.
Qed.

Lemma lsteps_ok l l' : rtc lstep l l' -> lg_ok l -> lg_ok l'.
Proof. induction 1; eauto using lstep_ok. Qed.

(** Sent payments are never retracted or altered. *)
Lemma lsteps_sent l l' : rtc lstep l l' -> exists more, lg_sent l' = lg_sent l ++ more.
Proof.
  induction 1 as [l|l1 l2 l3 H _ (more & IH)]; [exists []; now rewrite app_nil_r|].
  destruct H; simpl in IH; eauto. eexists. now rewrite IH, <- app_assoc.
Qed.
