(* ===== verification/KasSafety.v ===== *)
(** * The KAS payout engine refines the payout ledger

    A tick of [KasEngine.run_once], under every pattern of database faults, node
    answers and signer outcomes, is a run of the abstract machine of
    [KasLedger]: intent is on record before a transaction is handed to the node,
    and no payout row is broadcast twice. *)
From stdpp Require Import pretty relations.
From S2P Require Import Prelude F64 FeeModel Schema Domain AccountDb IngestDb PayoutDb ZkasSafety.
From S2P Require Import StorageMass StorageMassSpec KasEngine KasLedger.
Open Scope Z_scope.

(** ** The abstraction of a database *)

Definition view (p : Payout) : lrow := mkRow (po_id p) (po_status p) (po_tx_hash p).
Definition rows (d : Db) : list lrow := map view (db_payouts d).

(** A repository call whose every success is a run of the ledger that sends
    nothing. *)
Definition refines {A} (m : DB A) : Prop := forall d a d', payouts_wf d -> m d = Ok (a, d') ->
  payouts_wf d' /\ forall sent, rtc lstep (mkLedger (rows d) sent) (mkLedger (rows d') sent).

Lemma refines_bind {A B} (m : DB A) (k : A -> DB B) :
  refines m -> (forall a, refines (k a)) -> refines (db_bind m k).
Proof.
  intros Hm Hk d b d' W (a & d1 & H1 & H2)%db_bind_ok.
  destruct (Hm d a d1 W H1) as [W1 R1]. destruct (Hk a d1 b d' W1 H2) as [W2 R2].
  split; [done|]. intros sent. etransitivity; eauto.
Qed.

(** Calls that leave the payout table alone. *)
Lemma refines_quiet {A} (m : DB A) :
  extends m -> (forall d a d', m d = Ok (a, d') -> db_payouts d' = db_payouts d) -> refines m.
Proof.
  intros He Hq d a d' W H. split; [now apply (He d a d' H)|]. intros sent.
  unfold rows. rewrite (Hq _ _ _ H). reflexivity.
Qed.

Lemma refines_ret {A} (a : A) : refines (db_ret a).
Proof. intros d b d' W [= <- <-]. split; [done|reflexivity]. Qed.

Lemma refines_read {A} (f : Db -> A) : refines (db_read f).
Proof. intros d b d' W [= <- <-]. split; [done|reflexivity]. Qed.

Lemma refines_read_checked {A} (f : Db -> result A DbError) : refines (db_read_checked f).
Proof. intros d b d' W H. apply db_read_checked_same in H as <-. split; [done|reflexivity]. Qed.

Lemma refines_update_cycles p f : refines (update_cycles p f).
Proof.
  apply refines_quiet; [apply extends_update_cycles|]. intros d n d' H. unfold update_cycles in H.
  destruct (tbl_update _ _ _ _) as [[r m]|]; inv_eqs. done.
Qed.

Lemma refines_create_cycle k a b : refines (create_cycle k a b).
Proof.
  apply refines_quiet; [apply extends_create_cycle|]. intros d c d' H. unfold create_cycle in H.
  destruct (cycle_check _); [|discriminate]. destruct (find_cycle _ d); inv_eqs; done.
Qed.

Lemma refines_audit_append e : refines (audit_append e).
Proof.
  intros d k d' W [= <- <-]. split; [|reflexivity].
  apply (payouts_wf_same d); simpl; auto; lia.
Qed.

Lemma refines_ensure_payout c w a : refines (ensure_payout c w a).
Proof.
  intros d p d' W H. split.
  - apply (run_payout_op_wf (OpEnsure c w a) d d' W). simpl. unfold db_bind. now rewrite H.
  - intros sent. unfold ensure_payout in H. destruct (negb _); [discriminate|].
    destruct (find_payout _ d); inv_eqs; [reflexivity|].
    unfold rows. simpl. rewrite map_app. apply rtc_once.
    refine (LPlan (db_seq d) (mkLedger (map view (db_payouts d)) sent) _). simpl.
    rewrite map_map. intros (q & E & Hq)%in_map_iff. simpl in E.
    pose proof (wf_ids_lt _ W) as L. rewrite List.Forall_forall in L. specialize (L q Hq). simpl in L. lia.
Qed.

Lemma in_place_op op d d' :
  run_payout_op op d = Ok (tt, d') -> db_seq d' = db_seq d ->
  db_payouts d' = map (op_row op (db_now d)) (db_payouts d).
Proof.
  intros H Es. destruct (run_payout_op_shape op d d' H) as [(E & _)|(c & w & a & _ & E & _)]; [done|lia].
Qed.

Lemma mark_seq {A} (p : Payout -> bool) f (k : A) d d' :
  (update_payouts p f ;;; db_ret k) d = Ok (k, d') -> db_seq d' = db_seq d.
Proof.
  intros (n & d1 & H & H1)%db_bind_ok. apply update_payouts_ok in H as [-> _].
  unfold db_ret in H1. inv_eqs. done.
Qed.

Lemma refines_mark_accepted id v : refines (mark_payout_accepted id v).
Proof.
  intros d [] d' W H. split; [exact (run_payout_op_wf (OpAccept id v) d d' W H)|]. intros sent.
  unfold rows. rewrite (in_place_op (OpAccept id v) d d' H (mark_seq _ _ _ _ _ H)).
  apply rtc_once. replace (map view (map _ _))
    with (map (advance_row [Submitted; Accepted] Accepted id) (map view (db_payouts d))).
  - exact (LAccept id (mkLedger (map view (db_payouts d)) sent)).
  - rewrite !map_map. apply map_ext. intros p. unfold op_row, advance_row, status_in. simpl.
    destruct (_ && _); done.
Qed.

Lemma refines_mark_confirmed id : refines (mark_payout_confirmed id).
Proof.
  intros d [] d' W H. split; [exact (run_payout_op_wf (OpConfirm id) d d' W H)|]. intros sent.
  unfold rows. rewrite (in_place_op (OpConfirm id) d d' H (mark_seq _ _ _ _ _ H)).
  apply rtc_once. replace (map view (map _ _))
    with (map (advance_row [Submitted; Accepted; Confirmed] Confirmed id) (map view (db_payouts d))).
  - exact (LConfirm id (mkLedger (map view (db_payouts d)) sent)).
  - rewrite !map_map. apply map_ext. intros p. unfold op_row, advance_row, status_in. simpl.
    destruct (_ && _); done.
Qed.

#[export] Hint Resolve refines_ret refines_read refines_read_checked refines_update_cycles
  refines_create_cycle refines_audit_append refines_ensure_payout refines_mark_accepted
  refines_mark_confirmed refines_bind : kat.

Lemma refines_cycle_marks id :
  refines (mark_cycle_broadcasting id) /\ refines (mark_cycle_partially_settled id) /\
  refines (mark_cycle_settled id) /\ refines (mark_cycle_failed id).
Proof.
  split; [|split; [|split]]; intros d a d' W H;
    unfold mark_cycle_broadcasting, mark_cycle_partially_settled, mark_cycle_settled,
      mark_cycle_failed in H;
    eapply (refines_bind (update_cycles _ _) (fun _ => db_ret tt)); eauto with kat.
Qed.

Lemma refines_plan_rows cy el t r : refines (plan_rows cy el t r).
Proof. revert t r. induction el as [|w el IH]; intros t r; simpl; auto with kat. Qed.

Lemma refines_plan_tx p : refines (plan_tx p).
Proof.
  unfold plan_tx, list_kas_eligible_wallets, list_eligible_wallets, set_cycle_totals.
  repeat (apply refines_bind; [solve [auto using refines_plan_rows with kat]|intros ?]); auto with kat.
Qed.

Lemma refines_reconcile_tx i c s : refines (reconcile_tx i c s).
Proof.
  pose proof (refines_cycle_marks i) as (B & P & S & F). unfold reconcile_tx.
  apply refines_bind; [|auto with kat]. destruct s; auto with kat.
Qed.

(** ** Recording intent *)

Definition planned_only (d : Db) (id : Z) : Prop :=
  row_is (rows d) id (fun r => lr_status r = Planned).

Lemma mark_submitted_rows id h d d' :
  planned_only d id -> mark_payout_submitted id h d = Ok (tt, d') ->
  rows d' = map (record_row h id) (rows d).
Proof.
  intros [_ Hp] H. unfold rows in *.
  rewrite (in_place_op (OpSubmit id h) d d' H (mark_seq _ _ _ _ _ H)), !map_map.
  apply map_ext_in. intros p Hin. unfold op_row, record_row. simpl.
  destruct (Z.eqb_spec (po_id p) id) as [E|]; [|done]. simpl.
  assert (po_status p = Planned) as Es by (apply (Hp (view p)); [now apply in_map|done]).
  unfold status_in. rewrite Es. simpl. unfold view. simpl. done.
Qed.

Lemma submit_tx_rows h ids : forall d d',
  payouts_wf d -> List.NoDup ids -> (forall id, In id ids -> planned_only d id) ->
  submit_tx h ids d = Ok (tt, d') ->
  payouts_wf d' /\ rows d' = record_rows h ids (rows d).
Proof.
  unfold submit_tx, record_rows. induction ids as [|id ids IH]; intros d d' W Hn Hp H; simpl in H.
  - unfold db_ret in H. inv_eqs. done.
  - apply db_bind_ok in H as ([] & d1 & H1 & H2). inversion_clear Hn as [|? ? Hni Hn'].
    pose proof (run_payout_op_wf (OpSubmit id h) d d1 W H1) as W1.
    pose proof (mark_submitted_rows id h d d1 (Hp id (or_introl eq_refl)) H1) as E1.
    destruct (IH d1 d' W1 Hn') as [W2 E2]; [|exact H2|].
    + intros i Hi. unfold planned_only. rewrite E1.
      apply (record_rows_other h [id]); [|now apply Hp; right]. intros [->|[]]. contradiction.
    + split; [done|]. simpl. now rewrite E2, E1.
Qed.

(** ** The engine *)

(** What the engine relies on: the node reports unsigned coins whose sum is
    below [u64::MAX] (the whole supply of the chain is), and signing fills
    signature scripts without touching inputs' outpoints or outputs. *)
Class KasEnvLaws (Script : Type) `{EV : KasEnv Script} : Prop := {
  law_coins : forall n us, ke_treasury_utxos n = Ok us ->
    Forall (fun u : TreasuryUtxo Script => 0 <= utxo_amount u) us /\ total_in us < u64_max;
  law_sign : forall tx es tx', ke_sign tx es = Ok tx' ->
    tx_outputs tx' = tx_outputs tx /\
    map ti_previous_outpoint (tx_inputs tx') = map ti_previous_outpoint (tx_inputs tx)
}.

Section Sim.
Context {Script : Type} `{MC : MassCalculator Script} `{EV : KasEnv Script}.
Implicit Types w : World Script.

Definition abs w : ledger :=
  mkLedger (rows (wd_db w)) (map (fun b => (bc_payout_ids b, ke_txid (bc_tx b))) (wd_log w)).

Record good w : Prop := { good_wf : payouts_wf (wd_db w); good_ledger : lg_ok (abs w) }.

(** Running [m] is a run of the ledger, even when it ends in an error. *)
Definition simulates {A} (m : M A) (w : World Script) : Prop :=
  good (fst (m w)) /\ rtc lstep (abs w) (abs (fst (m w))).
Definition sim {A} (m : M A) : Prop := forall w, good w -> simulates m w.

Lemma simulates_intro {A} (m : M A) w :
  good w -> payouts_wf (wd_db (fst (m w))) -> rtc lstep (abs w) (abs (fst (m w))) -> simulates m w.
Proof. intros [W L] W' R. split; [|done]. constructor; [done|]. eapply lsteps_ok; eauto. Qed.

Lemma simulates_bind {A B} (m : M A) (k : A -> M B) w :
  simulates m w -> (forall w' a, m w = (w', Ok a) -> good w' -> simulates (k a) w') ->
  simulates (bind m k) w.
Proof.
  intros [G R] Hk. unfold simulates, bind in *. destruct (m w) as [w' [a|e]] eqn:E; simpl in *; [|done].
  destruct (Hk w' a eq_refl G) as [G2 R2]. split; [done|]. etransitivity; eauto.
Qed.

Lemma sim_bind {A B} (m : M A) (k : A -> M B) : sim m -> (forall a, sim (k a)) -> sim (bind m k).
Proof. intros Hm Hk w G. apply simulates_bind; [now apply Hm|]. intros w' a _ G'. now apply Hk. Qed.

Lemma sim_ret {A} (a : A) : sim (ret a).
Proof. intros w G. split; [done|reflexivity]. Qed.
Lemma sim_fail {A} e : sim (@fail Script A e).
Proof. intros w G. split; [done|reflexivity]. Qed.
Lemma sim_lift {A} (r : result A KasError) : sim (lift r).
Proof. intros w G. split; [done|reflexivity]. Qed.

Lemma good_tick w : good w -> good (tick_call w).
Proof. intros [W L]. constructor; done. Qed.

Lemma sim_call_node {A} (f : nat -> result A string) : sim (call_node f).
Proof. intros w G. split; [now apply good_tick|reflexivity]. Qed.
Lemma sim_call_node_try {A} (f : nat -> result A string) : sim (call_node_try f).
Proof. intros w G. split; [now apply good_tick|reflexivity]. Qed.
Lemma sim_call_lock : sim call_lock.
Proof. intros w G. split; [now apply good_tick|reflexivity]. Qed.

(** A database call from a state it refines in, whatever the fault. *)
Lemma simulates_call_db {A} (m : DB A) w :
  good w ->
  (forall a d', m (wd_db w) = Ok (a, d') -> payouts_wf d' /\
     forall sent, rtc lstep (mkLedger (rows (wd_db w)) sent) (mkLedger (rows d') sent)) ->
  simulates (call_db m) w.
Proof.
  intros G Hm.
  assert (forall a d', m (wd_db w) = Ok (a, d') ->
    payouts_wf d' /\ rtc lstep (abs w) (abs (with_db d' (tick_call w)))) as Hm'.
  { intros a d' E. destruct (Hm a d' E) as [W R]. split; [exact W|exact (R _)]. }
  unfold simulates, call_db. destruct (ke_fault (wd_calls w));
    [|split; [now apply good_tick|reflexivity]|];
    destruct (m (wd_db w)) as [[a d']|e] eqn:E; simpl;
      try (split; [now apply good_tick|reflexivity]);
      destruct (Hm' a d' eq_refl) as [W' R]; (split; [constructor; [done|eapply lsteps_ok; [exact R|apply G]]|exact R]).
Qed.

Lemma sim_call_db {A} (m : DB A) : refines m -> sim (call_db m).
Proof. intros Hm w G. apply simulates_call_db; [done|]. intros a d'. apply Hm, G. Qed.

Lemma refines_wallet_get i : refines (wallet_get_by_id i).
Proof. apply refines_read_checked. Qed.

Ltac simstep :=
  repeat first
    [ apply sim_bind; [|intros ?] | apply sim_ret | apply sim_fail | apply sim_lift
    | apply sim_call_node | apply sim_call_node_try | apply sim_call_lock
    | apply sim_call_db; solve [auto with kat | apply refines_cycle_marks
        | apply refines_reconcile_tx | apply refines_plan_tx | apply refines_read
        | apply refines_read_checked]
    | match goal with
      | |- sim (match ?x with _ => _ end) => destruct x
      | |- sim (if ?x then _ else _) => destruct x
      end ].

Lemma sim_confirm_one v s p r : sim (confirm_one v s p r).
Proof. unfold confirm_one. simstep. Qed.

Lemma sim_confirm_loop v s ps : forall r, sim (confirm_loop v s ps r).
Proof.
  induction ps as [|p ps IH]; intros r; simpl; [apply sim_ret|].
  apply sim_bind; [apply sim_confirm_one|]. intros. apply IH.
Qed.

Lemma sim_confirm_cycle c : sim (confirm_cycle c).
Proof.
  unfold confirm_cycle. destruct (in_flight c) as [|p ps]; [apply sim_ret|].
  do 2 (apply sim_bind; [apply sim_call_node|intros ?]). apply sim_confirm_loop.
Qed.

Lemma sim_reconcile i : sim (reconcile_cycle_status i).
Proof. unfold reconcile_cycle_status, list_for_cycle. simstep. Qed.

Lemma sim_resume p : sim (resume_or_plan_kas_cycle p).
Proof.
  unfold resume_or_plan_kas_cycle, plan_kas_cycle, find_cycle_by_idempotency_key, list_for_cycle,
    get_cycle. simstep.
Qed.

(** ** Inverting successful steps *)

Lemma bind_ok {A B} (m : M A) (k : A -> M B) w w' b :
  bind m k w = (w', Ok b) <-> exists w1 a, m w = (w1, Ok a) /\ k a w1 = (w', Ok b).
Proof.
  unfold bind. destruct (m w) as [w1 [a|e]]; split; intros H.
  - eauto.
  - destruct H as (? & ? & [= <- <-] & ?). done.
  - discriminate.
  - destruct H as (? & ? & ? & ?). discriminate.
Qed.

Lemma call_db_ok {A} (m : DB A) w w' a :
  call_db m w = (w', Ok a) ->
  exists d', m (wd_db w) = Ok (a, d') /\ w' = mkWorld d' (wd_log w) (S (wd_calls w)).
Proof.
  unfold call_db. destruct (ke_fault (wd_calls w)); [|discriminate|];
    destruct (m (wd_db w)) as [[b d']|e]; intros H; try discriminate H.
  injection H as <- <-. eauto.
Qed.

(** A step that only reads: the database and the log are as before, on every
    outcome. *)
Definition reads {A} (m : M A) : Prop :=
  forall w, wd_db (fst (m w)) = wd_db w /\ wd_log (fst (m w)) = wd_log w.

Lemma reads_bind {A B} (m : M A) (k : A -> M B) :
  reads m -> (forall a, reads (k a)) -> reads (bind m k).
Proof.
  intros Hm Hk w. unfold bind. destruct (Hm w) as [E1 E2].
  destruct (m w) as [w1 [a|e]]; simpl in *; [|done]. destruct (Hk a w1) as [E3 E4].
  split; congruence.
Qed.

Lemma reads_ret {A} (a : A) : reads (ret a). Proof. done. Qed.
Lemma reads_lift {A} (r : result A KasError) : reads (lift r). Proof. done. Qed.
Lemma reads_node {A} (f : nat -> result A string) : reads (call_node f). Proof. done. Qed.
Lemma reads_node_try {A} (f : nat -> result A string) : reads (call_node_try f). Proof. done. Qed.

Lemma reads_call_db {A} (m : DB A) :
  (forall d a d', m d = Ok (a, d') -> d' = d) -> reads (call_db m).
Proof.
  intros Hm w. unfold call_db. destruct (ke_fault (wd_calls w)); [|done|];
    destruct (m (wd_db w)) as [[b d']|e] eqn:E; try done; simpl; now rewrite (Hm _ _ _ E).
Qed.

Lemma db_read_same {A} (f : Db -> A) d a d' : db_read f d = Ok (a, d') -> d' = d.
Proof. unfold db_read. intros. now inv_eqs. Qed.

Lemma wallet_get_same i d a d' : wallet_get_by_id i d = Ok (a, d') -> d' = d.
Proof. intros H. symmetry. exact (db_read_checked_same _ _ _ _ H). Qed.

Lemma reads_ok {A} (m : M A) w w' a :
  reads m -> m w = (w', Ok a) -> wd_db w' = wd_db w /\ wd_log w' = wd_log w.
Proof. intros Hm E. specialize (Hm w). now rewrite E in Hm. Qed.

(** ** Resolving recipients *)

(** [r] is what the planner is given for the row [p]. *)
Definition resolves (d : Db) (p : Payout) (r : PayoutRecipient Script) : Prop :=
  pr_id r = pretty (po_id p) /\ pr_amount_sompi r = po_amount_sompi p /\ 0 <= pr_amount_sompi r /\
  exists wl, In wl (db_wallets d) /\ w_id wl = po_wallet_id p /\
    ke_script_of (w_address wl) = Ok (pr_script_public_key r).

Lemma reads_resolve_one p : reads (resolve_recipient p).
Proof.
  unfold resolve_recipient. apply reads_bind; [apply reads_lift|intros ?].
  apply reads_bind; [apply reads_call_db, wallet_get_same|intros ?].
  apply reads_bind; [apply reads_lift|intros ?]. apply reads_ret.
Qed.

Lemma reads_resolve ps : reads (resolve_recipients ps).
Proof.
  induction ps as [|p ps IH]; simpl; [apply reads_ret|].
  apply reads_bind; [apply reads_resolve_one|intros ?]. apply reads_bind; [exact IH|intros ?].
  apply reads_ret.
Qed.

Lemma resolve_one_ok p w w' r :
  resolve_recipient p w = (w', Ok r) -> resolves (wd_db w) p r.
Proof.
  intros (w1 & amt & H1 & H)%bind_ok. apply bind_ok in H as (w2 & wl & H2 & H).
  apply bind_ok in H as (w3 & sc & H3 & H). unfold lift, ret in *.
  injection H1 as <- H1. injection H3 as <- H3. injection H as _ <-.
  apply call_db_ok in H2 as (d' & H2 & _). unfold wallet_get_by_id, db_read_checked, fetch_one in H2.
  destruct (List.find _ _) as [wl'|] eqn:F; [|discriminate]. injection H2 as <- _.
  apply find_some in F as [Hin Hid]. apply Z.eqb_eq in Hid.
  destruct (u64_try_from (po_amount_sompi p)) as [a|] eqn:U; [|discriminate]. injection H1 as <-.
  apply checked_u64_Some in U as [<- [Hp _]].
  destruct (ke_script_of (w_address wl')) as [sc'|] eqn:S; [|discriminate]. injection H3 as <-.
  repeat split; simpl; auto. eauto.
Qed.

Lemma resolve_ok ps : forall w w' rs,
  resolve_recipients ps w = (w', Ok rs) -> List.Forall2 (resolves (wd_db w)) ps rs.
Proof.
  induction ps as [|p ps IH]; intros w w' rs H; simpl in H.
  - injection H as _ <-. constructor.
  - apply bind_ok in H as (w1 & r & H1 & H). apply bind_ok in H as (w2 & rs' & H2 & H).
    injection H as _ <-. constructor; [exact (resolve_one_ok _ _ _ _ H1)|].
    apply reads_ok in H1 as [E _]; [|apply reads_resolve_one]. rewrite <- E. eauto.
Qed.

Lemma call_db_calls {A} (m : DB A) w : wd_calls (fst (call_db m w)) = S (wd_calls w).
Proof.
  unfold call_db. destruct (ke_fault _); [|done|]; destruct (m (wd_db w)) as [[? ?]|]; done.
Qed.

(** Resolving the recipients reads one wallet per row. *)
Lemma resolve_calls ps : forall w w' rs,
  resolve_recipients ps w = (w', Ok rs) -> wd_calls w' = (wd_calls w + length ps)%nat.
Proof.
  induction ps as [|p ps IH]; intros w w' rs H; simpl in H.
  - injection H as <- _. simpl. lia.
  - apply bind_ok in H as (w1 & r & H1 & H). apply bind_ok in H as (w2 & rs' & H2 & H).
    injection H as <- _. rewrite (IH _ _ _ H2). unfold resolve_recipient in H1.
    apply bind_ok in H1 as (w3 & a & H3 & H1). unfold lift in H3. injection H3 as <- _.
    apply bind_ok in H1 as (w4 & wl & H4 & H1). apply bind_ok in H1 as (w5 & sc & H5 & H1).
    unfold lift in H5. injection H5 as <- _. injection H1 as <- _.
    pose proof (call_db_calls (wallet_get_by_id (po_wallet_id p)) w) as E. rewrite H4 in E.
    simpl in *. lia.
Qed.

Lemma batch_rows_ok pend (rs : list (PayoutRecipient Script)) : forall ids,
  batch_rows pend rs = Ok ids ->
  List.Forall2 (fun r id => exists p, In p pend /\ po_id p = id /\ pretty id = pr_id r) rs ids.
Proof.
  induction rs as [|r rs IH]; intros ids H; simpl in H; [injection H as <-; constructor|].
  apply rbind_ok in H as (p & Hp & H). apply rbind_ok in H as (ids' & H1 & [= <-]).
  constructor; [|now apply IH]. unfold lookup_row in Hp.
  destruct (List.find _ _) as [q|] eqn:F; [|discriminate]. injection Hp as ->.
  apply find_some in F as [Hin Hq]. apply in_rev in Hin. apply String.eqb_eq in Hq. eauto.
Qed.

Lemma batch_rows_pretty pend (rs : list (PayoutRecipient Script)) ids :
  batch_rows pend rs = Ok ids -> map pretty ids = map pr_id rs.
Proof.
  intros H%batch_rows_ok. induction H as [|r id rs ids (p & _ & _ & E) _ IH]; simpl; [done|].
  now rewrite E, IH.
Qed.

Lemma batch_rows_NoDup pend (rs : list (PayoutRecipient Script)) ids :
  batch_rows pend rs = Ok ids -> List.NoDup (map pr_id rs) -> List.NoDup ids.
Proof. intros H Hn. rewrite <- (batch_rows_pretty _ _ _ H) in Hn. now apply NoDup_map_inv in Hn. Qed.

(** ** Broadcasting *)

(** The recipients of the batches are distinct, and the rows they stand for are
    all still planned. *)
Definition clear_to_pay (pend : list Payout) (bs : list (PlannedBatch Script)) (d : Db) : Prop :=
  List.NoDup (map pr_id (concat (map pb_payouts bs))) /\
  forall r p, In r (concat (map pb_payouts bs)) -> In p pend -> pretty (po_id p) = pr_id r ->
    planned_only d (po_id p).

Lemma simulates_record ids txid w :
  good w -> List.NoDup ids -> (forall id, In id ids -> planned_only (wd_db w) id) ->
  simulates (call_db (submit_tx txid ids)) w.
Proof.
  intros G Hn Hp. apply simulates_call_db; [done|]. intros [] d' H.
  destruct (submit_tx_rows txid ids _ _ (good_wf _ G) Hn Hp H) as [W E]. split; [done|].
  intros sent. apply rtc_once. rewrite E. exact (LRecord ids txid (mkLedger (rows (wd_db w)) sent) Hn Hp).
Qed.

Lemma planned_not_sent w id : good w -> planned_only (wd_db w) id -> ~ In id (sent_ids (abs w)).
Proof.
  intros [_ [_ Hr]] [Hex Hpl] Hin. unfold sent_ids in Hin.
  apply in_concat in Hin as (ids & Hids & Hid). apply in_map_iff in Hids as ([ids' t] & <- & Hs).
  destruct (Hr ids' t id Hs Hid) as [_ H]. apply in_map_iff in Hex as (r & E & Hrow).
  destruct (H r Hrow E) as [Hn _]. apply Hn. auto.
Qed.

Lemma clear_to_pay_next pend b bs d d' ids txid :
  clear_to_pay pend (b :: bs) d -> batch_rows pend (pb_payouts b) = Ok ids ->
  rows d' = record_rows txid ids (rows d) -> clear_to_pay pend bs d'.
Proof.
  intros [Hn Hp] Hb E. simpl in Hn, Hp. rewrite map_app in Hn. split.
  - now apply List.NoDup_app_remove_l in Hn.
  - intros r p Hr Hin Heq. unfold planned_only. rewrite E. apply record_rows_other.
    + intros Hid. assert (In (pr_id r) (map pr_id (pb_payouts b))) as Hdup.
      { rewrite <- (batch_rows_pretty _ _ _ Hb), <- Heq. now apply in_map. }
      apply (List.NoDup_app_remove_r _ _) in Hn as Hn1.
      rewrite <- NoDup_ListNoDup, NoDup_app in Hn. destruct Hn as (_ & Hd & _).
      apply (Hd (pr_id r)); apply list_elem_of_In; [done|]. now apply in_map.
    + apply (Hp r p); [apply in_app_iff; auto|done|done].
Qed.

Lemma clear_to_pay_tail pend b bs d : clear_to_pay pend (b :: bs) d -> clear_to_pay pend bs d.
Proof.
  intros [Hn Hp]. simpl in Hn, Hp. rewrite map_app in Hn. split.
  - now apply List.NoDup_app_remove_l in Hn.
  - intros r p Hr. apply Hp, in_app_iff. auto.
Qed.

Lemma clear_to_pay_batch pend b bs d ids :
  clear_to_pay pend (b :: bs) d -> batch_rows pend (pb_payouts b) = Ok ids ->
  List.NoDup ids /\ forall id, In id ids -> planned_only d id.
Proof.
  intros [Hn Hp] Hb. simpl in Hn, Hp. rewrite map_app in Hn. split.
  - eapply batch_rows_NoDup; [exact Hb|]. now apply List.NoDup_app_remove_r in Hn.
  - apply batch_rows_ok in Hb. intros id Hid.
    apply list_elem_of_In, list_elem_of_lookup in Hid as (k & Hk).
    destruct (Forall2_lookup_r _ _ _ _ _ Hb Hk) as (r & Hr & p & Hin & <- & E).
    apply (Hp r p); [|done|done]. apply in_app_iff. left.
    apply list_elem_of_In. eapply list_elem_of_lookup_2, Hr.
Qed.

Lemma simulates_submit ids s w :
  good w -> List.NoDup ids ->
  (forall id, In id ids -> row_is (rows (wd_db w)) id
     (fun r => r = mkRow id Submitted (Some (ke_txid (sb_tx s))))) ->
  (forall id, In id ids -> ~ In id (sent_ids (abs w))) ->
  simulates (call_submit ids s) w.
Proof.
  intros G Hn Hr Hd. apply simulates_intro; [done|apply G|]. unfold abs. simpl.
  rewrite map_app. apply rtc_once. exact (LBroadcast ids (ke_txid (sb_tx s)) (abs w) Hn Hr Hd).
Qed.

Lemma broadcast_loop_sim mode pend fr bs : forall rep w,
  good w -> clear_to_pay pend bs (wd_db w) -> simulates (broadcast_loop mode pend fr bs rep) w.
Proof.
  induction bs as [|b bs IH]; intros rep w G C; [split; [done|reflexivity]|]. cbn [broadcast_loop].
  apply simulates_bind; [now apply sim_lift|]. intros w0 ids [= <- Hb] _.
  destruct (clear_to_pay_batch _ _ _ _ _ C Hb) as [Hn Hp].
  apply simulates_bind; [now apply sim_lift|]. intros w0 signed [= <- _] _.
  destruct mode.
  - apply simulates_bind; [now apply simulates_record|]. intros w1 [] H1 G1.
    apply call_db_ok in H1 as (d1 & H1 & ->).
    destruct (submit_tx_rows _ ids _ _ (good_wf _ G) Hn Hp H1) as [W1 E1].
    apply simulates_bind.
    + apply simulates_submit; [done|done| |].
      * intros id Hid. simpl. rewrite E1. eapply record_rows_own; [done|now apply Hp].
      * intros id Hid. change (sent_ids _) with (sent_ids (abs w)). now apply planned_not_sent, Hp.
    + intros w2 out H2 G2. unfold call_submit in H2. injection H2 as <- _.
      apply IH; [done|]. simpl. eapply clear_to_pay_next; eauto.
  - apply IH; [done|]. eapply clear_to_pay_tail, C.
Qed.

(** ** A whole cycle *)

(** The rows of a loaded cycle are current. *)
Definition snapshot (c : CycleState) (d : Db) : Prop :=
  List.NoDup (map po_id (cst_payouts c)) /\ forall p, In p (cst_payouts c) -> In p (db_payouts d).

Lemma pending_planned c d p :
  payouts_wf d -> snapshot c d -> In p (pending c) -> planned_only d (po_id p).
Proof.
  intros W [_ Hs] [Hin Hst]%filter_In. apply Hs in Hin.
  assert (po_status p = Planned) as Es.
  { unfold status_in in Hst. simpl in Hst. rewrite orb_false_r in Hst. now apply bool_decide_eq_true in Hst. }
  split.
  - unfold rows. rewrite map_map. apply in_map_iff. now exists p.
  - intros r (q & <- & Hq)%in_map_iff E. simpl in *.
    now rewrite (NoDup_map_inj po_id (db_payouts d) q p (wf_ids _ W) Hq Hin E).
Qed.

Lemma resolves_ids d ps rs : List.Forall2 (resolves d) ps rs -> map pr_id rs = map pretty (map po_id ps).
Proof. induction 1 as [|p r ps rs [E _] _ IH]; simpl; [done|]. now rewrite E, IH. Qed.

Lemma resolves_nonneg d ps (rs : list (PayoutRecipient Script)) :
  List.Forall2 (resolves d) ps rs -> Forall (fun r => 0 <= pr_amount_sompi r) rs.
Proof. induction 1 as [|p r ps rs (_ & _ & H & _) _ IH]; constructor; auto. Qed.

Lemma NoDup_map_pretty (l : list Z) : List.NoDup l -> List.NoDup (map pretty l).
Proof.
  induction 1 as [|x l Hx _ IH]; simpl; constructor; auto.
  intros (y & E & Hy)%in_map_iff. apply (inj pretty) in E. now subst.
Qed.

(** A coin is mature at virtual score [v]: 1000 DAA past its block for a coinbase
    output, 10 for any other, the sum saturating at [u64::MAX]. *)
Definition mature_at (v : Z) (u : TreasuryUtxo Script) : Prop :=
  Z.min u64_max (ue_block_daa_score (tu_entry u) + if ue_is_coinbase (tu_entry u) then 1000 else 10) <= v.

Lemma spendable_coins_In v pr us (u : TreasuryUtxo Script) : In u (spendable_coins v pr us) ->
  In u us /\ mature_at v u /\ ~ In (op_transaction_id (tu_outpoint u)) pr.
Proof.
  unfold spendable_coins. rewrite !filter_In. intros [[Hin Hs] Hp]. repeat split; auto.
  { unfold is_spendable, sat_u64, COINBASE_MATURITY_DAA, NON_COINBASE_MATURITY_DAA in Hs.
    apply Z.leb_le in Hs. unfold mature_at. destruct (ue_is_coinbase _); lia. }
  rewrite negb_true_iff, bool_decide_eq_false in Hp. now rewrite list_elem_of_In in Hp.
Qed.

Lemma spendable_coins_funded v pr us (rs : list (PayoutRecipient Script)) :
  Forall (fun u => 0 <= utxo_amount u) us -> total_in us < u64_max ->
  Forall (fun r => 0 <= pr_amount_sompi r) rs -> funded (spendable_coins v pr us) rs.
Proof.
  intros Hu Ht Hr. assert (forall u, In u us -> 0 <= utxo_amount u) as Hu'
    by now rewrite List.Forall_forall in Hu.
  constructor; [|done|].
  - apply List.Forall_forall. intros u Hin. apply spendable_coins_In in Hin as [Hin _]. auto.
  - unfold spendable_coins, total_in in *.
    pose proof (sumZ_filter_le utxo_amount (fun s => is_spendable (ue_block_daa_score (tu_entry s))
      (ue_is_coinbase (tu_entry s)) v) us Hu') as L1.
    match goal with |- sumZ (map _ (List.filter ?q ?l)) < _ =>
      pose proof (sumZ_filter_le utxo_amount q l) as L2 end.
    assert (forall x, In x (List.filter (fun s => is_spendable (ue_block_daa_score (tu_entry s))
      (ue_is_coinbase (tu_entry s)) v) us) -> 0 <= utxo_amount x) as L3
      by (intros x [Hx _]%filter_In; auto).
    specialize (L2 L3). lia.
Qed.

(** The recipients of a plan are distinct when the requested ones are. *)
Lemma plan_distinct us rs fr r :
  0 <= min_relay_sompi_per_kg fr -> funded us rs -> List.NoDup (map pr_id rs) ->
  plan_batches ke_block_mass_limit us rs ke_treasury_script fr = Some r ->
  List.NoDup (map pr_id (concat (map pb_payouts (pl_batches r)))) /\
  forall q, In q (concat (map pb_payouts (pl_batches r))) -> In q rs.
Proof.
  intros Hfr Hf Hn E. destruct (plan_partition _ _ _ Hfr us rs r Hf Hn E) as (Hp & _). split.
  - apply (Permutation_NoDup (Permutation_map pr_id Hp)) in Hn. rewrite map_app in Hn.
    now apply List.NoDup_app_remove_r in Hn.
  - intros q Hq. apply (Permutation_in q (Permutation_sym Hp)), in_app_iff. auto.
Qed.

Lemma from_feerate_relay f : 0 <= min_relay_sompi_per_kg (from_feerate f).
Proof. discriminate. Qed.

Context `{LW : !KasEnvLaws Script}.

(** Only cycle rows may differ. *)
Definition same_books (d d' : Db) : Prop :=
  db_payouts d' = db_payouts d /\ db_wallets d' = db_wallets d /\
  db_seq d' = db_seq d /\ db_now d' = db_now d.

Lemma same_books_trans d1 d2 d3 : same_books d1 d2 -> same_books d2 d3 -> same_books d1 d3.
Proof. unfold same_books. intuition congruence. Qed.

(** The batches of [c] are about to go out, planned from the spendable coins of a node
    snapshot for the resolved pending rows; call [k] read the virtual score, the next
    one the unsettled transactions, and the one after it the snapshot. *)
Record launch (c : CycleState) (d : Db) (k : nat) (bs : list (PlannedBatch Script)) (fr : FeeRate) : Prop := {
  la_rate : exists f, fr = from_feerate f;
  la_plan : exists rs us v plan, List.Forall2 (resolves d) (pending c) rs /\
    ke_virtual_daa_score k = Ok v /\ ke_treasury_utxos (S (S k)) = Ok us /\
    plan_batches ke_block_mass_limit
      (spendable_coins v
         (omap bytes32 (flat_map payout_hashes
            (List.filter (fun p => negb (status_in [Confirmed; Failed] p)) (db_payouts d)))) us)
      rs ke_treasury_script fr = Some plan /\
    bs = pl_batches plan
}.

Lemma mark_broadcasting_books i d d' :
  mark_cycle_broadcasting i d = Ok (tt, d') -> same_books d d'.
Proof.
  unfold mark_cycle_broadcasting. intros (n & d1 & H1 & H2)%db_bind_ok. unfold db_ret in H2. inv_eqs.
  unfold update_cycles in H1. destruct (tbl_update _ _ _ _) as [[rws m]|]; inv_eqs. done.
Qed.

(** A broadcast pass stops before sending anything, or runs the loop. *)
Definition stops_or_runs c mode w (r : World Script * result ExecutionReport KasError) : Prop :=
  (same_books (wd_db w) (wd_db (fst r)) /\ wd_log (fst r) = wd_log w) \/
  exists w' bs fr rep, launch c (wd_db w) (wd_calls w + length (pending c)) bs fr /\ same_books (wd_db w) (wd_db w') /\
    wd_log w' = wd_log w /\ r = broadcast_loop mode (pending c) fr bs rep w'.

Lemma stops c mode w w' e :
  same_books (wd_db w) (wd_db w') -> wd_log w' = wd_log w -> stops_or_runs c mode w (w', e).
Proof. intros. now left. Qed.

Lemma broadcast_cycle_cases c mode w : stops_or_runs c mode w (broadcast_cycle c mode w).
Proof.
  unfold broadcast_cycle. destruct (pending c) as [|p0 ps0] eqn:Ep; [now apply stops|].
  rewrite <- Ep. clear p0 ps0 Ep. unfold bind at 1. pose proof (reads_resolve (pending c) w) as [D1 L1].
  pose proof (resolve_ok (pending c) w) as Hrs. pose proof (resolve_calls (pending c) w) as Hk.
  destruct (resolve_recipients (pending c) w) as [w1 [rs|e]]; [|apply stops; simpl in *; now rewrite ?D1, ?L1].
  specialize (Hrs w1 rs eq_refl). specialize (Hk w1 rs eq_refl). simpl in D1, L1.
  unfold bind at 1, call_node at 1. destruct (ke_virtual_daa_score _) as [v|] eqn:EV0; simpl;
    [|apply stops; simpl; now rewrite ?D1, ?L1].
  unfold bind at 1. pose proof (reads_call_db in_flight_spend_tx_hashes (db_read_same _)
    (tick_call w1)) as [D2 L2].
  pose proof (call_db_ok in_flight_spend_tx_hashes (tick_call w1)) as H2.
  pose proof (call_db_calls in_flight_spend_tx_hashes (tick_call w1)) as Hk2.
  destruct (call_db _ _) as [w2 [hs|e]]; simpl in D2, L2; [|apply stops; simpl; now rewrite ?D2, ?L2, ?D1, ?L1].
  destruct (H2 w2 hs eq_refl) as (d2 & H2' & _). unfold in_flight_spend_tx_hashes, db_read in H2'.
  injection H2' as Hhs _. simpl in Hhs. rewrite D1 in Hhs.
  unfold bind at 1, call_node at 1. destruct (ke_treasury_utxos _) as [us|] eqn:EU; simpl;
    [|apply stops; simpl; now rewrite ?D2, ?L2, ?D1, ?L1].
  unfold bind at 1, live_fee_rate, bind at 1, call_node_try, ret, bind at 1, lift. simpl.
  set (fr := from_feerate _). destruct (plan_batches _ _ _ _ _) as [plan|] eqn:EP; simpl;
    [|apply stops; simpl; now rewrite ?D2, ?L2, ?D1, ?L1].
  set (rep := mkExecutionReport _ _ _ _ _ _ _). set (w5 := tick_call (tick_call w2)).
  assert (launch c (wd_db w) (wd_calls w + length (pending c)) (pl_batches plan) fr) as La.
  { constructor; [now eexists|]. simpl in Hk2. rewrite Hk2 in EU. rewrite <- Hk. subst hs. eauto 10. }
  assert (same_books (wd_db w) (wd_db w5) /\ wd_log w5 = wd_log w) as [B5 L5].
  { unfold w5. simpl. rewrite D2, L2, D1, L1. done. }
  clearbody w5 rep. clear - La B5 L5. unfold bind.
  destruct mode; [destruct (pl_batches plan) as [|b bs] eqn:EB|]; try solve [right; simpl; eauto 10].
  unfold call_db. destruct (ke_fault _); [|now apply stops|];
    destruct (mark_cycle_broadcasting _ _) as [[[] d]|] eqn:EM; try (now apply stops);
    apply mark_broadcasting_books in EM.
  - right. exists (with_db d (tick_call w5)), (b :: bs), fr, rep. simpl.
    split; [done|]. split; [|done]. eapply same_books_trans; eauto.
  - apply stops; simpl; [eapply same_books_trans; eauto|done].
Qed.

Lemma launch_clear c d k bs fr :
  payouts_wf d -> snapshot c d -> launch c d k bs fr -> clear_to_pay (pending c) bs d.
Proof.
  intros W S [(f & ->) (rs & us & v & plan & Hrs & _ & EU & EP & ->)].
  destruct (law_coins _ _ EU) as [Hu Ht].
  assert (List.NoDup (map pr_id rs)) as Hn
    by (rewrite (resolves_ids _ _ _ Hrs); apply NoDup_map_pretty, NoDup_map_filter, S).
  destruct (plan_distinct _ _ _ _ (from_feerate_relay f)
    (spendable_coins_funded _ _ _ _ Hu Ht (resolves_nonneg _ _ _ Hrs)) Hn EP) as [Hd _].
  split; [exact Hd|]. intros r p _ Hin _. eapply pending_planned; eauto.
Qed.

Lemma same_books_good w w' :
  good w -> same_books (wd_db w) (wd_db w') -> wd_log w' = wd_log w -> good w' /\ abs w' = abs w.
Proof.
  intros [W L] (E1 & _ & E2 & E3) EL.
  assert (abs w' = abs w) as EA by (unfold abs, rows; now rewrite E1, EL).
  split; [|exact EA]. constructor; [|now rewrite EA].
  apply (payouts_wf_same (wd_db w)); auto; lia.
Qed.

Lemma broadcast_cycle_sim c mode w :
  good w -> snapshot c (wd_db w) -> simulates (broadcast_cycle c mode) w.
Proof.
  intros G S. destruct (broadcast_cycle_cases c mode w) as [[B L]|(w' & bs & fr & rep & La & B & L & E)].
  - destruct (same_books_good _ _ G B L) as [G' EA]. split; [done|]. now rewrite EA.
  - destruct (same_books_good _ _ G B L) as [G' EA]. unfold simulates. rewrite E, <- EA.
    apply broadcast_loop_sim; [done|].
    destruct (launch_clear c _ _ bs fr (good_wf _ G) S La) as [C1 C2]. split; [done|].
    intros r p Hr Hp Eq. unfold planned_only, rows. destruct B as (-> & _). now apply (C2 r p).
Qed.

(** ** A tick *)

Lemma list_snapshot c d i :
  payouts_wf d ->
  cst_payouts c = sort_by payout_amount_le (List.filter (fun p => po_cycle_id p =? i) (db_payouts d)) ->
  snapshot c d.
Proof.
  intros W E. split; rewrite E.
  - apply sort_by_NoDup_map, NoDup_map_filter, W.
  - intros p Hp. apply sort_by_In, filter_In in Hp. tauto.
Qed.

Lemma resume_snapshot p w w' st :
  payouts_wf (wd_db w') -> resume_or_plan_kas_cycle p w = (w', Ok st) ->
  snapshot st (wd_db w') /\ wd_log w' = wd_log w.
Proof.
  intros W H. unfold resume_or_plan_kas_cycle in H. apply bind_ok in H as (w1 & found & H1 & H).
  apply call_db_ok in H1 as (d1 & _ & ->). destruct found as [cy|].
  - apply bind_ok in H as (w2 & ps & H2 & H). apply call_db_ok in H2 as (d2 & H2 & ->).
    apply bind_ok in H as (w3 & k & H3 & [= <- <-]). apply call_db_ok in H3 as (d3 & H3 & ->).
    unfold list_for_cycle, db_read in H2. injection H2 as <- <-.
    unfold audit_append in H3. injection H3 as _ <-. split; [|done].
    eapply list_snapshot; [exact W|]. simpl. reflexivity.
  - apply bind_ok in H as (w2 & st2 & H2 & H). unfold plan_kas_cycle in H2.
    apply bind_ok in H2 as (w3 & cy & H3 & H2). apply call_db_ok in H3 as (d3 & _ & ->).
    apply bind_ok in H2 as (w4 & ps & H4 & H2). apply call_db_ok in H4 as (d4 & H4 & ->).
    apply bind_ok in H2 as (w5 & cy' & H5 & [= <- <-]). apply call_db_ok in H5 as (d5 & H5 & ->).
    apply bind_ok in H as (w6 & k & H6 & [= <- <-]). apply call_db_ok in H6 as (d6 & H6 & ->).
    unfold list_for_cycle, db_read in H4. injection H4 as <- <-.
    unfold get_cycle in H5. simpl in H5. apply db_read_checked_same in H5 as <-. unfold audit_append in H6. injection H6 as _ <-.
    split; [|done]. eapply list_snapshot; [exact W|]. simpl. reflexivity.
Qed.

Lemma run_locked_sim cfg : sim (run_locked cfg).
Proof.
  intros w G. unfold run_locked. apply simulates_bind; [now apply sim_call_node|].
  intros w1 v _ G1. apply simulates_bind; [now apply sim_resume|]. intros w2 st H2 G2.
  destruct (resume_snapshot _ _ _ _ (good_wf _ G2) H2) as [S _].
  destruct (over_spend_cap _ _); [now apply sim_fail|].
  apply simulates_bind; [now apply broadcast_cycle_sim|]. intros w3 rep _ G3. revert w3 G3.
  change (sim (bind (call_db (get_cycle (cy_id (cst_cycle st)))) (fun cycle =>
    bind (call_db (list_for_cycle (cy_id (cst_cycle st)))) (fun payouts =>
    bind (confirm_cycle (mkCycleState cycle payouts)) (fun confirm =>
    bind (reconcile_cycle_status (cy_id (cst_cycle st))) (fun status =>
    ret (Ran (mkTickReport (cy_id (cst_cycle st)) v
      (fst (cycle_window v (cfg_cycle_span_daa cfg))) (snd (cycle_window v (cfg_cycle_span_daa cfg)))
      rep confirm status)))))))).
  apply sim_bind; [apply sim_call_db, refines_read_checked|intros cy].
  apply sim_bind; [apply sim_call_db, refines_read|intros ps].
  apply sim_bind; [apply sim_confirm_cycle|intros cf].
  apply sim_bind; [apply sim_reconcile|intros s]. apply sim_ret.
Qed.

Lemma run_once_sim cfg : sim (run_once cfg).
Proof.
  unfold run_once. apply sim_bind; [apply sim_call_lock|]. intros []; [apply run_locked_sim|apply sim_ret].
Qed.

(** C3. The KAS payout engine refines the payout ledger: from a state whose
    ledger is in order, one tick, with any configuration, database faults at any
    call, node answers and signing outcomes, and whether it ends in a report or
    an error, is a run of the abstract machine (plan, record intent, broadcast,
    accept, confirm) between the abstractions of the two states. *)
Theorem run_once_refines_ledger cfg w :
  good w -> good (fst (run_once cfg w)) /\ rtc lstep (abs w) (abs (fst (run_once cfg w))).
Proof. apply run_once_sim. Qed.
End Sim.

(** ** Histories *)

(** One event of the deployment: a tick (any configuration and answers), a
    payout-table call of another engine or an operator that does not resubmit a
    row the engine has broadcast, or a write to other tables. *)
Section History.
Context {Script : Type} `{MC : MassCalculator Script}.

Definition txids_stable (ev0 ev : KasEnv Script) : Prop :=
  forall tx, @ke_txid Script ev tx = @ke_txid Script ev0 tx.

Context (EV0 : KasEnv Script).

Inductive kas_step : World Script -> World Script -> Prop :=
| KTick (ev : KasEnv Script) cfg w :
    @KasEnvLaws Script ev -> txids_stable EV0 ev -> kas_step w (fst (run_once (EV := ev) cfg w))
| KRepo op d' w :
    run_payout_op op (wd_db w) = Ok (tt, d') ->
    (forall id h, op = OpSubmit id h -> ~ In id (sent_ids (abs w))) ->
    kas_step w (mkWorld d' (wd_log w) (wd_calls w))
| KOther d' w :
    db_payouts d' = db_payouts (wd_db w) -> db_seq (wd_db w) <= db_seq d' ->
    db_now (wd_db w) <= db_now d' -> kas_step w (mkWorld d' (wd_log w) (wd_calls w)).

Definition kas_reachable (d : Db) : World Script -> Prop := rtc kas_step (mkWorld d [] 0).

Lemma op_row_hash op now p :
  po_status p <> Planned -> (forall id h, op = OpSubmit id h -> po_id p <> id) ->
  po_status (op_row op now p) <> Planned /\ po_tx_hash (op_row op now p) = po_tx_hash p.
Proof.
  intros Hs Hn. unfold op_row. destruct (op_guard op p) eqn:G; [|done].
  destruct op; simpl in *; try done; try (split; [discriminate|done]).
  exfalso. to_prop. eapply Hn; eauto.
Qed.

Lemma good_repo op d' w :
  good w -> run_payout_op op (wd_db w) = Ok (tt, d') ->
  (forall id h, op = OpSubmit id h -> ~ In id (sent_ids (abs w))) ->
  good (mkWorld d' (wd_log w) (wd_calls w)).
Proof.
  intros [W [Ho Hr]] H Hn. constructor; [exact (run_payout_op_wf _ _ _ W H)|]. constructor; [exact Ho|].
  intros ids txid id Hs Hid. destruct (Hr ids txid id Hs Hid) as [Hin Hrow].
  pose proof (sent_In (abs w) ids txid id Hs Hid) as Hsent. unfold abs, rows in *. simpl in *.
  destruct (run_payout_op_shape op _ d' H) as [(E & _)|(c & wl & a & E & _)]; rewrite E.
  - split.
    + rewrite !map_map in *. simpl in *. erewrite map_ext; [exact Hin|]. intros p.
      apply (op_row_evolves op (db_now (wd_db w)) p).
    + intros r (q & <- & Hq)%in_map_iff Eid. apply in_map_iff in Hq as (p & <- & Hp). simpl in *.
      assert (po_id p = id) as Ep by (rewrite <- Eid; symmetry; apply (op_row_evolves op _ p)).
      destruct (Hrow (view p) (in_map view _ p Hp) Ep) as [H1 H2]. simpl in *.
      destruct (op_row_hash op (db_now (wd_db w)) p H1) as [H3 H4]; [|split; [done|congruence]].
      intros i h -> Ei. apply (Hn i h eq_refl). congruence.
  - split.
    + rewrite map_app, map_app, in_app_iff. auto.
    + intros r Hrr Eid. rewrite map_app, in_app_iff in Hrr. destruct Hrr as [Hrr|[<-|[]]]; [auto|].
      simpl in Eid. exfalso. rewrite map_map in Hin. apply in_map_iff in Hin as (p & Ep & Hp).
      pose proof (wf_ids_lt _ W) as L. rewrite List.Forall_forall in L. specialize (L p Hp). simpl in *. lia.
Qed.

Lemma abs_env (ev : KasEnv Script) w :
  txids_stable EV0 ev -> abs (EV := ev) w = abs (EV := EV0) w.
Proof. intros H. unfold abs. f_equal. apply map_ext. intros b. now rewrite H. Qed.

Lemma good_env (ev : KasEnv Script) w :
  txids_stable EV0 ev -> good (EV := ev) w <-> good (EV := EV0) w.
Proof. intros H. split; intros [W L]; constructor; auto; now rewrite ?(abs_env _ _ H) in *. Qed.

Lemma good_step w w' : kas_step w w' -> good w -> good w'.
Proof.
  intros H G. destruct H as [ev cfg w LW T|op d' w H Hn|d' w E Es En].
  - apply (good_env ev _ T). apply (run_once_sim cfg w). now apply (good_env ev _ T).
  - eapply good_repo; eauto.
  - destruct G as [W L]. constructor; [apply (payouts_wf_same (wd_db w)); auto|].
    replace (abs _) with (abs w); [exact L|]. unfold abs, rows. simpl. now rewrite E.
Qed.

Lemma good_reachable d w : payouts_wf d -> kas_reachable d w -> good w.
Proof.
  intros W R. assert (good (mkWorld (Script := Script) d [] 0)) as G
    by (constructor; [done|constructor; [constructor|done]]).
  unfold kas_reachable in R. revert G. induction R; eauto using good_step.
Qed.

(** C2. No KAS payout is broadcast twice, and everything broadcast is on record:
    in every history of the deployment each payout row is in at most one
    transaction ever handed to the node, and its row is out of [planned] and
    carries that transaction's id, so a restart does not pay it again. *)
Theorem kas_never_pays_twice d w :
  payouts_wf d -> kas_reachable d w ->
  List.NoDup (concat (map bc_payout_ids (wd_log w))) /\
  forall b id, In b (wd_log w) -> In id (bc_payout_ids b) ->
    exists p, In p (db_payouts (wd_db w)) /\ po_id p = id /\ po_status p <> Planned /\
      po_tx_hash p = Some (ke_txid (bc_tx b)).
Proof.
  intros W R. destruct (good_reachable d w W R) as [_ [Ho Hr]]. split.
  - unfold sent_ids, abs in Ho. simpl in Ho. now rewrite map_map in Ho.
  - intros b id Hb Hid.
    destruct (Hr (bc_payout_ids b) (ke_txid (bc_tx b)) id) as [Hin Hrow]; [|done|].
    { simpl. apply in_map_iff. eauto. }
    simpl in *. unfold rows in *. rewrite map_map in Hin. apply in_map_iff in Hin as (p & Ep & Hp).
    exists p. destruct (Hrow (view p) (in_map view _ p Hp) Ep). auto.
Qed.
End History.
