(* ===== verification/KasSpec.v ===== *)
(** * What the KAS payout engine broadcasts and confirms

    The transactions of a broadcast pass pay each recorded row its amount at its
    wallet's script, out of mature coins no unsettled payout depends on, within
    the per-cycle cap; a payout is confirmed only by depth; a batch built on
    planned change stops the pass. *)
From stdpp Require Import pretty relations.
From S2P Require Import Prelude F64 FeeModel Schema Domain AccountDb IngestDb PayoutDb ZkasSafety.
From S2P Require Import StorageMass StorageMassSpec KasEngine KasLedger KasSafety.
Open Scope Z_scope.

(** ** Confirmation policy *)

(** Confirmation is earned by depth and never lost: a payout is [Confirmed]
    exactly when an accepting score is known (the recorded one first) and the
    chain is at least 100 DAA past it; with a recorded score it is at least
    [Accepted] whatever the node shows of the change coin; otherwise mempool
    presence alone is [Pending]; nothing is ever reported failed. *)
Theorem kas_classify_spec v mem live recorded :
  let accept := match recorded with Some d => Some d | None => live end in
  let r := classify_confirmation (mkInputs v mem live recorded) in
  (r = CsConfirmed <-> exists d, accept = Some d /\ sat_u64 (d + 100) <= v) /\
  (r = CsAccepted <-> exists d, accept = Some d /\ v < sat_u64 (d + 100)) /\
  (r = CsPending <-> accept = None /\ mem = true) /\
  (r = CsUnknown <-> accept = None /\ mem = false).
Proof.
  unfold classify_confirmation, KAS_PAYOUT_CONFIRMATION_DAA. simpl.
  destruct recorded as [d|]; [|destruct live as [d|]]; [| |destruct mem];
    try (destruct (Z.leb_spec (sat_u64 (d + 100)) v));
    repeat match goal with |- _ /\ _ => split | |- _ <-> _ => split end;
    try discriminate; try done; eauto;
    intros; repeat match goal with H : exists _, _ |- _ => destruct H | H : _ /\ _ |- _ => destruct H end;
    simplify_eq; lia.
Qed.

(** ** Cycle status *)

Lemma from_payouts_counts ps :
  from_payouts ps =
  mkCounts (length ps) (length (List.filter (status_in [Planned]) ps))
    (length (List.filter (status_in [Submitted; Accepted]) ps))
    (length (List.filter (status_in [Confirmed]) ps)) (length (List.filter (status_in [Failed]) ps)).
Proof.
  unfold from_payouts.
  enough (forall t a b c e, fold_left count_status ps (mkCounts t a b c e) =
    mkCounts t (a + length (List.filter (status_in [Planned]) ps))
      (b + length (List.filter (status_in [Submitted; Accepted]) ps))
      (c + length (List.filter (status_in [Confirmed]) ps))
      (e + length (List.filter (status_in [Failed]) ps))) as H by apply (H _ 0 0 0 0)%nat.
  induction ps as [|p ps IH]; intros; simpl; [now rewrite !Nat.add_0_r|].
  unfold count_status at 2. destruct (po_status p) eqn:E; rewrite IH; unfold status_in; simpl;
    rewrite E; simpl; f_equal; lia.
Qed.

Lemma count_all (q : Payout -> bool) ps :
  length (List.filter q ps) = length ps <-> Forall (fun p => q p = true) ps.
Proof.
  induction ps as [|p ps IH]; simpl; [split; [constructor|done]|].
  pose proof (List.filter_length_le q ps). destruct (q p) eqn:E; simpl; split; intros H1.
  - constructor; [done|]. apply IH. lia.
  - inversion H1; subst. f_equal. now apply IH.
  - lia.
  - inversion H1. congruence.
Qed.

Lemma count_some (q : Payout -> bool) ps :
  (0 < length (List.filter q ps))%nat <-> Exists (fun p => q p = true) ps.
Proof.
  rewrite List.Exists_exists. split.
  - destruct (List.filter q ps) as [|p l] eqn:E; simpl; [lia|]. intros _. exists p.
    apply filter_In. rewrite E. now left.
  - intros (p & Hp). apply filter_In in Hp. destruct (List.filter q ps); simpl; [done|lia].
Qed.

Lemma counts_total ps :
  (length (List.filter (status_in [Planned]) ps) +
   length (List.filter (status_in [Submitted; Accepted]) ps) +
   length (List.filter (status_in [Confirmed]) ps) + length (List.filter (status_in [Failed]) ps)
   = length ps)%nat.
Proof.
  induction ps as [|p ps IH]; [done|]. simpl. unfold status_in in *. simpl in *.
  destruct (po_status p); simpl; lia.
Qed.

Lemma count_none (q : Payout -> bool) ps :
  length (List.filter q ps) = 0%nat <-> ~ Exists (fun p => q p = true) ps.
Proof. rewrite <- count_some. lia. Qed.

(** A cycle's status is determined by its rows: settled when all are
    confirmed, failed when all failed, partially settled when some but not all
    are confirmed, planned when none has moved, broadcasting otherwise. *)
Theorem kas_cycle_status_spec ps :
  let s := derive_cycle_status (from_payouts ps) in
  let all st := Forall (fun p => status_in [st] p = true) ps in
  let some st := Exists (fun p => status_in [st] p = true) ps in
  (s = CySettled <-> ps <> [] /\ all Confirmed) /\
  (s = CyFailed <-> ps <> [] /\ all Failed) /\
  (s = CyPartiallySettled <-> some Confirmed /\ ~ all Confirmed) /\
  (s = CyPlanned <-> all Planned) /\
  (s = CyBroadcasting <-> ~ some Confirmed /\ ~ all Failed /\ ~ all Planned).
Proof.
  intros s all some. unfold s, all, some. rewrite from_payouts_counts.
  rewrite <- !count_all, <- !count_some. pose proof (counts_total ps) as T.
  assert (ps <> [] <-> length ps <> 0%nat) as -> by (destruct ps; simpl; split; congruence).
  revert T. unfold derive_cycle_status. simpl.
  generalize (length (List.filter (status_in [Planned]) ps))
    (length (List.filter (status_in [Submitted; Accepted]) ps))
    (length (List.filter (status_in [Confirmed]) ps))
    (length (List.filter (status_in [Failed]) ps)) (length ps).
  intros a b c f n T.
  repeat match goal with
  | |- context [(?x =? ?y)%nat] => destruct (Nat.eqb_spec x y)
  | |- context [(?x <? ?y)%nat] => destruct (Nat.ltb_spec x y)
  end; simpl; repeat split; intros; try discriminate; try done; lia.
Qed.

(** ** Signing *)

Section Sign.
Context {Script : Type} `{MC : MassCalculator Script} `{EV : KasEnv Script} `{LW : !KasEnvLaws Script}.
Implicit Types b : PlannedBatch Script.

Definition pay_output (r : PayoutRecipient Script) : TransactionOutput Script :=
  mkTransactionOutput (pr_amount_sompi r) (pr_script_public_key r).

(** [s] is a signed transaction of the inputs and payouts of [b] with [change]. *)
Record signed_as b (change : Z) (s : SignedBatch Script) : Prop := {
  sg_outputs : tx_outputs (sb_tx s) = map pay_output (pb_payouts b) ++
    (if 0 <? change then [mkTransactionOutput change ke_treasury_script] else []);
  sg_inputs : map ti_previous_outpoint (tx_inputs (sb_tx s)) = map tu_outpoint (pb_inputs b);
  sg_entries : sb_entries s = map tu_entry (pb_inputs b);
  sg_real : Forall (fun u => is_planning_virtual u = false) (pb_inputs b)
}.

Lemma sign_batch_as b s :
  sign_batch b ke_treasury_script = Ok s -> signed_as b (pb_change_amount_sompi b) s.
Proof.
  unfold sign_batch, build_unsigned. destruct (pb_inputs b) as [|u us] eqn:Ei; [discriminate|].
  rewrite <- Ei. destruct (existsb _ _) eqn:Ev; [discriminate|]. simpl.
  intros (tx & Hs & [= <-])%rbind_ok. destruct (law_sign _ _ _ Hs) as [Ho Hin].
  constructor; simpl.
  - rewrite Ho. simpl. destruct (_ <? _); [done|now rewrite app_nil_r].
  - rewrite Hin. simpl. now rewrite map_map.
  - done.
  - apply List.Forall_forall. intros x Hx. apply not_true_is_false. intros Hv.
    assert (existsb is_planning_virtual (pb_inputs b) = true) by (apply existsb_exists; eauto). congruence.
Qed.

(** The exact-fee signer never spends more than the inputs hold. *)
Lemma exact_fee_sound b fr s :
  0 <= pb_change_amount_sompi b ->
  total_out (pb_payouts b) + pb_change_amount_sompi b <= total_in (pb_inputs b) ->
  0 <= min_relay_sompi_per_kg fr ->
  sign_batch_with_exact_fee b ke_treasury_script fr = Ok s ->
  exists change, 0 <= change /\ total_out (pb_payouts b) + change <= total_in (pb_inputs b) /\
    signed_as b change s.
Proof.
  intros Hc Hle Hfr H. unfold sign_batch_with_exact_fee in H.
  apply rbind_ok in H as (prov & Hp & H).
  destruct (sign_batch b ke_treasury_script) as [s0|] eqn:E0; [|discriminate]. injection Hp as ->.
  pose proof (sign_batch_as _ _ E0) as S0.
  destruct (reserves_fee fr); simpl in H; [|injection H as <-; eauto].
  apply rbind_ok in H as (m & _ & H). apply rbind_ok in H as (i & Hi & H).
  apply rbind_ok in H as (o & Ho & H).
  destruct (sum_inputs (pb_inputs b)) as [i'|] eqn:Ei; [|discriminate]. injection Hi as ->.
  destruct (sum_amounts (pb_payouts b)) as [o'|] eqn:Eo; [|discriminate]. injection Ho as ->.
  apply sum_u64_Some in Ei, Eo. fold (total_in (pb_inputs b)) in Ei. fold (total_out (pb_payouts b)) in Eo.
  destruct (checked_u64 (i - o)) as [rem|] eqn:E1; simpl in H; [|injection H as <-; eauto].
  apply checked_u64_Some in E1 as [<- [E1 _]].
  destruct (checked_u64 (i - o - fee_for fr m)) as [ch|] eqn:E2; simpl in H; [|injection H as <-; eauto].
  apply checked_u64_Some in E2 as [<- [E2 _]].
  pose proof (minimum_relay_fee_nonneg fr (compute_mass m) Hfr). pose proof (fee_for_relay fr m).
  set (ch := if _ && _ then 0 else _) in H.
  assert (0 <= ch <= i - o) by (unfold ch; destruct (_ && _); lia).
  destruct (ch =? pb_change_amount_sompi b); [injection H as <-; eauto|].
  clear E0. destruct (sign_batch _ _) as [s1|] eqn:E3 in H; simpl in H; [|discriminate]. injection H as ->.
  apply sign_batch_as in E3. exists ch. split; [lia|]. split; [lia|]. destruct E3; constructor; auto.
Qed.
End Sign.

(** ** What leaves the process *)

Section Pays.
Context {Script : Type} `{MC : MassCalculator Script} `{EV : KasEnv Script} `{LW : !KasEnvLaws Script}.

(** Entry [e] of the log is batch [b], signed without overspending. *)
Definition sent_for (pend : list Payout) (b : PlannedBatch Script) (e : Broadcast Script) : Prop :=
  batch_rows pend (pb_payouts b) = Ok (bc_payout_ids e) /\
  exists change, 0 <= change /\ total_out (pb_payouts b) + change <= total_in (pb_inputs b) /\
    signed_as b change (mkSignedBatch (bc_tx e) (bc_entries e)).

Definition balanced (b : PlannedBatch Script) : Prop :=
  0 <= pb_change_amount_sompi b /\
  total_out (pb_payouts b) + pb_change_amount_sompi b <= total_in (pb_inputs b).

(** The loop sends the first batches, in order, and nothing in a rehearsal. *)
Lemma broadcast_loop_log mode pend fr bs : forall rep w,
  Forall balanced bs -> 0 <= min_relay_sompi_per_kg fr ->
  exists bs1 bs2 new, bs = bs1 ++ bs2 /\
    wd_log (fst (broadcast_loop mode pend fr bs rep w)) = wd_log w ++ new /\
    (mode = DryRun -> new = []) /\ List.Forall2 (sent_for pend) bs1 new.
Proof.
  assert (forall (bs : list (PlannedBatch Script)) (w w' : World Script), wd_log w' = wd_log w ->
    exists bs1 bs2 new, bs = bs1 ++ bs2 /\ wd_log w' = wd_log w ++ new /\
      (mode = DryRun -> new = []) /\ List.Forall2 (sent_for pend) bs1 new) as none.
  { intros l w w' E. exists [], l, []. rewrite app_nil_r. repeat split; auto. }
  induction bs as [|b bs IH]; intros rep w Hb Hfr; [now apply none|]. inversion_clear Hb as [|? ? [B1 B2] Hbs].
  cbn [broadcast_loop]. unfold bind at 1, lift at 1.
  destruct (batch_rows pend (pb_payouts b)) as [ids|] eqn:E1; [|now apply none].
  unfold bind at 1, lift at 1.
  destruct (sign_batch_with_exact_fee b ke_treasury_script fr) as [s|] eqn:E2; [|now apply none].
  pose proof (exact_fee_sound b fr s B1 B2 Hfr E2) as Hs. destruct mode.
  - unfold bind at 1. destruct (call_db _ w) as [w1 [[]|e]] eqn:E3.
    2:{ apply none. unfold call_db in E3. destruct (ke_fault _); try (destruct (submit_tx _ _ _) as [[[] ?]|]);
        injection E3 as <-; done. }
    apply call_db_ok in E3 as (d1 & _ & ->). unfold bind at 1, call_submit.
    match goal with |- context [broadcast_loop Live pend fr bs ?r ?x] =>
      destruct (IH r x Hbs Hfr) as (bs1 & bs2 & new & Ebs & EL & _ & HF) end.
    match type of EL with _ = wd_log ?x ++ _ => set (w2 := x) in * end.
    exists (b :: bs1), bs2,
           (mkBroadcast ids (sb_tx s) (sb_entries s) (ke_submit_transaction (S (wd_calls w)) (sb_tx s)) :: new).
    split; [now rewrite Ebs|]. split; [rewrite EL; simpl; now rewrite <- app_assoc|].
    split; [discriminate|]. constructor; [|exact HF].
    split; [exact E1|]. destruct s. exact Hs.
  - destruct (IH (er_txid (ke_txid (sb_tx s)) rep) w Hbs Hfr) as (bs1 & bs2 & new & Ebs & EL & HD & _).
    specialize (HD eq_refl). subst new. apply none. now rewrite EL, app_nil_r.
Qed.

(** The transactions of the payouts that are neither confirmed nor failed. *)
Definition unsettled_txids (d : Db) : list bytes :=
  omap bytes32 (flat_map payout_hashes
    (List.filter (fun p => negb (status_in [Confirmed; Failed] p)) (db_payouts d))).

(** Output [o] pays row [id] of the pending rows its amount at its wallet. *)
Definition pays (c : CycleState) (d : Db) (id : Z) (o : TransactionOutput Script) : Prop :=
  exists p, In p (pending c) /\ po_id p = id /\ to_value o = po_amount_sompi p /\
    exists wl, In wl (db_wallets d) /\ w_id wl = po_wallet_id p /\
      ke_script_of (w_address wl) = Ok (to_script_public_key o).

(** Entry [e] pays rows of [c], out of coins mature at the score that call [k] read
    and present in the snapshot that call [k + 2] returned. *)
Record paying (c : CycleState) (d : Db) (k : nat) (e : Broadcast Script) : Prop := {
  py_outputs : exists outs change, tx_outputs (bc_tx e) = outs ++ change /\
    List.Forall2 (pays c d) (bc_payout_ids e) outs /\
    (change = [] \/ exists v, 0 < v /\ change = [mkTransactionOutput v ke_treasury_script]);
  py_inputs : exists ins us v, ke_virtual_daa_score k = Ok v /\ ke_treasury_utxos (S (S k)) = Ok us /\
    map ti_previous_outpoint (tx_inputs (bc_tx e)) = map tu_outpoint ins /\
    bc_entries e = map tu_entry ins /\
    sumZ (map to_value (tx_outputs (bc_tx e))) <= total_in ins /\
    forall u, In u ins -> In u us /\ mature_at v u /\
      ~ In (op_transaction_id (tu_outpoint u)) (unsettled_txids d)
}.

Lemma sound_balanced limit fr b :
  0 <= min_relay_sompi_per_kg fr -> batch_sound limit ke_treasury_script fr b -> balanced b.
Proof.
  intros Hfr Hb. destruct (bs_fee _ _ _ _ Hb) as (g & _ & Hc & Hle & _).
  pose proof (reserved_fee_nonneg fr g Hfr). split; [done|lia].
Qed.

Lemma Forall2_flip_In {A B} (P : A -> B -> Prop) (l1 : list A) (l2 : list B) y :
  List.Forall2 P l1 l2 -> In y l2 -> exists x, In x l1 /\ P x y.
Proof. induction 1; simpl; [done|]. intros [<-|Hy]; [eauto|]. destruct IHForall2 as (? & ? & ?); eauto. Qed.

Lemma outputs_value (rs : list (PayoutRecipient Script)) : sumZ (map to_value (map pay_output rs)) = total_out rs.
Proof. unfold total_out. now rewrite map_map. Qed.

Lemma sent_pays c d rs b e :
  List.Forall2 (resolves d) (pending c) rs ->
  (forall r, In r (pb_payouts b) -> In r rs) -> sent_for (pending c) b e ->
  List.Forall2 (pays c d) (bc_payout_ids e) (map pay_output (pb_payouts b)).
Proof.
  intros Hrs Hin [Hb _]. apply batch_rows_ok in Hb. revert Hin Hb.
  generalize (bc_payout_ids e). induction (pb_payouts b) as [|r l IH]; intros ids Hin Hb;
    inversion Hb as [|? id ? ids' (q & Hq & Eq & Ep) Hb']; subst; simpl; constructor.
  - destruct (Forall2_flip_In _ _ _ r Hrs) as (p & Hp & Ei & Ea & _ & Hw); [apply Hin; now left|].
    exists p. split; [done|]. split; [|split; [now rewrite <- Ea|exact Hw]].
    apply (inj pretty). congruence.
  - apply IH; [intros; apply Hin; now right|done].
Qed.

Lemma sent_paying c d k bs fr b e :
  launch c d k bs fr -> List.NoDup (map po_id (pending c)) -> In b bs -> sent_for (pending c) b e ->
  paying c d k e.
Proof.
  intros [(f & ->) (rs & us & v & plan & Hrs & EV0 & EU & EP & ->)] Hn Hb Hs.
  destruct (law_coins _ _ EU) as [Hu Ht]. set (coins := spendable_coins _ _ _) in EP.
  assert (funded coins rs) as Hf by (eapply spendable_coins_funded; eauto using resolves_nonneg).
  assert (List.NoDup (map pr_id rs)) as Hnr
    by (rewrite (resolves_ids _ _ _ Hrs); now apply NoDup_map_pretty).
  destruct (plan_distinct coins rs _ plan (from_feerate_relay f) Hf Hnr EP) as [_ Hin].
  assert (forall r, In r (pb_payouts b) -> In r rs) as Hin'.
  { intros r Hr. apply Hin, in_concat. exists (pb_payouts b). split; [now apply in_map|done]. }
  pose proof (sent_pays c d rs b e Hrs Hin' Hs) as Hp.
  destruct Hs as [_ (ch & Hch & Hle & [So Si Se Sr])]. simpl in *. constructor.
  - exists (map pay_output (pb_payouts b)). eexists. split; [exact So|]. split; [exact Hp|].
    destruct (Z.ltb_spec 0 ch); eauto.
  - exists (pb_inputs b), us, v. split; [done|]. split; [done|]. split; [done|]. split; [done|]. split.
    + rewrite So, map_app, sumZ_app, outputs_value. destruct (Z.ltb_spec 0 ch); simpl; lia.
    + intros u Hub. apply (spendable_coins_In v _ us u).
      destruct (plan_inputs_origin _ _ _ (from_feerate_relay f) coins rs plan b u Hf EP Hb Hub)
        as [|Hv]; [done|].
      rewrite List.Forall_forall in Sr. rewrite (Sr u Hub) in Hv. discriminate.
Qed.

(** C15. A broadcast pass pays exactly its rows from coins it may spend: it only
    appends to the log, in order, nothing in a rehearsal; each transaction pays
    every payout row it records that row's amount at the script of that row's
    wallet, returns any rest to the treasury, spends coins of the snapshot the pass
    took that are mature at the virtual score it read (1000 DAA for a coinbase output,
    10 for any other), none created by a payout still unsettled, and its outputs
    never exceed its inputs. *)
Theorem kas_broadcast_sound c mode w :
  payouts_wf (wd_db w) -> snapshot c (wd_db w) ->
  exists new, wd_log (fst (broadcast_cycle c mode w)) = wd_log w ++ new /\
    (mode = DryRun -> new = []) /\
    Forall (paying c (wd_db w) (wd_calls w + length (pending c))) new.
Proof.
  intros W S. destruct (broadcast_cycle_cases c mode w) as [[_ L]|(w' & bs & fr & rep & La & _ & L & E)].
  { exists []. rewrite L, app_nil_r. repeat split; auto. }
  pose proof La as [(f & ->) (rs & us & v & plan & Hrs & _ & EU & EP & Ebs)].
  destruct (law_coins _ _ EU) as [Hu Ht].
  assert (Forall balanced bs) as Hbal.
  { rewrite Ebs. eapply List.Forall_impl; [intros b; apply (sound_balanced ke_block_mass_limit (from_feerate f) b (from_feerate_relay f))|].
    eapply plan_sound; [apply from_feerate_relay| |exact EP].
    eapply spendable_coins_funded; eauto using resolves_nonneg. }
  destruct (broadcast_loop_log mode (pending c) (from_feerate f) bs rep w' Hbal (from_feerate_relay f))
    as (bs1 & bs2 & new & E1 & EL & HD & HF).
  exists new. rewrite E, EL, L. split; [done|]. split; [done|].
  apply List.Forall_forall. intros e He. destruct (Forall2_flip_In _ _ _ e HF He) as (b & Hb & Hs).
  eapply (sent_paying c (wd_db w) _ bs (from_feerate f) b e); [done| |rewrite E1; apply in_app_iff; auto|done].
  apply NoDup_map_filter, S.
Qed.

(** ** The spend cap *)

(** What a transaction pays to recipients. *)
Definition bc_paid (e : Broadcast Script) : Z :=
  sumZ (map to_value (firstn (length (bc_payout_ids e)) (tx_outputs (bc_tx e)))).

Lemma total_out_concat (ls : list (list (PayoutRecipient Script))) :
  total_out (concat ls) = sumZ (map total_out ls).
Proof.
  induction ls as [|l ls IH]; [done|]. simpl. rewrite <- IH. unfold total_out.
  now rewrite map_app, sumZ_app.
Qed.

Lemma resolves_total d ps (rs : list (PayoutRecipient Script)) :
  List.Forall2 (resolves d) ps rs -> total_out rs = sumZ (map po_amount_sompi ps).
Proof.
  unfold total_out. induction 1 as [|p r ps rs (_ & E & _) _ IH]; simpl; [done|]. lia.
Qed.

Lemma launch_total c d k bs fr :
  launch c d k bs fr -> List.NoDup (map po_id (pending c)) ->
  sumZ (map (fun b => total_out (pb_payouts b)) bs) <= sumZ (map po_amount_sompi (pending c)) /\
  Forall balanced bs /\ Forall (fun b => 0 <= total_out (pb_payouts b)) bs.
Proof.
  intros [(f & ->) (rs & us & v & plan & Hrs & _ & EU & EP & ->)] Hn.
  destruct (law_coins _ _ EU) as [Hu Ht]. pose proof (resolves_nonneg _ _ _ Hrs) as Hnn.
  pose proof (spendable_coins_funded v (unsettled_txids d) us rs Hu Ht Hnn) as Hf.
  assert (List.NoDup (map pr_id rs)) as Hnr
    by (rewrite (resolves_ids _ _ _ Hrs); now apply NoDup_map_pretty).
  destruct (plan_partition _ _ _ (from_feerate_relay f) _ rs plan Hf Hnr EP) as (Hp & _).
  pose proof (plan_sound _ _ _ (from_feerate_relay f) _ rs plan Hf EP) as Hs.
  apply (Permutation_Forall Hp) in Hnn as Hall. apply List.Forall_app in Hall as [Ha Hb]. split; [|split].
  - rewrite <- (resolves_total _ _ _ Hrs). unfold total_out at 2.
    rewrite (sumZ_Permutation _ _ (Permutation_map pr_amount_sompi Hp)), map_app, sumZ_app.
    fold (total_out (concat (map pb_payouts (pl_batches plan)))).
    rewrite total_out_concat, map_map. pose proof (total_out_nonneg _ Hb). unfold total_out in *. lia.
  - eapply List.Forall_impl; [|exact Hs]. intros b. apply sound_balanced, from_feerate_relay.
  - apply List.Forall_forall. intros b Hb'. apply total_out_nonneg, List.Forall_forall. intros r Hr.
    rewrite List.Forall_forall in Ha. apply Ha, in_concat. exists (pb_payouts b).
    split; [now apply in_map|done].
Qed.

Lemma sent_total pend bs new :
  List.Forall2 (sent_for pend) bs new ->
  sumZ (map bc_paid new) = sumZ (map (fun b => total_out (pb_payouts b)) bs).
Proof.
  induction 1 as [|b e bs new [Hr (ch & _ & _ & [So _ _ _])] _ IH]; simpl; [done|]. rewrite IH. f_equal.
  unfold bc_paid. simpl in So. rewrite So.
  pose proof (f_equal length (batch_rows_pretty _ _ _ Hr)) as El. rewrite !length_map in El.
  rewrite <- (outputs_value (pb_payouts b)). rewrite firstn_app, El.
  rewrite firstn_all2, length_map, Nat.sub_diag by now rewrite length_map.
  simpl. now rewrite app_nil_r.
Qed.

Lemma broadcast_cycle_total c mode w :
  snapshot c (wd_db w) -> Forall (fun p => 0 <= po_amount_sompi p) (pending c) ->
  exists new, wd_log (fst (broadcast_cycle c mode w)) = wd_log w ++ new /\
    sumZ (map bc_paid new) <= sumZ (map po_amount_sompi (pending c)).
Proof.
  intros S Hp. destruct (broadcast_cycle_cases c mode w) as [[_ L]|(w' & bs & fr & rep & La & _ & L & E)].
  { exists []. rewrite L, app_nil_r. split; [done|]. apply sumZ_nonneg. now rewrite List.Forall_map. }
  assert (List.NoDup (map po_id (pending c))) as Hn by apply NoDup_map_filter, S.
  destruct (launch_total _ _ _ _ _ La Hn) as (Hle & Hbal & Hpos). pose proof La as [(f & ->) _].
  destruct (broadcast_loop_log mode (pending c) (from_feerate f) bs rep w' Hbal (from_feerate_relay f))
    as (bs1 & bs2 & new & -> & EL & _ & HF).
  exists new. rewrite E, EL, L. split; [done|]. rewrite (sent_total _ _ _ HF).
  rewrite map_app, sumZ_app in Hle. apply List.Forall_app in Hpos as [_ H2].
  assert (0 <= sumZ (map (fun b => total_out (pb_payouts b)) bs2)); [|lia].
  apply sumZ_nonneg. now rewrite List.Forall_map.
Qed.

Lemma sat_fold_sum (l : list Payout) : forall acc,
  0 <= acc <= i64_max -> Forall (fun p => 0 <= po_amount_sompi p) l ->
  fold_left (fun acc p => sat_i64 (acc + po_amount_sompi p)) l acc
  = Z.min i64_max (acc + sumZ (map po_amount_sompi l)).
Proof.
  induction l as [|p l IH]; intros acc Ha Hl; simpl; [lia|]. inversion_clear Hl as [|? ? Hp Hl'].
  assert (0 <= sumZ (map po_amount_sompi l)) by (apply sumZ_nonneg; now rewrite List.Forall_map).
  rewrite IH by (auto; unfold sat_i64, i64_min, i64_max in *; lia).
  unfold sat_i64, i64_min, i64_max in *. lia.
Qed.

Lemma pending_le_outbound c :
  Forall (fun p => 0 <= po_amount_sompi p) (cst_payouts c) ->
  Z.min i64_max (sumZ (map po_amount_sompi (pending c))) <= outbound_sompi (cst_payouts c).
Proof.
  intros H. unfold outbound_sompi. rewrite sat_fold_sum; [|unfold i64_max; lia|].
  2:{ rewrite List.Forall_forall in *. intros p [Hp _]%filter_In. auto. }
  enough (sumZ (map po_amount_sompi (pending c)) <=
    sumZ (map po_amount_sompi (List.filter (fun p => negb (status_in [Failed] p)) (cst_payouts c)))) by lia.
  unfold pending. induction (cst_payouts c) as [|p l IH]; simpl; [lia|].
  inversion_clear H as [|? ? Hp Hl]. specialize (IH Hl).
  unfold status_in in *. simpl in *. destruct (po_status p); simpl; lia.
Qed.

(** Steps that never broadcast. *)
Definition silent {A} (m : M A) : Prop := forall w : World Script, wd_log (fst (m w)) = wd_log w.

Lemma kas_silent_bind {A B} (m : M A) (k : A -> M B) :
  silent m -> (forall a, silent (k a)) -> silent (bind m k).
Proof.
  intros Hm Hk w. unfold bind. specialize (Hm w). destruct (m w) as [w1 [a|e]]; simpl in *; [|done].
  rewrite Hk. done.
Qed.
Lemma silent_call_db {A} (m : DB A) : silent (call_db m).
Proof.
  intros w. unfold call_db. destruct (ke_fault _); [|done|]; destruct (m (wd_db w)) as [[]|]; done.
Qed.

Ltac quiet :=
  repeat first [ apply kas_silent_bind; [|intros ?] | apply silent_call_db | (intros ?; reflexivity)
               | match goal with
                 | |- silent (match ?x with _ => _ end) => destruct x
                 | |- silent (if ?x then _ else _) => destruct x
                 end ].

Lemma silent_confirm_loop v us ps : forall r, silent (confirm_loop v us ps r).
Proof.
  induction ps as [|p ps IH]; intros r; simpl; [quiet|]. apply kas_silent_bind; [|intros ?; apply IH].
  unfold confirm_one. quiet.
Qed.

Lemma silent_confirm_cycle c : silent (confirm_cycle c).
Proof.
  unfold confirm_cycle. destruct (in_flight c) as [|p ps]; [quiet|].
  do 2 (apply kas_silent_bind; [quiet|intros ?]). apply silent_confirm_loop.
Qed.

Lemma silent_resume p : silent (resume_or_plan_kas_cycle p).
Proof. unfold resume_or_plan_kas_cycle, plan_kas_cycle. quiet. Qed.

(** All that a tick sends, its broadcast pass sends, for a cycle under the cap. *)
Definition tick_sends (cfg : PayoutEngineConfig) (w w' : World Script) : Prop :=
  wd_log w' = wd_log w \/
  exists w2 st, good w2 /\ snapshot st (wd_db w2) /\ wd_log w2 = wd_log w /\
    over_spend_cap (outbound_sompi (cst_payouts st)) (cfg_max_payout_sompi_per_cycle cfg) = false /\
    wd_log w' = wd_log (fst (broadcast_cycle st (cfg_mode cfg) w2)).

Lemma locked_log cfg w : good w -> tick_sends cfg w (fst (run_locked cfg w)).
Proof.
  intros G. unfold run_locked. unfold bind at 1, call_node.
  destruct (ke_virtual_daa_score (wd_calls w)) as [v|]; simpl; [|now left].
  apply good_tick in G. set (pp := mkPlanParams _ _ _).
  pose proof (sim_resume pp _ G) as [G2 _]. pose proof (silent_resume pp (tick_call w)) as L2.
  unfold bind at 1. destruct (resume_or_plan_kas_cycle pp (tick_call w)) as [w2 [st|e]] eqn:E2;
    simpl in *; [|now left].
  destruct (resume_snapshot _ _ _ _ (good_wf _ G2) E2) as [S _].
  destruct (over_spend_cap _ _) eqn:Ec; [now left|]. right. exists w2, st.
  do 4 (split; [assumption|]).
  match goal with |- wd_log (fst (bind ?m ?k w2)) = _ => assert (forall a, silent (k a)) as Hk end.
  { intros a. do 2 (apply kas_silent_bind; [apply silent_call_db|intros ?]).
    apply kas_silent_bind; [apply silent_confirm_cycle|intros ?].
    apply kas_silent_bind; [unfold reconcile_cycle_status; quiet|intros ?]. intros x. reflexivity. }
  unfold bind at 1. destruct (broadcast_cycle st (cfg_mode cfg) w2) as [w3 [rep|e]]; [|done].
  apply Hk.
Qed.

Lemma tick_log cfg w : good w -> tick_sends cfg w (fst (run_once cfg w)).
Proof.
  intros G. unfold run_once. unfold bind at 1, call_lock.
  destruct (ke_lock (wd_calls w)) as [[]|]; simpl; [|now left..].
  apply good_tick in G. exact (locked_log cfg _ G).
Qed.

Lemma rows_nonneg d c :
  payouts_wf d -> snapshot c d -> Forall (fun p => 0 <= po_amount_sompi p) (cst_payouts c).
Proof.
  intros W [_ S]. apply List.Forall_forall. intros p Hp. pose proof (wf_check _ W) as C.
  rewrite List.Forall_forall in C. specialize (C p (S p Hp)). unfold payout_check in C.
  rewrite !andb_true_iff, Z.ltb_lt in C. lia.
Qed.

(** One tick pays out at most the per-cycle cap: with a cap below
    [i64::MAX], the amounts paid to recipients by the transactions of a tick sum
    to at most the cap, whatever the planner and the node do. *)
Theorem kas_tick_within_cap cfg w cap :
  good w -> cfg_max_payout_sompi_per_cycle cfg = Some cap -> 0 <= cap < i64_max ->
  exists new, wd_log (fst (run_once cfg w)) = wd_log w ++ new /\ sumZ (map bc_paid new) <= cap.
Proof.
  intros G Ecap Hc. destruct (tick_log cfg w G) as [L|(w2 & st & G2 & S & L2 & Ec & L)].
  { exists []. rewrite L, app_nil_r. simpl. split; [done|lia]. }
  pose proof (rows_nonneg _ _ (good_wf _ G2) S) as Hnn.
  assert (Forall (fun p => 0 <= po_amount_sompi p) (pending st)) as Hpn.
  { rewrite List.Forall_forall in *. intros p [Hp _]%filter_In. auto. }
  destruct (broadcast_cycle_total st (cfg_mode cfg) w2 S Hpn) as (new & EL & Hle).
  exists new. rewrite L, EL, L2. split; [done|].
  pose proof (pending_le_outbound st Hnn). rewrite Ecap in Ec. simpl in Ec. to_prop. lia.
Qed.

(** ** Batches on planned change *)

(** The executor never signs planned change: a batch that spends the change
    of an earlier batch ends the pass with [VirtualInput], before intent is
    recorded and before anything is sent, and the batches after it wait too. *)
Theorem planned_change_stops_pass mode pend fr b bs rep (w : World Script) ids :
  batch_rows pend (pb_payouts b) = Ok ids ->
  Exists (fun u => is_planning_virtual u = true) (pb_inputs b) ->
  broadcast_loop mode pend fr (b :: bs) rep w = (w, Err (KSign VirtualInput)).
Proof.
  intros Hb Hv. cbn [broadcast_loop]. unfold bind at 1, lift at 1. rewrite Hb.
  unfold bind at 1, lift at 1, sign_batch_with_exact_fee, sign_batch, build_unsigned.
  apply List.Exists_exists in Hv as (u & Hu & Eu).
  destruct (pb_inputs b) as [|u0 us] eqn:Ei; [done|].
  assert (existsb is_planning_virtual (u0 :: us) = true) as -> by (apply existsb_exists; eauto). done.
Qed.
End Pays.

(** ** A deployment used by the witnesses *)

Definition kas_demo_db : Db :=
  mkDb 50 20 [sample_wallet 3 "alice"; sample_wallet 4 "bob"] [] [] []
    [mkShareAllocation 1 1 3 (f64_of_Z 1) (f64_of_Z 2) 9000000000 0 0 9000000000 40 0 0 Standard;
     mkShareAllocation 2 1 4 (f64_of_Z 1) (f64_of_Z 2) 4000000000 0 0 4000000000 40 0 0 Standard]
    [] [] [] [] ∅ [] [] [] [] [].

Definition kas_demo_txid (tx : Transaction nat) : bytes :=
  repeat (sumZ (map to_value (tx_outputs tx)) mod 251) 32.

(** A healthy node at virtual DAA [v] that shows [coins] and answers [out] to a
    submission. *)
Definition kas_demo_env (v : Z) (coins : list (TreasuryUtxo nat)) (out : result bytes string) :
    KasEnv nat := {|
  ke_lock _ := Ok true;
  ke_fault _ := NoFault;
  ke_virtual_daa_score _ := Ok v;
  ke_treasury_utxos _ := Ok coins;
  ke_fee_estimate _ := Ok f64_zero;
  ke_submit_transaction _ _ := out;
  ke_transaction_in_mempool _ _ := Ok false;
  ke_script_of a := Ok (String.length a);
  ke_treasury_script := 0%nat;
  ke_sign tx _ := Ok (mkTransaction (tx_version tx)
    (map (fun i => mkTransactionInput (ti_previous_outpoint i) (repeat 9 66) (ti_sequence i)
                     (ti_sig_op_count i)) (tx_inputs tx))
    (tx_outputs tx) (tx_lock_time tx) (tx_subnetwork_id tx) (tx_gas tx) (tx_payload tx));
  ke_txid := kas_demo_txid;
  ke_tx_version := 0;
  ke_native_subnetwork := [0];
  ke_block_mass_limit := 500000
|}.

Lemma kas_demo_laws v coins out :
  Forall (fun u => 0 <= utxo_amount u) coins -> total_in coins < u64_max ->
  @KasEnvLaws nat (kas_demo_env v coins out).
Proof.
  intros H1 H2. constructor.
  - intros n us [= <-]. auto.
  - intros tx es tx' [= <-]. simpl. split; [done|]. rewrite map_map. done.
Qed.

Definition kas_demo_coins : list (TreasuryUtxo nat) :=
  [sample_coin 0 20000000000; sample_coin 1 500000000].
Definition kas_demo_cfg : PayoutEngineConfig := mkEngineConfig 1000 100000000 (Some 20000000000) Live.

Definition kas_world0 : World nat := mkWorld kas_demo_db [] 0.
Definition kas_env1 : KasEnv nat := kas_demo_env 5500 kas_demo_coins (Ok []).
Definition kas_world1 : World nat := fst (run_once (EV := kas_env1) kas_demo_cfg kas_world0).

(** The node later shows the change of the payout, 300 DAA deep. *)
Definition kas_change : TreasuryUtxo nat :=
  mkTreasuryUtxo (mkOutpoint (match po_tx_hash (default (mkPayout 0 0 0 0 Planned None None None 0 None None None None)
                                (head (db_payouts (wd_db kas_world1)))) with Some h => h | None => [] end) 2)
    (mkUtxoEntry 6000000000 0%nat 5600 false None).
Definition kas_env2 : KasEnv nat := kas_demo_env 5900 [kas_change; sample_coin 1 500000000] (Ok []).
Definition kas_world2 : World nat := fst (run_once (EV := kas_env2) kas_demo_cfg kas_world1).

Example kas_demo_runs :
  map (fun b => (bc_payout_ids b, map to_value (tx_outputs (bc_tx b)))) (wd_log kas_world2)
    = [([21; 22], [9000000000; 4000000000; 6999710000])] /\
  map po_status (db_payouts (wd_db kas_world1)) = [Submitted; Submitted] /\
  map po_status (db_payouts (wd_db kas_world2)) = [Confirmed; Confirmed] /\
  map cy_status (db_cycles (wd_db kas_world2)) = [CySettled].
Proof. vm_compute. repeat split. Qed.

Lemma kas_demo_wf : payouts_wf kas_demo_db.
Proof. split; simpl; repeat constructor. Qed.

Lemma kas_laws1 : @KasEnvLaws nat kas_env1.
Proof. apply kas_demo_laws; [repeat constructor; discriminate|reflexivity]. Qed.
Lemma kas_laws2 : @KasEnvLaws nat kas_env2.
Proof. apply kas_demo_laws; [repeat constructor; vm_compute; discriminate|vm_compute; reflexivity]. Qed.

Lemma kas_good0 : good (EV := kas_env1) kas_world0.
Proof. constructor; [exact kas_demo_wf|]. constructor; [constructor|done]. Qed.

Lemma run_once_refines_ledger_witness :
  good (EV := kas_env1) kas_world1 /\
  rtc lstep (abs (EV := kas_env1) kas_world0) (abs (EV := kas_env1) kas_world1) /\
  length (lg_sent (abs (EV := kas_env1) kas_world1)) = 1%nat.
Proof.
  destruct (@run_once_refines_ledger nat _ kas_env1 kas_laws1 kas_demo_cfg kas_world0 kas_good0) as [G R].
  split; [exact G|]. split; [exact R|]. vm_compute. reflexivity.
Defined.

Lemma kas_demo_reachable : kas_reachable kas_env1 kas_demo_db kas_world2.
Proof.
  apply (rtc_l _ _ kas_world1); [|apply rtc_once].
  - exact (KTick kas_env1 kas_env1 kas_demo_cfg kas_world0 kas_laws1 (fun _ => eq_refl)).
  - exact (KTick kas_env1 kas_env2 kas_demo_cfg kas_world1 kas_laws2 (fun _ => eq_refl)).
Qed.

Lemma kas_never_pays_twice_witness :
  List.NoDup (concat (map bc_payout_ids (wd_log kas_world2))) /\
  length (concat (map bc_payout_ids (wd_log kas_world2))) = 2%nat.
Proof.
  split; [|vm_compute; reflexivity].
  apply (kas_never_pays_twice kas_env1 kas_demo_db kas_world2 kas_demo_wf kas_demo_reachable).
Defined.

(** The cycle as the first tick has planned it. *)
Definition kas_planned : World nat * result CycleState KasError :=
  resume_or_plan_kas_cycle (EV := kas_env1) (mkPlanParams 5000 6000 100000000) kas_world0.
Definition kas_state : CycleState :=
  match snd kas_planned with
  | Ok st => st
  | Err _ => mkCycleState (mkCycle 0 Kas CyPlanned 0 0 0 None None 0 0 "") []
  end.

Lemma kas_planned_good : good (EV := kas_env1) (fst kas_planned).
Proof. apply (sim_resume (EV := kas_env1) (mkPlanParams 5000 6000 100000000) kas_world0 kas_good0). Qed.

Lemma kas_planned_snapshot : snapshot kas_state (wd_db (fst kas_planned)).
Proof.
  apply (resume_snapshot (EV := kas_env1) (mkPlanParams 5000 6000 100000000) kas_world0).
  - apply kas_planned_good.
  - vm_compute. reflexivity.
Qed.

Lemma kas_broadcast_sound_witness :
  exists new, wd_log (fst (broadcast_cycle (EV := kas_env1) kas_state Live (fst kas_planned))) = [] ++ new /\
    Forall (paying (EV := kas_env1) kas_state (wd_db (fst kas_planned))
              (wd_calls (fst kas_planned) + length (pending kas_state))) new /\ length new = 1%nat.
Proof.
  destruct (@kas_broadcast_sound nat _ kas_env1 kas_laws1 kas_state Live (fst kas_planned)
              (good_wf _ kas_planned_good) kas_planned_snapshot) as (new & E & _ & HF).
  exists new. split; [exact E|]. split; [exact HF|].
  apply (f_equal length) in E. rewrite length_app in E.
  replace (length (wd_log (fst kas_planned))) with 0%nat in E by (vm_compute; reflexivity).
  rewrite Nat.add_0_l in E. rewrite <- E. vm_compute. reflexivity.
Defined.

Lemma kas_tick_within_cap_witness :
  exists new, wd_log kas_world1 = [] ++ new /\ sumZ (map bc_paid new) <= 20000000000.
Proof.
  apply (@kas_tick_within_cap nat _ kas_env1 kas_laws1 kas_demo_cfg kas_world0 20000000000 kas_good0);
    [reflexivity|split; [discriminate|reflexivity]].
Defined.

(** Twelve recipients and one coin: the second batch spends planned change. *)
Definition change_batch : PlannedBatch nat :=
  mkPlannedBatch [planning_change_utxo 0 5000000000 0%nat] [sample_recipient "21" 9000000000] 0
    (mkTxMass 1 1 1).

Lemma planned_change_stops_pass_witness :
  broadcast_loop (EV := kas_env1) Live (pending kas_state) sample_rate [change_batch] report0 kas_world0
    = (kas_world0, Err (KSign VirtualInput)).
Proof.
  apply (@planned_change_stops_pass nat _ kas_env1 Live (pending kas_state) sample_rate change_batch
           [] report0 kas_world0 [21]).
  - vm_compute. reflexivity.
  - constructor. vm_compute. reflexivity.
Defined.
