(* ===== verification/Consolidate.v ===== *)
(** * Treasury consolidation ([payout-kas/src/consolidate/engine.rs],
      [crates/katpool-db/src/repo/treasury.rs],
      [crates/katpool-idempotency/src/lock.rs])

    The treasury snapshot table, the advisory-lock key and the consolidation
    tick: observe the spendable coins, record a snapshot, update the campaign
    latch, plan N-to-1 self-sends, sign them with their exact fee and broadcast.
    The wall-clock budget of a tick only cuts it short and is not modelled. *)
From stdpp Require Import pretty relations.
From Stdlib Require Import Ascii.
From S2P Require Import Prelude F64 FeeModel Schema Domain AccountDb IngestDb PayoutDb ZkasSafety.
From S2P Require Import StorageMass StorageMassSpec ConsolidationSpec KasEngine KasLedger KasSafety KasSpec.
Open Scope Z_scope.

(** ** [lock.rs]: FNV-1a over the bytes of the namespace *)

Definition fnv_step (hash byte : Z) : Z := Z.lxor hash byte * 1099511628211 mod 2 ^ 64.

Fixpoint fnv_hash (hash : Z) (s : string) : Z :=
  match s with
  | EmptyString => hash
  | String c s => fnv_hash (fnv_step hash (Z.of_nat (nat_of_ascii c))) s
  end.

Definition advisory_key (namespace : string) : Z := as_i64 (fnv_hash 14695981039346656037 namespace).

Example advisory_key_golden : advisory_key "treasury:spend-leader" = -2937957302732196380.
Proof. vm_compute. reflexivity. Qed.

(** ** [treasury.rs] *)

Record TreasurySnapshot := mkTreasurySnapshot {
  tsn_id : Z;
  tsn_captured_at : Z;
  tsn_kas_balance_sompi : Z;
  tsn_nacho_balance : Z;
  tsn_daa_score : Z;
  tsn_blue_score : Z;
  tsn_notes : option string;
  tsn_utxo_count : option Z
}.

Definition snapshot_check (s : TreasurySnapshot) : bool :=
  (0 <=? tsn_kas_balance_sompi s) && (0 <=? tsn_nacho_balance s) && (0 <=? tsn_daa_score s)
  && (0 <=? tsn_blue_score s) && match tsn_utxo_count s with Some n => 0 <=? n | None => true end.

(** The table with its own id sequence and the clock of the statement. *)
Definition Snapshots := list TreasurySnapshot.

Definition next_snapshot_id (t : Snapshots) : Z := Z.of_nat (length t) + 1.

Definition snapshot_add (s : TreasurySnapshot) (t : Snapshots) : result (Z * Snapshots) DbError :=
  if snapshot_check s then Ok (tsn_id s, t ++ [s]) else Err check_violation.

Definition treasury_insert (now kas nacho daa blue : Z) (notes : option string) (t : Snapshots) :
    result (Z * Snapshots) DbError :=
  snapshot_add (mkTreasurySnapshot (next_snapshot_id t) now kas nacho daa blue notes None) t.

Definition insert_snapshot (now kas utxo_count daa : Z) (notes : option string) (t : Snapshots) :
    result (Z * Snapshots) DbError :=
  snapshot_add (mkTreasurySnapshot (next_snapshot_id t) now kas 0 daa 0 notes (Some utxo_count)) t.

Definition snapshots_desc : Snapshots -> Snapshots :=
  sort_by (fun a b => tsn_captured_at b <=? tsn_captured_at a).

Definition treasury_latest (t : Snapshots) : option TreasurySnapshot := head (snapshots_desc t).

Definition treasury_list_recent (limit : Z) (t : Snapshots) : result Snapshots DbError :=
  sql_limit limit (snapshots_desc t).

(** ** The engine *)

Record ConsolidationEngineConfig := mkConsolidationConfig {
  cc_mode : ExecutionMode;
  cc_trigger_utxo_count : nat;
  cc_target_utxo_count : nat;
  cc_max_inputs_per_tx : nat;
  cc_max_txs_per_tick : nat
}.

Record ConsolidationTickReport := mkConsolidationReport {
  ct_virtual_daa : Z;
  ct_spendable_utxos : nat;
  ct_spendable_balance_sompi : Z;
  ct_snapshot_id : Z;
  ct_below_ceiling : bool;
  ct_campaign_active : bool;
  ct_planned_batches : nat;
  ct_submitted_txids : list bytes;
  ct_submit_errors : list (bytes * string)
}.

Inductive ConsolidationTickOutcome :=
| ConsolidationSkipped
| ConsolidationRan (r : ConsolidationTickReport).

Definition CONSOLIDATION_ACTOR : string := "treasury-consolidation".

Definition clamp_i64 (v : Z) : Z := default i64_max (i64_try_from v).
Definition clamp_i32 (n : nat) : Z := Z.min i32_max (Z.of_nat n).

(** The latch: raised above the trigger, lowered at the target. *)
Definition campaign_next (cfg : ConsolidationEngineConfig) (active : bool) (spendable : nat) : bool :=
  if (cc_trigger_utxo_count cfg <? spendable)%nat then true
  else if (spendable <=? cc_target_utxo_count cfg)%nat then false
  else active.

(** The engine's state: the database and log of [KasEngine], the snapshot table
    and the latch. *)
Record CWorld (Script : Type) := mkCWorld {
  cw_world : World Script;
  cw_snapshots : Snapshots;
  cw_campaign : bool
}.
Arguments mkCWorld {Script} _ _ _.
Arguments cw_world {Script} _.
Arguments cw_snapshots {Script} _.
Arguments cw_campaign {Script} _.

Section Consolidation.
Context {Script : Type} `{MC : MassCalculator Script} `{EV : KasEnv Script}.
Context (cfg : ConsolidationEngineConfig).

Definition CM (A : Type) : Type := CWorld Script -> CWorld Script * result A KasError.
Definition cret {A} (a : A) : CM A := fun w => (w, Ok a).
Definition cbind {A B} (m : CM A) (k : A -> CM B) : CM B :=
  fun w => match m w with
           | (w', Ok a) => k a w'
           | (w', Err e) => (w', Err e)
           end.
Notation "x <~ m ;; k" := (cbind m (fun x => k))
  (at level 100, m at next level, right associativity).

(** A step of the shared engine monad. *)
Definition run {A} (m : M A) : CM A :=
  fun w => let '(w', r) := m (cw_world w) in (mkCWorld w' (cw_snapshots w) (cw_campaign w), r).

(** The snapshot insert is a database call like any other. *)
Definition call_insert_snapshot (balance count daa : Z) (note : string) : CM Z :=
  fun w =>
    let w1 := tick_call (cw_world w) in
    let go := insert_snapshot (db_now (wd_db (cw_world w))) balance count daa (Some note)
                (cw_snapshots w) in
    match ke_fault (wd_calls (cw_world w)), go with
    | FailBefore, _ => (mkCWorld w1 (cw_snapshots w) (cw_campaign w), Err (KDb Connection))
    | _, Err e => (mkCWorld w1 (cw_snapshots w) (cw_campaign w), Err (KDb e))
    | NoFault, Ok (id, t) => (mkCWorld w1 t (cw_campaign w), Ok id)
    | FailAfter, Ok (_, t) => (mkCWorld w1 t (cw_campaign w), Err (KDb Connection))
    end.

Definition set_campaign (b : bool) : CM unit :=
  fun w => (mkCWorld (cw_world w) (cw_snapshots w) b, Ok tt).

(** [audit::append], whose failure is only logged. *)
Definition audit_best_effort (e : NewEntry) : M unit :=
  fun w => let '(w', _) := call_db (audit_append e) w in (w', Ok tt).

Definition consolidate_audit (txid_text : string) (snapshot_id : Z) (batch : PlannedBatch Script)
    (virtual_daa : Z) : NewEntry :=
  ne_with_payload
    [("txid", JStr txid_text); ("inputs", JNum (Z.of_nat (length (pb_inputs batch))));
     ("merged_sompi", JNum (pb_change_amount_sompi batch)); ("virtual_daa", JNum virtual_daa)]%string
    (ne_subject "treasury_snapshot" snapshot_id
       (NewEntry_new CONSOLIDATION_ACTOR "treasury.consolidate")).

(** [TransactionId]'s [Display]. *)
Context (txid_show : bytes -> string).

Fixpoint sweep_loop (fee_rate : FeeRate) (virtual_daa snapshot_id : Z)
    (bs : list (PlannedBatch Script)) (txids : list bytes) (errors : list (bytes * string)) :
    M (list bytes * list (bytes * string)) :=
  match bs with
  | [] => ret (txids, errors)
  | batch :: bs =>
      bind (lift (sign_batch_with_exact_fee batch ke_treasury_script fee_rate)) (fun signed =>
      let txid := ke_txid (sb_tx signed) in
      match cc_mode cfg with
      | DryRun => sweep_loop fee_rate virtual_daa snapshot_id bs (txids ++ [txid]) errors
      | Live =>
          bind (call_submit [] signed) (fun out =>
          match out with
          | Ok _ =>
              bind (audit_best_effort (consolidate_audit (txid_show txid) snapshot_id batch virtual_daa))
                (fun _ => sweep_loop fee_rate virtual_daa snapshot_id bs (txids ++ [txid]) errors)
          | Err e => sweep_loop fee_rate virtual_daa snapshot_id bs txids (errors ++ [(txid, e)])
          end)
      end)
  end.

(** What a tick observes: the chain's score and the coins it may sweep. *)
Definition observe : M (Z * list (TreasuryUtxo Script)) :=
  bind (call_node ke_virtual_daa_score) (fun virtual_daa =>
  bind (call_db in_flight_spend_tx_hashes) (fun hashes =>
  bind (call_node ke_treasury_utxos) (fun snapshots =>
  ret (virtual_daa, spendable_coins virtual_daa (omap bytes32 hashes) snapshots)))).

Definition consolidation_run_locked : CM ConsolidationTickOutcome :=
  seen <~ run observe ;;
  let virtual_daa := fst seen in
  let utxos := snd seen in
  balance <~ run (lift (ok_or (sum_inputs utxos) KPanic)) ;;
  let note := (if is_dry_run (cc_mode cfg) then "consolidation tick (dry-run)"
               else "consolidation tick")%string in
  snapshot_id <~ call_insert_snapshot (clamp_i64 balance) (clamp_i32 (length utxos))
                   (clamp_i64 virtual_daa) note ;;
  active <~ (fun w => (w, Ok (campaign_next cfg (cw_campaign w) (length utxos)))) ;;
  _ <~ set_campaign active ;;
  let report planned txids errors below :=
    ConsolidationRan
      (mkConsolidationReport virtual_daa (length utxos) (clamp_i64 balance) snapshot_id below active
         planned txids errors) in
  if negb active then cret (report 0%nat [] [] true)
  else
    fee_rate <~ run live_fee_rate ;;
    batches <~ run (lift (ok_or (plan_consolidation utxos ke_treasury_script fee_rate
                                   (cc_max_inputs_per_tx cfg) (cc_max_txs_per_tick cfg)) KPanic)) ;;
    out <~ run (sweep_loop fee_rate virtual_daa snapshot_id batches [] []) ;;
    cret (report (length batches) (fst out) (snd out) false).

Definition consolidation_run_once : CM ConsolidationTickOutcome :=
  leader <~ run call_lock ;;
  match leader with
  | false => cret ConsolidationSkipped
  | true => consolidation_run_locked
  end.
End Consolidation.

(** ** What a sweep broadcasts *)

Section Sweep.
Context {Script : Type} `{MC : MassCalculator Script} `{EV : KasEnv Script} `{LW : !KasEnvLaws Script}.
Context (cfg : ConsolidationEngineConfig) (txid_show : bytes -> string).

(** A merge of the coins [ins]: no recipient, at most one output, to the
    treasury, worth no more than the coins. *)
Record merges (ins : list (TreasuryUtxo Script)) (e : Broadcast Script) : Prop := {
  mg_ids : bc_payout_ids e = [];
  mg_inputs : map ti_previous_outpoint (tx_inputs (bc_tx e)) = map tu_outpoint ins;
  mg_outputs : tx_outputs (bc_tx e) = [] \/
    exists v, 0 < v <= total_in ins /\ tx_outputs (bc_tx e) = [mkTransactionOutput v ke_treasury_script];
  mg_count : (2 <= length ins <= cc_max_inputs_per_tx cfg)%nat
}.

Lemma self_send_signed cap fr b s :
  0 <= min_relay_sompi_per_kg fr -> Forall (fun u => 0 <= utxo_amount u) (pb_inputs b) ->
  self_send ke_treasury_script fr cap b ->
  sign_batch_with_exact_fee b ke_treasury_script fr = Ok s ->
  exists change, 0 <= change <= total_in (pb_inputs b) /\ signed_as b change s.
Proof.
  intros Hfr Hnn [Hc Hp Hch _ _ _] Hs. assert (0 <= total_in (pb_inputs b))
    by (apply sumZ_nonneg; now rewrite List.Forall_map).
  destruct (exact_fee_sound b fr s) as (ch & H1 & H2 & H3); auto; rewrite ?Hp, ?Hch in *;
    unfold total_out in *; simpl in *; try lia.
  exists ch. split; [lia|done].
Qed.

Lemma sweep_loop_log fr v sid bs : forall txids errs w,
  0 <= min_relay_sompi_per_kg fr ->
  Forall (self_send ke_treasury_script fr (cc_max_inputs_per_tx cfg)) bs ->
  Forall (fun b => Forall (fun u => 0 <= utxo_amount u) (pb_inputs b)) bs ->
  exists bs1 bs2 new, bs = bs1 ++ bs2 /\
    wd_log (fst (sweep_loop cfg txid_show fr v sid bs txids errs w)) = wd_log w ++ new /\
    (cc_mode cfg = DryRun -> new = []) /\
    List.Forall2 (fun b e => merges (pb_inputs b) e) bs1 new.
Proof.
  assert (forall (bs : list (PlannedBatch Script)) (w w' : World Script), wd_log w' = wd_log w ->
    exists bs1 bs2 new, bs = bs1 ++ bs2 /\ wd_log w' = wd_log w ++ new /\
      (cc_mode cfg = DryRun -> new = []) /\
      List.Forall2 (fun b e => merges (pb_inputs b) e) bs1 new) as none.
  { intros l w w' E. exists [], l, []. rewrite app_nil_r. repeat split; auto. }
  induction bs as [|b bs IH]; intros txids errs w Hfr Hb Hn; [now apply none|].
  inversion_clear Hb as [|? ? Hss Hbs]. inversion_clear Hn as [|? ? Hnn Hns].
  cbn [sweep_loop]. unfold bind at 1, lift.
  destruct (sign_batch_with_exact_fee b ke_treasury_script fr) as [s|] eqn:E2; [|now apply none].
  destruct (self_send_signed _ fr b s Hfr Hnn Hss E2) as (ch & Hch & [So Si _ _]).
  destruct (cc_mode cfg) eqn:Em.
  - set (e := mkBroadcast [] (sb_tx s) (sb_entries s) (ke_submit_transaction (wd_calls w) (sb_tx s))).
    assert (merges (pb_inputs b) e) as Hm.
    { destruct Hss as [Hc Hp _ _ _ _]. constructor; simpl; auto.
      rewrite So, Hp. simpl. destruct (Z.ltb_spec 0 ch); [right; exists ch; split; [lia|done]|now left]. }
    assert (forall w' : World Script, wd_log w' = wd_log w ++ [e] -> forall txids errs,
      exists bs1 bs2 new, b :: bs = bs1 ++ bs2 /\
        wd_log (fst (sweep_loop cfg txid_show fr v sid bs txids errs w')) = wd_log w ++ new /\
        (Live = DryRun -> new = []) /\ List.Forall2 (fun b e => merges (pb_inputs b) e) bs1 new) as go.
    { intros w' EL tx er. destruct (IH tx er w' Hfr Hbs Hns) as (bs1 & bs2 & new & -> & EL' & _ & HF).
      exists (b :: bs1), bs2, (e :: new). rewrite EL', EL, <- app_assoc. repeat split; auto. discriminate. }
    unfold bind at 1, call_submit. destruct (ke_submit_transaction (wd_calls w) (sb_tx s)) eqn:Eo.
    + unfold bind at 1, audit_best_effort.
      pose proof (silent_call_db (audit_append (consolidate_audit (txid_show (ke_txid (sb_tx s))) sid b v))
        (mkWorld (wd_db w) (wd_log w ++ [mkBroadcast [] (sb_tx s) (sb_entries s) (Ok a)]) (S (wd_calls w)))) as L.
      destruct (call_db _ _) as [w2 r2]. simpl in L. apply go. rewrite L. unfold e. now rewrite ?Eo.
    + apply go. simpl. unfold e. now rewrite ?Eo.
  - destruct (IH (txids ++ [ke_txid (sb_tx s)]) errs w Hfr Hbs Hns) as (bs1 & bs2 & new & Ebs & EL & HD & _).
    specialize (HD eq_refl). subst new. apply none. now rewrite EL, app_nil_r.
Qed.

Lemma observe_ok w w' v us :
  observe w = (w', Ok (v, us)) ->
  wd_db w' = wd_db w /\ wd_log w' = wd_log w /\
  exists snaps, ke_virtual_daa_score (wd_calls w) = Ok v /\
    ke_treasury_utxos (S (S (wd_calls w))) = Ok snaps /\
    us = spendable_coins v (unsettled_txids (wd_db w)) snaps.
Proof.
  unfold observe. intros (w1 & v' & H1 & H)%bind_ok. apply bind_ok in H as (w2 & hs & H2 & H).
  apply bind_ok in H as (w3 & sn & H3 & H). unfold call_node in H1, H3.
  injection H1 as <- H1. destruct (ke_virtual_daa_score _) as [v1|] eqn:EV0; [|discriminate].
  injection H1 as ->.
  pose proof (call_db_calls in_flight_spend_tx_hashes (tick_call w)) as Hk. rewrite H2 in Hk. simpl in Hk.
  apply call_db_ok in H2 as (d2 & H2 & ->).
  unfold in_flight_spend_tx_hashes, db_read in H2. injection H2 as <- <-.
  injection H3 as <- H3. injection H as <- <- <-. simpl.
  simpl in Hk. destruct (ke_treasury_utxos _) as [sn'|] eqn:EU; [|discriminate]. injection H3 as ->.
  split; [done|]. split; [done|]. exists sn. repeat split.
Qed.

(** What a tick may have sent when it ends in [w'], with the virtual score that call
    [k] read and the coins that call [k + 2] returned. *)
Definition swept_at (k : nat) (w w' : CWorld Script) : Prop :=
  exists new, wd_log (cw_world w') = wd_log (cw_world w) ++ new /\
    (length new <= cc_max_txs_per_tick cfg)%nat /\
    (new = [] \/
     cc_mode cfg = Live /\ cw_campaign w' = true /\
     exists insl snaps v, List.Forall2 merges insl new /\
       ke_virtual_daa_score k = Ok v /\ ke_treasury_utxos (S (S k)) = Ok snaps /\
       (forall u, In u (concat insl) -> In u snaps /\ mature_at v u /\
          ~ In (op_transaction_id (tu_outpoint u)) (unsettled_txids (wd_db (cw_world w)))) /\
       sublist (concat insl)
         (sort_utxos_asc (List.filter (fun u => negb (is_planning_virtual u))
            (spendable_coins v (unsettled_txids (wd_db (cw_world w))) snaps)))).

(** A tick takes the lock first and then reads the score. *)
Definition swept (w w' : CWorld Script) : Prop := swept_at (S (wd_calls (cw_world w))) w w'.

Lemma swept_none k w w' : wd_log (cw_world w') = wd_log (cw_world w) -> swept_at k w w'.
Proof. intros E. exists []. rewrite E, app_nil_r. split; [done|]. split; [simpl; lia|now left]. Qed.

Lemma Forall2_map_l {A B C} (f : A -> B) (P : B -> C -> Prop) (l : list A) (l' : list C) :
  List.Forall2 (fun x y => P (f x) y) l l' -> List.Forall2 P (map f l) l'.
Proof. induction 1; simpl; constructor; auto. Qed.

Lemma sweep_swept f v sid w (w' : World Script) us k snaps bs :
  ke_virtual_daa_score k = Ok v -> ke_treasury_utxos (S (S k)) = Ok snaps -> us = spendable_coins v (unsettled_txids (wd_db (cw_world w))) snaps ->
  wd_log w' = wd_log (cw_world w) ->
  plan_consolidation us ke_treasury_script (from_feerate f) (cc_max_inputs_per_tx cfg)
    (cc_max_txs_per_tick cfg) = Some bs ->
  forall t, swept_at k w (mkCWorld (fst (sweep_loop cfg txid_show (from_feerate f) v sid bs [] [] w')) t true).
Proof.
  intros EV0 EU -> EL EP t. destruct (law_coins _ _ EU) as [Hu Ht].
  set (us := spendable_coins _ _ _) in *.
  assert (summable us) as Hs.
  { destruct (spendable_coins_funded v (unsettled_txids (wd_db (cw_world w))) snaps [] Hu Ht)
      as [H1 _ H2]; [constructor|]. now split. }
  destruct (plan_consolidation_ok ke_treasury_script (from_feerate f) us (cc_max_inputs_per_tx cfg)
    (cc_max_txs_per_tick cfg) Hs) as (bs' & E' & Hlen & Hss & Hsub).
  assert (bs' = bs) as -> by congruence.
  assert (Forall (fun b => Forall (fun u => 0 <= utxo_amount u) (pb_inputs b)) bs) as Hnn.
  { apply List.Forall_forall. intros b Hb. apply List.Forall_forall. intros u Hub.
    assert (In u us) as Hin; [|destruct Hs as [Hs _]; rewrite List.Forall_forall in Hs; auto].
    assert (In u (concat (map pb_inputs bs))) as Hc
      by (apply in_concat; exists (pb_inputs b); split; [now apply in_map|done]).
    apply list_elem_of_In, (sublist_subseteq _ _ Hsub), list_elem_of_In, sort_by_In, filter_In in Hc. tauto. }
  destruct (sweep_loop_log (from_feerate f) v sid bs [] [] w' (from_feerate_relay f) Hss Hnn)
    as (bs1 & bs2 & new & -> & EN & HD & HF).
  exists new. simpl. rewrite EN, EL. split; [done|]. pose proof (List.Forall2_length HF) as El.
  rewrite length_app in Hlen. split; [lia|].
  destruct new as [|e new]; [now left|]. right. split; [|split; [done|]].
  { destruct (cc_mode cfg); [done|]. now specialize (HD eq_refl). }
  assert (sublist (concat (map pb_inputs bs1)) (sort_utxos_asc
    (List.filter (fun u => negb (is_planning_virtual u)) us))) as Hsub1.
  { etransitivity; [|exact Hsub]. rewrite map_app, concat_app. now apply sublist_inserts_r. }
  exists (map pb_inputs bs1), snaps, v. split; [now apply Forall2_map_l|]. do 2 (split; [done|]).
  split; [|exact Hsub1]. intros u Hu1. apply spendable_coins_In.
  apply list_elem_of_In, (sublist_subseteq _ _ Hsub1), list_elem_of_In, sort_by_In, filter_In in Hu1. tauto.
Qed.

Lemma run_locked_swept w : swept_at (wd_calls (cw_world w)) w (fst (consolidation_run_locked cfg txid_show w)).
Proof.
  unfold consolidation_run_locked. unfold cbind at 1, run at 1.
  assert (reads observe) as Hobs.
  { unfold observe. repeat (apply reads_bind; [|intros ?]); try done.
    apply reads_call_db, db_read_same. }
  pose proof (Hobs (cw_world w)) as [_ L0]. pose proof (observe_ok (cw_world w)) as HO.
  destruct (observe (cw_world w)) as [w1 [[v us]|e]]; [|now apply swept_none].
  destruct (HO w1 v us eq_refl) as (D1 & L1 & snaps & EV0 & EU & Eus). cbn [fst snd].
  unfold cbind at 1, run at 1, lift. destruct (sum_inputs us) as [bal|]; [|now apply swept_none].
  unfold cbind at 1, call_insert_snapshot. cbn [ok_or cw_world cw_snapshots cw_campaign].
  destruct (insert_snapshot _ _ _ _ _ _) as [[sid t]|]; destruct (ke_fault (wd_calls w1));
    try (now apply swept_none).
  unfold cbind at 1. cbn [cw_campaign]. unfold cbind at 1, set_campaign. cbn [cw_world cw_snapshots].
  destruct (campaign_next cfg (cw_campaign w) (length us)) eqn:EC; cbn [negb]; [|now apply swept_none].
  unfold cbind at 1, run at 1, live_fee_rate, bind, call_node_try, ret.
  cbn [cw_world cw_snapshots cw_campaign]. set (f := match ke_fee_estimate _ with Ok _ => _ | Err _ => _ end).
  unfold cbind at 1, run at 1, lift. cbn [cw_world cw_snapshots cw_campaign].
  destruct (plan_consolidation _ _ _ _ _) as [bs|] eqn:EP; [|now apply swept_none]. cbn [ok_or].
  unfold cbind at 1, run at 1. cbn [cw_world cw_snapshots cw_campaign].
  set (w2 := tick_call _). pose proof (sweep_swept f v sid w w2 us _ snaps bs EV0 EU) as Hsw.
  destruct (sweep_loop _ _ _ _ _ _ _ _ w2) as [w3 [out|e]] eqn:E3; cbn [fst]; unfold cret; cbn [fst];
    exact (Hsw Eus L1 EP t).
Qed.

(** C21. A consolidation tick only merges coins it may touch: it sends nothing
    unless live with an active campaign, and then at most [max_txs_per_tick]
    transactions, each of two to [max_inputs_per_tx] real coins into at most one
    treasury output no larger than their sum; taken together they use each coin of
    the snapshot the tick took at most once, smallest first, every coin mature at the
    virtual score the tick read (1000 DAA for a coinbase output, 10 for any other)
    and none created by a payout that is still unsettled. *)
Theorem consolidation_tick_sound w : swept w (fst (consolidation_run_once cfg txid_show w)).
Proof.
  unfold consolidation_run_once, cbind, run, call_lock.
  destruct (ke_lock (wd_calls (cw_world w))) as [[]|]; simpl; [|now apply swept_none..].
  exact (run_locked_swept (mkCWorld (tick_call (cw_world w)) (cw_snapshots w) (cw_campaign w))).
Qed.
End Sweep.

(** ** The campaign latch *)

(** The latch after a sequence of observed coin counts. *)
Definition campaign_run (cfg : ConsolidationEngineConfig) (active : bool) (counts : list nat) : bool :=
  fold_left (campaign_next cfg) counts active.

(** Hysteresis: with the target not above the trigger, a campaign is active
    after a series of ticks exactly when some tick saw more coins than the
    trigger (or it was active before) and no tick since saw the count fall to the
    target. *)
Theorem campaign_hysteresis cfg active counts :
  (cc_target_utxo_count cfg <= cc_trigger_utxo_count cfg)%nat ->
  campaign_run cfg active counts = true <->
  exists before since,
    counts = before ++ since /\ Forall (fun n => cc_target_utxo_count cfg < n)%nat since /\
    ((before = [] /\ active = true) \/
     exists pre n, before = pre ++ [n] /\ (cc_trigger_utxo_count cfg < n)%nat).
Proof.
  intros Ht. unfold campaign_run. induction counts as [|n counts IH] using rev_ind; simpl.
  - split.
    + intros ->. exists [], []. repeat split; auto.
    + intros (b & s & E & _ & [[_ ->]|(pre & k & -> & _)]); [done|].
      destruct pre; discriminate E.
  - rewrite fold_left_app. simpl. unfold campaign_next at 1. split.
    + destruct (Nat.ltb_spec (cc_trigger_utxo_count cfg) n) as [L|L].
      * intros _. exists (counts ++ [n]), []. rewrite app_nil_r. repeat split; auto. right. eauto.
      * destruct (Nat.leb_spec n (cc_target_utxo_count cfg)) as [L2|L2]; [discriminate|].
        intros (b & s & -> & Hs & Hb)%IH. exists b, (s ++ [n]). rewrite app_assoc. repeat split; auto.
        apply List.Forall_app. auto.
    + intros (b & s & E & Hs & Hb). destruct (Nat.ltb_spec (cc_trigger_utxo_count cfg) n) as [L|L]; [done|].
      destruct s as [|k s _] using rev_ind.
      * rewrite app_nil_r in E. destruct Hb as [[-> _]|(pre & m & -> & Hm)].
        { destruct counts; discriminate E. }
        apply app_inj_tail in E as [_ ->]. lia.
      * rewrite app_assoc in E. apply app_inj_tail in E as [-> ->].
        apply List.Forall_app in Hs as [Hs Hk]. inversion_clear Hk as [|? ? Hk' _].
        destruct (Nat.leb_spec k (cc_target_utxo_count cfg)); [lia|]. apply IH. eauto.
Qed.

(** ** Witnesses *)

Definition sweep_cfg : ConsolidationEngineConfig := mkConsolidationConfig Live 5 2 4 3.

Lemma campaign_hysteresis_witness :
  (cc_target_utxo_count sweep_cfg <= cc_trigger_utxo_count sweep_cfg)%nat /\
  campaign_run sweep_cfg false [3; 6; 4; 3]%nat = true /\
  campaign_run sweep_cfg false [3; 6; 4; 2; 4]%nat = false /\
  exists before since, [3; 6; 4; 3]%nat = before ++ since /\
    Forall (fun n => 2 < n)%nat since.
Proof.
  split; [simpl; lia|]. split; [reflexivity|]. split; [reflexivity|].
  destruct (proj1 (campaign_hysteresis sweep_cfg false [3; 6; 4; 3]%nat ltac:(simpl; lia)) eq_refl)
    as (b & s & E & Hs & _). eauto.
Defined.

Definition sweep_env : KasEnv nat := kas_demo_env 5500 (map (fun i => sample_coin (Z.of_nat i) 390000000) (seq 0 10)) (Ok []).

Example sweep_runs :
  map (fun e => (length (tx_inputs (bc_tx e)), map to_value (tx_outputs (bc_tx e))))
    (wd_log (cw_world (fst (consolidation_run_once (EV := sweep_env) sweep_cfg (fun _ => "txid"%string)
                              (mkCWorld (mkWorld kas_demo_db [] 0) [] false)))))
  = [(4%nat, [1559470000]); (4%nat, [1559470000]); (2%nat, [779670000])].
Proof. vm_compute. reflexivity. Qed.

Lemma sweep_laws : @KasEnvLaws nat sweep_env.
Proof. apply kas_demo_laws; [repeat constructor; discriminate|reflexivity]. Qed.

Lemma consolidation_tick_sound_witness :
  swept (EV := sweep_env) sweep_cfg (mkCWorld (mkWorld kas_demo_db [] 0) [] false)
    (fst (consolidation_run_once (EV := sweep_env) sweep_cfg (fun _ => "txid"%string)
            (mkCWorld (mkWorld kas_demo_db [] 0) [] false))).
Proof.
  apply (@consolidation_tick_sound nat _ sweep_env sweep_laws sweep_cfg (fun _ => "txid"%string)).
Defined.
