(* ===== verification/Api.v ===== *)
(** * The HTTP API: amounts, parameters, errors, claims, state ([api/src])

    [money.rs], [params.rs], [error.rs], [claim.rs], [state.rs], [config.rs] and the
    limiter's period of [lib.rs].  Instants are microseconds; the RFC 3339 parser
    is a parameter. *)
From Stdlib Require Import SpecFloat.
From S2P Require Import Prelude Schema Domain.
Open Scope Z_scope.

(** ** [money.rs] *)

(** The decimal digits of a non-negative integer, least significant first. *)
Fixpoint dec_rev (fuel : nat) (z : Z) : text :=
  match fuel with
  | O => []
  | S fuel => (48 + z mod 10) :: if z <? 10 then [] else dec_rev fuel (z / 10)
  end.

(** [to_string] of an unsigned and of a signed integer: one digit per bit is
    enough. *)
Definition print_u64 (z : Z) : text := rev (dec_rev (S (Z.to_nat (Z.log2 z))) z).
Definition print_i64 (z : Z) : text := if z <? 0 then 45 :: print_u64 (- z) else print_u64 z.

(** [{:0width$}] *)
Definition pad_zeros (width : nat) (s : text) : text := repeat 48 (width - length s) ++ s.

(** [trim_end_matches('0')] *)
Fixpoint trim_start_zeros (s : text) : text :=
  match s with
  | c :: s' => if c =? 48 then trim_start_zeros s' else s
  | [] => []
  end.
Definition trim_end_zeros (s : text) : text := rev (trim_start_zeros (rev s)).

Definition KAS_DECIMALS : Z := 8.

(** [10_u64.pow(decimals)] panics from [decimals = 20] on: [None]. *)
Definition scaled_decimal_string (units decimals : Z) : option text :=
  divisor ← checked_u64 (10 ^ decimals);
  let negative := units <? 0 in
  let magnitude := Z.abs units in
  let whole := magnitude / divisor in
  let frac := magnitude mod divisor in
  let sign := if negative then lit "-" else [] in
  if frac =? 0 then Some (sign ++ print_u64 whole)
  else
    let frac_full := pad_zeros (Z.to_nat decimals) (print_u64 frac) in
    Some (sign ++ print_u64 whole ++ lit "." ++ trim_end_zeros frac_full).

Definition kas_string (sompi : Z) : option text := scaled_decimal_string sompi KAS_DECIMALS.

Record KasAmount := mkKasAmount { ka_sompi : text; ka_kas : option text }.
Definition from_sompi (sompi : Z) : KasAmount := mkKasAmount (print_i64 sompi) (kas_string sompi).

(** ** [error.rs] *)

Inductive ApiError := ANotFound | ABadRequest (msg : string) | AUnavailable | ATimeout | AInternal.

Definition SQLSTATE_QUERY_CANCELED : string := "57014".

Definition status (e : ApiError) : Z :=
  match e with
  | ANotFound => 404
  | ABadRequest _ => 400
  | AUnavailable | ATimeout => 503
  | AInternal => 500
  end.

Definition code (e : ApiError) : string :=
  match e with
  | ANotFound => "not_found"
  | ABadRequest _ => "bad_request"
  | AUnavailable => "unavailable"
  | ATimeout => "timeout"
  | AInternal => "internal"
  end.

(** The [Display] of the error. *)
Definition message (e : ApiError) : string :=
  match e with
  | ANotFound => "not found"
  | ABadRequest msg => msg
  | AUnavailable => "service unavailable"
  | ATimeout => "query timed out"
  | AInternal => "internal error"
  end.

(** [From<DbError>] *)
Definition from_db_error (e : DbError) : ApiError :=
  match e with
  | NotFound => ANotFound
  | Connection | AcquireTimeout => AUnavailable
  | Constraint s => if bool_decide (s = Some SQLSTATE_QUERY_CANCELED) then ATimeout else AInternal
  | Config msg => ABadRequest msg
  | Migration | Other => AInternal
  end.

(** The response of an error: status, and the envelope's code and message. *)
Definition into_response (e : ApiError) : Z * (string * string) := (status e, (code e, message e)).

(** ** [config.rs] *)

Definition SECOND : Z := 1000000.
Definition DEFAULT_WINDOW : Z := 600.
Definition MAX_WINDOW : Z := 24 * 60 * 60.
Definition DEFAULT_PAGE_SIZE : Z := 25.
Definition MAX_PAGE_SIZE : Z := 100.
Definition MAX_SERIES_POINTS : Z := 1000.

(** ** [params.rs] *)

Inductive Bucket := OneMinute | FiveMinutes | OneHour | OneDay.
#[export] Instance Bucket_eq_dec : EqDecision Bucket.
Proof. solve_decision. Defined.

Definition seconds (b : Bucket) : Z :=
  match b with OneMinute => 60 | FiveMinutes => 300 | OneHour => 3600 | OneDay => 86400 end.

(** The messages that quote the input keep only their fixed part. *)
Definition Bucket_parse (raw : text) : result Bucket ApiError :=
  if bool_decide (raw = lit "1m") then Ok OneMinute
  else if bool_decide (raw = lit "5m") then Ok FiveMinutes
  else if bool_decide (raw = lit "1h") then Ok OneHour
  else if bool_decide (raw = lit "1d") then Ok OneDay
  else Err (ABadRequest "invalid bucket: expected one of 1m, 5m, 1h, 1d").

(** Windows in seconds. *)
Definition window (requested : option Z) : result Z ApiError :=
  match requested with
  | None => Ok DEFAULT_WINDOW
  | Some secs => if secs =? 0 then Err (ABadRequest "window must be > 0") else Ok (Z.min secs MAX_WINDOW)
  end.

(** [i64::clamp] *)
Definition clamp (x lo hi : Z) : Z := if x <? lo then lo else if hi <? x then hi else x.

Definition page_limit (limit : option Z) : Z :=
  clamp (match limit with Some l => l | None => DEFAULT_PAGE_SIZE end) 1 MAX_PAGE_SIZE.

Definition leaderboard_params (requested limit : option Z) : result (Z * Z) ApiError :=
  let? win := window requested in Ok (win, page_limit limit).

Record Page := mkPage { pg_limit : Z; pg_before_id : option Z }.

Definition page (limit before : option Z) : result Page ApiError :=
  if match before with Some b => b <=? 0 | None => false end
  then Err (ABadRequest "before cursor must be a positive id")
  else Ok (mkPage (page_limit limit) before).

Record RangeParams := mkRangeParams { rp_from : option text; rp_to : option text; rp_bucket : option text }.
Record Range := mkRange { rg_from : Z; rg_until : Z; rg_bucket : Bucket }.

Definition DEFAULT_RANGE_SECS : Z := 24 * 60 * 60.

(** Seconds of a difference of instants, towards zero. *)
Definition whole_seconds (micros : Z) : Z := Z.quot micros SECOND.

Section Params.
Variable parse_from_rfc3339 : text -> option Z.

Definition parse_rfc3339 (raw : text) (field : string) : result Z ApiError :=
  ok_or (parse_from_rfc3339 raw) (ABadRequest (field +:+ " must be an RFC3339 timestamp")).

Definition range (now : Z) (params : RangeParams) : result Range ApiError :=
  let? until := match rp_to params with Some raw => parse_rfc3339 raw "to" | None => Ok now end in
  let? from := match rp_from params with
               | Some raw => parse_rfc3339 raw "from"
               | None => Ok (until - DEFAULT_RANGE_SECS * SECOND)
               end in
  let? bucket := match rp_bucket params with Some raw => Bucket_parse raw | None => Ok OneHour end in
  if until <=? from then Err (ABadRequest "`to` must be after `from`")
  else
    let points := Z.quot (whole_seconds (until - from)) (seconds bucket) in
    if MAX_SERIES_POINTS <? points then Err (ABadRequest "range too large")
    else Ok (mkRange from until bucket).
End Params.

Definition parse_address (raw : text) : result text ApiError :=
  map_err (fun _ => ABadRequest "invalid wallet address") (WalletAddress_new raw).

(** ** [claim.rs] *)

Definition CHALLENGE_LEN : nat := 32.
Definition DEFAULT_CHALLENGE_TTL : Z := 300 * SECOND.

Definition Challenge := bytes.

Inductive ClaimError := NoChallenge | BadSignature.

(** The interface of a signature check: address, challenge, key, signature. *)
Class SignatureVerifier := verify : bytes -> Challenge -> bytes -> bytes -> bool.

Record Pending := mkPending { pe_challenge : Challenge; pe_expires_at : Z }.

Record ChallengeStore := mkChallengeStore { ch_ttl : Z; ch_pending : gmap bytes Pending }.

Definition ChallengeStore_new (ttl : Z) : ChallengeStore := mkChallengeStore ttl ∅.
Definition ChallengeStore_default : ChallengeStore := ChallengeStore_new DEFAULT_CHALLENGE_TTL.

Definition issue_at (address : bytes) (nonce : Challenge) (now : Z) (st : ChallengeStore)
  : Challenge * ChallengeStore :=
  (nonce, mkChallengeStore (ch_ttl st) (<[address := mkPending nonce (now + ch_ttl st)]> (ch_pending st))).

Definition redeem_at {V : SignatureVerifier} (address fvk sig : bytes) (now : Z) (st : ChallengeStore)
  : result Challenge ClaimError * ChallengeStore :=
  let st' := mkChallengeStore (ch_ttl st) (delete address (ch_pending st)) in
  match ch_pending st !! address with
  | None => (Err NoChallenge, st')
  | Some pending =>
      if pe_expires_at pending <=? now then (Err NoChallenge, st')
      else if verify address (pe_challenge pending) fvk sig
           then (Ok (pe_challenge pending), st') else (Err BadSignature, st')
  end.

Definition sweep_expired (now : Z) (st : ChallengeStore) : ChallengeStore :=
  mkChallengeStore (ch_ttl st) (filter (fun p => now < pe_expires_at (snd p)) (ch_pending st)).

Definition store_len (st : ChallengeStore) : nat := size (ch_pending st).
Definition store_is_empty (st : ChallengeStore) : bool := (store_len st =? 0)%nat.

(** ** [state.rs] *)

Record ReadinessHandle := mkReadiness { rd_db_reachable : bool; rd_kaspad_synced : bool; rd_started : bool }.

Definition ReadinessHandle_new : ReadinessHandle := mkReadiness false false false.
Definition set_db_reachable (value : bool) (r : ReadinessHandle) : ReadinessHandle :=
  mkReadiness value (rd_kaspad_synced r) (rd_started r).
Definition set_kaspad_synced (value : bool) (r : ReadinessHandle) : ReadinessHandle :=
  mkReadiness (rd_db_reachable r) value (rd_started r).
Definition mark_started (r : ReadinessHandle) : ReadinessHandle :=
  mkReadiness (rd_db_reachable r) (rd_kaspad_synced r) true.
Definition is_ready (r : ReadinessHandle) : bool := rd_db_reachable r && rd_kaspad_synced r.

(** ** [lib.rs] *)

(** Nanoseconds between two tokens. *)
Definition replenish_period (rate_per_second : Z) : Z :=
  let rate := Z.max (if rate_per_second <=? u32_max then rate_per_second else u32_max) 1 in
  Z.max (1000000000 / rate) 1.
