(* ===== verification/ApiHandlers.v ===== *)
(** * The HTTP API: views and handlers ([api/src/models.rs], [api/src/handlers])

    A handler checks its parameters, and answers from the cache or from a few
    separate reads of the database; other parts of the program write in between.
    The monad [AM] threads the two caches and the index of the next call; the
    interface [ApiEnv] answers each call (the tables then, the clock, whether the
    call fails), and [JsonCache] is what is used of the cache library. *)
From Stdlib Require Import SpecFloat.
From S2P Require Import Consolidate.
From S2P Require Import Prelude F64 FeeModel Schema PayoutDb Domain AccountDb IngestDb SessionDb ShareStats Api.
Open Scope Z_scope.

(** ** [models.rs] *)

Definition block_status_str (s : BlockStatus) : string :=
  match s with
  | Found => "found"
  | SubmittedToNode => "submitted_to_node"
  | ConfirmedBlue => "confirmed_blue"
  | Matured => "matured"
  | Orphaned => "orphaned"
  end.

Definition payout_kind_str (k : PayoutKind) : string :=
  match k with Kas => "kas" | Krc20Nacho => "nacho" | Zkas => "zkas" end.

Definition payout_status_str (s : PayoutStatus) : string :=
  match s with
  | Planned => "planned"
  | Submitted => "submitted"
  | Accepted => "accepted"
  | Confirmed => "confirmed"
  | Failed => "failed"
  end.

Definition cycle_status_str (s : PayoutCycleStatus) : string :=
  match s with
  | CyPlanned => "planned"
  | CyBroadcasting => "broadcasting"
  | CyPartiallySettled => "partially_settled"
  | CySettled => "settled"
  | CyFailed => "failed"
  end.

Record Health := mkHealth { he_status : string }.
Record Readiness := mkReadinessView { re_ready : bool; re_db_reachable : bool; re_kaspad_synced : bool }.
Record Started := mkStarted { st_started : bool; st_started_at : Z; st_uptime_secs : Z }.

Record BlockCounts := mkBlockCounts {
  bc_found : Z; bc_submitted_to_node : Z; bc_confirmed_blue : Z; bc_matured : Z; bc_orphaned : Z
}.

Definition count_status (counts : BlockCounts) (row : BlockStatus * Z) : BlockCounts :=
  let '(mkBlockCounts f s c m o) := counts in
  match fst row with
  | Found => mkBlockCounts (snd row) s c m o
  | SubmittedToNode => mkBlockCounts f (snd row) c m o
  | ConfirmedBlue => mkBlockCounts f s (snd row) m o
  | Matured => mkBlockCounts f s c (snd row) o
  | Orphaned => mkBlockCounts f s c m (snd row)
  end.
Definition BlockCounts_from_rows (rows : list (BlockStatus * Z)) : BlockCounts :=
  fold_left count_status rows (mkBlockCounts 0 0 0 0 0).

Record PayoutTotals := mkPayoutTotals {
  pt_kas_confirmed : KasAmount; pt_nacho_confirmed : KasAmount; pt_confirmed : Z
}.
Record TreasuryView := mkTreasuryView {
  tv_captured_at : Z; tv_kas_balance : KasAmount; tv_nacho_balance : text; tv_daa_score : Z; tv_blue_score : Z
}.
Record PoolStats := mkPoolStats {
  ps_as_of : Z; ps_window_secs : Z; ps_miners_active : Z; ps_workers_active : Z; ps_hashrate_hs : f64;
  ps_accepted_shares : Z; ps_blocks : BlockCounts; ps_payouts : PayoutTotals; ps_treasury : option TreasuryView
}.
Record HashrateSnapshot := mkSnapshot { hs_hashrate_hs : f64; hs_window_secs : Z }.
Record HashrateHistory := mkHistory {
  hh_from : Z; hh_to : Z; hh_bucket : string; hh_points : list HashratePoint
}.

Record BlockView := mkBlockView {
  bv_id : Z; bv_hash : text; bv_status : string; bv_daa_score : Z; bv_blue_score : option Z; bv_found_at : Z;
  bv_confirmed_at : option Z; bv_matured_at : option Z; bv_reward : option KasAmount
}.
Record BlocksPage := mkBlocksPage { bp_blocks : list BlockView; bp_next_before : option Z }.

Record MpsBlock := mkMpsBlock {
  mb_mined_block_hash : text; mb_miner_id : string; mb_pool_address : text; mb_reward_block_hash : text;
  mb_wallet : string; mb_daa_score : Z; mb_miner_reward : Z; mb_timestamp : text
}.
(** The listing's constant fields ([pool_name] and so on) come from the
    configuration unchanged and are left out. *)
Record MiningPoolStats := mkMiningPoolStats {
  mp_coin_mined : string; mp_pool_fee : f64; mp_current_hash_rate : text; mp_top_100_blocks : list MpsBlock;
  mp_total_blocks_count : Z; mp_min_pay : Z; mp_lastblock : text; mp_lastblocktime : text
}.

Record CycleView := mkCycleView {
  cv_id : Z; cv_kind : string; cv_status : string; cv_daa_start : Z; cv_daa_end : Z; cv_planned_at : Z;
  cv_settled_at : option Z; cv_total : KasAmount; cv_total_recipients : Z
}.
Record CyclesPage := mkCyclesPage { cp_cycles : list CycleView; cp_next_before : option Z }.
Record CycleRecipientView := mkRecipientView {
  rv_payout_id : Z; rv_address : string; rv_amount : KasAmount; rv_status : string; rv_tx_hash : option text;
  rv_krc20_commit_hash : option text; rv_krc20_reveal_hash : option text; rv_nacho_amount : option text
}.
Record CycleDetailPage := mkCycleDetail { cd_cycle : CycleView; cd_recipients : list CycleRecipientView }.
Record ActiveMinersHistory := mkMinersHistory {
  ah_from : Z; ah_to : Z; ah_bucket : string; ah_points : list ActiveMinersPoint
}.
Record FirmwareEntryView := mkFirmware { fe_app : option string; fe_workers : Z; fe_sessions : Z }.
Record FirmwareBreakdown := mkFirmwares { fb_window_secs : Z; fb_entries : list FirmwareEntryView }.
Record GeoEntryView := mkGeo { ge_country : string; ge_workers : Z; ge_sessions : Z }.
Record GeoBreakdown := mkGeos { gb_window_secs : Z; gb_entries : list GeoEntryView }.
Record ActiveSessionsView := mkActiveSessions { av_active_sessions : Z; av_active_workers : Z }.

Record KasBalanceView := mkKasBalance { kb_allocated : KasAmount; kb_paid : KasAmount; kb_payable : KasAmount }.
Record NachoRebateView := mkNachoRebate { nv_accrued : KasAmount; nv_paid : KasAmount; nv_pending : KasAmount }.
Definition NachoRebateView_zero : NachoRebateView := mkNachoRebate (from_sompi 0) (from_sompi 0) (from_sompi 0).
Record BalanceResponse := mkBalanceResponse {
  br_address : string; br_network : string; br_kas : KasBalanceView; br_nacho_rebate : NachoRebateView
}.
Record MinerProfile := mkProfile {
  mi_address : string; mi_network : string; mi_first_seen_at : Z; mi_last_seen_at : Z; mi_window_secs : Z;
  mi_accepted_shares : Z; mi_rejected_shares : Z; mi_hashrate_hs : f64; mi_workers_count : Z;
  mi_kas : KasBalanceView; mi_nacho_rebate : NachoRebateView
}.
Record WorkerView := mkWorkerView {
  wv_name : string; wv_first_seen_at : Z; wv_last_seen_at : Z; wv_accepted_shares : Z; wv_hashrate_hs : f64
}.
Record WorkersResponse := mkWorkersResponse { wr_address : string; wr_window_secs : Z; wr_workers : list WorkerView }.
Record MinerPayoutView := mkPayoutView {
  pv_id : Z; pv_cycle_id : Z; pv_kind : string; pv_amount : KasAmount; pv_status : string; pv_tx_hash : option text;
  pv_krc20_commit_hash : option text; pv_krc20_reveal_hash : option text; pv_planned_at : Z;
  pv_submitted_at : option Z; pv_confirmed_at : option Z; pv_failure_reason : option string;
  pv_nacho_amount : option text
}.
Record MinerPayoutsPage := mkPayoutsPage {
  pp_address : string; pp_payouts : list MinerPayoutView; pp_next_before : option Z
}.
Record RejectReasonCount := mkReasonCount { rr_reason : string; rr_count : Z }.
Definition RejectReasonCount_from_row (row : DbShareRejectReason * Z) : RejectReasonCount :=
  mkReasonCount (DbShareRejectReason_as_str (fst row)) (snd row).
Record RejectsResponse := mkRejects {
  rs_address : string; rs_window_secs : Z; rs_total : Z; rs_by_reason : list RejectReasonCount
}.
Record PoolRejectsResponse := mkPoolRejects {
  pr_window_secs : Z; pr_total : Z; pr_by_reason : list RejectReasonCount
}.
Record FullRebateResponse := mkFullRebate { fr_address : string; fr_tier : option string; fr_full_rebate : bool }.

(** A cached value, before it is serialised; a wallet's history keeps whose it is,
    which its JSON does not. *)
Inductive Value :=
| VPoolStats (v : PoolStats)
| VHashrate (v : HashrateSnapshot)
| VHashrateHistory (v : HashrateHistory)
| VMinerHistory (address : string) (v : HashrateHistory)
| VBlocks (v : BlocksPage)
| VMiningPoolStats (v : MiningPoolStats)
| VCycles (v : CyclesPage)
| VCycleDetail (v : CycleDetailPage)
| VActiveMiners (v : ActiveMinersHistory)
| VFirmware (v : FirmwareBreakdown)
| VGeo (v : GeoBreakdown)
| VActiveSessions (v : ActiveSessionsView)
| VPoolRejects (v : PoolRejectsResponse)
| VBalance (v : BalanceResponse)
| VProfile (v : MinerProfile)
| VWorkers (v : WorkersResponse)
| VMinerPayouts (v : MinerPayoutsPage)
| VRejects (v : RejectsResponse)
| VFullRebate (v : FullRebateResponse).

(** ** [handlers/mod.rs] *)

(** The library's cache: what a lookup at an instant returns.  An entry may
    disappear at any time, but not outlive its time to live. *)
Class JsonCache := {
  cache : Type;
  cache_new : Z -> cache;
  cache_ttl : cache -> Z;
  cache_get : cache -> text -> Z -> option Value;
  cache_insert : cache -> text -> Value -> Z -> cache
}.

(** The environment of a handler, by call index. *)
Class ApiEnv := {
  ae_now : nat -> Z;
  ae_db : nat -> Db;
  ae_treasury : nat -> Snapshots;
  ae_fault : nat -> bool;
  in_chrono_range : Z -> bool;
  parse_from_rfc3339 : text -> option Z;
  to_rfc3339_millis : Z -> text;
  hex_encode : bytes -> text;
  f64_log10 : f64 -> f64;
  f64_powi : f64 -> Z -> f64;
  fmt_2_decimals : f64 -> text
}.

Section Handlers.
Context {jc : JsonCache} {env : ApiEnv}.

Record AppState := mkAppState { as_pool_cache : cache; as_wallet_cache : cache }.

(** [AppState::new]: the time to live of each cache. *)
Definition AppState_new (pool_cache_ttl wallet_cache_ttl : Z) : AppState :=
  mkAppState (cache_new pool_cache_ttl) (cache_new wallet_cache_ttl).

(** Reads only, before the cache is touched: the index of the next call. *)
Definition RM (A : Type) : Type := nat -> nat * result A ApiError.
Definition rm_ret {A} (a : A) : RM A := fun n => (n, Ok a).
Definition rm_fail {A} (e : ApiError) : RM A := fun n => (n, Err e).
Definition rm_bind {A B} (m : RM A) (k : A -> RM B) : RM B :=
  fun n => match m n with (n', Ok a) => k a n' | (n', Err e) => (n', Err e) end.
Notation "x <-r m ;; k" := (rm_bind m (fun x => k))
  (at level 100, m at next level, right associativity).

Definition rm_lift {A} (r : result A ApiError) : RM A := fun n => (n, r).

(** A repository call, on the tables as they are then. *)
Definition rm_db {A} (m : DB A) : RM A :=
  fun n => (S n, map_err from_db_error (if ae_fault n then Err Connection
                                        else match m (ae_db n) with Ok (a, _) => Ok a | Err e => Err e end)).
Definition rm_treasury : RM (option TreasurySnapshot) :=
  fun n => (S n, map_err from_db_error (if ae_fault n then Err Connection else Ok (treasury_latest (ae_treasury n)))).
(** [Utc::now()] *)
Definition rm_now : RM Z := fun n => (S n, Ok (ae_now n)).

Record Window := mkWindow { wi_since : Z; wi_until : Z; wi_secs : Z }.

Definition resolve_window (win : Z) : RM Window :=
  until <-r rm_now ;; rm_ret (mkWindow (until - win * SECOND) until win).

Inductive CacheSel := PoolCache | WalletCache.

Definition AM (A : Type) : Type := AppState * nat -> (AppState * nat) * result A ApiError.

(** [cached_json]: the lookup, else the computation, whose success is stored. *)
Definition cached_json (sel : CacheSel) (key : text) (init : RM Value) : AM Value :=
  fun '(st, n) =>
    let c := match sel with PoolCache => as_pool_cache st | WalletCache => as_wallet_cache st end in
    match cache_get c key (ae_now n) with
    | Some v => ((st, S n), Ok v)
    | None =>
        match init (S n) with
        | (n', Ok v) =>
            let c' := cache_insert c key v (ae_now n') in
            ((match sel with
              | PoolCache => mkAppState c' (as_wallet_cache st)
              | WalletCache => mkAppState (as_pool_cache st) c'
              end, S n'), Ok v)
        | (n', Err e) => ((st, n'), Err e)
        end
    end.

(** Parameters first: an error there does not reach the cache. *)
Definition with_params {A} (r : result A ApiError) (k : A -> AM Value) : AM Value :=
  fun s => match r with Ok a => k a s | Err e => (s, Err e) end.

(** ** Views of rows *)

Definition BlockView_from (b : Block) : BlockView :=
  mkBlockView (bk_id b) (hex_encode (bk_hash b)) (block_status_str (bk_status b)) (bk_daa_score b)
    (bk_blue_score b) (bk_found_at b) (bk_confirmed_at b) (bk_matured_at b)
    (option_map from_sompi (bk_miner_reward_sompi b)).

Definition CycleView_from (c : PayoutCycle) : CycleView :=
  mkCycleView (cy_id c) (payout_kind_str (cy_kind c)) (cycle_status_str (cy_status c)) (cy_daa_start c)
    (cy_daa_end c) (cy_planned_at c) (cy_settled_at c) (from_sompi (cy_total_sompi c)) (cy_total_recipients c).

Definition CycleRecipientView_from (r : CycleRecipient) : CycleRecipientView :=
  mkRecipientView (re_payout_id r) (re_address r) (from_sompi (re_amount_sompi r))
    (payout_status_str (re_status r)) (option_map hex_encode (re_tx_hash r))
    (option_map hex_encode (re_krc20_commit_hash r)) (option_map hex_encode (re_krc20_reveal_hash r))
    (option_map print_i64 (re_nacho_amount r)).

Definition MinerPayoutView_from (w : WalletPayout) : MinerPayoutView :=
  let p := wp_payout w in
  mkPayoutView (po_id p) (po_cycle_id p) (payout_kind_str (wp_kind w)) (from_sompi (po_amount_sompi p))
    (payout_status_str (po_status p)) (option_map hex_encode (po_tx_hash p))
    (option_map hex_encode (po_krc20_commit_hash p)) (option_map hex_encode (po_krc20_reveal_hash p))
    (po_planned_at p) (po_submitted_at p) (po_confirmed_at p) (po_failure_reason p)
    (option_map print_i64 (wp_nacho_amount w)).

(** ** [handlers/health.rs] *)

Definition health : Z * Health := (200, mkHealth "ok").

Definition ready (r : ReadinessHandle) : Z * Readiness :=
  let body := mkReadinessView (is_ready r) (rd_db_reachable r) (rd_kaspad_synced r) in
  (if re_ready body then 200 else 503, body).

Definition started (now started_at : Z) (r : ReadinessHandle) : Z * Started :=
  (if rd_started r then 200 else 503, mkStarted (rd_started r) started_at (whole_seconds (now - started_at))).

(** ** Keys *)

Definition print_opt (o : option Z) : text :=
  match o with Some z => lit "Some(" ++ print_i64 z ++ lit ")" | None => lit "None" end.
Definition window_key (prefix : text) (win : Z) : text := prefix ++ lit "?w=" ++ print_u64 win.
Definition page_key (prefix : text) (p : Page) : text :=
  prefix ++ lit "?l=" ++ print_i64 (pg_limit p) ++ lit "&before=" ++ print_opt (pg_before_id p).
(** [DateTime::timestamp]: whole seconds, rounding down. *)
Definition timestamp (t : Z) : Z := t / SECOND.
Definition range_key (prefix : text) (from until : Z) (b : Bucket) : text :=
  prefix ++ lit "?from=" ++ print_i64 from ++ lit "&to=" ++ print_i64 until
    ++ lit "&b=" ++ print_i64 (seconds b).

(** ** [handlers/pool.rs] *)

Definition bucket_token (b : Bucket) : string :=
  match b with OneMinute => "1m" | FiveMinutes => "5m" | OneHour => "1h" | OneDay => "1d" end.

Definition next_cursor (returned : nat) (limit : Z) (last_id : option Z) : option Z :=
  match i64_try_from (Z.of_nat returned) with
  | Some n => if limit <=? n then last_id else None
  | None => None
  end.

Definition treasury_view (t : TreasurySnapshot) : TreasuryView :=
  mkTreasuryView (tsn_captured_at t) (from_sompi (tsn_kas_balance_sompi t)) (print_i64 (tsn_nacho_balance t))
    (tsn_daa_score t) (tsn_blue_score t).

Definition build_stats (win : Z) : RM Value :=
  w <-r resolve_window win ;;
  acc <-r rm_db (accepted_pool_wide (wi_since w)) ;;
  hashrate_hs <-r rm_db (hashrate_estimate_pool_wide (wi_since w) (wi_until w)) ;;
  counts <-r rm_db (active_participant_counts (wi_since w)) ;;
  block_rows <-r rm_db count_by_status ;;
  totals <-r rm_db pool_payout_totals ;;
  treasury <-r rm_treasury ;;
  rm_ret (VPoolStats (mkPoolStats (wi_until w) (wi_secs w) (an_wallets counts) (an_workers counts) hashrate_hs
    (ac_share_count acc) (BlockCounts_from_rows block_rows)
    (mkPayoutTotals (from_sompi (pt_kas_confirmed_sompi totals)) (from_sompi (pt_nacho_confirmed_sompi totals))
       (pt_confirmed_payouts totals))
    (option_map treasury_view treasury))).

Definition stats (requested : option Z) : AM Value :=
  with_params (window requested) (fun win =>
    cached_json PoolCache (window_key (lit "pool/stats") win) (build_stats win)).

Definition hashrate (requested : option Z) : AM Value :=
  with_params (window requested) (fun win =>
    cached_json PoolCache (window_key (lit "pool/hashrate") win)
      (w <-r resolve_window win ;;
       hashrate_hs <-r rm_db (hashrate_estimate_pool_wide (wi_since w) (wi_until w)) ;;
       rm_ret (VHashrate (mkSnapshot hashrate_hs (wi_secs w))))).

(** The clock of a missing [to] is read here. *)
Definition with_range (params : RangeParams) (k : Range -> AM Value) : AM Value :=
  fun '(st, n) => with_params (range parse_from_rfc3339 (ae_now n) params) k (st, S n).

Definition pool_hashrate_history (params : RangeParams) : AM Value :=
  with_range params (fun r =>
    let cache_until := timestamp (rg_until r) / 10 * 10 in
    cached_json PoolCache
      (range_key (lit "pool/hashrate/history") (timestamp (rg_from r)) cache_until (rg_bucket r))
      (points <-r rm_db (hashrate_series_pool_wide in_chrono_range (rg_from r) (rg_until r)
                           (seconds (rg_bucket r))) ;;
       rm_ret (VHashrateHistory (mkHistory (rg_from r) (rg_until r) (bucket_token (rg_bucket r)) points)))).

Definition build_blocks (p : Page) : RM Value :=
  rows <-r rm_db (list_recent (pg_limit p) (pg_before_id p)) ;;
  rm_ret (VBlocks (mkBlocksPage (map BlockView_from rows)
                     (next_cursor (length rows) (pg_limit p) (option_map bk_id (last rows))))).

Definition blocks (limit before : option Z) : AM Value :=
  with_params (page limit before) (fun p =>
    cached_json PoolCache (page_key (lit "pool/blocks") p) (build_blocks p)).

Definition HASHRATE_UNITS : list string := ["H/s"; "KH/s"; "MH/s"; "GH/s"; "TH/s"; "PH/s"; "EH/s"; "ZH/s"]%string.

(** [as usize] of the floored exponent saturates at zero. *)
Definition format_hashrate_compact (hs : f64) : text :=
  if negb (f64_is_finite hs) || f64_leb hs f64_zero then lit "0.00H/s"
  else
    let exp := Z.min (f64_as_u64 (f64_floor (f64_div (f64_log10 hs) (f64_of_Z 3)))) 7 in
    let scaled := f64_div hs (f64_powi (f64_of_Z 1000) exp) in
    fmt_2_decimals scaled ++ lit (nth (Z.to_nat exp) HASHRATE_UNITS ""%string).

Record MpsConfig := mkMpsConfig { mps_fee_bps : Z; mps_min_pay_kas : Z; mps_pool_address : text }.

Definition mps_block (cfg : MpsConfig) (b : RecentBlockIdentity) : MpsBlock :=
  mkMpsBlock (hex_encode (rb_hash b)) (rb_worker_name b) (mps_pool_address cfg) [] (rb_wallet_address b)
    (rb_daa_score b) (match rb_miner_reward_sompi b with Some r => r | None => 0 end)
    (to_rfc3339_millis (rb_found_at b)).

Definition build_mining_pool_stats (cfg : MpsConfig) : RM Value :=
  now <-r rm_now ;;
  hashrate_hs <-r rm_db (hashrate_estimate_pool_wide (now - 600 * SECOND) now) ;;
  recent <-r rm_db (list_recent_with_identity 100) ;;
  total_blocks_count <-r rm_db block_total_count ;;
  let lastblock := match recent with b :: _ => hex_encode (rb_hash b) | [] => [] end in
  let lastblocktime := match recent with b :: _ => to_rfc3339_millis (rb_found_at b) | [] => [] end in
  rm_ret (VMiningPoolStats (mkMiningPoolStats "Kaspa" (f64_div (f64_of_Z (mps_fee_bps cfg)) (f64_of_Z 100))
    (format_hashrate_compact hashrate_hs) (map (mps_block cfg) recent) total_blocks_count (mps_min_pay_kas cfg)
    lastblock lastblocktime)).

Definition mining_pool_stats (cfg : MpsConfig) : AM Value :=
  cached_json PoolCache (lit "pool/miningPoolStats") (build_mining_pool_stats cfg).

Definition build_cycles (p : Page) : RM Value :=
  rows <-r rm_db (list_recent_cycles (pg_limit p) (pg_before_id p)) ;;
  rm_ret (VCycles (mkCyclesPage (map CycleView_from rows)
                     (next_cursor (length rows) (pg_limit p) (option_map cy_id (last rows))))).

Definition pool_payouts (limit before : option Z) : AM Value :=
  with_params (page limit before) (fun p =>
    cached_json PoolCache (page_key (lit "pool/payouts") p) (build_cycles p)).

Definition payout_cycle (cycle_id : Z) : AM Value :=
  cached_json PoolCache (lit "pool/payouts/" ++ print_i64 cycle_id)
    (cycle <-r rm_db (get_cycle cycle_id) ;;
     rows <-r rm_db (list_cycle_recipients cycle_id) ;;
     rm_ret (VCycleDetail (mkCycleDetail (CycleView_from cycle) (map CycleRecipientView_from rows)))).

Definition active_miners_history (params : RangeParams) : AM Value :=
  with_range params (fun r =>
    cached_json PoolCache
      (range_key (lit "pool/miners/history") (timestamp (rg_from r)) (timestamp (rg_until r)) (rg_bucket r))
      (points <-r rm_db (active_wallets_series in_chrono_range (rg_from r) (rg_until r) (seconds (rg_bucket r))) ;;
       rm_ret (VActiveMiners (mkMinersHistory (rg_from r) (rg_until r) (bucket_token (rg_bucket r)) points)))).

Definition firmware (requested : option Z) : AM Value :=
  with_params (window requested) (fun win =>
    cached_json PoolCache (window_key (lit "pool/firmware") win)
      (w <-r resolve_window win ;;
       rows <-r rm_db (firmware_breakdown (wi_since w)) ;;
       rm_ret (VFirmware (mkFirmwares (wi_secs w) (map (fun '(a, x, y) => mkFirmware a x y) rows))))).

Definition geo (requested : option Z) : AM Value :=
  with_params (window requested) (fun win =>
    cached_json PoolCache (window_key (lit "pool/geo") win)
      (w <-r resolve_window win ;;
       rows <-r rm_db (country_breakdown (wi_since w)) ;;
       rm_ret (VGeo (mkGeos (wi_secs w) (map (fun '(c, x, y) => mkGeo c x y) rows))))).

Definition active_sessions : AM Value :=
  cached_json PoolCache (lit "pool/active-sessions")
    (s <-r rm_db active_summary ;;
     rm_ret (VActiveSessions (mkActiveSessions (as_sessions s) (as_workers s)))).

Definition pool_rejects (requested : option Z) : AM Value :=
  with_params (window requested) (fun win =>
    cached_json PoolCache (window_key (lit "pool/rejects") win)
      (w <-r resolve_window win ;;
       rows <-r rm_db (count_by_reason_pool_wide (wi_since w)) ;;
       rm_ret (VPoolRejects (mkPoolRejects (wi_secs w) (sumZ (map snd rows)) (map RejectReasonCount_from_row rows))))).

(** ** [handlers/miner.rs] *)

Definition require_wallet (addr : text) : RM Wallet :=
  found <-r rm_db (find_by_address addr) ;;
  match found with Some w => rm_ret w | None => rm_fail ANotFound end.

Definition kas_balance (wallet_id : Z) : RM KasBalanceView :=
  bal <-r rm_db (kas_payable_for_wallet wallet_id) ;;
  rm_ret (mkKasBalance (from_sompi (wb_allocated_sompi bal)) (from_sompi (wb_confirmed_paid_sompi bal))
            (from_sompi (wb_payable_sompi bal))).

Definition nacho_view (wallet_id : Z) : RM NachoRebateView :=
  r <-r rm_db (rebate_get wallet_id) ;;
  rm_ret (match r with
          | Some r => mkNachoRebate (from_sompi (nr_accrued_sompi r)) (from_sompi (nr_paid_sompi r))
                        (from_sompi (pending_sompi r))
          | None => NachoRebateView_zero
          end).

Definition build_balance (addr : text) : RM Value :=
  wallet <-r require_wallet addr ;;
  kas <-r kas_balance (w_id wallet) ;;
  nacho <-r nacho_view (w_id wallet) ;;
  rm_ret (VBalance (mkBalanceResponse (w_address wallet) (w_network wallet) kas nacho)).

Definition balance (address : text) : AM Value :=
  with_params (parse_address address) (fun addr =>
    cached_json WalletCache (lit "balance/" ++ addr) (build_balance addr)).

Definition miner_key (addr : text) (rest : string) : text := lit "miners/" ++ addr ++ lit rest.

Definition build_profile (addr : text) (win : Z) : RM Value :=
  wallet <-r require_wallet addr ;;
  w <-r resolve_window win ;;
  summary <-r rm_db (accepted_and_rejected_for_wallet (w_id wallet) (wi_since w)) ;;
  hashrate_hs <-r rm_db (hashrate_estimate_for_wallet (w_id wallet) (wi_since w) (wi_until w)) ;;
  workers <-r rm_db (workers_for_wallet (w_id wallet)) ;;
  kas <-r kas_balance (w_id wallet) ;;
  nacho <-r nacho_view (w_id wallet) ;;
  rm_ret (VProfile (mkProfile (w_address wallet) (w_network wallet) (w_first_seen_at wallet)
    (w_last_seen_at wallet) (wi_secs w) (wsu_accepted_count summary) (wsu_rejected_count summary) hashrate_hs
    (Z.of_nat (length workers)) kas nacho)).

Definition profile (address : text) (requested : option Z) : AM Value :=
  with_params (parse_address address) (fun addr => with_params (window requested) (fun win =>
    cached_json WalletCache (window_key (miner_key addr "") win) (build_profile addr win))).

Fixpoint worker_views (w : Window) (rows : list Worker) : RM (list WorkerView) :=
  match rows with
  | [] => rm_ret []
  | row :: rows =>
      acc <-r rm_db (accepted_for_worker (wk_id row) (wi_since w)) ;;
      hashrate_hs <-r rm_db (hashrate_estimate_for_worker (wk_id row) (wi_since w) (wi_until w)) ;;
      views <-r worker_views w rows ;;
      rm_ret (mkWorkerView (wk_name row) (wk_first_seen_at row) (wk_last_seen_at row) (ac_share_count acc)
                hashrate_hs :: views)
  end.

Definition build_workers (addr : text) (win : Z) : RM Value :=
  wallet <-r require_wallet addr ;;
  w <-r resolve_window win ;;
  rows <-r rm_db (workers_for_wallet (w_id wallet)) ;;
  views <-r worker_views w rows ;;
  rm_ret (VWorkers (mkWorkersResponse (w_address wallet) (wi_secs w) views)).

Definition workers (address : text) (requested : option Z) : AM Value :=
  with_params (parse_address address) (fun addr => with_params (window requested) (fun win =>
    cached_json WalletCache (window_key (miner_key addr "/workers") win) (build_workers addr win))).

Definition build_miner_history (addr : text) (r : Range) : RM Value :=
  wallet <-r require_wallet addr ;;
  points <-r rm_db (hashrate_series_for_wallet in_chrono_range (w_id wallet) (rg_from r) (rg_until r)
                      (seconds (rg_bucket r))) ;;
  rm_ret (VMinerHistory (w_address wallet)
            (mkHistory (rg_from r) (rg_until r) (bucket_token (rg_bucket r)) points)).

Definition miner_hashrate_history (address : text) (params : RangeParams) : AM Value :=
  with_params (parse_address address) (fun addr => with_range params (fun r =>
    cached_json WalletCache
      (range_key (miner_key addr "/hashrate/history") (timestamp (rg_from r)) (timestamp (rg_until r)) (rg_bucket r))
      (build_miner_history addr r))).

Definition build_miner_payouts (addr : text) (p : Page) : RM Value :=
  wallet <-r require_wallet addr ;;
  rows <-r rm_db (list_for_wallet_detailed (w_id wallet) (pg_limit p) (pg_before_id p)) ;;
  rm_ret (VMinerPayouts (mkPayoutsPage (w_address wallet) (map MinerPayoutView_from rows)
    (next_cursor (length rows) (pg_limit p) (option_map (fun w => po_id (wp_payout w)) (last rows))))).

Definition miner_payouts (address : text) (limit before : option Z) : AM Value :=
  with_params (parse_address address) (fun addr => with_params (page limit before) (fun p =>
    cached_json WalletCache (page_key (miner_key addr "/payouts") p) (build_miner_payouts addr p))).

Definition build_miner_rejects (addr : text) (win : Z) : RM Value :=
  wallet <-r require_wallet addr ;;
  w <-r resolve_window win ;;
  rows <-r rm_db (count_by_reason_for_wallet (w_id wallet) (wi_since w)) ;;
  rm_ret (VRejects (mkRejects (w_address wallet) (wi_secs w) (sumZ (map snd rows))
                      (map RejectReasonCount_from_row rows))).

Definition miner_rejects (address : text) (requested : option Z) : AM Value :=
  with_params (parse_address address) (fun addr => with_params (window requested) (fun win =>
    cached_json WalletCache (window_key (miner_key addr "/rejects") win) (build_miner_rejects addr win))).

Definition build_full_rebate (addr : text) : RM Value :=
  wallet <-r require_wallet addr ;;
  tier <-r rm_db (latest_applied_tier_for_wallet (w_id wallet)) ;;
  rm_ret (VFullRebate (mkFullRebate (w_address wallet) (option_map DbWalletTier_as_str tier)
                         (bool_decide (tier = Some Elite)))).

Definition full_rebate (address : text) : AM Value :=
  with_params (parse_address address) (fun addr =>
    cached_json WalletCache (lit "full_rebate/" ++ addr) (build_full_rebate addr)).

(** ** The data routes *)

Inductive Request :=
| RStats (w : option Z) | RHashrate (w : option Z) | RHashrateHistory (p : RangeParams)
| RBlocks (limit before : option Z) | RMiningPoolStats | RPayouts (limit before : option Z)
| RPayoutCycle (id : Z) | RActiveMiners (p : RangeParams) | RFirmware (w : option Z) | RGeo (w : option Z)
| RActiveSessions | RPoolRejects (w : option Z)
| RBalance (a : text) | RProfile (a : text) (w : option Z) | RWorkers (a : text) (w : option Z)
| RMinerHistory (a : text) (p : RangeParams) | RMinerPayouts (a : text) (limit before : option Z)
| RMinerRejects (a : text) (w : option Z) | RFullRebate (a : text).

(** [app]: the handler of each route. *)
Definition handle (cfg : MpsConfig) (r : Request) : AM Value :=
  match r with
  | RStats w => stats w
  | RHashrate w => hashrate w
  | RHashrateHistory p => pool_hashrate_history p
  | RBlocks l b => blocks l b
  | RMiningPoolStats => mining_pool_stats cfg
  | RPayouts l b => pool_payouts l b
  | RPayoutCycle id => payout_cycle id
  | RActiveMiners p => active_miners_history p
  | RFirmware w => firmware w
  | RGeo w => geo w
  | RActiveSessions => active_sessions
  | RPoolRejects w => pool_rejects w
  | RBalance a => balance a
  | RProfile a w => profile a w
  | RWorkers a w => workers a w
  | RMinerHistory a p => miner_hashrate_history a p
  | RMinerPayouts a l b => miner_payouts a l b
  | RMinerRejects a w => miner_rejects a w
  | RFullRebate a => full_rebate a
  end.
End Handlers.
