(* ===== verification/ApiSpec.v ===== *)
(** * Guarantees of the HTTP API

    Amounts are rendered exactly, and a page of a listing holds the rows below its
    cursor, newest first. *)
From Stdlib Require Import SpecFloat.
From S2P Require Import Consolidate.
From S2P Require Import Prelude F64 FeeModel Schema PayoutDb Domain AccountDb IngestDb SessionDb ShareStats Api ApiHandlers.
Open Scope Z_scope.

(** ** Decimal strings *)

Definition dec_value (s : text) : Z := fold_left (fun acc c => acc * 10 + (c - 48)) s 0.

Lemma dec_value_app a b : dec_value (a ++ b) = dec_value a * 10 ^ Z.of_nat (length b) + dec_value b.
Proof.
  unfold dec_value. rewrite fold_left_app. generalize (fold_left (fun acc c => acc * 10 + (c - 48)) a 0).
  induction b as [|c b IH] using rev_ind; intros x; simpl; [lia|].
  rewrite !fold_left_app, length_app. simpl. rewrite IH.
  replace (Z.of_nat (length b + 1)) with (Z.of_nat (length b) + 1) by lia.
  rewrite Z.pow_add_r by lia. lia.
Qed.

Lemma dec_value_zeros n : dec_value (repeat 48 n) = 0.
Proof.
  induction n as [|n IH]; [done|]. change (repeat 48 (S n)) with ([48] ++ repeat 48 n).
  rewrite dec_value_app, IH. done.
Qed.

(** The digits of a positive number start with a non-zero one. *)
Record digits_of (z : Z) (s : text) : Prop := {
  dg_value : dec_value s = z;
  dg_digits : forallb is_ascii_digit s = true;
  dg_short : 1 <= z -> 10 ^ (Z.of_nat (length s) - 1) <= z;
  dg_long : z < 10 ^ Z.of_nat (length s);
  dg_some : s <> []
}.

Lemma digit_char d : 0 <= d < 10 -> is_ascii_digit (48 + d) = true.
Proof. intros. unfold is_ascii_digit. rewrite andb_true_iff, !Z.leb_le. lia. Qed.

Lemma dec_rev_digits fuel : forall z, 0 <= z < 10 ^ Z.of_nat fuel -> (fuel <> 0)%nat -> digits_of z (rev (dec_rev fuel z)).
Proof.
  induction fuel as [|fuel IH]; intros z Hz Hf; [done|]. cbn [dec_rev rev].
  pose proof (Z.div_mod z 10 ltac:(lia)) as Dm. pose proof (Z.mod_pos_bound z 10 ltac:(lia)) as Mb.
  destruct (Z.ltb_spec z 10) as [Hs|Hs].
  - rewrite Z.mod_small by lia. cbn [rev app]. split; [| | | |done].
    + unfold dec_value. cbn [fold_left]. lia.
    + cbn [forallb]. by rewrite digit_char by lia.
    + intros H1. change (10 ^ 0 <= z). lia.
    + change (z < 10 ^ 1). lia.
  - destruct fuel as [|fuel']; [cbn in Hz; lia|]. set (fuel := S fuel') in *.
    assert (0 <= z / 10 < 10 ^ Z.of_nat fuel) as Hq.
    { split; [apply Z.div_pos; lia|]. apply Z.div_lt_upper_bound; [lia|].
      replace (Z.of_nat (S fuel)) with (Z.of_nat fuel + 1) in Hz by lia. rewrite Z.pow_add_r in Hz by lia. lia. }
    destruct (IH (z / 10) Hq ltac:(done)) as [V D Sh L N]. set (q := rev (dec_rev fuel (z / 10))) in *.
    assert (1 <= z / 10) as H1 by (apply Z.div_le_lower_bound; lia). specialize (Sh H1).
    assert (Z.of_nat (length (q ++ [48 + z mod 10])) = Z.of_nat (length q) + 1) as El
      by (rewrite length_app; cbn; lia).
    assert (1 <= Z.of_nat (length q)) as Lq by (destruct q; [done|cbn; lia]).
    split.
    + rewrite dec_value_app, V. cbn. lia.
    + rewrite forallb_app, D. cbn [forallb]. by rewrite digit_char by lia.
    + intros _. rewrite El. replace (Z.of_nat (length q) + 1 - 1) with (Z.of_nat (length q) - 1 + 1) by lia.
      rewrite Z.pow_add_r by lia. lia.
    + rewrite El, Z.pow_add_r by lia. lia.
    + by destruct q.
Qed.

Lemma print_u64_digits z : 0 <= z -> digits_of z (print_u64 z).
Proof.
  intros Hz. apply dec_rev_digits; [|done]. split; [done|].
  destruct (Z.eq_dec z 0) as [->|]; [done|].
  pose proof (Z.log2_spec z ltac:(lia)) as [_ L]. pose proof (Z.log2_nonneg z).
  replace (Z.of_nat (S (Z.to_nat (Z.log2 z)))) with (Z.succ (Z.log2 z)) by lia.
  eapply Z.lt_le_trans; [exact L|]. apply Z.pow_le_mono_l. lia.
Qed.

Lemma trim_start_zeros_spec s : exists n, s = repeat 48 n ++ trim_start_zeros s /\
  (forall c s', trim_start_zeros s = c :: s' -> c <> 48).
Proof.
  induction s as [|c s (n & E & H)]; [by exists 0%nat|]. simpl. destruct (Z.eqb_spec c 48) as [->|Hc].
  - exists (S n). split; [simpl; congruence|exact H].
  - exists 0%nat. split; [reflexivity|]. intros ? ? [= <- _]. exact Hc.
Qed.

Lemma trim_end_zeros_spec s : exists n, s = trim_end_zeros s ++ repeat 48 n /\
  (forall s' c, trim_end_zeros s = s' ++ [c] -> c <> 48).
Proof.
  destruct (trim_start_zeros_spec (rev s)) as (n & E & H). exists n. unfold trim_end_zeros. split.
  - apply (f_equal (@rev Z)) in E. rewrite rev_involutive in E. rewrite E at 1.
    rewrite rev_app_distr, rev_repeat. reflexivity.
  - intros s' c Es. apply (f_equal (@rev Z)) in Es. rewrite rev_involutive, rev_app_distr in Es. exact (H c (rev s') Es).
Qed.

(** *** Reading an amount back *)

(** The value of a decimal string, in units of [10^-decimals]: an optional sign,
    an integer part and, after a point, at most [decimals] further digits.  It is
    written independently of the printer. *)
Fixpoint split_point (s : text) : text * option text :=
  match s with
  | [] => ([], None)
  | c :: s => if c =? 46 then ([], Some s)
              else let '(a, b) := split_point s in (c :: a, b)
  end.

Definition read_magnitude (decimals : Z) (s : text) : option Z :=
  let '(whole, frac) := split_point s in
  let frac := match frac with Some f => f | None => [] end in
  if forallb is_ascii_digit whole && forallb is_ascii_digit frac && (Z.of_nat (length frac) <=? decimals)
  then Some (dec_value whole * 10 ^ decimals + dec_value frac * 10 ^ (decimals - Z.of_nat (length frac)))
  else None.

Definition read_decimal (decimals : Z) (s : text) : option Z :=
  match s with
  | c :: s' => if c =? 45 then option_map Z.opp (read_magnitude decimals s') else read_magnitude decimals s
  | [] => None
  end.

Lemma split_point_digits a b :
  forallb is_ascii_digit a = true -> split_point (a ++ lit "." ++ b) = (a, Some b).
Proof.
  induction a as [|c a IH]; cbn -[lit]; [done|]. intros [Hc Ha]%andb_true_iff. rewrite (IH Ha).
  assert (c <> 46) by (unfold is_ascii_digit in Hc; to_prop; lia). by rewrite (proj2 (Z.eqb_neq _ _)).
Qed.

Lemma split_point_none a : forallb is_ascii_digit a = true -> split_point a = (a, None).
Proof.
  induction a as [|c a IH]; cbn; [done|]. intros [Hc Ha]%andb_true_iff. rewrite (IH Ha).
  assert (c <> 46) by (unfold is_ascii_digit in Hc; to_prop; lia). by rewrite (proj2 (Z.eqb_neq _ _)).
Qed.

Lemma read_decimal_sign decimals negative s v :
  s <> [] -> forallb is_ascii_digit (firstn 1 s) = true -> read_magnitude decimals s = Some v ->
  read_decimal decimals ((if negative : bool then lit "-" else []) ++ s) = Some (if negative then - v else v).
Proof.
  intros Hs Hd Hv. destruct negative; [cbn; by rewrite Hv|]. destruct s as [|c s]; [done|]. cbn in *.
  rewrite andb_true_r in Hd. unfold is_ascii_digit in Hd. to_prop.
  rewrite (proj2 (Z.eqb_neq c 45)) by lia. done.
Qed.

Lemma split_point_sign (negative : bool) s :
  snd (split_point ((if negative then lit "-" else []) ++ s)) = snd (split_point s).
Proof. destruct negative; [|done]. cbn. by destruct (split_point s). Qed.

(** The fraction digits of [frac], without trailing zeros. *)
Lemma fraction_digits decimals frac (f := trim_end_zeros (pad_zeros (Z.to_nat decimals) (print_u64 frac))) :
  0 <= decimals -> 1 <= frac < 10 ^ decimals ->
  forallb is_ascii_digit f = true /\ Z.of_nat (length f) <= decimals /\ f <> [] /\
  dec_value f * 10 ^ (decimals - Z.of_nat (length f)) = frac /\ last f <> Some 48.
Proof.
  intros Hd Hf. destruct (print_u64_digits frac ltac:(lia)) as [V D Sh L N]. specialize (Sh ltac:(lia)).
  assert (Z.of_nat (length (print_u64 frac)) <= decimals) as Hl.
  { assert (10 ^ (Z.of_nat (length (print_u64 frac)) - 1) < 10 ^ decimals) as B by lia.
    apply Z.pow_lt_mono_r_iff in B; lia. }
  destruct (trim_end_zeros_spec (pad_zeros (Z.to_nat decimals) (print_u64 frac))) as (n & E & T). fold f in E, T.
  assert (Z.of_nat (length f) + Z.of_nat n = decimals) as El.
  { apply (f_equal (@length Z)) in E. unfold pad_zeros in E. rewrite !length_app, !repeat_length in E. lia. }
  assert (dec_value f * 10 ^ Z.of_nat n = frac) as Ev.
  { apply (f_equal dec_value) in E. unfold pad_zeros in E.
    rewrite !dec_value_app, !dec_value_zeros, repeat_length, V in E. lia. }
  assert (forallb is_ascii_digit f = true) as Fd.
  { assert (forallb is_ascii_digit (pad_zeros (Z.to_nat decimals) (print_u64 frac)) = true) as P.
    { unfold pad_zeros. rewrite forallb_app, D, andb_true_r. apply forallb_forall.
      by intros x ->%repeat_spec. }
    rewrite E, forallb_app in P. by apply andb_true_iff in P as [P _]. }
  repeat split; [done|lia| | |].
  - intros E0. rewrite E0 in Ev. cbn in Ev. lia.
  - by replace (decimals - Z.of_nat (length f)) with (Z.of_nat n) by lia.
  - intros E0. destruct f as [|c f' _] using rev_ind; [done|]. rewrite last_snoc in E0. injection E0 as ->. by eapply T.
Qed.

(** Amounts are rendered exactly: every signed 64-bit amount, with up to 19
    decimals, has a decimal string, which reads back as that amount (so two
    amounts never share a string), and the string is the shortest one: no point,
    or a fraction that does not end in a zero.  From 20 decimals on the divisor
    overflows and the function panics. *)
Theorem scaled_decimal_string_exact units decimals :
  in_i64 units -> 0 <= decimals ->
  if decimals <=? 19 then
    exists s, scaled_decimal_string units decimals = Some s /\ read_decimal decimals s = Some units /\
              (forall f, snd (split_point s) = Some f -> f <> [] /\ last f <> Some 48)
  else scaled_decimal_string units decimals = None.
Proof.
  intros Hu Hd. destruct (Z.leb_spec decimals 19) as [Hm|Hm]; unfold scaled_decimal_string.
  2:{ assert (10 ^ 20 <= 10 ^ decimals) by (apply Z.pow_le_mono_r; lia).
      destruct (checked_u64 (10 ^ decimals)) as [v|] eqn:E; [|done].
      apply checked_u64_Some in E as [_ E]. unfold in_u64, u64_max in E. lia. }
  assert (0 < 10 ^ decimals <= 10 ^ 19) as Hp by (split; [apply Z.pow_pos_nonneg|apply Z.pow_le_mono_r]; lia).
  rewrite (proj2 (checked_u64_Some _ _) (conj eq_refl (ltac:(unfold in_u64, u64_max; lia) : in_u64 (10 ^ decimals)))).
  cbn [mbind option_bind].
  pose proof (Z.div_mod (Z.abs units) (10 ^ decimals) ltac:(lia)) as Dm.
  pose proof (Z.mod_pos_bound (Z.abs units) (10 ^ decimals) ltac:(lia)) as Mb.
  assert (0 <= Z.abs units / 10 ^ decimals) as Q by (apply Z.div_pos; lia).
  set (whole := Z.abs units / 10 ^ decimals) in *. set (frac := Z.abs units mod 10 ^ decimals) in *.
  destruct (print_u64_digits whole Q) as [V D _ _ N].
  assert (forall neg : bool, neg = (units <? 0) -> (if neg then - Z.abs units else Z.abs units) = units) as Ha
    by (intros ? ->; destruct (Z.ltb_spec units 0); lia).
  specialize (Ha _ eq_refl).
  assert (forallb is_ascii_digit (firstn 1 (print_u64 whole)) = true) as D1
    by (destruct (print_u64 whole); [done|]; cbn in *; by apply andb_true_iff in D as [-> _]).
  destruct (Z.eqb_spec frac 0) as [F0|F0].
  - eexists. split; [reflexivity|]. split.
    + rewrite <- Ha at 2. apply read_decimal_sign; [done|done|]. unfold read_magnitude.
      rewrite (split_point_none _ D), D.
      cbn [forallb andb length]. rewrite V, (proj2 (Z.leb_le (Z.of_nat 0) decimals)) by lia. f_equal.
      change (dec_value []) with 0. lia.
    + intros f E. by rewrite split_point_sign, (split_point_none _ D) in E.
  - destruct (fraction_digits decimals frac Hd ltac:(lia)) as (Fd & Fl & Fn & Fv & Fe).
    set (f := trim_end_zeros _) in *. eexists. split; [reflexivity|].
    pose proof (split_point_digits _ f D) as E0. split.
    + rewrite <- Ha at 2. apply read_decimal_sign.
      * destruct (print_u64 whole); done.
      * destruct (print_u64 whole); [done|]. exact D1.
      * unfold read_magnitude. rewrite E0, D, Fd, (proj2 (Z.leb_le _ _) Fl). cbn [andb]. rewrite V, Fv. f_equal. lia.
    + intros f' E. rewrite split_point_sign, E0 in E. injection E as <-. by split.
Qed.

Lemma scaled_decimal_string_exact_witness :
  exists s, scaled_decimal_string (-4567890000) 8 = Some s /\ read_decimal 8 s = Some (-4567890000) /\
            (forall f, snd (split_point s) = Some f -> f <> [] /\ last f <> Some 48).
Proof. apply (scaled_decimal_string_exact (-4567890000) 8); [split; discriminate|discriminate]. Defined.

(** ** Listings *)

(** The three keyset-paged listings; a wallet's payouts name its address and id. *)
Inductive Listing := LBlocks | LCycles | LPayouts (addr : text) (wallet_id : Z).

(** The ids a listing ranges over, when its reads find what the schema's foreign
    keys promise: the wallet, and the cycle of each payout. *)
Definition listed (L : Listing) (d : Db) : option (list Z) :=
  match L with
  | LBlocks => Some (map bk_id (db_blocks d))
  | LCycles => Some (map cy_id (db_cycles d))
  | LPayouts addr wallet_id =>
      w ← List.find (has_address (to_column addr)) (db_wallets d);
      let rows := List.filter (fun p => po_wallet_id p =? wallet_id) (db_payouts d) in
      if (w_id w =? wallet_id) && forallb (fun p => match cycle_of d p with Some _ => true | None => false end) rows
      then Some (map po_id rows) else None
  end.

(** Rows are only added, with ids above the ones before. *)
Record grows (ids ids' : list Z) : Prop := {
  gr_kept : forall x, In x ids -> In x ids';
  gr_newer : forall x, In x ids' -> In x ids \/ forall y, In y ids -> y < x
}.

Definition desc (l : list Z) : list Z := sort_by (fun a b => b <=? a) l.
Definition below (before : option Z) (x : Z) : bool := match before with None => true | Some b => x <? b end.

Section Paging.
Context {env : ApiEnv}.

Definition build_page (L : Listing) (p : Page) : RM Value :=
  match L with
  | LBlocks => build_blocks p
  | LCycles => build_cycles p
  | LPayouts addr _ => build_miner_payouts addr p
  end.

Definition page_ids (v : Value) : list Z * option Z :=
  match v with
  | VBlocks v => (map bv_id (bp_blocks v), bp_next_before v)
  | VCycles v => (map cv_id (cp_cycles v), cp_next_before v)
  | VMinerPayouts v => (map pv_id (pp_payouts v), pp_next_before v)
  | _ => ([], None)
  end.

(** The call that reads a page's rows. *)
Definition read_at (L : Listing) (n : nat) : nat := match L with LPayouts _ _ => S n | _ => n end.
End Paging.

Lemma last_map {A B} (f : A -> B) l : option_map f (last l) = last (map f l).
Proof. destruct l as [|x l _] using rev_ind; [done|]. rewrite map_app. cbn [map]. by rewrite !last_snoc. Qed.

Lemma page_limit_bounds limit : 1 <= page_limit limit <= 100.
Proof.
  unfold page_limit, clamp, MAX_PAGE_SIZE. destruct (_ <? 1) eqn:E1; [lia|]. destruct (100 <? _) eqn:E2; to_prop; lia.
Qed.

Lemma map_insert_sorted {A} (f : A -> Z) x l :
  map f (insert_sorted (fun a b => f b <=? f a) x l) = insert_sorted (fun a b => b <=? a) (f x) (map f l).
Proof. induction l as [|y l IH]; simpl; [done|]. destruct (f y <=? f x); simpl; congruence. Qed.

Lemma map_sort_by {A} (f : A -> Z) l : map f (sort_by (fun a b => f b <=? f a) l) = desc (map f l).
Proof. unfold desc. induction l as [|x l IH]; simpl; [done|]. by rewrite map_insert_sorted, IH. Qed.

Lemma map_filter_id {A} (f : A -> Z) (p : Z -> bool) l :
  map f (List.filter (fun x => p (f x)) l) = List.filter p (map f l).
Proof. induction l as [|x l IH]; simpl; [done|]. destruct (p (f x)); simpl; congruence. Qed.

Lemma filter_filter_and {A} (p q : A -> bool) l :
  List.filter p (List.filter q l) = List.filter (fun x => q x && p x) l.
Proof. induction l as [|x l IH]; simpl; [done|]. destruct (q x); simpl; [destruct (p x)|]; congruence. Qed.

Lemma filter_true {A} (l : list A) : List.filter (fun _ => true) l = l.
Proof. induction l as [|x l IH]; simpl; congruence. Qed.

Lemma page_rows {A} (f : A -> Z) before k l :
  map f (firstn k (sort_by (fun a b => f b <=? f a) (List.filter (fun x => below before (f x)) l))) =
  firstn k (desc (List.filter (below before) (map f l))).
Proof. by rewrite <- firstn_map, map_sort_by, map_filter_id. Qed.

Lemma omap_total {A B} (g : A -> option B) (f : A -> Z) (h : B -> Z) l :
  (forall x, In x l -> exists y, g x = Some y /\ h y = f x) -> map h (omap g l) = map f l.
Proof.
  induction l as [|x l IH]; simpl; intros H; [done|]. destruct (H x (or_introl eq_refl)) as (y & Hy & E).
  rewrite Hy. cbn [map]. f_equal; [exact E|]. apply IH. auto.
Qed.

(** Strictly descending lists with the same elements are equal. *)
Lemma strict_desc_unique l : forall l',
  StronglySorted (fun a b => b < a) l -> StronglySorted (fun a b => b < a) l' ->
  (forall x, In x l <-> In x l') -> l = l'.
Proof.
  induction l as [|a l IH]; intros [|b l'] S S' H; [done| | |].
  - by destruct (proj2 (H b) (or_introl eq_refl)).
  - by destruct (proj1 (H a) (or_introl eq_refl)).
  - apply StronglySorted_inv in S as [S Fa]. apply StronglySorted_inv in S' as [S' Fb].
    rewrite List.Forall_forall in Fa, Fb.
    assert (a = b) as <-.
    { destruct (proj1 (H a) (or_introl eq_refl)) as [|Ha]; [done|].
      destruct (proj2 (H b) (or_introl eq_refl)) as [|Hb]; [done|]. pose proof (Fa _ Hb). pose proof (Fb _ Ha). lia. }
    f_equal. apply IH; auto. intros x. split; intros Hx.
    + destruct (proj1 (H x) (or_intror Hx)) as [->|]; [|done]. pose proof (Fa _ Hx). lia.
    + destruct (proj2 (H x) (or_intror Hx)) as [->|]; [|done]. pose proof (Fb _ Hx). lia.
Qed.

Lemma desc_sorted l : List.NoDup l -> StronglySorted (fun a b => b < a) (desc l).
Proof.
  intros N. assert (StronglySorted (fun a b => (b <=? a) = true) (desc l)) as S.
  { apply sort_by_sorted; intros; to_prop; rewrite ?Z.leb_le in *; lia. }
  assert (List.NoDup (desc l)) as N' by (eapply Permutation_NoDup; [apply sort_by_perm|done]).
  revert N'. induction S as [|a l' S IH F]; [constructor|]. inversion_clear 1 as [|? ? Hn Hl]. constructor; auto.
  rewrite List.Forall_forall in *. intros x Hx. specialize (F x Hx). to_prop.
  assert (x <> a) by (intros ->; tauto). lia.
Qed.

Lemma same_rows ids ids' c :
  grows ids ids' -> List.NoDup ids -> List.NoDup ids' -> In c ids ->
  desc (List.filter (below (Some c)) ids') = desc (List.filter (below (Some c)) ids).
Proof.
  intros [K G] N N' Hc. apply strict_desc_unique; try (by apply desc_sorted, List.NoDup_filter).
  intros x. unfold desc. rewrite !sort_by_In, !filter_In. cbn. rewrite !Z.ltb_lt.
  split; intros [Hx Hl]; split; auto. destruct (G x Hx) as [|H]; [done|]. specialize (H c Hc). lia.
Qed.

(** After the row [c], a descending list goes on with the rows below [c]. *)
Lemma rest_of_page ids before k l' c rest :
  List.NoDup ids -> firstn k (desc (List.filter (below before) ids)) = l' ++ [c] ->
  skipn k (desc (List.filter (below before) ids)) = rest ->
  In c ids /\ rest = desc (List.filter (below (Some c)) ids).
Proof.
  intros N E1 E2. pose proof (desc_sorted _ (List.NoDup_filter (below before) N)) as S.
  assert (desc (List.filter (below before) ids) = l' ++ c :: rest) as D
    by (rewrite <- (firstn_skipn k (desc _)), E1, E2, <- app_assoc; done).
  assert (forall x, In x (l' ++ c :: rest) <-> In x ids /\ below before x = true) as I.
  { intros x. rewrite <- D. unfold desc. by rewrite sort_by_In, filter_In. }
  rewrite D in S. assert (In c ids /\ below before c = true) as [Hc Hb] by (apply I, in_app_iff; simpl; auto).
  split; [done|].
  assert (StronglySorted (fun a b => b < a) rest /\ Forall (fun x => x < c) rest /\ Forall (fun x => c < x) l') as (Sr & Fr & Fl).
  { clear -S. induction l' as [|a l' IH]; simpl in S.
    - apply StronglySorted_inv in S as [S F]. auto.
    - apply StronglySorted_inv in S as [S F]. destruct (IH S) as (A & B & C). repeat split; auto.
      constructor; auto. apply Forall_app in F as [_ F]. by apply Forall_cons in F as [F _]. }
  rewrite List.Forall_forall in Fr, Fl. apply strict_desc_unique; auto; [by apply desc_sorted, List.NoDup_filter|].
  intros x. unfold desc. rewrite sort_by_In, filter_In. cbn. rewrite Z.ltb_lt. split.
  - intros Hx. split; [|by apply Fr]. apply I, in_app_iff. simpl. auto.
  - intros [Hx Hlt]. assert (In x (l' ++ c :: rest)) as Hin.
    { apply I. split; [done|]. destruct before as [b|]; [|done]. cbn in *. to_prop. apply Z.ltb_lt. lia. }
    apply in_app_iff in Hin as [Hin|[<-|Hin]]; [specialize (Fl _ Hin); lia|lia|done].
Qed.

Section Pages.
Context {env : ApiEnv}.
Variables (L : Listing) (limit : option Z) (ids : nat -> list Z).
Hypothesis healthy : forall n, ae_fault n = false.
Hypothesis ids_ok : forall n, listed L (ae_db n) = Some (ids n).
Hypothesis keys : forall n, List.NoDup (ids n) /\ Forall (fun x => 0 < x) (ids n).
Hypothesis growing : forall n n', (n <= n')%nat -> grows (ids n) (ids n').

Let k := Z.to_nat (page_limit limit).

Lemma next_cursor_rows (l : list Z) :
  (length l <= k)%nat ->
  next_cursor (length l) (page_limit limit) (last l) = if (k <=? length l)%nat then last l else None.
Proof.
  intros Hl. pose proof (page_limit_bounds limit) as B. unfold next_cursor, i64_try_from, checked_i64.
  assert (in_i64b (Z.of_nat (length l)) = true) as ->
    by (apply in_i64b_spec; unfold in_i64, i64_min, i64_max, k in *; lia).
  unfold k in *. destruct (Z.leb_spec (page_limit limit) (Z.of_nat (length l))), (Nat.leb_spec (Z.to_nat (page_limit limit)) (length l));
    done || lia.
Qed.

Lemma page_view {A} (f : A -> Z) (rows : list A) D :
  map f rows = firstn k D ->
  (map f rows, next_cursor (length rows) (page_limit limit) (option_map f (last rows))) =
  (firstn k D, if (k <=? length D)%nat then last (firstn k D) else None).
Proof.
  intros E. rewrite last_map, <- (length_map f), E, next_cursor_rows by (rewrite length_firstn; lia).
  f_equal. rewrite length_firstn.
  destruct (Nat.leb_spec k (Nat.min k (length D))), (Nat.leb_spec k (length D)); done || lia.
Qed.

(** One page: the first ids of the listing below the cursor, at its read. *)
Lemma page_read before n (D := desc (List.filter (below before) (ids (read_at L n)))) :
  exists n' v, build_page L (mkPage (page_limit limit) before) n = (n', Ok v) /\ (read_at L n < n')%nat /\
    page_ids v = (firstn k D, if (k <=? length D)%nat then last (firstn k D) else None).
Proof.
  pose proof (page_limit_bounds limit) as B.
  assert ((page_limit limit <? 0) = false) as Hl by (apply Z.ltb_ge; lia).
  pose proof (ids_ok (read_at L n)) as Hi. pose proof (ids_ok n) as Hn. subst D.
  destruct L as [| |addr wid]; cbn in Hi, Hn |- *.
  - injection Hi as <-. unfold build_blocks, rm_bind, rm_db, list_recent, db_read_checked, sql_limit. cbn.
    rewrite healthy, Hl. cbn. do 2 eexists. split; [reflexivity|]. split; [lia|]. cbn.
    rewrite map_map. apply (page_view bk_id), (page_rows bk_id before).
  - injection Hi as <-. unfold build_cycles, rm_bind, rm_db, list_recent_cycles, db_read_checked, sql_limit. cbn.
    rewrite healthy, Hl. cbn. do 2 eexists. split; [reflexivity|]. split; [lia|]. cbn.
    rewrite map_map. apply (page_view cy_id), (page_rows cy_id before).
  - destruct (List.find _ (db_wallets (ae_db n))) as [w|] eqn:Fw; [|discriminate]. cbn in Hn.
    destruct (_ && _) eqn:Ew in Hn; [|discriminate]. apply andb_true_iff in Ew as [Ew _]. apply Z.eqb_eq in Ew.
    destruct (List.find _ (db_wallets (ae_db (S n)))) as [w1|]; [|discriminate]. cbn in Hi.
    destruct (_ && _) eqn:Ec in Hi; [|discriminate]. apply andb_true_iff in Ec as [_ Ec]. injection Hi as <-.
    unfold build_miner_payouts, require_wallet, find_by_address, db_read, rm_bind at 1 2, rm_db at 1. cbn.
    rewrite healthy, Fw. cbn. unfold rm_bind, rm_db, list_for_wallet_detailed, db_read_checked, sql_limit.
    rewrite healthy, Hl. cbn. do 2 eexists. split; [reflexivity|]. split; [lia|]. cbn.
    rewrite map_map, Ew. apply (page_view (fun w => po_id (wp_payout w))).
    rewrite <- firstn_map, (omap_total _ po_id).
    + f_equal. rewrite map_sort_by. f_equal. rewrite <- map_filter_id, filter_filter_and. reflexivity.
    + intros p Hp. apply sort_by_In, filter_In in Hp as [Hp Hb]. apply andb_true_iff in Hb as [Hb _].
      rewrite forallb_forall in Ec. specialize (Ec p (proj2 (filter_In _ _ _) (conj Hp Hb))).
      unfold wallet_payout_row. destruct (cycle_of _ p); [|discriminate]. eexists. by split.
Qed.
End Pages.

(** *** Concrete caches and environments *)

(** A cache that keeps every entry for its whole time to live. *)
Definition lookup_entry (l : list (text * (Value * Z))) (key : text) : option (Value * Z) :=
  option_map snd (List.find (fun e => bool_decide (fst e = key)) l).

#[export] Instance keeping_cache : JsonCache := {
  cache := Z * list (text * (Value * Z));
  cache_new ttl := (ttl, []);
  cache_ttl := fst;
  cache_get c key t := match lookup_entry (snd c) key with
                       | Some (v, t0) => if t <? t0 + fst c then Some v else None
                       | None => None
                       end;
  cache_insert c key v t := (fst c, (key, (v, t)) :: snd c)
}.

Definition healthy_env (clock : nat -> Z) (db : nat -> Db) : ApiEnv := {|
  ae_now := clock; ae_db := db; ae_treasury _ := []; ae_fault _ := false; in_chrono_range _ := true;
  parse_from_rfc3339 _ := None; to_rfc3339_millis t := print_i64 t; hex_encode b := [];
  f64_log10 x := x; f64_powi x _ := x; fmt_2_decimals _ := []
|}.

Definition numbered_blocks (n : nat) : Db :=
  set_blocks (map (fun i => mkBlock (Z.of_nat i) [] 3 4 100 None 0 Found 40 None None None None "b") (seq 1 n)) empty_db.

(** A block is found during each request. *)
Definition busy_env : ApiEnv := healthy_env (fun n => Z.of_nat n * SECOND) (fun n => numbered_blocks (5 + n)).

Lemma numbered_ids n : map bk_id (db_blocks (numbered_blocks n)) = map Z.of_nat (seq 1 n).
Proof. unfold numbered_blocks, set_blocks. cbn. by rewrite map_map. Qed.

Lemma numbered_In n x : In x (map Z.of_nat (seq 1 n)) <-> 1 <= x <= Z.of_nat n.
Proof.
  rewrite in_map_iff. split.
  - intros (i & <- & H%in_seq). lia.
  - intros H. exists (Z.to_nat x). rewrite in_seq. split; lia.
Qed.
