(* ===== verification/ApiSafety.v ===== *)
(** * The HTTP API's claims and cached answers

    A claim challenge is redeemed at most once, in time, for who it was issued to;
    a wallet's answer, cached or not, is about that wallet, and computed for the
    same request less than the cache's lifetime ago; what the balance leaves out;
    how many points a series can have. *)
From Stdlib Require Import SpecFloat.
From S2P Require Import Consolidate.
From S2P Require Import Prelude F64 FeeModel Schema PayoutDb Domain AccountDb IngestDb SessionDb ShareStats Api ApiHandlers ApiSpec.
Open Scope Z_scope.

(** ** Claims *)

Inductive ClaimEvent :=
| EvIssue (address : bytes) (nonce : Challenge) (now : Z)
| EvRedeem (address fvk sig : bytes) (now : Z)
| EvSweep (now : Z).

Definition ev_now (e : ClaimEvent) : Z := match e with EvIssue _ _ t | EvRedeem _ _ _ t | EvSweep t => t end.

(** The event concerns the address: it issues or consumes its challenge. *)
Definition touches (a : bytes) (e : ClaimEvent) : bool :=
  match e with EvIssue x _ _ | EvRedeem x _ _ _ => bool_decide (x = a) | EvSweep _ => false end.

Section Claims.
Context {V : SignatureVerifier}.

Definition claim_step (st : ChallengeStore) (e : ClaimEvent) : ChallengeStore :=
  match e with
  | EvIssue a nonce t => snd (issue_at a nonce t st)
  | EvRedeem a fvk sig t => snd (redeem_at a fvk sig t st)
  | EvSweep t => sweep_expired t st
  end.

Definition claim_run (ttl : Z) (evs : list ClaimEvent) : ChallengeStore :=
  fold_left claim_step evs (ChallengeStore_new ttl).

Lemma redeem_store a fvk sig t st :
  snd (redeem_at a fvk sig t st) = mkChallengeStore (ch_ttl st) (delete a (ch_pending st)).
Proof. unfold redeem_at. by repeat case_match. Qed.

Lemma claim_run_snoc ttl evs e : claim_run ttl (evs ++ [e]) = claim_step (claim_run ttl evs) e.
Proof. unfold claim_run. by rewrite fold_left_app. Qed.

Lemma claim_run_ttl ttl evs : ch_ttl (claim_run ttl evs) = ttl.
Proof.
  induction evs as [|e evs IH] using rev_ind; [done|]. rewrite claim_run_snoc.
  destruct e; cbn; rewrite ?redeem_store; done.
Qed.

(** The challenge was issued to [a] at [t0], and [a] was not touched since. *)
Definition outstanding (a : bytes) (c : Challenge) (t0 : Z) (evs : list ClaimEvent) : Prop :=
  exists earlier later, evs = earlier ++ EvIssue a c t0 :: later /\ forallb (fun e => negb (touches a e)) later = true.

Lemma outstanding_snoc a c t0 evs e :
  outstanding a c t0 (evs ++ [e]) <->
  e = EvIssue a c t0 \/ touches a e = false /\ outstanding a c t0 evs.
Proof.
  split.
  - intros (x & y & E & F). destruct y as [|e' y _] using rev_ind.
    + apply app_inj_tail in E as [_ ->]. by left.
    + rewrite app_comm_cons, app_assoc in E. apply app_inj_tail in E as [-> ->].
      rewrite forallb_app in F. cbn in F. to_prop. right. split; [done|]. by exists x, y.
  - intros [->|(T & x & y & -> & F)].
    + by exists evs, [].
    + exists x, (y ++ [e]). split; [by rewrite <- app_assoc|]. rewrite forallb_app, F. cbn. by rewrite T.
Qed.

Lemma pending_issued ttl evs a p :
  ch_pending (claim_run ttl evs) !! a = Some p ->
  exists t0, pe_expires_at p = t0 + ttl /\ outstanding a (pe_challenge p) t0 evs.
Proof.
  induction evs as [|e evs IH] using rev_ind; [cbn; by rewrite lookup_empty|]. rewrite claim_run_snoc.
  destruct e as [x c t|x fvk sig t|t]; cbn [claim_step]; rewrite ?redeem_store; cbn.
  - destruct (decide (x = a)) as [->|Ne].
    + rewrite lookup_insert_eq. intros [= <-]. rewrite claim_run_ttl. exists t. split; [done|].
      apply outstanding_snoc. by left.
    + rewrite lookup_insert_ne by done. intros (t0 & E & O)%IH. exists t0. split; [done|].
      apply outstanding_snoc. right. split; [by apply bool_decide_eq_false|done].
  - intros [Ne H]%lookup_delete_Some. destruct (IH H) as (t0 & E & O). exists t0. split; [done|].
    apply outstanding_snoc. right. split; [by apply bool_decide_eq_false|done].
  - intros [H _]%map_lookup_filter_Some. destruct (IH H) as (t0 & E & O). exists t0. split; [done|].
    apply outstanding_snoc. by right.
Qed.

Lemma issued_pending ttl a c t0 now evs :
  outstanding a c t0 evs -> Forall (fun e => ev_now e <= now) evs -> now < t0 + ttl ->
  ch_pending (claim_run ttl evs) !! a = Some (mkPending c (t0 + ttl)).
Proof.
  induction evs as [|e evs IH] using rev_ind; [intros ([|??] & ? & ? & _); done|].
  intros O [F Fe]%Forall_app Hn. apply Forall_cons in Fe as [Fe _]. rewrite claim_run_snoc.
  apply outstanding_snoc in O as [->|[T O]].
  - cbn. by rewrite lookup_insert_eq, claim_run_ttl.
  - specialize (IH O F Hn). destruct e as [x c' t|x fvk sig t|t]; cbn [claim_step touches] in *.
    + apply bool_decide_eq_false in T. cbn. by rewrite lookup_insert_ne.
    + apply bool_decide_eq_false in T. rewrite redeem_store. cbn. by rewrite lookup_delete_ne.
    + cbn in *. apply map_lookup_filter_Some. split; [done|]. cbn. lia.
Qed.

(** A claim challenge is good for one redemption: after any history of issues,
    redemptions and sweeps, a redemption for an address answers with a challenge
    exactly when that challenge was issued to that address less than the time to
    live ago, nothing was issued to it and no redemption of it, successful or not,
    was tried since, and the signature over it verifies for the address. *)
Theorem challenge_redeemed_once ttl evs a fvk sig now c :
  Forall (fun e => ev_now e <= now) evs ->
  fst (redeem_at a fvk sig now (claim_run ttl evs)) = Ok c <->
  exists t0, outstanding a c t0 evs /\ now < t0 + ttl /\ verify a c fvk sig = true.
Proof.
  intros F. unfold redeem_at. split.
  - destruct (ch_pending _ !! a) as [p|] eqn:E; [|done]. apply pending_issued in E as (t0 & Ex & O).
    destruct (Z.leb_spec (pe_expires_at p) now); [done|]. destruct (verify _ _ _ _) eqn:Vf; [|done].
    cbn. intros [= <-]. exists t0. repeat split; [done|lia|done].
  - intros (t0 & O & Hn & Vf). rewrite (issued_pending ttl a c t0 now evs O F Hn). cbn.
    rewrite (proj2 (Z.leb_gt _ _)) by lia. by rewrite Vf.
Qed.
End Claims.

(** Two claims of one challenge: the second finds none. *)
Definition any_signature : SignatureVerifier := fun _ _ _ sig => bool_decide (sig = []).
Definition sample_claims : list ClaimEvent := [EvIssue [] [] 10; EvSweep 20; EvRedeem [] [] [] 30].

Lemma challenge_redeemed_once_witness :
  fst (@redeem_at any_signature [] [] [] 30 (@claim_run any_signature 300 (firstn 2 sample_claims))) = Ok [] /\
  fst (@redeem_at any_signature [] [] [] 40 (@claim_run any_signature 300 sample_claims)) = Err NoChallenge.
Proof.
  split; [|vm_compute; reflexivity].
  apply (@challenge_redeemed_once any_signature 300 (firstn 2 sample_claims) [] [] [] 30 []).
  - repeat constructor; discriminate.
  - exists 10. repeat split. exists [], [EvSweep 20]. by split.
Defined.

(** ** Cached answers *)

(** What the handlers rely on of the cache: a lookup returns the last value
    inserted under its key, and not after its time to live. *)
Class CacheLaws (jc : JsonCache) : Prop := {
  ttl_new ttl : cache_ttl (cache_new ttl) = ttl;
  ttl_insert c key v t : cache_ttl (cache_insert c key v t) = cache_ttl c;
  get_new ttl key t : cache_get (cache_new ttl) key t = None;
  get_insert c key v t0 key' t v' :
    cache_get (cache_insert c key v t0) key' t = Some v' ->
    (key' = key /\ v' = v /\ t < t0 + cache_ttl c) \/ (key' <> key /\ cache_get c key' t = Some v')
}.

#[export] Instance keeping_cache_laws : CacheLaws keeping_cache.
Proof.
  split; try done. intros c key v t0 key' t v'. cbn. unfold lookup_entry. cbn.
  destruct (decide (key = key')) as [->|Ne].
  - rewrite bool_decide_eq_true_2 by done. cbn. destruct (Z.ltb_spec t (t0 + fst c)); [|done]. intros [= <-]. by left.
  - rewrite bool_decide_eq_false_2 by done. intros H. right. by split.
Qed.

(** *** Routes *)

Fixpoint up_to_query (s : text) : text :=
  match s with [] => [] | c :: s => if c =? 63 then [] else c :: up_to_query s end.
Fixpoint segments (s : text) : list text :=
  match s with
  | [] => [[]]
  | c :: s => if c =? 47 then [] :: segments s
              else match segments s with x :: xs => (c :: x) :: xs | [] => [[c]] end
  end.
(** The path a key stands for: what comes before its [?], cut at each slash. *)
Definition path_of (key : text) : list text := segments (up_to_query key).

Definition plain (s : text) : Prop := forallb (fun c => negb ((c =? 47) || (c =? 63))) s = true.

Lemma path_of_app x y :
  plain x -> path_of (x ++ y) = match path_of y with h :: t => (x ++ h) :: t | [] => [x] end.
Proof.
  unfold path_of, plain. intros P. induction x as [|c x IH].
  - cbn. destruct (segments (up_to_query y)) eqn:E; [|done]. exfalso. revert E. clear.
    destruct (up_to_query y) as [|c z]; cbn; [done|]. destruct (c =? 47); [done|]. by destruct (segments z).
  - cbn in *. apply andb_true_iff in P as [H P]. to_prop.
    rewrite (proj2 (Z.eqb_neq c 63)) by done. cbn. rewrite (proj2 (Z.eqb_neq c 47)) by done. rewrite (IH P).
    by destruct (segments (up_to_query y)).
Qed.

Lemma path_of_slash x y : plain x -> path_of (x ++ 47 :: y) = x :: path_of y.
Proof. intros P. rewrite path_of_app by done. cbn. by rewrite app_nil_r. Qed.

Lemma path_of_cut x y : path_of (x ++ 63 :: y) = path_of x.
Proof.
  unfold path_of. f_equal. induction x as [|c x IH]; [done|]. cbn. destruct (c =? 63); [done|]. by rewrite IH.
Qed.

Lemma path_of_plain x : plain x -> path_of x = [x].
Proof. intros P. rewrite <- (app_nil_r x) at 1. rewrite path_of_app by done. cbn. by rewrite app_nil_r. Qed.

Lemma plain_app x y : plain x -> plain y -> plain (x ++ y).
Proof. unfold plain. rewrite forallb_app. by intros -> ->. Qed.

Lemma plain_impl (p : Z -> bool) s :
  (forall c, p c = true -> c <> 47 /\ c <> 63) -> forallb p s = true -> plain s.
Proof.
  intros H. unfold plain. rewrite !forallb_forall. intros F c Hc. destruct (H c (F c Hc)) as [? ?].
  by rewrite (proj2 (Z.eqb_neq c 47)), (proj2 (Z.eqb_neq c 63)).
Qed.

Lemma address_plain raw a : WalletAddress_new raw = Ok a -> plain a.
Proof.
  intros H. apply WalletAddress_new_spec in H as (-> & _ & [p b] & (Hp & -> & Hb) & _). cbn in Hp, Hb |- *.
  apply plain_app; [by repeat (destruct Hp as [<-|Hp]; [reflexivity|])|].
  revert Hb. apply plain_impl. unfold is_body_char, is_ascii_lowercase, is_ascii_digit. intros c Hc. to_prop.
  destruct Hc; to_prop; lia.
Qed.

Lemma print_i64_plain z : plain (print_i64 z).
Proof.
  assert (forall x, 0 <= x -> plain (print_u64 x)) as P.
  { intros x Hx. destruct (print_u64_digits x Hx) as [_ D _ _ _]. revert D. apply plain_impl.
    unfold is_ascii_digit. intros c Hc. to_prop. lia. }
  unfold print_i64. destruct (Z.ltb_spec z 0); [|by apply P]. apply (plain_app [45]); [done|apply P; lia].
Qed.

(** The path a request asks about. *)
Definition route (r : Request) : list text :=
  match r with
  | RStats _ => [lit "pool"; lit "stats"]
  | RHashrate _ => [lit "pool"; lit "hashrate"]
  | RHashrateHistory _ => [lit "pool"; lit "hashrate"; lit "history"]
  | RBlocks _ _ => [lit "pool"; lit "blocks"]
  | RMiningPoolStats => [lit "pool"; lit "miningPoolStats"]
  | RPayouts _ _ => [lit "pool"; lit "payouts"]
  | RPayoutCycle id => [lit "pool"; lit "payouts"; print_i64 id]
  | RActiveMiners _ => [lit "pool"; lit "miners"; lit "history"]
  | RFirmware _ => [lit "pool"; lit "firmware"]
  | RGeo _ => [lit "pool"; lit "geo"]
  | RActiveSessions => [lit "pool"; lit "active-sessions"]
  | RPoolRejects _ => [lit "pool"; lit "rejects"]
  | RBalance a => [lit "balance"; a]
  | RProfile a _ => [lit "miners"; a]
  | RWorkers a _ => [lit "miners"; a; lit "workers"]
  | RMinerHistory a _ => [lit "miners"; a; lit "hashrate"; lit "history"]
  | RMinerPayouts a _ _ => [lit "miners"; a; lit "payouts"]
  | RMinerRejects a _ => [lit "miners"; a; lit "rejects"]
  | RFullRebate a => [lit "full_rebate"; a]
  end.

(** An answer is about a path: it has the route's shape and, for a wallet or a
    cycle, names the one asked for. *)
Definition about (path : list text) (v : Value) : Prop :=
  match v with
  | VPoolStats _ => path = [lit "pool"; lit "stats"]
  | VHashrate _ => path = [lit "pool"; lit "hashrate"]
  | VHashrateHistory _ => path = [lit "pool"; lit "hashrate"; lit "history"]
  | VBlocks _ => path = [lit "pool"; lit "blocks"]
  | VMiningPoolStats _ => path = [lit "pool"; lit "miningPoolStats"]
  | VCycles _ => path = [lit "pool"; lit "payouts"]
  | VCycleDetail c => path = [lit "pool"; lit "payouts"; print_i64 (cv_id (cd_cycle c))]
  | VActiveMiners _ => path = [lit "pool"; lit "miners"; lit "history"]
  | VFirmware _ => path = [lit "pool"; lit "firmware"]
  | VGeo _ => path = [lit "pool"; lit "geo"]
  | VActiveSessions _ => path = [lit "pool"; lit "active-sessions"]
  | VPoolRejects _ => path = [lit "pool"; lit "rejects"]
  | VBalance b => exists a, path = [lit "balance"; a] /\ br_address b = to_column a
  | VProfile p => exists a, path = [lit "miners"; a] /\ mi_address p = to_column a
  | VWorkers w => exists a, path = [lit "miners"; a; lit "workers"] /\ wr_address w = to_column a
  | VMinerHistory addr _ => exists a, path = [lit "miners"; a; lit "hashrate"; lit "history"] /\ addr = to_column a
  | VMinerPayouts p => exists a, path = [lit "miners"; a; lit "payouts"] /\ pp_address p = to_column a
  | VRejects r => exists a, path = [lit "miners"; a; lit "rejects"] /\ rs_address r = to_column a
  | VFullRebate f => exists a, path = [lit "full_rebate"; a] /\ fr_address f = to_column a
  end.

Section CachedAnswers.
Context {jc : JsonCache} {env : ApiEnv}.

Definition sel_cache (sel : CacheSel) (st : AppState) : cache :=
  match sel with PoolCache => as_pool_cache st | WalletCache => as_wallet_cache st end.

(** The request, at call [n], looks [key] up at call [n1] and else computes [init]. *)
Definition asks (cfg : MpsConfig) (r : Request) (n : nat) (sel : CacheSel) (key : text) (init : RM Value) (n1 : nat) :=
  forall st, handle cfg r (st, n) = cached_json sel key init (st, n1).

Definition computes (path : list text) (init : RM Value) : Prop :=
  forall n n' v, init n = (n', Ok v) -> about path v.

Lemma rm_bind_ok {A B} (m : RM A) (k : A -> RM B) n n' b :
  rm_bind m k n = (n', Ok b) <-> exists a n1, m n = (n1, Ok a) /\ k a n1 = (n', Ok b).
Proof.
  unfold rm_bind. destruct (m n) as [n1 [a|e]]; split.
  - intros H. eauto.
  - by intros (a' & n1' & [= <- <-] & H).
  - done.
  - by intros (a' & n1' & [= ] & H).
Qed.

Lemma rm_db_ok {A} (m : DB A) n n' a : rm_db m n = (n', Ok a) -> exists d, m (ae_db n) = Ok (a, d).
Proof.
  unfold rm_db. destruct (ae_fault n); [done|]. destruct (m (ae_db n)) as [[x d]|e]; [|done].
  cbn. intros [= _ <-]. eauto.
Qed.

Lemma require_wallet_address addr n n' w :
  require_wallet addr n = (n', Ok w) -> w_address w = to_column addr.
Proof.
  unfold require_wallet. intros (found & n1 & (d & E)%rm_db_ok & H)%rm_bind_ok.
  destruct found as [w0|]; [|done]. injection H as _ <-. unfold find_by_address, db_read in E.
  injection E as E _. apply find_some in E as [_ E]. by apply String.eqb_eq in E.
Qed.

Lemma get_cycle_id id n n' c : rm_db (get_cycle id) n = (n', Ok c) -> cy_id c = id.
Proof.
  intros (d & E)%rm_db_ok. unfold get_cycle, db_read_checked, ok_or in E.
  destruct (find_cycle _ _) as [c0|] eqn:F; [|done]. injection E as <- _. unfold find_cycle in F.
  apply find_some in F as [_ F]. by apply Z.eqb_eq in F.
Qed.

(** Run a successful computation of reads backwards to its last line. *)
Ltac rm_run H :=
  repeat match type of H with rm_bind _ _ _ = _ => apply rm_bind_ok in H as (? & ? & ? & H) end;
  unfold rm_ret in H; injection H as _ <-.

(** The answers of a handler name the wallet or the cycle that was read. *)
Ltac computed :=
  let H := fresh in
  intros ? ? ? H;
  unfold build_stats, build_blocks, build_mining_pool_stats, build_cycles, build_balance, build_profile,
    build_workers, build_miner_history, build_miner_payouts, build_miner_rejects, build_full_rebate in H;
  rm_run H; cbn [about br_address mi_address wr_address pp_address rs_address fr_address];
  eauto using require_wallet_address.

(** The outcome of the parameters: an error before the cache, or a lookup under a
    key that stands for the route, backed by a computation about it. *)
Definition well_asked (path : list text) (h : AM Value) (n : nat) : Prop :=
  (exists e n', forall st, h (st, n) = ((st, n'), Err e)) \/
  (exists sel key init n1, (forall st, h (st, n) = cached_json sel key init (st, n1)) /\
     path_of key = path /\ computes path init).

Lemma well_asked_json path sel key init n :
  path_of key = path -> computes path init -> well_asked path (cached_json sel key init) n.
Proof. intros P C. right. exists sel, key, init, n. auto. Qed.

Lemma well_asked_params {A} path (r : result A ApiError) k n :
  (forall a, r = Ok a -> well_asked path (k a) n) -> well_asked path (with_params r k) n.
Proof.
  intros H. destruct r as [a|e]; [|left; exists e, n; done].
  destruct (H a eq_refl) as [(e & n' & E)|(sel & key & init & n1 & E & P)]; [left|right]; eauto 10.
Qed.

Lemma well_asked_range path params k n :
  (forall r m, well_asked path (k r) m) -> well_asked path (with_range params k) n.
Proof.
  intros H. unfold with_range.
  destruct (well_asked_params path (range parse_from_rfc3339 (ae_now n) params) k (S n)) as [(e & n' & E)|(sel & key & init & n1 & E & P)];
    [auto|left|right]; eauto 10.
Qed.

Lemma well_asked_address path raw k n :
  (plain raw -> well_asked path (k raw) n) -> well_asked path (with_params (parse_address raw) k) n.
Proof.
  intros H. apply well_asked_params. intros a E. unfold parse_address in E.
  destruct (WalletAddress_new raw) as [a'|] eqn:W; [|done]. cbn in E. injection E as <-.
  pose proof (WalletAddress_new_same _ _ W) as ->. eapply H, address_plain, W.
Qed.

Lemma miner_path addr rest segs :
  plain addr -> path_of (lit rest) = [] :: segs -> path_of (miner_key addr rest) = lit "miners" :: addr :: segs.
Proof.
  intros P E. unfold miner_key. change (lit "miners/") with (lit "miners" ++ [47]). rewrite <- app_assoc. cbn [app].
  rewrite path_of_slash by done. rewrite path_of_app by done. rewrite E. cbn. by rewrite app_nil_r.
Qed.

Lemma path_of_two x y : plain x -> plain y -> path_of ((x ++ [47]) ++ y) = [x; y].
Proof. intros. rewrite <- app_assoc. cbn [app]. by rewrite path_of_slash, path_of_plain. Qed.

Lemma window_key_path prefix win : path_of (window_key prefix win) = path_of prefix.
Proof. apply path_of_cut. Qed.
Lemma page_key_path prefix p : path_of (page_key prefix p) = path_of prefix.
Proof. apply path_of_cut. Qed.
Lemma range_key_path prefix from until b : path_of (range_key prefix from until b) = path_of prefix.
Proof. apply path_of_cut. Qed.

Lemma handle_well_asked cfg r n : well_asked (route r) (handle cfg r) n.
Proof.
  destruct r; cbn [handle route];
    unfold stats, hashrate, pool_hashrate_history, blocks, mining_pool_stats, pool_payouts, payout_cycle,
      active_miners_history, firmware, geo, active_sessions, pool_rejects, balance, profile, workers,
      miner_hashrate_history, miner_payouts, miner_rejects, full_rebate.
  all: try (apply well_asked_address; intros Pa).
  all: try (apply well_asked_range; intros ? ?).
  all: try (apply well_asked_params; intros ? _).
  all: apply well_asked_json; rewrite ?window_key_path, ?page_key_path, ?range_key_path.
  all: try (by apply miner_path).
  all: try reflexivity.
  all: try (computed; fail).
  - change (lit "pool/payouts/") with (lit "pool" ++ 47 :: lit "payouts" ++ [47]). rewrite <- !app_assoc. cbn [app].
    rewrite path_of_slash by done. apply (f_equal (cons _)), path_of_two; [done|apply print_i64_plain].
  - intros m m' v H. rm_run H. rename select (rm_db (get_cycle id) _ = _) into H0. cbn. do 3 f_equal. by rewrite (get_cycle_id _ _ _ _ H0).
  - apply (path_of_two (lit "balance")); done.
  - apply (path_of_two (lit "full_rebate")); done.
Qed.

(** *** Serving requests *)

(** One after the other: each request, its first call and its answer. *)
Fixpoint serve (cfg : MpsConfig) (rs : list Request) (s : AppState * nat)
  : list (Request * nat * result Value ApiError) * (AppState * nat) :=
  match rs with
  | [] => ([], s)
  | r :: rs =>
      let '(s1, out) := handle cfg r s in
      let '(outs, s2) := serve cfg rs s1 in
      ((r, snd s, out) :: outs, s2)
  end.

(** The value was computed at [t0] by one of the requests of [past] that look the
    same key up. *)
Definition computed_by cfg (past : list (Request * nat)) sel key v t0 : Prop :=
  exists r n init n1 n2, In (r, n) past /\ asks cfg r n sel key init n1 /\ path_of key = route r /\
    computes (route r) init /\ init (S n1) = (n2, Ok v) /\ t0 = ae_now n2.

Definition caches_ok cfg past (ttl : CacheSel -> Z) (st : AppState) : Prop :=
  (forall sel, cache_ttl (sel_cache sel st) = ttl sel) /\
  (forall sel key t v, cache_get (sel_cache sel st) key t = Some v ->
     exists t0, computed_by cfg past sel key v t0 /\ t < t0 + ttl sel).

Lemma computed_by_more cfg past past' sel key v t0 :
  incl past past' -> computed_by cfg past sel key v t0 -> computed_by cfg past' sel key v t0.
Proof. intros I (r & n & init & n1 & n2 & Hin & H). exists r, n, init, n1, n2. auto. Qed.

Context {laws : CacheLaws jc}.

Lemma handle_ok cfg past ttl st n r st' n' out :
  caches_ok cfg past ttl st -> handle cfg r (st, n) = ((st', n'), out) ->
  caches_ok cfg (past ++ [(r, n)]) ttl st' /\
  (forall v, out = Ok v ->
     about (route r) v /\
     exists sel key init n1 t0, asks cfg r n sel key init n1 /\ computed_by cfg (past ++ [(r, n)]) sel key v t0 /\
       (computed_by cfg [(r, n)] sel key v t0 \/ ae_now n1 < t0 + ttl sel)).
Proof.
  intros [T G] H.
  assert (caches_ok cfg (past ++ [(r, n)]) ttl st) as K.
  { split; [done|]. intros sel key t v (t0 & C & L)%G. exists t0. split; [|done].
    eapply computed_by_more; [|exact C]. apply incl_appl, incl_refl. }
  destruct (handle_well_asked cfg r n) as [(e & m & E)|(sel & key & init & n1 & E & P & C)]; rewrite E in H.
  { inv_eqs. split; [done|]. by intros ? [=]. }
  unfold cached_json in H. fold (sel_cache sel st) in H.
  destruct (cache_get (sel_cache sel st) key (ae_now n1)) as [v|] eqn:Eg.
  - inv_eqs. split; [done|]. intros ? [= <-]. destruct (G _ _ _ _ Eg) as (t0 & Cb & L). split.
    + destruct Cb as (r' & m & init' & m1 & m2 & _ & _ & P' & C' & Ei & _). rewrite <- P, P'. exact (C' _ _ _ Ei).
    + exists sel, key, init, n1, t0. repeat split; [done| |by right].
      eapply computed_by_more; [|exact Cb]. apply incl_appl, incl_refl.
  - destruct (init (S n1)) as [n2 [v|e]] eqn:Ei; [|by inv_eqs; split].
    assert (computed_by cfg [(r, n)] sel key v (ae_now n2)) as Cb
      by (exists r, n, init, n1, n2; repeat split; auto; by left).
    assert (computed_by cfg (past ++ [(r, n)]) sel key v (ae_now n2)) as Cb'
      by (eapply computed_by_more; [|exact Cb]; apply incl_appr, incl_refl).
    inv_eqs. split.
    + split.
      * intros sel'. destruct sel, sel'; cbn; rewrite ?ttl_insert; apply (T PoolCache) || apply (T WalletCache).
      * intros sel' key' t v' Hg.
        assert (sel' = sel /\ key' = key /\ v' = v /\ t < ae_now n2 + ttl sel \/
                cache_get (sel_cache sel' st) key' t = Some v') as [(-> & -> & -> & L)|Hold].
        { destruct sel, sel'; cbn in Hg; try (by right); apply get_insert in Hg as [(-> & -> & L)|[_ Hg]]; auto;
            left; rewrite <- T; auto. }
        -- by exists (ae_now n2).
        -- by apply K.
    + intros ? [= <-]. split; [exact (C _ _ _ Ei)|]. exists sel, key, init, n1, (ae_now n2). auto.
Qed.

Lemma serve_ok cfg ttl rs : forall past st n outs s' i r m v,
  caches_ok cfg past ttl st -> serve cfg rs (st, n) = (outs, s') -> nth_error outs i = Some (r, m, Ok v) ->
  about (route r) v /\
  exists sel key init n1 t0, asks cfg r m sel key init n1 /\
    computed_by cfg (past ++ map fst (firstn (S i) outs)) sel key v t0 /\
    (computed_by cfg [(r, m)] sel key v t0 \/ ae_now n1 < t0 + ttl sel).
Proof.
  induction rs as [|r0 rs IH]; intros past st n outs s' i r m v K H Hi; cbn in H; [inv_eqs; by destruct i|].
  destruct (handle cfg r0 (st, n)) as [[st1 n1] out0] eqn:E.
  destruct (serve cfg rs (st1, n1)) as [outs1 s2] eqn:Es. inv_eqs.
  destruct (handle_ok _ _ _ _ _ _ _ _ _ K E) as [K1 A]. destruct i as [|i]; cbn in Hi.
  - injection Hi as <- <- ->. cbn [snd firstn map fst]. by apply A.
  - destruct (IH _ _ _ _ _ _ _ _ _ K1 Es Hi) as (Ab & sel & key & init & n2 & t0 & As & C & F).
    split; [done|]. exists sel, key, init, n2, t0. split; [done|]. split; [|done].
    revert C. rewrite <- app_assoc. cbn [app snd]. done.
Qed.

Definition ttl_of (pool_ttl wallet_ttl : Z) (sel : CacheSel) : Z :=
  match sel with PoolCache => pool_ttl | WalletCache => wallet_ttl end.

(** C33. Caching never mixes answers up and never serves stale ones: whatever the
    requests, served from fresh caches, each successful answer has the shape of
    the route asked for and names the wallet (or the cycle) asked for; it was
    computed, by this request or an earlier one that looks the same key up, and
    unless it was computed by this request itself, less than the cache's time to
    live before this request looked it up. *)
Theorem cached_answers_sound cfg pool_ttl wallet_ttl rs n0 outs s' i r n v :
  serve cfg rs (AppState_new pool_ttl wallet_ttl, n0) = (outs, s') ->
  nth_error outs i = Some (r, n, Ok v) ->
  about (route r) v /\
  exists sel key init n1 t0, asks cfg r n sel key init n1 /\
    computed_by cfg (map fst (firstn (S i) outs)) sel key v t0 /\
    (computed_by cfg [(r, n)] sel key v t0 \/ ae_now n1 < t0 + ttl_of pool_ttl wallet_ttl sel).
Proof.
  intros H Hi. refine (serve_ok cfg (ttl_of pool_ttl wallet_ttl) rs [] _ _ _ _ _ _ _ _ _ H Hi). split.
  - intros []; apply ttl_new.
  - intros [] key t v'; cbn; by rewrite get_new.
Qed.
End CachedAnswers.

(** *** A cached balance *)

Definition api_wallet : Wallet := sample_wallet 3 "miner".
Definition api_addr : text := lit (sample_address "miner").
Definition api_env : ApiEnv := healthy_env (fun n => Z.of_nat n * SECOND) (fun _ => set_wallets [api_wallet] empty_db).
Definition api_requests : list Request := [RBalance api_addr; RBalance api_addr].
Definition mps_config : MpsConfig := mkMpsConfig 75 1 [].
Definition api_outs := fst (@serve keeping_cache api_env mps_config api_requests
                              (@AppState_new keeping_cache (5 * SECOND) (9 * SECOND), 0%nat)).

Lemma cached_answers_sound_witness :
  exists v, nth_error api_outs 1 = Some (RBalance api_addr, 5%nat, Ok v) /\
            about [lit "balance"; api_addr] v.
Proof.
  eexists. split; [vm_compute; reflexivity|].
  eapply (@cached_answers_sound keeping_cache api_env keeping_cache_laws mps_config (5 * SECOND) (9 * SECOND)
            api_requests 0 api_outs _ 1 (RBalance api_addr) 5);
    [apply surjective_pairing|vm_compute; reflexivity].
Defined.

(** ** What the balance leaves out *)

Lemma no_confirmed_kas d wallet :
  (forall p c, In p (db_payouts d) -> po_wallet_id p = wallet -> cycle_of d p = Some c -> cy_kind c <> Kas) ->
  confirmed_payouts Kas d wallet = [].
Proof.
  intros H. apply filter_nil. intros p Hp. destruct (Z.eqb_spec (po_wallet_id p) wallet) as [E|]; [|done].
  unfold counts_as_confirmed. destruct (cycle_of d p) as [c|] eqn:Ec; [|done].
  specialize (H p c Hp E Ec). by destruct (cy_kind c).
Qed.

Section Balance.
Context {env : ApiEnv}.

(** The balance endpoint counts only confirmed payouts of KAS cycles.  A wallet of
    a ZKas pool is paid by ZKas cycles, from the same allocations: however much it
    was paid, as long as it has no KAS payout its balance shows nothing paid, and
    everything ever allocated to it as still payable. *)
Theorem balance_ignores_zkas_payouts addr d wallet n n' b :
  (forall m, ae_db m = d) -> List.find (has_address (to_column addr)) (db_wallets d) = Some wallet ->
  (forall p c, In p (db_payouts d) -> po_wallet_id p = w_id wallet -> cycle_of d p = Some c -> cy_kind c <> Kas) ->
  build_balance addr n = (n', Ok (VBalance b)) ->
  let allocated := from_sompi (allocated_sompi d (w_id wallet)) in
  br_kas b = mkKasBalance allocated (from_sompi 0) allocated.
Proof.
  intros Hd Hw Hk H. unfold build_balance in H.
  apply rm_bind_ok in H as (w & n1 & Ew & H). apply rm_bind_ok in H as (kas & n2 & Eb & H).
  apply rm_bind_ok in H as (nacho & n3 & _ & H). injection H as _ <-. cbn.
  unfold require_wallet in Ew. apply rm_bind_ok in Ew as (found & m & (d1 & Ef)%rm_db_ok & Ew).
  rewrite Hd in Ef. unfold find_by_address, db_read in Ef. injection Ef as <- _. rewrite Hw in Ew. injection Ew as _ <-.
  unfold kas_balance in Eb. apply rm_bind_ok in Eb as (bal & m1 & (d2 & Ek)%rm_db_ok & Eb). injection Eb as _ <-.
  rewrite Hd in Ek. unfold kas_payable_for_wallet, db_read_checked in Ek. rewrite (no_confirmed_kas _ _ Hk) in Ek.
  unfold sum_bigint in Ek at 2. cbn in Ek. unfold sum_bigint in Ek.
  destruct (in_i64b _); [|discriminate]. cbn in Ek. injection Ek as <- _. cbn. by rewrite Z.sub_0_r.
Qed.
End Balance.

(** A wallet that was allocated 900 sompi and has been paid all of them. *)
Definition paid_db : Db :=
  mkDb 50 9 [api_wallet] [] [] []
    [mkShareAllocation 1 1 3 (f64_of_Z 1) (f64_of_Z 1) 900 0 0 900 40 0 0 Standard] []
    [mkCycle 7 Zkas CySettled 0 100 40 (Some 41) (Some 45) 900 1 "zkas:0:100"]
    [mkPayout 8 7 3 900 Confirmed (Some []) None None 40 (Some 41) (Some 45) (Some 60) None] [] ∅ [] [] [] [] [].
Definition paid_env : ApiEnv := healthy_env (fun _ => 0) (fun _ => paid_db).

Lemma balance_ignores_zkas_payouts_witness :
  exists b, @build_balance paid_env api_addr 0%nat = (3%nat, Ok (VBalance b)) /\
            ka_sompi (kb_payable (br_kas b)) = lit "900" /\ ka_sompi (kb_paid (br_kas b)) = lit "0".
Proof.
  eexists. split; [vm_compute; reflexivity|].
  split; erewrite (@balance_ignores_zkas_payouts paid_env api_addr paid_db api_wallet 0%nat 3%nat); try reflexivity;
    try (intros p c [<-|[]] _ [= <-]; discriminate); vm_compute; reflexivity.
Defined.

(** ** How many points a series can have *)

(** The buckets of the grid that the instants from [from] to before [until] touch. *)
Definition buckets_touched (from until : Z) (b : Bucket) : Z :=
  (until - 1) / (seconds b * SECOND) - from / (seconds b * SECOND) + 1.

(** The range check divides the span by the bucket and rounds down, so it admits up
    to two more buckets than the documented maximum of 1000. *)
Lemma range_touches_at_most parse now params r :
  range parse now params = Ok r -> buckets_touched (rg_from r) (rg_until r) (rg_bucket r) <= MAX_SERIES_POINTS + 2.
Proof.
  unfold range. destruct (match rp_to params with Some raw => _ | None => Ok now end) as [until|]; [|done]. cbn.
  destruct (match rp_from params with Some raw => _ | None => _ end) as [from|]; [|done]. cbn.
  destruct (match rp_bucket params with Some raw => _ | None => Ok OneHour end) as [b|]; [|done]. cbn.
  destruct (Z.leb_spec until from); [done|].
  destruct (Z.ltb_spec MAX_SERIES_POINTS (Z.quot (whole_seconds (until - from)) (seconds b))) as [|Hq]; [done|].
  intros [= <-]. cbn [rg_from rg_until rg_bucket]. unfold buckets_touched, whole_seconds, MAX_SERIES_POINTS, SECOND in *.
  assert (0 < seconds b) as Hb by (destruct b; done).
  rewrite Z.quot_div_nonneg in Hq by (try (apply Z.quot_pos); lia). rewrite Z.quot_div_nonneg in Hq by lia.
  rewrite Z.div_div in Hq by lia. set (w := seconds b * 1000000) in *.
  assert (0 < w) as Hw by lia. replace (1000000 * seconds b) with w in Hq by lia.
  pose proof (Z.div_mod (until - from) w ltac:(lia)). pose proof (Z.mod_pos_bound (until - from) w Hw).
  pose proof (Z.div_mod from w ltac:(lia)). pose proof (Z.mod_pos_bound from w Hw).
  assert ((until - 1) / w < from / w + 1002); [|lia].
  apply Z.div_lt_upper_bound; [lia|]. nia.
Qed.

Lemma range_touches_1002 :
  let from := 1700000039 * SECOND in
  let until := (1700000040 + 60058) * SECOND in
  range (fun s => if bool_decide (s = lit "from") then Some from else Some until) 0
    (mkRangeParams (Some (lit "from")) (Some (lit "to")) (Some (lit "1m"))) = Ok (mkRange from until OneMinute) /\
  buckets_touched from until OneMinute = 1002.
Proof. split; vm_compute; reflexivity. Qed.
