(* ===== verification/ApiPaging.v ===== *)
(** * Following a listing through the cache

    A client that follows [next_before] of a keyset-paged listing is served through
    the time-to-live cache: it sees every row once, as long as nobody asked for a
    page with a cursor that did not exist yet; an earlier request with such a cursor
    leaves a page in the cache that hides rows from the walk. *)
From Stdlib Require Import SpecFloat.
From S2P Require Import Consolidate.
From S2P Require Import Prelude F64 FeeModel Schema PayoutDb Domain AccountDb IngestDb SessionDb ShareStats Api ApiHandlers ApiSpec ApiSafety.
Open Scope Z_scope.

(** ** Keys of pages *)

Lemma print_u64_inj a b : 0 <= a -> 0 <= b -> print_u64 a = print_u64 b -> a = b.
Proof. intros Ha Hb E. by rewrite <- (dg_value _ _ (print_u64_digits a Ha)), E, (dg_value _ _ (print_u64_digits b Hb)). Qed.

Lemma print_i64_pos a : 0 < a -> print_i64 a = print_u64 a.
Proof. intros H. unfold print_i64. destruct (Z.ltb_spec a 0); [lia|done]. Qed.

Lemma digits_then_amp a b x y :
  forallb is_ascii_digit a = true -> forallb is_ascii_digit b = true ->
  a ++ 38 :: x = b ++ 38 :: y -> a = b /\ x = y.
Proof.
  revert b. induction a as [|c a IH]; intros [|c' b] Da Db E; cbn in *.
  - injection E as ->. done.
  - injection E as <- _. discriminate Db.
  - injection E as -> _. discriminate Da.
  - injection E as -> E. apply andb_true_iff in Da as [_ Da], Db as [_ Db].
    destruct (IH b Da Db E) as [-> ->]. done.
Qed.

(** The pages that requests ask for: a limit of 1 to 100 and a positive cursor. *)
Definition page_ok (p : Page) : Prop := 0 < pg_limit p /\ forall b, pg_before_id p = Some b -> 0 < b.

Lemma page_page_ok limit before p : page limit before = Ok p -> page_ok p /\ p = mkPage (page_limit limit) before.
Proof.
  unfold page. destruct before as [b|].
  - destruct (Z.leb_spec b 0); [discriminate|]. intros [= <-]. split; [|done].
    split; [apply Z.lt_le_trans with 1; [done|apply page_limit_bounds]|]. by intros ? [= <-].
  - intros [= <-]. split; [|done]. split; [apply Z.lt_le_trans with 1; [done|apply page_limit_bounds]|]. discriminate.
Qed.

Lemma print_u64_is_digits z : 0 < z -> forallb is_ascii_digit (print_u64 z) = true.
Proof. intros H. apply (dg_digits z), print_u64_digits. lia. Qed.

Lemma print_opt_inj o o' :
  (forall x, o = Some x -> 0 < x) -> (forall x, o' = Some x -> 0 < x) -> print_opt o = print_opt o' -> o = o'.
Proof.
  intros P P' E. destruct o as [x|], o' as [y|]; cbn [print_opt] in E; try discriminate E; [|done].
  apply app_inv_head, app_inj_tail in E as [E _].
  assert (0 < x) by auto. assert (0 < y) by auto. rewrite !print_i64_pos in E by done.
  f_equal. apply print_u64_inj; auto; lia.
Qed.

Lemma page_key_inj prefix p q : page_ok p -> page_ok q -> page_key prefix p = page_key prefix q -> p = q.
Proof.
  intros [Lp Bp] [Lq Bq] E. unfold page_key in E.
  apply app_inv_head, app_inv_head in E. rewrite !print_i64_pos in E by done.
  apply digits_then_amp in E as [El E]; [|by apply print_u64_is_digits..].
  apply print_u64_inj in El; [|lia..].
  change (lit "before=" ++ print_opt (pg_before_id p) = lit "before=" ++ print_opt (pg_before_id q)) in E.
  apply app_inv_head, print_opt_inj in E; [|done..].
  destruct p, q; cbn in *. congruence.
Qed.

(** ** The routes of a listing *)

Definition sel_of (L : Listing) : CacheSel := match L with LPayouts _ _ => WalletCache | _ => PoolCache end.
Definition prefix_of (L : Listing) : text :=
  match L with LBlocks => lit "pool/blocks" | LCycles => lit "pool/payouts" | LPayouts addr _ => miner_key addr "/payouts" end.

Definition page_request (L : Listing) (limit before : option Z) : Request :=
  match L with
  | LBlocks => RBlocks limit before
  | LCycles => RPayouts limit before
  | LPayouts addr _ => RMinerPayouts addr limit before
  end.

Definition listing_ok (L : Listing) : Prop :=
  match L with LPayouts addr _ => parse_address addr = Ok addr | _ => True end.

Section Paged.
Context {jc : JsonCache} {env : ApiEnv} {laws : CacheLaws jc}.

(** A client that follows [next_before] until there is none. *)
Fixpoint follow (cfg : MpsConfig) (fuel : nat) (L : Listing) (limit before : option Z) (s : AppState * nat)
  : option (list Z) :=
  match fuel with
  | O => None
  | S fuel =>
      match handle cfg (page_request L limit before) s with
      | (s', Ok v) =>
          match page_ids v with
          | (ids, Some c) => option_map (app ids) (follow cfg fuel L limit (Some c) s')
          | (ids, None) => Some ids
          end
      | (_, Err _) => None
      end
  end.

Lemma handle_page cfg L limit before s :
  listing_ok L ->
  handle cfg (page_request L limit before) s =
  with_params (page limit before) (fun p => cached_json (sel_of L) (page_key (prefix_of L) p) (build_page L p)) s.
Proof.
  destruct L as [| |addr wid]; intros Ha; try done. cbn. unfold miner_payouts. cbn in Ha. by rewrite Ha.
Qed.

Lemma listing_route L limit before p :
  listing_ok L -> path_of (page_key (prefix_of L) p) = route (page_request L limit before).
Proof.
  intros Ha. rewrite page_key_path. destruct L as [| |addr wid]; [done..|]. cbn in Ha |- *. unfold parse_address in Ha.
  destruct (WalletAddress_new addr) as [a|] eqn:W; [|done]. cbn in Ha.
  injection Ha as ->. pose proof (address_plain _ _ W) as P.
  exact (miner_path addr "/payouts" [lit "payouts"] P eq_refl).
Qed.

(** Only requests for its pages share a listing's path. *)
Lemma route_page L r limit before :
  route r = route (page_request L limit before) -> exists l b, r = page_request L l b.
Proof.
  destruct L as [| |addr wid]; destruct r; cbn; intros E; try discriminate E; try (by eexists _, _).
  injection E as ->. by eexists _, _.
Qed.

(** What a request does to the caches: nothing, an entry of another path, or, for a
    page of the listing, what [handle_page] says. *)
Lemma handle_elsewhere cfg L r st n st' n' out :
  listing_ok L -> (forall l b, r <> page_request L l b) -> handle cfg r (st, n) = ((st', n'), out) ->
  forall p t v, cache_get (sel_cache (sel_of L) st') (page_key (prefix_of L) p) t = Some v ->
    cache_get (sel_cache (sel_of L) st) (page_key (prefix_of L) p) t = Some v.
Proof.
  intros Ha Hr H p t v. destruct (handle_well_asked cfg r n) as [(e & m & E)|(sel & key & init & n1 & E & P & C)];
    rewrite E in H; [by inv_eqs|].
  assert (key <> page_key (prefix_of L) p) as Hk.
  { intros ->. rewrite (listing_route L None None) in P by done. symmetry in P.
    apply route_page in P as (l & b & ->). by destruct (Hr l b). }
  unfold cached_json in H. fold (sel_cache sel st) in H.
  destruct (cache_get (sel_cache sel st) key _); [by inv_eqs|].
  destruct (init (S n1)) as [n2 [w|e]]; inv_eqs; [|done].
  destruct sel, (sel_of L); cbn; try done; intros G; apply get_insert in G as [(<- & _)|[_ G]]; done.
Qed.

(** ** The call index only grows *)

Definition later {A} (m : RM A) : Prop := forall n n' r, m n = (n', r) -> (n <= n')%nat.

Lemma later_bind {A B} (m : RM A) (k : A -> RM B) : later m -> (forall a, later (k a)) -> later (rm_bind m k).
Proof.
  intros Hm Hk n n' r H. unfold rm_bind in H. destruct (m n) as [n1 [a|e]] eqn:E; [|by inv_eqs; eapply Hm].
  apply Hm in E. apply Hk in H. lia.
Qed.
Lemma later_ret {A} (a : A) : later (rm_ret a).
Proof. intros n n' r [= <- _]. lia. Qed.
Lemma later_lift {A} (x : result A ApiError) : later (rm_lift x).
Proof. intros n n' r [= <- _]. lia. Qed.
Lemma later_db {A} (m : DB A) : later (rm_db m).
Proof. intros n n' r [= <- _]. lia. Qed.
Lemma later_treasury : later rm_treasury.
Proof. intros n n' r [= <- _]. lia. Qed.
Lemma later_now : later rm_now.
Proof. intros n n' r [= <- _]. lia. Qed.

Ltac later := repeat first [ apply later_bind; [|intros ?] | apply later_ret | apply later_lift | apply later_db
                           | apply later_treasury | apply later_now | progress unfold resolve_window, require_wallet
                           | match goal with |- later (match ?x with _ => _ end) => destruct x end
                           | match goal with |- later (if ?x then _ else _) => destruct x end ].

Lemma later_workers w rows : later (worker_views w rows).
Proof. induction rows as [|row rows IH]; cbn [worker_views]; later; exact IH. Qed.

Definition later_served (h : AM Value) (st : AppState) (n : nat) : Prop :=
  forall st' n' r, h (st, n) = ((st', n'), r) -> (n <= n')%nat.

Lemma later_json sel key init st n : later init -> later_served (cached_json sel key init) st n.
Proof.
  intros Hi st' n' r H. unfold cached_json in H. destruct (cache_get _ _ _); [inv_eqs; lia|].
  destruct (init (S n)) as [n1 [v|e]] eqn:E; inv_eqs; apply Hi in E; lia.
Qed.

Lemma later_params {A} (x : result A ApiError) k st n :
  (forall a, later_served (k a) st n) -> later_served (with_params x k) st n.
Proof. intros H st' n' r E. unfold with_params in E. destruct x; [by eapply H|by inv_eqs]. Qed.

Lemma later_range params k st n :
  (forall r m, later_served (k r) st m) -> later_served (with_range params k) st n.
Proof.
  intros H st' n' r E. unfold with_range in E. apply later_params in E; [lia|]. intros a. apply H.
Qed.

Lemma handle_calls cfg r st n st' n' out : handle cfg r (st, n) = ((st', n'), out) -> (n <= n')%nat.
Proof.
  enough (later_served (handle cfg r) st n) as H by apply H.
  destruct r; cbn [handle];
    unfold stats, hashrate, pool_hashrate_history, blocks, mining_pool_stats, pool_payouts, payout_cycle,
      active_miners_history, firmware, geo, active_sessions, pool_rejects, balance, profile, workers,
      miner_hashrate_history, miner_payouts, miner_rejects, full_rebate;
    repeat first [ apply later_params; intros ? | apply later_range; intros ? ? ].
  all: apply later_json.
  all: unfold build_stats, build_blocks, build_mining_pool_stats, build_cycles, build_balance, build_profile,
    build_workers, build_miner_history, build_miner_payouts, build_miner_rejects, build_full_rebate; later; apply later_workers.
Qed.

(** ** Pages in the cache *)

Section Listing.
Variables (cfg : MpsConfig) (L : Listing) (ids : nat -> list Z).
Hypothesis listing : listing_ok L.
Hypothesis healthy : forall n, ae_fault n = false.
Hypothesis ids_ok : forall n, listed L (ae_db n) = Some (ids n).
Hypothesis keys : forall n, List.NoDup (ids n) /\ Forall (fun x => 0 < x) (ids n).
Hypothesis growing : forall n n', (n <= n')%nat -> grows (ids n) (ids n').

(** The page of the rows at call [m]: the newest of them below the cursor. *)
Definition page_at (limit : Z) (before : option Z) (m : nat) : list Z * option Z :=
  let k := Z.to_nat limit in
  let rows := desc (List.filter (below before) (ids m)) in
  (firstn k rows, if (k <=? length rows)%nat then last (firstn k rows) else None).

Definition known (before : option Z) (m : nat) : Prop := forall c, before = Some c -> In c (ids m).

(** Every cached page was computed from the rows of an earlier call, at which its
    cursor already existed, and less than the time to live ago. *)
Definition pages_ok (ttl : Z) (st : AppState) (n : nat) : Prop :=
  cache_ttl (sel_cache (sel_of L) st) = ttl /\
  forall p t v, page_ok p -> cache_get (sel_cache (sel_of L) st) (page_key (prefix_of L) p) t = Some v ->
    exists m n2, (m < n2 < n)%nat /\ known (pg_before_id p) m /\ t < ae_now n2 + ttl /\
      page_ids v = page_at (pg_limit p) (pg_before_id p) m.

Lemma known_later before m n : known before m -> (m <= n)%nat -> known before n.
Proof. intros K H c E. apply (growing m n H), K, E. Qed.

Lemma pages_ok_later ttl st n n' : (n <= n')%nat -> pages_ok ttl st n -> pages_ok ttl st n'.
Proof.
  intros H [T P]. split; [done|]. intros p t v O G. destruct (P p t v O G) as (m & n2 & Hm & R).
  exists m, n2. split; [lia|exact R].
Qed.

(** Asking for a page. *)
Lemma page_served ttl st n limit before :
  pages_ok ttl st n -> known before n ->
  exists st' n' v m, handle cfg (page_request L limit before) (st, n) = ((st', n'), Ok v) /\
    (n < n')%nat /\ pages_ok ttl st' n' /\ known before m /\ (m < n')%nat /\ (m <= read_at L (S n))%nat /\
    page_ids v = page_at (page_limit limit) before m /\
    ((n <= m)%nat \/ exists n2, (m < n2 < n)%nat /\ ae_now n < ae_now n2 + ttl).
Proof.
  intros [T P] K. rewrite handle_page by done.
  assert (page limit before = Ok (mkPage (page_limit limit) before)) as Ep.
  { unfold page. destruct before as [c|]; [|done]. destruct (keys n) as [_ F]. rewrite List.Forall_forall in F.
    by rewrite (proj2 (Z.leb_gt _ _)) by (apply F, K; done). }
  destruct (page_page_ok _ _ _ Ep) as [O _]. unfold with_params. rewrite Ep. set (p := mkPage _ _) in *.
  unfold cached_json. fold (sel_cache (sel_of L) st).
  destruct (cache_get (sel_cache (sel_of L) st) _ (ae_now n)) as [v|] eqn:G.
  - destruct (P p _ v O G) as (m & n2 & Hm & Km & Ht & Ev). exists st, (S n), v, m.
    split; [done|]. split; [lia|]. split; [by apply (pages_ok_later ttl st n); [lia|]|].
    split; [exact Km|]. split; [lia|]. split; [destruct L; cbn; lia|]. split; [exact Ev|]. right. by exists n2.
  - destruct (page_read L limit ids healthy ids_ok before (S n)) as (n' & v & E & Hn & Ev). fold p in E.
    rewrite E. set (st' := match sel_of L with PoolCache => _ | WalletCache => _ end).
    set (m := read_at L (S n)) in *. assert (n <= m)%nat as Hm by (unfold m; destruct L; cbn; lia).
    exists st', (S n'), v, m. split; [done|]. split; [lia|]. split.
    { split; [unfold st'; destruct (sel_of L); cbn in *; by rewrite ttl_insert|]. intros q t w Oq Gq.
      assert (w = v /\ q = p /\ t < ae_now n' + ttl \/
              cache_get (sel_cache (sel_of L) st) (page_key (prefix_of L) q) t = Some w) as [(-> & -> & Ht)|Go].
      { unfold st' in Gq. destruct (sel_of L); cbn in Gq, T |- *; apply get_insert in Gq as [(Ek & -> & Ht)|[_ Gq]];
          [left|by right|left|by right]; rewrite <- T; repeat split; auto; by apply page_key_inj in Ek. }
      - exists m, n'. split; [lia|]. split; [by apply (known_later _ n)|]. split; [exact Ht|exact Ev].
      - destruct (P q t w Oq Go) as (m' & n2 & ? & R). exists m', n2. split; [lia|exact R]. }
    split; [by apply (known_later _ n)|]. split; [lia|]. split; [done|]. split; [exact Ev|]. by left.
Qed.

Lemma handle_pages_ok ttl st n r st' n' out :
  pages_ok ttl st n -> (forall l c, r = page_request L l (Some c) -> In c (ids n)) ->
  handle cfg r (st, n) = ((st', n'), out) -> (n <= n')%nat -> pages_ok ttl st' n'.
Proof.
  intros P Hk H Hn.
  assert ((exists l b, r = page_request L l b) \/ forall l b, r <> page_request L l b) as [(l & b & ->)|Hr].
  { destruct L as [| |addr wid], r; try (right; intros; discriminate); try (left; by eexists _, _).
    destruct (decide (a = addr)) as [->|Ne]; [left; by eexists _, _|right]. intros l b [= E]. congruence. }
  - destruct (page_served ttl st n l b P) as (st1 & n1 & v & m & E & _ & P1 & _).
    { intros c ->. by apply (Hk l). }
    rewrite E in H. by injection H as <- <- _.
  - pose proof (handle_elsewhere cfg L r st n st' n' out listing Hr H) as G.
    split; [|intros p t v O Gv; destruct (proj2 P p t v O (G p t v Gv)) as (m & n2 & ? & R); exists m, n2; split; [lia|exact R]].
    destruct P as [T _]. destruct (handle_well_asked cfg r n) as [(e & m & E)|(sel & key & init & n1 & E & _)];
      rewrite E in H; [by inv_eqs|]. unfold cached_json in H. fold (sel_cache sel st) in H.
    destruct (cache_get (sel_cache sel st) key _); [by inv_eqs|].
    destruct (init (S n1)) as [n2 [w|e]]; inv_eqs; [|done].
    destruct sel, (sel_of L); cbn in *; rewrite ?ttl_insert; done.
Qed.

(** *** Walks *)

Lemma same_rows_any c m m' :
  In c (ids m) -> In c (ids m') ->
  desc (List.filter (below (Some c)) (ids m')) = desc (List.filter (below (Some c)) (ids m)).
Proof.
  intros H H'. destruct (Nat.le_ge_cases m m') as [Hm|Hm].
  - by apply same_rows; auto; apply keys.
  - symmetry. by apply same_rows; auto; apply keys.
Qed.

Lemma follow_step ttl fuel limit before st n m (D := desc (List.filter (below before) (ids m))) st' n' v :
  handle cfg (page_request L limit before) (st, n) = ((st', n'), Ok v) -> pages_ok ttl st' n' ->
  page_ids v = (firstn (Z.to_nat (page_limit limit)) D,
                if (Z.to_nat (page_limit limit) <=? length D)%nat
                then last (firstn (Z.to_nat (page_limit limit)) D) else None) ->
  (length D < S fuel)%nat ->
  (forall c, In c (ids m) -> (length (desc (List.filter (below (Some c)) (ids m))) < fuel)%nat ->
     follow cfg fuel L limit (Some c) (st', n') = Some (desc (List.filter (below (Some c)) (ids m)))) ->
  follow cfg (S fuel) L limit before (st, n) = Some D.
Proof.
  intros E P Ev Hf IH. pose proof (page_limit_bounds limit) as B. cbn [follow]. rewrite E, Ev.
  set (k := Z.to_nat (page_limit limit)) in *.
  destruct (Nat.leb_spec k (length D)) as [Hk|Hk]; [|by rewrite firstn_all2 by lia].
  destruct (firstn k D) as [|c l' _] eqn:F using rev_ind.
  { apply (f_equal (@length Z)) in F. rewrite length_firstn in F. cbn in F. unfold k in *. lia. }
  rewrite last_snoc. destruct (rest_of_page _ before k l' c _ (proj1 (keys m)) F eq_refl) as [Hc R].
  fold D in R. rewrite IH; auto.
  - rewrite <- R, <- F. cbn. by rewrite firstn_skipn.
  - rewrite <- R, length_skipn. unfold k in *. lia.
Qed.

Lemma follow_rest ttl limit m fuel : forall c st n,
  pages_ok ttl st n -> In c (ids m) -> (m <= n)%nat ->
  (length (desc (List.filter (below (Some c)) (ids m))) < fuel)%nat ->
  follow cfg fuel L limit (Some c) (st, n) = Some (desc (List.filter (below (Some c)) (ids m))).
Proof.
  induction fuel as [|fuel IH]; intros c st n P Hc Hm Hf; [lia|].
  destruct (page_served ttl st n limit (Some c) P) as (st' & n' & v & m' & E & Hn & P' & K & _ & _ & Ev & _).
  { intros ? [= <-]. by apply (growing m n Hm). }
  eapply (follow_step ttl); [exact E|exact P'| |exact Hf|].
  - rewrite Ev. unfold page_at. by rewrite (same_rows_any c m m' Hc (K c eq_refl)).
  - intros c' Hc' Hf'. apply IH; auto. lia.
Qed.

Lemma ids_length m n : (m <= n)%nat -> (length (ids m) <= length (ids n))%nat.
Proof.
  intros H. apply NoDup_incl_length; [apply keys|]. intros x. apply (growing m n H).
Qed.

Lemma walk_served ttl st n limit fuel :
  pages_ok ttl st n -> (length (ids (S (S n))) < fuel)%nat ->
  exists m, follow cfg fuel L limit None (st, n) = Some (desc (ids m)) /\
    ((n <= m)%nat \/ exists n2, (m < n2 < n)%nat /\ ae_now n < ae_now n2 + ttl).
Proof.
  intros P Hf. destruct fuel as [|fuel]; [lia|].
  destruct (page_served ttl st n limit None P) as (st' & n' & v & m & E & Hn & P' & _ & Hm & Hr & Ev & Fr);
    [done|]. exists m. split; [|exact Fr].
  assert (List.filter (below None) (ids m) = ids m) as Ef by apply filter_true.
  rewrite <- Ef at 1. eapply (follow_step ttl); [exact E|exact P'|exact Ev| |].
  - rewrite Ef. unfold desc. rewrite sort_by_length.
    assert (length (ids m) <= length (ids (S (S n))))%nat; [|lia]. apply ids_length. destruct L; cbn in Hr; lia.
  - intros c Hc Hf'. apply (follow_rest ttl); auto. lia.
Qed.

Lemma serve_pages_ok ttl rs : forall st n outs st' n',
  pages_ok ttl st n -> serve cfg rs (st, n) = (outs, (st', n')) ->
  (forall l c m out, In (page_request L l (Some c), m, out) outs -> In c (ids m)) -> pages_ok ttl st' n'.
Proof.
  induction rs as [|r rs IH]; intros st n outs st' n' P H K; cbn in H; [by inv_eqs|].
  destruct (handle cfg r (st, n)) as [[st1 n1] out] eqn:E.
  destruct (serve cfg rs (st1, n1)) as [outs1 s2] eqn:Es. inv_eqs.
  eapply (IH st1 n1); [|exact Es|intros l c m o Hin; apply (K l c m o); by right].
  eapply handle_pages_ok; [exact P| |exact E|by eapply handle_calls].
  intros l c ->. eapply (K l c). by left.
Qed.
End Listing.

(** C34. Following the cursors of a listing through the cache lists every row exactly
    once, newest first, and ends: after any requests served from fresh caches, if the
    listing's rows are only added, with ids above the ones before, and no request
    before the walk asked for a page of this listing below an id that did not exist
    yet, a client that starts without a cursor and follows [next_before] gets,
    whatever limit it asks for, whatever is cached and whatever is added between its
    requests, exactly the ids of the listing at one moment, in descending order,
    after at most one request more than there are rows; that moment is the first
    request's own read or a read stored less than the time to live before it. *)
Theorem listing_walk_complete cfg L ids pool_ttl wallet_ttl rs n0 outs st n limit fuel :
  listing_ok L -> (forall n, ae_fault n = false) -> (forall n, listed L (ae_db n) = Some (ids n)) ->
  (forall n, List.NoDup (ids n) /\ Forall (fun x => 0 < x) (ids n)) ->
  (forall n n', (n <= n')%nat -> grows (ids n) (ids n')) ->
  serve cfg rs (AppState_new pool_ttl wallet_ttl, n0) = (outs, (st, n)) ->
  (forall l c m out, In (page_request L l (Some c), m, out) outs -> In c (ids m)) ->
  (length (ids (S (S n))) < fuel)%nat ->
  exists m, follow cfg fuel L limit None (st, n) = Some (desc (ids m)) /\
    ((n <= m)%nat \/
     exists n2, (m < n2 < n)%nat /\ ae_now n < ae_now n2 + ttl_of pool_ttl wallet_ttl (sel_of L)).
Proof.
  intros Hl Hh Hi Hk Hg Hs Hq Hf. eapply walk_served; eauto. eapply serve_pages_ok; eauto.
  split; [destruct L; apply ttl_new|]. intros p t v _. destruct L; cbn; by rewrite get_new.
Qed.
End Paged.

(** ** Concrete walks *)

(** A block is found during each request; the first page is already cached. *)
Definition walk_start : list (Request * nat * result Value ApiError) * (@AppState keeping_cache * nat) :=
  @serve keeping_cache busy_env mps_config [RBlocks (Some 2) None]
    (@AppState_new keeping_cache (60 * SECOND) (9 * SECOND), 0%nat).

Lemma listing_walk_complete_witness :
  @follow keeping_cache busy_env mps_config 20 LBlocks (Some 2) None (snd walk_start) = Some [6; 5; 4; 3; 2; 1] /\
  exists m, @follow keeping_cache busy_env mps_config 20 LBlocks (Some 2) None (snd walk_start)
              = Some (desc (map Z.of_nat (seq 1 (5 + m)))).
Proof.
  split; [vm_compute; reflexivity|].
  destruct (@listing_walk_complete keeping_cache busy_env keeping_cache_laws mps_config LBlocks
    (fun n => map Z.of_nat (seq 1 (5 + n))) (60 * SECOND) (9 * SECOND) [RBlocks (Some 2) None] 0
    (fst walk_start) (fst (snd walk_start)) (snd (snd walk_start)) (Some 2) 20) as (m & E & _).
  - exact I.
  - reflexivity.
  - intros n. cbn -[numbered_blocks seq]. by rewrite numbered_ids.
  - intros n. split.
    + apply Finite.Injective_map_NoDup; [intros a b E; lia|apply List.seq_NoDup].
    + apply List.Forall_forall. intros x Hx%numbered_In. lia.
  - intros n n' Hn. split; intros x; rewrite !numbered_In; [lia|]. intros Hx.
    destruct (Z.le_gt_cases x (Z.of_nat (5 + n))); [left; lia|right]. intros y Hy%numbered_In. lia.
  - vm_compute. reflexivity.
  - intros l c m out [[= ]|[]].
  - vm_compute. lia.
  - exists m. exact E.
Defined.

(** Five blocks during the first request, nine from then on. *)
Definition jump_env : ApiEnv :=
  healthy_env (fun n => Z.of_nat n * SECOND) (fun n => numbered_blocks (if (n <? 3)%nat then 5 else 9)).

(** A page below an id that does not exist yet hides rows: a request for the blocks
    below 8, made while there are five of them, leaves the page [5; 4] in the cache
    under that cursor; a client that walks the listing of the nine blocks then gets
    9 and 8 and that page, and misses 7 and 6. *)
Theorem unknown_cursor_hides_rows :
  let '(outs, s) := @serve keeping_cache jump_env mps_config [RBlocks (Some 2) (Some 8)]
    (@AppState_new keeping_cache (60 * SECOND) (9 * SECOND), 0%nat) in
  @listed LBlocks (ae_db (ApiEnv := jump_env) (snd s)) = Some [1; 2; 3; 4; 5; 6; 7; 8; 9] /\
  @follow keeping_cache jump_env mps_config 20 LBlocks (Some 2) None s = Some [9; 8; 5; 4; 3; 2; 1].
Proof. vm_compute. split; reflexivity. Qed.
