(* ===== verification/Krc20Price.v ===== *)
(** * NACHO floor prices ([payout-krc20/src/{rebate,quote}.rs])

    The exact fixed-point price, the conversion of a pending balance to NACHO
    base units, the derivation of the price from two USD quotes, and the circuit
    breaker in front of the quote source.  The decimal library, the JSON reader
    and the HTTP client are parameters. *)
From stdpp Require Import pretty.
From S2P Require Import Prelude F64 FeeModel Domain Sender.
Open Scope Z_scope.

(** ** [rebate.rs] *)

Definition u128_max : Z := 2 ^ 128 - 1.
Definition checked_u128 (z : Z) : option Z :=
  if (0 <=? z) && (z <=? u128_max) then Some z else None.

Definition DEFAULT_MIN_PENDING_SOMPI : Z := 1000000000.
Definition DEFAULT_MIN_NACHO_BASE_UNITS : Z := 100000000.
Definition MAX_FLOOR_PRICE_SCALE : Z := 18.

Inductive RebateError :=
| PriceParse (input : text) (reason : string)
| NegativePending (pending : Z)
| Overflow.

Record FloorPrice := mkFloorPrice { fp_mantissa : Z; fp_scale : Z }.

Definition from_mantissa_scale (mantissa scale : Z) : result FloorPrice RebateError :=
  let input := lit (pretty mantissa +:+ "e-" +:+ pretty scale) in
  if mantissa =? 0 then Err (PriceParse input "price is zero")
  else if MAX_FLOOR_PRICE_SCALE <? scale then Err (PriceParse input "scale exceeds maximum")
  else Ok (mkFloorPrice mantissa scale).

(** [str::split('.')]: the runs between the points, at least one. *)
Fixpoint split_dot (s : text) : list text :=
  match s with
  | [] => [[]]
  | c :: s =>
      if c =? 46 then [] :: split_dot s
      else match split_dot s with
           | part :: parts => (c :: part) :: parts
           | [] => [[c]]
           end
  end.

(** [str::parse::<u128>] on a run of digits. *)
Fixpoint parse_u128_from (acc : Z) (s : text) : option Z :=
  match s with
  | [] => Some acc
  | c :: s =>
      if is_ascii_digit c then
        acc ← checked_u128 (acc * 10 + (c - 48));
        parse_u128_from acc s
      else None
  end.

Definition parse_u128 (s : text) : option Z :=
  match s with [] => None | _ => parse_u128_from 0 s end.

(** [from_decimal_str] once the point is found. *)
Definition price_of_parts (input int_part frac_part : text) : result FloorPrice RebateError :=
  let err reason : result FloorPrice RebateError := Err (PriceParse input reason) in
  if bool_decide (int_part = []) && bool_decide (frac_part = [])
  then err "no digits"%string
  else if negb (forallb is_ascii_digit (int_part ++ frac_part))
  then err "non-digit character"%string
  else
    let scale := len frac_part in
    if u32_max <? scale then err "scale exceeds maximum"%string
    else if MAX_FLOOR_PRICE_SCALE <? scale then err "scale exceeds maximum"%string
    else
      match parse_u128 (int_part ++ frac_part) with
      | None => err "value out of range"%string
      | Some mantissa =>
          if mantissa =? 0 then err "price is zero"%string
          else Ok (mkFloorPrice mantissa scale)
      end.

Definition from_decimal_str (input : text) : result FloorPrice RebateError :=
  match input with
  | [] => Err (PriceParse input "empty")
  | _ =>
      match split_dot input with
      | [] => price_of_parts input [] []
      | [int_part] => price_of_parts input int_part []
      | [int_part; frac_part] => price_of_parts input int_part frac_part
      | _ => Err (PriceParse input "multiple decimal points")
      end
  end.

Definition nacho_base_units (pending_sompi : Z) (price : FloorPrice) : result Z RebateError :=
  if pending_sompi <? 0 then Err (NegativePending pending_sompi)
  else
    let? factor := ok_or (checked_u128 (10 ^ fp_scale price)) Overflow in
    let? scaled := ok_or (checked_u128 (pending_sompi * factor)) Overflow in
    Ok (scaled / fp_mantissa price).

Definition is_payable (nacho_base_units min_nacho_base_units : Z) : bool :=
  min_nacho_base_units <=? nacho_base_units.

(** ** [quote.rs]: the quote *)

Definition DEFAULT_QUOTE_BASE : string := "https://api.coingecko.com".
Definition DEFAULT_NACHO_COIN_ID : string := "nacho-the-kat".
Definition DEFAULT_KASPA_COIN_ID : string := "kaspa".
Definition QUOTE_VS_CURRENCY : string := "usd".
Definition DEFAULT_QUOTE_TICKER : string := "NACHO".

Inductive QuoteError :=
| Upstream (msg : string)
| Status (code : Z)
| Malformed (msg : string)
| QPrice (e : RebateError)
| CircuitOpen.

(** What the code uses of the decimal library: parsing, sign tests, division,
    [with_scale_round(_, Down)] and the integer form ([mantissa], [exponent]) of
    [mantissa / 10^exponent]. *)
Class BigDecimal := {
  BD : Type;
  bd_from_str : text -> result BD string;
  bd_is_negative : BD -> bool;
  bd_is_zero : BD -> bool;
  bd_div : BD -> BD -> BD;
  bd_scale_down : Z -> BD -> BD;
  bd_parts : BD -> Z * Z
}.

Section Quote.
Context `{DEC : BigDecimal}.

Definition parse_quote (label : string) (s : text) : result BD QuoteError :=
  map_err (fun e => Malformed (label +:+ " quote: " +:+ e)) (bd_from_str (trim s)).

Definition derive_floor_price (nacho_usd kaspa_usd : text) : result FloorPrice QuoteError :=
  let? nacho := parse_quote "nacho" nacho_usd in
  let? kaspa := parse_quote "kaspa" kaspa_usd in
  if bd_is_negative nacho || bd_is_negative kaspa then Err (Malformed "negative quote")
  else if bd_is_zero nacho then Err (Malformed "nacho quote is zero")
  else if bd_is_zero kaspa then Err (Malformed "kaspa quote is zero (division undefined)")
  else
    let ratio := bd_scale_down MAX_FLOOR_PRICE_SCALE (bd_div nacho kaspa) in
    let '(mantissa_bi, exponent) := bd_parts ratio in
    let? scale := ok_or (if (0 <=? exponent) && (exponent <=? u32_max) then Some exponent else None)
                    (Malformed "unexpected quote scale") in
    let? mantissa := ok_or (checked_u128 mantissa_bi) (Malformed "derived price overflows u128") in
    map_err QPrice (from_mantissa_scale mantissa scale).

(** [HashMap<String, HashMap<String, Box<RawValue>>>]: the verbatim text of
    every quote. *)
Definition SimplePriceResponse : Type := gmap string (gmap string text).

Definition usd_quote (parsed : SimplePriceResponse) (coin_id : string) : result text QuoteError :=
  ok_or (parsed !! coin_id ≫= (fun legs => legs !! QUOTE_VS_CURRENCY))
    (Malformed ("missing " +:+ coin_id +:+ "/" +:+ QUOTE_VS_CURRENCY +:+ " in quote")).

Context (json_from_slice : list Z -> result SimplePriceResponse string).

Definition parse_simple_price_response (body : list Z) (nacho_id kaspa_id : string) :
    result FloorPrice QuoteError :=
  let? parsed := map_err (fun e => Malformed ("json: " +:+ e)) (json_from_slice body) in
  let? nacho_usd := usd_quote parsed nacho_id in
  let? kaspa_usd := usd_quote parsed kaspa_id in
  derive_floor_price nacho_usd kaspa_usd.

Record CoinGeckoFloorPrice := mkCoinGecko {
  cg_base : string; cg_nacho_id : string; cg_kaspa_id : string
}.

(** One HTTPS request: no response, or a status and a body that may fail to
    arrive. *)
Context (http_get : string -> result (Z * result (list Z) string) string).

Definition coingecko_floor_price (c : CoinGeckoFloorPrice) : result FloorPrice QuoteError :=
  let url := cg_base c +:+ "/api/v3/simple/price?ids=" +:+ cg_nacho_id c +:+ "," +:+ cg_kaspa_id c
             +:+ "&vs_currencies=" +:+ QUOTE_VS_CURRENCY +:+ "&precision=18" in
  let? resp := map_err (fun e => Upstream (url +:+ ": " +:+ e)) (http_get url) in
  if negb (fst resp =? 200) then Err (Status (fst resp))
  else
    let? body := map_err (fun e => Upstream ("body: " +:+ e)) (snd resp) in
    parse_simple_price_response body (cg_nacho_id c) (cg_kaspa_id c).
End Quote.

(** ** [quote.rs]: the circuit breaker *)

Inductive CircuitState := Closed | Open | HalfOpen.
#[export] Instance CircuitState_eq_dec : EqDecision CircuitState.
Proof. solve_decision. Defined.

Record CircuitBreaker := mkBreaker {
  cb_state : CircuitState;
  cb_consecutive_failures : Z;
  cb_failure_threshold : Z;
  cb_cooldown : Z;
  cb_opened_at : option Z
}.

Definition breaker_new (failure_threshold cooldown : Z) : CircuitBreaker :=
  mkBreaker Closed 0 failure_threshold cooldown None.

(** [now.duration_since(opened)] is zero for an earlier [now]. *)
Definition breaker_state (b : CircuitBreaker) (now : Z) : CircuitState :=
  match cb_state b, cb_opened_at b with
  | Open, Some opened => if cb_cooldown b <=? Z.max 0 (now - opened) then HalfOpen else Open
  | s, _ => s
  end.

Definition allows_request (b : CircuitBreaker) (now : Z) : bool :=
  negb (bool_decide (breaker_state b now = Open)).

Definition on_success (b : CircuitBreaker) : CircuitBreaker :=
  mkBreaker Closed 0 (cb_failure_threshold b) (cb_cooldown b) None.

Definition on_failure (b : CircuitBreaker) (now : Z) : CircuitBreaker :=
  if bool_decide (breaker_state b now = HalfOpen) then
    mkBreaker Open (cb_consecutive_failures b) (cb_failure_threshold b) (cb_cooldown b) (Some now)
  else
    let failures := Z.min u32_max (cb_consecutive_failures b + 1) in
    if cb_failure_threshold b <=? failures then
      mkBreaker Open failures (cb_failure_threshold b) (cb_cooldown b) (Some now)
    else mkBreaker (cb_state b) failures (cb_failure_threshold b) (cb_cooldown b) (cb_opened_at b).

(** [BreakeredSource::floor_price] with the upstream's answer, which is asked
    only when the breaker lets the request through at [now]; it arrives at
    [done].  The flag says whether the upstream was asked. *)
Definition breakered_floor_price (b : CircuitBreaker) (now done : Z)
    (upstream : result FloorPrice QuoteError) :
    bool * CircuitBreaker * result FloorPrice QuoteError :=
  if negb (allows_request b now) then (false, b, Err CircuitOpen)
  else
    match upstream with
    | Ok p => (true, on_success b, Ok p)
    | Err e => (true, on_failure b done, Err e)
    end.
