(* ===== verification/Krc20PriceSpec.v ===== *)
(** * Guarantees of the price and the breaker

    Prices are well formed whatever built them, the conversion is exact and
    never overflows, the decimal reader accepts exactly the plain decimals, and
    the breaker refuses exactly while it cools down after enough failures. *)
From S2P Require Import Prelude F64 FeeModel Domain Sender Krc20Price.
Open Scope Z_scope.

(** ** Well-formed prices *)

Definition price_wf (p : FloorPrice) : Prop :=
  1 <= fp_mantissa p <= u128_max /\ 0 <= fp_scale p <= MAX_FLOOR_PRICE_SCALE.

Lemma checked_u128_Some z v : checked_u128 z = Some v <-> z = v /\ 0 <= z <= u128_max.
Proof.
  unfold checked_u128. destruct ((0 <=? z) && (z <=? u128_max)) eqn:E; to_prop.
  - split; [intros [= ->]; lia|now intros [-> _]].
  - split; [discriminate|]. intros [_ H]. lia.
Qed.

Lemma from_mantissa_scale_wf m s p :
  0 <= m <= u128_max -> 0 <= s -> from_mantissa_scale m s = Ok p ->
  p = mkFloorPrice m s /\ price_wf p.
Proof.
  unfold from_mantissa_scale. intros Hm Hs. destruct (Z.eqb_spec m 0); [discriminate|].
  destruct (Z.ltb_spec MAX_FLOOR_PRICE_SCALE s); [discriminate|].
  intros [= <-]. split; [done|]. split; simpl; lia.
Qed.

(** ** The decimal reader *)

Definition dec_value (s : text) : Z := fold_left (fun acc c => acc * 10 + (c - 48)) s 0.

Lemma parse_u128_from_spec s : forall acc v,
  0 <= acc -> parse_u128_from acc s = Some v <->
  forallb is_ascii_digit s = true /\ v = fold_left (fun acc c => acc * 10 + (c - 48)) s acc /\
  (s = [] \/ v <= u128_max).
Proof.
  induction s as [|c s IH]; intros acc v Ha; cbn [parse_u128_from forallb fold_left].
  { split; [intros [= ->]; auto|]. now intros (_ & -> & _). }
  destruct (is_ascii_digit c) eqn:Ec; [|split; [discriminate|now intros [? _]]].
  unfold is_ascii_digit in Ec. to_prop. rewrite andb_true_l.
  set (acc' := acc * 10 + (c - 48)) in *. assert (0 <= acc') by (unfold acc'; lia).
  assert (acc' <= fold_left (fun acc c => acc * 10 + (c - 48)) s acc' \/
          forallb is_ascii_digit s = false) as Hge.
  { clear IH. clearbody acc'. revert acc' H1. induction s as [|d s IH]; intros a Hp; simpl; [lia|].
    destruct (is_ascii_digit d) eqn:Ed; [|auto]. unfold is_ascii_digit in Ed. to_prop.
    destruct (IH (a * 10 + (d - 48))) as [Hle|Hf]; [lia|left; lia|auto]. }
  destruct (checked_u128 acc') as [a|] eqn:Ek; simpl.
  - apply checked_u128_Some in Ek as [<- Hr]. rewrite IH by done. split.
    + intros (Hd & -> & Hv). split; [done|]. split; [done|]. right.
      destruct Hv as [->|Hv]; [simpl; lia|done].
    + intros (Hd & Hv & [|Hle]); [discriminate|]. auto.
  - split; [discriminate|]. intros (Hd & -> & [|Hle]); [discriminate|].
    destruct Hge as [Hge|]; [|congruence].
    assert (checked_u128 acc' = Some acc') as Hs by (apply checked_u128_Some; lia). congruence.
Qed.

Lemma split_dot_app s : split_dot s <> [].
Proof. induction s as [|c s IH]; simpl; [done|]. destruct (c =? 46), (split_dot s); done. Qed.

Lemma split_dot_join s :
  forall part parts, split_dot s = part :: parts ->
  s = part ++ concat (map (cons 46) parts) /\ Forall (fun p => ~ In 46 p) (part :: parts).
Proof.
  induction s as [|c s IH]; simpl; intros part parts E.
  { injection E as <- <-. split; [done|]. repeat constructor. auto. }
  destruct (split_dot s) as [|q qs] eqn:Es; [now destruct (split_dot_app s)|].
  destruct (IH _ _ eq_refl) as [Hj Hf]. destruct (Z.eqb_spec c 46) as [->|Hc].
  - injection E as <- <-. simpl. rewrite Hj. split; [done|]. constructor; [auto|done].
  - injection E as <- <-. rewrite Hj. split; [done|]. inversion Hf; subst.
    constructor; [|done]. intros [->|]; auto.
Qed.

Lemma split_dot_nodot s : ~ In 46 s -> split_dot s = [s].
Proof.
  induction s as [|c s IH]; simpl; intros H; [done|].
  destruct (Z.eqb_spec c 46) as [->|Hc]; [tauto|]. rewrite IH by tauto. done.
Qed.

Lemma split_dot_dot i f : ~ In 46 i -> split_dot (i ++ 46 :: f) = i :: split_dot f.
Proof.
  induction i as [|c i IH]; simpl; intros H; [done|].
  destruct (Z.eqb_spec c 46) as [->|Hc]; [tauto|]. rewrite IH by tauto. done.
Qed.

Lemma digits_no_dot s : forallb is_ascii_digit s = true -> ~ In 46 s.
Proof. intros H Hin. rewrite forallb_forall in H. discriminate (H _ Hin). Qed.

Lemma digits_len s : forallb is_ascii_digit s = true -> len s = Z.of_nat (length s).
Proof.
  intros H. apply len_ascii. rewrite List.Forall_forall. intros c Hc.
  rewrite forallb_forall in H. specialize (H _ Hc). unfold is_ascii_digit in H. to_prop. lia.
Qed.

(** A plain decimal: integer digits, and fraction digits after a point if there
    is one. *)
Definition plain_decimal (s i f : text) : Prop :=
  (s = i ++ 46 :: f \/ (s = i /\ f = [])) /\ i ++ f <> [] /\ forallb is_ascii_digit (i ++ f) = true.

Lemma plain_decimal_split s i f :
  plain_decimal s i f -> s <> [] /\
  (split_dot s = [i; f] \/ (split_dot s = [i] /\ f = [])).
Proof.
  intros (Hs & Hne & Hd). rewrite forallb_app in Hd. to_prop.
  destruct Hs as [->|[-> ->]].
  - split; [now destruct i|]. left.
    rewrite split_dot_dot, split_dot_nodot by now apply digits_no_dot. done.
  - rewrite app_nil_r in Hne. split; [done|]. right. now rewrite split_dot_nodot by now apply digits_no_dot.
Qed.

Lemma parse_u128_spec i f v :
  i ++ f <> [] -> parse_u128 (i ++ f) = Some v <->
  forallb is_ascii_digit (i ++ f) = true /\ v = dec_value (i ++ f) /\ v <= u128_max.
Proof.
  intros Hne. unfold parse_u128. destruct (i ++ f) as [|c l] eqn:E; [done|].
  rewrite parse_u128_from_spec by lia. unfold dec_value. naive_solver.
Qed.

Lemma price_of_parts_spec s i f p :
  price_of_parts s i f = Ok p <->
  i ++ f <> [] /\ forallb is_ascii_digit (i ++ f) = true /\
  Z.of_nat (length f) <= MAX_FLOOR_PRICE_SCALE /\
  p = mkFloorPrice (dec_value (i ++ f)) (Z.of_nat (length f)) /\
  dec_value (i ++ f) <> 0 /\ dec_value (i ++ f) <= u128_max.
Proof.
  unfold price_of_parts.
  destruct (bool_decide (i = []) && bool_decide (f = [])) eqn:Enil.
  { apply andb_true_iff in Enil as [->%bool_decide_eq_true ->%bool_decide_eq_true].
    split; [discriminate|tauto]. }
  assert (i ++ f <> []) as Hne by (destruct i, f; try done; discriminate).
  destruct (forallb is_ascii_digit (i ++ f)) eqn:Ed; cbn [negb]; [|split; [discriminate|naive_solver]].
  pose proof Ed as Ed'. rewrite forallb_app in Ed'. apply andb_true_iff in Ed' as [_ Ef].
  rewrite digits_len by done. unfold u32_max, MAX_FLOOR_PRICE_SCALE.
  destruct (Z.ltb_spec (2 ^ 32 - 1) (Z.of_nat (length f))); [split; [discriminate|lia]|].
  destruct (Z.ltb_spec 18 (Z.of_nat (length f))); [split; [discriminate|lia]|].
  destruct (parse_u128 (i ++ f)) as [v|] eqn:Ev.
  - apply (parse_u128_spec i f v Hne) in Ev as (_ & -> & Hle).
    destruct (Z.eqb_spec (dec_value (i ++ f)) 0); [split; [discriminate|naive_solver]|].
    split; [intros [= <-]|intros (_ & _ & _ & -> & _)]; auto 10.
  - split; [discriminate|]. intros (_ & _ & _ & _ & _ & Hle).
    assert (parse_u128 (i ++ f) = Some (dec_value (i ++ f))) by (apply parse_u128_spec; auto). congruence.
Qed.

(** The price reader accepts exactly the plain decimals: integer digits and
    at most 18 fraction digits after an optional point, not both empty, of a
    value that is not zero and fits 128 bits; the price is that value, to the
    last digit. *)
Theorem from_decimal_str_spec s p :
  from_decimal_str s = Ok p <->
  exists i f, plain_decimal s i f /\ Z.of_nat (length f) <= MAX_FLOOR_PRICE_SCALE /\
    p = mkFloorPrice (dec_value (i ++ f)) (Z.of_nat (length f)) /\
    dec_value (i ++ f) <> 0 /\ dec_value (i ++ f) <= u128_max.
Proof.
  unfold from_decimal_str. split.
  - destruct s as [|c s']; [discriminate|]. set (s := c :: s') in *. intros H.
    destruct (split_dot s) as [|i [|f [|g r]]] eqn:Es; [now destruct (split_dot_app s)| | |discriminate];
      destruct (split_dot_join _ _ _ Es) as [Hj _]; simpl in Hj; rewrite app_nil_r in Hj;
      apply price_of_parts_spec in H as (? & ? & ?); unfold plain_decimal.
    + exists i, []. rewrite app_nil_r in *. auto 6.
    + exists i, f. auto 6.
  - intros (i & f & Hp & H). destruct (plain_decimal_split _ _ _ Hp) as [Hs Hsplit].
    destruct Hp as (_ & ? & ?). destruct s as [|c s']; [done|].
    destruct Hsplit as [->|[-> ->]]; apply price_of_parts_spec; tauto.
Qed.

(** ** The conversion *)

Lemma nacho_base_units_exact p pending :
  price_wf p -> 0 <= pending <= i64_max ->
  nacho_base_units pending p = Ok (pending * 10 ^ fp_scale p / fp_mantissa p).
Proof.
  intros [Hm Hs] Hp. unfold nacho_base_units, MAX_FLOOR_PRICE_SCALE in *.
  assert (1 <= 10 ^ fp_scale p <= 10 ^ 18) as Hf.
  { split; [assert (0 < 10 ^ fp_scale p) by (apply Z.pow_pos_nonneg; lia); lia|].
    apply Z.pow_le_mono_r; lia. }
  replace (pending <? 0) with false by (symmetry; apply Z.ltb_ge; lia).
  assert (10 ^ 18 <= u128_max) by (vm_compute; congruence).
  assert (i64_max * 10 ^ 18 <= u128_max) by (vm_compute; congruence).
  assert (0 <= pending * 10 ^ fp_scale p <= i64_max * 10 ^ 18) as Hx
    by (split; [apply Z.mul_nonneg_nonneg|apply Z.mul_le_mono_nonneg]; lia).
  assert (forall z, 0 <= z <= u128_max -> checked_u128 z = Some z) as Hk
    by (intros; now apply checked_u128_Some).
  rewrite Hk by lia. simpl. rewrite Hk by lia. done.
Qed.

(** What the decimal library promises of the operations the code uses. *)
Class BigDecimalLaws `{DEC : BigDecimal} := {
  law_negative x : bd_is_negative x = (fst (bd_parts x) <? 0);
  law_zero x : bd_is_zero x = (fst (bd_parts x) =? 0);
  law_div_sign x y : 0 <= fst (bd_parts x) -> 0 < fst (bd_parts y) -> 0 <= fst (bd_parts (bd_div x y));
  law_scale_down s x : 0 <= fst (bd_parts x) ->
    bd_parts (bd_scale_down s x) =
      (if snd (bd_parts x) <=? s then fst (bd_parts x) * 10 ^ (s - snd (bd_parts x))
       else fst (bd_parts x) / 10 ^ (snd (bd_parts x) - s), s)
}.

Section Derive.
Context `{DEC : BigDecimal}.

Lemma derive_floor_price_wf n k p : derive_floor_price n k = Ok p -> price_wf p.
Proof.
  unfold derive_floor_price. intros (a & _ & H)%rbind_ok. apply rbind_ok in H as (b & _ & H).
  destruct (_ || _); [discriminate|]. destruct (bd_is_zero a); [discriminate|].
  destruct (bd_is_zero b); [discriminate|]. destruct (bd_parts _) as [m e].
  apply rbind_ok in H as (sc & Hs & H). apply rbind_ok in H as (mm & Hm & H).
  destruct ((0 <=? e) && (e <=? u32_max)) eqn:Ee; [|discriminate]. injection Hs as <-. to_prop.
  destruct (checked_u128 m) as [m'|] eqn:Em; [|discriminate]. injection Hm as <-.
  apply checked_u128_Some in Em as [<- Hr].
  destruct (from_mantissa_scale m e) as [q|] eqn:Eq; [|discriminate]. injection H as <-.
  now apply from_mantissa_scale_wf in Eq.
Qed.

Context `{LAW : !BigDecimalLaws}.

(** The derived price is the quotient cut off after 18 decimals. *)
Lemma derive_floor_price_floor n k p :
  derive_floor_price n k = Ok p ->
  exists a b, bd_from_str (trim n) = Ok a /\ bd_from_str (trim k) = Ok b /\
    0 < fst (bd_parts a) /\ 0 < fst (bd_parts b) /\ fp_scale p = 18 /\
    let '(m, e) := bd_parts (bd_div a b) in
    fp_mantissa p = (if e <=? 18 then m * 10 ^ (18 - e) else m / 10 ^ (e - 18)).
Proof.
  unfold derive_floor_price. intros (a & Ha & H)%rbind_ok. apply rbind_ok in H as (b & Hb & H).
  assert (bd_from_str (trim n) = Ok a /\ bd_from_str (trim k) = Ok b) as [Ha' Hb'].
  { unfold parse_quote in Ha, Hb. destruct (bd_from_str (trim n)), (bd_from_str (trim k)); simpl in *;
      split; congruence. }
  rewrite !law_negative, !law_zero in H.
  destruct (_ || _) eqn:En; [discriminate|]. destruct (_ =? 0) eqn:Ea; [discriminate|].
  destruct (fst (bd_parts b) =? 0) eqn:Eb; [discriminate|]. to_prop.
  exists a, b. rewrite law_scale_down in H by (apply law_div_sign; lia).
  unfold MAX_FLOOR_PRICE_SCALE in H. destruct (bd_parts (bd_div a b)) as [m e]. simpl in H.
  apply rbind_ok in H as (mm & Hm & H).
  destruct (checked_u128 _) as [m'|] eqn:Em; [|discriminate]. injection Hm as <-.
  apply checked_u128_Some in Em as [<- Hr].
  destruct (from_mantissa_scale _ 18) as [q|] eqn:Eq; [|discriminate]. injection H as <-.
  apply from_mantissa_scale_wf in Eq as [-> _]; [|done|lia]. repeat (split; [done || lia|]). done.
Qed.
End Derive.

(** Prices are well formed by construction, so the conversion is total and
    exact: whatever built the price (mantissa and scale, decimal text, quotes),
    its mantissa is a positive 128-bit integer and its scale at most 18, and for
    such a price and any non-negative 64-bit balance the conversion returns the
    floor of balance over price, without overflow or division by zero. *)
Theorem floor_price_type `{DEC : BigDecimal} p :
  ((exists m s, 0 <= m <= u128_max /\ 0 <= s /\ from_mantissa_scale m s = Ok p) \/
   (exists s, from_decimal_str s = Ok p) \/ (exists n k, derive_floor_price n k = Ok p)) ->
  price_wf p /\
  forall pending, 0 <= pending <= i64_max -> exists n, nacho_base_units pending p = Ok n /\
    n * fp_mantissa p <= pending * 10 ^ fp_scale p < (n + 1) * fp_mantissa p.
Proof.
  intros H. assert (price_wf p) as Hw.
  { destruct H as [(m & s & Hm & Hs & H)|[[s H]|(n & k & H)]].
    - now apply from_mantissa_scale_wf in H.
    - apply from_decimal_str_spec in H as (i & f & (_ & _ & Hd) & Hl & -> & Hz & Hle). split; simpl; [|lia].
      assert (0 <= dec_value (i ++ f)); [|lia]. unfold dec_value.
      assert (forall l acc, 0 <= acc -> forallb is_ascii_digit l = true ->
        0 <= fold_left (fun acc c => acc * 10 + (c - 48)) l acc) as Hnn; [|apply Hnn; [lia|done]].
      induction l as [|c l IH]; intros acc Ha Hf; simpl in *; [done|].
      apply andb_true_iff in Hf as [Hc Hf]. unfold is_ascii_digit in Hc. to_prop. apply IH; [lia|done].
    - now apply derive_floor_price_wf in H. }
  split; [done|]. intros pending Hp. rewrite nacho_base_units_exact by done. eexists. split; [done|].
  destruct Hw as [Hm _]. set (x := pending * 10 ^ fp_scale p). set (m := fp_mantissa p) in *.
  pose proof (Z.mul_div_le x m ltac:(lia)). pose proof (Z.mul_succ_div_gt x m ltac:(lia)). lia.
Qed.

(** Exact decimals with quotients cut off after 100 digits. *)
#[local] Instance exact_decimal : BigDecimal := {|
  BD := Z * Z;
  bd_from_str s := match from_decimal_str s with
                   | Ok p => Ok (fp_mantissa p, fp_scale p)
                   | Err _ => Err "not a number"%string
                   end;
  bd_is_negative x := fst x <? 0;
  bd_is_zero x := fst x =? 0;
  bd_div x y := (fst x * 10 ^ (100 + snd y) / (fst y * 10 ^ snd x), 100);
  bd_scale_down s x := (if snd x <=? s then fst x * 10 ^ (s - snd x) else fst x / 10 ^ (snd x - s), s);
  bd_parts x := x
|}.

Lemma floor_price_type_witness :
  nacho_base_units 1000000000 (mkFloorPrice 365 6) = Ok 2739726027397.
Proof.
  destruct (floor_price_type (mkFloorPrice 365 6)) as [_ H].
  { right. left. exists (lit "0.000365"). vm_compute. reflexivity. }
  destruct (H 1000000000) as (n & E & _); [vm_compute; split; congruence|].
  rewrite E. vm_compute in E. congruence.
Defined.

(** A floored price pays more, not less: at quotes of 0.00001 and 0.03 USD a
    balance of 10^12 sompi (10 000 KAS) is worth 3 * 10^15 base units (balance
    times KAS quote over NACHO quote), and three more are paid, because the
    cut-off price is the divisor of the conversion. *)
Theorem floored_price_overpays :
  exists p, derive_floor_price (lit "0.00001") (lit "0.03") = Ok p /\
    nacho_base_units 1000000000000 p = Ok 3000000000000003 /\
    1000000000000 * 3000 / 1 = 3000000000000000.
Proof. eexists. split; [vm_compute; reflexivity|]. split; vm_compute; reflexivity. Qed.

(** ** The breaker *)

(** One call of the guarded source: when it starts, when the upstream's answer
    arrives, and that answer. *)
Record Request := mkRequest { rq_now : Z; rq_done : Z; rq_answer : result FloorPrice QuoteError }.

(** The attempts that reached the upstream, newest first: when the answer
    arrived and whether it was a price. *)
Fixpoint run_breaker (b : CircuitBreaker) (attempts : list (Z * bool)) (rs : list Request) :
    CircuitBreaker * list (Z * bool) :=
  match rs with
  | [] => (b, attempts)
  | r :: rs =>
      let '(asked, b', _) := breakered_floor_price b (rq_now r) (rq_done r) (rq_answer r) in
      run_breaker b' (if asked then (rq_done r, is_ok (rq_answer r)) :: attempts else attempts) rs
  end.

(** Failures since the last success. *)
Fixpoint trailing (attempts : list (Z * bool)) : Z :=
  match attempts with
  | (_, false) :: rest => 1 + trailing rest
  | _ => 0
  end.

Definition breaker_inv (thr cd : Z) (b : CircuitBreaker) (attempts : list (Z * bool)) : Prop :=
  cb_failure_threshold b = thr /\ cb_cooldown b = cd /\
  if Z.max 1 thr <=? trailing attempts
  then cb_state b = Open /\ exists t rest, attempts = (t, false) :: rest /\ cb_opened_at b = Some t
  else cb_state b = Closed /\ cb_consecutive_failures b = trailing attempts /\ cb_opened_at b = None.

Lemma trailing_nonneg l : 0 <= trailing l.
Proof. induction l as [|[t []] l IH]; simpl; lia. Qed.

Lemma breaker_inv_step thr cd b l r :
  0 <= thr <= u32_max -> rq_now r <= rq_done r -> breaker_inv thr cd b l ->
  let '(asked, b', _) := breakered_floor_price b (rq_now r) (rq_done r) (rq_answer r) in
  breaker_inv thr cd b' (if asked then (rq_done r, is_ok (rq_answer r)) :: l else l).
Proof.
  intros Ht Hn (<- & <- & H). unfold breakered_floor_price.
  destruct (allows_request b (rq_now r)) eqn:Ea; cbn [negb]; [|repeat split; auto].
  destruct (rq_answer r) as [p|e]; cbn [is_ok].
  { unfold breaker_inv. cbn [trailing]. repeat split; auto.
    destruct (Z.leb_spec (Z.max 1 (cb_failure_threshold b)) 0); [lia|]. auto. }
  unfold breaker_inv, on_failure. cbn [trailing]. pose proof (trailing_nonneg l).
  destruct (Z.leb_spec (Z.max 1 (cb_failure_threshold b)) (trailing l)) as [Hge|Hlt].
  - destruct H as (Hs & t & rest & -> & Ho). unfold allows_request, breaker_state in *.
    rewrite Hs, Ho in *. destruct (Z.leb_spec (cb_cooldown b) (Z.max 0 (rq_now r - t))); [|discriminate].
    destruct (Z.leb_spec (cb_cooldown b) (Z.max 0 (rq_done r - t))); [|lia].
    rewrite bool_decide_true by done. simpl. repeat split; auto.
    destruct (Z.leb_spec (Z.max 1 (cb_failure_threshold b)) (1 + (1 + trailing rest))); [eauto|].
    cbn [trailing] in *. lia.
  - destruct H as (Hs & Hf & Ho). unfold breaker_state. rewrite Hs, Ho.
    rewrite bool_decide_false by done. unfold u32_max in *.
    destruct (Z.leb_spec (Z.max 1 (cb_failure_threshold b)) (1 + trailing l));
      destruct (Z.leb_spec (cb_failure_threshold b) (Z.min (2 ^ 32 - 1) (cb_consecutive_failures b + 1)));
      try lia; simpl; repeat split; eauto; lia.
Qed.

Lemma run_breaker_inv thr cd rs : forall b l,
  0 <= thr <= u32_max -> Forall (fun r => rq_now r <= rq_done r) rs -> breaker_inv thr cd b l ->
  let '(b', l') := run_breaker b l rs in breaker_inv thr cd b' l'.
Proof.
  induction rs as [|r rs IH]; intros b l Ht Hr Hb; [done|]. inversion_clear Hr.
  pose proof (breaker_inv_step thr cd b l r Ht H Hb) as Hs. simpl.
  destruct (breakered_floor_price _ _ _ _) as [[asked b'] out]. now apply IH.
Qed.

(** The breaker fails closed exactly while it should: after any sequence of
    calls, a request at time [t] is refused if and only if at least
    [failure_threshold] (and at least one) attempts failed since the last
    success and the cooldown since the last failure has not passed. *)
Theorem breaker_refuses_iff thr cd rs t :
  0 <= thr <= u32_max -> Forall (fun r => rq_now r <= rq_done r) rs ->
  let '(b, attempts) := run_breaker (breaker_new thr cd) [] rs in
  allows_request b t = false <->
  Z.max 1 thr <= trailing attempts /\
  exists f rest, attempts = (f, false) :: rest /\ Z.max 0 (t - f) < cd.
Proof.
  intros Ht Hr. pose proof (run_breaker_inv thr cd rs (breaker_new thr cd) [] Ht Hr) as H.
  destruct (run_breaker _ _ _) as [b l]. destruct H as (_ & <- & H).
  { repeat split. cbn [trailing]. destruct (Z.leb_spec (Z.max 1 thr) 0); [lia|]. auto. }
  unfold allows_request, breaker_state. destruct (Z.leb_spec (Z.max 1 thr) (trailing l)) as [Hge|Hlt].
  - destruct H as (-> & f & rest & -> & ->).
    destruct (Z.leb_spec (cb_cooldown b) (Z.max 0 (t - f))).
    + rewrite bool_decide_false by done. split; [discriminate|]. intros (_ & f' & r' & [= <- <-] & ?). lia.
    + rewrite bool_decide_true by done. simpl. split; eauto 6.
  - destruct H as (-> & _ & _). rewrite bool_decide_false by done. split; [discriminate|lia].
Qed.

Lemma breaker_refuses_iff_witness :
  allows_request
    (fst (run_breaker (breaker_new 2 60) []
       [mkRequest 0 1 (Err (Status 500)); mkRequest 5 6 (Err (Status 500)); mkRequest 10 11 (Err CircuitOpen)]))
    65 = false.
Proof.
  pose proof (breaker_refuses_iff 2 60
    [mkRequest 0 1 (Err (Status 500)); mkRequest 5 6 (Err (Status 500)); mkRequest 10 11 (Err CircuitOpen)]
    65 ltac:(vm_compute; split; congruence) ltac:(repeat constructor; simpl; lia)) as H.
  vm_compute in H. vm_compute. apply H. split; [discriminate|].
  exists 6, [(1, false)]. split; reflexivity.
Defined.
