(* ===== verification/TierKasplex.v ===== *)
(** * The Kasplex tier classifier ([accountant/src/tier_kasplex.rs])

    The lookup behind [TierClassifier] in production: a cache of definite answers,
    a circuit breaker, and three upstream queries of which any one makes a wallet
    Elite.  The upstream's answers are arguments; instants are nanoseconds. *)
From Stdlib Require Import SpecFloat.
From S2P Require Import Prelude FeeModel Domain Krc20Price Allocation.
Open Scope Z_scope.

Definition DEFAULT_ELITE_KRC20_THRESHOLD : Z := 10000000000000000.
Definition DEFAULT_TTL : Z := 5 * 60 * 1000000000.
Definition DEFAULT_BREAKER_THRESHOLD : Z := 5.
Definition DEFAULT_BREAKER_COOLDOWN : Z := 30 * 1000000000.

(** The fields the decisions depend on; the URLs, tickers and timeouts only shape
    the requests. *)
Record KasplexConfig := mkKasplexConfig {
  kc_elite_krc20_threshold_base_units : Z;
  kc_ttl : Z;
  kc_breaker_threshold : Z;
  kc_breaker_cooldown : Z
}.

Definition KasplexConfig_default : KasplexConfig :=
  mkKasplexConfig DEFAULT_ELITE_KRC20_THRESHOLD DEFAULT_TTL DEFAULT_BREAKER_THRESHOLD
    DEFAULT_BREAKER_COOLDOWN.

Record CacheEntry := mkEntry { ce_tier : WalletTier; ce_expires_at : Z }.

(** ** The breaker *)

Module Breaker.
Inductive BreakerState := Closed | Open | HalfOpen.
#[export] Instance BreakerState_eq_dec : EqDecision BreakerState.
Proof. solve_decision. Defined.

Record Breaker := mkBreaker {
  br_state : BreakerState;
  br_consecutive_failures : Z;
  br_threshold : Z;
  br_cooldown : Z;
  br_opened_at : option Z
}.

Definition new (threshold cooldown : Z) : Breaker := mkBreaker Closed 0 threshold cooldown None.

(** [duration_since] is zero for an earlier [now]. *)
Definition state (b : Breaker) (now : Z) : BreakerState :=
  match br_state b, br_opened_at b with
  | Open, Some opened => if br_cooldown b <=? Z.max 0 (now - opened) then HalfOpen else Open
  | s, _ => s
  end.

Definition allows_request (b : Breaker) (now : Z) : bool := negb (bool_decide (state b now = Open)).

Definition on_success (b : Breaker) : Breaker := mkBreaker Closed 0 (br_threshold b) (br_cooldown b) None.

Definition on_failure (b : Breaker) (now : Z) : Breaker :=
  if bool_decide (state b now = HalfOpen)
  then mkBreaker Open (br_consecutive_failures b) (br_threshold b) (br_cooldown b) (Some now)
  else
    let failures := Z.min u32_max (br_consecutive_failures b + 1) in
    if br_threshold b <=? failures
    then mkBreaker Open failures (br_threshold b) (br_cooldown b) (Some now)
    else mkBreaker (br_state b) failures (br_threshold b) (br_cooldown b) (br_opened_at b).
End Breaker.

(** ** The upstream's answers *)

(** No response, or a status and the rows of a body that parses. *)
Inductive HttpAnswer (R : Type) := Unreachable (msg : string) | Response (status : Z) (rows : option (list R)).
Arguments Unreachable {R} msg.
Arguments Response {R} status rows.

Record NftRow := mkNftRow { nf_tick : text; nf_token_id : text }.
Record Krc20Row := mkKrc20Row { kr_tick : text; kr_balance : text; kr_locked : text; kr_dec : text }.

Definition parse_base_units (s : text) : result Z string :=
  match s with
  | [] => Err "empty"
  | c :: _ =>
      if negb (bool_decide (s = lit "0")) && (c =? 48) then Err "leading zeros"
      else if negb (forallb is_ascii_digit s) then Err "non-digit"
      else ok_or (parse_u128 s) "number too large to fit in target type"
  end.

(** The body of a response with status 200. *)
Definition http_rows {R} (what : string) (a : HttpAnswer R) : result (list R) ClassifierError :=
  match a with
  | Unreachable msg => Err (Upstream (what +:+ " GET: " +:+ msg))
  | Response status rows =>
      if negb (status =? 200) then Err (Upstream (what +:+ " endpoint"))
      else ok_or rows (Malformed (what +:+ " JSON"))
  end.

Definition fetch_nft (a : HttpAnswer NftRow) : result bool ClassifierError :=
  let? rows := http_rows "nft" a in
  Ok (negb (length rows =? 0)%nat).

Fixpoint sum_holdings (threshold total : Z) (rows : list Krc20Row) : result bool ClassifierError :=
  match rows with
  | [] => Ok (threshold <=? total)
  | row :: rows =>
      let? bal := map_err (fun e => Malformed ("balance: " +:+ e)) (parse_base_units (kr_balance row)) in
      let? locked := map_err (fun e => Malformed ("locked: " +:+ e)) (parse_base_units (kr_locked row)) in
      let? total := ok_or (t ← checked_u128 (total + bal); checked_u128 (t + locked))
                      (Malformed "balance + locked overflows u128") in
      if threshold <=? total then Ok true else sum_holdings threshold total rows
  end.

Definition fetch_krc20 (cfg : KasplexConfig) (a : HttpAnswer Krc20Row) : result bool ClassifierError :=
  let? rows := http_rows "krc20" a in
  sum_holdings (kc_elite_krc20_threshold_base_units cfg) 0 rows.

(** ** The classifier *)

Record KasplexTierClassifier := mkKasplex {
  kx_cfg : KasplexConfig;
  kx_cache : gmap text CacheEntry;
  kx_breaker : Breaker.Breaker
}.

Definition KasplexTierClassifier_new (cfg : KasplexConfig) : KasplexTierClassifier :=
  mkKasplex cfg ∅ (Breaker.new (kc_breaker_threshold cfg) (kc_breaker_cooldown cfg)).

Definition clear_cache (st : KasplexTierClassifier) : KasplexTierClassifier :=
  mkKasplex (kx_cfg st) ∅ (kx_breaker st).

(** The live entry; an expired one is dropped. *)
Definition cached (key : text) (now : Z) (st : KasplexTierClassifier)
  : option WalletTier * KasplexTierClassifier :=
  match kx_cache st !! key with
  | Some entry =>
      if now <? ce_expires_at entry then (Some (ce_tier entry), st)
      else (None, mkKasplex (kx_cfg st) (delete key (kx_cache st)) (kx_breaker st))
  | None => (None, st)
  end.

Definition store (key : text) (tier : WalletTier) (now : Z) (st : KasplexTierClassifier)
  : KasplexTierClassifier :=
  mkKasplex (kx_cfg st) (<[key := mkEntry tier (now + kc_ttl (kx_cfg st))]> (kx_cache st)) (kx_breaker st).

Definition set_breaker (b : Breaker.Breaker) (st : KasplexTierClassifier) : KasplexTierClassifier :=
  mkKasplex (kx_cfg st) (kx_cache st) b.

(** What one call meets: the wallet, the instants of the cache lookup, of the
    breaker's question and of the outcome, and the three answers, which are asked
    for together. *)
Record Lookup := mkLookup {
  lk_wallet : text;
  lk_cached_at : Z;
  lk_asked_at : Z;
  lk_done_at : Z;
  lk_nacho_nft : HttpAnswer NftRow;
  lk_katclaim_nft : HttpAnswer NftRow;
  lk_krc20 : HttpAnswer Krc20Row
}.

Definition says_elite (r : result bool ClassifierError) : bool :=
  match r with Ok b => b | Err _ => false end.

(** [classify]; the flag says whether the upstream was asked. *)
Definition kasplex_classify (q : Lookup) (st : KasplexTierClassifier)
  : bool * result WalletTier ClassifierError * KasplexTierClassifier :=
  let key := lk_wallet q in
  let (hit, st) := cached key (lk_cached_at q) st in
  match hit with
  | Some tier => (false, Ok tier, st)
  | None =>
      if negb (Breaker.allows_request (kx_breaker st) (lk_asked_at q)) then (false, Ok Standard, st)
      else
        let nacho_nft := fetch_nft (lk_nacho_nft q) in
        let katclaim_nft := fetch_nft (lk_katclaim_nft q) in
        let krc20 := fetch_krc20 (kx_cfg st) (lk_krc20 q) in
        let any_elite := says_elite nacho_nft || says_elite katclaim_nft || says_elite krc20 in
        let any_err := negb (is_ok nacho_nft) || negb (is_ok katclaim_nft) || negb (is_ok krc20) in
        if any_elite then
          let st := set_breaker (Breaker.on_success (kx_breaker st)) st in
          (true, Ok Elite, store key Elite (lk_done_at q) st)
        else if negb any_err then
          let st := set_breaker (Breaker.on_success (kx_breaker st)) st in
          (true, Ok Standard, store key Standard (lk_done_at q) st)
        else
          (true, Ok Standard, set_breaker (Breaker.on_failure (kx_breaker st) (lk_done_at q)) st)
  end.

(** ** Histories *)

(** The calls in order: each with whether it asked the upstream, and its answer. *)
Fixpoint classify_all (qs : list Lookup) (st : KasplexTierClassifier)
  : list (Lookup * bool * result WalletTier ClassifierError) * KasplexTierClassifier :=
  match qs with
  | [] => ([], st)
  | q :: qs =>
      let '(asked, r, st) := kasplex_classify q st in
      let '(outs, st) := classify_all qs st in
      ((q, asked, r) :: outs, st)
  end.

(** One of the three answers is a definite yes. *)
Definition definite_elite (cfg : KasplexConfig) (q : Lookup) : bool :=
  says_elite (fetch_nft (lk_nacho_nft q)) || says_elite (fetch_nft (lk_katclaim_nft q))
  || says_elite (fetch_krc20 cfg (lk_krc20 q)).

(** Every Elite entry of the cache stems from a definite yes among [past]. *)
Definition cache_ok (cfg : KasplexConfig) (past : list Lookup) (st : KasplexTierClassifier) : Prop :=
  kx_cfg st = cfg /\
  forall key e, kx_cache st !! key = Some e -> ce_tier e = Elite ->
    exists q0, In q0 past /\ lk_wallet q0 = key /\ definite_elite cfg q0 = true /\
      ce_expires_at e = lk_done_at q0 + kc_ttl cfg.

(** ** Evidence in the raw answers *)

(** The upstream answered properly with at least one token. *)
Definition owns_nft (a : HttpAnswer NftRow) : Prop := exists row rows, a = Response 200 (Some (row :: rows)).

(** The number a text of decimal digits is read as. *)
Definition reads_as (s : text) (z : Z) : Prop :=
  s <> [] /\ forallb is_ascii_digit s = true /\ z = fold_left (fun n c => n * 10 + (c - 48)) s 0.

(** A row that holds [z] base units, free and locked. *)
Definition row_holds (row : Krc20Row) (z : Z) : Prop :=
  exists free locked, reads_as (kr_balance row) free /\ reads_as (kr_locked row) locked /\ z = free + locked.

(** The upstream answered properly, and rows it sent hold the threshold together. *)
Definition holds_krc20 (threshold : Z) (a : HttpAnswer Krc20Row) : Prop :=
  exists rows rest amounts, a = Response 200 (Some (rows ++ rest)) /\ Forall2 row_holds rows amounts /\
    threshold <= fold_right Z.add 0 amounts.

Definition evidence (cfg : KasplexConfig) (q : Lookup) : Prop :=
  owns_nft (lk_nacho_nft q) \/ owns_nft (lk_katclaim_nft q) \/
  holds_krc20 (kc_elite_krc20_threshold_base_units cfg) (lk_krc20 q).

(** The grounds of an Elite answer to [q]. *)
Definition grounds (cfg : KasplexConfig) (past : list Lookup) (q : Lookup) : Prop :=
  evidence cfg q \/
  exists q0, In q0 past /\ lk_wallet q0 = lk_wallet q /\ evidence cfg q0 /\
    lk_cached_at q < lk_done_at q0 + kc_ttl cfg.

Lemma http_rows_proper {R} what (a : HttpAnswer R) rows : http_rows what a = Ok rows -> a = Response 200 (Some rows).
Proof.
  destruct a as [msg|status body]; [done|]. cbn. destruct (Z.eqb_spec status 200) as [->|]; [|done].
  destruct body; cbn; [by intros [= ->]|done].
Qed.

Lemma fetch_nft_evidence a : says_elite (fetch_nft a) = true -> owns_nft a.
Proof.
  unfold fetch_nft. destruct (http_rows "nft" a) as [rows|] eqn:E; [|done]. apply http_rows_proper in E as ->.
  destruct rows as [|row rows]; [done|]. intros _. by exists row, rows.
Qed.

Lemma parse_u128_from_reads s : forall acc z,
  parse_u128_from acc s = Some z -> z = fold_left (fun n c => n * 10 + (c - 48)) s acc.
Proof.
  induction s as [|c s IH]; intros acc z; cbn [parse_u128_from fold_left]; [by intros [= ->]|].
  destruct (is_ascii_digit c); [|done]. unfold checked_u128. destruct (_ && _); cbn; [apply IH|done].
Qed.

Lemma parse_base_units_reads s z : parse_base_units s = Ok z -> reads_as s z.
Proof.
  unfold parse_base_units. destruct s as [|c s]; [done|]. destruct (_ && _); [done|].
  destruct (forallb is_ascii_digit (c :: s)) eqn:D; [|done]. cbn [negb].
  destruct (parse_u128 (c :: s)) as [n|] eqn:P; [|done]. intros [= <-].
  split; [done|]. split; [exact D|]. by apply parse_u128_from_reads.
Qed.

Lemma sum_holdings_evidence threshold rows : forall total,
  sum_holdings threshold total rows = Ok true ->
  exists held rest amounts, rows = held ++ rest /\ Forall2 row_holds held amounts /\
    threshold <= total + fold_right Z.add 0 amounts.
Proof.
  induction rows as [|row rows IH]; intros total H; cbn [sum_holdings] in H.
  { exists [], [], []. injection H as H. apply Z.leb_le in H. repeat split; [constructor|cbn; lia]. }
  destruct (parse_base_units (kr_balance row)) as [bal|] eqn:B; [|done]. cbn [map_err] in H.
  destruct (parse_base_units (kr_locked row)) as [locked|] eqn:L; [|done]. cbn [map_err] in H.
  unfold checked_u128 in H. cbn [rbind] in H. destruct ((0 <=? total + bal) && (total + bal <=? u128_max)); cbn in H; [|done].
  destruct ((0 <=? total + bal + locked) && (total + bal + locked <=? u128_max)); cbn in H; [|done].
  assert (row_holds row (bal + locked)) as R by (exists bal, locked; auto using parse_base_units_reads).
  destruct (Z.leb_spec threshold (total + bal + locked)).
  - exists [row], rows, [bal + locked]. repeat split; [by repeat constructor|cbn; lia].
  - destruct (IH _ H) as (held & rest & amounts & -> & F & S).
    exists (row :: held), rest, (bal + locked :: amounts). repeat split; [by constructor|cbn; lia].
Qed.

Lemma fetch_krc20_evidence cfg a :
  says_elite (fetch_krc20 cfg a) = true -> holds_krc20 (kc_elite_krc20_threshold_base_units cfg) a.
Proof.
  unfold fetch_krc20. destruct (http_rows "krc20" a) as [rows|] eqn:E; [|done]. apply http_rows_proper in E as ->.
  cbn [rbind]. destruct (sum_holdings _ _ rows) as [[]|] eqn:S; try done. intros _.
  apply sum_holdings_evidence in S as (held & rest & amounts & -> & F & S). by exists held, rest, amounts.
Qed.

Lemma definite_evidence cfg q : definite_elite cfg q = true -> evidence cfg q.
Proof.
  unfold definite_elite, evidence. intros [[H|H]%orb_true_iff|H]%orb_true_iff;
    auto using fetch_nft_evidence, fetch_krc20_evidence.
Qed.

Lemma cached_ok cfg past key now st hit st' :
  cache_ok cfg past st -> cached key now st = (hit, st') -> cache_ok cfg past st' /\
  (hit = Some Elite -> exists q0, In q0 past /\ lk_wallet q0 = key /\ definite_elite cfg q0 = true /\
     now < lk_done_at q0 + kc_ttl cfg).
Proof.
  intros [Ec C] H. unfold cached in H. destruct (kx_cache st !! key) as [e|] eqn:Ee.
  2:{ inv_eqs. split; [by split|discriminate]. }
  destruct (Z.ltb_spec now (ce_expires_at e)); inv_eqs.
  - split; [by split|]. intros [= Et]. destruct (C _ _ Ee Et) as (q0 & ? & ? & ? & Hx).
      exists q0. repeat split; auto. lia.
  - split; [|discriminate]. split; [done|]. cbn. intros k e' Hk. apply lookup_delete_Some in Hk as [_ Hk]. eauto.
Qed.

Lemma cache_ok_more cfg past q st : cache_ok cfg past st -> cache_ok cfg (q :: past) st.
Proof.
  intros [Ec C]. split; [done|]. intros k e Hk He. destruct (C k e Hk He) as (q0 & H & Rest).
  exists q0. split; [by right|done].
Qed.

Lemma store_ok cfg past q tier st :
  cache_ok cfg (q :: past) st -> (tier = Elite -> definite_elite cfg q = true) ->
  cache_ok cfg (q :: past) (store (lk_wallet q) tier (lk_done_at q) st).
Proof.
  intros [Ec C] Ht. split; [done|]. cbn. intros k e Hk He.
  apply lookup_insert_Some in Hk as [[<- <-]|[_ Hk]]; [|eauto]. cbn in *.
  exists q. repeat split; auto; by rewrite Ec.
Qed.

Lemma classify_ok cfg past q st asked r st' :
  cache_ok cfg past st -> kasplex_classify q st = (asked, r, st') ->
  cache_ok cfg (q :: past) st' /\ exists tier, r = Ok tier /\ (tier = Elite -> grounds cfg past q).
Proof.
  intros C H. unfold kasplex_classify in H.
  destruct (cached (lk_wallet q) (lk_cached_at q) st) as [hit st1] eqn:Eh.
  destruct (cached_ok _ _ _ _ _ _ _ C Eh) as [C1 G]. apply (cache_ok_more cfg past q) in C1.
  destruct hit as [tier|].
  { inv_eqs. split; [done|]. exists tier. split; [done|]. intros ->. right.
    destruct (G eq_refl) as (q0 & I & W & D & Hx). exists q0. auto using definite_evidence. }
  destruct (negb _); [inv_eqs; split; [done|]; by exists Standard|].
  pose proof C1 as [Ec _]. rewrite Ec in H. fold (definite_elite cfg q) in H.
  destruct (definite_elite cfg q) eqn:D.
  { inv_eqs. split; [by apply store_ok|]. exists Elite. split; [done|]. left. by apply definite_evidence. }
  destruct (negb _); inv_eqs; (split; [|by exists Standard]); [by apply store_ok|done].
Qed.

Lemma classify_all_ok cfg qs : forall past st outs st',
  cache_ok cfg past st -> classify_all qs st = (outs, st') ->
  forall n q asked r, nth_error outs n = Some (q, asked, r) ->
    nth_error qs n = Some q /\
    exists tier, r = Ok tier /\ (tier = Elite -> grounds cfg (rev (firstn n qs) ++ past) q).
Proof.
  induction qs as [|q0 qs IH]; intros past st outs st' C H n q asked r Hn; simpl in H.
  { inv_eqs. by destruct n. }
  destruct (kasplex_classify q0 st) as [[asked0 r0] st1] eqn:E.
  destruct (classify_all qs st1) as [outs1 st2] eqn:E1. inv_eqs.
  destruct (classify_ok _ _ _ _ _ _ _ C E) as [C1 G]. destruct n as [|n]; simpl in Hn.
  - inv_eqs. split; [done|]. exact G.
  - destruct (IH _ _ _ _ C1 E1 n q asked r Hn) as [Hq G1]. split; [done|]. simpl. by rewrite <- app_assoc.
Qed.

(** C35. The pool never grants the full rebate without evidence: in any sequence of
    lookups on a fresh classifier, with any upstream answers, every lookup is
    answered, and one answered Elite either has evidence in the raw answers it got
    itself, or comes less than the cache's lifetime after an earlier lookup of the
    same wallet that had.  Evidence is a response of status 200 with an NFT of one of
    the two collections, or one of status 200 with KRC20 rows whose balances and
    locked amounts, read as decimal numbers, reach the threshold together.  Errors,
    other statuses, refusals and malformed bodies never make a wallet Elite. *)
Theorem elite_needs_evidence cfg qs outs st' n q asked r :
  classify_all qs (KasplexTierClassifier_new cfg) = (outs, st') ->
  nth_error outs n = Some (q, asked, r) ->
  nth_error qs n = Some q /\
  exists tier, r = Ok tier /\ (tier = Elite -> grounds cfg (rev (firstn n qs)) q).
Proof.
  intros H Hn. rewrite <- (app_nil_r (rev _)). eapply classify_all_ok; [|exact H|exact Hn].
  split; [done|]. cbn. intros k e Hk. by rewrite lookup_empty in Hk.
Qed.

(** ** An outage *)

(** No definite answer, and at least one failed. *)
Definition degraded (cfg : KasplexConfig) (q : Lookup) : bool :=
  negb (definite_elite cfg q)
  && (negb (is_ok (fetch_nft (lk_nacho_nft q))) || negb (is_ok (fetch_nft (lk_katclaim_nft q)))
      || negb (is_ok (fetch_krc20 cfg (lk_krc20 q)))).

(** The calls follow each other from [t] and end by [T]. *)
Fixpoint in_order (t T : Z) (qs : list Lookup) : Prop :=
  match qs with
  | [] => t <= T
  | q :: qs => t <= lk_asked_at q /\ lk_asked_at q <= lk_done_at q /\ in_order (lk_done_at q) T qs
  end.

Definition asks (outs : list (Lookup * bool * result WalletTier ClassifierError)) : Z :=
  Z.of_nat (length (List.filter (fun o => snd (fst o)) outs)).

(** Requests that can still be made until [T], from a breaker in use since [t]. *)
Definition budget (b : Breaker.Breaker) (t T : Z) : Z :=
  match Breaker.br_state b, Breaker.br_opened_at b with
  | Breaker.Open, Some o => (T - o) / Breaker.br_cooldown b
  | _, _ => Z.max 1 (Breaker.br_threshold b - Breaker.br_consecutive_failures b) + (T - t) / Breaker.br_cooldown b
  end.

Record breaker_wf (b : Breaker.Breaker) (t : Z) : Prop := {
  bf_cooldown : 0 < Breaker.br_cooldown b;
  bf_threshold : Breaker.br_threshold b <= u32_max;
  bf_state : (Breaker.br_state b = Breaker.Closed /\ Breaker.br_opened_at b = None /\
                0 <= Breaker.br_consecutive_failures b /\
                (Breaker.br_consecutive_failures b < Breaker.br_threshold b \/
                 Breaker.br_consecutive_failures b = 0)) \/
             exists o, Breaker.br_state b = Breaker.Open /\ Breaker.br_opened_at b = Some o /\ o <= t
}.

Lemma breaker_wf_later b t t' : breaker_wf b t -> t <= t' -> breaker_wf b t'.
Proof.
  intros [C Th S] Hle. split; auto. destruct S as [S|(o & ? & ? & ?)]; [by left|right].
  exists o. repeat split; auto. lia.
Qed.

Lemma budget_later b t t' T : breaker_wf b t -> t <= t' -> budget b t' T <= budget b t T.
Proof.
  intros [C _ S] Hle. unfold budget. destruct S as [(E1 & E2 & _)|(o & E1 & E2 & _)]; rewrite E1, ?E2; [|lia].
  pose proof (Z.div_le_mono (T - t') (T - t) (Breaker.br_cooldown b) C). lia.
Qed.

(** A failed request uses one unit of the budget. *)
Lemma failure_spends b t asked done_ T :
  breaker_wf b t -> t <= asked -> asked <= done_ -> done_ <= T -> Breaker.allows_request b asked = true ->
  let b' := Breaker.on_failure b done_ in
  breaker_wf b' done_ /\ Breaker.br_cooldown b' = Breaker.br_cooldown b /\ 1 + budget b' done_ T <= budget b t T.
Proof.
  intros W Ha Hd HT A b'. pose proof W as [C Th S].
  assert (forall x, 0 <= T - x -> 0 <= (T - x) / Breaker.br_cooldown b) as P by (intros; apply Z.div_pos; lia).
  assert ((T - done_) / Breaker.br_cooldown b <= (T - t) / Breaker.br_cooldown b) as M
    by (apply Z.div_le_mono; lia).
  unfold b', Breaker.on_failure. destruct S as [(E1 & E2 & Hf & Hlt)|(o & E1 & E2 & Ho)].
  - unfold Breaker.state. rewrite E1, E2. rewrite bool_decide_eq_false_2 by done.
    assert (Z.min u32_max (Breaker.br_consecutive_failures b + 1) = Breaker.br_consecutive_failures b + 1) as Em
      by (unfold u32_max in *; lia). rewrite Em.
    destruct (Z.leb_spec (Breaker.br_threshold b) (Breaker.br_consecutive_failures b + 1)); cbn.
    + split; [split; cbn; auto; right; exists done_; repeat split; lia|]. split; [done|].
      unfold budget; cbn. rewrite E1. lia.
    + split; [split; cbn; auto; left; repeat split; auto; lia|]. split; [done|].
      unfold budget; cbn. rewrite E1, ?E2. lia.
  - unfold Breaker.allows_request, Breaker.state in *. rewrite E1, E2 in *.
    destruct (Z.leb_spec (Breaker.br_cooldown b) (Z.max 0 (asked - o))) as [Hc|]; [|discriminate].
    rewrite (proj2 (Z.leb_le _ _)) by lia. rewrite bool_decide_eq_true_2 by done. cbn.
    split; [split; cbn; auto; right; exists done_; repeat split; lia|]. split; [done|].
    unfold budget; cbn. rewrite E1, ?E2.
    assert (T - done_ + 1 * Breaker.br_cooldown b <= T - o) as L by lia.
    apply (Z.div_le_mono _ _ _ C) in L. rewrite Z.div_add in L by lia. lia.
Qed.

Lemma cached_keeps key now st hit st' :
  cached key now st = (hit, st') -> kx_cfg st' = kx_cfg st /\ kx_breaker st' = kx_breaker st.
Proof.
  unfold cached. destruct (kx_cache st !! key); [|intros; inv_eqs; done].
  destruct (_ <? _); intros; inv_eqs; done.
Qed.

Lemma degraded_classify q st asked r st' :
  degraded (kx_cfg st) q = true -> kasplex_classify q st = (asked, r, st') ->
  kx_cfg st' = kx_cfg st /\
  (asked = true /\ Breaker.allows_request (kx_breaker st) (lk_asked_at q) = true /\
     kx_breaker st' = Breaker.on_failure (kx_breaker st) (lk_done_at q) \/
   asked = false /\ kx_breaker st' = kx_breaker st).
Proof.
  intros D H. unfold degraded in D. apply andb_true_iff in D as [D1 D2]. apply negb_true_iff in D1.
  unfold kasplex_classify in H. destruct (cached _ _ st) as [hit st1] eqn:Eh.
  apply cached_keeps in Eh as [Ec Eb]. destruct hit; [inv_eqs; split; [congruence|by right]|].
  destruct (Breaker.allows_request (kx_breaker st1) _) eqn:A; simpl in H; [|inv_eqs; split; [congruence|by right]].
  rewrite Ec in H. fold (definite_elite (kx_cfg st) q) in H. rewrite D1, D2 in H. simpl in H. inv_eqs.
  split; [done|]. left. cbn. by rewrite <- Eb.
Qed.

Lemma outage_budget T qs : forall st t outs st',
  breaker_wf (kx_breaker st) t -> in_order t T qs -> Forall (fun q => degraded (kx_cfg st) q = true) qs ->
  classify_all qs st = (outs, st') -> asks outs <= budget (kx_breaker st) t T.
Proof.
  induction qs as [|q qs IH]; intros st t outs st' W O D H; simpl in H.
  { inv_eqs. unfold asks. simpl in *. destruct W as [C _ S]. unfold budget.
    destruct S as [(E1 & E2 & _)|(o & E1 & E2 & Ho)]; rewrite E1, ?E2.
    - pose proof (Z.div_pos (T - t) (Breaker.br_cooldown (kx_breaker st'))). lia.
    - apply Z.div_pos; lia. }
  destruct (kasplex_classify q st) as [[asked r] st1] eqn:E. destruct (classify_all qs st1) as [outs1 st2] eqn:E1.
  inv_eqs. destruct O as (O1 & O2 & O3). apply Forall_cons in D as [Dq D].
  assert (lk_done_at q <= T) as HT.
  { clear -O3. revert O3. generalize (lk_done_at q). induction qs as [|x qs IH]; simpl; intros z O; [done|].
    destruct O as (? & ? & O). specialize (IH _ O). lia. }
  destruct (degraded_classify _ _ _ _ _ Dq E) as [Ec S]. rewrite <- Ec in D.
  destruct S as [(-> & A & Eb)|(-> & Eb)].
  - destruct (failure_spends _ _ _ _ T W O1 O2 HT A) as (W1 & _ & B). rewrite <- Eb in W1, B.
    specialize (IH st1 _ _ _ W1 O3 D E1). unfold asks in *. simpl length. lia.
  - pose proof (budget_later _ _ (lk_done_at q) T W ltac:(lia)) as B.
    rewrite <- Eb in W. pose proof (breaker_wf_later _ _ (lk_done_at q) W ltac:(lia)) as W1.
    specialize (IH st1 _ _ _ W1 O3 D E1). rewrite Eb in IH. unfold asks in *. simpl. lia.
Qed.

(** The breaker bounds what an outage can cost the allocation path: while every
    upstream answer fails, from a fresh classifier, the calls between [t] and [T]
    ask the upstream at most [max 1 threshold] times plus once per cooldown that
    has passed, whatever the number of wallets; all other calls are answered at
    once. *)
Theorem outage_asks_bounded cfg qs outs st' t T :
  0 < kc_breaker_cooldown cfg -> 0 <= kc_breaker_threshold cfg <= u32_max ->
  in_order t T qs -> Forall (fun q => degraded cfg q = true) qs ->
  classify_all qs (KasplexTierClassifier_new cfg) = (outs, st') ->
  asks outs <= Z.max 1 (kc_breaker_threshold cfg) + (T - t) / kc_breaker_cooldown cfg.
Proof.
  intros C Th O D H. pose proof (outage_budget T qs (KasplexTierClassifier_new cfg) t outs st') as B.
  unfold budget in B. cbn in B. rewrite Z.sub_0_r in B. apply B; auto.
  split; cbn; [done|lia|]. left. repeat split; auto; lia.
Qed.

(** ** Concrete lookups *)

Definition up_lookup (w : string) (t : Z) : Lookup :=
  mkLookup (lit w) t t (t + 1) (Response 200 (Some [mkNftRow (lit "NACHO") (lit "7")]))
    (Response 503 None) (Response 200 (Some [mkKrc20Row (lit "NACHO") (lit "10") (lit "0") (lit "8")])).
Definition down_lookup (w : string) (t : Z) : Lookup :=
  mkLookup (lit w) t t (t + 1) (Unreachable "timeout") (Response 200 (Some [])) (Response 200 (Some [])).

Definition tier_config : KasplexConfig := mkKasplexConfig DEFAULT_ELITE_KRC20_THRESHOLD 100 2 30.

Definition tier_sample : list Lookup := [up_lookup "kaspa:a" 10; down_lookup "kaspa:a" 50; down_lookup "kaspa:a" 200].

Lemma elite_needs_evidence_witness :
  map snd (fst (classify_all tier_sample (KasplexTierClassifier_new tier_config)))
    = [Ok Elite; Ok Elite; Ok Standard] /\
  grounds tier_config (rev (firstn 1 tier_sample)) (down_lookup "kaspa:a" 50).
Proof.
  split; [vm_compute; reflexivity|].
  destruct (classify_all tier_sample (KasplexTierClassifier_new tier_config)) as [outs st'] eqn:E.
  edestruct (elite_needs_evidence tier_config tier_sample outs st' 1%nat (down_lookup "kaspa:a" 50) false (Ok Elite) E)
    as (_ & tier & [= <-] & G); [vm_compute in E; injection E as <- _; reflexivity|]. by apply G.
Defined.

Definition outage_sample : list Lookup :=
  [down_lookup "kaspa:a" 10; down_lookup "kaspa:b" 12; down_lookup "kaspa:c" 14; down_lookup "kaspa:d" 20;
   down_lookup "kaspa:e" 45; down_lookup "kaspa:f" 50].

Lemma outage_asks_bounded_witness :
  asks (fst (classify_all outage_sample (KasplexTierClassifier_new tier_config))) = 3 /\
  asks (fst (classify_all outage_sample (KasplexTierClassifier_new tier_config))) <= Z.max 1 2 + (60 - 10) / 30.
Proof.
  split; [vm_compute; reflexivity|].
  destruct (classify_all outage_sample (KasplexTierClassifier_new tier_config)) as [outs st'] eqn:E.
  apply (outage_asks_bounded tier_config outage_sample outs st' 10 60); [reflexivity| | | |exact E].
  - vm_compute. split; discriminate.
  - simpl. lia.
  - repeat constructor.
Defined.
