(* ===== verification/Krc20Plan.v ===== *)
(** * KRC-20 inscriptions, commit/reveal planning and signing
    ([payout-krc20/src/{inscription,plan,sign}.rs])

    The script builder, the P2SH script and address functions, JSON string
    quoting and the Schnorr primitives belong to libraries outside the
    repository: they are the operations of the class [InscriptionEnv]. *)
From stdpp Require Import pretty.
From S2P Require Import Prelude F64 FeeModel Schema Domain AccountDb IngestDb PayoutDb StorageMass KasEngine.
Open Scope Z_scope.

Class InscriptionEnv (Script : Type) := {
  (* a string as serde_json writes it, quotes and escapes included *)
  ie_json_quote : string -> string;
  (* [ScriptBuilder]: the script so far, extended *)
  ie_add_data : bytes -> bytes -> result bytes string;
  ie_add_op : bytes -> Z -> result bytes string;
  ie_add_i64 : bytes -> Z -> result bytes string;
  ie_OpCheckSig : Z;
  ie_OpFalse : Z;
  ie_OpIf : Z;
  ie_OpEndIf : Z;
  (* [pay_to_script_hash_script], [pay_to_script_hash_signature_script] *)
  ie_p2sh_script : bytes -> Script;
  ie_p2sh_signature_script : bytes -> bytes -> result bytes string;
  (* [extract_script_pub_key_address] for the treasury's prefix *)
  ie_address_of : Script -> result string string;
  (* the treasury key pair: its x-only public key, or an invalid key *)
  ie_xonly : result bytes string;
  ie_sighash : Transaction Script -> UtxoEntry Script -> bytes;
  ie_sign_schnorr : bytes -> bytes;
  (* [finalize] and the script engine over every input *)
  ie_finalize : Transaction Script -> Transaction Script;
  ie_verify : Transaction Script -> list (UtxoEntry Script) -> result unit (nat * string)
}.

(** ** [inscription.rs] *)

Definition KASPLEX_TAG : bytes := lit "kasplex".
Definition KRC20_PROTOCOL : string := "krc-20".

Inductive InscriptionError :=
| ScriptBuilder (msg : string)
| InscriptionAddress (msg : string).

Record Krc20Transfer := mkTransfer {
  kx_p : string; kx_op : string; kx_tick : string; kx_amt : string; kx_to : string
}.

Definition Krc20Transfer_new (tick amt to : string) : Krc20Transfer :=
  mkTransfer KRC20_PROTOCOL "transfer" tick amt to.

Section Inscription.
Context {Script : Type} `{IE : InscriptionEnv Script}.

(** The derived serialisation: the fields in declaration order, compact. *)
Definition to_json (t : Krc20Transfer) : string :=
  let field name v := ie_json_quote name +:+ ":" +:+ ie_json_quote v in
  ("{" +:+ field "p" (kx_p t) +:+ "," +:+ field "op" (kx_op t) +:+ "," +:+ field "tick" (kx_tick t)
   +:+ "," +:+ field "amt" (kx_amt t) +:+ "," +:+ field "to" (kx_to t) +:+ "}")%string.

Definition build_transfer_inscription (xonly_pubkey : bytes) (transfer : Krc20Transfer) :
    result bytes InscriptionError :=
  let json := to_json transfer in
  map_err ScriptBuilder
    (let? s := ie_add_data [] xonly_pubkey in
     let? s := ie_add_op s ie_OpCheckSig in
     let? s := ie_add_op s ie_OpFalse in
     let? s := ie_add_op s ie_OpIf in
     let? s := ie_add_data s KASPLEX_TAG in
     let? s := ie_add_i64 s 0 in
     let? s := ie_add_data s (lit json) in
     ie_add_op s ie_OpEndIf).

Definition commit_script_public_key (redeem_script : bytes) : Script := ie_p2sh_script redeem_script.

Definition commit_address (redeem_script : bytes) : result string InscriptionError :=
  map_err InscriptionAddress (ie_address_of (commit_script_public_key redeem_script)).

Definition reveal_signature_script (redeem_script signature : bytes) :
    result bytes InscriptionError :=
  map_err ScriptBuilder (ie_p2sh_signature_script redeem_script signature).
End Inscription.

(** ** [plan.rs] *)

Definition STANDARD_SIGNATURE_SCRIPT_LEN : nat := 66.
Definition DEFAULT_COMMIT_AMOUNT_SOMPI : Z := 20000000.
Definition SIG_OP_COUNT_PER_INPUT : Z := 1.

Inductive Krc20FeePolicy :=
| Adaptive (rate : FeeRate)
| Frozen (commit_fee_sompi reveal_fee_sompi : Z).

Definition reveal_fee (p : Krc20FeePolicy) (m : TxMass) : Z :=
  match p with Adaptive rate => fee_for rate m | Frozen _ r => r end.

Definition commit_fee (p : Krc20FeePolicy) (m : TxMass) : Z :=
  match p with Adaptive rate => fee_for rate m | Frozen c _ => c end.

Record CommitRevealConfig := mkCommitRevealConfig {
  crc_commit_amount_sompi : Z;
  crc_fee_policy : Krc20FeePolicy
}.

Record PlannedCommitReveal (Script : Type) := mkPlanned {
  pcr_redeem_script : bytes;
  pcr_commit_script_public_key : Script;
  pcr_commit_amount_sompi : Z;
  pcr_commit_inputs : list (TreasuryUtxo Script);
  pcr_commit_change_sompi : Z;
  pcr_commit_fee_sompi : Z;
  pcr_commit_mass : TxMass;
  pcr_reveal_return_sompi : Z;
  pcr_reveal_fee_sompi : Z;
  pcr_reveal_mass : TxMass
}.
Arguments mkPlanned {Script} _ _ _ _ _ _ _ _ _ _.
Arguments pcr_redeem_script {Script} _.
Arguments pcr_commit_script_public_key {Script} _.
Arguments pcr_commit_amount_sompi {Script} _.
Arguments pcr_commit_inputs {Script} _.
Arguments pcr_commit_change_sompi {Script} _.
Arguments pcr_commit_fee_sompi {Script} _.
Arguments pcr_commit_mass {Script} _.
Arguments pcr_reveal_return_sompi {Script} _.
Arguments pcr_reveal_fee_sompi {Script} _.
Arguments pcr_reveal_mass {Script} _.

Inductive PlanError :=
| PeInscription (e : InscriptionError)
| InsufficientFunds (needed_sompi available_sompi : Z)
| RevealBelowFloor (return_sompi floor_sompi : Z)
| CommitMassExceeded (mass : TxMass) (limit : Z)
| RevealMassExceeded (mass : TxMass) (limit : Z)
| MassEval (e : MassEvaluationError)
| PePanic.                               (* a [u64] sum that overflows aborts *)

Record FundedCommit (Script : Type) := mkFunded {
  fc_inputs : list (TreasuryUtxo Script);
  fc_change_sompi : Z;
  fc_fee_sompi : Z;
  fc_mass : TxMass
}.
Arguments mkFunded {Script} _ _ _ _.
Arguments fc_inputs {Script} _.
Arguments fc_change_sompi {Script} _.
Arguments fc_fee_sompi {Script} _.
Arguments fc_mass {Script} _.

Section Plan.
Context {Script : Type} `{MC : MassCalculator Script} `{EV : KasEnv Script} `{IE : InscriptionEnv Script}.

Definition build_tx (inputs : list (TransactionOutpoint * bytes))
    (outputs : list (TransactionOutput Script)) : Transaction Script :=
  mkTransaction 0
    (map (fun i => mkTransactionInput (fst i) (snd i) 0 SIG_OP_COUNT_PER_INPUT) inputs)
    outputs 0 ke_native_subnetwork 0 [].

(** The outputs of a commit: the locked amount first, then any change. *)
Definition commit_outputs (commit_spk : Script) (commit_amount_sompi : Z) (treasury_script : Script)
    (change_sompi : Z) : list (TransactionOutput Script) :=
  mkTransactionOutput commit_amount_sompi commit_spk ::
  (if 0 <? change_sompi then [mkTransactionOutput change_sompi treasury_script] else []).

Definition commit_mass (inputs : list (TreasuryUtxo Script)) (commit_spk : Script)
    (commit_amount_sompi : Z) (treasury_script : Script) (change_sompi : Z) :
    result TxMass MassEvaluationError :=
  evaluate_populated
    (build_tx (map (fun u => (tu_outpoint u, repeat 0 STANDARD_SIGNATURE_SCRIPT_LEN)) inputs)
       (commit_outputs commit_spk commit_amount_sompi treasury_script change_sompi))
    (map tu_entry inputs).

(** One turn of the [while] loop for one funding prefix: the funded commit, or
    [None] to widen the prefix. *)
Definition fund_with (inputs : list (TreasuryUtxo Script)) (commit_spk treasury_script : Script)
    (commit_amount_sompi : Z) (fee_policy : Krc20FeePolicy) :
    result (option (FundedCommit Script)) PlanError :=
  let? input_sum := ok_or (sum_inputs inputs) PePanic in
  if input_sum <=? commit_amount_sompi then Ok None
  else
    let gross_change := input_sum - commit_amount_sompi in
    let? gross_mass := map_err MassEval
      (commit_mass inputs commit_spk commit_amount_sompi treasury_script gross_change) in
    let fee := commit_fee fee_policy gross_mass in
    if input_sum <? sat_u64 (commit_amount_sompi + fee) then Ok None
    else
      let change := input_sum - commit_amount_sompi - fee in
      if (change =? 0) || is_change_dust change treasury_script then
        let? mass := map_err MassEval
          (commit_mass inputs commit_spk commit_amount_sompi treasury_script 0) in
        Ok (Some (mkFunded inputs 0 (input_sum - commit_amount_sompi) mass))
      else Ok (Some (mkFunded inputs change fee gross_mass)).

(** The prefixes of [input_count], [input_count + 1], ... coins; [turns] is the
    number of prefixes left. *)
Fixpoint fund_loop (turns : nat) (sorted : list (TreasuryUtxo Script))
    (commit_spk treasury_script : Script) (commit_amount_sompi : Z) (fee_policy : Krc20FeePolicy)
    (input_count : nat) : result (option (FundedCommit Script)) PlanError :=
  match turns with
  | O => Ok None
  | S turns =>
      let? funded :=
        fund_with (firstn input_count sorted) commit_spk treasury_script commit_amount_sompi fee_policy in
      match funded with
      | Some f => Ok (Some f)
      | None =>
          fund_loop turns sorted commit_spk treasury_script commit_amount_sompi fee_policy (S input_count)
      end
  end.

Definition fund_commit (treasury_utxos : list (TreasuryUtxo Script)) (commit_spk treasury_script : Script)
    (commit_amount_sompi : Z) (fee_policy : Krc20FeePolicy) : result (FundedCommit Script) PlanError :=
  let sorted := sort_utxos_desc treasury_utxos in
  let? available := ok_or (sum_inputs sorted) PePanic in
  let? funded :=
    fund_loop (length sorted) sorted commit_spk treasury_script commit_amount_sompi fee_policy 1 in
  match funded with
  | Some f => Ok f
  | None =>
      let mass := checked_u64 (available - commit_amount_sompi) ≫= (fun gross_change =>
        match commit_mass sorted commit_spk commit_amount_sompi treasury_script gross_change with
        | Ok m => Some m
        | Err _ => None
        end) in
      let needed_sompi :=
        match mass with
        | Some m => sat_u64 (commit_amount_sompi + commit_fee fee_policy m)
        | None => commit_amount_sompi
        end in
      Err (InsufficientFunds needed_sompi available)
  end.

(** [commit_amount.checked_sub(reveal_fee).filter(|r| *r >= MIN).ok_or(..)]. *)
Definition reveal_return (commit_amount_sompi reveal_fee_sompi : Z) : result Z PlanError :=
  let below := RevealBelowFloor (sat_u64 (commit_amount_sompi - reveal_fee_sompi)) MIN_PAYOUT_OUTPUT_SOMPI in
  match checked_u64 (commit_amount_sompi - reveal_fee_sompi) with
  | Some r => if MIN_PAYOUT_OUTPUT_SOMPI <=? r then Ok r else Err below
  | None => Err below
  end.

Definition reveal_only (xonly_pubkey : bytes) (transfer : Krc20Transfer)
    (commit_amount_sompi reveal_fee_sompi : Z) : result (PlannedCommitReveal Script) PlanError :=
  let? reveal_return_sompi := reveal_return commit_amount_sompi reveal_fee_sompi in
  let? redeem_script := map_err PeInscription (build_transfer_inscription xonly_pubkey transfer) in
  let zero_mass := mkTxMass 0 0 0 in
  Ok (mkPlanned redeem_script (commit_script_public_key redeem_script) commit_amount_sompi [] 0 0
        zero_mass reveal_return_sompi reveal_fee_sompi zero_mass).

(** The UTXO entry of a commit's P2SH output. *)
Definition p2sh_entry (commit_amount_sompi : Z) (commit_spk : Script) : UtxoEntry Script :=
  mkUtxoEntry commit_amount_sompi commit_spk 0 false None.

Definition plan_commit_reveal (treasury_utxos : list (TreasuryUtxo Script)) (treasury_script : Script)
    (xonly_pubkey : bytes) (transfer : Krc20Transfer) (cfg : CommitRevealConfig) :
    result (PlannedCommitReveal Script) PlanError :=
  let amount := crc_commit_amount_sompi cfg in
  let? redeem_script := map_err PeInscription (build_transfer_inscription xonly_pubkey transfer) in
  let commit_spk := commit_script_public_key redeem_script in
  let? reveal_sig_script := map_err PeInscription
    (reveal_signature_script redeem_script (repeat 0 STANDARD_SIGNATURE_SCRIPT_LEN)) in
  let reveal_tx := build_tx [(mkOutpoint (repeat 0 32) 0, reveal_sig_script)]
                     [mkTransactionOutput amount treasury_script] in
  let? reveal_mass := map_err MassEval (evaluate_populated reveal_tx [p2sh_entry amount commit_spk]) in
  if negb (fits_independently reveal_mass ke_block_mass_limit)
  then Err (RevealMassExceeded reveal_mass ke_block_mass_limit)
  else
    let reveal_fee_sompi := reveal_fee (crc_fee_policy cfg) reveal_mass in
    let? reveal_return_sompi := reveal_return amount reveal_fee_sompi in
    let? commit := fund_commit treasury_utxos commit_spk treasury_script amount (crc_fee_policy cfg) in
    if negb (fits_independently (fc_mass commit) ke_block_mass_limit)
    then Err (CommitMassExceeded (fc_mass commit) ke_block_mass_limit)
    else
      Ok (mkPlanned redeem_script commit_spk amount (fc_inputs commit) (fc_change_sompi commit)
            (fc_fee_sompi commit) (fc_mass commit) reveal_return_sompi reveal_fee_sompi reveal_mass).
End Plan.

(** ** [sign.rs] *)

Definition COMMIT_P2SH_OUTPUT_INDEX : Z := 0.
Definition COMMIT_CHANGE_OUTPUT_INDEX : Z := 1.
Definition SIG_HASH_ALL : Z := 1.

Inductive Krc20SignError :=
| CommitSign (e : SignError)             (* empty or virtual inputs, key, verification *)
| RevealKey (msg : string)
| RevealScript (msg : string)
| RevealVerify (input : nat) (reason : string).

Record SignedReveal (Script : Type) := mkSignedReveal {
  sr_tx : Transaction Script;
  sr_entry : UtxoEntry Script
}.
Arguments mkSignedReveal {Script} _ _.
Arguments sr_tx {Script} _.
Arguments sr_entry {Script} _.

Section Sign.
Context {Script : Type} `{EV : KasEnv Script} `{IE : InscriptionEnv Script}.

Definition build_commit_unsigned (plan : PlannedCommitReveal Script) (treasury_script : Script) :
    result (Transaction Script * list (UtxoEntry Script)) SignError :=
  match pcr_commit_inputs plan with
  | [] => Err EmptyInputs
  | _ =>
      if existsb is_planning_virtual (pcr_commit_inputs plan) then Err VirtualInput
      else
        let inputs :=
          map (fun u => mkTransactionInput (tu_outpoint u) [] 0 1) (pcr_commit_inputs plan) in
        let outputs := commit_outputs (pcr_commit_script_public_key plan)
                         (pcr_commit_amount_sompi plan) treasury_script (pcr_commit_change_sompi plan) in
        Ok (mkTransaction ke_tx_version inputs outputs 0 ke_native_subnetwork 0 [],
            map tu_entry (pcr_commit_inputs plan))
  end.

Definition commit_txid (plan : PlannedCommitReveal Script) (treasury_script : Script) :
    result bytes SignError :=
  let? (tx, _) := build_commit_unsigned plan treasury_script in
  Ok (ke_txid tx).

Definition sign_commit (plan : PlannedCommitReveal Script) (treasury_script : Script) :
    result (SignedBatch Script) SignError :=
  let? (unsigned, entries) := build_commit_unsigned plan treasury_script in
  let? tx := ke_sign unsigned entries in
  Ok (mkSignedBatch tx entries).

Definition build_reveal_unsigned (plan : PlannedCommitReveal Script)
    (commit_outpoint : TransactionOutpoint) (treasury_script : Script) : Transaction Script :=
  mkTransaction ke_tx_version [mkTransactionInput commit_outpoint [] 0 1]
    [mkTransactionOutput (pcr_reveal_return_sompi plan) treasury_script] 0 ke_native_subnetwork 0 [].

Definition reveal_entry (plan : PlannedCommitReveal Script) : UtxoEntry Script :=
  p2sh_entry (pcr_commit_amount_sompi plan) (pcr_commit_script_public_key plan).

Definition reveal_txid (plan : PlannedCommitReveal Script) (commit_outpoint : TransactionOutpoint)
    (treasury_script : Script) : bytes :=
  ke_txid (build_reveal_unsigned plan commit_outpoint treasury_script).

(** The reveal's single input with its signature script. *)
Definition with_signature (tx : Transaction Script) (sig_script : bytes) : Transaction Script :=
  mkTransaction (tx_version tx)
    (match tx_inputs tx with
     | i :: rest =>
         mkTransactionInput (ti_previous_outpoint i) sig_script (ti_sequence i) (ti_sig_op_count i) :: rest
     | [] => []
     end)
    (tx_outputs tx) (tx_lock_time tx) (tx_subnetwork_id tx) (tx_gas tx) (tx_payload tx).

Definition sign_reveal (plan : PlannedCommitReveal Script) (commit_outpoint : TransactionOutpoint)
    (treasury_script : Script) : result (SignedReveal Script) Krc20SignError :=
  let tx := build_reveal_unsigned plan commit_outpoint treasury_script in
  let entry := reveal_entry plan in
  let? _ := map_err RevealKey ie_xonly in
  let sig := ie_sign_schnorr (ie_sighash tx entry) in
  let sig_push := 65 :: sig ++ [SIG_HASH_ALL] in
  let? sig_script := map_err RevealScript (ie_p2sh_signature_script (pcr_redeem_script plan) sig_push) in
  let tx := ie_finalize (with_signature tx sig_script) in
  let? _ := map_err (fun e => RevealVerify (fst e) (snd e)) (ie_verify tx [entry]) in
  Ok (mkSignedReveal tx entry).
End Sign.
