(* ===== verification/Krc20PlanSpec.v ===== *)
(** * Guarantees of the commit/reveal planner

    A planned pair balances to the last sompi, keeps the floor and the dust rule, has
    its measured shapes within the mass limits (the transactions that go out, whose
    outputs are smaller by the fees, may exceed them), and is funded by the shortest prefix of the largest coins that
    can afford it; replaying it with its frozen fees gives the same pair unless
    a shorter prefix could afford the frozen fee. *)
From S2P Require Import Prelude F64 FeeModel Schema Domain AccountDb IngestDb PayoutDb StorageMass StorageMassSpec ConsolidationSpec KasEngine Krc20Plan.
Open Scope Z_scope.

Section PlanSpec.
Context {Script : Type} `{MC : MassCalculator Script} `{EV : KasEnv Script} `{IE : InscriptionEnv Script}.
Context (spk ts : Script) (amount : Z).

(** The policy's fee for a prefix whose whole surplus is change. *)
Definition gross_fee (policy : Krc20FeePolicy) (inputs : list (TreasuryUtxo Script)) : option Z :=
  match commit_mass inputs spk amount ts (total_in inputs - amount) with
  | Ok m => Some (commit_fee policy m)
  | Err _ => None
  end.

(** A prefix cannot fund the commit under [policy]. *)
Definition too_small (policy : Krc20FeePolicy) (inputs : list (TreasuryUtxo Script)) : Prop :=
  total_in inputs <= amount \/
  exists f, gross_fee policy inputs = Some f /\ total_in inputs < amount + f.

Record commit_funded (policy : Krc20FeePolicy) (inputs : list (TreasuryUtxo Script))
    (f : FundedCommit Script) : Prop := {
  cf_inputs : fc_inputs f = inputs;
  cf_over : amount < total_in inputs;
  cf_balance : total_in inputs = amount + fc_change_sompi f + fc_fee_sompi f;
  cf_fee : exists fee, gross_fee policy inputs = Some fee /\ fee <= fc_fee_sompi f /\
    if 0 <? fc_change_sompi f then fc_fee_sompi f = fee
    else total_in inputs - amount - fee = 0 \/ is_change_dust (total_in inputs - amount - fee) ts = true;
  cf_change : fc_change_sompi f = 0 \/ 0 < fc_change_sompi f /\ is_change_dust (fc_change_sompi f) ts = false;
  cf_mass : commit_mass inputs spk amount ts
      (if 0 <? fc_change_sompi f then total_in inputs - amount else 0) = Ok (fc_mass f)
}.

Context (policy : Krc20FeePolicy).
Hypothesis policy_nonneg : forall m, 0 <= commit_fee policy m.

Lemma fund_with_spec inputs r :
  summable inputs -> 0 <= amount ->
  fund_with inputs spk ts amount policy = Ok r ->
  match r with
  | None => too_small policy inputs
  | Some f => commit_funded policy inputs f
  end.
Proof.
  intros Hs Ha. unfold fund_with, too_small, gross_fee. rewrite summable_sum by done. simpl.
  destruct Hs as [Hn Ht]. set (s := total_in inputs) in *.
  destruct (Z.leb_spec s amount) as [Hle|Hgt]; [intros [= <-]; now left|].
  destruct (commit_mass inputs spk amount ts (s - amount)) as [m|] eqn:Em; [|discriminate].
  simpl. pose proof (policy_nonneg m) as Hf. unfold sat_u64. set (fee := commit_fee policy m) in *.
  destruct (Z.ltb_spec s (Z.max 0 (Z.min u64_max (amount + fee)))) as [Hlt|Hge].
  { intros [= <-]. right. exists fee. split; [done|]. lia. }
  assert (amount + fee <= s) as Hafford by lia.
  destruct ((s - amount - fee =? 0) || is_change_dust (s - amount - fee) ts) eqn:Ed.
  - destruct (commit_mass inputs spk amount ts 0) as [m0|] eqn:E0; [|discriminate].
    intros [= <-]. constructor; cbn [fc_inputs fc_change_sompi fc_fee_sompi fc_mass]; auto; try lia.
    exists fee. unfold gross_fee. fold s. rewrite Em. split; [done|]. split; [lia|].
    simpl. to_prop. destruct Ed; [left; lia|now right].
  - intros [= <-]. to_prop.
    assert ((0 <? s - amount - fee) = true) as Hp by (apply Z.ltb_lt; lia).
    constructor; cbn [fc_inputs fc_change_sompi fc_fee_sompi fc_mass]; auto; try lia.
    + exists fee. unfold gross_fee. fold s. rewrite Em, Hp. split; [done|]. split; [lia|done].
    + right. split; [lia|done].
    + fold s. now rewrite Hp.
Qed.

Lemma summable_firstn n (us : list (TreasuryUtxo Script)) : summable us -> summable (firstn n us).
Proof.
  intros [Hn Ht]. split; [now apply list.Forall_take|].
  assert (total_in (firstn n us) <= total_in us); [|lia].
  rewrite <- (firstn_skipn n us) at 2. unfold total_in. rewrite map_app, sumZ_app.
  assert (0 <= sumZ (map utxo_amount (skipn n us))); [|lia].
  apply sumZ_nonneg. rewrite List.Forall_map. now apply list.Forall_drop.
Qed.

Lemma fund_loop_spec sorted turns : forall count r,
  summable sorted -> 0 <= amount ->
  fund_loop turns sorted spk ts amount policy count = Ok r ->
  match r with
  | None => forall k, (count <= k < count + turns)%nat -> too_small policy (firstn k sorted)
  | Some f => exists n, (count <= n < count + turns)%nat /\
      commit_funded policy (firstn n sorted) f /\
      forall k, (count <= k < n)%nat -> too_small policy (firstn k sorted)
  end.
Proof.
  induction turns as [|turns IH]; intros count r Hs Ha; cbn [fund_loop].
  { intros [= <-]. intros k Hk. lia. }
  intros (o & Ho & H)%rbind_ok.
  apply fund_with_spec in Ho; [|now apply summable_firstn|done]. destruct o as [f|].
  - injection H as <-. exists count. split; [lia|]. split; [done|]. intros k Hk. lia.
  - apply IH in H; [|done|done]. destruct r as [f|].
    + destruct H as (n & Hn & Hf & Hk). exists n. split; [lia|]. split; [done|].
      intros k Hk'. destruct (decide (k = count)) as [->|]; [done|]. apply Hk. lia.
    + intros k Hk. destruct (decide (k = count)) as [->|]; [done|]. apply H. lia.
Qed.

(** The loop on prefixes none of which can pay, up to one that can. *)
Lemma fund_loop_reaches sorted f n turns : forall count,
  (count <= n < count + turns)%nat ->
  (forall k, (count <= k < n)%nat -> fund_with (firstn k sorted) spk ts amount policy = Ok None) ->
  fund_with (firstn n sorted) spk ts amount policy = Ok (Some f) ->
  fund_loop turns sorted spk ts amount policy count = Ok (Some f).
Proof.
  induction turns as [|turns IH]; intros count Hn Hk Hf; [lia|]. cbn [fund_loop].
  destruct (decide (count = n)) as [->|Hne]; [now rewrite Hf|].
  rewrite Hk by lia. simpl. apply IH; [lia| |done]. intros k Hk'. apply Hk. lia.
Qed.
End PlanSpec.

Section Pairs.
Context {Script : Type} `{MC : MassCalculator Script} `{EV : KasEnv Script} `{IE : InscriptionEnv Script}.
Context (ts : Script) (xonly : bytes) (transfer : Krc20Transfer).

Definition policy_ok (policy : Krc20FeePolicy) : Prop :=
  match policy with
  | Adaptive rate => 0 <= min_relay_sompi_per_kg rate
  | Frozen c r => 0 <= c /\ 0 <= r
  end.

Lemma policy_ok_fees policy :
  policy_ok policy -> forall m, 0 <= commit_fee policy m /\ 0 <= reveal_fee policy m.
Proof.
  destruct policy as [rate|c r]; simpl; [|tauto]. intros H m.
  pose proof (fee_for_relay rate m). pose proof (minimum_relay_fee_nonneg rate (compute_mass m) H). lia.
Qed.

(** Every measure of a mass is within the node's limit. *)
Definition within_limit (m : TxMass) : Prop :=
  compute_mass m <= ke_block_mass_limit /\ storage_mass m <= ke_block_mass_limit /\
  transient_mass m <= ke_block_mass_limit.

(** The shape the reveal is measured at: a dummy outpoint, a signature of 66 zero
    bytes, and the whole locked amount returned to the treasury, with no fee taken. *)
Definition measured_reveal (amount : Z) (sig_script : bytes) : Transaction Script :=
  build_tx [(mkOutpoint (repeat 0 32) 0, sig_script)] [mkTransactionOutput amount ts].

(** A balanced pair.  The commit is measured with the change before the fee when it
    keeps any change ([cf_mass]), the reveal with the amount before the fee. *)
Record pair_sound (policy : Krc20FeePolicy) (us : list (TreasuryUtxo Script)) (amount : Z)
    (p : PlannedCommitReveal Script) : Prop := {
  ps_redeem : build_transfer_inscription xonly transfer = Ok (pcr_redeem_script p);
  ps_spk : pcr_commit_script_public_key p = ie_p2sh_script (pcr_redeem_script p);
  ps_amount : pcr_commit_amount_sompi p = amount;
  ps_funding : let sorted := sort_utxos_desc us in
    exists n, (1 <= n <= length sorted)%nat /\
    commit_funded (pcr_commit_script_public_key p) ts amount policy (firstn n sorted)
      (mkFunded (pcr_commit_inputs p) (pcr_commit_change_sompi p) (pcr_commit_fee_sompi p)
         (pcr_commit_mass p)) /\
    forall k, (1 <= k < n)%nat ->
      too_small (pcr_commit_script_public_key p) ts amount policy (firstn k sorted);
  ps_commit_fits : within_limit (pcr_commit_mass p);
  ps_reveal : pcr_reveal_return_sompi p + pcr_reveal_fee_sompi p = amount;
  ps_floor : MIN_PAYOUT_OUTPUT_SOMPI <= pcr_reveal_return_sompi p;
  ps_reveal_fee : pcr_reveal_fee_sompi p = reveal_fee policy (pcr_reveal_mass p);
  ps_reveal_mass : exists sig_script,
    ie_p2sh_signature_script (pcr_redeem_script p) (repeat 0 66) = Ok sig_script /\
    evaluate_populated (measured_reveal amount sig_script)
      [mkUtxoEntry amount (pcr_commit_script_public_key p) 0 false None] = Ok (pcr_reveal_mass p);
  ps_reveal_fits : within_limit (pcr_reveal_mass p)
}.

Lemma fits_within m : fits_independently m ke_block_mass_limit = true -> within_limit m.
Proof. unfold fits_independently, within_limit. rewrite !andb_true_iff, !Z.leb_le. tauto. Qed.

Lemma map_err_Ok {A E F} (f : E -> F) (r : result A E) a : map_err f r = Ok a -> r = Ok a.
Proof. destruct r; simpl; congruence. Qed.

Lemma reveal_return_ok a f r :
  reveal_return a f = Ok r -> r = a - f /\ MIN_PAYOUT_OUTPUT_SOMPI <= r.
Proof.
  unfold reveal_return. destruct (checked_u64 (a - f)) as [v|] eqn:E; [|discriminate].
  apply checked_u64_Some in E as [<- _].
  destruct (Z.leb_spec MIN_PAYOUT_OUTPUT_SOMPI (a - f)); [|discriminate]. intros [= <-]. auto.
Qed.

Lemma summable_sorted (us : list (TreasuryUtxo Script)) : summable us -> summable (sort_utxos_desc us).
Proof.
  intros [Hn Ht]. pose proof (sort_by_perm (fun a b => utxo_amount b <=? utxo_amount a) us) as HP.
  split.
  - rewrite List.Forall_forall in *. intros u Hu. apply Hn. now apply sort_by_In in Hu.
  - unfold total_in in *. erewrite <- sumZ_Permutation; [exact Ht|]. now apply Permutation_map.
Qed.

Lemma fund_commit_ok us spk amount policy f :
  fund_commit us spk ts amount policy = Ok f ->
  fund_loop (length (sort_utxos_desc us)) (sort_utxos_desc us) spk ts amount policy 1 = Ok (Some f).
Proof.
  unfold fund_commit. intros (a & _ & H)%rbind_ok. apply rbind_ok in H as (o & H & E).
  destruct o as [f'|]; [|discriminate]. injection E as <-. exact H.
Qed.

(** C16. A planned commit/reveal pair is balanced: its inputs are the largest
    coins, exactly as many as it takes, and pay the locked amount, the change
    and a fee of at least the policy's for the measured shape, to the last
    sompi; a kept change is not dust; the reveal returns the locked amount minus
    its fee, at least the payout floor; the locked output is the script hash of the
    transfer's inscription; and the measured shapes of both transactions, the commit
    with its change before the fee and the reveal returning the whole locked amount,
    fit every mass limit. *)
Theorem plan_commit_reveal_sound us cfg p :
  summable us -> 0 <= crc_commit_amount_sompi cfg -> policy_ok (crc_fee_policy cfg) ->
  plan_commit_reveal us ts xonly transfer cfg = Ok p ->
  pair_sound (crc_fee_policy cfg) us (crc_commit_amount_sompi cfg) p.
Proof.
  intros Hs Ha Hp. unfold plan_commit_reveal. intros (redeem & Hr & H)%rbind_ok.
  apply rbind_ok in H as (sig & Hsig & H). apply rbind_ok in H as (rm & Hrm & H).
  apply map_err_Ok in Hr, Hrm. apply map_err_Ok in Hsig. unfold reveal_signature_script in Hsig.
  apply map_err_Ok in Hsig.
  destruct (fits_independently rm ke_block_mass_limit) eqn:Erf; [|discriminate]. simpl in H.
  apply rbind_ok in H as (rr & Hrr & H). apply rbind_ok in H as (c & Hc & H).
  destruct (fits_independently (fc_mass c) ke_block_mass_limit) eqn:Ecf; [|discriminate].
  injection H as <-. apply reveal_return_ok in Hrr as [-> Hfl]. apply fund_commit_ok in Hc.
  apply fund_loop_spec in Hc as (n & Hn & Hf & Hk);
    [|intros m; now apply policy_ok_fees|now apply summable_sorted|done].
  constructor; simpl; auto using fits_within; try lia; [|now exists sig].
  exists n. split; [lia|]. split; [|done]. now destruct c.
Qed.

(** Replaying with fees [c] and [r] on the coins of an earlier plan. *)
Lemma fund_with_replay spk amount policy inputs f :
  (forall m, 0 <= commit_fee policy m) -> summable inputs -> 0 <= amount ->
  commit_funded spk ts amount policy inputs f ->
  fund_with inputs spk ts amount (Frozen (fc_fee_sompi f) 0) = Ok (Some f).
Proof.
  intros Hp Hs Ha [Hi Ho Hb (fee & Hg & Hle & Hc) Hch Hm]. unfold fund_with.
  rewrite summable_sum by done. simpl. destruct Hs as [_ Ht]. set (s := total_in inputs) in *.
  destruct (Z.leb_spec s amount); [lia|]. unfold gross_fee in Hg. fold s in Hg.
  destruct (commit_mass inputs spk amount ts (s - amount)) as [m|] eqn:Em; [|discriminate].
  injection Hg as <-. pose proof (Hp m). simpl. destruct f as [ins ch fe ms]. simpl in *. subst ins.
  unfold sat_u64. destruct (Z.ltb_spec s (Z.max 0 (Z.min u64_max (amount + fe)))); [lia|].
  replace (s - amount - fe) with ch by lia.
  destruct Hch as [->|[Hpos Hd]].
  - simpl in *. rewrite Hm. simpl. repeat f_equal; lia.
  - rewrite Hd. destruct (Z.eqb_spec ch 0); [lia|]. simpl.
    destruct (Z.ltb_spec 0 ch); [|lia]. rewrite Em in Hm. injection Hm as ->. done.
Qed.

Lemma fund_with_frozen_reveal inputs spk amount c r r' :
  fund_with inputs spk ts amount (Frozen c r) = fund_with inputs spk ts amount (Frozen c r').
Proof. reflexivity. Qed.

(** A shorter prefix that could not fund the plan and cannot afford the frozen
    fee either is skipped by the replay. *)
Lemma fund_with_skips inputs spk amount policy c :
  summable inputs -> 0 <= amount ->
  too_small spk ts amount policy inputs -> total_in inputs < amount + c ->
  fund_with inputs spk ts amount (Frozen c 0) = Ok None.
Proof.
  intros Hs Ha Hsm Hc. unfold fund_with. rewrite summable_sum by done. simpl.
  destruct Hs as [_ Ht]. destruct (Z.leb_spec (total_in inputs) amount) as [|Hgt]; [done|].
  destruct Hsm as [|(f & Hg & _)]; [lia|]. unfold gross_fee in Hg.
  destruct (commit_mass _ _ _ _ _) as [m|]; [|discriminate]. simpl. unfold sat_u64.
  destruct (Z.ltb_spec (total_in inputs) (Z.max 0 (Z.min u64_max (amount + c)))); [done|lia].
Qed.

(** Frozen fees reproduce the pair: planning again on the same coins with the
    fees of the first plan gives the identical plan, hence the identical commit
    and reveal ids, provided no shorter prefix of the coins could afford the
    locked amount plus the frozen commit fee. *)
Theorem frozen_replay_reproduces us cfg p :
  summable us -> 0 <= crc_commit_amount_sompi cfg -> policy_ok (crc_fee_policy cfg) ->
  plan_commit_reveal us ts xonly transfer cfg = Ok p ->
  (forall k, (k < length (pcr_commit_inputs p))%nat ->
     total_in (firstn k (sort_utxos_desc us)) < crc_commit_amount_sompi cfg + pcr_commit_fee_sompi p) ->
  plan_commit_reveal us ts xonly transfer
    (mkCommitRevealConfig (crc_commit_amount_sompi cfg)
       (Frozen (pcr_commit_fee_sompi p) (pcr_reveal_fee_sompi p))) = Ok p.
Proof.
  intros Hs Ha Hp. unfold plan_commit_reveal at 1 2. cbn [crc_commit_amount_sompi crc_fee_policy].
  intros (redeem & Hr & H)%rbind_ok. rewrite Hr. cbn [rbind].
  apply rbind_ok in H as (sig & Hsig & H). rewrite Hsig. cbn [rbind].
  apply rbind_ok in H as (rm & Hrm & H). rewrite Hrm. cbn [rbind].
  destruct (fits_independently rm ke_block_mass_limit) eqn:Erf; [|discriminate]. cbn [negb reveal_fee] in *.
  apply rbind_ok in H as (rr & Hrr & H). apply rbind_ok in H as (c & Hc & H).
  destruct (fits_independently (fc_mass c) ke_block_mass_limit) eqn:Ecf; [|discriminate].
  injection H as <-. cbn [pcr_commit_inputs pcr_commit_fee_sompi pcr_reveal_fee_sompi].
  intros Hk. rewrite Hrr. cbn [rbind]. pose proof (policy_ok_fees _ Hp) as Hnn.
  assert (forall m, 0 <= commit_fee (crc_fee_policy cfg) m) as Hnc by (intros m; apply Hnn).
  pose proof (summable_sorted _ Hs) as Hss. pose proof (fund_commit_ok _ _ _ _ _ Hc) as Hl.
  apply fund_loop_spec in Hl as (n & Hn & Hf & Hsm); [|done|done|done].
  assert (length (fc_inputs c) = n) as Hlen
    by (destruct Hf as [-> _ _ _ _ _]; rewrite length_firstn; lia).
  unfold fund_commit. rewrite summable_sum by done. simpl.
  rewrite (fund_loop_reaches _ _ _ _ _ c n); [simpl; rewrite Ecf; done|lia| |].
  - intros k Hk'. rewrite (fund_with_frozen_reveal _ _ _ _ _ 0).
    eapply fund_with_skips; [now apply summable_firstn|done|apply Hsm; lia|apply Hk; lia].
  - rewrite (fund_with_frozen_reveal _ _ _ _ _ 0).
    eapply fund_with_replay; [exact Hnc|now apply summable_firstn|done|exact Hf].
Qed.
End Pairs.

(** ** A small concrete chain *)

#[export] Instance demo_calculator : MassCalculator Z := {|
  calc_non_contextual_masses tx :=
    (1000 + 1000 * Z.of_nat (length (tx_inputs tx)) + 300 * Z.of_nat (length (tx_outputs tx)),
     400 * Z.of_nat (length (tx_inputs tx) + length (tx_outputs tx)));
  calc_contextual_masses tx _ :=
    if forallb (fun o => 0 <? to_value o) (tx_outputs tx)
    then Some (sumZ (map (fun o => 10 ^ 12 / to_value o) (tx_outputs tx))) else None;
  output_serialized_size _ := 52
|}.

(** An id that depends on inputs and outputs, not on signatures. *)
Fixpoint le_bytes (n : nat) (z : Z) : bytes :=
  match n with O => [] | S n => z mod 256 :: le_bytes n (z / 256) end.

Definition demo_txid (tx : Transaction Z) : bytes :=
  let ins := fold_left (fun acc i =>
    let o := ti_previous_outpoint i in
    acc * 65537 + fold_left (fun a b => a * 257 + b) (op_transaction_id o) (op_index o + 1))
    (tx_inputs tx) 7 in
  let outs := fold_left (fun acc o => acc * 1000003 + to_value o * 31 + to_script_public_key o)
    (tx_outputs tx) ins in
  le_bytes 32 (outs mod (2 ^ 255 - 19)).

Definition demo_hash (b : bytes) : Z := fold_left (fun a x => (a * 257 + x + 1) mod (2 ^ 61 - 1)) b 1.

Definition demo_quote (s : string) : string :=
  let q := String (Ascii.ascii_of_nat 34) EmptyString in q +:+ s +:+ q.

#[export] Instance demo_inscription : InscriptionEnv Z := {|
  ie_json_quote := demo_quote;
  ie_add_data s d := Ok (s ++ Z.of_nat (length d) :: d);
  ie_add_op s o := Ok (s ++ [o]);
  ie_add_i64 s i := Ok (s ++ [i]);
  ie_OpCheckSig := 172; ie_OpFalse := 0; ie_OpIf := 99; ie_OpEndIf := 104;
  ie_p2sh_script := demo_hash;
  ie_p2sh_signature_script r s := Ok (s ++ r);
  ie_address_of s := Ok (pretty.pretty s);
  ie_xonly := Ok (repeat 3 32);
  ie_sighash _ _ := [];
  ie_sign_schnorr _ := repeat 0 64;
  ie_finalize tx := tx;
  ie_verify _ _ := Ok tt
|}.

(** A node at score 5000 with the given coins, faults and answers to sends. *)
Definition demo_env (coins : nat -> list (TreasuryUtxo Z)) (submit : nat -> result bytes string)
    (fault : nat -> Fault) (daa : Z) : KasEnv Z := {|
  ke_lock _ := Ok true;
  ke_fault := fault;
  ke_virtual_daa_score _ := Ok daa;
  ke_treasury_utxos n := Ok (coins n);
  ke_fee_estimate _ := Ok (f64_of_Z 1);
  ke_submit_transaction n _ := submit n;
  ke_transaction_in_mempool _ _ := Ok false;
  ke_script_of _ := Ok 1;
  ke_treasury_script := 0;
  ke_sign tx _ := Ok tx;
  ke_txid := demo_txid;
  ke_tx_version := 0;
  ke_native_subnetwork := [];
  ke_block_mass_limit := 500000
|}.

Definition demo_coin (i v : Z) : TreasuryUtxo Z :=
  mkTreasuryUtxo (mkOutpoint (repeat 9 32) i) (mkUtxoEntry v 0 5 false None).

Section Samples.
#[local] Instance quiet_env : KasEnv Z :=
  demo_env (fun _ => []) (fun _ => Ok []) (fun _ => NoFault) 5000.

Definition demo_transfer : Krc20Transfer := Krc20Transfer_new "NACHO" "250000000" "zkas:recipient".
Definition demo_cfg : CommitRevealConfig :=
  mkCommitRevealConfig DEFAULT_COMMIT_AMOUNT_SOMPI (Adaptive (from_feerate (f64_of_Z 1))).


Lemma demo_plan_ok :
  exists p, plan_commit_reveal [demo_coin 0 30000000; demo_coin 1 50000000] 0 (repeat 3 32) demo_transfer
    demo_cfg = Ok p /\ length (pcr_commit_inputs p) = 1%nat /\ 0 < pcr_commit_fee_sompi p /\
    pcr_commit_change_sompi p = 29740000.
Proof. eexists. split; [vm_compute; reflexivity|]. repeat split. Defined.

Lemma demo_summable : summable [demo_coin 0 30000000; demo_coin 1 50000000].
Proof. split; [repeat constructor; vm_compute; congruence|vm_compute; congruence]. Defined.

Lemma plan_commit_reveal_sound_witness :
  exists p, pair_sound 0 (repeat 3 32) demo_transfer (crc_fee_policy demo_cfg)
    [demo_coin 0 30000000; demo_coin 1 50000000] DEFAULT_COMMIT_AMOUNT_SOMPI p.
Proof.
  destruct demo_plan_ok as (p & E & _). exists p.
  apply (plan_commit_reveal_sound 0 (repeat 3 32) demo_transfer _ demo_cfg);
    [exact demo_summable|vm_compute; congruence|vm_compute; congruence|exact E].
Defined.

Lemma frozen_replay_reproduces_witness :
  exists p, plan_commit_reveal [demo_coin 0 30000000; demo_coin 1 50000000] 0 (repeat 3 32) demo_transfer
    (mkCommitRevealConfig DEFAULT_COMMIT_AMOUNT_SOMPI
       (Frozen (pcr_commit_fee_sompi p) (pcr_reveal_fee_sompi p))) = Ok p.
Proof.
  destruct demo_plan_ok as (p & E & Hl & Hf & _). exists p.
  apply (frozen_replay_reproduces 0 (repeat 3 32) demo_transfer _ demo_cfg);
    [exact demo_summable|vm_compute; congruence|vm_compute; congruence|exact E|].
  intros k Hk. rewrite Hl in Hk. destruct k; [|lia]. unfold demo_cfg, total_in. simpl in *.
  unfold DEFAULT_COMMIT_AMOUNT_SOMPI. lia.
Defined.

(** A planned commit may exceed the limit it was checked against: a coin of 22.4
    million sompi leaves a gross change of 2.4 million, with which the commit fits;
    the fee cuts the change to 1,933,334 sompi, whose storage mass takes the commit
    that is signed and sent past the limit. *)
Theorem planned_commit_may_exceed :
  exists p m, plan_commit_reveal [demo_coin 0 22400000] 0 (repeat 3 32) demo_transfer demo_cfg = Ok p /\
    pcr_commit_change_sompi p = 1933334 /\
    commit_mass (pcr_commit_inputs p) (pcr_commit_script_public_key p) (pcr_commit_amount_sompi p) 0
      (pcr_commit_change_sompi p) = Ok m /\
    storage_mass (pcr_commit_mass p) = 466666 /\ storage_mass m = 567241 /\ ke_block_mass_limit = 500000.
Proof. eexists _, _. repeat split; vm_compute; reflexivity. Qed.

(** Frozen fees do not always reproduce the commit: when the largest coin
    leaves so little change that its storage mass makes the fee unaffordable, a
    second coin is added and the fee falls; the replay with that lower fee stops
    at the first coin, and the rebuilt commit has another transaction id. *)
Theorem frozen_replay_can_drift :
  let coins := [demo_coin 0 20400000; demo_coin 1 19000000] in
  exists p q, plan_commit_reveal coins 0 (repeat 3 32) demo_transfer demo_cfg = Ok p /\
    plan_commit_reveal coins 0 (repeat 3 32) demo_transfer
      (mkCommitRevealConfig DEFAULT_COMMIT_AMOUNT_SOMPI
         (Frozen (pcr_commit_fee_sompi p) (pcr_reveal_fee_sompi p))) = Ok q /\
    length (pcr_commit_inputs p) = 2%nat /\ length (pcr_commit_inputs q) = 1%nat /\
    commit_txid p 0 <> commit_txid q 0.
Proof.
  eexists _, _. split; [vm_compute; reflexivity|]. split; [vm_compute; reflexivity|].
  split; [reflexivity|]. split; [reflexivity|]. vm_compute. discriminate.
Qed.
End Samples.
