(* ===== verification/Krc20Engine.v ===== *)
(** * The KRC-20 payout engine ([payout-krc20/src/{cycle,execute,engine}.rs])

    Planning and resuming a NACHO cycle, the commit/reveal state machine of one
    transfer, the settlement sweep with its ledger of coins, crediting,
    reconciliation and the tick, as state passing over the database, the log of
    transactions handed to the node and the sweep's ledger.  Node, quote source
    and faults are answered by call index. *)
From stdpp Require Import pretty.
From S2P Require Import Prelude F64 FeeModel Schema Domain AccountDb IngestDb PayoutDb StorageMass KasEngine Krc20Price Krc20Plan.
Open Scope Z_scope.

Class Krc20Env (Script : Type) := {
  (* [client.treasury_utxos] at a commit's P2SH address *)
  xe_p2sh_utxos : nat -> string -> result (list (TreasuryUtxo Script)) string;
  (* [FloorPriceSource::floor_price] *)
  xe_floor_price : nat -> string -> result FloorPrice QuoteError
}.

(** [Krc20EngineError] with the errors it wraps. *)
Inductive Krc20Error :=
| XDb (e : DbError)
| XKaspad (msg : string)
| XQuote (e : QuoteError)
| XRebate (e : RebateError)
| XInscription (e : InscriptionError)
| XAmountTooLarge (wallet_id nacho : Z)
| XCommitAmount (sompi : Z)
| XPlan (e : PlanError)
| XSign (e : Krc20SignError)
| XKey (msg : string)
| XAmount (payout_id : Z) (field : string) (value : Z)
| XMalformedHash (payout_id : Z)
| XMissingHash (payout_id : Z) (kind : string)
| XMissingFee (payout_id : Z) (kind : string)
| XInscriptionMismatch (payout_id : Z) (stored rebuilt : string)
| XCommitDrift (payout_id : Z) (recorded rebuilt : bytes)
| XRevealDrift (payout_id : Z) (recorded rebuilt : bytes)
| XSpanTooSmall (span depth : Z)
| XSpendCapExceeded (total cap : Z).

(** A panic inside the planner ends the process; every other error is a value. *)
Definition is_panic (e : Krc20Error) : bool :=
  match e with XPlan PePanic => true | _ => false end.

Definition NACHO_TICK : string := "NACHO".
Definition KRC20_AUDIT_ACTOR : string := "payout-krc20".
Definition DEFAULT_CYCLE_LIMIT : Z := 1000.

Inductive TransferStep :=
| CommitBroadcast | CommitRebroadcast | CommitPending
| RevealBroadcast | RevealRebroadcast | RevealPending
| StepCompleted | NoChange.

Record SettleReport := mkSettleReport {
  se_commits_broadcast : nat;
  se_reveals_broadcast : nat;
  se_rebroadcasts : nat;
  se_completed : nat;
  se_pending : nat;
  se_errors : list (Z * Z * Krc20Error)
}.

Definition settle_report0 : SettleReport := mkSettleReport 0 0 0 0 0 [].

Definition record (r : SettleReport) (step : TransferStep) : SettleReport :=
  let '(mkSettleReport c v b d p e) := r in
  match step with
  | CommitBroadcast => mkSettleReport (S c) v b d p e
  | RevealBroadcast => mkSettleReport c (S v) b d p e
  | CommitRebroadcast | RevealRebroadcast => mkSettleReport c v (S b) d p e
  | StepCompleted => mkSettleReport c v b (S d) p e
  | CommitPending | RevealPending => mkSettleReport c v b d (S p) e
  | NoChange => r
  end.

Record SweepLedger (Script : Type) := mkLedger {
  sl_consumed : list TransactionOutpoint;
  sl_chained : list (TreasuryUtxo Script)
}.
Arguments mkLedger {Script} _ _.
Arguments sl_consumed {Script} _.
Arguments sl_chained {Script} _.

(** What is handed to the node for a payout row. *)
Inductive SendKind := CommitTx | RevealTx.
#[export] Instance SendKind_eq_dec : EqDecision SendKind.
Proof. solve_decision. Defined.

Record KrcSend (Script : Type) := mkSend {
  ks_kind : SendKind;
  ks_payout : Z;
  ks_tx : Transaction Script;
  ks_answer : result bytes string
}.
Arguments mkSend {Script} _ _ _ _.
Arguments ks_kind {Script} _.
Arguments ks_payout {Script} _.
Arguments ks_tx {Script} _.
Arguments ks_answer {Script} _.

Record KrcWorld (Script : Type) := mkKrcWorld {
  kw_db : Db;
  kw_log : list (KrcSend Script);
  kw_calls : nat;
  kw_ledger : SweepLedger Script
}.
Arguments mkKrcWorld {Script} _ _ _ _.
Arguments kw_db {Script} _.
Arguments kw_log {Script} _.
Arguments kw_calls {Script} _.
Arguments kw_ledger {Script} _.

Record Krc20CycleParams := mkKrc20Params {
  xp_daa_start : Z;
  xp_daa_end : Z;
  xp_min_pending_sompi : Z;
  xp_min_nacho_base_units : Z;
  xp_ticker : string;
  xp_commit_amount_sompi : Z;
  xp_limit : Z
}.

Definition Krc20CycleParams_new (daa_start daa_end : Z) : Krc20CycleParams :=
  mkKrc20Params daa_start daa_end DEFAULT_MIN_PENDING_SOMPI DEFAULT_MIN_NACHO_BASE_UNITS
    DEFAULT_QUOTE_TICKER DEFAULT_COMMIT_AMOUNT_SOMPI DEFAULT_CYCLE_LIMIT.

Record Krc20CycleState := mkKrc20State {
  xs_cycle : PayoutCycle;
  xs_transfers : list Krc20PendingTransfer
}.

Record CreditReport := mkCreditReport {
  cd_credited : nat; cd_already_credited : nat; cd_paid_sompi : Z
}.

Definition credit_report0 : CreditReport := mkCreditReport 0 0 0.

Record Krc20PayoutEngineConfig := mkKrc20Config {
  xc_cycle_span_daa : Z;
  xc_mode : ExecutionMode;
  xc_min_pending_sompi : Z;
  xc_min_nacho_base_units : Z;
  xc_ticker : string;
  xc_commit_amount_sompi : Z;
  xc_batch_limit : Z;
  xc_max_nacho_base_units_per_cycle : option Z
}.

Definition cycle_params (c : Krc20PayoutEngineConfig) (daa_start daa_end : Z) : Krc20CycleParams :=
  mkKrc20Params daa_start daa_end (xc_min_pending_sompi c) (xc_min_nacho_base_units c) (xc_ticker c)
    (xc_commit_amount_sompi c) (xc_batch_limit c).

Definition krc20_engine_new (c : Krc20PayoutEngineConfig) : result Krc20PayoutEngineConfig Krc20Error :=
  if xc_cycle_span_daa c <=? KAS_PAYOUT_CONFIRMATION_DAA
  then Err (XSpanTooSmall (xc_cycle_span_daa c) KAS_PAYOUT_CONFIRMATION_DAA)
  else Ok c.

Record Krc20TickReport := mkKrc20Report {
  xr_cycle_id : Z; xr_virtual_daa : Z; xr_daa_start : Z; xr_daa_end : Z;
  xr_settle : SettleReport; xr_credit : CreditReport; xr_status : PayoutCycleStatus
}.

Inductive Krc20TickOutcome := Krc20Skipped | Krc20Ran (r : Krc20TickReport).

(** Everything derived once per transfer. *)
Record TransferCtx := mkCtx {
  ctx_xonly : bytes;
  ctx_fee_rate : FeeRate;
  ctx_frozen_commit_fee : option Z;
  ctx_frozen_reveal_fee : option Z;
  ctx_inscription : Krc20Transfer;
  ctx_commit_amount_sompi : Z;
  ctx_payout_id : Z;
  ctx_p2sh_address : string
}.

Definition ctx_reveal_fee (c : TransferCtx) : result Z Krc20Error :=
  ok_or (ctx_frozen_reveal_fee c) (XMissingFee (ctx_payout_id c) "reveal").

Definition frozen_policy (c : TransferCtx) : result Krc20FeePolicy Krc20Error :=
  let? commit := ok_or (ctx_frozen_commit_fee c) (XMissingFee (ctx_payout_id c) "commit") in
  let? reveal := ctx_reveal_fee c in
  Ok (Frozen commit reveal).

Definition opt_fee (value : option Z) (payout_id : Z) (field : string) :
    result (option Z) Krc20Error :=
  match value with
  | None => Ok None
  | Some v => let? u := ok_or (u64_try_from v) (XAmount payout_id field v) in Ok (Some u)
  end.

(** [<[u8; 32]>::try_from] behind an optional hash. *)
Definition recorded_txid (hash : option bytes) (payout_id : Z) (kind : string) :
    result bytes Krc20Error :=
  let? b := ok_or hash (XMissingHash payout_id kind) in
  ok_or (bytes32 b) (XMalformedHash payout_id).

(** ** [cycle.rs] *)

Definition count_transfer (c : PayoutStatusCounts) (t : Krc20PendingTransfer) : PayoutStatusCounts :=
  let '(mkCounts n p i d f) := c in
  match kt_status t with
  | KPending => mkCounts n (S p) i d f
  | KCommitSubmitted | KRevealSubmitted => mkCounts n p (S i) d f
  | KCompleted => mkCounts n p i (S d) f
  | KFailed => mkCounts n p i d (S f)
  end.

Definition counts_from_transfers (ts : list Krc20PendingTransfer) : PayoutStatusCounts :=
  fold_left count_transfer ts (mkCounts (length ts) 0 0 0 0).

(** [?] on a pure step inside a transaction: the transaction is rolled back. *)
Definition XDB (A : Type) : Type := Db -> result (A * Db) Krc20Error.
Definition xdb {A} (m : DB A) : XDB A := fun d => map_err XDb (m d).
Definition xpure {A} (r : result A Krc20Error) : XDB A := fun d => let? a := r in Ok (a, d).
Definition xbind {A B} (m : XDB A) (k : A -> XDB B) : XDB B :=
  fun d => match m d with Ok (a, d') => k a d' | Err e => Err e end.

Notation "x <== m ;; k" := (xbind m (fun x => k))
  (at level 100, m at next level, right associativity) : kat_scope.

Section Engine.
Context {Script : Type} `{MC : MassCalculator Script} `{EV : KasEnv Script}
  `{IE : InscriptionEnv Script} `{XE : Krc20Env Script}.

(** The planning transaction: one payout and one transfer row per payable
    wallet. *)
Fixpoint plan_transfers (p : Krc20CycleParams) (price : FloorPrice) (xonly : bytes)
    (commit_amount cycle_id : Z) (eligible : list Krc20EligibleWallet)
    (total recipients : Z) (planned : nat) : XDB (Z * Z * nat) :=
  match eligible with
  | [] => xpure (Ok (total, recipients, planned))
  | w :: eligible =>
      nacho <== xpure (map_err XRebate (nacho_base_units (ke_pending_sompi w) price)) ;;
      if negb (is_payable nacho (xp_min_nacho_base_units p))
      then plan_transfers p price xonly commit_amount cycle_id eligible total recipients planned
      else
        nacho_amount <== xpure (ok_or (i64_try_from nacho) (XAmountTooLarge (ke_wallet_id w) nacho)) ;;
        let transfer := Krc20Transfer_new (xp_ticker p) (pretty nacho_amount) (ke_address w) in
        redeem <== xpure (map_err XInscription (build_transfer_inscription xonly transfer)) ;;
        p2sh <== xpure (map_err XInscription (commit_address redeem)) ;;
        row <== xdb (ensure_payout cycle_id (ke_wallet_id w) (ke_pending_sompi w)) ;;
        _ <== xdb (ensure_krc20_pending (po_id row) commit_amount nacho_amount p2sh) ;;
        plan_transfers p price xonly commit_amount cycle_id eligible
          (sat_i64 (total + ke_pending_sompi w)) (sat_i32 (recipients + 1)) (S planned)
  end.

Definition plan_krc20_tx (p : Krc20CycleParams) (price : FloorPrice) (xonly : bytes)
    (commit_amount : Z) : XDB PayoutCycle :=
  cycle <== xdb (create_cycle Krc20Nacho (xp_daa_start p) (xp_daa_end p)) ;;
  eligible <== xdb (list_krc20_eligible_wallets (xp_min_pending_sompi p) (xp_limit p)) ;;
  totals <== plan_transfers p price xonly commit_amount (cy_id cycle) eligible 0 0 0 ;;
  let '(total, recipients, planned) := totals in
  _ <== xdb (set_cycle_totals (cy_id cycle) total recipients) ;;
  _ <== xdb (audit_append
        (ne_with_payload
           [("idempotency_key", JStr (cy_idempotency_key cycle));
            ("eligible", JNum (Z.of_nat (length eligible)));
            ("planned", JNum (Z.of_nat planned)); ("total_sompi", JNum total);
            ("floor_price_mantissa", JStr (pretty (fp_mantissa price)));
            ("floor_price_scale", JNum (fp_scale price))]%string
           (ne_subject "payout_cycle" (cy_id cycle)
              (NewEntry_new KRC20_AUDIT_ACTOR "krc20_cycle.plan")))) ;;
  xpure (Ok cycle).

(** Confirming a payout and paying its rebate in one transaction; [false] when
    it was confirmed before. *)
Definition credit_tx (t : Krc20PendingTransfer) (row : Payout) : DB bool :=
  fresh <-- confirm_krc20_payout_once (kt_payout_id t) ;;
  if fresh then
    mark_paid (po_wallet_id row) (po_amount_sompi row) ;;;
    audit_append
      (ne_with_payload
         [("wallet_id", JNum (po_wallet_id row)); ("paid_sompi", JNum (po_amount_sompi row));
          ("nacho_amount", JNum (kt_nacho_amount t))]%string
         (ne_subject "payout" (kt_payout_id t) (NewEntry_new KRC20_AUDIT_ACTOR "krc20.credit"))) ;;;
    db_ret true
  else db_ret false.

Definition fail_krc20_transfer (payout_id : Z) (reason : string) : DB unit :=
  mark_krc20_failed payout_id ;;;
  mark_payout_failed payout_id reason ;;;
  audit_append
    (ne_with_payload [("reason", JStr reason)]%string
       (ne_subject "payout" payout_id (NewEntry_new KRC20_AUDIT_ACTOR "krc20.fail"))) ;;;
  db_ret tt.

Definition krc20_reconcile_tx (cycle_id : Z) (counts : PayoutStatusCounts)
    (derived : PayoutCycleStatus) : DB unit :=
  (match derived with
   | CyPlanned => db_ret tt
   | CyBroadcasting => mark_cycle_broadcasting cycle_id
   | CyPartiallySettled =>
       mark_cycle_broadcasting cycle_id ;;; mark_cycle_partially_settled cycle_id
   | CySettled => mark_cycle_broadcasting cycle_id ;;; mark_cycle_settled cycle_id
   | CyFailed => mark_cycle_failed cycle_id
   end) ;;;
  audit_append
    (ne_with_payload
       [("total", JNum (Z.of_nat (pc_total counts))); ("pending", JNum (Z.of_nat (pc_pending counts)));
        ("in_flight", JNum (Z.of_nat (pc_in_flight counts)));
        ("confirmed", JNum (Z.of_nat (pc_confirmed counts)));
        ("failed", JNum (Z.of_nat (pc_failed counts)));
        ("derived", JStr (debug_status derived))]%string
       (ne_subject "payout_cycle" cycle_id
          (NewEntry_new KRC20_AUDIT_ACTOR "krc20_cycle.reconcile"))) ;;;
  db_ret tt.

(** Recording a commit's fees, hash and state, and a reveal's hash and state. *)
Definition record_commit_tx (payout_id commit_fee reveal_fee : Z) (commit_id : bytes) : DB unit :=
  record_krc20_fees payout_id commit_fee reveal_fee ;;;
  record_krc20_commit_hash payout_id commit_id ;;;
  mark_krc20_commit_submitted payout_id.

Definition record_reveal_tx (payout_id : Z) (reveal_id : bytes) : DB unit :=
  record_krc20_reveal_hash payout_id reveal_id ;;;
  mark_krc20_reveal_submitted payout_id.

(** ** The engine's monad *)

Definition KM (A : Type) : Type := KrcWorld Script -> KrcWorld Script * result A Krc20Error.

Definition kret {A} (a : A) : KM A := fun w => (w, Ok a).
Definition kfail {A} (e : Krc20Error) : KM A := fun w => (w, Err e).
Definition klift {A} (r : result A Krc20Error) : KM A := fun w => (w, r).
Definition kbind {A B} (m : KM A) (k : A -> KM B) : KM B :=
  fun w => match m w with
           | (w', Ok a) => k a w'
           | (w', Err e) => (w', Err e)
           end.
Notation "x <~ m ;; k" := (kbind m (fun x => k))
  (at level 100, m at next level, right associativity).

Definition k_tick (w : KrcWorld Script) : KrcWorld Script :=
  mkKrcWorld (kw_db w) (kw_log w) (S (kw_calls w)) (kw_ledger w).
Definition k_with_db (d : Db) (w : KrcWorld Script) : KrcWorld Script :=
  mkKrcWorld d (kw_log w) (kw_calls w) (kw_ledger w).

(** One database call or transaction, with the environment's fault. *)
Definition kcall {A} (m : XDB A) : KM A :=
  fun w =>
    let w1 := k_tick w in
    match ke_fault (kw_calls w) with
    | FailBefore => (w1, Err (XDb Connection))
    | NoFault =>
        match m (kw_db w) with
        | Ok (a, d) => (k_with_db d w1, Ok a)
        | Err e => (w1, Err e)
        end
    | FailAfter =>
        match m (kw_db w) with
        | Ok (_, d) => (k_with_db d w1, Err (XDb Connection))
        | Err e => (w1, Err e)
        end
    end.

Definition kcall_db {A} (m : DB A) : KM A := kcall (xdb m).

Definition kcall_node {A} (f : nat -> result A string) : KM A :=
  fun w => (k_tick w, map_err XKaspad (f (kw_calls w))).

Definition kcall_node_try {A} (f : nat -> result A string) : KM (result A string) :=
  fun w => (k_tick w, Ok (f (kw_calls w))).

Definition kcall_quote (ticker : string) : KM FloorPrice :=
  fun w => (k_tick w, map_err XQuote (xe_floor_price (kw_calls w) ticker)).

Definition kcall_lock : KM bool :=
  fun w => (k_tick w, map_err XDb (ke_lock (kw_calls w))).

(** [client.submit_transaction(..)?]: the attempt left the process whatever the
    node answers. *)
Definition kcall_submit (kind : SendKind) (payout_id : Z) (tx : Transaction Script) : KM bytes :=
  fun w =>
    let out := ke_submit_transaction (kw_calls w) tx in
    (mkKrcWorld (kw_db w) (kw_log w ++ [mkSend kind payout_id tx out]) (S (kw_calls w)) (kw_ledger w),
     map_err XKaspad out).

(** ** The sweep's ledger *)

Definition reconcile (l : SweepLedger Script) (utxos : list (TreasuryUtxo Script)) :
    list (TreasuryUtxo Script) :=
  match sl_consumed l, sl_chained l with
  | [], [] => utxos
  | _, _ =>
      List.filter (fun u => negb (bool_decide (tu_outpoint u ∈ sl_consumed l))) utxos ++ sl_chained l
  end.

Definition note_commit (l : SweepLedger Script) (commit_id : bytes) (plan : PlannedCommitReveal Script)
    (treasury_script : Script) : SweepLedger Script :=
  let consumed := sl_consumed l ++ map tu_outpoint (pcr_commit_inputs plan) in
  let chained := List.filter (fun u => negb (bool_decide (tu_outpoint u ∈ consumed))) (sl_chained l) in
  mkLedger consumed
    (if 0 <? pcr_commit_change_sompi plan
     then chained ++ [mkTreasuryUtxo (mkOutpoint commit_id COMMIT_CHANGE_OUTPUT_INDEX)
                        (mkUtxoEntry (pcr_commit_change_sompi plan) treasury_script 0 false None)]
     else chained).

Definition update_ledger (f : SweepLedger Script -> SweepLedger Script) : KM unit :=
  fun w => (mkKrcWorld (kw_db w) (kw_log w) (kw_calls w) (f (kw_ledger w)), Ok tt).

(** ** [execute.rs] *)

Definition fetch_spendable_utxos : KM (list (TreasuryUtxo Script)) :=
  virtual_daa <~ kcall_node ke_virtual_daa_score ;;
  hashes <~ kcall_db in_flight_spend_tx_hashes ;;
  snapshots <~ kcall_node ke_treasury_utxos ;;
  kret (spendable_coins virtual_daa (omap bytes32 hashes) snapshots).

Definition plan_from_utxos (ctx : TransferCtx) (utxos : list (TreasuryUtxo Script))
    (fee_policy : Krc20FeePolicy) : result (PlannedCommitReveal Script) Krc20Error :=
  map_err XPlan
    (plan_commit_reveal utxos ke_treasury_script (ctx_xonly ctx) (ctx_inscription ctx)
       (mkCommitRevealConfig (ctx_commit_amount_sompi ctx) fee_policy)).

Definition verify_p2sh (ctx : TransferCtx) (plan : PlannedCommitReveal Script) :
    result unit Krc20Error :=
  let? rebuilt := map_err XInscription (commit_address (pcr_redeem_script plan)) in
  if String.eqb rebuilt (ctx_p2sh_address ctx) then Ok tt
  else Err (XInscriptionMismatch (ctx_payout_id ctx) (ctx_p2sh_address ctx) rebuilt).

Definition handle_pending (ctx : TransferCtx) (mode : ExecutionMode) : KM TransferStep :=
  utxos <~ fetch_spendable_utxos ;;
  utxos <~ (fun w => (w, Ok (reconcile (kw_ledger w) utxos))) ;;
  plan <~ klift (plan_from_utxos ctx utxos (Adaptive (ctx_fee_rate ctx))) ;;
  _ <~ klift (verify_p2sh ctx plan) ;;
  signed <~ klift (map_err (fun e => XSign (CommitSign e)) (sign_commit plan ke_treasury_script)) ;;
  let commit_id := ke_txid (sb_tx signed) in
  _ <~ update_ledger (fun l => note_commit l commit_id plan ke_treasury_script) ;;
  match mode with
  | DryRun => kret NoChange
  | Live =>
      commit_fee <~ klift (ok_or (i64_try_from (pcr_commit_fee_sompi plan))
                             (XAmount (ctx_payout_id ctx) "commit_fee_sompi" i64_max)) ;;
      reveal_fee <~ klift (ok_or (i64_try_from (pcr_reveal_fee_sompi plan))
                             (XAmount (ctx_payout_id ctx) "reveal_fee_sompi" i64_max)) ;;
      _ <~ kcall_db (record_commit_tx (ctx_payout_id ctx) commit_fee reveal_fee commit_id) ;;
      _ <~ kcall_submit CommitTx (ctx_payout_id ctx) (sb_tx signed) ;;
      kret CommitBroadcast
  end.

Definition broadcast_reveal (ctx : TransferCtx) (reveal_plan : PlannedCommitReveal Script)
    (commit_outpoint : TransactionOutpoint) (mode : ExecutionMode) : KM TransferStep :=
  signed <~ klift (map_err XSign (sign_reveal reveal_plan commit_outpoint ke_treasury_script)) ;;
  match mode with
  | DryRun => kret NoChange
  | Live =>
      _ <~ kcall_db (record_reveal_tx (ctx_payout_id ctx) (ke_txid (sr_tx signed))) ;;
      _ <~ kcall_submit RevealTx (ctx_payout_id ctx) (sr_tx signed) ;;
      kret RevealBroadcast
  end.

(** The commit is neither on chain nor in the mempool: rebuild it from the live
    coins with the frozen fees, and send it only if it is the recorded one. *)
Definition rebroadcast_commit (ctx : TransferCtx) (recorded : bytes) : KM TransferStep :=
  utxos <~ fetch_spendable_utxos ;;
  policy <~ klift (frozen_policy ctx) ;;
  plan <~ klift (plan_from_utxos ctx utxos policy) ;;
  rebuilt <~ klift (map_err (fun e => XSign (CommitSign e)) (commit_txid plan ke_treasury_script)) ;;
  if negb (bool_decide (rebuilt = recorded))
  then kfail (XCommitDrift (ctx_payout_id ctx) recorded rebuilt)
  else
    signed <~ klift (map_err (fun e => XSign (CommitSign e)) (sign_commit plan ke_treasury_script)) ;;
    _ <~ kcall_submit CommitTx (ctx_payout_id ctx) (sb_tx signed) ;;
    kret CommitRebroadcast.

Definition reveal_plan_of (ctx : TransferCtx) : result (PlannedCommitReveal Script) Krc20Error :=
  let? fee := ctx_reveal_fee ctx in
  map_err XPlan (reveal_only (ctx_xonly ctx) (ctx_inscription ctx) (ctx_commit_amount_sompi ctx) fee).

Definition handle_commit_submitted (ctx : TransferCtx) (row : Payout) (mode : ExecutionMode) :
    KM TransferStep :=
  recorded <~ klift (recorded_txid (po_krc20_commit_hash row) (ctx_payout_id ctx) "commit") ;;
  reveal_plan <~ klift (reveal_plan_of ctx) ;;
  commit_addr <~ klift (map_err XInscription (commit_address (pcr_redeem_script reveal_plan))) ;;
  let commit_outpoint := mkOutpoint recorded COMMIT_P2SH_OUTPUT_INDEX in
  virtual_daa <~ kcall_node ke_virtual_daa_score ;;
  p2sh_utxos <~ kcall_node (fun n => xe_p2sh_utxos n commit_addr) ;;
  match List.find (fun s => bool_decide (tu_outpoint s = commit_outpoint)) p2sh_utxos with
  | Some s =>
      if is_spendable (ue_block_daa_score (tu_entry s)) (ue_is_coinbase (tu_entry s)) virtual_daa
      then broadcast_reveal ctx reveal_plan commit_outpoint mode
      else kret CommitPending
  | None =>
      in_mempool <~ kcall_node (fun n => ke_transaction_in_mempool n recorded) ;;
      if in_mempool : bool then kret CommitPending
      else
        match mode with
        | DryRun => kret NoChange
        | Live => rebroadcast_commit ctx recorded
        end
  end.

(** The reveal is neither on chain nor in the mempool: rebuild it from the
    recorded commit, and send it only if it is the recorded one. *)
Definition rebroadcast_reveal (ctx : TransferCtx) (row : Payout) (reveal_recorded : bytes) :
    KM TransferStep :=
  commit_recorded <~ klift (recorded_txid (po_krc20_commit_hash row) (ctx_payout_id ctx) "commit") ;;
  let commit_outpoint := mkOutpoint commit_recorded COMMIT_P2SH_OUTPUT_INDEX in
  reveal_plan <~ klift (reveal_plan_of ctx) ;;
  let rebuilt := reveal_txid reveal_plan commit_outpoint ke_treasury_script in
  if negb (bool_decide (rebuilt = reveal_recorded))
  then kfail (XRevealDrift (ctx_payout_id ctx) reveal_recorded rebuilt)
  else
    signed <~ klift (map_err XSign (sign_reveal reveal_plan commit_outpoint ke_treasury_script)) ;;
    _ <~ kcall_submit RevealTx (ctx_payout_id ctx) (sr_tx signed) ;;
    kret RevealRebroadcast.

Definition handle_reveal_submitted (ctx : TransferCtx) (row : Payout) (mode : ExecutionMode) :
    KM TransferStep :=
  reveal_recorded <~ klift (recorded_txid (po_krc20_reveal_hash row) (ctx_payout_id ctx) "reveal") ;;
  virtual_daa <~ kcall_node ke_virtual_daa_score ;;
  treasury_utxos <~ kcall_node ke_treasury_utxos ;;
  let on_chain_daa :=
    option_map (fun s => ue_block_daa_score (tu_entry s))
      (List.find (fun s => bool_decide (op_transaction_id (tu_outpoint s) = reveal_recorded))
         treasury_utxos) in
  in_mempool <~ (match on_chain_daa with
                 | Some _ => kret false
                 | None => kcall_node (fun n => ke_transaction_in_mempool n reveal_recorded)
                 end) ;;
  match classify_confirmation (mkInputs virtual_daa in_mempool on_chain_daa None) with
  | CsConfirmed =>
      match mode with
      | DryRun => kret NoChange
      | Live =>
          _ <~ kcall_db (mark_krc20_completed (ctx_payout_id ctx)) ;;
          kret StepCompleted
      end
  | CsAccepted | CsPending => kret RevealPending
  | CsUnknown =>
      match mode with
      | DryRun => kret NoChange
      | Live => rebroadcast_reveal ctx row reveal_recorded
      end
  end.

Definition transfer_ctx (fee_rate : FeeRate) (t : Krc20PendingTransfer) (xonly : bytes)
    (recipient : Wallet) : result TransferCtx Krc20Error :=
  let id := kt_payout_id t in
  let? nacho_amount := ok_or (u64_try_from (kt_nacho_amount t))
                         (XAmount id "nacho_amount" (kt_nacho_amount t)) in
  let? commit_amount := ok_or (u64_try_from (kt_sompi_to_miner t))
                          (XAmount id "sompi_to_miner" (kt_sompi_to_miner t)) in
  let? commit := opt_fee (kt_commit_fee_sompi t) id "commit" in
  let? reveal := opt_fee (kt_reveal_fee_sompi t) id "reveal" in
  Ok (mkCtx xonly fee_rate commit reveal
        (Krc20Transfer_new NACHO_TICK (pretty nacho_amount) (w_address recipient))
        commit_amount id (kt_p2sh_address t)).

Definition advance_transfer (fee_rate : FeeRate) (t : Krc20PendingTransfer) (mode : ExecutionMode) :
    KM TransferStep :=
  if krc20_status_in [KCompleted; KFailed] t then kret NoChange
  else
    xonly <~ klift (map_err XKey ie_xonly) ;;
    row <~ kcall_db (get_payout (kt_payout_id t)) ;;
    recipient <~ kcall_db (wallet_get_by_id (po_wallet_id row)) ;;
    ctx <~ klift (transfer_ctx fee_rate t xonly recipient) ;;
    match kt_status t with
    | KPending => handle_pending ctx mode
    | KCommitSubmitted => handle_commit_submitted ctx row mode
    | KRevealSubmitted => handle_reveal_submitted ctx row mode
    | KCompleted | KFailed => kret NoChange
    end.

(** One bad transfer never blocks the others: only a panic ends the sweep. *)
Fixpoint settle_loop (fee_rate : FeeRate) (ts : list Krc20PendingTransfer) (mode : ExecutionMode)
    (report : SettleReport) : KM SettleReport :=
  match ts with
  | [] => kret report
  | t :: ts =>
      fun w =>
        match advance_transfer fee_rate t mode w with
        | (w', Ok step) => settle_loop fee_rate ts mode (record report step) w'
        | (w', Err e) =>
            if is_panic e then (w', Err e)
            else
              settle_loop fee_rate ts mode
                (mkSettleReport (se_commits_broadcast report) (se_reveals_broadcast report)
                   (se_rebroadcasts report) (se_completed report) (se_pending report)
                   (se_errors report ++ [(kt_id t, kt_payout_id t, e)])) w'
        end
  end.

Definition settle_pending (limit : Z) (mode : ExecutionMode) : KM SettleReport :=
  transfers <~ kcall_db (list_krc20_by_status [KPending; KCommitSubmitted; KRevealSubmitted] limit) ;;
  estimate <~ kcall_node_try ke_fee_estimate ;;
  let fee_rate := from_feerate (match estimate with Ok f => f | Err _ => f64_zero end) in
  _ <~ update_ledger (fun _ => mkLedger [] []) ;;
  settle_loop fee_rate transfers mode settle_report0.

(** ** [cycle.rs]: effects *)

Definition plan_krc20_cycle (xonly : bytes) (p : Krc20CycleParams) : KM Krc20CycleState :=
  price <~ kcall_quote (xp_ticker p) ;;
  commit_amount <~ klift (ok_or (i64_try_from (xp_commit_amount_sompi p))
                            (XCommitAmount (xp_commit_amount_sompi p))) ;;
  cycle <~ kcall (plan_krc20_tx p price xonly commit_amount) ;;
  row <~ kcall_db (get_cycle (cy_id cycle)) ;;
  transfers <~ kcall_db (list_krc20_for_cycle (cy_id cycle)) ;;
  kret (mkKrc20State row transfers).

Definition resume_or_plan_krc20_cycle (xonly : bytes) (p : Krc20CycleParams) : KM Krc20CycleState :=
  let key := idempotency_key Krc20Nacho (xp_daa_start p) (xp_daa_end p) in
  found <~ kcall_db (find_cycle_by_idempotency_key key) ;;
  match found with
  | Some cycle =>
      transfers <~ kcall_db (list_krc20_for_cycle (cy_id cycle)) ;;
      _ <~ kcall_db (audit_append
             (ne_with_payload
                [("idempotency_key", JStr (cy_idempotency_key cycle));
                 ("status", JStr (debug_status (cy_status cycle)));
                 ("transfers", JNum (Z.of_nat (length transfers)))]%string
                (ne_subject "payout_cycle" (cy_id cycle)
                   (NewEntry_new KRC20_AUDIT_ACTOR "krc20_cycle.resume")))) ;;
      kret (mkKrc20State cycle transfers)
  | None => plan_krc20_cycle xonly p
  end.

Fixpoint credit_loop (ts : list Krc20PendingTransfer) (report : CreditReport) : KM CreditReport :=
  match ts with
  | [] => kret report
  | t :: ts =>
      row <~ kcall_db (get_payout (kt_payout_id t)) ;;
      fresh <~ kcall_db (credit_tx t row) ;;
      credit_loop ts
        (if fresh : bool
         then mkCreditReport (S (cd_credited report)) (cd_already_credited report)
                (sat_i64 (cd_paid_sompi report + po_amount_sompi row))
         else mkCreditReport (cd_credited report) (S (cd_already_credited report))
                (cd_paid_sompi report))
  end.

Definition credit_completed_transfers (limit : Z) : KM CreditReport :=
  completed <~ kcall_db (list_krc20_by_status [KCompleted] limit) ;;
  credit_loop completed credit_report0.

Definition reconcile_krc20_cycle_status (cycle_id : Z) : KM PayoutCycleStatus :=
  transfers <~ kcall_db (list_krc20_for_cycle cycle_id) ;;
  let counts := counts_from_transfers transfers in
  let derived := derive_cycle_status counts in
  _ <~ kcall_db (krc20_reconcile_tx cycle_id counts derived) ;;
  kret derived.

(** ** [engine.rs] *)

Context (cfg : Krc20PayoutEngineConfig).

Definition outbound_nacho (ts : list Krc20PendingTransfer) : Z :=
  fold_left (fun acc t => sat_i64 (acc + kt_nacho_amount t))
    (List.filter (fun t => negb (krc20_status_in [KFailed] t)) ts) 0.

Definition krc20_run_locked : KM Krc20TickOutcome :=
  xonly <~ klift (map_err XKey ie_xonly) ;;
  virtual_daa <~ kcall_node ke_virtual_daa_score ;;
  let window := cycle_window virtual_daa (xc_cycle_span_daa cfg) in
  state <~ resume_or_plan_krc20_cycle xonly (cycle_params cfg (fst window) (snd window)) ;;
  let cycle_id := cy_id (xs_cycle state) in
  let outbound := outbound_nacho (xs_transfers state) in
  if over_spend_cap outbound (xc_max_nacho_base_units_per_cycle cfg)
  then kfail (XSpendCapExceeded outbound (default 0 (xc_max_nacho_base_units_per_cycle cfg)))
  else
    settle <~ settle_pending (xc_batch_limit cfg) (xc_mode cfg) ;;
    credit <~ (if is_dry_run (xc_mode cfg) then kret credit_report0
               else credit_completed_transfers (xc_batch_limit cfg)) ;;
    status <~ reconcile_krc20_cycle_status cycle_id ;;
    kret (Krc20Ran (mkKrc20Report cycle_id virtual_daa (fst window) (snd window) settle credit status)).

Definition krc20_run_once : KM Krc20TickOutcome :=
  leader <~ kcall_lock ;;
  match leader with
  | false => kret Krc20Skipped
  | true => krc20_run_locked
  end.
End Engine.
