(* ===== verification/Krc20Safety.v ===== *)
(** * Safety of the KRC-20 engine

    How each database transaction of a tick may change the payout and transfer
    rows, and the invariant that ties those rows to what was handed to the node:
    a transaction is sent for a payout only under the id its row records. *)
From S2P Require Import Prelude F64 FeeModel Schema Domain AccountDb IngestDb PayoutDb StorageMass KasEngine Krc20Price Krc20Plan Krc20Engine.
Open Scope Z_scope.

(** ** How rows may change *)

(** The stage of a transfer; a failed one stays where nothing more is sent. *)
Definition rank (s : Krc20TransferStatus) : Z :=
  match s with KPending => 0 | KCommitSubmitted => 1 | KRevealSubmitted => 2 | KCompleted | KFailed => 3 end.

Definition hash_of (k : SendKind) (p : Payout) : option bytes :=
  match k with CommitTx => po_krc20_commit_hash p | RevealTx => po_krc20_reveal_hash p end.

Record tables_wf (d : Db) : Prop := {
  tw_ids : List.NoDup (map po_id (db_payouts d));
  tw_lt : Forall (fun p => po_id p < db_seq d) (db_payouts d);
  tw_kids : List.NoDup (map kt_payout_id (db_krc20 d))
}.

(** Every row survives with its id, transfers only move forward, and hashes and
    statuses change for the transfer [o] alone. *)
Definition framed (o : option Z) (d d' : Db) : Prop :=
  (forall p, In p (db_payouts d) -> exists p', In p' (db_payouts d') /\ po_id p' = po_id p /\
     (o <> Some (po_id p) -> forall k, hash_of k p' = hash_of k p)) /\
  (forall k, In k (db_krc20 d) -> exists k', In k' (db_krc20 d') /\ kt_payout_id k' = kt_payout_id k /\
     rank (kt_status k) <= rank (kt_status k') /\
     (o <> Some (kt_payout_id k) -> kt_status k' = kt_status k)).

Definition evolves (o : option Z) (d d' : Db) : Prop :=
  tables_wf d -> tables_wf d' /\ framed o d d'.

Lemma framed_refl o d : framed o d d.
Proof. split; intros x Hx; exists x; auto with lia. Qed.

Lemma framed_trans o d1 d2 d3 : framed o d1 d2 -> framed o d2 d3 -> framed o d1 d3.
Proof.
  intros [P1 K1] [P2 K2]. split.
  - intros p Hp. destruct (P1 p Hp) as (p' & Hp' & E & H). destruct (P2 p' Hp') as (p'' & Hp'' & E' & H').
    exists p''. split; [done|]. split; [congruence|]. intros Ho k. rewrite H' by congruence. auto.
  - intros k Hk. destruct (K1 k Hk) as (k' & Hk' & E & R & H).
    destruct (K2 k' Hk') as (k'' & Hk'' & E' & R' & H').
    exists k''. split; [done|]. split; [congruence|]. split; [lia|]. intros Ho. rewrite H' by congruence. auto.
Qed.

Lemma framed_weaken o d d' : framed None d d' -> framed o d d'.
Proof.
  intros [P K]. split.
  - intros p Hp. destruct (P p Hp) as (p' & ? & ? & H). exists p'. split; [done|]. split; [done|].
    intros _. now apply H.
  - intros k Hk. destruct (K k Hk) as (k' & ? & ? & ? & H). exists k'. repeat (split; [done|]).
    intros _. now apply H.
Qed.

Lemma evolves_trans o d1 d2 d3 : evolves o d1 d2 -> evolves o d2 d3 -> evolves o d1 d3.
Proof.
  intros H1 H2 W. destruct (H1 W) as [W2 F1]. destruct (H2 W2) as [W3 F2].
  split; [done|]. eapply framed_trans; eauto.
Qed.

Lemma evolves_weaken o d d' : evolves None d d' -> evolves o d d'.
Proof. intros H W. destruct (H W). split; [done|]. now apply framed_weaken. Qed.

Lemma evolves_same o d d' :
  db_payouts d' = db_payouts d -> db_krc20 d' = db_krc20 d -> db_seq d <= db_seq d' -> evolves o d d'.
Proof.
  intros E1 E2 Hs [H1 H2 H3]. split.
  - constructor; rewrite ?E1, ?E2; auto. eapply List.Forall_impl; [|exact H2]. simpl. lia.
  - unfold framed. rewrite E1, E2. apply framed_refl.
Qed.

Lemma evolves_map o d d' f g :
  db_payouts d' = map f (db_payouts d) -> db_krc20 d' = map g (db_krc20 d) -> db_seq d' = db_seq d ->
  (forall p, po_id (f p) = po_id p /\ (o <> Some (po_id p) -> forall k, hash_of k (f p) = hash_of k p)) ->
  (forall k, kt_payout_id (g k) = kt_payout_id k /\ rank (kt_status k) <= rank (kt_status (g k)) /\
     (o <> Some (kt_payout_id k) -> kt_status (g k) = kt_status k)) ->
  evolves o d d'.
Proof.
  intros E1 E2 Es Hf Hg [H1 H2 H3]. split.
  - constructor; rewrite ?E1, ?E2, ?Es, ?List.Forall_map, ?map_map.
    + erewrite map_ext; [exact H1|]. intros p. apply Hf.
    + eapply List.Forall_impl; [|exact H2]. intros p. simpl. now rewrite (proj1 (Hf p)).
    + erewrite map_ext; [exact H3|]. intros k. apply Hg.
  - split; intros x Hx; [exists (f x)|exists (g x)]; rewrite ?E1, ?E2; (split; [now apply in_map|]);
      [apply Hf|apply Hg].
Qed.

Lemma evolves_add_payout d d' p :
  db_payouts d' = db_payouts d ++ [p] -> db_krc20 d' = db_krc20 d -> po_id p = db_seq d ->
  db_seq d' = db_seq d + 1 -> evolves None d d'.
Proof.
  intros E1 E2 Ep Es [H1 H2 H3]. split.
  - constructor; rewrite ?E1, ?E2, ?Es; auto.
    + rewrite map_app. simpl. apply NoDup_app_snoc; [done|]. rewrite in_map_iff. intros (q & Eq & Hq).
      rewrite List.Forall_forall in H2. specialize (H2 q Hq). lia.
    + rewrite List.Forall_app. split; [eapply List.Forall_impl; [|exact H2]; simpl; lia|].
      constructor; [lia|constructor].
  - split; [|rewrite E2; apply framed_refl]. intros q Hq. exists q. rewrite E1, in_app_iff. auto.
Qed.

Lemma evolves_add_krc20 d d' k :
  db_payouts d' = db_payouts d -> db_krc20 d' = db_krc20 d ++ [k] ->
  ~ In (kt_payout_id k) (map kt_payout_id (db_krc20 d)) -> db_seq d <= db_seq d' -> evolves None d d'.
Proof.
  intros E1 E2 Hn Hs [H1 H2 H3]. split.
  - constructor; rewrite ?E1, ?E2; auto.
    + eapply List.Forall_impl; [|exact H2]. simpl. lia.
    + rewrite map_app. simpl. now apply NoDup_app_snoc.
  - split; [rewrite E1; apply framed_refl|]. intros q Hq. exists q. rewrite E2, in_app_iff. auto with lia.
Qed.

(** ** The transactions of a tick *)

Definition steps {A} (o : option Z) (m : XDB A) : Prop :=
  forall d a d', m d = Ok (a, d') -> evolves o d d'.

Lemma steps_bind {A B} o (m : XDB A) (k : A -> XDB B) :
  steps o m -> (forall a, steps o (k a)) -> steps o (xbind m k).
Proof.
  intros Hm Hk d b d' H. unfold xbind in H. destruct (m d) as [[a d1]|] eqn:E; [|discriminate].
  eapply evolves_trans; [eapply Hm, E|eapply Hk, H].
Qed.

Lemma steps_pure {A} o (r : result A Krc20Error) : steps o (xpure r).
Proof.
  intros d a d' H. unfold xpure in H. apply rbind_ok in H as (x & _ & [= <- <-]).
  apply evolves_same; auto; lia.
Qed.

(** The same for a plain database action. *)
Definition dsteps {A} (o : option Z) (m : DB A) : Prop :=
  forall d a d', m d = Ok (a, d') -> evolves o d d'.

Lemma steps_xdb {A} o (m : DB A) : dsteps o m -> steps o (xdb m).
Proof.
  intros H d a d' E. unfold xdb in E. destruct (m d) as [[x d1]|] eqn:Em; [|discriminate].
  injection E as <- <-. eapply H, Em.
Qed.

Lemma dsteps_bind {A B} o (m : DB A) (k : A -> DB B) :
  dsteps o m -> (forall a, dsteps o (k a)) -> dsteps o (db_bind m k).
Proof.
  intros Hm Hk d b d' (a & d1 & H1 & H2)%db_bind_ok.
  eapply evolves_trans; [eapply Hm, H1|eapply Hk, H2].
Qed.

Lemma dsteps_ret {A} o (a : A) : dsteps o (db_ret a).
Proof. intros d x d' [= _ <-]. apply evolves_same; auto; lia. Qed.

Lemma dsteps_read {A} o (f : Db -> A) : dsteps o (db_read f).
Proof. intros d x d' [= _ <-]. apply evolves_same; auto; lia. Qed.

Lemma dsteps_read_checked {A} o (f : Db -> result A DbError) : dsteps o (db_read_checked f).
Proof. intros d x d' H. apply db_read_checked_same in H as ->. apply evolves_same; auto; lia. Qed.

Lemma dsteps_audit o e : dsteps o (audit_append e).
Proof. intros d x d' [= _ <-]. apply evolves_same; simpl; auto; lia. Qed.

Lemma dsteps_cycles o p f : dsteps o (update_cycles p f).
Proof.
  intros d n d' H. unfold update_cycles in H. destruct (tbl_update _ _ _ _) as [[rows m]|]; [|discriminate].
  injection H as _ <-. apply evolves_same; simpl; auto; lia.
Qed.

Lemma dsteps_rebate o w f : dsteps o (update_rebate w f).
Proof.
  intros d r d' H. unfold update_rebate in H. destruct (List.find _ _); [|discriminate].
  destruct (negb _); [discriminate|]. destruct (tbl_update _ _ _ _) as [[rows m]|]; [|discriminate].
  injection H as _ <-. apply evolves_same; simpl; auto; lia.
Qed.

Lemma dsteps_payouts o p f :
  (forall r, p r = true -> po_id (f r) = po_id r /\
     (o <> Some (po_id r) -> forall k, hash_of k (f r) = hash_of k r)) ->
  dsteps o (update_payouts p f).
Proof.
  intros Hf d n d' H. apply update_payouts_ok in H as [-> _].
  eapply (evolves_map o d _ _ (fun k => k)); simpl; [reflexivity|now rewrite map_id|done| |].
  - intros r. cbv beta. destruct (p r) eqn:E; [now apply Hf|auto].
  - intros k. auto with lia.
Qed.

Lemma dsteps_krc20 o p f :
  (forall k, p k = true -> kt_payout_id (f k) = kt_payout_id k /\
     rank (kt_status k) <= rank (kt_status (f k)) /\
     (o <> Some (kt_payout_id k) -> kt_status (f k) = kt_status k)) ->
  dsteps o (update_krc20 p f).
Proof.
  intros Hf d n d' H. unfold update_krc20 in H.
  destruct (tbl_update _ _ _ _) as [[rows m]|] eqn:E; [|discriminate]. injection H as _ <-.
  destruct (tbl_update_ok _ _ _ _ _ _ E) as [-> _].
  eapply (evolves_map o d _ (fun p => p)); simpl; [now rewrite map_id|reflexivity|done|auto|].
  intros k. cbv beta. destruct (p k) eqn:Ek; [now apply Hf|auto with lia].
Qed.

Create HintDb krc.
#[export] Hint Resolve steps_bind steps_pure steps_xdb dsteps_bind dsteps_ret dsteps_read
  dsteps_read_checked dsteps_audit dsteps_cycles dsteps_rebate : krc.

Lemma krc20_of_None d id : krc20_of d id = None -> ~ In id (map kt_payout_id (db_krc20 d)).
Proof.
  unfold krc20_of. intros H (k & <- & Hk)%in_map_iff.
  pose proof (List.find_none _ _ H k Hk) as Hf. simpl in Hf. rewrite Z.eqb_refl in Hf. discriminate.
Qed.

Lemma dsteps_create_cycle k a b : dsteps None (create_cycle k a b).
Proof.
  intros d c d' H. unfold create_cycle in H. destruct (cycle_check _); [|discriminate].
  destruct (find_cycle _ d); injection H as _ <-; apply evolves_same; simpl; auto; lia.
Qed.

Lemma dsteps_ensure_payout c w a : dsteps None (ensure_payout c w a).
Proof.
  intros d r d' H. unfold ensure_payout in H. destruct (negb _); [discriminate|].
  destruct (find_payout _ d); injection H as <- <-; [apply evolves_same; auto; lia|].
  eapply evolves_add_payout; reflexivity.
Qed.

Lemma dsteps_ensure_krc20 i s n a : dsteps None (ensure_krc20_pending i s n a).
Proof.
  intros d r d' H. unfold ensure_krc20_pending in H. destruct (negb _); [discriminate|].
  destruct (krc20_of d i) as [k|] eqn:E.
  - eapply dsteps_bind in H; [exact H| |auto with krc]. apply dsteps_krc20. intros k' _. simpl. auto with lia.
  - injection H as <- <-. eapply evolves_add_krc20; simpl; [reflexivity|reflexivity| |lia].
    now apply krc20_of_None.
Qed.

Lemma dsteps_confirm id : dsteps None (confirm_krc20_payout_once id).
Proof.
  intros d b d' H. unfold confirm_krc20_payout_once in H. eapply dsteps_bind in H; [exact H| |auto with krc].
  apply dsteps_payouts. intros r _. split; [done|]. now intros _ [].
Qed.

Lemma dsteps_mark_paid w a : dsteps None (mark_paid w a).
Proof.
  intros d r d' H. unfold mark_paid in H. destruct (_ <? _); [discriminate|].
  eapply dsteps_rebate, H.
Qed.

Lemma dsteps_broadcasting o id : dsteps o (mark_cycle_broadcasting id).
Proof.
  intros d a d' H. unfold mark_cycle_broadcasting in H.
  eapply dsteps_bind in H; [exact H| |]; auto with krc.
Qed.

Lemma dsteps_settled o id : dsteps o (mark_cycle_settled id).
Proof.
  intros d a d' H. unfold mark_cycle_settled in H.
  eapply dsteps_bind in H; [exact H| |]; auto with krc.
Qed.

#[export] Hint Resolve dsteps_broadcasting dsteps_settled : krc.

Lemma dsteps_reconcile id counts derived : dsteps None (krc20_reconcile_tx id counts derived).
Proof.
  unfold krc20_reconcile_tx, mark_cycle_partially_settled, mark_cycle_failed.
  apply dsteps_bind; [destruct derived|]; auto 6 with krc.
Qed.


#[export] Hint Resolve dsteps_create_cycle dsteps_ensure_payout dsteps_ensure_krc20 dsteps_confirm
  dsteps_mark_paid dsteps_reconcile : krc.

Lemma dsteps_credit t row : dsteps None (credit_tx t row).
Proof.
  unfold credit_tx. apply dsteps_bind; [auto with krc|]. intros []; auto 6 with krc.
Qed.
#[export] Hint Resolve dsteps_credit : krc.

Lemma dsteps_totals o id a b : dsteps o (set_cycle_totals id a b).
Proof. unfold set_cycle_totals. auto with krc. Qed.
#[export] Hint Resolve dsteps_totals : krc.

(** ** Recording a send *)

(** The transfer of payout [id] is at status [s]. *)
Definition at_status (d : Db) (id : Z) (s : Krc20TransferStatus) : Prop :=
  exists k, In k (db_krc20 d) /\ kt_payout_id k = id /\ kt_status k = s.

(** Row [id] records [h] for its transaction of kind [k], and has reached the
    stage at which that transaction is sent. *)
Definition recorded (d : Db) (k : SendKind) (id : Z) (h : bytes) : Prop :=
  (exists p, In p (db_payouts d) /\ po_id p = id /\ hash_of k p = Some h) /\
  exists t, In t (db_krc20 d) /\ kt_payout_id t = id /\
    (match k with CommitTx => 1 | RevealTx => 2 end) <= rank (kt_status t).

Lemma recorded_framed o d d' k id h :
  framed o d d' -> o <> Some id -> recorded d k id h -> recorded d' k id h.
Proof.
  intros [P K] Ho [(p & Hp & <- & E) (t & Ht & Et & R)]. split.
  - destruct (P p Hp) as (p' & Hp' & Ep & Hh). exists p'. rewrite Hh by done. auto.
  - destruct (K t Ht) as (t' & Ht' & Et' & R' & _). exists t'. split; [done|]. split; [congruence|lia].
Qed.

Lemma at_status_unique d id s s' : tables_wf d -> at_status d id s -> at_status d id s' -> s = s'.
Proof.
  intros [_ _ H] (k & Hk & E & <-) (k' & Hk' & E' & <-). f_equal.
  eapply (NoDup_map_inj kt_payout_id (db_krc20 d)); eauto. congruence.
Qed.

Lemma at_status_framed o d d' id s :
  framed o d d' -> o <> Some id -> at_status d id s -> at_status d' id s.
Proof.
  intros [_ K] Ho (k & Hk & <- & <-). destruct (K k Hk) as (k' & Hk' & E & _ & Hs).
  exists k'. auto.
Qed.

(** No transaction was recorded for a transfer that has not reached its stage. *)
Lemma not_recorded_before d k id h s :
  tables_wf d -> at_status d id s -> rank s < (match k with CommitTx => 1 | RevealTx => 2 end) ->
  ~ recorded d k id h.
Proof.
  intros W Hs Hr [_ (t & Ht & Et & R)].
  assert (at_status d id (kt_status t)) as Ht' by (exists t; auto).
  rewrite (at_status_unique _ _ _ _ W Hs Ht') in Hr. lia.
Qed.

Lemma update_payouts_hash d id f h k n d' :
  (forall p, po_id (f p) = po_id p /\ hash_of k (f p) = Some h) ->
  (exists p, In p (db_payouts d) /\ po_id p = id) ->
  update_payouts (fun p => po_id p =? id) f d = Ok (n, d') ->
  exists p, In p (db_payouts d') /\ po_id p = id /\ hash_of k p = Some h.
Proof.
  intros Hf (p & Hp & <-) H. apply update_payouts_ok in H as [-> _]. exists (f p). simpl. split.
  - apply in_map_iff. exists p. rewrite Z.eqb_refl. auto.
  - apply Hf.
Qed.

Lemma advance_krc20_status d from to id u d' s :
  advance_krc20 from to id d = Ok (u, d') -> at_status d id s ->
  existsb (fun x => bool_decide (s = x)) from = true -> at_status d' id to.
Proof.
  unfold advance_krc20. intros (n & d1 & H & E)%db_bind_ok (k & Hk & <- & <-) Hs.
  injection E as _ <-. unfold update_krc20 in H.
  destruct (tbl_update _ _ _ _) as [[rows m]|] eqn:Et; [|discriminate]. injection H as _ <-.
  destruct (tbl_update_ok _ _ _ _ _ _ Et) as [-> _]. exists (kt_set_status to (db_now d) k).
  simpl. split; [|done]. apply in_map_iff. exists k. rewrite Z.eqb_refl. split; [|done].
  unfold krc20_status_in. simpl. now rewrite Hs.
Qed.

Lemma dsteps_advance from to id :
  (forall s, existsb (fun x => bool_decide (s = x)) from = true -> rank s <= rank to) -> dsteps (Some id) (advance_krc20 from to id).
Proof.
  intros Hr d u d' H. unfold advance_krc20 in H. eapply dsteps_bind in H; [exact H| |auto with krc].
  apply dsteps_krc20. intros k [E%Z.eqb_eq Hs]%andb_true_iff. simpl.
  split; [done|]. split; [now apply Hr|congruence].
Qed.

Lemma dsteps_record_fees id a b : dsteps None (record_krc20_fees id a b).
Proof.
  intros d u d' H. unfold record_krc20_fees in H. eapply dsteps_bind in H; [exact H| |auto with krc].
  apply dsteps_krc20. intros k _. simpl. auto with lia.
Qed.

Lemma dsteps_record_hash k id h :
  dsteps (Some id) (match k with
                    | CommitTx => record_krc20_commit_hash id h
                    | RevealTx => record_krc20_reveal_hash id h
                    end).
Proof.
  destruct k; (apply dsteps_bind; [|auto with krc]); apply dsteps_payouts;
    intros r E%Z.eqb_eq; simpl; split; congruence.
Qed.

(** The recording transaction of either kind, from the stage before it. *)
Lemma record_commit_recorded d id a b h u d' :
  tables_wf d -> (exists p, In p (db_payouts d) /\ po_id p = id) -> at_status d id KPending ->
  record_commit_tx id a b h d = Ok (u, d') ->
  tables_wf d' /\ framed (Some id) d d' /\ recorded d' CommitTx id h.
Proof.
  intros W (p & Hp & Ep) Hs. unfold record_commit_tx.
  intros (u1 & d1 & H1 & (u2 & d2 & H2 & H3)%db_bind_ok)%db_bind_ok.
  destruct (dsteps_record_fees _ _ _ _ _ _ H1 W) as [W1 F1].
  destruct (dsteps_record_hash CommitTx id h _ _ _ H2 W1) as [W2 F2].
  assert (dsteps (Some id) (mark_krc20_commit_submitted id)) as Hm.
  { apply dsteps_advance. intros s Hb. destruct s; simpl in *; discriminate || lia. }
  destruct (Hm _ _ _ H3 W2) as [W3 F3]. split; [done|]. split.
  { eapply framed_trans; [apply framed_weaken, F1|]. eapply framed_trans; eauto. }
  assert (at_status d1 id KPending) as Hs1 by (eapply at_status_framed; eauto; done).
  assert (exists p, In p (db_payouts d1) /\ po_id p = id) as Hp1.
  { destruct F1 as [P _]. destruct (P p Hp) as (p' & ? & ? & _). exists p'. split; [done|congruence]. }
  unfold record_krc20_commit_hash in H2. apply db_bind_ok in H2 as (n & d2' & H2 & E). injection E as _ ->.
  assert (at_status d2 id KPending) as Hs2.
  { apply update_payouts_ok in H2 as [-> _]. exact Hs1. }
  assert (exists p, In p (db_payouts d2) /\ po_id p = id /\ hash_of CommitTx p = Some h) as (q & Hq & Eq & Eh)
    by (eapply (update_payouts_hash d1 id _ h CommitTx); [|exact Hp1|exact H2]; done).
  assert (at_status d' id KCommitSubmitted) as (k & Hk & Ek & Es)
    by (eapply advance_krc20_status; [exact H3|exact Hs2|reflexivity]).
  split; [|exists k; rewrite Es; simpl; auto with lia].
  unfold mark_krc20_commit_submitted, advance_krc20 in H3. apply db_bind_ok in H3 as (m & d3 & H3 & E).
  injection E as _ ->. unfold update_krc20 in H3. destruct (tbl_update _ _ _ _) as [[rows x]|]; [|discriminate].
  injection H3 as _ <-. exists q. auto.
Qed.

Lemma record_reveal_recorded d id h u d' :
  tables_wf d -> (exists p, In p (db_payouts d) /\ po_id p = id) -> at_status d id KCommitSubmitted ->
  record_reveal_tx id h d = Ok (u, d') ->
  tables_wf d' /\ framed (Some id) d d' /\ recorded d' RevealTx id h /\
  forall c, recorded d CommitTx id c -> recorded d' CommitTx id c.
Proof.
  intros W Hp Hs. unfold record_reveal_tx.
  intros (u2 & d2 & H2 & H3)%db_bind_ok.
  destruct (dsteps_record_hash RevealTx id h _ _ _ H2 W) as [W2 F2].
  assert (dsteps (Some id) (mark_krc20_reveal_submitted id)) as Hm.
  { apply dsteps_advance. intros s Hb. destruct s; simpl in *; discriminate || lia. }
  destruct (Hm _ _ _ H3 W2) as [W3 F3]. split; [done|]. split; [eapply framed_trans; eauto|].
  unfold record_krc20_reveal_hash in H2. apply db_bind_ok in H2 as (n & d2' & H2 & E). injection E as _ ->.
  assert (at_status d2 id KCommitSubmitted) as Hs2.
  { apply update_payouts_ok in H2 as [-> _]. exact Hs. }
  assert (exists p, In p (db_payouts d2) /\ po_id p = id /\ hash_of RevealTx p = Some h) as (q & Hq & Eq & Eh)
    by (eapply (update_payouts_hash d id _ h RevealTx); [|exact Hp|exact H2]; done).
  assert (at_status d' id KRevealSubmitted) as (k & Hk & Ek & Es)
    by (eapply advance_krc20_status; [exact H3|exact Hs2|reflexivity]).
  unfold mark_krc20_reveal_submitted, advance_krc20 in H3. apply db_bind_ok in H3 as (m & d3 & H3 & E).
  injection E as _ ->. unfold update_krc20 in H3. destruct (tbl_update _ _ _ _) as [[rows x]|]; [|discriminate].
  injection H3 as _ <-. split.
  - split; [exists q; auto|]. exists k. rewrite Es. simpl. auto with lia.
  - intros c [(p & Hp' & Ep & Ec) _]. split; [|exists k; rewrite Es; simpl; auto with lia].
    apply update_payouts_ok in H2 as [-> _]. simpl. eexists. split; [apply in_map, Hp'|].
    simpl. destruct (Z.eqb_spec (po_id p) id); auto.
Qed.

(** ** The engine's invariant *)

(** What the engine relies on of signing: ids leave signature scripts out. *)
Class Krc20Laws (Script : Type) `{EV : KasEnv Script} `{IE : InscriptionEnv Script} : Prop := {
  law_commit_txid : forall tx es tx', ke_sign tx es = Ok tx' -> ke_txid tx' = ke_txid tx;
  law_reveal_txid : forall tx sig, ke_txid (ie_finalize (with_signature tx sig)) = ke_txid tx
}.

Section Safety.
Context {Script : Type} `{MC : MassCalculator Script} `{EV : KasEnv Script}
  `{IE : InscriptionEnv Script} `{XE : Krc20Env Script} `{LW : !Krc20Laws Script}.
Implicit Types w : KrcWorld Script.

Definition winv w : Prop :=
  tables_wf (kw_db w) /\
  Forall (fun s => recorded (kw_db w) (ks_kind s) (ks_payout s) (ke_txid (ks_tx s))) (kw_log w).

(** From a state where [P] holds, [m] keeps the invariant and touches only [o]. *)
Definition tri {A} (P : Db -> Prop) (o : option Z) (m : KM A) : Prop :=
  forall w, winv w -> P (kw_db w) -> winv (fst (m w)) /\ framed o (kw_db w) (kw_db (fst (m w))).

(** [m] changes neither rows nor log, and its result satisfies [Q]. *)
Definition reads {A} (Q : Db -> A -> Prop) (m : KM A) : Prop :=
  forall w, kw_db (fst (m w)) = kw_db w /\ kw_log (fst (m w)) = kw_log w /\
    forall a, snd (m w) = Ok a -> Q (kw_db w) a.

Lemma winv_framed d' w calls l :
  winv w -> tables_wf d' -> framed None (kw_db w) d' -> winv (mkKrcWorld d' (kw_log w) calls l).
Proof.
  intros [W H] W' F. split; [done|]. simpl. eapply List.Forall_impl; [|exact H]. intros s Hs.
  now eapply recorded_framed; eauto.
Qed.

Lemma tri_reads {A B} P o Q (m : KM A) (k : A -> KM B) :
  reads Q m -> (forall a, tri (fun d => P d /\ Q d a) o (k a)) -> tri P o (kbind m k).
Proof.
  intros Hm Hk w Hw HP. unfold kbind. destruct (Hm w) as (Ed & El & HQ).
  destruct (m w) as [w' [a|e]]; simpl in *.
  - assert (winv w') as Hw' by (unfold winv; rewrite Ed, El; exact Hw).
    destruct (Hk a w' Hw') as [H1 H2]; [rewrite Ed; auto|]. rewrite Ed in H2. auto.
  - unfold winv. rewrite Ed, El. split; [exact Hw|apply framed_refl].
Qed.

Lemma tri_pure {A} P o (m : KM A) : reads (fun _ _ => True) m -> tri P o m.
Proof.
  intros Hm w Hw _. destruct (Hm w) as (Ed & El & _). unfold winv. rewrite Ed, El.
  split; [exact Hw|apply framed_refl].
Qed.

Lemma tri_pre {A} (P P' : Db -> Prop) o (m : KM A) : (forall d, P d -> P' d) -> tri P' o m -> tri P o m.
Proof. intros H Hm w Hw HP. auto. Qed.

Lemma tri_bind {A B} o (m : KM A) (k : A -> KM B) P :
  tri P o m -> (forall a, tri (fun _ => True) o (k a)) -> tri P o (kbind m k).
Proof.
  intros Hm Hk w Hw HP. unfold kbind. destruct (Hm w Hw HP) as [H1 F1].
  destruct (m w) as [w' [a|e]]; simpl in *; [|auto].
  destruct (Hk a w' H1 I) as [H2 F2]. split; [done|]. eapply framed_trans; eauto.
Qed.

Lemma tri_weaken {A} P o (m : KM A) : tri P None m -> tri P o m.
Proof. intros H w Hw HP. destruct (H w Hw HP). auto using framed_weaken. Qed.

Lemma kreads_ret {A} (Q : Db -> A -> Prop) a : (forall d, Q d a) -> reads Q (kret a).
Proof. intros H w. split; [done|]. split; [done|]. intros b [= <-]. apply H. Qed.

Lemma kreads_lift {A} (Q : Db -> A -> Prop) r : (forall d a, r = Ok a -> Q d a) -> reads Q (klift r).
Proof. intros H w. split; [done|]. split; [done|]. simpl. intros a E. now apply H. Qed.

Lemma kreads_fail {A} (Q : Db -> A -> Prop) e : reads Q (kfail e).
Proof. intros w. split; [done|]. split; [done|]. discriminate. Qed.

Lemma kreads_node {A} (f : nat -> result A string) : reads (fun _ _ => True) (kcall_node f).
Proof. intros w. auto. Qed.

Lemma kreads_bind {A B} (Q : Db -> A -> Prop) (R : Db -> B -> Prop) (m : KM A) (k : A -> KM B) :
  reads Q m -> (forall a, reads R (k a)) -> reads R (kbind m k).
Proof.
  intros Hm Hk w. unfold kbind. destruct (Hm w) as (Ed & El & _).
  destruct (m w) as [w' [a|e]]; simpl in *.
  - destruct (Hk a w') as (Ed' & El' & H). rewrite Ed', El', Ed, El. rewrite Ed in H. auto.
  - split; [done|]. split; [done|]. discriminate.
Qed.

Lemma kreads_call {A} (Q : Db -> A -> Prop) (m : DB A) :
  (forall d a d', m d = Ok (a, d') -> d' = d /\ Q d a) -> reads Q (kcall_db m).
Proof.
  intros H w. unfold kcall_db, kcall, xdb. destruct (ke_fault (kw_calls w)).
  - destruct (m (kw_db w)) as [[a d]|e] eqn:E; simpl.
    + destruct (H _ _ _ E) as [-> HQ]. split; [done|]. split; [done|]. intros b [= <-]. exact HQ.
    + split; [done|]. split; [done|]. discriminate.
  - simpl. split; [done|]. split; [done|]. discriminate.
  - destruct (m (kw_db w)) as [[a d]|e] eqn:E; simpl.
    + destruct (H _ _ _ E) as [-> _]. split; [done|]. split; [done|]. discriminate.
    + split; [done|]. split; [done|]. discriminate.
Qed.

Lemma kreads_weaken {A} (Q : Db -> A -> Prop) (m : KM A) : reads Q m -> reads (fun _ _ => True) m.
Proof. intros H w. destruct (H w) as (? & ? & _). auto. Qed.

Lemma tri_call {A} P (m : XDB A) : steps None m -> tri P None (kcall m).
Proof.
  intros Hm w Hw _. unfold kcall. pose proof Hw as [W _].
  assert (forall a d', m (kw_db w) = Ok (a, d') ->
    winv (k_with_db d' (k_tick w)) /\ framed None (kw_db w) d') as Hok.
  { intros a d' E. destruct (Hm _ _ _ E W) as [W' F]. split; [|done]. now apply winv_framed. }
  assert (winv (k_tick w) /\ framed None (kw_db w) (kw_db (k_tick w))) as Hid
    by (split; [exact Hw|apply framed_refl]).
  destruct (ke_fault (kw_calls w)); try exact Hid;
    destruct (m (kw_db w)) as [[a d']|e]; simpl; [apply (Hok a d' eq_refl)|exact Hid|apply (Hok a d' eq_refl)|exact Hid].
Qed.

Lemma tri_call_db {A} P (m : DB A) : dsteps None m -> tri P None (kcall_db m).
Proof. intros H. apply tri_call. now apply steps_xdb. Qed.

(** ** Sending *)

(** Record, then send: the record is the send's own id. *)
Lemma tri_record_send kind id tx (m : DB unit) P {A} (a : A) :
  (forall d u d', tables_wf d -> P d -> m d = Ok (u, d') ->
     tables_wf d' /\ framed (Some id) d d' /\ recorded d' kind id (ke_txid tx) /\
     forall k h, recorded d k id h -> recorded d' k id h) ->
  tri P (Some id) (kbind (kcall_db m) (fun _ => kbind (kcall_submit kind id tx) (fun _ => kret a))).
Proof.
  intros Hm w Hw HP. pose proof Hw as [W Hl].
  assert (winv (k_tick w) /\ framed (Some id) (kw_db w) (kw_db (k_tick w))) as Hid
    by (split; [exact Hw|apply framed_refl]).
  assert (forall u d', m (kw_db w) = Ok (u, d') ->
    forall more calls l, Forall (fun s => recorded d' (ks_kind s) (ks_payout s) (ke_txid (ks_tx s))) more ->
    winv (mkKrcWorld d' (kw_log w ++ more) calls l) /\ framed (Some id) (kw_db w) d') as Hok.
  { intros u d' E more calls l Hmore. destruct (Hm _ _ _ W HP E) as (W' & F & R & Hsame).
    split; [|done]. split; [done|]. simpl. rewrite List.Forall_app. split; [|done].
    eapply List.Forall_impl; [|exact Hl]. intros s Hs.
    destruct (decide (ks_payout s = id)) as [E'|Hne].
    - rewrite E'. apply Hsame. rewrite <- E'. exact Hs.
    - eapply recorded_framed; [exact F|congruence|exact Hs]. }
  unfold kbind, kcall_db, kcall, xdb. destruct (ke_fault (kw_calls w)); [|exact Hid|];
    destruct (m (kw_db w)) as [[u d']|e] eqn:E; simpl; try exact Hid.
  - destruct (Hm _ _ _ W HP E) as (_ & _ & R & _).
    assert (Forall (fun s => recorded d' (ks_kind s) (ks_payout s) (ke_txid (ks_tx s)))
              [mkSend kind id tx (ke_submit_transaction (S (kw_calls w)) tx)]) as Hone
      by (constructor; [exact R|constructor]).
    unfold kcall_submit. simpl.
    destruct (map_err XKaspad (ke_submit_transaction (S (kw_calls w)) tx)); simpl;
      apply (Hok u d' eq_refl _ _ _ Hone).
  - pose proof (fun c l => Hok u d' eq_refl [] c l (List.Forall_nil _)) as Hn.
    rewrite app_nil_r in Hn. apply Hn.
Qed.

(** Send again what is already recorded. *)
Lemma tri_resend kind id tx h {A} (a : A) P :
  (forall d, P d -> recorded d kind id h) -> ke_txid tx = h ->
  tri P (Some id) (kbind (kcall_submit kind id tx) (fun _ => kret a)).
Proof.
  intros HP E w Hw Hp. pose proof Hw as [W Hl]. unfold kbind, kcall_submit.
  assert (winv (mkKrcWorld (kw_db w)
            (kw_log w ++ [mkSend kind id tx (ke_submit_transaction (kw_calls w) tx)])
            (S (kw_calls w)) (kw_ledger w))) as Hnew.
  { split; [done|]. simpl. rewrite List.Forall_app. split; [done|]. constructor; [|constructor].
    simpl. rewrite E. now apply HP. }
  destruct (map_err XKaspad _); simpl; (split; [exact Hnew|apply framed_refl]).
Qed.

Lemma sign_commit_txid plan s signed h :
  sign_commit plan s = Ok signed -> commit_txid plan s = Ok h -> ke_txid (sb_tx signed) = h.
Proof.
  unfold sign_commit, commit_txid. destruct (build_commit_unsigned plan s) as [[tx es]|]; [|discriminate].
  simpl. intros (tx' & Ht & [= <-])%rbind_ok [= <-]. simpl. eapply law_commit_txid, Ht.
Qed.

Lemma sign_reveal_txid plan op s signed :
  sign_reveal plan op s = Ok signed -> ke_txid (sr_tx signed) = reveal_txid plan op s.
Proof.
  unfold sign_reveal, reveal_txid. intros (x & _ & H)%rbind_ok. apply rbind_ok in H as (sig & _ & H).
  apply rbind_ok in H as (u & _ & [= <-]). simpl. apply law_reveal_txid.
Qed.

Lemma recorded_txid_ok h id kind b : recorded_txid h id kind = Ok b -> h = Some b.
Proof.
  unfold recorded_txid, bytes32. destruct h as [x|]; [|discriminate]. simpl.
  destruct (length x =? 32)%nat; [|discriminate]. now intros [= ->].
Qed.

Lemma kreads_spendable : reads (fun _ _ => True) fetch_spendable_utxos.
Proof.
  unfold fetch_spendable_utxos. eapply kreads_bind; [apply kreads_node|]. intros v.
  eapply kreads_bind.
  { apply (kreads_call (fun _ _ => True)). unfold in_flight_spend_tx_hashes, db_read. intros d a d' [= <- <-]. auto. }
  intros hs. eapply kreads_bind; [apply kreads_node|]. intros us. now apply kreads_ret.
Qed.

(** A status change alone takes nothing back. *)
Lemma tri_call_status {A} P id (m : DB A) :
  dsteps (Some id) m -> (forall d a d', m d = Ok (a, d') -> db_payouts d' = db_payouts d) ->
  tri P (Some id) (kcall_db m).
Proof.
  intros Hm Hp w Hw _. pose proof Hw as [W Hl]. unfold kcall_db, kcall, xdb.
  assert (winv (k_tick w) /\ framed (Some id) (kw_db w) (kw_db (k_tick w))) as Hid
    by (split; [exact Hw|apply framed_refl]).
  assert (forall a d', m (kw_db w) = Ok (a, d') ->
    winv (k_with_db d' (k_tick w)) /\ framed (Some id) (kw_db w) d') as Hok.
  { intros a d' E. destruct (Hm _ _ _ E W) as [W' F]. split; [|done]. split; [done|]. simpl.
    eapply List.Forall_impl; [|exact Hl]. intros s [(p & Hpp & Ep & Eh) (t & Ht & Et & R)]. split.
    - exists p. rewrite (Hp _ _ _ E). auto.
    - destruct (proj2 F t Ht) as (t' & Ht' & Et' & R' & _). exists t'. split; [done|]. split; [congruence|lia]. }
  destruct (ke_fault (kw_calls w)); [|exact Hid|];
    (destruct (m (kw_db w)) as [[a d']|e]; simpl; [apply (Hok a d' eq_refl)|exact Hid]).
Qed.

Lemma advance_krc20_payouts from to id d u d' :
  advance_krc20 from to id d = Ok (u, d') -> db_payouts d' = db_payouts d.
Proof.
  unfold advance_krc20. intros (n & d1 & H & E)%db_bind_ok. injection E as _ <-.
  unfold update_krc20 in H. destruct (tbl_update _ _ _ _) as [[rows m]|]; [|discriminate].
  now injection H as _ <-.
Qed.

(** The payout row of the transfer is there. *)
Definition has_row (d : Db) (id : Z) : Prop := exists p, In p (db_payouts d) /\ po_id p = id.

Lemma tri_handle_pending ctx mode :
  tri (fun d => has_row d (ctx_payout_id ctx) /\ at_status d (ctx_payout_id ctx) KPending)
    (Some (ctx_payout_id ctx)) (handle_pending ctx mode).
Proof.
  unfold handle_pending. eapply tri_reads; [apply kreads_spendable|]. intros us0.
  eapply (tri_reads _ _ (fun _ _ => True)); [intros w; auto|]. intros us.
  eapply (tri_reads _ _ (fun _ _ => True)); [now apply kreads_lift|]. intros plan.
  eapply (tri_reads _ _ (fun _ _ => True)); [now apply kreads_lift|]. intros _.
  eapply (tri_reads _ _ (fun _ _ => True)); [now apply kreads_lift|]. intros signed.
  eapply (tri_reads _ _ (fun _ _ => True)); [intros w; auto|]. intros _.
  destruct mode; [|apply tri_pure; now apply kreads_ret].
  eapply (tri_reads _ _ (fun _ _ => True)); [now apply kreads_lift|]. intros cf.
  eapply (tri_reads _ _ (fun _ _ => True)); [now apply kreads_lift|]. intros rf.
  apply tri_record_send. intros d u d' W HP E.
  assert (has_row d (ctx_payout_id ctx) /\ at_status d (ctx_payout_id ctx) KPending) as [Hr Hs] by tauto.
  destruct (record_commit_recorded _ _ _ _ _ _ _ W Hr Hs E) as (W' & F & R).
  split; [done|]. split; [done|]. split; [done|]. intros k h Hk.
  destruct (not_recorded_before d k (ctx_payout_id ctx) h KPending W Hs); [destruct k; simpl; lia|done].
Qed.

Lemma tri_broadcast_reveal ctx plan op mode P :
  (forall d, P d -> has_row d (ctx_payout_id ctx) /\ at_status d (ctx_payout_id ctx) KCommitSubmitted) ->
  tri P (Some (ctx_payout_id ctx)) (broadcast_reveal ctx plan op mode).
Proof.
  intros HP. unfold broadcast_reveal.
  eapply (tri_reads _ _ (fun _ _ => True)); [now apply kreads_lift|]. intros signed.
  destruct mode; [|apply tri_pure; now apply kreads_ret].
  apply tri_record_send. intros d u d' W [H _] E. destruct (HP d H) as [Hr Hs].
  destruct (record_reveal_recorded _ _ _ _ _ W Hr Hs E) as (W' & F & R & Hc).
  split; [done|]. split; [done|]. split; [done|]. intros [] h Hk; [auto|].
  destruct (not_recorded_before d RevealTx (ctx_payout_id ctx) h _ W Hs); [simpl; lia|done].
Qed.

Lemma tri_rebroadcast_commit ctx h P :
  (forall d, P d -> recorded d CommitTx (ctx_payout_id ctx) h) ->
  tri P (Some (ctx_payout_id ctx)) (rebroadcast_commit ctx h).
Proof.
  intros HP. unfold rebroadcast_commit. eapply tri_reads; [apply kreads_spendable|]. intros us.
  eapply (tri_reads _ _ (fun _ _ => True)); [now apply kreads_lift|]. intros pol.
  eapply (tri_reads _ _ (fun _ _ => True)); [now apply kreads_lift|]. intros plan.
  eapply (tri_reads _ _ (fun _ b => commit_txid plan ke_treasury_script = Ok b)).
  { apply kreads_lift. intros _ b E. now apply map_err_ok in E. }
  intros rebuilt. destruct (bool_decide (rebuilt = h)) eqn:Eb; cbn [negb]; [|apply tri_pure, kreads_fail].
  apply bool_decide_eq_true in Eb as ->.
  eapply (tri_reads _ _ (fun _ s => sign_commit plan ke_treasury_script = Ok s)).
  { apply kreads_lift. intros _ b E. now apply map_err_ok in E. }
  intros signed w Hw Hp. eapply (tri_resend CommitTx (ctx_payout_id ctx) (sb_tx signed) h _ P); [exact HP| |exact Hw|].
  - destruct Hp as [[_ H1] H2]. eapply sign_commit_txid; eauto.
  - tauto.
Qed.

Lemma tri_handle_commit_submitted ctx row mode :
  tri (fun d => (In row (db_payouts d) /\ po_id row = ctx_payout_id ctx) /\
                at_status d (ctx_payout_id ctx) KCommitSubmitted)
    (Some (ctx_payout_id ctx)) (handle_commit_submitted ctx row mode).
Proof.
  unfold handle_commit_submitted.
  eapply (tri_reads _ _ (fun _ b => po_krc20_commit_hash row = Some b)).
  { apply kreads_lift. intros _ b E. eapply recorded_txid_ok, E. }
  intros h. eapply (tri_reads _ _ (fun _ _ => True)); [now apply kreads_lift|]. intros plan.
  eapply (tri_reads _ _ (fun _ _ => True)); [now apply kreads_lift|]. intros addr.
  eapply (tri_reads _ _ (fun _ _ => True)); [apply kreads_node|]. intros v.
  eapply (tri_reads _ _ (fun _ _ => True)); [apply kreads_node|]. intros us.
  destruct (List.find _ us) as [s|].
  - destruct (is_spendable _ _ _); [|apply tri_pure; now apply kreads_ret].
    apply tri_broadcast_reveal. intros d H. split; [|tauto]. exists row. tauto.
  - eapply (tri_reads _ _ (fun _ _ => True)); [apply kreads_node|]. intros [];
      [apply tri_pure; now apply kreads_ret|]. destruct mode; [|apply tri_pure; now apply kreads_ret].
    apply tri_rebroadcast_commit. intros d H. split.
    + exists row. simpl. tauto.
    + assert (at_status d (ctx_payout_id ctx) KCommitSubmitted) as (t & Ht & Et & Es) by tauto.
      exists t. rewrite Es. simpl. auto with lia.
Qed.

Lemma tri_rebroadcast_reveal ctx row h P :
  (forall d, P d -> recorded d RevealTx (ctx_payout_id ctx) h) ->
  tri P (Some (ctx_payout_id ctx)) (rebroadcast_reveal ctx row h).
Proof.
  intros HP. unfold rebroadcast_reveal.
  eapply (tri_reads _ _ (fun _ _ => True)); [now apply kreads_lift|]. intros c.
  eapply (tri_reads _ _ (fun _ _ => True)); [now apply kreads_lift|]. intros plan.
  destruct (bool_decide (_ = h)) eqn:Eb; cbn [negb]; [|apply tri_pure, kreads_fail].
  apply bool_decide_eq_true in Eb.
  eapply (tri_reads _ _ (fun _ s => sign_reveal plan _ ke_treasury_script = Ok s)).
  { apply kreads_lift. intros _ b E. apply map_err_ok in E. exact E. }
  intros signed w Hw Hp. eapply (tri_resend RevealTx (ctx_payout_id ctx) (sr_tx signed) h _ P); [exact HP| |exact Hw|].
  - destruct Hp as [_ H1]. apply sign_reveal_txid in H1. congruence.
  - tauto.
Qed.

Lemma tri_handle_reveal_submitted ctx row mode :
  tri (fun d => (In row (db_payouts d) /\ po_id row = ctx_payout_id ctx) /\
                at_status d (ctx_payout_id ctx) KRevealSubmitted)
    (Some (ctx_payout_id ctx)) (handle_reveal_submitted ctx row mode).
Proof.
  unfold handle_reveal_submitted.
  eapply (tri_reads _ _ (fun _ b => po_krc20_reveal_hash row = Some b)).
  { apply kreads_lift. intros _ b E. eapply recorded_txid_ok, E. }
  intros h. eapply (tri_reads _ _ (fun _ _ => True)); [apply kreads_node|]. intros v.
  eapply (tri_reads _ _ (fun _ _ => True)); [apply kreads_node|]. intros us.
  eapply (tri_reads _ _ (fun _ _ => True)).
  { destruct (option_map _ _); [now apply kreads_ret|apply kreads_node]. }
  intros mem. destruct (classify_confirmation _); try (apply tri_pure; now apply kreads_ret).
  - destruct mode; [|apply tri_pure; now apply kreads_ret].
    apply tri_bind; [|intros _; apply tri_pure; now apply kreads_ret].
    apply tri_call_status; [|intros d a d'; apply advance_krc20_payouts].
    apply dsteps_advance. intros s Hb. destruct s; simpl in *; discriminate || lia.
  - destruct mode; [|apply tri_pure; now apply kreads_ret].
    apply tri_rebroadcast_reveal. intros d H. split.
    + exists row. simpl. tauto.
    + assert (at_status d (ctx_payout_id ctx) KRevealSubmitted) as (t & Ht & Et & Es) by tauto.
      exists t. rewrite Es. simpl. auto with lia.
Qed.

Lemma tri_advance t fee_rate mode :
  tri (fun d => at_status d (kt_payout_id t) (kt_status t)) (Some (kt_payout_id t))
    (advance_transfer fee_rate t mode).
Proof.
  unfold advance_transfer. destruct (krc20_status_in _ t); [apply tri_pure; now apply kreads_ret|].
  eapply (tri_reads _ _ (fun _ _ => True)); [now apply kreads_lift|]. intros xonly.
  eapply (tri_reads _ _ (fun d row => In row (db_payouts d) /\ po_id row = kt_payout_id t)).
  { apply kreads_call. intros d row d' H. pose proof (db_read_checked_same _ _ _ _ H). subst d'.
    unfold get_payout, db_read_checked, find_payout in H.
    destruct (List.find _ _) as [p|] eqn:E; [|discriminate]. injection H as <-.
    apply List.find_some in E as [Hin E%Z.eqb_eq]. auto. }
  intros row. eapply (tri_reads _ _ (fun _ _ => True)).
  { apply kreads_call. intros d r d' H. pose proof (db_read_checked_same _ _ _ _ H). subst d'. auto. }
  intros recipient. eapply (tri_reads _ _ (fun _ c => ctx_payout_id c = kt_payout_id t)).
  { apply kreads_lift. intros _ c E. unfold transfer_ctx in E.
    apply rbind_ok in E as (x1 & _ & E). apply rbind_ok in E as (x2 & _ & E).
    apply rbind_ok in E as (x3 & _ & E). apply rbind_ok in E as (x4 & _ & [= <-]). done. }
  intros ctx. destruct (kt_status t) eqn:Es.
  all: intros w Hw HP; assert (ctx_payout_id ctx = kt_payout_id t) as E by tauto; rewrite <- E in *.
  - apply tri_handle_pending; [done|]. split; [exists row; tauto|tauto].
  - apply tri_handle_commit_submitted; [done|]. tauto.
  - apply tri_handle_reveal_submitted; [done|]. tauto.
  - apply (tri_pure (fun _ => True)); [now apply kreads_ret|done|done].
  - apply (tri_pure (fun _ => True)); [now apply kreads_ret|done|done].
Qed.

Lemma settle_loop_safe fee_rate mode ts : forall report w,
  winv w -> List.NoDup (map kt_payout_id ts) ->
  Forall (fun t => at_status (kw_db w) (kt_payout_id t) (kt_status t)) ts ->
  winv (fst (settle_loop fee_rate ts mode report w)).
Proof.
  induction ts as [|t ts IH]; intros report w Hw Hn Ha; [done|].
  inversion_clear Hn as [|? ? Hnot Hn']. inversion_clear Ha as [|? ? Ht Hts].
  cbn [settle_loop]. destruct (tri_advance t fee_rate mode w Hw Ht) as [Hw' F].
  destruct (advance_transfer fee_rate t mode w) as [w' [step|e]]; simpl in *;
    [|destruct (is_panic e); [done|]]; (apply IH; [done|done|]);
    rewrite List.Forall_forall in *; intros t' Ht'; eapply at_status_framed; eauto;
    intros [= E]; apply Hnot; rewrite E; now apply in_map.
Qed.

Lemma kreads_list_by_status statuses limit :
  reads (fun d ts => Forall (fun t => at_status d (kt_payout_id t) (kt_status t)) ts /\
                     (tables_wf d -> List.NoDup (map kt_payout_id ts)))
    (kcall_db (list_krc20_by_status statuses limit)).
Proof.
  apply kreads_call. intros d ts d' H. pose proof (db_read_checked_same _ _ _ _ H). subst d'.
  split; [done|]. unfold list_krc20_by_status, db_read_checked, sql_limit in H.
  destruct (limit <? 0); [discriminate|]. injection H as <-. split.
  - rewrite List.Forall_forall. intros t Ht. exists t. split; [|done].
    apply In_firstn, sort_by_In, filter_In in Ht. apply Ht.
  - intros [_ _ W]. apply NoDup_map_firstn, sort_by_NoDup_map, NoDup_map_filter, W.
Qed.

Lemma tri_settle limit mode : forall w, winv w -> winv (fst (settle_pending limit mode w)).
Proof.
  intros w Hw. unfold settle_pending, kbind at 1.
  destruct (kreads_list_by_status [KPending; KCommitSubmitted; KRevealSubmitted] limit w) as (Ed & El & HQ).
  destruct (kcall_db _ w) as [w1 [ts|e]]; simpl in *;
    [|unfold winv; rewrite Ed, El; exact Hw].
  destruct (HQ ts eq_refl) as [Ha Hn]. unfold kbind. simpl.
  apply settle_loop_safe; simpl.
  - unfold winv. simpl. rewrite Ed, El. exact Hw.
  - apply Hn, Hw.
  - now rewrite Ed.
Qed.

Lemma steps_plan_transfers p price xonly amt cid el : forall a b n,
  steps None (plan_transfers p price xonly amt cid el a b n).
Proof.
  induction el as [|w el IH]; intros a b n; cbn [plan_transfers]; [auto with krc|].
  apply steps_bind; [auto with krc|]. intros nacho. destruct (negb _); [apply IH|].
  repeat (apply steps_bind; [auto with krc|intros ?]). apply IH.
Qed.

Lemma steps_plan_tx p price xonly amt : steps None (plan_krc20_tx p price xonly amt).
Proof.
  unfold plan_krc20_tx. apply steps_bind; [auto with krc|]. intros c.
  apply steps_bind; [unfold list_krc20_eligible_wallets; auto with krc|]. intros el.
  apply steps_bind; [apply steps_plan_transfers|]. intros [[x y] z].
  repeat (apply steps_bind; [auto with krc|intros ?]). auto with krc.
Qed.

Lemma tri_any {A} (m : KM A) : tri (fun _ => True) None m -> forall w, winv w -> winv (fst (m w)).
Proof. intros H w Hw. now apply H. Qed.

Lemma tri_plan xonly p : tri (fun _ => True) None (resume_or_plan_krc20_cycle xonly p).
Proof.
  unfold resume_or_plan_krc20_cycle, plan_krc20_cycle.
  assert (forall id, tri (fun _ => True) None (kcall_db (list_krc20_for_cycle id))) as Hl
    by (intros; apply tri_call_db; unfold list_krc20_for_cycle; auto with krc).
  apply tri_bind; [apply tri_call_db; unfold find_cycle_by_idempotency_key; auto with krc|].
  intros [c|].
  - apply tri_bind; [apply Hl|]. intros ts.
    apply tri_bind; [apply tri_call_db; auto with krc|]. intros _. apply tri_pure. now apply kreads_ret.
  - apply tri_bind; [apply tri_pure; intros w; auto|]. intros price.
    apply tri_bind; [apply tri_pure; now apply kreads_lift|]. intros amt.
    apply tri_bind; [apply tri_call, steps_plan_tx|]. intros cy.
    apply tri_bind; [apply tri_call_db; unfold get_cycle; auto with krc|]. intros row.
    apply tri_bind; [apply Hl|]. intros ts. apply tri_pure. now apply kreads_ret.
Qed.

Lemma tri_credit limit : tri (fun _ => True) None (credit_completed_transfers limit).
Proof.
  unfold credit_completed_transfers. apply tri_bind.
  { apply tri_call_db. unfold list_krc20_by_status. auto with krc. }
  intros ts. generalize credit_report0. induction ts as [|t ts IH]; intros r; cbn [credit_loop].
  { apply tri_pure. now apply kreads_ret. }
  apply tri_bind; [apply tri_call_db; unfold get_payout; auto with krc|]. intros row.
  apply tri_bind; [apply tri_call_db; auto with krc|]. intros fresh. apply IH.
Qed.

Lemma tri_reconcile id : tri (fun _ => True) None (reconcile_krc20_cycle_status id).
Proof.
  unfold reconcile_krc20_cycle_status.
  apply tri_bind; [apply tri_call_db; unfold list_krc20_for_cycle; auto with krc|]. intros ts.
  apply tri_bind; [apply tri_call_db; auto with krc|]. intros _. apply tri_pure. now apply kreads_ret.
Qed.

Lemma safe_bind {A B} (m : KM A) (k : A -> KM B) :
  (forall w, winv w -> winv (fst (m w))) -> (forall a w, winv w -> winv (fst (k a w))) ->
  forall w, winv w -> winv (fst (kbind m k w)).
Proof.
  intros Hm Hk w Hw. unfold kbind. specialize (Hm w Hw). destruct (m w) as [w' [a|e]]; simpl in *; auto.
Qed.

Lemma run_once_safe cfg : forall w, winv w -> winv (fst (krc20_run_once cfg w)).
Proof.
  unfold krc20_run_once. apply safe_bind; [apply tri_any, tri_pure; intros w; auto|]. intros [].
  2: { apply tri_any, tri_pure. now apply kreads_ret. }
  unfold krc20_run_locked. apply safe_bind; [apply tri_any, tri_pure; now apply kreads_lift|]. intros xonly.
  apply safe_bind; [apply tri_any, tri_pure, kreads_node|]. intros v.
  apply safe_bind; [apply tri_any, tri_plan|]. intros st.
  destruct (over_spend_cap _ _); [apply tri_any, tri_pure, kreads_fail|].
  apply safe_bind; [apply tri_settle|]. intros se.
  apply safe_bind.
  { destruct (is_dry_run _); [apply tri_any, tri_pure; now apply kreads_ret|apply tri_any, tri_credit]. }
  intros cr. apply safe_bind; [apply tri_any, tri_reconcile|]. intros s.
  apply tri_any, tri_pure. now apply kreads_ret.
Qed.
End Safety.

(** ** Histories *)

Section Histories.
Context {Script : Type} `{EV0 : KasEnv Script}.

(** Ticks in any environment that computes the same ids, operators giving up on
    a transfer, and other activity on the database that leaves the transfers'
    hashes and stages alone. *)
Inductive krc_step : KrcWorld Script -> KrcWorld Script -> Prop :=
| XTick (mc : MassCalculator Script) (ev : KasEnv Script) (ie : InscriptionEnv Script)
    (xe : Krc20Env Script) cfg w :
    @Krc20Laws Script ev ie ->
    (forall tx, @ke_txid Script ev tx = @ke_txid Script EV0 tx) ->
    krc_step w (fst (@krc20_run_once Script mc ev ie xe cfg w))
| XGiveUp id reason d' w :
    fail_krc20_transfer id reason (kw_db w) = Ok (tt, d') ->
    krc_step w (mkKrcWorld d' (kw_log w) (kw_calls w) (kw_ledger w))
| XOther d' w :
    evolves None (kw_db w) d' ->
    krc_step w (mkKrcWorld d' (kw_log w) (kw_calls w) (kw_ledger w)).

Definition krc_reachable (d : Db) : KrcWorld Script -> Prop :=
  rtc krc_step (mkKrcWorld d [] 0 (mkLedger [] [])).

Lemma fail_keeps id reason d d' k i h :
  fail_krc20_transfer id reason d = Ok (tt, d') -> tables_wf d ->
  tables_wf d' /\ (recorded d k i h -> recorded d' k i h).
Proof.
  unfold fail_krc20_transfer. intros (u1 & d1 & H1 & (u2 & d2 & H2 & (u3 & d3 & H3 & E)%db_bind_ok)%db_bind_ok)%db_bind_ok W.
  injection E as <-.
  assert (evolves (Some id) d d1 /\ db_payouts d1 = db_payouts d) as [E1 P1].
  { unfold mark_krc20_failed in H1. split.
    - eapply dsteps_bind in H1; [exact H1| |auto with krc]. apply dsteps_krc20.
      intros t [Et%Z.eqb_eq Hs]%andb_true_iff. simpl. split; [done|]. split; [destruct (kt_status t); simpl; lia|congruence].
    - apply db_bind_ok in H1 as (n & dx & H1 & Ex). injection Ex as _ <-. unfold update_krc20 in H1.
      destruct (tbl_update _ _ _ _) as [[rows m]|]; [|discriminate]. now injection H1 as _ <-. }
  unfold mark_payout_failed in H2.
  assert (dsteps None (update_payouts (fun p => (po_id p =? id) && negb (status_in [Confirmed] p)) (po_fail reason)
            ;;; db_ret tt)) as Hd
    by (apply dsteps_bind; [apply dsteps_payouts; intros r _; split; [done|]; now intros _ []|auto with krc]).
  destruct (E1 W) as [W1 F1]. destruct (Hd _ _ _ H2 W1) as [W2 F2].
  destruct (dsteps_audit None _ _ _ _ H3 W2) as [W3 F3]. split; [done|].
  intros [(p & Hp & Ep & Eh) (t & Ht & Et & R)].
  assert (recorded d1 k i h) as R1.
  { split; [exists p; rewrite P1; auto|]. destruct (proj2 F1 t Ht) as (t' & Ht' & Et' & R' & _).
    exists t'. split; [done|]. split; [congruence|lia]. }
  eapply recorded_framed; [exact F3|done|]. now eapply recorded_framed; [exact F2| |exact R1].
Qed.

Lemma winv_ids (ev : KasEnv Script) w :
  (forall tx, @ke_txid Script ev tx = @ke_txid Script EV0 tx) ->
  winv (EV := ev) w <-> winv (EV := EV0) w.
Proof.
  intros E. unfold winv. split; intros [W H]; (split; [done|]);
    (eapply List.Forall_impl; [|exact H]); intros s; cbv beta; rewrite E; auto.
Qed.

Lemma krc_step_safe w w' : krc_step w w' -> winv w -> winv w'.
Proof.
  intros [mc ev ie xe cfg w0 L Hid|id reason d' w0 H|d' w0 H] Hw.
  - apply (winv_ids ev); [exact Hid|]. apply run_once_safe. apply (winv_ids ev); [exact Hid|exact Hw].
  - destruct Hw as [W Hl]. split; [simpl; eapply (fail_keeps _ _ _ _ CommitTx 0 []), W; eauto|]. simpl.
    eapply List.Forall_impl; [|exact Hl]. intros s Hs. eapply fail_keeps; eauto.
  - destruct Hw as [W Hl]. destruct (H W) as [W' F]. split; [done|]. simpl.
    eapply List.Forall_impl; [|exact Hl]. intros s Hs. now eapply recorded_framed; eauto.
Qed.

Lemma krc_reachable_safe d w : tables_wf d -> krc_reachable d w -> winv w.
Proof.
  intros W H. assert (winv (mkKrcWorld d [] 0 (mkLedger [] []))) as H0 by (split; [done|constructor]).
  revert H0. unfold krc_reachable in H. induction H; eauto using krc_step_safe.
Qed.

(** C4. A KRC-20 payout has one commit and one reveal: in every history of
    ticks, with any faults and answers, crashes between record and broadcast,
    operators giving up and other writers, all commits ever handed to the node
    for a payout have the same transaction id, as have all its reveals, and the
    payout's row carries that id. *)
Theorem krc20_one_commit_one_reveal d w :
  tables_wf d -> krc_reachable d w ->
  (forall s s', In s (kw_log w) -> In s' (kw_log w) -> ks_payout s = ks_payout s' ->
     ks_kind s = ks_kind s' -> ke_txid (ks_tx s) = ke_txid (ks_tx s')) /\
  forall s, In s (kw_log w) -> exists p, In p (db_payouts (kw_db w)) /\ po_id p = ks_payout s /\
    hash_of (ks_kind s) p = Some (ke_txid (ks_tx s)).
Proof.
  intros W H. destruct (krc_reachable_safe d w W H) as [[Hid _ _] Hl]. rewrite List.Forall_forall in Hl.
  assert (forall s, In s (kw_log w) -> exists p, In p (db_payouts (kw_db w)) /\ po_id p = ks_payout s /\
    hash_of (ks_kind s) p = Some (ke_txid (ks_tx s))) as Hrow by (intros s Hs; apply (Hl s Hs)).
  split; [|exact Hrow]. intros s s' Hs Hs' Ep Ek.
  destruct (Hrow s Hs) as (p & Hp & E1 & E2). destruct (Hrow s' Hs') as (p' & Hp' & E1' & E2').
  assert (p = p') as -> by (eapply (NoDup_map_inj po_id (db_payouts (kw_db w))); eauto; congruence).
  rewrite Ek in E2. congruence.
Qed.
End Histories.
