(* ===== verification/Krc20Credit.v ===== *)
(** * The rebate books of the KRC-20 engine

    A tick moves the rebate ledger and the payout rows together: what a wallet
    has been paid grows by exactly the amounts of its payouts that the tick
    confirmed, and a payout is confirmed only when its transfer has completed. *)
From S2P Require Import Prelude F64 FeeModel Schema Domain AccountDb IngestDb PayoutDb StorageMass KasEngine Krc20Price Krc20Plan Krc20Engine Krc20Safety.
Open Scope Z_scope.

Lemma sumZ_update_one {A} (key : A -> Z) (g h : A -> Z) l x :
  List.NoDup (map key l) -> In x l ->
  sumZ (map (fun p => if key p =? key x then g p else h p) l) = sumZ (map h l) + (g x - h x).
Proof.
  induction l as [|y l IH]; intros Hn Hx; [destruct Hx|]. inversion_clear Hn as [|? ? Hnot Hn'].
  cbn [map]. simpl. destruct Hx as [->|Hx].
  - rewrite Z.eqb_refl. rewrite (sumZ_map_ext _ h l); [lia|]. intros p Hp.
    destruct (Z.eqb_spec (key p) (key x)) as [E|]; [|done]. destruct Hnot. rewrite <- E. now apply in_map.
  - rewrite IH by done. destruct (Z.eqb_spec (key y) (key x)) as [E|]; [|lia].
    destruct Hnot. rewrite E. now apply in_map.
Qed.

(** ** The books *)

Definition counted (w : Z) (p : Payout) : Z :=
  if (po_wallet_id p =? w) && status_in [Confirmed] p then po_amount_sompi p else 0.

(** What the confirmed payouts of a wallet add up to. *)
Definition confirmed_of (d : Db) (w : Z) : Z := sumZ (map (counted w) (db_payouts d)).

Record books_wf (d : Db) : Prop := {
  bw_ids : List.NoDup (map po_id (db_payouts d));
  bw_lt : Forall (fun p => po_id p < db_seq d) (db_payouts d);
  bw_rebates : rebates_wf d
}.

Record balanced (d d' : Db) : Prop := {
  bl_wf : books_wf d';
  bl_accrued : forall w, accrued_of d' w = accrued_of d w;
  bl_paid : forall w, paid_of d' w - paid_of d w = confirmed_of d' w - confirmed_of d w;
  bl_completed : forall i, at_status d i KCompleted -> at_status d' i KCompleted;
  bl_earned : forall p', In p' (db_payouts d') -> po_status p' = Confirmed ->
    (exists p, In p (db_payouts d) /\ po_id p = po_id p' /\ po_status p = Confirmed) \/
    at_status d' (po_id p') KCompleted
}.

Definition books (d d' : Db) : Prop := books_wf d -> balanced d d'.

Lemma books_trans d1 d2 d3 : books d1 d2 -> books d2 d3 -> books d1 d3.
Proof.
  intros H1 H2 W. destruct (H1 W) as [W2 A1 P1 C1 E1]. destruct (H2 W2) as [W3 A2 P2 C2 E2].
  constructor; [done| | |auto|].
  - intros w. now rewrite A2.
  - intros w. specialize (P1 w). specialize (P2 w). lia.
  - intros p Hp Hc. destruct (E2 p Hp Hc) as [(q & Hq & Eq & Hqc)|]; [|auto].
    destruct (E1 q Hq Hqc) as [(r & ? & ? & ?)|]; [left; exists r; split; [done|split; [congruence|done]]|].
    right. rewrite <- Eq. auto.
Qed.

(** Rows keep owner, amount and status; completed transfers stay completed. *)
Lemma books_quiet f d d' :
  db_payouts d' = map f (db_payouts d) -> db_rebates d' = db_rebates d -> db_seq d <= db_seq d' ->
  (forall p, po_id (f p) = po_id p /\ po_wallet_id (f p) = po_wallet_id p /\
     po_amount_sompi (f p) = po_amount_sompi p /\ po_status (f p) = po_status p) ->
  (forall i, at_status d i KCompleted -> at_status d' i KCompleted) ->
  books d d'.
Proof.
  intros Ep Er Es Hf Hc [H1 H2 [R1 R2]]. constructor; [constructor| | |done|].
  - rewrite Ep, map_map. erewrite map_ext; [exact H1|]. intros p. apply Hf.
  - rewrite Ep, List.Forall_map. eapply List.Forall_impl; [|exact H2]. intros p Hp. simpl in *.
    rewrite (proj1 (Hf p)). lia.
  - split; now rewrite Er.
  - intros w. unfold accrued_of. now rewrite Er.
  - intros w. unfold paid_of, confirmed_of. rewrite Er, Ep, map_map.
    rewrite (sumZ_map_ext (fun p => counted w (f p)) (counted w)); [lia|]. intros p _.
    unfold counted, status_in. destruct (Hf p) as (_ & -> & -> & ->). done.
  - intros p' Hp' Hs. left. rewrite Ep in Hp'. apply in_map_iff in Hp' as (p & <- & Hp).
    exists p. destruct (Hf p) as (Ei & _ & _ & Est). rewrite Est in Hs. auto.
Qed.

Lemma books_same d d' :
  db_payouts d' = db_payouts d -> db_rebates d' = db_rebates d -> db_seq d <= db_seq d' ->
  (forall i, at_status d i KCompleted -> at_status d' i KCompleted) -> books d d'.
Proof. intros Ep Er Es Hc. apply (books_quiet (fun p => p)); auto. now rewrite map_id. Qed.

Lemma books_refl d : books d d.
Proof. apply books_same; auto; lia. Qed.

Lemma at_status_krc20 d d' : db_krc20 d' = db_krc20 d -> forall i s, at_status d i s -> at_status d' i s.
Proof. intros E i s. unfold at_status. now rewrite E. Qed.

(** ** The transactions that leave the books alone *)

Definition dkeeps {A} (m : DB A) : Prop := forall d a d', m d = Ok (a, d') -> books d d'.

Lemma dkeeps_bind {A B} (m : DB A) (k : A -> DB B) :
  dkeeps m -> (forall a, dkeeps (k a)) -> dkeeps (db_bind m k).
Proof.
  intros Hm Hk d b d' (a & d1 & H1 & H2)%db_bind_ok. eapply books_trans; [eapply Hm, H1|eapply Hk, H2].
Qed.

Lemma dkeeps_ret {A} (a : A) : dkeeps (db_ret a).
Proof. intros d x d' [= _ <-]. apply books_refl. Qed.

Lemma dkeeps_read {A} (f : Db -> A) : dkeeps (db_read f).
Proof. intros d x d' [= _ <-]. apply books_refl. Qed.

Lemma dkeeps_read_checked {A} (f : Db -> result A DbError) : dkeeps (db_read_checked f).
Proof. intros d x d' ->%db_read_checked_same. apply books_refl. Qed.

Lemma dkeeps_audit e : dkeeps (audit_append e).
Proof. intros d x d' [= _ <-]. apply books_same; simpl; auto; lia. Qed.

Lemma dkeeps_cycles p f : dkeeps (update_cycles p f).
Proof.
  intros d n d' H. unfold update_cycles in H. destruct (tbl_update _ _ _ _) as [[rows m]|]; [|discriminate].
  injection H as _ <-. apply books_same; simpl; auto; lia.
Qed.

Lemma dkeeps_payouts p f :
  (forall r, po_id (f r) = po_id r /\ po_wallet_id (f r) = po_wallet_id r /\
     po_amount_sompi (f r) = po_amount_sompi r /\ po_status (f r) = po_status r) ->
  dkeeps (update_payouts p f).
Proof.
  intros Hf d n d' H. apply update_payouts_ok in H as [-> _].
  apply (books_quiet (fun r => if p r then f r else r)); simpl; auto; [lia|].
  intros r. destruct (p r); [apply Hf|auto].
Qed.

Lemma dkeeps_krc20 p f :
  (forall k, p k = true -> kt_payout_id (f k) = kt_payout_id k /\
     (kt_status k = KCompleted -> kt_status (f k) = KCompleted)) ->
  dkeeps (update_krc20 p f).
Proof.
  intros Hf d n d' H. unfold update_krc20 in H.
  destruct (tbl_update _ _ _ _) as [[rows m]|] eqn:E; [|discriminate]. injection H as _ <-.
  destruct (tbl_update_ok _ _ _ _ _ _ E) as [-> _]. apply books_same; simpl; auto; [lia|].
  intros i (k & Hk & Ei & Es). exists (if p k then f k else k). simpl.
  split; [now apply (in_map (fun k => if p k then f k else k))|]. destruct (p k) eqn:Ek; [|auto].
  destruct (Hf k Ek) as [E1 E2]. rewrite E1. auto.
Qed.

Create HintDb books.
#[export] Hint Resolve dkeeps_bind dkeeps_ret dkeeps_read dkeeps_read_checked dkeeps_audit dkeeps_cycles : books.

Lemma dkeeps_advance from to id :
  (forall s, existsb (fun x => bool_decide (s = x)) from = true -> s = KCompleted -> to = KCompleted) ->
  dkeeps (advance_krc20 from to id).
Proof.
  intros Hs d u d' H. unfold advance_krc20 in H. eapply dkeeps_bind in H; [exact H| |auto with books].
  apply dkeeps_krc20. intros k [_ Hk]%andb_true_iff. simpl. split; [done|]. intros E. now apply (Hs (kt_status k)).
Qed.

Lemma dkeeps_commit_submitted id : dkeeps (mark_krc20_commit_submitted id).
Proof. apply dkeeps_advance. now intros []. Qed.

Lemma dkeeps_reveal_submitted id : dkeeps (mark_krc20_reveal_submitted id).
Proof. apply dkeeps_advance. now intros []. Qed.

Lemma dkeeps_completed id : dkeeps (mark_krc20_completed id).
Proof. now apply dkeeps_advance. Qed.

Lemma dkeeps_fees id a b : dkeeps (record_krc20_fees id a b).
Proof.
  intros d u d' H. unfold record_krc20_fees in H. eapply dkeeps_bind in H; [exact H| |auto with books].
  apply dkeeps_krc20. auto.
Qed.

Lemma dkeeps_commit_hash id h : dkeeps (record_krc20_commit_hash id h).
Proof. unfold record_krc20_commit_hash. apply dkeeps_bind; [now apply dkeeps_payouts|auto with books]. Qed.

Lemma dkeeps_reveal_hash id h : dkeeps (record_krc20_reveal_hash id h).
Proof. unfold record_krc20_reveal_hash. apply dkeeps_bind; [now apply dkeeps_payouts|auto with books]. Qed.

#[export] Hint Resolve dkeeps_commit_submitted dkeeps_reveal_submitted dkeeps_completed dkeeps_fees
  dkeeps_commit_hash dkeeps_reveal_hash : books.

Lemma dkeeps_create_cycle k a b : dkeeps (create_cycle k a b).
Proof.
  intros d c d' H. unfold create_cycle in H. destruct (cycle_check _); [|discriminate].
  destruct (find_cycle _ d); injection H as _ <-; apply books_same; simpl; auto; lia.
Qed.

Lemma dkeeps_ensure_payout c w a : dkeeps (ensure_payout c w a).
Proof.
  intros d r d' H. unfold ensure_payout in H. destruct (negb _); [discriminate|].
  destruct (find_payout _ d); injection H as <- <-; [apply books_refl|].
  intros [H1 H2 [R1 R2]]. constructor; [constructor| | | |]; simpl; auto.
  - rewrite map_app. simpl. apply NoDup_app_snoc; [done|]. rewrite in_map_iff. intros (q & Eq & Hq).
    rewrite List.Forall_forall in H2. specialize (H2 q Hq). lia.
  - rewrite List.Forall_app. split; [eapply List.Forall_impl; [|exact H2]; simpl; lia|].
    constructor; [simpl; lia|constructor].
  - now split.
  - intros x. unfold confirmed_of, paid_of. simpl. rewrite map_app, sumZ_app. simpl.
    unfold counted at 2. rewrite andb_false_r. lia.
  - intros p' Hp' Hs. left. exists p'. apply in_app_iff in Hp' as [?|[<-|[]]]; [auto|discriminate].
Qed.

Lemma dkeeps_ensure_krc20 i s n a : dkeeps (ensure_krc20_pending i s n a).
Proof.
  intros d r d' H. unfold ensure_krc20_pending in H. destruct (negb _); [discriminate|].
  destruct (krc20_of d i) as [k|] eqn:E.
  - eapply dkeeps_bind in H; [exact H| |auto with books]. apply dkeeps_krc20. auto.
  - injection H as <- <-. apply books_same; simpl; auto; [lia|]. intros j (k & Hk & Hj). exists k.
    simpl. rewrite in_app_iff. auto.
Qed.

Lemma dkeeps_broadcasting id : dkeeps (mark_cycle_broadcasting id).
Proof.
  intros d a d' H. unfold mark_cycle_broadcasting in H. eapply dkeeps_bind in H; [exact H| |]; auto with books.
Qed.

Lemma dkeeps_settled id : dkeeps (mark_cycle_settled id).
Proof.
  intros d a d' H. unfold mark_cycle_settled in H. eapply dkeeps_bind in H; [exact H| |]; auto with books.
Qed.
#[export] Hint Resolve dkeeps_create_cycle dkeeps_ensure_payout dkeeps_ensure_krc20 dkeeps_broadcasting
  dkeeps_settled : books.

Lemma dkeeps_reconcile id counts derived : dkeeps (krc20_reconcile_tx id counts derived).
Proof.
  unfold krc20_reconcile_tx, mark_cycle_partially_settled, mark_cycle_failed.
  apply dkeeps_bind; [destruct derived|]; auto 6 with books.
Qed.

Lemma dkeeps_totals id a b : dkeeps (set_cycle_totals id a b).
Proof. unfold set_cycle_totals. auto with books. Qed.
#[export] Hint Resolve dkeeps_reconcile dkeeps_totals : books.

(** ** Crediting *)

Lemma mark_paid_tables w a d r d' :
  mark_paid w a d = Ok (r, d') ->
  db_payouts d' = db_payouts d /\ db_krc20 d' = db_krc20 d /\ db_seq d' = db_seq d.
Proof.
  unfold mark_paid. destruct (_ <? _); [discriminate|]. unfold update_rebate.
  destruct (List.find _ _); [|discriminate]. destruct (negb _); [discriminate|].
  destruct (tbl_update _ _ _ _) as [[rows m]|]; [|discriminate]. now intros [= _ <-].
Qed.

(** The confirming update touches the row alone, and only if it is not
    confirmed yet. *)
Lemma confirm_shape row d b d' :
  List.NoDup (map po_id (db_payouts d)) -> In row (db_payouts d) ->
  confirm_krc20_payout_once (po_id row) d = Ok (b, d') ->
  b = negb (status_in [Confirmed] row) /\
  exists f, d' = set_payouts (map (fun p => if po_id p =? po_id row then f p else p) (db_payouts d)) d /\
    f row = (if b then po_confirm (coalesce (po_submitted_at row) (db_now d)) (db_now d) row else row) /\
    (forall p, po_id (f p) = po_id p).
Proof.
  intros Hn Hin H. destruct (confirm_krc20_run _ _ _ _ H) as [_ Eb]. unfold op_guard in Eb.
  assert (b = negb (status_in [Confirmed] row)) as ->.
  { rewrite Eb. clear -Hn Hin. induction (db_payouts d) as [|q l IH]; [destruct Hin|].
    inversion_clear Hn as [|? ? Hnot Hn']. cbn [List.filter]. destruct Hin as [->|Hin].
    - rewrite Z.eqb_refl. cbn [andb].
      assert (List.filter (fun p => (po_id p =? po_id row) && negb (status_in [Confirmed] p)) l = []) as E.
      { apply filter_nil. intros p Hp. destruct (Z.eqb_spec (po_id p) (po_id row)) as [E|]; [|done].
        destruct Hnot. rewrite <- E. now apply in_map. }
      destruct (status_in [Confirmed] row); cbn [negb length]; now rewrite E.
    - destruct (Z.eqb_spec (po_id q) (po_id row)) as [E|]; [|now apply IH].
      destruct Hnot. rewrite E. now apply in_map. }
  split; [done|]. unfold confirm_krc20_payout_once in H. apply db_bind_ok in H as (n & d1 & H & E).
  injection E as _ <-. apply update_payouts_ok in H as [-> _].
  exists (fun p => if negb (status_in [Confirmed] p)
                   then po_confirm (coalesce (po_submitted_at p) (db_now d)) (db_now d) p else p).
  split; [f_equal; apply map_ext; intros p; cbv beta; destruct (po_id p =? po_id row); done|]. split; [done|].
  intros p. destruct (status_in [Confirmed] p); reflexivity.
Qed.

(** The effect of the confirming update on the books. *)
Lemma confirm_effect row d b d1 :
  books_wf d -> In row (db_payouts d) -> confirm_krc20_payout_once (po_id row) d = Ok (b, d1) ->
  books_wf d1 /\ db_rebates d1 = db_rebates d /\ db_krc20 d1 = db_krc20 d /\
  (forall w, confirmed_of d1 w =
     confirmed_of d w + (if b && (po_wallet_id row =? w) then po_amount_sompi row else 0)) /\
  (forall p', In p' (db_payouts d1) -> po_id p' <> po_id row -> In p' (db_payouts d)).
Proof.
  intros [H1 H2 H3] Hin Hc. destruct (confirm_shape _ _ _ _ H1 Hin Hc) as (Ef & f & -> & Efr & Hid).
  assert (forall p, po_id (if po_id p =? po_id row then f p else p) = po_id p) as Hk
    by (intros p; now destruct (_ =? _)).
  split; [constructor; simpl; [| |destruct H3; now split]|].
  { rewrite map_map. erewrite map_ext; [exact H1|exact Hk]. }
  { rewrite List.Forall_map. eapply List.Forall_impl; [|exact H2]. intros p Hlt. simpl in *. now rewrite Hk. }
  split; [done|]. split; [done|]. split.
  - intros w. unfold confirmed_of. simpl. rewrite map_map.
    rewrite (sumZ_map_ext _ (fun p => if po_id p =? po_id row then counted w (f p) else counted w p))
      by (intros p _; now destruct (_ =? _)).
    rewrite sumZ_update_one by done. rewrite Efr, Ef. unfold counted.
    destruct (status_in [Confirmed] row) eqn:Es; cbn [negb].
    + rewrite Es. simpl. lia.
    + rewrite andb_false_r. simpl. rewrite andb_true_r. destruct (_ =? w); lia.
  - simpl. intros p' (p & <- & Hp)%in_map_iff Hne. destruct (_ =? _) eqn:E; [|done].
    apply Z.eqb_eq in E. destruct Hne. rewrite Hid. exact E.
Qed.

(** The payment that follows a fresh confirmation. *)
Definition paid_after (fresh : bool) (row : Payout) (d1 d' : Db) : Prop :=
  db_payouts d' = db_payouts d1 /\ db_krc20 d' = db_krc20 d1 /\ db_seq d1 <= db_seq d' /\
  (rebates_wf d1 -> rebates_wf d' /\ forall w, accrued_of d' w = accrued_of d1 w /\
     paid_of d' w = paid_of d1 w + (if fresh && (po_wallet_id row =? w) then po_amount_sompi row else 0)).

Lemma credit_split t row d b d' :
  credit_tx t row d = Ok (b, d') ->
  exists d1, confirm_krc20_payout_once (kt_payout_id t) d = Ok (b, d1) /\ paid_after b row d1 d'.
Proof.
  unfold credit_tx. intros (fresh & d1 & Hc & H)%db_bind_ok. destruct fresh.
  - apply db_bind_ok in H as (r2 & d2 & Hp & H). apply db_bind_ok in H as (x & d3 & Ha & H).
    injection H as <- <-. injection Ha as _ <-. exists d1. split; [done|].
    destruct (mark_paid_tables _ _ _ _ _ Hp) as (Ep & Ek & Es). unfold paid_after. simpl.
    split; [done|]. split; [done|]. split; [lia|]. intros W.
    destruct (mark_paid_moves _ _ _ _ _ W Hp) as (_ & [U C] & Ea & Epd & Hoth). split; [now split|].
    intros w. change (accrued_of d2 w = accrued_of d1 w /\ paid_of d2 w =
      paid_of d1 w + (if po_wallet_id row =? w then po_amount_sompi row else 0)).
    destruct (Z.eqb_spec (po_wallet_id row) w) as [<-|Hne]; [done|].
    destruct (Hoth w) as [-> ->]; [congruence|]. split; [done|lia].
  - injection H as <- <-. exists d1. split; [done|]. unfold paid_after. simpl. split; [done|]. split; [done|].
    split; [lia|]. intros W. split; [done|]. intros w. split; [done|lia].
Qed.

Lemma credit_krc20 t row d b d' : credit_tx t row d = Ok (b, d') -> db_krc20 d' = db_krc20 d.
Proof.
  intros H. destruct (credit_split _ _ _ _ _ H) as (d1 & Hc & _ & -> & _).
  unfold confirm_krc20_payout_once in Hc. apply db_bind_ok in Hc as (n & dx & Hc & E).
  injection E as _ <-. now apply update_payouts_ok in Hc as [-> _].
Qed.

Lemma credit_books t row d b d' :
  In row (db_payouts d) -> po_id row = kt_payout_id t -> at_status d (kt_payout_id t) KCompleted ->
  credit_tx t row d = Ok (b, d') -> books_wf d -> balanced d d'.
Proof.
  intros Hin Et Hs H W. destruct (credit_split _ _ _ _ _ H) as (d1 & Hc & Ep & Ek & Es & Hr).
  rewrite <- Et in *. destruct (confirm_effect _ _ _ _ W Hin Hc) as ([A1 A2 A3] & Er1 & Ek1 & Hconf & Hold).
  destruct (Hr A3) as [Wr Hb]. assert (db_krc20 d' = db_krc20 d) as Ek' by congruence.
  constructor; [constructor| | | |].
  - now rewrite Ep.
  - rewrite Ep. eapply List.Forall_impl; [|exact A2]. simpl. lia.
  - done.
  - intros w. rewrite (proj1 (Hb w)). unfold accrued_of. now rewrite Er1.
  - intros w. rewrite (proj2 (Hb w)). unfold confirmed_of at 1. rewrite Ep. fold (confirmed_of d1 w).
    rewrite Hconf. unfold paid_of. rewrite Er1. lia.
  - intros i. apply at_status_krc20, Ek'.
  - intros p' Hp' Hs'. destruct (decide (po_id p' = po_id row)) as [->|Hne].
    + right. eapply at_status_krc20; [exact Ek'|exact Hs].
    + left. exists p'. rewrite Ep in Hp'. auto.
Qed.

(** ** The engine *)

Section Credit.
Context {Script : Type} `{MC : MassCalculator Script} `{EV : KasEnv Script}
  `{IE : InscriptionEnv Script} `{XE : Krc20Env Script}.
Implicit Types w : KrcWorld Script.

Definition kkeeps {A} (m : KM A) : Prop := forall w, books (kw_db w) (kw_db (fst (m w))).
Definition ksilent {A} (m : KM A) : Prop := forall w, kw_db (fst (m w)) = kw_db w.

Lemma kkeeps_silent {A} (m : KM A) : ksilent m -> kkeeps m.
Proof. intros H w. rewrite H. apply books_refl. Qed.

Lemma kkeeps_bind {A B} (m : KM A) (k : A -> KM B) :
  kkeeps m -> (forall a, kkeeps (k a)) -> kkeeps (kbind m k).
Proof.
  intros Hm Hk w. unfold kbind. specialize (Hm w). destruct (m w) as [w' [a|e]]; simpl in *; [|done].
  eapply books_trans; [exact Hm|apply Hk].
Qed.

Lemma kkeeps_call {A} (m : XDB A) :
  (forall d a d', m d = Ok (a, d') -> books d d') -> kkeeps (kcall m).
Proof.
  intros H w. unfold kcall. destruct (ke_fault (kw_calls w)); try apply books_refl;
    (destruct (m (kw_db w)) as [[a d]|e] eqn:E; [eapply H, E|apply books_refl]).
Qed.

Lemma kkeeps_call_db {A} (m : DB A) : dkeeps m -> kkeeps (kcall_db m).
Proof.
  intros H. apply kkeeps_call. intros d a d' E. unfold xdb in E.
  destruct (m d) as [[x d1]|] eqn:Em; [|discriminate]. injection E as <- <-. eapply H, Em.
Qed.

Lemma ksilent_ret {A} (a : A) : ksilent (kret a).
Proof. done. Qed.
Lemma ksilent_fail {A} e : ksilent (kfail (A := A) e).
Proof. done. Qed.
Lemma ksilent_lift {A} (r : result A Krc20Error) : ksilent (klift r).
Proof. done. Qed.
Lemma ksilent_node {A} (f : nat -> result A string) : ksilent (kcall_node f).
Proof. done. Qed.
Lemma ksilent_node_try {A} (f : nat -> result A string) : ksilent (kcall_node_try f).
Proof. done. Qed.
Lemma ksilent_quote s : ksilent (kcall_quote s).
Proof. done. Qed.
Lemma ksilent_submit k i tx : ksilent (kcall_submit k i tx).
Proof. done. Qed.
Lemma ksilent_ledger f : ksilent (update_ledger f).
Proof. done. Qed.

#[local] Hint Resolve kkeeps_silent kkeeps_bind kkeeps_call_db ksilent_ret ksilent_fail ksilent_lift ksilent_node
  ksilent_node_try ksilent_quote ksilent_submit ksilent_ledger : books.

Lemma kkeeps_fetch : kkeeps fetch_spendable_utxos.
Proof. unfold fetch_spendable_utxos, in_flight_spend_tx_hashes. auto 10 with books. Qed.
#[local] Hint Resolve kkeeps_fetch : books.

Lemma kkeeps_pending ctx mode : kkeeps (handle_pending ctx mode).
Proof.
  unfold handle_pending, record_commit_tx. apply kkeeps_bind; [auto with books|]. intros us.
  apply kkeeps_bind; [now apply kkeeps_silent|]. intros us'. destruct mode; auto 20 with books.
Qed.

Lemma kkeeps_broadcast_reveal ctx plan op mode : kkeeps (broadcast_reveal ctx plan op mode).
Proof. unfold broadcast_reveal, record_reveal_tx. destruct mode; auto 20 with books. Qed.

Lemma kkeeps_rebroadcast_commit ctx h : kkeeps (rebroadcast_commit ctx h).
Proof.
  unfold rebroadcast_commit. do 4 (apply kkeeps_bind; [auto with books|intros ?]).
  destruct (negb _); auto 10 with books.
Qed.

Lemma kkeeps_rebroadcast_reveal ctx row h : kkeeps (rebroadcast_reveal ctx row h).
Proof.
  unfold rebroadcast_reveal. do 2 (apply kkeeps_bind; [auto with books|intros ?]). cbv zeta.
  destruct (negb _); auto 10 with books.
Qed.
#[local] Hint Resolve kkeeps_pending kkeeps_broadcast_reveal kkeeps_rebroadcast_commit
  kkeeps_rebroadcast_reveal : books.

Lemma kkeeps_commit_submitted ctx row mode : kkeeps (handle_commit_submitted ctx row mode).
Proof.
  unfold handle_commit_submitted. do 3 (apply kkeeps_bind; [auto with books|intros ?]). cbv zeta.
  do 2 (apply kkeeps_bind; [auto with books|intros ?]). destruct (List.find _ _) as [s|].
  - destruct (is_spendable _ _ _); auto with books.
  - apply kkeeps_bind; [auto with books|]. intros []; [auto with books|]. destruct mode; auto with books.
Qed.

Lemma kkeeps_reveal_submitted ctx row mode : kkeeps (handle_reveal_submitted ctx row mode).
Proof.
  unfold handle_reveal_submitted. do 3 (apply kkeeps_bind; [auto with books|intros ?]). cbv zeta.
  apply kkeeps_bind; [destruct (option_map _ _); auto with books|]. intros m.
  destruct (classify_confirmation _); [..|destruct mode]; try destruct mode; auto 10 with books.
Qed.
#[local] Hint Resolve kkeeps_commit_submitted kkeeps_reveal_submitted : books.

Lemma kkeeps_advance rate t mode : kkeeps (advance_transfer rate t mode).
Proof.
  unfold advance_transfer, get_payout, wallet_get_by_id. destruct (krc20_status_in _ t); [auto with books|].
  do 4 (apply kkeeps_bind; [auto with books|intros ?]). destruct (kt_status t); auto with books.
Qed.

Lemma kkeeps_settle limit mode : kkeeps (settle_pending limit mode).
Proof.
  unfold settle_pending, list_krc20_by_status. apply kkeeps_bind; [auto with books|]. intros ts.
  apply kkeeps_bind; [auto with books|]. intros est. cbv zeta.
  apply kkeeps_bind; [auto with books|]. intros _. generalize settle_report0.
  induction ts as [|t ts IH]; intros report w; cbn [settle_loop]; [apply books_refl|].
  pose proof (kkeeps_advance (from_feerate match est with Ok f => f | Err _ => f64_zero end) t mode w) as Ha.
  destruct (advance_transfer _ t mode w) as [w' [step|e]]; simpl in *;
    [|destruct (is_panic e); [done|]]; (eapply books_trans; [exact Ha|apply IH]).
Qed.

Lemma plan_transfers_books p price xonly amt cid el : forall a b n d x d',
  plan_transfers p price xonly amt cid el a b n d = Ok (x, d') -> books d d'.
Proof.
  induction el as [|w el IH]; intros a b n d x d'; cbn [plan_transfers]; unfold xbind, xpure at 1.
  { intros [= _ <-]. apply books_refl. }
  destruct (map_err XRebate _) as [nacho|]; [|discriminate]. cbn [rbind].
  destruct (negb _); [apply IH|]. unfold xpure, xdb.
  destruct (ok_or _ _); [|discriminate]. cbn [rbind].
  destruct (map_err XInscription _); [|discriminate]. cbn [rbind].
  destruct (map_err XInscription _); [|discriminate]. cbn [rbind].
  destruct (ensure_payout _ _ _ d) as [[row d1]|] eqn:E1; [|discriminate]. cbn [map_err].
  destruct (ensure_krc20_pending _ _ _ _ d1) as [[k d2]|] eqn:E2; [|discriminate]. cbn [map_err].
  intros H. eapply books_trans; [eapply dkeeps_ensure_payout, E1|].
  eapply books_trans; [eapply dkeeps_ensure_krc20, E2|]. eapply IH, H.
Qed.

Lemma plan_tx_books p price xonly amt d x d' : plan_krc20_tx p price xonly amt d = Ok (x, d') -> books d d'.
Proof.
  unfold plan_krc20_tx, xbind, xdb.
  destruct (create_cycle _ _ _ d) as [[c d1]|] eqn:E1; [|discriminate]. cbn [map_err].
  destruct (list_krc20_eligible_wallets _ _ d1) as [[el d2]|] eqn:E2; [|discriminate]. cbn [map_err].
  unfold list_krc20_eligible_wallets in E2. apply db_read_checked_same in E2 as <-.
  destruct (plan_transfers _ _ _ _ _ _ _ _ _ d1) as [[[[tot rec] n] d3]|] eqn:E3; [|discriminate].
  destruct (set_cycle_totals _ _ _ d3) as [[u d4]|] eqn:E4; [|discriminate]. cbn [map_err].
  destruct (audit_append _ d4) as [[v d5]|] eqn:E5; [|discriminate]. cbn [map_err].
  intros [= _ <-]. eapply books_trans; [eapply dkeeps_create_cycle, E1|].
  eapply books_trans; [eapply plan_transfers_books, E3|].
  eapply books_trans; [eapply dkeeps_totals, E4|eapply dkeeps_audit, E5].
Qed.

Lemma kkeeps_plan xonly p : kkeeps (resume_or_plan_krc20_cycle xonly p).
Proof.
  unfold resume_or_plan_krc20_cycle, plan_krc20_cycle, find_cycle_by_idempotency_key, list_krc20_for_cycle, get_cycle.
  apply kkeeps_bind; [auto with books|]. intros [c|]; [auto 10 with books|].
  do 2 (apply kkeeps_bind; [auto with books|intros ?]).
  apply kkeeps_bind; [apply kkeeps_call; intros d x d'; apply plan_tx_books|]. intros cy. auto 10 with books.
Qed.

Lemma kreads_get_payout t :
  reads (fun d row => In row (db_payouts d) /\ po_id row = kt_payout_id t)
    (kcall_db (get_payout (kt_payout_id t))).
Proof.
  apply kreads_call. intros d row d' H. pose proof (db_read_checked_same _ _ _ _ H). subst d'.
  unfold get_payout, db_read_checked, find_payout in H.
  destruct (List.find _ _) as [p|] eqn:E; [|discriminate]. injection H as <-.
  apply List.find_some in E as [Hin E%Z.eqb_eq]. auto.
Qed.

Lemma kkeeps_credit_loop ts : forall report w,
  Forall (fun t => at_status (kw_db w) (kt_payout_id t) KCompleted) ts ->
  books (kw_db w) (kw_db (fst (credit_loop ts report w))).
Proof.
  induction ts as [|t ts IH]; intros report w Ha; cbn [credit_loop]; [apply books_refl|].
  inversion_clear Ha as [|? ? Ht Hts]. unfold kbind at 1.
  destruct (kreads_get_payout t w) as (Ed & _ & HQ). destruct (kcall_db (get_payout _) w) as [w1 [row|e]]; simpl in *;
    [|rewrite Ed; apply books_refl]. destruct (HQ row eq_refl) as [Hin Eid]. clear HQ.
  rewrite <- Ed in Ht, Hts, Hin |- *.
  assert (forall b d', credit_tx t row (kw_db w1) = Ok (b, d') -> books (kw_db w1) d' /\
            Forall (fun t => at_status d' (kt_payout_id t) KCompleted) ts) as Hc.
  { intros b d' E. split; [intros W; now apply (credit_books t row (kw_db w1) b)|].
    eapply List.Forall_impl; [|exact Hts]. intros t'. apply at_status_krc20. eapply credit_krc20, E. }
  unfold kbind, kcall_db, kcall, xdb. destruct (ke_fault (kw_calls w1)); try apply books_refl;
    (destruct (credit_tx t row (kw_db w1)) as [[b d']|e] eqn:E; [|apply books_refl]);
    destruct (Hc b d' eq_refl) as [Hb Hall]; [|exact Hb]. cbn [map_err].
  eapply books_trans; [exact Hb|]. apply (IH _ (k_with_db d' (k_tick w1))). exact Hall.
Qed.

Lemma kkeeps_credit limit : kkeeps (credit_completed_transfers limit).
Proof.
  intros w. unfold credit_completed_transfers, kbind at 1.
  destruct (kreads_list_by_status [KCompleted] limit w) as (Ed & _ & HQ).
  assert (reads (fun _ ts => Forall (fun t => kt_status t = KCompleted) ts)
            (kcall_db (list_krc20_by_status [KCompleted] limit))) as Hr.
  { apply kreads_call. intros d ts d' H. pose proof (db_read_checked_same _ _ _ _ H). subst d'.
    split; [done|]. unfold list_krc20_by_status, db_read_checked, sql_limit in H.
    destruct (limit <? 0); [discriminate|]. injection H as <-. rewrite List.Forall_forall. intros t Ht.
    apply In_firstn, sort_by_In, filter_In in Ht as [_ Ht]. unfold krc20_status_in in Ht. simpl in Ht.
    rewrite orb_false_r in Ht. now apply bool_decide_eq_true in Ht. }
  destruct (Hr w) as (_ & _ & HQ').
  destruct (kcall_db _ w) as [w1 [ts|e]]; simpl in *; [|rewrite Ed; apply books_refl].
  rewrite <- Ed. apply kkeeps_credit_loop. rewrite Ed. destruct (HQ ts eq_refl) as [Ha _].
  specialize (HQ' ts eq_refl). rewrite List.Forall_forall in *. intros t Ht. rewrite <- (HQ' t Ht). auto.
Qed.

Lemma kkeeps_run_once cfg : kkeeps (krc20_run_once cfg).
Proof.
  unfold krc20_run_once, krc20_run_locked, reconcile_krc20_cycle_status, list_krc20_for_cycle.
  apply kkeeps_bind; [now apply kkeeps_silent|]. intros []; [|auto with books].
  do 2 (apply kkeeps_bind; [auto with books|intros ?]). cbv zeta.
  apply kkeeps_bind; [apply kkeeps_plan|]. intros st.
  destruct (over_spend_cap _ _); [auto with books|].
  apply kkeeps_bind; [apply kkeeps_settle|]. intros se.
  apply kkeeps_bind; [destruct (is_dry_run _); [auto with books|apply kkeeps_credit]|]. intros cr.
  auto 10 with books.
Qed.

(** C5. The rebate books balance: whatever the node, the quote source and the
    database's faults do in a tick, what each wallet has been paid grows by
    exactly the amounts of its payouts the tick newly confirmed, nothing is
    accrued, and a payout is newly confirmed only when its transfer has
    completed. *)
Theorem krc20_books_balance cfg w :
  books_wf (kw_db w) ->
  let d := kw_db w in
  let d' := kw_db (fst (krc20_run_once cfg w)) in
  books_wf d' /\
  (forall x, accrued_of d' x = accrued_of d x /\
     paid_of d' x - paid_of d x = confirmed_of d' x - confirmed_of d x) /\
  forall p', In p' (db_payouts d') -> po_status p' = Confirmed ->
    (exists p, In p (db_payouts d) /\ po_id p = po_id p' /\ po_status p = Confirmed) \/
    at_status d' (po_id p') KCompleted.
Proof.
  intros W. destruct (kkeeps_run_once cfg w W) as [W' A P _ E]. split; [done|]. split; [|done].
  intros x. auto.
Qed.
End Credit.
