(* ===== verification/Krc20Spec.v ===== *)
(** * The KRC-20 engine at work

    A deployment followed over several ticks, used as the witness of the engine's
    theorems, and two histories in which the engine does not do what it is meant
    to. *)
From S2P Require Import Prelude F64 FeeModel Schema Domain AccountDb IngestDb PayoutDb StorageMass StorageMassSpec KasEngine Krc20Price Krc20PriceSpec Krc20Plan Krc20PlanSpec Krc20Engine Krc20Safety Krc20Credit.
Open Scope Z_scope.

(** One NACHO base unit costs a hundredth of a sompi. *)
Definition demo_price : FloorPrice := mkFloorPrice 1 2.

#[export] Instance demo_quotes (p2sh : list (TreasuryUtxo Z)) : Krc20Env Z := {|
  xe_p2sh_utxos _ _ := Ok p2sh;
  xe_floor_price _ _ := Ok demo_price
|}.

(** A tick against the given node. *)
Definition tick_at (daa : Z) (coins p2sh : list (TreasuryUtxo Z)) (answer : result bytes string)
    (cfg : Krc20PayoutEngineConfig) (w : KrcWorld Z) : KrcWorld Z :=
  fst (krc20_run_once (EV := demo_env (fun _ => coins) (fun _ => answer) (fun _ => NoFault) daa)
         (XE := demo_quotes p2sh) cfg w).

Definition krc_cfg (limit : Z) (cap : option Z) : Krc20PayoutEngineConfig :=
  mkKrc20Config 1000 Live 100000 100000 "NACHO" DEFAULT_COMMIT_AMOUNT_SOMPI limit cap.

Definition krc_db : Db :=
  mkDb 50 20 [mkWallet 3 "zkas:alice" "mainnet" 0 0] [] [] [] [] [mkRebate 3 700000000 0 0] [] [] [] ∅ []
    [] [] [] [].

Definition krc_world0 : KrcWorld Z := mkKrcWorld krc_db [] 0 (mkLedger [] []).
Definition krc_coins : list (TreasuryUtxo Z) := [demo_coin 0 50000000].

(** The commit is recorded but its broadcast fails; it is sent again; the reveal
    follows it; the reveal confirms. *)
Definition krc_world1 : KrcWorld Z := tick_at 5100 krc_coins [] (Err "timeout"%string) (krc_cfg 10 None) krc_world0.
Definition krc_world2 : KrcWorld Z := tick_at 5150 krc_coins [] (Ok []) (krc_cfg 10 None) krc_world1.
Definition sent_id (n : nat) (w : KrcWorld Z) : bytes :=
  match nth_error (kw_log w) n with Some s => demo_txid (ks_tx s) | None => [] end.
Definition krc_commit_coin : TreasuryUtxo Z :=
  mkTreasuryUtxo (mkOutpoint (sent_id 0 krc_world1) 0) (mkUtxoEntry DEFAULT_COMMIT_AMOUNT_SOMPI 0 5160 false None).
Definition krc_world3 : KrcWorld Z := tick_at 5200 [] [krc_commit_coin] (Ok []) (krc_cfg 10 None) krc_world2.
Definition krc_return_coin : TreasuryUtxo Z :=
  mkTreasuryUtxo (mkOutpoint (sent_id 2 krc_world3) 0) (mkUtxoEntry 19000000 0 5210 false None).
Definition krc_world4 : KrcWorld Z := tick_at 5400 [krc_return_coin] [] (Ok []) (krc_cfg 10 None) krc_world3.

Lemma demo_laws coins submit fault daa :
  @Krc20Laws Z (demo_env coins submit fault daa) demo_inscription.
Proof.
  constructor; [intros tx es tx' [= <-]; reflexivity|]. intros tx sig. cbn. unfold with_signature, demo_txid.
  destruct (tx_inputs tx) as [|i l]; reflexivity.
Qed.

Definition krc_quiet : KasEnv Z := demo_env (fun _ => []) (fun _ => Ok []) (fun _ => NoFault) 0.

Lemma tick_at_step daa coins p2sh answer cfg w :
  krc_step (EV0 := krc_quiet) w (tick_at daa coins p2sh answer cfg w).
Proof. apply XTick; [apply demo_laws|done]. Qed.

Lemma krc_demo_reachable : krc_reachable (EV0 := krc_quiet) krc_db krc_world3.
Proof.
  apply (rtc_l _ _ krc_world1); [apply tick_at_step|]. apply (rtc_l _ _ krc_world2); [apply tick_at_step|].
  apply rtc_once, tick_at_step.
Qed.

Lemma krc20_one_commit_one_reveal_witness :
  length (kw_log krc_world3) = 3%nat /\
  forall s s', In s (kw_log krc_world3) -> In s' (kw_log krc_world3) -> ks_payout s = ks_payout s' ->
    ks_kind s = ks_kind s' -> demo_txid (ks_tx s) = demo_txid (ks_tx s').
Proof.
  split; [vm_compute; reflexivity|].
  refine (proj1 (krc20_one_commit_one_reveal (EV0 := krc_quiet) krc_db krc_world3 _ krc_demo_reachable)).
  constructor; constructor.
Defined.

Lemma krc_rows3 :
  let d := kw_db krc_world3 in
  map po_id (db_payouts d) = [21] /\ forallb (fun p => po_id p <? db_seq d) (db_payouts d) = true /\
  map nr_wallet_id (db_rebates d) = [3] /\ forallb rebate_check (db_rebates d) = true.
Proof. vm_compute. auto. Qed.

Lemma books_wf_single d i j :
  map po_id (db_payouts d) = [i] /\ forallb (fun p => po_id p <? db_seq d) (db_payouts d) = true /\
  map nr_wallet_id (db_rebates d) = [j] /\ forallb rebate_check (db_rebates d) = true -> books_wf d.
Proof.
  intros (E1 & E2 & E3 & E4). rewrite List.forallb_forall in E2, E4.
  constructor; [rewrite E1; repeat constructor; intros []| |constructor; [rewrite E3; repeat constructor; intros []|]];
    apply List.Forall_forall; intros x Hx; [apply Z.ltb_lt|]; auto.
Qed.

Lemma krc_books3 : books_wf (kw_db krc_world3).
Proof. exact (books_wf_single _ _ _ krc_rows3). Qed.

Lemma krc20_books_balance_witness :
  paid_of (kw_db krc_world3) 3 = 0 /\ paid_of (kw_db krc_world4) 3 = 700000000 /\
  paid_of (kw_db krc_world4) 3 - paid_of (kw_db krc_world3) 3 =
    confirmed_of (kw_db krc_world4) 3 - confirmed_of (kw_db krc_world3) 3.
Proof.
  split; [vm_compute; reflexivity|]. split; [vm_compute; reflexivity|].
  exact (proj2 (proj1 (proj2 (krc20_books_balance
           (EV := demo_env (fun _ => [krc_return_coin]) (fun _ => Ok []) (fun _ => NoFault) 5400)
           (XE := demo_quotes []) (krc_cfg 10 None) krc_world3 krc_books3)) 3)).
Defined.

(** ** The spend cap lasts one window *)

Definition capped : Krc20PayoutEngineConfig := krc_cfg 10 (Some 1000000).
Definition capped_world : KrcWorld Z := tick_at 5100 krc_coins [] (Ok []) capped krc_world0.

(** The per-cycle spend cap does not hold an over-cap cycle back: the tick
    that plans 70000000000 base units under a cap of 1000000 refuses to settle
    and sends nothing, as intended; the first tick of the next window checks its
    own, empty cycle against the cap and then settles every open transfer, and
    sends the commit of the refused one. *)
Theorem spend_cap_lapses :
  (exists total, snd (krc20_run_once
      (EV := demo_env (fun _ => krc_coins) (fun _ => Ok []) (fun _ => NoFault) 5100)
      (XE := demo_quotes []) capped krc_world0) = Err (XSpendCapExceeded total 1000000)) /\
  kw_log capped_world = [] /\
  let next := tick_at 6100 krc_coins [] (Ok []) capped capped_world in
  map ks_kind (kw_log next) = [CommitTx] /\ map kt_nacho_amount (db_krc20 (kw_db next)) = [70000000000].
Proof. split; [eexists; vm_compute; reflexivity|]. vm_compute. auto. Qed.

(** ** Crediting can starve *)

Section Starve.
Context {Script : Type} `{EV : KasEnv Script}.

Lemma credit_confirmed_noop t row d b d' :
  List.NoDup (map po_id (db_payouts d)) -> In row (db_payouts d) -> po_id row = kt_payout_id t ->
  po_status row = Confirmed -> credit_tx t row d = Ok (b, d') -> d' = set_payouts (db_payouts d) d.
Proof.
  intros Hn Hin Eid Hs H. destruct (credit_split _ _ _ _ _ H) as (d1 & Hc & _).
  unfold credit_tx in H. rewrite <- Eid in *. pose proof Hc as Hc'. unfold db_bind in H. rewrite Hc' in H.
  destruct (confirm_shape _ _ _ _ Hn Hin Hc) as (Eb & f & Ed1 & Ef & _).
  apply status_in_single in Hs. rewrite Hs in Eb. simpl in Eb. subst b. injection H as <-. rewrite Ed1.
  f_equal. rewrite <- (map_id (db_payouts d)) at 2. apply map_ext_in. intros p Hp.
  destruct (Z.eqb_spec (po_id p) (po_id row)) as [E|]; [|done].
  rewrite (NoDup_map_inj po_id (db_payouts d) p row) by done. exact Ef.
Qed.

(** The oldest [limit] completed transfers are all credited already. *)
Definition head_credited (limit : Z) (d : Db) : Prop :=
  Forall (fun t => exists row, In row (db_payouts d) /\ po_id row = kt_payout_id t /\ po_status row = Confirmed)
    (firstn (Z.to_nat limit)
       (sort_by (fun a b => kt_created_at a <=? kt_created_at b)
          (List.filter (krc20_status_in [KCompleted]) (db_krc20 d)))).

Lemma set_payouts_same d : set_payouts (db_payouts d) d = d.
Proof. now destruct d. Qed.

Lemma credit_loop_noop ts : forall report (w : KrcWorld Script),
  List.NoDup (map po_id (db_payouts (kw_db w))) ->
  Forall (fun t => exists row, In row (db_payouts (kw_db w)) /\ po_id row = kt_payout_id t /\
    po_status row = Confirmed) ts ->
  kw_db (fst (credit_loop ts report w)) = kw_db w.
Proof.
  induction ts as [|t ts IH]; intros report w Hn Ha; cbn [credit_loop]; [done|].
  inversion_clear Ha as [|? ? (row & Hin & Eid & Hs) Hts]. unfold kbind at 1.
  destruct (kreads_get_payout t w) as (Ed & _ & HQ).
  destruct (kcall_db (get_payout _) w) as [w1 [r|e]]; simpl in *; [|done].
  destruct (HQ r eq_refl) as [Hr Er].
  assert (r = row) as -> by (apply (NoDup_map_inj po_id (db_payouts (kw_db w))); auto; congruence).
  rewrite <- Ed in *. unfold kbind, kcall_db, kcall, xdb.
  pose proof (fun b d' => credit_confirmed_noop t row (kw_db w1) b d' Hn Hin Eid Hs) as Hc.
  destruct (ke_fault (kw_calls w1)); [|done|];
    (destruct (credit_tx t row (kw_db w1)) as [[b d']|e]; [|done]);
    rewrite (Hc b d' eq_refl), set_payouts_same in *; [|done]. simpl.
  now apply (IH _ (k_with_db (kw_db w1) (k_tick w1))).
Qed.

(** Crediting starves: once the oldest [limit] completed transfers are
    credited, the crediting pass changes nothing, whatever else has completed
    since; completed transfers never leave that status, so no later one is ever
    credited and its wallet's rebate stays unpaid in the books. *)
Theorem krc20_credit_starves limit (w : KrcWorld Script) :
  List.NoDup (map po_id (db_payouts (kw_db w))) -> head_credited limit (kw_db w) ->
  kw_db (fst (credit_completed_transfers limit w)) = kw_db w.
Proof.
  intros Hn Hh. unfold credit_completed_transfers, kbind at 1.
  assert (reads (fun d ts => head_credited limit d -> Forall (fun t => exists row, In row (db_payouts d) /\
            po_id row = kt_payout_id t /\ po_status row = Confirmed) ts)
            (kcall_db (list_krc20_by_status [KCompleted] limit))) as Hr.
  { apply kreads_call. intros d ts d' H. pose proof (db_read_checked_same _ _ _ _ H). subst d'. split; [done|].
    unfold list_krc20_by_status, db_read_checked, sql_limit in H.
    destruct (limit <? 0); [discriminate|]. injection H as <-. auto. }
  destruct (Hr w) as (Ed & _ & HQ).
  destruct (kcall_db _ w) as [w1 [ts|e]]; simpl in *; [|done].
  rewrite <- Ed. apply credit_loop_noop; rewrite Ed; [done|]. now apply HQ.
Qed.
End Starve.

(** Two completed transfers, the older one credited, and a batch limit of one. *)
Definition starved_db : Db :=
  mkDb 90 40 [] [] [] [] [] [mkRebate 3 700 700 0; mkRebate 4 500 0 0] []
    [mkPayout 21 20 3 700 Confirmed None None None 10 None None None None;
     mkPayout 23 20 4 500 Planned None None None 10 None None None None]
    [mkKrc20 22 21 1000 70000 "a" KCompleted None None 10 30; mkKrc20 24 23 1000 50000 "b" KCompleted None None 20 40]
    ∅ [] [] [] [] [].

Lemma krc20_credit_starves_witness :
  kw_db (fst (credit_completed_transfers (EV := krc_quiet) 1 (mkKrcWorld starved_db [] 0 (mkLedger [] []))))
    = starved_db /\
  paid_of (kw_db (fst (credit_completed_transfers (EV := krc_quiet) 2
     (mkKrcWorld starved_db [] 0 (mkLedger [] []))))) 4 = 500.
Proof.
  split; [|vm_compute; reflexivity].
  apply (krc20_credit_starves (EV := krc_quiet) 1 (mkKrcWorld starved_db [] 0 (mkLedger [] []))).
  - simpl. repeat constructor; simpl; intuition lia.
  - repeat constructor. eexists. split; [left; reflexivity|]. done.
Defined.
