(* ===== verification/Hasher.v ===== *)
(** * Targets, block headers and job encodings ([bridge/src/hasher.rs])

    The difficulty-to-target conversions in binary64 and big integers, the compact
    target format, the bytes the pre-PoW hash is taken of and the job strings sent
    to miners, with the theorems that the encodings lose nothing. *)
From Stdlib Require Import SpecFloat.
From S2P Require Import Prelude F64 Schema Domain.
Open Scope Z_scope.

(** ** Bytes of machine integers *)

Fixpoint to_le_bytes (n : nat) (z : Z) : bytes :=
  match n with O => [] | S n => z mod 256 :: to_le_bytes n (z / 256) end.
Definition to_be_bytes (n : nat) (z : Z) : bytes := rev (to_le_bytes n z).
Definition from_le_bytes (l : bytes) : Z := fold_right (fun b acc => b + 256 * acc) 0 l.
Definition from_be_bytes (l : bytes) : Z := from_le_bytes (rev l).

(** ** Numbers in text *)

(** [char::to_digit] for a radix of at most 16. *)
Definition digit_value (radix c : Z) : option Z :=
  let d := if is_ascii_digit c then c - 48
           else if is_ascii_lowercase c then c - 87
           else if is_ascii_uppercase c then c - 55
           else radix in
  if d <? radix then Some d else None.

Fixpoint parse_u64_digits (radix acc : Z) (s : text) : option Z :=
  match s with
  | [] => Some acc
  | c :: s =>
      match digit_value radix c with
      | None => None
      | Some d =>
          match checked_u64 (acc * radix + d) with
          | Some acc => parse_u64_digits radix acc s
          | None => None
          end
      end
  end.

(** [u64::from_str_radix]: an optional plus sign, then at least one digit. *)
Definition parse_u64_radix (radix : Z) (s : text) : option Z :=
  match s with
  | [] => None
  | [c] => parse_u64_digits radix 0 [c]
  | c :: rest => if c =? 43 then parse_u64_digits radix 0 rest else parse_u64_digits radix 0 s
  end.

(** [x as u128]: truncates, saturates, and maps NaN to 0. *)
Definition f64_as_u128 (x : f64) : Z :=
  match x with
  | S754_zero _ | S754_nan => 0
  | S754_infinity s => if s then 0 else 2 ^ 128 - 1
  | S754_finite s m e => Z.max 0 (Z.min (2 ^ 128 - 1) (trunc_Z s m e))
  end.

(** ** Difficulty *)

Definition MAX_TARGET : Z := 2 ^ 224 - 1.
Definition min_hash : f64 := f64_of_Z (2 ^ 32).
Definition BIG_GIG : f64 := f64_of_Z 1000000000.
Definition KASPA_MAX_TARGET : Z := 2 ^ 64 - 1.

Record KaspaDiff := mkDiff {
  kd_hash_value : f64;
  kd_diff_value : f64;
  kd_target_value : Z
}.

Definition KaspaDiff_default : KaspaDiff := mkDiff f64_zero f64_zero 0.

Definition diff_to_hash (diff : f64) : f64 := f64_div (f64_mul min_hash diff) BIG_GIG.

(** A big-integer division; [None] is the panic on a zero divisor. *)
Definition big_div (a b : Z) : option Z := if b =? 0 then None else Some (a / b).

Definition diff_to_target_alternative (diff : f64) : option Z :=
  if f64_leb diff f64_zero then Some MAX_TARGET
  else big_div (KASPA_MAX_TARGET * 1000000) (f64_as_u64 (f64_mul diff (f64_of_Z 1000000))).

Definition stratum_difficulty_to_target_kaspa (stratum_diff : Z) : option Z :=
  if stratum_diff =? 0 then Some (KASPA_MAX_TARGET * 1000)
  else big_div (KASPA_MAX_TARGET * 1000) (stratum_diff * 1000).

Definition diff_to_target_standard (diff : f64) : option Z :=
  if f64_leb diff f64_zero then Some MAX_TARGET
  else big_div (MAX_TARGET * 10 ^ 18) (f64_as_u128 (f64_mul diff (f64_of_Z (10 ^ 18)))).

(** The two switches are environment variables, off unless set to [true]; each
    alternative also evaluates the standard target for its log line. *)
Definition diff_to_target (use_stratum_alt use_alternative : bool) (diff : f64) : option Z :=
  if use_stratum_alt then
    match stratum_difficulty_to_target_kaspa (f64_as_u64 diff), diff_to_target_standard diff with
    | Some t, Some _ => Some t
    | _, _ => None
    end
  else if use_alternative then
    match diff_to_target_alternative diff, diff_to_target_standard diff with
    | Some t, Some _ => Some t
    | _, _ => None
    end
  else diff_to_target_standard diff.

(** [KaspaDiff::set_diff_value] with the switches off. *)
Definition set_diff_value (diff : f64) : option KaspaDiff :=
  match diff_to_target false false diff with
  | Some t => Some (mkDiff (diff_to_hash diff) diff t)
  | None => None
  end.

Definition calculate_target (bits : Z) : Z :=
  let exponent := Z.shiftr bits 24 in
  let mantissa := Z.land bits 16777215 in
  if exponent <=? 3 then Z.shiftr mantissa (8 * (3 - exponent))
  else Z.shiftl mantissa (8 * (exponent - 3)).

Definition big_diff_to_little (diff : Z) : f64 :=
  f64_div (f64_div (f64_of_Z (2 ^ 254)) (f64_of_Z diff)) (f64_of_Z (2 ^ 31)).

(** ** Block headers *)

Record Header := mkHeader {
  hd_version : Z;
  hd_parents_by_level : list (list bytes);
  hd_hash_merkle_root : bytes;
  hd_accepted_id_merkle_root : bytes;
  hd_utxo_commitment : bytes;
  hd_timestamp : Z;
  hd_bits : Z;
  hd_nonce : Z;
  hd_daa_score : Z;
  hd_blue_score : Z;
  hd_blue_work : Z;
  hd_pruning_point : bytes
}.

Definition set_nonce (n : Z) (h : Header) : Header :=
  mkHeader (hd_version h) (hd_parents_by_level h) (hd_hash_merkle_root h) (hd_accepted_id_merkle_root h)
    (hd_utxo_commitment h) (hd_timestamp h) (hd_bits h) n (hd_daa_score h) (hd_blue_score h)
    (hd_blue_work h) (hd_pruning_point h).

Fixpoint drop_zeros (l : bytes) : bytes :=
  match l with
  | b :: l' => if b =? 0 then drop_zeros l' else l
  | [] => []
  end.

(** A level of parents: its length, then the hashes. *)
Definition level_bytes (level : list bytes) : bytes :=
  to_le_bytes 8 (Z.of_nat (length level)) ++ concat level.

(** The bytes [serialize_block_header] feeds to the block hasher, in its order:
    timestamp and nonce are written as zero; the 192-bit blue work as its
    big-endian bytes without leading zeros. *)
Definition pre_pow_bytes (h : Header) : bytes :=
  let blue_work := drop_zeros (to_be_bytes 24 (hd_blue_work h)) in
  to_le_bytes 2 (hd_version h) ++
  to_le_bytes 8 (Z.of_nat (length (hd_parents_by_level h))) ++
  concat (map level_bytes (hd_parents_by_level h)) ++
  hd_hash_merkle_root h ++ hd_accepted_id_merkle_root h ++ hd_utxo_commitment h ++
  to_le_bytes 8 0 ++ to_le_bytes 4 (hd_bits h) ++ to_le_bytes 8 0 ++
  to_le_bytes 8 (hd_daa_score h) ++ to_le_bytes 8 (hd_blue_score h) ++
  to_le_bytes 8 (Z.of_nat (length blue_work)) ++ blue_work ++ hd_pruning_point h.

(** [block_hash] is the keyed hash function of the consensus crate. *)
Definition serialize_block_header (block_hash : bytes -> bytes) (h : Header) : bytes :=
  block_hash (pre_pow_bytes h).

(** ** Job encodings *)

(** The [i]-th group of eight bytes, when there is one. *)
Definition group8 (data : bytes) (i : nat) : option bytes :=
  if (i * 8 + 8 <=? length data)%nat then Some (firstn 8 (skipn (i * 8) data)) else None.

Definition generate_job_header (header_data : bytes) : list Z :=
  map from_le_bytes (omap (group8 header_data) (seq 0 4)).

(** [{:016x}]. *)
Definition hex_u64 (v : Z) : text := BlockHash_display (to_be_bytes 8 v).

Definition generate_iceriver_job_params (pre_pow_hash : bytes) (timestamp : Z) : text :=
  BlockHash_display pre_pow_hash ++ BlockHash_display (to_le_bytes 8 timestamp).

(** [None] is the out-of-bounds panic on a short header. *)
Definition generate_large_job_params (header_data : bytes) (timestamp : Z) : option text :=
  let ids := map from_be_bytes (omap (group8 header_data) (seq 0 4)) ++
             [from_le_bytes (to_be_bytes 8 timestamp)] in
  match ids with
  | [a; b; c; d; e] => Some (hex_u64 a ++ hex_u64 b ++ hex_u64 c ++ hex_u64 d ++ hex_u64 e)
  | _ => None
  end.

(** ** Integers and their bytes *)

Lemma to_le_length n z : length (to_le_bytes n z) = n.
Proof. revert z. induction n as [|n IH]; intros z; simpl; [done|]. now rewrite IH. Qed.

Lemma to_le_byte n z : Forall is_byte (to_le_bytes n z).
Proof.
  revert z. induction n as [|n IH]; intros z; simpl; constructor; auto.
  apply Z.mod_pos_bound. lia.
Qed.

Lemma from_to_le n z : 0 <= z < 256 ^ Z.of_nat n -> from_le_bytes (to_le_bytes n z) = z.
Proof.
  revert z. induction n as [|n IH]; intros z Hz; [simpl in *; lia|].
  rewrite Nat2Z.inj_succ, Z.pow_succ_r in Hz by lia. simpl. unfold from_le_bytes in IH. rewrite IH.
  - pose proof (Z.div_mod z 256). lia.
  - split; [apply Z.div_pos; lia|apply Z.div_lt_upper_bound; lia].
Qed.

Lemma to_from_le l : Forall is_byte l -> to_le_bytes (length l) (from_le_bytes l) = l.
Proof.
  induction 1 as [|b l Hb _ IH]; [done|]. unfold is_byte in Hb.
  cbn [length to_le_bytes from_le_bytes fold_right].
  fold (from_le_bytes l). rewrite (Z.mul_comm 256), Z.mod_add, Z.div_add, Z.mod_small, Z.div_small, Z.add_0_l, IH by lia.
  done.
Qed.

Lemma to_le_inj n a b :
  0 <= a < 256 ^ Z.of_nat n -> 0 <= b < 256 ^ Z.of_nat n -> to_le_bytes n a = to_le_bytes n b -> a = b.
Proof. intros Ha Hb E. rewrite <- (from_to_le n a), <- (from_to_le n b), E by done. done. Qed.

Lemma to_from_be l : Forall is_byte l -> to_be_bytes (length l) (from_be_bytes l) = l.
Proof.
  intros H. unfold to_be_bytes, from_be_bytes. rewrite <- (length_rev l), to_from_le by now apply Forall_rev.
  apply rev_involutive.
Qed.

Lemma app_inj_len {A} (a a' b b' : list A) : length a = length a' -> a ++ b = a' ++ b' -> a = a' /\ b = b'.
Proof.
  revert a'. induction a as [|x a IH]; intros [|x' a'] L E; simpl in *; try discriminate; [done|].
  injection E as -> E. injection L as L. destruct (IH a' L E) as [-> ->]. done.
Qed.

(** ** Headers *)

Definition hash32 (h : bytes) : Prop := length h = 32%nat.

(** The fields within their types. *)
Record header_ok (h : Header) : Prop := {
  ho_version : 0 <= hd_version h < 2 ^ 16;
  ho_levels : Z.of_nat (length (hd_parents_by_level h)) < 2 ^ 64;
  ho_parents : Forall (fun l => Z.of_nat (length l) < 2 ^ 64 /\ Forall hash32 l) (hd_parents_by_level h);
  ho_roots : Forall hash32 [hd_hash_merkle_root h; hd_accepted_id_merkle_root h; hd_utxo_commitment h; hd_pruning_point h];
  ho_bits : 0 <= hd_bits h < 2 ^ 32;
  ho_daa : in_u64 (hd_daa_score h);
  ho_blue : in_u64 (hd_blue_score h);
  ho_work : 0 <= hd_blue_work h < 2 ^ 192
}.

Lemma concat_inj_len (l l' : list bytes) r r' :
  Forall hash32 l -> Forall hash32 l' -> length l = length l' -> concat l ++ r = concat l' ++ r' ->
  l = l' /\ r = r'.
Proof.
  intros H. revert l'. induction H as [|x l Hx Hl IH]; intros l' H' L E.
  - destruct l'; [auto|discriminate].
  - destruct l' as [|x' l']; [discriminate|]. inversion_clear H' as [|? ? Hx' Hl']. simpl in E.
    rewrite <- !app_assoc in E. injection L as L.
    apply app_inj_len in E as [-> E]; [|unfold hash32 in *; congruence].
    destruct (IH l' Hl' L E) as [-> ->]. done.
Qed.

Lemma levels_inj (l l' : list (list bytes)) r r' :
  Forall (fun v => Z.of_nat (length v) < 2 ^ 64 /\ Forall hash32 v) l ->
  Forall (fun v => Z.of_nat (length v) < 2 ^ 64 /\ Forall hash32 v) l' ->
  length l = length l' -> concat (map level_bytes l) ++ r = concat (map level_bytes l') ++ r' ->
  l = l' /\ r = r'.
Proof.
  intros H. revert l'. induction H as [|x l [Hx Hx32] Hl IH]; intros l' H' L E.
  - destruct l'; [auto|discriminate].
  - destruct l' as [|x' l']; [discriminate|]. inversion_clear H' as [|? ? [Hx' Hx32'] Hl'].
    cbn [map concat] in E. unfold level_bytes at 1 3 in E. rewrite <- !app_assoc in E. injection L as L.
    apply app_inj_len in E as [En E]; [|now rewrite !to_le_length].
    apply to_le_inj in En; [|simpl; lia ..]. apply Nat2Z.inj in En.
    apply concat_inj_len in E as [-> E]; [|done ..]. destruct (IH l' Hl' L E) as [-> ->]. done.
Qed.

Lemma drop_zeros_value l : from_be_bytes (drop_zeros l) = from_be_bytes l.
Proof.
  induction l as [|b l IH]; [done|]. simpl. destruct (Z.eqb_spec b 0) as [->|]; [|done].
  rewrite IH. unfold from_be_bytes, from_le_bytes. simpl. rewrite fold_right_app. done.
Qed.

Lemma drop_zeros_work z :
  0 <= z < 2 ^ 192 -> from_be_bytes (drop_zeros (to_be_bytes 24 z)) = z.
Proof.
  intros H. rewrite drop_zeros_value. unfold from_be_bytes, to_be_bytes. rewrite rev_involutive.
  apply from_to_le. exact H.
Qed.

Lemma drop_zeros_length z : (length (drop_zeros (to_be_bytes 24 z)) <= 24)%nat.
Proof.
  transitivity (length (to_be_bytes 24 z)); [|unfold to_be_bytes; now rewrite length_rev, to_le_length].
  generalize (to_be_bytes 24 z). intros l. induction l as [|b l IH]; simpl; [lia|].
  destruct (b =? 0); simpl; lia.
Qed.

(** The fields a pre-PoW hash commits to: all but timestamp and nonce. *)
Definition same_work (h h' : Header) : Prop :=
  mkHeader (hd_version h) (hd_parents_by_level h) (hd_hash_merkle_root h) (hd_accepted_id_merkle_root h)
    (hd_utxo_commitment h) 0 (hd_bits h) 0 (hd_daa_score h) (hd_blue_score h) (hd_blue_work h) (hd_pruning_point h)
  = mkHeader (hd_version h') (hd_parents_by_level h') (hd_hash_merkle_root h') (hd_accepted_id_merkle_root h')
    (hd_utxo_commitment h') 0 (hd_bits h') 0 (hd_daa_score h') (hd_blue_score h') (hd_blue_work h') (hd_pruning_point h').

Ltac split_field E :=
  apply app_inj_len in E as [? E]; [|unfold hash32 in *; rewrite ?to_le_length; congruence].

(** C24. What miners hash commits to the whole template: two headers with the
    same pre-PoW bytes agree on every field except timestamp and nonce, and
    changing only those two never changes the bytes. *)
Theorem pre_pow_bytes_faithful h h' :
  header_ok h -> header_ok h' -> pre_pow_bytes h = pre_pow_bytes h' <-> same_work h h'.
Proof.
  intros O O'. split.
  - intros E. destruct O as [V N P R B D S W], O' as [V' N' P' R' B' D' S' W'].
    unfold pre_pow_bytes in E. cbv zeta in E.
    rewrite !List.Forall_cons_iff in R, R'. destruct R as (R1 & R2 & R3 & R4 & _), R' as (Q1 & Q2 & Q3 & Q4 & _).
    apply app_inj_len in E as [Ev E]; [|now rewrite !to_le_length]. apply to_le_inj in Ev; [|done ..].
    apply app_inj_len in E as [En E]; [|now rewrite !to_le_length].
    apply to_le_inj in En; [|simpl; lia ..]. apply Nat2Z.inj in En.
    apply levels_inj in E as [Ep E]; [|done ..].
    split_field E. split_field E. split_field E. split_field E.
    apply app_inj_len in E as [Eb E]; [|now rewrite !to_le_length]. apply to_le_inj in Eb; [|done ..].
    split_field E.
    apply app_inj_len in E as [Ed E]; [|now rewrite !to_le_length].
    apply to_le_inj in Ed; [|unfold in_u64, u64_max in *; simpl; lia ..].
    apply app_inj_len in E as [Es E]; [|now rewrite !to_le_length].
    apply to_le_inj in Es; [|unfold in_u64, u64_max in *; simpl; lia ..].
    apply app_inj_len in E as [El E]; [|now rewrite !to_le_length].
    pose proof (drop_zeros_length (hd_blue_work h)). pose proof (drop_zeros_length (hd_blue_work h')).
    apply to_le_inj in El; [|change (256 ^ Z.of_nat 8) with (2 ^ 64); lia ..]. apply Nat2Z.inj in El.
    apply app_inj_len in E as [Ew Ep']; [|done].
    apply (f_equal from_be_bytes) in Ew. rewrite !drop_zeros_work in Ew by done.
    unfold same_work. congruence.
  - unfold same_work, pre_pow_bytes. intros [= -> -> -> -> -> -> -> -> -> ->]. done.
Qed.

Definition sample_header : Header :=
  mkHeader 1 [[repeat 1 32; repeat 2 32]; [repeat 3 32]] (repeat 4 32) (repeat 5 32) (repeat 6 32) 1700 520000000 7
    100 90 12345 (repeat 8 32).

Lemma sample_header_ok n : header_ok (set_nonce n sample_header).
Proof.
  constructor; simpl; try (unfold in_u64, u64_max; lia); repeat constructor; simpl; lia.
Qed.

Lemma pre_pow_bytes_faithful_witness :
  pre_pow_bytes sample_header = pre_pow_bytes (set_nonce 99 sample_header) <->
  same_work sample_header (set_nonce 99 sample_header).
Proof. apply pre_pow_bytes_faithful; [apply (sample_header_ok 7)|apply sample_header_ok]. Defined.

(** ** Job strings *)

Lemma hex_of_group b : Forall is_byte b -> length b = 8%nat -> hex_u64 (from_be_bytes b) = BlockHash_display b.
Proof. intros H L. unfold hex_u64. rewrite <- L, to_from_be by done. done. Qed.

Lemma hex_swapped ts :
  hex_u64 (from_le_bytes (to_be_bytes 8 ts)) = BlockHash_display (to_le_bytes 8 ts).
Proof.
  rewrite <- (rev_involutive (to_be_bytes 8 ts)). apply (hex_of_group (rev (to_be_bytes 8 ts))).
  - unfold to_be_bytes. rewrite rev_involutive. apply to_le_byte.
  - unfold to_be_bytes. now rewrite rev_involutive, to_le_length.
Qed.

(** The two job encoders agree: for a 32-byte hash the
    five-word format for BzMiner and Bitmain, built by re-reading the hash as
    big-endian words and byte-swapping the timestamp, is character for character
    the hash and little-endian timestamp string sent to IceRiver. *)
Theorem large_job_params_is_iceriver h ts :
  length h = 32%nat -> Forall is_byte h ->
  generate_large_job_params h ts = Some (generate_iceriver_job_params h ts).
Proof.
  intros L B. do 32 (destruct h as [|? h]; [discriminate|]). destruct h; [|discriminate].
  unfold generate_large_job_params, group8. cbn [seq omap list_omap length Nat.leb Nat.mul Nat.add firstn skipn map app].
  rewrite hex_swapped. unfold generate_iceriver_job_params.
  repeat match goal with H : Forall _ (_ :: _) |- _ => inversion_clear H end.
  rewrite !hex_of_group by first [reflexivity|repeat first [apply List.Forall_nil|apply List.Forall_cons; [assumption|]]].
  reflexivity.
Qed.

Lemma large_job_params_is_iceriver_witness :
  generate_large_job_params (repeat 171 32) 1700000000000 =
    Some (generate_iceriver_job_params (repeat 171 32) 1700000000000) /\
  length (generate_iceriver_job_params (repeat 171 32) 1700000000000) = 80%nat.
Proof.
  split; [|vm_compute; reflexivity]. apply large_job_params_is_iceriver; [done|].
  simpl. repeat constructor; done.
Defined.
