(* ===== verification/MiningState.v ===== *)
(** * Per-connection mining state ([bridge/src/mining_state.rs])

    The ring of the last 300 jobs of a connection with the difficulty each was
    published under, and its refinement of the unbounded list of published
    jobs. *)
From S2P Require Import Prelude F64 Schema Domain Hasher.
Open Scope Z_scope.

Definition MAX_JOBS : Z := 300.

(** A block as the bridge handles it: the header it mines and the transactions,
    of a type the bridge does not look into. *)
Record Block (Tx : Type) := mkBlk { bl_header : Header; bl_transactions : list Tx }.
Arguments mkBlk {Tx} _ _.
Arguments bl_header {Tx} _.
Arguments bl_transactions {Tx} _.

Record Job (Tx : Type) := mkJob { jb_block : Block Tx; jb_pre_pow_hash : bytes }.
Arguments mkJob {Tx} _ _.
Arguments jb_block {Tx} _.
Arguments jb_pre_pow_hash {Tx} _.

Record MiningState (Tx : Type) := mkMining {
  ms_jobs : gmap Z (Job Tx);
  ms_job_ids : gmap Z Z;
  ms_job_diffs : gmap Z KaspaDiff;
  ms_job_counter : Z;
  ms_big_diff : Z;
  ms_initialized : bool;
  ms_use_big_job : bool;
  ms_connect_time : Z;
  ms_stratum_diff : option KaspaDiff;
  ms_max_jobs : Z;
  ms_last_header : option Header
}.
Arguments mkMining {Tx} _ _ _ _ _ _ _ _ _ _ _.
Arguments ms_jobs {Tx} _.
Arguments ms_job_ids {Tx} _.
Arguments ms_job_diffs {Tx} _.
Arguments ms_job_counter {Tx} _.
Arguments ms_big_diff {Tx} _.
Arguments ms_initialized {Tx} _.
Arguments ms_use_big_job {Tx} _.
Arguments ms_connect_time {Tx} _.
Arguments ms_stratum_diff {Tx} _.
Arguments ms_max_jobs {Tx} _.
Arguments ms_last_header {Tx} _.

Section Mining.
Context {Tx : Type}.
Implicit Types (s : MiningState Tx) (j : Job Tx).

Definition mining_new (now : Z) : MiningState Tx :=
  mkMining ∅ ∅ ∅ 0 0 false false now None MAX_JOBS None.

(** [None] is the overflow panic of the job counter. *)
Definition add_job s j : option (Z * MiningState Tx) :=
  match checked_u64 (ms_job_counter s + 1) with
  | None => None
  | Some idx =>
      let slot := idx mod MAX_JOBS in
      Some (idx,
        mkMining (<[slot := j]> (ms_jobs s)) (<[slot := idx]> (ms_job_ids s))
          (match ms_stratum_diff s with
           | Some diff => <[slot := diff]> (ms_job_diffs s)
           | None => delete slot (ms_job_diffs s)
           end)
          idx (ms_big_diff s) (ms_initialized s) (ms_use_big_job s) (ms_connect_time s)
          (ms_stratum_diff s) (ms_max_jobs s) (ms_last_header s))
  end.

Definition get_job s (id : Z) : option (Job Tx) :=
  let slot := id mod MAX_JOBS in
  if negb (bool_decide (ms_job_ids s !! slot = Some id)) then None else ms_jobs s !! slot.

Definition get_job_id_at_slot s (slot : Z) : option Z := ms_job_ids s !! (slot mod MAX_JOBS).

Definition set_big_diff (diff : Z) s : MiningState Tx :=
  mkMining (ms_jobs s) (ms_job_ids s) (ms_job_diffs s) (ms_job_counter s) diff (ms_initialized s)
    (ms_use_big_job s) (ms_connect_time s) (ms_stratum_diff s) (ms_max_jobs s) (ms_last_header s).

Definition set_initialized (b : bool) s : MiningState Tx :=
  mkMining (ms_jobs s) (ms_job_ids s) (ms_job_diffs s) (ms_job_counter s) (ms_big_diff s) b
    (ms_use_big_job s) (ms_connect_time s) (ms_stratum_diff s) (ms_max_jobs s) (ms_last_header s).

Definition set_use_big_job (b : bool) s : MiningState Tx :=
  mkMining (ms_jobs s) (ms_job_ids s) (ms_job_diffs s) (ms_job_counter s) (ms_big_diff s) (ms_initialized s)
    b (ms_connect_time s) (ms_stratum_diff s) (ms_max_jobs s) (ms_last_header s).

Definition set_stratum_diff (diff : KaspaDiff) s : MiningState Tx :=
  mkMining (ms_jobs s) (ms_job_ids s) (ms_job_diffs s) (ms_job_counter s) (ms_big_diff s) (ms_initialized s)
    (ms_use_big_job s) (ms_connect_time s) (Some diff) (ms_max_jobs s) (ms_last_header s).

Definition set_last_header (h : Header) s : MiningState Tx :=
  mkMining (ms_jobs s) (ms_job_ids s) (ms_job_diffs s) (ms_job_counter s) (ms_big_diff s) (ms_initialized s)
    (ms_use_big_job s) (ms_connect_time s) (ms_stratum_diff s) (ms_max_jobs s) (Some h).

(** The order of a hash map's values is not specified; every caller takes the
    maximum. *)
Definition get_stored_job_ids s : list Z := map snd (map_to_list (ms_job_ids s)).

Definition max_id (l : list Z) : option Z :=
  fold_right (fun i acc => Some (match acc with Some a => Z.max i a | None => i end)) None l.

Definition latest_job s : option (Z * Job Tx) :=
  match max_id (get_stored_job_ids s) with
  | Some id => option_map (pair id) (get_job s id)
  | None => None
  end.

Definition get_job_diff s (id : Z) : option KaspaDiff :=
  let slot := id mod MAX_JOBS in
  if negb (bool_decide (ms_job_ids s !! slot = Some id)) then None else ms_job_diffs s !! slot.

(** ** The published jobs *)

(** The operations of a connection. *)
Inductive MiningOp :=
| OpAddJob (j : Job Tx)
| OpSetDiff (d : KaspaDiff)
| OpSetBigDiff (z : Z)
| OpSetInitialized (b : bool)
| OpSetBigJob (b : bool)
| OpSetHeader (h : Header).

Definition run_mining_op s (op : MiningOp) : option (MiningState Tx) :=
  match op with
  | OpAddJob j => option_map snd (add_job s j)
  | OpSetDiff d => Some (set_stratum_diff d s)
  | OpSetBigDiff z => Some (set_big_diff z s)
  | OpSetInitialized b => Some (set_initialized b s)
  | OpSetBigJob b => Some (set_use_big_job b s)
  | OpSetHeader h => Some (set_last_header h s)
  end.

(** The specification: every job published so far with the difficulty then in
    force, oldest first, and the current difficulty. *)
Record Published := mkPublished {
  pb_log : list (Job Tx * option KaspaDiff);
  pb_diff : option KaspaDiff
}.

Definition run_published (p : Published) (op : MiningOp) : Published :=
  match op with
  | OpAddJob j => mkPublished (pb_log p ++ [(j, pb_diff p)]) (pb_diff p)
  | OpSetDiff d => mkPublished (pb_log p) (Some d)
  | _ => p
  end.

(** Job [id] of the log, if it is one of the last 300. *)
Definition published_at (p : Published) (id : Z) : option (Job Tx * option KaspaDiff) :=
  let n := Z.of_nat (length (pb_log p)) in
  if (1 <=? id) && (id <=? n) && (n - MAX_JOBS <? id) then nth_error (pb_log p) (Z.to_nat (id - 1)) else None.

Record ring_of (p : Published) s : Prop := {
  ro_counter : ms_job_counter s = Z.of_nat (length (pb_log p));
  ro_diff : ms_stratum_diff s = pb_diff p;
  ro_ids : forall slot id, ms_job_ids s !! slot = Some id -> slot = id mod MAX_JOBS /\ published_at p id <> None;
  ro_jobs : forall id j d, published_at p id = Some (j, d) ->
    ms_job_ids s !! (id mod MAX_JOBS) = Some id /\ ms_jobs s !! (id mod MAX_JOBS) = Some j /\
    ms_job_diffs s !! (id mod MAX_JOBS) = d
}.

Lemma published_at_snoc p x id :
  published_at (mkPublished (pb_log p ++ [x]) (pb_diff p)) id =
  if id =? Z.of_nat (length (pb_log p)) + 1 then Some x
  else if id =? Z.of_nat (length (pb_log p)) + 1 - MAX_JOBS then None
  else published_at p id.
Proof.
  unfold published_at, MAX_JOBS. simpl. rewrite length_app. simpl.
  destruct (Z.eqb_spec id (Z.of_nat (length (pb_log p)) + 1)) as [->|Hne].
  - destruct (Z.leb_spec 1 (Z.of_nat (length (pb_log p)) + 1)), (Z.leb_spec (Z.of_nat (length (pb_log p)) + 1) (Z.of_nat (length (pb_log p) + 1))),
      (Z.ltb_spec (Z.of_nat (length (pb_log p) + 1) - 300) (Z.of_nat (length (pb_log p)) + 1)); simpl; try lia.
    replace (Z.to_nat (Z.of_nat (length (pb_log p)) + 1 - 1)) with (length (pb_log p)) by lia.
    rewrite nth_error_app2, Nat.sub_diag by lia. done.
  - destruct (Z.eqb_spec id (Z.of_nat (length (pb_log p)) + 1 - 300)) as [->|Hne'].
    + destruct (Z.ltb_spec (Z.of_nat (length (pb_log p) + 1) - 300) (Z.of_nat (length (pb_log p)) + 1 - 300)); [lia|].
      now rewrite andb_false_r.
    + destruct (Z.leb_spec 1 id); simpl; [|done].
      destruct (Z.leb_spec id (Z.of_nat (length (pb_log p) + 1))), (Z.leb_spec id (Z.of_nat (length (pb_log p)))),
        (Z.ltb_spec (Z.of_nat (length (pb_log p) + 1) - 300) id), (Z.ltb_spec (Z.of_nat (length (pb_log p)) - 300) id);
        simpl; try lia; try done. apply nth_error_app1. lia.
Qed.

Lemma published_range p id : published_at p id <> None ->
  1 <= id <= Z.of_nat (length (pb_log p)) /\ Z.of_nat (length (pb_log p)) - MAX_JOBS < id.
Proof.
  unfold published_at. destruct (Z.leb_spec 1 id), (Z.leb_spec id (Z.of_nat (length (pb_log p)))),
    (Z.ltb_spec (Z.of_nat (length (pb_log p)) - MAX_JOBS) id); simpl; intros; lia || done.
Qed.

Lemma ring_add p s j idx s' :
  ring_of p s -> add_job s j = Some (idx, s') ->
  idx = Z.of_nat (length (pb_log p)) + 1 /\ ring_of (run_published p (OpAddJob j)) s'.
Proof.
  intros [C D I J] H. unfold add_job in H. destruct (checked_u64 _) as [i|] eqn:E; [|discriminate].
  injection H as <- <-. apply checked_u64_Some in E as [Ei _]. rewrite C in Ei. subst i.
  split; [done|]. set (n := Z.of_nat (length (pb_log p))) in *.
  assert (forall id, published_at p id <> None -> id mod MAX_JOBS = (n + 1) mod MAX_JOBS ->
            id = n + 1 - MAX_JOBS) as Halias.
  { intros id Hid Hm. apply published_range in Hid. fold n in Hid. unfold MAX_JOBS in *.
    pose proof (Z.div_mod id 300). pose proof (Z.div_mod (n + 1) 300). lia. }
  constructor; simpl.
  - rewrite length_app. simpl. lia.
  - exact D.
  - intros slot id. rewrite published_at_snoc. fold n.
    destruct (decide (slot = (n + 1) mod MAX_JOBS)) as [->|Hs].
    + rewrite lookup_insert_eq. intros [= <-]. rewrite Z.eqb_refl. done.
    + rewrite lookup_insert_ne by done. intros Hl. destruct (I _ _ Hl) as [Es Hp]. split; [done|].
      destruct (Z.eqb_spec id (n + 1)); [subst; done|].
      destruct (Z.eqb_spec id (n + 1 - MAX_JOBS)) as [->|]; [|done]. destruct Hs. subst slot.
      unfold MAX_JOBS. now rewrite <- (Z.mod_add (n + 1 - 300) 1), Z.mul_1_l, Z.sub_add by lia.
  - intros id j' d. rewrite published_at_snoc. fold n.
    destruct (Z.eqb_spec id (n + 1)) as [->|Hne].
    + intros [= <- <-]. rewrite !lookup_insert_eq, D. split; [done|]. split; [done|].
      destruct (pb_diff p); [apply lookup_insert_eq|apply lookup_delete_eq].
    + destruct (Z.eqb_spec id (n + 1 - MAX_JOBS)) as [|Hne']; [discriminate|]. intros Hp.
      assert (id mod MAX_JOBS <> (n + 1) mod MAX_JOBS) as Hs
        by (intros Hm; apply Hne'; apply Halias; [congruence|done]).
      rewrite !lookup_insert_ne by congruence. destruct (J _ _ _ Hp) as (E1 & E2 & E3).
      split; [done|]. split; [done|]. rewrite <- E3, D.
      destruct (pb_diff p); [apply lookup_insert_ne|apply lookup_delete_ne]; congruence.
Qed.

Lemma ring_step p s op s' : ring_of p s -> run_mining_op s op = Some s' -> ring_of (run_published p op) s'.
Proof.
  intros R H. destruct op; simpl in H; try (injection H as <-; destruct R; constructor; auto).
  destruct (add_job s j) as [[idx s1]|] eqn:E; [|discriminate]. injection H as <-. eapply ring_add; eauto.
Qed.

Fixpoint run_mining_ops s (ops : list MiningOp) : option (MiningState Tx) :=
  match ops with
  | [] => Some s
  | op :: ops => match run_mining_op s op with Some s' => run_mining_ops s' ops | None => None end
  end.

Lemma ring_new now : ring_of (mkPublished [] None) (mining_new now).
Proof.
  constructor; [done|done| |].
  - intros slot id H. simpl in H. rewrite lookup_empty in H. discriminate.
  - intros id j d H. assert (published_at (mkPublished [] None) id <> None) as Hp by congruence.
    apply published_range in Hp. simpl in Hp. lia.
Qed.

Lemma ring_reachable ops : forall p s s', ring_of p s -> run_mining_ops s ops = Some s' ->
  ring_of (fold_left run_published ops p) s'.
Proof.
  induction ops as [|op ops IH]; intros p s s' R H; simpl in *; [now injection H as <-|].
  destruct (run_mining_op s op) as [s1|] eqn:E; [|discriminate]. eauto using ring_step.
Qed.

Lemma ring_lookup p s id : ring_of p s ->
  get_job s id = option_map fst (published_at p id) /\
  get_job_diff s id = (match published_at p id with Some (_, d) => d | None => None end).
Proof.
  intros [_ _ I J]. unfold get_job, get_job_diff.
  destruct (published_at p id) as [[j d]|] eqn:E.
  - destruct (J _ _ _ E) as (-> & -> & ->). rewrite bool_decide_true by done. done.
  - rewrite bool_decide_false; [done|]. intros H. now destruct (I _ _ H).
Qed.

Lemma max_id_spec l m : max_id l = Some m -> In m l /\ Forall (fun i => i <= m) l.
Proof.
  revert m. induction l as [|i l IH]; intros m; simpl; [discriminate|]. intros [= <-].
  destruct (max_id l) as [a|] eqn:E; [|destruct l; [split; [auto|apply List.Forall_cons; [lia|apply List.Forall_nil]]|discriminate]].
  destruct (IH a eq_refl) as [Hin Hle]. split.
  - destruct (Z.max_spec i a) as [[_ ->]|[_ ->]]; auto.
  - constructor; [lia|]. eapply List.Forall_impl; [|exact Hle]. simpl. lia.
Qed.

Lemma ring_latest p s : ring_of p s ->
  latest_job s = match published_at p (Z.of_nat (length (pb_log p))) with
                 | Some (j, _) => Some (Z.of_nat (length (pb_log p)), j)
                 | None => None
                 end.
Proof.
  intros R. pose proof R as [_ _ I J]. unfold latest_job.
  assert (forall id, In id (get_stored_job_ids s) <-> published_at p id <> None) as Hids.
  { intros id. unfold get_stored_job_ids. rewrite in_map_iff. split.
    - intros ([slot i] & <- & Hi). apply list_elem_of_In, elem_of_map_to_list in Hi. now apply (I slot).
    - intros Hp. destruct (published_at p id) as [[j d]|] eqn:E; [|done]. destruct (J _ _ _ E) as (Hl & _).
      exists (id mod MAX_JOBS, id). split; [done|]. now apply list_elem_of_In, elem_of_map_to_list. }
  set (n := Z.of_nat (length (pb_log p))) in *.
  destruct (max_id (get_stored_job_ids s)) as [m|] eqn:Em.
  - destruct (max_id_spec _ _ Em) as [Hin Hle]. apply Hids in Hin as Hp.
    assert (m = n) as ->.
    { pose proof (published_range _ _ Hp) as Hr. fold n in Hr. destruct (Z.eq_dec m n) as [|Hne]; [done|exfalso].
      assert (published_at p n <> None) as Hn.
      { unfold published_at. fold n. destruct (Z.leb_spec 1 n), (Z.leb_spec n n), (Z.ltb_spec (n - MAX_JOBS) n);
          simpl; unfold MAX_JOBS in *; try lia. apply nth_error_Some. lia. }
      apply Hids in Hn. rewrite List.Forall_forall in Hle. specialize (Hle n Hn). lia. }
    rewrite (proj1 (ring_lookup _ _ n R)). now destruct (published_at p n) as [[j d]|].
  - destruct (published_at p n) as [[j d]|] eqn:E; [exfalso|done].
    assert (In n (get_stored_job_ids s)) as Hin by (apply Hids; congruence).
    destruct (get_stored_job_ids s) as [|i l]; [destruct Hin|discriminate].
Qed.

(** C9. The job ring refines the list of published jobs: after any sequence of
    operations on a fresh connection, looking an id up returns exactly the job
    published under that id and the difficulty in force when it was published,
    for the last 300 jobs, and nothing for any other id, however often slots were
    reused; the latest job is the last one published. *)
Theorem job_ring_refines now ops s :
  run_mining_ops (mining_new now) ops = Some s ->
  let p := fold_left run_published ops (mkPublished [] None) in
  (forall id, get_job s id = option_map fst (published_at p id) /\
     get_job_diff s id = match published_at p id with Some (_, d) => d | None => None end) /\
  latest_job s = match published_at p (Z.of_nat (length (pb_log p))) with
                 | Some (j, _) => Some (Z.of_nat (length (pb_log p)), j)
                 | None => None
                 end.
Proof.
  intros H p. pose proof (ring_reachable _ _ _ _ (ring_new now) H) as R.
  split; [intros id; now apply ring_lookup|now apply ring_latest].
Qed.
End Mining.

Definition ring_sample : list (MiningOp (Tx := Z)) :=
  OpSetDiff KaspaDiff_default :: map (fun n => OpAddJob (mkJob (mkBlk (set_nonce (Z.of_nat n) sample_header) []) [])) (seq 1 3).

Lemma job_ring_refines_witness :
  exists s, run_mining_ops (mining_new 0) ring_sample = Some s /\
    option_map (fun j => hd_nonce (bl_header (jb_block j))) (get_job s 3) = Some 3 /\
    get_job s 4 = None /\
    get_job s 2 = option_map fst (published_at (fold_left run_published ring_sample (mkPublished [] None)) 2).
Proof.
  eexists. split; [vm_compute; reflexivity|]. split; [vm_compute; reflexivity|].
  split; [vm_compute; reflexivity|].
  apply (job_ring_refines 0 ring_sample). vm_compute. reflexivity.
Defined.
