(* ===== verification/Merged.v ===== *)
(** * Merged mining ([bridge/src/merged.rs])

    The Merkle branch of a parent's coinbase, the commitment of a parent to a
    block and the block assembled from a solved parent, the bounded table of
    pending work with its one-time claims and payee flags, and the pool-fee
    minute of a lane. *)
From S2P Require Import Prelude F64 Schema Domain Hasher MiningState.
Open Scope Z_scope.

(** The consensus crate: hashes of transactions and headers, the Merkle node
    hash, the merge-mining commitments. *)
Class AuxPowEnv (Tx : Type) := {
  ax_tx_hash : Tx -> bytes;
  ax_merkle_hash : bytes -> bytes -> bytes;
  ax_ZERO_HASH : bytes;
  ax_header_hash : Header -> bytes;
  (* the hash with nonce and timestamp replaced *)
  ax_hash_override : Header -> Z -> Z -> bytes;
  ax_bound_commitment : bytes -> bytes -> bytes;
  ax_embed_commitment : bytes -> bytes;
  ax_embed_commitment_v1 : bytes -> bytes;
  ax_nonce_binding : Header -> Z;
  (* the commitment in a coinbase, under either tag *)
  ax_committed_hash : Tx -> option bytes;
  ax_committed_hash_v1 : Tx -> option bytes;
  (* [Transaction::new] for a coinbase with this payload, and the root of one leaf *)
  ax_coinbase : bytes -> Tx;
  ax_merkle_root_one : Tx -> bytes;
  (* the synthetic parent's fixed fields *)
  ax_parent0 : Header
}.

Section Merkle.
Context {Tx : Type} `{AX : AuxPowEnv Tx}.

Definition next_power_of_two (n : nat) : nat := (2 ^ Nat.log2_up n)%nat.

(** One level up; a missing right child counts as zero, a missing left one leaves
    the parent missing. *)
Fixpoint next_level (level : list (option bytes)) : list (option bytes) :=
  match level with
  | [] => []
  | [l] => [option_map (fun l => ax_merkle_hash l ax_ZERO_HASH) l]
  | l :: r :: level =>
      option_map (fun l => ax_merkle_hash l (default ax_ZERO_HASH r)) l :: next_level level
  end.

Fixpoint branch_loop (fuel idx : nat) (level : list (option bytes)) : list bytes :=
  match fuel with
  | O => []
  | S fuel =>
      if (length level <=? 1)%nat then []
      else default ax_ZERO_HASH (nth (Nat.lxor idx 1) level None)
             :: branch_loop fuel (idx / 2) (next_level level)
  end.

Definition coinbase_merkle_branch (txs : list Tx) : list bytes :=
  if (length txs <=? 1)%nat then []
  else
    let level := map (fun t => Some (ax_tx_hash t)) txs in
    let level := level ++ repeat None (next_power_of_two (length level) - length level) in
    branch_loop (length level) 0 level.

(** The root of a full tree of height [k], by splitting the leaves in halves. *)
Fixpoint tree_root (k : nat) (leaves : list (option bytes)) : option bytes :=
  match k with
  | O => nth 0 leaves None
  | S k =>
      option_map (fun l => ax_merkle_hash l (default ax_ZERO_HASH (tree_root k (skipn (2 ^ k) leaves))))
        (tree_root k (firstn (2 ^ k) leaves))
  end.

Lemma next_level_app k : forall a b, length a = (2 * k)%nat -> next_level (a ++ b) = next_level a ++ next_level b.
Proof.
  induction k as [|k IH]; intros a b L; [now destruct a|].
  destruct a as [|x [|y a]]; simpl in L; [lia|lia|]. simpl. rewrite IH by lia. done.
Qed.

Lemma next_level_length k : forall a, length a = (2 * k)%nat -> length (next_level a) = k.
Proof.
  induction k as [|k IH]; intros a L; [now destruct a|].
  destruct a as [|x [|y a]]; simpl in L; [lia|lia|]. simpl. rewrite IH by lia. done.
Qed.

Lemma split_at {A} (a b : list A) n : length a = n -> firstn n (a ++ b) = a /\ skipn n (a ++ b) = b.
Proof.
  intros <-. rewrite firstn_app, skipn_app, Nat.sub_diag, firstn_all, skipn_all. cbn [firstn skipn].
  now rewrite app_nil_r, app_nil_l.
Qed.

Lemma tree_root_next k : forall l, length l = (2 ^ S k)%nat -> tree_root (S k) l = tree_root k (next_level l).
Proof.
  induction k as [|k IH]; intros l L.
  - destruct l as [|x [|y [|z l]]]; simpl in L; try lia. done.
  - assert (2 ^ S (S k) = 2 ^ S k + 2 ^ S k)%nat as E2 by (simpl; lia).
    assert (2 ^ S k = 2 * 2 ^ k)%nat as E1 by (simpl; lia).
    rewrite <- (firstn_skipn (2 ^ S k) l). set (a := firstn (2 ^ S k) l). set (b := skipn (2 ^ S k) l).
    assert (length a = 2 ^ S k)%nat as La by (unfold a; rewrite length_firstn; lia).
    assert (length b = 2 ^ S k)%nat as Lb by (unfold b; rewrite length_skipn; lia).
    change (tree_root (S (S k)) (a ++ b)) with
      (option_map (fun l => ax_merkle_hash l (default ax_ZERO_HASH (tree_root (S k) (skipn (2 ^ S k) (a ++ b)))))
         (tree_root (S k) (firstn (2 ^ S k) (a ++ b)))).
    destruct (split_at a b _ La) as [-> ->]. rewrite !IH by done.
    rewrite (next_level_app (2 ^ k)) by lia. pose proof (next_level_length (2 ^ k) a ltac:(lia)) as Na.
    change (tree_root (S k) (next_level a ++ next_level b)) with
      (option_map (fun l => ax_merkle_hash l (default ax_ZERO_HASH (tree_root k (skipn (2 ^ k) (next_level a ++ next_level b)))))
         (tree_root k (firstn (2 ^ k) (next_level a ++ next_level b)))).
    now destruct (split_at (next_level a) (next_level b) _ Na) as [-> ->].
Qed.

Lemma branch_loop_root k : forall fuel level x,
  length level = (2 ^ k)%nat -> nth 0 level None = Some x -> (k <= fuel)%nat ->
  tree_root k level = Some (fold_left ax_merkle_hash (branch_loop fuel 0 level) x) /\
  length (branch_loop fuel 0 level) = k.
Proof.
  induction k as [|k IH]; intros fuel level x L X F.
  - destruct fuel; cbn [branch_loop]; [simpl; now rewrite X|]. rewrite L. simpl. now rewrite X.
  - destruct fuel as [|fuel]; [lia|]. cbn [branch_loop].
    assert (2 ^ S k = 2 * 2 ^ k)%nat as E by (simpl; lia). pose proof (Nat.pow_nonzero 2 k).
    destruct (Nat.leb_spec (length level) 1); [lia|].
    destruct level as [|l [|r level]]; simpl in L; [lia|lia|]. simpl in X. subst l.
    change (Nat.lxor 0 1) with 1%nat. change (0 / 2)%nat with 0%nat.
    cbn [nth]. set (n := next_level (Some x :: r :: level)).
    assert (nth 0 n None = Some (ax_merkle_hash x (default ax_ZERO_HASH r))) as Xn by done.
    assert (length n = 2 ^ k)%nat as Ln by (apply next_level_length; simpl; lia).
    destruct (IH fuel n _ Ln Xn ltac:(lia)) as [HR HL].
    rewrite tree_root_next by (simpl in *; lia). fold n. rewrite HR. simpl. now rewrite HL.
Qed.

Lemma next_power_of_two_ge n : (1 <= n)%nat -> (n <= next_power_of_two n)%nat.
Proof.
  unfold next_power_of_two. intros H. destruct (Nat.eq_dec n 1) as [->|]; [done|].
  apply Nat.log2_up_spec. lia.
Qed.

(** C23. The coinbase branch proves inclusion for a parent of any size: folding
    it over the coinbase's hash, left to right, gives the root of the full binary
    tree over all transactions padded to a power of two, and it has one sibling
    per level. *)
Theorem coinbase_branch_reaches_root coinbase txs :
  let all := coinbase :: txs in
  let k := Nat.log2_up (length all) in
  let leaves := map (fun t => Some (ax_tx_hash t)) all ++ repeat None (2 ^ k - length all) in
  tree_root k leaves = Some (fold_left ax_merkle_hash (coinbase_merkle_branch all) (ax_tx_hash coinbase)) /\
  length (coinbase_merkle_branch all) = k.
Proof.
  intros all k leaves. unfold coinbase_merkle_branch.
  destruct (Nat.leb_spec (length all) 1) as [L|L].
  - destruct txs; [done|simpl in L; lia].
  - cbv zeta. rewrite length_map. change (next_power_of_two (length all)) with (2 ^ k)%nat.
    fold leaves. pose proof (next_power_of_two_ge (length all) ltac:(lia)) as G.
    change (next_power_of_two (length all)) with (2 ^ k)%nat in G.
    assert (length leaves = 2 ^ k)%nat as Ll by (unfold leaves; rewrite length_app, length_map, repeat_length; lia).
    apply branch_loop_root; [done|done|]. rewrite Ll. apply Nat.lt_le_incl, Nat.pow_gt_lin_r. lia.
Qed.

(** ** Commitments *)

(** [fork_params]: the network and the fork score set in the environment, which
    is ignored on mainnet; [None] is the panic on an unknown network. *)
Inductive NetworkType := Mainnet | Testnet | Devnet | Simnet.
#[global] Instance NetworkType_eq_dec : EqDecision NetworkType.
Proof. solve_decision. Defined.

Definition parse_network (raw : string) : option NetworkType :=
  if String.eqb raw "" || String.eqb raw "mainnet" then Some Mainnet
  else if String.eqb raw "testnet" then Some Testnet
  else if String.eqb raw "devnet" then Some Devnet
  else if String.eqb raw "simnet" then Some Simnet
  else None.

Definition fork_params (zkas_network zkas_fork_daa : option string) : option (option Z * NetworkType) :=
  match parse_network (default "" zkas_network) with
  | None => None
  | Some net =>
      let daa := match zkas_fork_daa with
                 | Some v => parse_u64_radix 10 (lit v)
                 | None => None
                 end in
      Some (if bool_decide (net = Mainnet) then None else daa, net)
  end.

(** [bound_form] with the consensus parameters of each network: whether the fork
    is active at a score, and the genesis hash. *)
Definition bound_form (active : NetworkType -> Z -> bool) (genesis : NetworkType -> bytes)
    (params : option Z * NetworkType) (daa_score : Z) : option bytes :=
  let '(override_daa, net) := params in
  let on := match override_daa with
            | Some d => d <=? daa_score
            | None => active net daa_score
            end in
  if on then Some (genesis net) else None.

(** The genesis a commitment is bound to, or [None] before the security fork. *)
Definition merge_key_with (fc : Block Tx) (bound : option bytes) : bytes :=
  match bound with
  | None => ax_header_hash (bl_header fc)
  | Some genesis => ax_bound_commitment genesis (ax_hash_override (bl_header fc) 0 (hd_timestamp (bl_header fc)))
  end.

Definition merge_extra_data_with (fc : Block Tx) (bound : option bytes) : bytes :=
  let key := merge_key_with fc bound in
  match bound with
  | None => ax_embed_commitment key
  | Some _ => ax_embed_commitment_v1 key
  end.

Definition chain_hash_with (parent fc : Block Tx) (bound : option bytes) : bytes :=
  match bound with
  | None => ax_header_hash (bl_header fc)
  | Some _ => ax_header_hash (set_nonce (ax_nonce_binding (bl_header parent)) (bl_header fc))
  end.

Definition build_parent_block_with (fc : Block Tx) (bound : option bytes) : Block Tx * bytes :=
  let h_fc := merge_key_with fc bound in
  let coinbase := ax_coinbase (merge_extra_data_with fc bound) in
  let p := ax_parent0 in
  (mkBlk (mkHeader (hd_version p) (hd_parents_by_level p) (ax_merkle_root_one coinbase)
            (hd_accepted_id_merkle_root p) (hd_utxo_commitment p) (hd_timestamp (bl_header fc))
            (hd_bits (bl_header fc)) (hd_nonce p) (hd_daa_score p) (hd_blue_score p) (hd_blue_work p)
            (hd_pruning_point p)) [coinbase], h_fc).

Definition committed_h_fc_legacy (parent : Block Tx) : option bytes :=
  match bl_transactions parent with
  | [] => None
  | coinbase :: _ => ax_committed_hash coinbase
  end.

Definition committed_h_fc (parent : Block Tx) : option bytes :=
  match bl_transactions parent with
  | [] => None
  | coinbase :: _ =>
      match ax_committed_hash coinbase with
      | Some h => Some h
      | None => ax_committed_hash_v1 coinbase
      end
  end.

Record AuxPow := mkAuxPow {
  ap_parent_header : Header;
  ap_parent_coinbase : Tx;
  ap_coinbase_merkle_branch : list bytes
}.

(** The assembled block with the proof its header carries; [None] is the panic
    on a parent without transactions. *)
Definition assemble_aux_block_with (parent fc : Block Tx) (bound : option bytes) : option (Block Tx * AuxPow) :=
  match bl_transactions parent with
  | [] => None
  | coinbase :: _ =>
      let aux := mkAuxPow (bl_header parent) coinbase (coinbase_merkle_branch (bl_transactions parent)) in
      let header := match bound with
                    | Some _ => set_nonce (ax_nonce_binding (bl_header parent)) (bl_header fc)
                    | None => bl_header fc
                    end in
      Some (mkBlk header (bl_transactions fc), aux)
  end.
End Merkle.

(** What the commitments promise: a tag is read back, and only under its tag. *)
Class AuxPowLaws (Tx : Type) `{AX : AuxPowEnv Tx} : Prop := {
  ax_legacy_read : forall key, ax_committed_hash (ax_coinbase (ax_embed_commitment key)) = Some key;
  ax_v1_read : forall key, ax_committed_hash_v1 (ax_coinbase (ax_embed_commitment_v1 key)) = Some key;
  ax_v1_not_legacy : forall key, ax_committed_hash (ax_coinbase (ax_embed_commitment_v1 key)) = None
}.

Section Commitments.
Context {Tx : Type} `{AX : AuxPowEnv Tx} `{AL : !AuxPowLaws Tx}.

(** A parent leads back to its work: on either side of the security fork the
    parent built for a block commits to the key the work is stored under, the
    block assembled from that parent solved with any nonce has the hash
    [chain_hash] reports and the block's own transactions, and from the fork on
    its nonce names the parent. *)
Theorem merged_round_trip fc bound nonce :
  let parent := fst (build_parent_block_with fc bound) in
  let solved := mkBlk (set_nonce nonce (bl_header parent)) (bl_transactions parent) in
  snd (build_parent_block_with fc bound) = merge_key_with fc bound /\
  committed_h_fc solved = Some (merge_key_with fc bound) /\
  (committed_h_fc_legacy solved <> None <-> bound = None) /\
  exists b aux, assemble_aux_block_with solved fc bound = Some (b, aux) /\
    ax_header_hash (bl_header b) = chain_hash_with solved fc bound /\
    bl_transactions b = bl_transactions fc /\ ap_coinbase_merkle_branch aux = [] /\
    (bound <> None -> hd_nonce (bl_header b) = ax_nonce_binding (bl_header solved)).
Proof.
  unfold build_parent_block_with, committed_h_fc, committed_h_fc_legacy, assemble_aux_block_with, merge_extra_data_with,
    chain_hash_with, coinbase_merkle_branch. simpl. split; [done|].
  destruct bound as [g|]; rewrite ?ax_legacy_read, ?ax_v1_not_legacy, ?ax_v1_read;
    (split; [done|]); (split; [done|]); eexists _, _; (split; [reflexivity|]); simpl;
    repeat (split; [done|]); intros; congruence.
Qed.
End Commitments.

(** ** Pending work *)

Record MergedPending (Tx : Type) := mkPending {
  mp_map : gmap bytes (Block Tx);
  mp_fee_lane : gset bytes;
  mp_order : list bytes;
  mp_solved : gset bytes;
  mp_cap : nat
}.
Arguments mkPending {Tx} _ _ _ _ _.
Arguments mp_map {Tx} _.
Arguments mp_fee_lane {Tx} _.
Arguments mp_order {Tx} _.
Arguments mp_solved {Tx} _.
Arguments mp_cap {Tx} _.

Section Pending.
Context {Tx : Type}.
Implicit Types p : MergedPending Tx.

Definition pending_new (cap : nat) : MergedPending Tx := mkPending ∅ ∅ [] ∅ (Nat.max cap 1).

(** Evicting from the front while the queue is too long. *)
Fixpoint evict (order : list bytes) p : MergedPending Tx :=
  match order with
  | [] => mkPending (mp_map p) (mp_fee_lane p) [] (mp_solved p) (mp_cap p)
  | old :: rest =>
      if (mp_cap p <? length order)%nat
      then evict rest (mkPending (delete old (mp_map p)) (mp_fee_lane p ∖ {[old]}) rest
                         (mp_solved p ∖ {[old]}) (mp_cap p))
      else mkPending (mp_map p) (mp_fee_lane p) order (mp_solved p) (mp_cap p)
  end.

Definition set_payee (h_fc : bytes) (paid_pool : bool) p : MergedPending Tx :=
  mkPending (mp_map p) (if paid_pool then mp_fee_lane p ∪ {[h_fc]} else mp_fee_lane p ∖ {[h_fc]})
    (mp_order p) (mp_solved p) (mp_cap p).

Definition insert_with_payee (h_fc : bytes) (fc_block : Block Tx) (paid_pool : bool) p : MergedPending Tx :=
  let known := bool_decide (is_Some (mp_map p !! h_fc)) in
  let p1 := mkPending (<[h_fc := fc_block]> (mp_map p)) (mp_fee_lane p) (mp_order p) (mp_solved p) (mp_cap p) in
  set_payee h_fc paid_pool (if known then p1 else evict (mp_order p ++ [h_fc]) p1).

Definition paid_pool p (h_fc : bytes) : bool := bool_decide (h_fc ∈ mp_fee_lane p).
Definition pending_get p (h_fc : bytes) : option (Block Tx) := mp_map p !! h_fc.

Definition claim_solution (h_fc : bytes) p : bool * MergedPending Tx :=
  match mp_map p !! h_fc with
  | None => (false, p)
  | Some _ =>
      (bool_decide (h_fc ∉ mp_solved p),
       mkPending (mp_map p) (mp_fee_lane p) (mp_order p) (mp_solved p ∪ {[h_fc]}) (mp_cap p))
  end.

Definition is_unsolved p (h_fc : bytes) : bool :=
  bool_decide (is_Some (mp_map p !! h_fc)) && bool_decide (h_fc ∉ mp_solved p).

Record pending_ok p : Prop := {
  po_nodup : NoDup (mp_order p);
  po_dom : forall k, is_Some (mp_map p !! k) <-> k ∈ mp_order p;
  po_solved : forall k, k ∈ mp_solved p -> k ∈ mp_order p;
  po_fee : forall k, k ∈ mp_fee_lane p -> k ∈ mp_order p;
  po_cap : (length (mp_order p) <= mp_cap p)%nat;
  po_pos : (1 <= mp_cap p)%nat
}.

Lemma evict_fits order p : (length order <= mp_cap p)%nat ->
  evict order p = mkPending (mp_map p) (mp_fee_lane p) order (mp_solved p) (mp_cap p).
Proof.
  destruct order as [|k order]; intros H; cbn [evict]; [done|].
  destruct (Nat.ltb_spec (mp_cap p) (length (k :: order))); [lia|done].
Qed.

(** Inserting a new key evicts the oldest one when the table is full. *)
Lemma insert_cases h b flag p :
  pending_ok p ->
  (is_Some (mp_map p !! h) /\
   insert_with_payee h b flag p = set_payee h flag
     (mkPending (<[h := b]> (mp_map p)) (mp_fee_lane p) (mp_order p) (mp_solved p) (mp_cap p))) \/
  ((h ∉ mp_order p) /\ (length (mp_order p) < mp_cap p)%nat /\
   insert_with_payee h b flag p = set_payee h flag
     (mkPending (<[h := b]> (mp_map p)) (mp_fee_lane p) (mp_order p ++ [h]) (mp_solved p) (mp_cap p))) \/
  ((h ∉ mp_order p) /\ exists old rest, mp_order p = old :: rest /\
   insert_with_payee h b flag p = set_payee h flag
     (mkPending (delete old (<[h := b]> (mp_map p))) (mp_fee_lane p ∖ {[old]}) (rest ++ [h])
        (mp_solved p ∖ {[old]}) (mp_cap p))).
Proof.
  intros [N D S F C P]. unfold insert_with_payee. case_bool_decide as K; [auto|right].
  assert (h ∉ mp_order p) as Hn by now rewrite <- D.
  destruct (Nat.ltb_spec (length (mp_order p)) (mp_cap p)) as [L|L].
  - left. split; [done|]. split; [done|]. rewrite evict_fits; [done|]. rewrite length_app. simpl. lia.
  - right. split; [done|]. destruct (mp_order p) as [|old rest] eqn:E; [simpl in L; lia|].
    exists old, rest. split; [done|]. cbn [app evict mp_cap].
    destruct (Nat.ltb_spec (mp_cap p) (length (old :: rest ++ [h]))) as [L'|L'];
      [|simpl in L'; rewrite length_app in L'; simpl in *; lia].
    rewrite evict_fits; [done|]. simpl in *. rewrite length_app. simpl. lia.
Qed.

Lemma insert_ok h b flag p : pending_ok p -> pending_ok (insert_with_payee h b flag p).
Proof.
  intros O. pose proof O as [N D S F C P].
  destruct (insert_cases h b flag p O) as [(K & ->)|[(Hn & L & ->)|(Hn & old & rest & E & ->)]].
  - constructor; simpl; auto.
    + intros k. rewrite lookup_insert_is_Some. rewrite D in K. rewrite D. destruct (decide (h = k)); naive_solver.
    + rewrite D in K. destruct flag; set_solver.
  - constructor; simpl; auto.
    + apply NoDup_app. split; [done|]. split; [set_solver|]. apply NoDup_singleton.
    + intros k. rewrite lookup_insert_is_Some, D. set_solver.
    + set_solver.
    + destruct flag; set_solver.
    + rewrite length_app. simpl. lia.
  - rewrite E in *. apply NoDup_cons in N as [No N]. constructor; simpl; auto.
    + apply NoDup_app. split; [done|]. split; [set_solver|]. apply NoDup_singleton.
    + intros k. rewrite lookup_delete_is_Some, lookup_insert_is_Some, D. set_solver.
    + set_solver.
    + destruct flag; set_solver.
    + simpl in C. rewrite length_app. simpl. lia.
Qed.

Inductive PendingOp := PInsert (h : bytes) (b : Block Tx) (flag : bool) | PClaim (h : bytes).

Definition run_pending p (op : PendingOp) : MergedPending Tx :=
  match op with
  | PInsert h b flag => insert_with_payee h b flag p
  | PClaim h => snd (claim_solution h p)
  end.

Lemma claim_ok h p : pending_ok p -> pending_ok (snd (claim_solution h p)).
Proof.
  intros O. pose proof O as [N D S F C P]. unfold claim_solution.
  destruct (mp_map p !! h) eqn:E; [|done]. constructor; simpl; auto.
  intros k [Hk|Hk]%elem_of_union; [auto|]. apply elem_of_singleton in Hk as ->. apply D. now rewrite E.
Qed.

Lemma run_pending_ok ops : forall p, pending_ok p -> pending_ok (fold_left run_pending ops p).
Proof.
  induction ops as [|op ops IH]; intros p O; simpl; [done|]. apply IH.
  destruct op; [now apply insert_ok|now apply claim_ok].
Qed.

(** A key that is either gone or marked cannot be claimed. *)
Definition spent (h : bytes) p : Prop := mp_map p !! h = None \/ h ∈ mp_solved p.

Lemma spent_step h op p : pending_ok p -> spent h p ->
  (forall b flag, op <> PInsert h b flag) -> spent h (run_pending p op).
Proof.
  intros O H Hop. destruct op as [k b flag|k]; simpl.
  - assert (k <> h) as Hk by (intros ->; now destruct (Hop b flag)).
    destruct (insert_cases k b flag p O) as [(K & ->)|[(Hn & L & ->)|(Hn & old & rest & E & ->)]]; unfold spent; simpl.
    1,2: rewrite lookup_insert_ne by done; exact H.
    destruct (decide (old = h)) as [->|Ho]; [left; apply lookup_delete_eq|].
    rewrite lookup_delete_ne, lookup_insert_ne by done. destruct H; [auto|]. right. set_solver.
  - unfold claim_solution. destruct (mp_map p !! k); [|done]. unfold spent. simpl.
    destruct H; [auto|]. right. set_solver.
Qed.

(** A solution is claimed once: after a successful claim for a key every
    later claim for it fails, whatever else is inserted, claimed and evicted,
    unless the key itself is inserted again. *)
Theorem solution_claimed_once h p p1 ops :
  pending_ok p -> claim_solution h p = (true, p1) ->
  Forall (fun op => forall b flag, op <> PInsert h b flag) ops ->
  fst (claim_solution h (fold_left run_pending ops p1)) = false.
Proof.
  intros O H Hops.
  assert (pending_ok p1) as O1 by (pose proof (claim_ok h p O) as X; now rewrite H in X).
  assert (spent h p1) as S1.
  { unfold claim_solution in H. destruct (mp_map p !! h); [|discriminate]. injection H as _ <-. right. simpl. set_solver. }
  assert (spent h (fold_left run_pending ops p1)) as S.
  { clear H. revert p1 O1 S1. induction Hops as [|op ops Hop _ IH]; intros p1 O1 S1; simpl; [done|].
    apply IH; [|now apply spent_step]. destruct op; [now apply insert_ok|now apply claim_ok]. }
  unfold claim_solution. destruct S as [->|S]; [done|]. destruct (mp_map _ !! h); [|done]. simpl.
  rewrite bool_decide_false; [done|]. now intros [].
Qed.

(** The flag of the last insertion of a key. *)
Definition last_flag (h : bytes) (ops : list PendingOp) : option bool :=
  fold_left (fun acc op => match op with
                           | PInsert k _ flag => if bool_decide (k = h) then Some flag else acc
                           | PClaim _ => acc
                           end) ops None.

Lemma last_flag_snoc h ops op :
  last_flag h (ops ++ [op]) = match op with
                              | PInsert k _ flag => if bool_decide (k = h) then Some flag else last_flag h ops
                              | PClaim _ => last_flag h ops
                              end.
Proof. unfold last_flag. now rewrite fold_left_app. Qed.

Lemma pending_new_ok cap : pending_ok (pending_new cap).
Proof.
  constructor; simpl; try set_solver; try lia.
  - apply NoDup_nil_2.
  - intros k. rewrite lookup_empty. split; [intros [? [=]]|set_solver].
Qed.

(** The payee follows the template: at any time at most [cap] keys are
    pending, and a pending key answers [paid_pool] with the flag of its last
    insertion; a key that is not pending is never attributed to the pool. *)
Theorem payee_follows_template cap ops h :
  let p := fold_left run_pending ops (pending_new cap) in
  (length (mp_order p) <= Nat.max cap 1)%nat /\
  (is_Some (pending_get p h) -> last_flag h ops = Some (paid_pool p h)) /\
  (pending_get p h = None -> paid_pool p h = false).
Proof.
  intros p. pose proof (run_pending_ok ops _ (pending_new_ok cap)) as O. fold p in O.
  assert (mp_cap p = Nat.max cap 1) as Ec.
  { subst p. clear O. induction ops as [|op ops IH] using rev_ind; [done|]. rewrite fold_left_app. cbn [fold_left].
    transitivity (mp_cap (fold_left run_pending ops (pending_new cap))); [|exact IH].
    pose proof (run_pending_ok ops _ (pending_new_ok cap)) as O.
    destruct op as [k b f|k]; cbn [run_pending].
    - destruct (insert_cases k b f _ O) as [(_ & ->)|[(_ & _ & ->)|(_ & old & rest & _ & ->)]]; done.
    - unfold claim_solution. now destruct (mp_map _ !! k). }
  split; [destruct O; lia|]. split.
  - unfold pending_get, paid_pool. subst p. clear O Ec. induction ops as [|op ops IH] using rev_ind.
    { simpl. rewrite lookup_empty. now intros []. }
    rewrite fold_left_app, last_flag_snoc. cbn [fold_left]. pose proof (run_pending_ok ops _ (pending_new_ok cap)) as O.
    set (p := fold_left run_pending ops (pending_new cap)) in *. destruct op as [k b f|k]; cbn [run_pending].
    + destruct (decide (k = h)) as [->|Hk]; [rewrite (bool_decide_true (h = h)) by done|rewrite (bool_decide_false (k = h)) by done].
      * intros _. f_equal. assert (forall q, f = bool_decide (h ∈ mp_fee_lane (set_payee h f q))) as Hf.
        { intros q. simpl. destruct f; symmetry; [apply bool_decide_true|apply bool_decide_false]; set_solver. }
        destruct (insert_cases h b f p O) as [(_ & ->)|[(_ & _ & ->)|(_ & old & rest & _ & ->)]]; apply Hf.
      * assert (forall q, bool_decide (h ∈ mp_fee_lane (set_payee k f q)) = bool_decide (h ∈ mp_fee_lane q)) as Hf.
        { intros q. apply bool_decide_ext. simpl. destruct f; set_solver. }
        destruct (insert_cases k b f p O) as [(_ & ->)|[(_ & _ & ->)|(_ & old & rest & _ & ->)]]; rewrite Hf; simpl.
        1,2: rewrite lookup_insert_ne by done; exact IH.
        rewrite lookup_delete_is_Some, lookup_insert_ne by done. intros [Ho Hs]. rewrite IH by done. f_equal.
        apply bool_decide_ext. set_solver.
    + unfold claim_solution. destruct (mp_map p !! k); exact IH.
  - unfold pending_get, paid_pool. intros Hn. apply bool_decide_false. intros Hf. apply O, O in Hf.
    rewrite Hn in Hf. now destruct Hf.
Qed.
End Pending.

(** ** The pool-fee minute *)

Definition POOL_FEE_MINUTES_PER_HOUR : Z := 1.

Definition wrap_u64 (z : Z) : Z := z mod 2 ^ 64.

Definition fee_start (lane_id : Z) : Z :=
  let z := wrap_u64 (lane_id + 0x9E3779B97F4A7C15) in
  let z := wrap_u64 (Z.lxor z (Z.shiftr z 30) * 0xBF58476D1CE4E5B9) in
  let z := wrap_u64 (Z.lxor z (Z.shiftr z 27) * 0x94D049BB133111EB) in
  let z := Z.lxor z (Z.shiftr z 31) in
  z mod 60.

Definition is_pool_fee_minute (lane_id minute_of_hour : Z) : bool :=
  existsb (fun k => (fee_start lane_id + Z.of_nat k) mod 60 =? minute_of_hour)
    (seq 0 (Z.to_nat POOL_FEE_MINUTES_PER_HOUR)).

(** Every lane has exactly one fee minute in each hour. *)
Lemma one_fee_minute lane :
  List.filter (is_pool_fee_minute lane) (map Z.of_nat (seq 0 60)) = [fee_start lane].
Proof.
  assert (0 <= fee_start lane < 60) as H by (apply Z.mod_pos_bound; lia).
  unfold is_pool_fee_minute. simpl seq. generalize dependent (fee_start lane). intros m H.
  change (Z.to_nat POOL_FEE_MINUTES_PER_HOUR) with 1%nat. cbn [seq existsb]. rewrite Z.add_0_r, Z.mod_small by lia.
  assert (exists n, m = Z.of_nat n /\ (n < 60)%nat) as (n & -> & Hn) by (exists (Z.to_nat m); lia).
  do 60 (destruct n as [|n]; [reflexivity|]). lia.
Qed.

(** ** A small instance *)

#[export] Instance demo_aux : AuxPowEnv bytes := {|
  ax_tx_hash t := t;
  ax_merkle_hash a b := [from_le_bytes a mod 251; from_le_bytes b mod 251];
  ax_ZERO_HASH := repeat 0 32;
  ax_header_hash h := to_le_bytes 32 (from_le_bytes (pre_pow_bytes h) + hd_nonce h);
  ax_hash_override h n t := to_le_bytes 32 (from_le_bytes (pre_pow_bytes h) + n);
  ax_bound_commitment g h := g ++ h;
  ax_embed_commitment key := 0 :: key;
  ax_embed_commitment_v1 key := 1 :: key;
  ax_nonce_binding h := hd_nonce h + 1;
  ax_committed_hash t := match t with 0 :: key => Some key | _ => None end;
  ax_committed_hash_v1 t := match t with 1 :: key => Some key | _ => None end;
  ax_coinbase payload := payload;
  ax_merkle_root_one t := t;
  ax_parent0 := sample_header
|}.

#[export] Instance demo_aux_laws : AuxPowLaws bytes.
Proof. constructor; done. Qed.

Definition demo_fc : Block bytes := mkBlk sample_header [[7]; [8]].

Lemma merged_round_trip_witness :
  committed_h_fc (fst (build_parent_block_with demo_fc (Some [5]))) = Some (merge_key_with demo_fc (Some [5])).
Proof.
  pose proof (merged_round_trip demo_fc (Some [5]) 7) as (_ & H & _). exact H.
Defined.

Lemma solution_claimed_once_witness :
  let p := insert_with_payee [1] demo_fc true (pending_new 1) in
  fst (claim_solution [1] p) = true /\
  fst (claim_solution [1] (fold_left run_pending [PInsert [2] demo_fc false; PClaim [2]] (snd (claim_solution [1] p)))) = false.
Proof.
  split; [vm_compute; reflexivity|].
  apply (solution_claimed_once [1] (insert_with_payee [1] demo_fc true (pending_new 1))).
  - apply insert_ok, pending_new_ok.
  - vm_compute. reflexivity.
  - repeat constructor; done.
Defined.
