(* ===== verification/AntiAbuse.v ===== *)
(** * The per-address abuse guard ([bridge/src/anti_abuse.rs])

    Connection caps and the token bucket for frames, per source address, with
    tickets returned when a connection closes.  Instants are nanoseconds. *)
From Stdlib Require Import SpecFloat.
From S2P Require Import Prelude F64.
Open Scope Z_scope.

Record AntiAbuseConfig := mkAbuseConfig {
  aa_max_conn_per_ip : Z;
  aa_max_tracked_ips : Z;
  aa_frame_rate_per_sec : f64;
  aa_frame_burst : f64
}.

Definition production : AntiAbuseConfig := mkAbuseConfig 256 65536 (f64_of_Z 100) (f64_of_Z 200).
Definition unlimited : AntiAbuseConfig := mkAbuseConfig u32_max u64_max f64_MAX f64_MAX.

Inductive AntiAbuseConfigError :=
| ZeroConnCap
| ZeroIpCap
| InvalidFrameRate (value : f64)
| InvalidFrameBurst (value : f64)
| InvalidEnvValue (key value : string).

Definition abuse_config_new (max_conn_per_ip max_tracked_ips : Z) (frame_rate_per_sec frame_burst : f64) :
    result AntiAbuseConfig AntiAbuseConfigError :=
  if max_conn_per_ip =? 0 then Err ZeroConnCap
  else if max_tracked_ips =? 0 then Err ZeroIpCap
  else if negb (f64_is_finite frame_rate_per_sec) || f64_leb frame_rate_per_sec f64_zero
  then Err (InvalidFrameRate frame_rate_per_sec)
  else if negb (f64_is_finite frame_burst) || f64_leb frame_burst f64_zero
  then Err (InvalidFrameBurst frame_burst)
  else Ok (mkAbuseConfig max_conn_per_ip max_tracked_ips frame_rate_per_sec frame_burst).

Record IpEntry := mkIpEntry { ip_conn_count : Z; ip_tokens : f64; ip_last_refill : Z }.

Definition IpEntry_new (burst : f64) (now : Z) : IpEntry := mkIpEntry 0 burst now.

Definition try_consume (e : IpEntry) (now : Z) (rate burst : f64) : bool * IpEntry :=
  let elapsed := as_secs_f64 (Z.max 0 (now - ip_last_refill e)) in
  let tokens := f64_min (f64_add (ip_tokens e) (f64_mul elapsed rate)) burst in
  if f64_leb (f64_of_Z 1) tokens
  then (true, mkIpEntry (ip_conn_count e) (f64_sub tokens (f64_of_Z 1)) now)
  else (false, mkIpEntry (ip_conn_count e) tokens now).

Record AntiAbuseGuard := mkGuard { ag_config : AntiAbuseConfig; ag_state : gmap string IpEntry }.

Definition guard_new (config : AntiAbuseConfig) : AntiAbuseGuard := mkGuard config ∅.

Definition conn_count (g : AntiAbuseGuard) (ip : string) : Z :=
  match ag_state g !! ip with Some e => ip_conn_count e | None => 0 end.

Definition tracked_ip_count (g : AntiAbuseGuard) : nat := size (ag_state g).

Inductive AntiAbuseRejection := ConnCapPerIp (active cap : Z) | IpCapReached.

Definition metric_label (r : AntiAbuseRejection) : string :=
  match r with ConnCapPerIp _ _ => "conn_cap_per_ip" | IpCapReached => "ip_cap_reached" end.

(** The ticket is the address itself.  A refused address may leave its entry
    behind when the cap is zero. *)
Definition try_accept_connection (g : AntiAbuseGuard) (ip : string) (now : Z) :
    result string AntiAbuseRejection * AntiAbuseGuard :=
  let known := bool_decide (is_Some (ag_state g !! ip)) in
  if negb known && (aa_max_tracked_ips (ag_config g) <=? Z.of_nat (size (ag_state g)))
  then (Err IpCapReached, g)
  else
    let entry := default (IpEntry_new (aa_frame_burst (ag_config g)) now) (ag_state g !! ip) in
    let put e := mkGuard (ag_config g) (<[ip := e]> (ag_state g)) in
    if aa_max_conn_per_ip (ag_config g) <=? ip_conn_count entry
    then (Err (ConnCapPerIp (ip_conn_count entry) (aa_max_conn_per_ip (ag_config g))), put entry)
    else (Ok ip, put (mkIpEntry (ip_conn_count entry + 1) (ip_tokens entry) (ip_last_refill entry))).

Definition try_consume_frame (g : AntiAbuseGuard) (ip : string) (now : Z) : bool * AntiAbuseGuard :=
  match ag_state g !! ip with
  | Some entry =>
      let '(ok, entry) := try_consume entry now (aa_frame_rate_per_sec (ag_config g)) (aa_frame_burst (ag_config g)) in
      (ok, mkGuard (ag_config g) (<[ip := entry]> (ag_state g)))
  | None => (false, g)
  end.

(** [ConnTicket::drop]. *)
Definition release (g : AntiAbuseGuard) (ip : string) : AntiAbuseGuard :=
  match ag_state g !! ip with
  | Some entry =>
      let n := Z.max 0 (ip_conn_count entry - 1) in
      mkGuard (ag_config g)
        (if n =? 0 then delete ip (ag_state g)
         else <[ip := mkIpEntry n (ip_tokens entry) (ip_last_refill entry)]> (ag_state g))
  | None => g
  end.

(** Nanoseconds until an empty bucket holds one token. *)
Definition refill_eta_secs (config : AntiAbuseConfig) : f64 :=
  f64_max (f64_div (f64_of_Z 1) (aa_frame_rate_per_sec config)) (f64_div (f64_of_Z 1) (f64_of_Z 1000)).

(** ** Connections and tickets *)

(** The guard together with the tickets that connections hold. *)
Record AbuseWorld := mkAbuse { aw_guard : AntiAbuseGuard; aw_tickets : list string }.

Inductive abuse_step : AbuseWorld -> AbuseWorld -> Prop :=
| AAccept g ts ip now g' t :
    try_accept_connection g ip now = (Ok t, g') -> abuse_step (mkAbuse g ts) (mkAbuse g' (t :: ts))
| ARefuse g ts ip now g' e :
    try_accept_connection g ip now = (Err e, g') -> abuse_step (mkAbuse g ts) (mkAbuse g' ts)
| AFrame g ts ip now ok g' :
    try_consume_frame g ip now = (ok, g') -> abuse_step (mkAbuse g ts) (mkAbuse g' ts)
| ADrop g ts1 ip ts2 :
    abuse_step (mkAbuse g (ts1 ++ ip :: ts2)) (mkAbuse (release g ip) (ts1 ++ ts2)).

Definition held (ip : string) (ts : list string) : Z :=
  Z.of_nat (length (List.filter (String.eqb ip) ts)).

Lemma held_cons ip t ts : held ip (t :: ts) = held ip ts + (if String.eqb ip t then 1 else 0).
Proof. unfold held. simpl. destruct (String.eqb ip t); simpl; lia. Qed.

Lemma held_drop ip ts1 t ts2 : held ip (ts1 ++ t :: ts2) = held ip (ts1 ++ ts2) + (if String.eqb ip t then 1 else 0).
Proof.
  unfold held. rewrite !List.filter_app. simpl. destruct (String.eqb ip t); rewrite !length_app; simpl; lia.
Qed.

Record abuse_ok (w : AbuseWorld) : Prop := {
  ab_cap : 1 <= aa_max_conn_per_ip (ag_config (aw_guard w));
  ab_count : forall ip e, ag_state (aw_guard w) !! ip = Some e ->
    ip_conn_count e = held ip (aw_tickets w) /\
    1 <= ip_conn_count e <= aa_max_conn_per_ip (ag_config (aw_guard w));
  ab_none : forall ip, ag_state (aw_guard w) !! ip = None -> held ip (aw_tickets w) = 0;
  ab_ips : Z.of_nat (size (ag_state (aw_guard w))) <= aa_max_tracked_ips (ag_config (aw_guard w))
}.

Lemma held_nonneg ip ts : 0 <= held ip ts.
Proof. unfold held. lia. Qed.

(** Replacing an entry by one with the count its tickets say. *)
Lemma abuse_put g ts ts' ip e :
  abuse_ok (mkAbuse g ts) ->
  ip_conn_count e = held ip ts' -> 1 <= ip_conn_count e <= aa_max_conn_per_ip (ag_config g) ->
  (forall i, i <> ip -> held i ts' = held i ts) ->
  (is_Some (ag_state g !! ip) \/ Z.of_nat (size (ag_state g)) < aa_max_tracked_ips (ag_config g)) ->
  abuse_ok (mkAbuse (mkGuard (ag_config g) (<[ip := e]> (ag_state g))) ts').
Proof.
  intros [C K N S] He Hb Ho Hk. simpl in *. constructor; simpl; auto.
  - intros i e'. destruct (decide (i = ip)) as [->|Hi].
    + rewrite lookup_insert_eq. intros [= <-]. auto.
    + rewrite lookup_insert_ne by done. intros H. destruct (K i e' H). rewrite Ho by done. auto.
  - intros i. destruct (decide (i = ip)) as [->|Hi]; [now rewrite lookup_insert_eq|].
    rewrite lookup_insert_ne by done. intros H. rewrite Ho by done. auto.
  - destruct (ag_state g !! ip) as [e0|] eqn:E.
    + rewrite map_size_insert_Some by eauto. done.
    + rewrite map_size_insert_None by done. destruct Hk as [[? [=]]|Hk]. lia.
Qed.

Lemma abuse_step_ok w w' : abuse_step w w' -> abuse_ok w -> abuse_ok w'.
Proof.
  intros [g ts ip now g' t H|g ts ip now g' e H|g ts ip now ok g' H|g ts1 ip ts2] O; pose proof O as [C K N S]; simpl in *.
  - unfold try_accept_connection in H. case_bool_decide as Hk; cbn [negb andb] in H.
    + destruct Hk as [e He]. rewrite He in H. simpl in H. destruct (K ip e He) as [Ec Eb].
      destruct (Z.leb_spec (aa_max_conn_per_ip (ag_config g)) (ip_conn_count e)); [discriminate|]. injection H as <- <-.
      eapply abuse_put; simpl; eauto; [rewrite held_cons, String.eqb_refl; lia|lia|].
      intros i Hi. rewrite held_cons. destruct (String.eqb_spec i ip); [congruence|lia].
    + destruct (ag_state g !! ip) eqn:He; [destruct Hk; eauto|]. simpl in H.
      destruct (Z.leb_spec (aa_max_tracked_ips (ag_config g)) (Z.of_nat (size (ag_state g)))); [discriminate|].
      simpl in H. destruct (Z.leb_spec (aa_max_conn_per_ip (ag_config g)) 0); [lia|]. injection H as <- <-.
      eapply abuse_put; simpl; eauto; [rewrite held_cons, String.eqb_refl, (N ip He); lia|lia|].
      intros i Hi. rewrite held_cons. destruct (String.eqb_spec i ip); [congruence|lia].
  - unfold try_accept_connection in H. case_bool_decide as Hk; cbn [negb andb] in H.
    + destruct Hk as [e0 He]. rewrite He in H. simpl in H. destruct (K ip e0 He) as [Ec Eb].
      destruct (_ <=? _); [|discriminate]. injection H as _ <-. eapply abuse_put; simpl; eauto.
    + destruct (ag_state g !! ip) eqn:He; [destruct Hk; eauto|]. simpl in H.
      destruct (_ <=? Z.of_nat _); [now injection H as _ <-|]. simpl in H.
      destruct (Z.leb_spec (aa_max_conn_per_ip (ag_config g)) 0); [lia|discriminate].
  - unfold try_consume_frame in H. destruct (ag_state g !! ip) as [e|] eqn:He; [|now injection H as _ <-].
    destruct (K ip e He) as [Ec Eb]. unfold try_consume in H.
    destruct (f64_leb _ _); injection H as _ <-; eapply abuse_put; simpl; eauto.
  - unfold release. destruct (ag_state g !! ip) as [e|] eqn:He.
    + destruct (K ip e He) as [Ec Eb]. rewrite held_drop, String.eqb_refl in Ec.
      assert (forall i, i <> ip -> held i (ts1 ++ ts2) = held i (ts1 ++ ip :: ts2)) as Ho.
      { intros i Hi. rewrite held_drop. destruct (String.eqb_spec i ip); [congruence|lia]. }
      destruct (Z.eqb_spec (Z.max 0 (ip_conn_count e - 1)) 0).
      * constructor; simpl; auto.
        -- intros i e'. rewrite lookup_delete_Some. intros [Hi H]. destruct (K i e' H). rewrite Ho by done. auto.
        -- intros i. rewrite lookup_delete_None. destruct (decide (i = ip)) as [->|Hi].
           { intros _. pose proof (held_nonneg ip (ts1 ++ ts2)). lia. }
           intros [|H]; [congruence|]. rewrite Ho by done. auto.
        -- rewrite map_size_delete_Some by eauto. lia.
      * eapply abuse_put; simpl; eauto; lia.
    + specialize (N ip He). rewrite held_drop, String.eqb_refl in N. pose proof (held_nonneg ip (ts1 ++ ts2)). lia.
Qed.

Lemma abuse_step_config w w' : abuse_step w w' -> ag_config (aw_guard w') = ag_config (aw_guard w).
Proof.
  intros [g ts ip now g' t H|g ts ip now g' e H|g ts ip now ok g' H|g ts1 ip ts2]; simpl.
  - unfold try_accept_connection in H. destruct (_ && _); [discriminate|]. destruct (_ <=? _); [discriminate|]. now injection H as _ <-.
  - unfold try_accept_connection in H. destruct (_ && _); [now injection H as _ <-|]. destruct (_ <=? _); [|discriminate]. now injection H as _ <-.
  - unfold try_consume_frame in H. destruct (ag_state g !! ip); [|now injection H as _ <-].
    destruct (try_consume _ _ _ _). now injection H as _ <-.
  - unfold release. now destruct (ag_state g !! ip).
Qed.

Lemma abuse_steps_config w w' : rtc abuse_step w w' -> ag_config (aw_guard w') = ag_config (aw_guard w).
Proof. induction 1 as [|w0 w1 w2 H _ IH]; [done|]. rewrite IH. by apply abuse_step_config. Qed.

Lemma abuse_config_new_fields a b c d config : abuse_config_new a b c d = Ok config ->
  aa_max_conn_per_ip config = a /\ aa_max_tracked_ips config = b /\ a <> 0 /\ b <> 0.
Proof.
  unfold abuse_config_new. destruct (Z.eqb_spec a 0); [done|]. destruct (Z.eqb_spec b 0); [done|].
  destruct (_ || _); [done|]. destruct (_ || _); [done|]. by intros [= <-].
Qed.

Lemma abuse_start config : 1 <= aa_max_conn_per_ip config -> 0 <= aa_max_tracked_ips config ->
  abuse_ok (mkAbuse (guard_new config) []).
Proof.
  intros H1 H2. constructor; simpl; auto.
  - intros ip e. rewrite lookup_empty. discriminate.
Qed.

(** The connection caps hold: in every history of accepts, refusals, frames
    and disconnects from a validated configuration, the guard's count for an
    address is exactly the number of its open connections, never above the cap;
    an address is tracked exactly while it has one, and never more addresses than
    allowed are tracked. *)
Theorem connections_capped a b c d config w ip :
  0 <= a -> 0 <= b -> abuse_config_new a b c d = Ok config -> rtc abuse_step (mkAbuse (guard_new config) []) w ->
  conn_count (aw_guard w) ip = held ip (aw_tickets w) /\ held ip (aw_tickets w) <= a /\
  (is_Some (ag_state (aw_guard w) !! ip) <-> 0 < held ip (aw_tickets w)) /\
  Z.of_nat (tracked_ip_count (aw_guard w)) <= b.
Proof.
  intros Ha Hb Hc H. pose proof (abuse_steps_config _ _ H) as Ec. cbn [aw_guard guard_new ag_config] in Ec.
  apply abuse_config_new_fields in Hc as (<- & <- & Na & Nb).
  assert (abuse_ok w) as [C K N S].
  { assert (abuse_ok (mkAbuse (guard_new config) [])) as O by (apply abuse_start; lia).
    clear -H O. revert O. induction H; eauto using abuse_step_ok. }
  rewrite Ec in *. unfold conn_count, tracked_ip_count. simpl in *.
  pose proof (held_nonneg ip (aw_tickets w)). split; [|split; [|split; [|exact S]]].
  - destruct (ag_state (aw_guard w) !! ip) as [e|] eqn:E; [apply (K ip e E)|now rewrite (N ip E)].
  - destruct (ag_state (aw_guard w) !! ip) as [e|] eqn:E; [destruct (K ip e E); lia|rewrite (N ip E); lia].
  - destruct (ag_state (aw_guard w) !! ip) as [e|] eqn:E; split; intros Hx; try (destruct (K ip e E); eauto; lia).
    + now destruct Hx.
    + rewrite (N ip E) in Hx. lia.
Qed.

Definition small_config : AntiAbuseConfig := mkAbuseConfig 1 2 (f64_of_Z 100) (f64_of_Z 200).
Definition small_guard : AntiAbuseGuard := snd (try_accept_connection (guard_new small_config) "10.0.0.1" 5).
Definition small_world : AbuseWorld :=
  mkAbuse (snd (try_accept_connection small_guard "10.0.0.1" 6)) ["10.0.0.1"%string].

Lemma small_history : rtc abuse_step (mkAbuse (guard_new small_config) []) small_world.
Proof.
  apply (rtc_l _ _ (mkAbuse small_guard ["10.0.0.1"%string])).
  - apply (AAccept _ _ "10.0.0.1" 5). vm_compute. reflexivity.
  - apply rtc_once, (ARefuse _ _ "10.0.0.1" 6 _ (ConnCapPerIp 1 1)). vm_compute. reflexivity.
Qed.

Lemma connections_capped_witness :
  conn_count (aw_guard small_world) "10.0.0.1" = held "10.0.0.1" (aw_tickets small_world) /\
  held "10.0.0.1" (aw_tickets small_world) = 1.
Proof.
  split; [|vm_compute; reflexivity].
  apply (connections_capped 1 2 (f64_of_Z 100) (f64_of_Z 200) small_config);
    [lia|lia|vm_compute; reflexivity|exact small_history].
Defined.

(** ** Frames *)

Fixpoint frames (n : nat) (g : AntiAbuseGuard) (ip : string) (now : Z) : list bool * AntiAbuseGuard :=
  match n with
  | O => ([], g)
  | S n =>
      let '(ok, g) := try_consume_frame g ip now in
      let '(oks, g) := frames n g ip now in (ok :: oks, g)
  end.

(** Reconnecting refills the bucket: with the production limits an address
    is stopped after its burst of 200 frames, but when its last connection closes
    the entry is dropped, and a new connection at the very same instant is allowed
    another 200. *)
Theorem reconnect_refills_bucket :
  let ip := "10.0.0.1"%string in
  let g1 := snd (try_accept_connection (guard_new production) ip 0) in
  let first := frames 201 g1 ip 0 in
  let second := frames 200 (snd (try_accept_connection (release (snd first) ip) ip 0)) ip 0 in
  fst first = repeat true 200 ++ [false] /\ fst second = repeat true 200.
Proof. vm_compute. auto. Qed.
