(* ===== verification/StratumRpc.v ===== *)
(** * Stratum messages ([bridge/src/{jsonrpc_event,errors,net_utils}.rs])

    Method names, requests and responses, the sanitiser for control characters,
    error short codes and bind addresses.  A string is the list of its Unicode
    scalar values. *)
From S2P Require Import Prelude F64 Domain.
Open Scope Z_scope.

(** ** JSON values *)

Inductive Number := PosInt (n : Z) | NegInt (n : Z) | Float (f : f64).

Inductive Value :=
| VNull
| VBool (b : bool)
| VNumber (n : Number)
| VString (s : text)
| VArray (l : list Value)
| VObject (l : list (text * Value)).

Definition as_u64_value (v : Value) : option Z :=
  match v with VNumber (PosInt n) => Some n | _ => None end.

Definition as_str_value (v : Value) : option text :=
  match v with VString s => Some s | _ => None end.

(** ** Methods *)

Inductive StratumMethod :=
| Subscribe | ExtranonceSubscribe | Authorize | Submit | SetDifficulty | Notify | SetExtranonce
| Other (s : text).

#[export] Instance StratumMethod_eq_dec : EqDecision StratumMethod.
Proof. solve_decision. Defined.

Definition method_table : list (text * StratumMethod) :=
  [(lit "mining.subscribe", Subscribe);
   (lit "mining.extranonce.subscribe", ExtranonceSubscribe);
   (lit "mining.authorize", Authorize);
   (lit "mining.submit", Submit);
   (lit "mining.set_difficulty", SetDifficulty);
   (lit "mining.notify", Notify);
   (lit "mining.set_extranonce", SetExtranonce)].

(** [From<&str> for StratumMethod]: the first match arm that fits. *)
Definition method_of_str (s : text) : StratumMethod :=
  match List.find (fun e => bool_decide (fst e = s)) method_table with
  | Some (_, m) => m
  | None => Other s
  end.

(** [From<StratumMethod> for String]. *)
Definition method_to_str (m : StratumMethod) : text :=
  match m with
  | Subscribe => lit "mining.subscribe"
  | ExtranonceSubscribe => lit "mining.extranonce.subscribe"
  | Authorize => lit "mining.authorize"
  | Submit => lit "mining.submit"
  | SetDifficulty => lit "mining.set_difficulty"
  | Notify => lit "mining.notify"
  | SetExtranonce => lit "mining.set_extranonce"
  | Other s => s
  end.

Record JsonRpcEvent := mkEvent {
  ev_id : option Value;
  ev_jsonrpc : text;
  ev_method : text;
  ev_params : list Value
}.

Definition default_version : text := lit "2.0".

Definition JsonRpcEvent_new (id : option text) (method : text) (params : list Value) : JsonRpcEvent :=
  mkEvent (option_map VString id) (lit "2.0") method params.

Definition method_enum (e : JsonRpcEvent) : StratumMethod := method_of_str (ev_method e).

Record JsonRpcResponse := mkResponse {
  rs_id : option Value;
  rs_result : option Value;
  rs_error : option (list Value)
}.

Definition JsonRpcResponse_new (e : JsonRpcEvent) (result : option Value) (error : option (list Value)) : JsonRpcResponse :=
  mkResponse (ev_id e) result error.

Definition response_success (id : option Value) (result : Value) : JsonRpcResponse :=
  mkResponse id (Some result) None.

Definition response_error (id : option Value) (code : Z) (message : text) (data : option Value) : JsonRpcResponse :=
  mkResponse id None
    (Some [VNumber (if 0 <=? code then PosInt code else NegInt code); VString message; default VNull data]).

(** ** Sanitising *)

(** [char::is_control]: the Unicode category Cc. *)
Definition is_control (c : Z) : bool := (c <=? 31) || ((127 <=? c) && (c <=? 159)).

Definition is_bad (c : Z) : bool := is_control c && negb (c =? 10) && negb (c =? 13).

Definition sanitize_json_input (input : text) : text := map (fun c => if is_bad c then 32 else c) input.

(** [serde_json::from_str] is the argument. *)
Definition unmarshal_event {E} (from_str : text -> result JsonRpcEvent E) (input : text) : result JsonRpcEvent E :=
  if existsb is_bad input then from_str (sanitize_json_input input) else from_str input.

Definition unmarshal_response {E} (from_str : text -> result JsonRpcResponse E) (input : text) : result JsonRpcResponse E :=
  from_str input.

(** ** Error codes *)

Inductive ErrorShortCode :=
| NoMinerAddress | FailedBlockFetch | InvalidAddressFmt | MissingJobCode | BadDataFromMiner
| FailedSendWork | FailedSetDiff | Disconnected.

Definition ErrorShortCode_as_str (e : ErrorShortCode) : string :=
  match e with
  | NoMinerAddress => "err_no_miner_address"
  | FailedBlockFetch => "err_failed_block_fetch"
  | InvalidAddressFmt => "err_malformed_wallet_address"
  | MissingJobCode => "err_missing_job"
  | BadDataFromMiner => "err_bad_data_from_miner"
  | FailedSendWork => "err_failed_sending_work"
  | FailedSetDiff => "err_diff_set_failed"
  | Disconnected => "err_worker_disconnected"
  end.

(** ** Text helpers *)

(** [char::is_whitespace]. *)
Definition is_whitespace (c : Z) : bool :=
  ((9 <=? c) && (c <=? 13)) || (c =? 32) || (c =? 133) || (c =? 160) || (c =? 5760) ||
  ((8192 <=? c) && (c <=? 8202)) || (c =? 8232) || (c =? 8233) || (c =? 8239) || (c =? 8287) || (c =? 12288).

Fixpoint trim_start (s : text) : text :=
  match s with
  | c :: rest => if is_whitespace c then trim_start rest else s
  | [] => []
  end.

Definition trim (s : text) : text := rev (trim_start (rev (trim_start s))).

Definition to_ascii_lowercase (s : text) : text :=
  map (fun c => if is_ascii_uppercase c then c + 32 else c) s.

(** ** Bind addresses *)

Definition normalize_port (port_or_addr : text) : text :=
  let s := trim port_or_addr in
  match s with
  | [] => []
  | c :: _ =>
      if c =? 58 then s
      else if forallb is_ascii_digit s then 58 :: s
      else s
  end.

Definition bind_addr_from_port (port_or_addr : text) : text :=
  let s := normalize_port port_or_addr in
  match s with
  | [] => []
  | c :: _ => if c =? 58 then lit "0.0.0.0" ++ s else s
  end.

(** ** Properties *)

(** A method name survives parsing: printing the parsed method gives back
    the name on the wire, known or not; and two names parse to the same method
    only when they are equal. *)
Theorem method_round_trip s t :
  method_to_str (method_of_str s) = s /\ (method_of_str s = method_of_str t -> s = t).
Proof.
  assert (forall s, method_to_str (method_of_str s) = s) as R.
  { intros u. unfold method_of_str. destruct (List.find _ _) as [[n m]|] eqn:E; [|done].
    apply List.find_some in E as [Hin E]. apply bool_decide_eq_true in E. simpl in E. subst n.
    repeat (destruct Hin as [[= <- <-]|Hin]; [reflexivity|]). destruct Hin. }
  split; [apply R|]. intros E. now rewrite <- (R s), <- (R t), E.
Qed.

Lemma sanitized_clean s : existsb is_bad (sanitize_json_input s) = false.
Proof.
  induction s as [|c s IH]; simpl; [done|]. rewrite IH. destruct (is_bad c) eqn:E; [done|now rewrite E].
Qed.

Lemma sanitized_same s : existsb is_bad s = false -> sanitize_json_input s = s.
Proof.
  induction s as [|c s IH]; simpl; [done|]. destruct (is_bad c); simpl; [discriminate|]. intros H. now rewrite IH.
Qed.

(** The JSON parser sees only clean text: it is always called once, on the
    input with each control character other than line ends replaced by a space and
    every other character in its place. *)
Theorem unmarshal_sanitizes {E} (from_str : text -> result JsonRpcEvent E) s :
  unmarshal_event from_str s = from_str (sanitize_json_input s) /\
  existsb is_bad (sanitize_json_input s) = false /\
  Forall2 (fun c d => d = if is_bad c then 32 else c) s (sanitize_json_input s).
Proof.
  split; [|split; [apply sanitized_clean|]].
  - unfold unmarshal_event. destruct (existsb is_bad s) eqn:B; [done|]. now rewrite sanitized_same.
  - unfold sanitize_json_input. induction s; simpl; constructor; auto.
Qed.
