(* ===== verification/ShareGuard.v ===== *)
(** * Duplicate submissions and variable difficulty ([bridge/src/share_handler.rs])

    The guard that recognises a repeated submission and the difficulty controller,
    with the statistics record both work on.  Instants and durations are
    nanoseconds. *)
From Stdlib Require Import SpecFloat.
From S2P Require Import Prelude F64 Schema Domain.
Open Scope Z_scope.

Definition secs (n : Z) : Z := n * 1000000000.

(** [Instant::duration_since]: saturates at zero. *)
Definition duration_since (now earlier : Z) : Z := Z.max 0 (now - earlier).

(** ** The duplicate guard *)

Inductive DuplicateSubmitOutcome := InFlight | DAccepted | DStale | DLowDiff | DBad.

Record DuplicateSubmitEntry := mkDup { de_ts : Z; de_outcome : DuplicateSubmitOutcome }.

Record DuplicateSubmitGuard := mkDupGuard {
  dg_ttl : Z;
  dg_max_entries : Z;
  dg_entries : gmap text DuplicateSubmitEntry;
  dg_order : list text
}.

Definition dup_guard_new (ttl max_entries : Z) : DuplicateSubmitGuard :=
  mkDupGuard ttl max_entries ∅ [].

(** The first loop of [prune]: the expired keys at the front. *)
Fixpoint prune_expired (ttl now : Z) (entries : gmap text DuplicateSubmitEntry) (order : list text)
  : gmap text DuplicateSubmitEntry * list text :=
  match order with
  | [] => (entries, [])
  | front :: rest =>
      let remove := match entries !! front with
                    | Some e => ttl <? duration_since now (de_ts e)
                    | None => true
                    end in
      if remove then prune_expired ttl now (delete front entries) rest else (entries, order)
  end.

(** The second loop: the oldest keys above the capacity. *)
Fixpoint prune_excess (max_entries : Z) (entries : gmap text DuplicateSubmitEntry) (order : list text)
  : gmap text DuplicateSubmitEntry * list text :=
  if max_entries <? Z.of_nat (size entries) then
    match order with
    | [] => (entries, [])
    | key :: rest => prune_excess max_entries (delete key entries) rest
    end
  else (entries, order).

Definition prune (g : DuplicateSubmitGuard) (now : Z) : DuplicateSubmitGuard :=
  let (entries, order) := prune_expired (dg_ttl g) now (dg_entries g) (dg_order g) in
  let (entries, order) := prune_excess (dg_max_entries g) entries order in
  mkDupGuard (dg_ttl g) (dg_max_entries g) entries order.

Definition dup_get (g : DuplicateSubmitGuard) (key : text) (now : Z)
  : option DuplicateSubmitOutcome * DuplicateSubmitGuard :=
  let g := prune g now in
  (option_map de_outcome (dg_entries g !! key), g).

Definition insert_inflight (g : DuplicateSubmitGuard) (key : text) (now : Z) : DuplicateSubmitGuard :=
  let g := prune g now in
  if bool_decide (is_Some (dg_entries g !! key)) then g
  else mkDupGuard (dg_ttl g) (dg_max_entries g) (<[key := mkDup now InFlight]> (dg_entries g))
         (dg_order g ++ [key]).

Definition set_outcome (g : DuplicateSubmitGuard) (key : text) (now : Z) (outcome : DuplicateSubmitOutcome)
  : DuplicateSubmitGuard :=
  let g := prune g now in
  match dg_entries g !! key with
  | Some _ => mkDupGuard (dg_ttl g) (dg_max_entries g) (<[key := mkDup now outcome]> (dg_entries g)) (dg_order g)
  | None => g
  end.

(** The lookup of [handle_submit] under one lock: an unknown key is noted as in
    flight. *)
Definition dup_check (g : DuplicateSubmitGuard) (key : text) (now : Z)
  : option DuplicateSubmitOutcome * DuplicateSubmitGuard :=
  match dup_get g key now with
  | (Some outcome, g) => (Some outcome, g)
  | (None, g) => (None, insert_inflight g key now)
  end.

(** ** Worker statistics *)

Record WorkStats := mkStats {
  ws_blocks_found : Z;
  ws_shares_found : Z;
  ws_shares_diff : f64;
  ws_stale_shares : Z;
  ws_invalid_shares : Z;
  ws_worker_name : text;
  ws_start_time : Z;
  ws_last_share : Z;
  ws_var_diff_start_time : option Z;
  ws_var_diff_shares_found : Z;
  ws_var_diff_window : Z;
  ws_min_diff : f64;
  ws_active_connections : Z;
  ws_last_session_activity : Z
}.

Definition WorkStats_new (worker_name : text) (now : Z) : WorkStats :=
  mkStats 0 0 f64_zero 0 0 worker_name now now None 0 0 f64_zero 0 now.

Definition INACTIVE_VARDIFF_TTL : Z := secs (60 * 60).

Definition should_retain_vardiff_stats (stats : WorkStats) (now : Z) : bool :=
  (0 <? ws_active_connections stats) ||
  (duration_since now (ws_last_session_activity stats) <? INACTIVE_VARDIFF_TTL).

(** ** Variable difficulty *)

Definition VARDIFF_MIN_ELAPSED_SECS : f64 := f64_of_Z 30.
Definition VARDIFF_MAX_ELAPSED_SECS_NO_SHARES : f64 := f64_of_Z 15.
Definition VARDIFF_MAX_ELAPSED_SECS_SPARSE_SHARES : f64 := f64_of_Z 90.
Definition VARDIFF_MIN_DIFF : f64 := f64_of_Z 64.
Definition VARDIFF_MIN_SHARES : f64 := f64_of_Z 3.
Definition VARDIFF_LOWER_RATIO : f64 := f64_div (f64_of_Z 3) (f64_of_Z 4).
Definition VARDIFF_UPPER_RATIO : f64 := f64_div (f64_of_Z 5) (f64_of_Z 4).
Definition VARDIFF_MAX_STEP_UP : f64 := f64_of_Z 128.
Definition VARDIFF_MAX_STEP_DOWN : f64 := f64_div (f64_of_Z 1) (f64_of_Z 2).
Definition MIN_RELATIVE_CHANGE : f64 := f64_div (f64_of_Z 1) (f64_of_Z 10).
Definition f64_one : f64 := f64_of_Z 1.

(** [2_f64.powi(n)]: exact, infinite or rounded to zero outside the exponents. *)
Definition pow2 (n : Z) : f64 := binary_normalize 53 1024 1 n false.

(** [x as i32]. *)
Definition f64_as_i32 (x : f64) : Z := Z.max (- 2 ^ 31) (Z.min i32_max (f64_as_i64 x)).

Section VarDiff.
(** [f64::log2], whose last bits the language leaves open. *)
Context (log2 : f64 -> f64).

Definition vardiff_pow2_clamp_towards (current next : f64) : f64 :=
  if negb (f64_is_finite next) || f64_leb next f64_zero then f64_one
  else
    let exp := if f64_leb current next then f64_ceil (log2 next) else f64_floor (log2 next) in
    let clamped := pow2 (f64_as_i32 exp) in
    if f64_ltb clamped f64_one then f64_one else clamped.

Definition at_least_min (next : f64) : f64 :=
  if f64_ltb next VARDIFF_MIN_DIFF then VARDIFF_MIN_DIFF else next.

Definition clamp_step (clamp_pow2 : bool) (current next : f64) : f64 :=
  if clamp_pow2 then vardiff_pow2_clamp_towards current next else next.

Definition if_changed (current next : f64) : option f64 :=
  if f64_ltb f64_EPSILON (f64_abs (f64_sub next current)) then Some next else None.

Definition vardiff_compute_next_diff (current shares elapsed_secs expected_spm : f64) (clamp_pow2 : bool)
  : option f64 :=
  if negb (f64_is_finite current) || f64_leb current f64_zero then None
  else if negb (f64_is_finite elapsed_secs) || f64_leb elapsed_secs f64_zero then None
  else if f64_eqb shares f64_zero && f64_leb VARDIFF_MAX_ELAPSED_SECS_NO_SHARES elapsed_secs then
    let next := at_least_min (f64_mul current VARDIFF_MAX_STEP_DOWN) in
    if_changed current (clamp_step clamp_pow2 current next)
  else if f64_ltb elapsed_secs VARDIFF_MIN_ELAPSED_SECS ||
          (f64_ltb shares VARDIFF_MIN_SHARES && f64_ltb elapsed_secs VARDIFF_MAX_ELAPSED_SECS_SPARSE_SHARES)
  then None
  else
    let observed_spm := f64_mul (f64_div shares elapsed_secs) (f64_of_Z 60) in
    let ratio := f64_div observed_spm (f64_max expected_spm f64_one) in
    if negb (f64_is_finite ratio) || f64_leb ratio f64_zero then None
    else if f64_ltb VARDIFF_LOWER_RATIO ratio && f64_ltb ratio VARDIFF_UPPER_RATIO then None
    else
      let step := f64_clamp (f64_sqrt ratio) VARDIFF_MAX_STEP_DOWN VARDIFF_MAX_STEP_UP in
      let next := clamp_step clamp_pow2 current (at_least_min (f64_mul current step)) in
      let rel_change := f64_div (f64_abs (f64_sub next current)) (f64_max current f64_one) in
      if f64_ltb rel_change MIN_RELATIVE_CHANGE then None else if_changed current next.

(** One worker's turn of the controller thread. *)
Definition vardiff_tick_one (expected_spm : f64) (clamp : bool) (now : Z) (v : WorkStats) : WorkStats :=
  if ws_active_connections v =? 0 then v
  else
    match ws_var_diff_start_time v with
    | None => v
    | Some start =>
        let elapsed := f64_max (as_secs_f64 (duration_since now start)) f64_zero in
        let shares := f64_of_Z (ws_var_diff_shares_found v) in
        match vardiff_compute_next_diff (ws_min_diff v) shares elapsed expected_spm clamp with
        | None => v
        | Some next =>
            mkStats (ws_blocks_found v) (ws_shares_found v) (ws_shares_diff v) (ws_stale_shares v)
              (ws_invalid_shares v) (ws_worker_name v) (ws_start_time v) (ws_last_share v) (Some now) 0 0 next
              (ws_active_connections v) (ws_last_session_activity v)
        end
    end.
End VarDiff.

Definition average_worker_spm (sum_spm : f64) (worker_count : Z) : f64 :=
  if worker_count =? 0 then f64_zero else f64_div sum_spm (f64_of_Z worker_count).

(** ** The guard recognises repetitions *)

(** The queue lists exactly the stored keys, each once. *)
Definition guard_inv (entries : gmap text DuplicateSubmitEntry) (order : list text) : Prop :=
  NoDup order /\ forall k, is_Some (entries !! k) <-> k ∈ order.

Definition guard_ok (g : DuplicateSubmitGuard) : Prop := guard_inv (dg_entries g) (dg_order g).

Lemma guard_inv_size entries order : guard_inv entries order -> size entries = length order.
Proof.
  intros [N H]. rewrite <- size_dom, <- (size_list_to_set (C := gset text) order N). f_equal.
  apply set_eq. intros k. rewrite elem_of_dom, elem_of_list_to_set. apply H.
Qed.

Lemma guard_inv_pop entries k order :
  guard_inv entries (k :: order) -> guard_inv (delete k entries) order.
Proof.
  intros [N H]. apply NoDup_cons in N as [Nk N]. split; [done|]. intros k'.
  destruct (decide (k = k')) as [<-|Ne].
  - rewrite lookup_delete_eq. split; [intros [? [=]] | intros ?; contradiction].
  - rewrite lookup_delete_ne by done. rewrite H, elem_of_cons. split; [intros [->|]; done | auto].
Qed.

Lemma prune_expired_inv ttl now entries order :
  guard_inv entries order ->
  guard_inv (fst (prune_expired ttl now entries order)) (snd (prune_expired ttl now entries order)).
Proof.
  revert entries. induction order as [|k order IH]; intros entries H; simpl; [done|].
  destruct (match entries !! k with Some _ => _ | None => _ end); [|done].
  apply IH, guard_inv_pop, H.
Qed.

Lemma prune_excess_inv max entries order :
  guard_inv entries order ->
  guard_inv (fst (prune_excess max entries order)) (snd (prune_excess max entries order)).
Proof.
  revert entries. induction order as [|k order IH]; intros entries H; simpl.
  - destruct (_ <? _); done.
  - destruct (_ <? _); [apply IH, guard_inv_pop, H | done].
Qed.

Lemma prune_ok g now : guard_ok g -> guard_ok (prune g now).
Proof.
  intros H. unfold guard_ok, prune.
  pose proof (prune_expired_inv (dg_ttl g) now _ _ H) as H1.
  destruct (prune_expired _ _ _ _) as [e1 o1]. simpl in H1.
  pose proof (prune_excess_inv (dg_max_entries g) _ _ H1) as H2.
  destruct (prune_excess _ _ _) as [e2 o2]. exact H2.
Qed.

Lemma prune_excess_size max entries order :
  0 <= max -> guard_inv entries order ->
  Z.of_nat (size (fst (prune_excess max entries order))) <= max.
Proof.
  intros M. revert entries. induction order as [|k order IH]; intros entries H; simpl.
  - apply guard_inv_size in H. simpl in H. destruct (Z.ltb_spec max (Z.of_nat (size entries))); simpl; lia.
  - destruct (Z.ltb_spec max (Z.of_nat (size entries))); [apply IH, guard_inv_pop, H | simpl; lia].
Qed.

Lemma prune_size g now :
  0 <= dg_max_entries g -> guard_ok g ->
  Z.of_nat (size (dg_entries (prune g now))) <= dg_max_entries g.
Proof.
  intros M H. unfold prune.
  pose proof (prune_expired_inv (dg_ttl g) now _ _ H) as H1.
  destruct (prune_expired _ _ _ _) as [e1 o1]. simpl in H1.
  pose proof (prune_excess_size (dg_max_entries g) _ _ M H1) as H2.
  destruct (prune_excess _ _ _) as [e2 o2]. exact H2.
Qed.

(** A key that is young enough and has few keys behind it survives. *)
Definition kept (k : text) (e : DuplicateSubmitEntry) (behind : list text)
    (entries : gmap text DuplicateSubmitEntry) (order : list text) : Prop :=
  entries !! k = Some e /\ exists l, order = l ++ k :: behind.

Lemma kept_pop k e behind entries k' order :
  k <> k' -> kept k e behind entries (k' :: order) -> kept k e behind (delete k' entries) order.
Proof.
  intros Ne (L & l & E). split; [rewrite lookup_delete_ne; done|].
  destruct l as [|x l]; simpl in E; injection E as ? ?; [congruence|]. eauto.
Qed.

Lemma prune_expired_kept ttl now k e behind entries order :
  duration_since now (de_ts e) <= ttl -> kept k e behind entries order ->
  kept k e behind (fst (prune_expired ttl now entries order)) (snd (prune_expired ttl now entries order)).
Proof.
  intros T. revert entries. induction order as [|k' order IH]; intros entries H; simpl; [done|].
  destruct (decide (k = k')) as [<-|Ne].
  - rewrite (proj1 H). destruct (Z.ltb_spec ttl (duration_since now (de_ts e))); [lia | done].
  - destruct (match entries !! k' with Some _ => _ | None => _ end); [|done].
    apply IH, kept_pop; done.
Qed.

Lemma prune_excess_kept max k e behind entries order :
  Z.of_nat (length behind) < max -> guard_inv entries order -> kept k e behind entries order ->
  kept k e behind (fst (prune_excess max entries order)) (snd (prune_excess max entries order)).
Proof.
  intros B. revert entries. induction order as [|k' order IH]; intros entries I H; simpl.
  - destruct (_ <? _); done.
  - destruct (Z.ltb_spec max (Z.of_nat (size entries))) as [L|]; [|done].
    apply guard_inv_size in I as S. rewrite S in L.
    assert (k <> k') as Ne.
    { intros <-. destruct H as (_ & l & E), I as [N _]. destruct l as [|x l]; simpl in E.
      - injection E as ->. simpl in L. lia.
      - injection E as -> ->. apply NoDup_cons in N as [N _]. apply N. set_solver. }
    apply IH; [apply guard_inv_pop, I | apply kept_pop; done].
Qed.

Definition guard_keeps (g : DuplicateSubmitGuard) (k : text) (e : DuplicateSubmitEntry) (behind : list text) : Prop :=
  kept k e behind (dg_entries g) (dg_order g).

Lemma prune_keeps g now k e behind :
  guard_ok g -> duration_since now (de_ts e) <= dg_ttl g -> Z.of_nat (length behind) < dg_max_entries g ->
  guard_keeps g k e behind -> guard_keeps (prune g now) k e behind.
Proof.
  intros I T B H. unfold guard_keeps, prune.
  pose proof (prune_expired_inv (dg_ttl g) now _ _ I) as I1.
  pose proof (prune_expired_kept (dg_ttl g) now k e behind _ _ T H) as H1.
  destruct (prune_expired _ _ _ _) as [e1 o1]. simpl in I1, H1.
  pose proof (prune_excess_kept (dg_max_entries g) k e behind _ _ B I1 H1) as H2.
  destruct (prune_excess _ _ _) as [e2 o2]. exact H2.
Qed.

(** What other submissions do to the guard meanwhile. *)
Inductive GuardOp :=
| GCheck (key : text) (now : Z)
| GSet (key : text) (now : Z) (outcome : DuplicateSubmitOutcome).

Definition run_guard_op (g : DuplicateSubmitGuard) (o : GuardOp) : DuplicateSubmitGuard :=
  match o with
  | GCheck key now => snd (dup_check g key now)
  | GSet key now outcome => set_outcome g key now outcome
  end.

Definition run_guard (ops : list GuardOp) (g : DuplicateSubmitGuard) : DuplicateSubmitGuard :=
  fold_left run_guard_op ops g.

Definition op_time (o : GuardOp) : Z := match o with GCheck _ t | GSet _ t _ => t end.
Definition is_check (o : GuardOp) : bool := match o with GCheck _ _ => true | _ => false end.
Definition checks (ops : list GuardOp) : Z := Z.of_nat (length (List.filter is_check ops)).

(** The outcome last recorded for the key. *)
Fixpoint last_outcome (key : text) (ops : list GuardOp) (o : DuplicateSubmitOutcome) : DuplicateSubmitOutcome :=
  match ops with
  | [] => o
  | GSet k _ o' :: ops => last_outcome key ops (if bool_decide (k = key) then o' else o)
  | GCheck _ _ :: ops => last_outcome key ops o
  end.

Lemma prune_params g now : dg_ttl (prune g now) = dg_ttl g /\ dg_max_entries (prune g now) = dg_max_entries g.
Proof. unfold prune. destruct (prune_expired _ _ _ _). destruct (prune_excess _ _ _). done. Qed.

Lemma prune_params_ttl g now : dg_ttl (prune g now) = dg_ttl g. Proof. apply prune_params. Qed.
Lemma prune_params_max g now : dg_max_entries (prune g now) = dg_max_entries g. Proof. apply prune_params. Qed.
Create Rewrite HintDb guard.
#[export] Hint Rewrite prune_params_ttl prune_params_max : guard.

Lemma insert_inflight_ok g k now : guard_ok g -> guard_ok (insert_inflight g k now).
Proof.
  intros H%(prune_ok g now). unfold insert_inflight. case_bool_decide as E; [done|].
  destruct H as [N D]. unfold guard_ok, guard_inv; simpl. split.
  - apply NoDup_app. split; [done|]. split; [|apply NoDup_singleton].
    intros x Hx. apply D in Hx. set_solver.
  - intros k'. rewrite elem_of_app, list_elem_of_singleton.
    destruct (decide (k = k')) as [<-|Ne].
    + rewrite lookup_insert_eq. split; [auto | eauto].
    + rewrite lookup_insert_ne by done. rewrite D. split; [auto | intros [|]; congruence].
Qed.

Lemma set_outcome_ok g k now o : guard_ok g -> guard_ok (set_outcome g k now o).
Proof.
  intros H%(prune_ok g now). unfold set_outcome. destruct (dg_entries (prune g now) !! k) eqn:E; [|done].
  destruct H as [N D]. unfold guard_ok, guard_inv; simpl. split; [done|]. intros k'.
  destruct (decide (k = k')) as [<-|Ne].
  - rewrite lookup_insert_eq, <- D, E. split; eauto.
  - rewrite lookup_insert_ne by done. apply D.
Qed.

Lemma dup_check_guard g k now :
  snd (dup_check g k now) = prune g now \/ snd (dup_check g k now) = insert_inflight (prune g now) k now.
Proof. unfold dup_check, dup_get. destruct (option_map _ _); simpl; auto. Qed.

Lemma run_guard_op_ok g o : guard_ok g -> guard_ok (run_guard_op g o).
Proof.
  intros H. destruct o as [k t|k t o]; simpl; [|by apply set_outcome_ok].
  destruct (dup_check_guard g k t) as [->| ->]; [by apply prune_ok | by apply insert_inflight_ok, prune_ok].
Qed.

Lemma run_guard_op_params g o :
  dg_ttl (run_guard_op g o) = dg_ttl g /\ dg_max_entries (run_guard_op g o) = dg_max_entries g.
Proof.
  destruct o as [k t|k t o]; simpl.
  - destruct (dup_check_guard g k t) as [->| ->]; [apply prune_params|].
    unfold insert_inflight. case_bool_decide; simpl; autorewrite with guard; done.
  - unfold set_outcome. destruct (_ !! k); simpl; autorewrite with guard; done.
Qed.

Section Window.
Context (k : text) (t0 : Z).

(** The key is stored with a time stamp of the window [t0 .. t0 + ttl]. *)
Definition held_in (g : DuplicateSubmitGuard) (o : DuplicateSubmitOutcome) (behind : list text) : Prop :=
  guard_ok g /\ exists ts, t0 <= ts <= t0 + dg_ttl g /\ guard_keeps g k (mkDup ts o) behind.

Lemma prune_held g o behind t :
  t0 <= t <= t0 + dg_ttl g -> Z.of_nat (length behind) < dg_max_entries g ->
  held_in g o behind -> held_in (prune g t) o behind.
Proof.
  intros T B (I & ts & R & K). split; [by apply prune_ok|]. exists ts.
  autorewrite with guard. split; [done|]. apply prune_keeps; try done. unfold duration_since; simpl; lia.
Qed.

Lemma insert_held g o behind k' t :
  t0 <= t <= t0 + dg_ttl g -> Z.of_nat (length behind) < dg_max_entries g ->
  held_in g o behind ->
  exists more, (length more <= 1)%nat /\ held_in (insert_inflight g k' t) o (behind ++ more).
Proof.
  intros T B H. pose proof (insert_inflight_ok g k' t (proj1 H)) as I.
  destruct (prune_held g o behind t T B H) as (_ & ts & R & L & l & E). autorewrite with guard in R.
  unfold insert_inflight in *. case_bool_decide as S.
  - exists []. rewrite app_nil_r. split; [simpl; lia|]. split; [done|]. exists ts.
    autorewrite with guard. split; [done|]. split; eauto.
  - exists [k']. split; [done|]. split; [done|]. exists ts. simpl. autorewrite with guard.
    split; [done|]. split; simpl.
    + rewrite lookup_insert_ne; [done|]. intros ->. apply S. eauto.
    + exists l. rewrite E, <- app_assoc. done.
Qed.

Lemma set_held g o behind k' t o' :
  t0 <= t <= t0 + dg_ttl g -> Z.of_nat (length behind) < dg_max_entries g ->
  held_in g o behind ->
  held_in (set_outcome g k' t o') (if bool_decide (k' = k) then o' else o) behind.
Proof.
  intros T B H. pose proof (set_outcome_ok g k' t o' (proj1 H)) as I. split; [done|].
  destruct (prune_held g o behind t T B H) as (_ & ts & R & L & l & E). autorewrite with guard in R.
  unfold set_outcome in *. case_bool_decide as Ek.
  - subst k'. rewrite L. exists t. simpl. autorewrite with guard. split; [done|].
    split; simpl; [by rewrite lookup_insert_eq | eauto].
  - exists ts. destruct (dg_entries (prune g t) !! k'); simpl; autorewrite with guard; (split; [done|]);
      (split; [|eauto]); simpl; rewrite ?lookup_insert_ne by done; done.
Qed.

Lemma op_held g o behind op :
  t0 <= op_time op <= t0 + dg_ttl g -> Z.of_nat (length behind) < dg_max_entries g ->
  held_in g o behind ->
  exists more, Z.of_nat (length more) <= checks [op] /\
    held_in (run_guard_op g op) (last_outcome k [op] o) (behind ++ more).
Proof.
  intros T B H. destruct op as [k' t|k' t o']; simpl in *.
  - destruct (dup_check_guard g k' t) as [->| ->].
    + exists []. rewrite app_nil_r. split; [unfold checks; simpl; lia|]. by apply prune_held.
    + destruct (insert_held (prune g t) o behind k' t) as (more & M & K);
        autorewrite with guard; try done; [by apply prune_held|].
      exists more. split; [unfold checks; simpl; lia | done].
  - exists []. rewrite app_nil_r. split; [unfold checks; simpl; lia|]. by apply set_held.
Qed.

Lemma run_held g o behind ops :
  Forall (fun op => t0 <= op_time op <= t0 + dg_ttl g) ops ->
  Z.of_nat (length behind) + checks ops < dg_max_entries g ->
  held_in g o behind ->
  exists behind', Z.of_nat (length behind') < dg_max_entries g /\
    held_in (run_guard ops g) (last_outcome k ops o) behind'.
Proof.
  revert g o behind. induction ops as [|op ops IH]; intros g o behind F B H.
  - exists behind. unfold checks in B; simpl in B. split; [lia | done].
  - apply Forall_cons in F as [T F].
    assert (checks (op :: ops) = checks [op] + checks ops) as C
      by (unfold checks; simpl; destruct (is_check op); simpl length; lia).
    assert (0 <= checks ops /\ 0 <= checks [op]) by (unfold checks; lia).
    destruct (op_held g o behind op T ltac:(lia) H) as (more & M & K).
    destruct (run_guard_op_params g op) as [E1 E2].
    destruct (IH (run_guard_op g op) (last_outcome k [op] o) (behind ++ more)) as (b & Lb & Kb);
      [by rewrite E1 | rewrite E2, length_app; lia | done |].
    rewrite E2 in Lb. exists b. split; [done|].
    replace (last_outcome k (op :: ops) o) with (last_outcome k ops (last_outcome k [op] o)); [done|].
    destruct op; reflexivity.
Qed.

Lemma run_guard_params ops g :
  dg_ttl (run_guard ops g) = dg_ttl g /\ dg_max_entries (run_guard ops g) = dg_max_entries g.
Proof.
  revert g. induction ops as [|op ops IH]; intros g; simpl; [done|].
  destruct (IH (run_guard_op g op)) as [-> ->]. apply run_guard_op_params.
Qed.
End Window.

Lemma fresh_held g key t g1 :
  guard_ok g -> 0 <= dg_ttl g -> dup_check g key t = (None, g1) ->
  held_in key t g1 InFlight [] /\ dg_ttl g1 = dg_ttl g /\ dg_max_entries g1 = dg_max_entries g.
Proof.
  intros I T. unfold dup_check, dup_get.
  destruct (option_map de_outcome (dg_entries (prune g t) !! key)) eqn:E; [discriminate|]. intros [= <-].
  pose proof (insert_inflight_ok (prune g t) key t (prune_ok _ t I)) as I1.
  unfold insert_inflight in *. case_bool_decide as S.
  - exfalso.
    assert (forall g t, guard_ok g -> dg_entries g !! key = None -> dg_entries (prune g t) !! key = None) as P.
    { clear. intros g t H E. unfold prune.
      assert (forall ttl now e o, e !! key = None -> fst (prune_expired ttl now e o) !! key = None) as P1.
      { intros ttl now e o. revert e. induction o as [|x o IH]; intros e He; simpl; [done|].
        destruct (match e !! x with Some _ => _ | None => _ end); [|done]. apply IH.
        rewrite lookup_delete, He. by destruct (decide (x = key)). }
      assert (forall max e o, e !! key = None -> fst (prune_excess max e o) !! key = None) as P2.
      { intros max e o. revert e. induction o as [|x o IH]; intros e He; simpl; destruct (_ <? _); try done.
        apply IH. rewrite lookup_delete, He. by destruct (decide (x = key)). }
      specialize (P1 (dg_ttl g) t (dg_entries g) (dg_order g) E).
      destruct (prune_expired _ _ _ _) as [e1 o1]. specialize (P2 (dg_max_entries g) e1 o1 P1).
      destruct (prune_excess _ _ _) as [e2 o2]. exact P2. }
    rewrite P in S; [by destruct S | by apply prune_ok|]. by destruct (dg_entries (prune g t) !! key).
  - simpl. autorewrite with guard. split; [|done]. split; [done|]. exists t. simpl. autorewrite with guard.
    split; [lia|]. split; simpl; [by rewrite lookup_insert_eq | eauto].
Qed.

(** A submission key that was taken as new is recognised as a repetition,
    with the outcome last recorded for it, by every lookup within the guard's
    lifetime, however other submissions interleave, as long as fewer than
    [max_entries] lookups come between. *)
Theorem duplicate_recognised g key t g1 ops t' :
  guard_ok g -> 0 <= dg_ttl g -> dup_check g key t = (None, g1) ->
  Forall (fun op => t <= op_time op <= t + dg_ttl g) ops -> t <= t' <= t + dg_ttl g ->
  checks ops < dg_max_entries g ->
  fst (dup_check (run_guard ops g1) key t') = Some (last_outcome key ops InFlight).
Proof.
  intros I T C F T' N. destruct (fresh_held g key t g1 I T C) as (H & E1 & E2).
  rewrite <- E1 in F, T'. rewrite <- E2 in N.
  destruct (run_held key t g1 InFlight [] ops F ltac:(simpl; lia) H) as (b & B & K).
  destruct (run_guard_params ops g1) as [P1 P2]. rewrite <- P1 in T'. rewrite <- P2 in B.
  destruct (prune_held key t _ _ _ t' T' B K) as (_ & ts & _ & L & _).
  unfold dup_check, dup_get. rewrite L. done.
Qed.

Lemma dup_guard_new_ok ttl max : guard_ok (dup_guard_new ttl max).
Proof.
  split; [constructor|]. intros x. simpl. rewrite lookup_empty.
  split; [intros [? [=]] | intros H%elem_of_nil; done].
Qed.

Lemma duplicate_recognised_witness :
  let g := dup_guard_new (secs 180) 50000 in
  fst (dup_check (run_guard [GCheck (lit "rig|2|00") 5; GSet (lit "rig|1|ff") 6 DAccepted]
                   (snd (dup_check g (lit "rig|1|ff") 3))) (lit "rig|1|ff") (secs 180))
  = Some DAccepted.
Proof.
  exact (duplicate_recognised (dup_guard_new (secs 180) 50000) (lit "rig|1|ff") 3 _
    [GCheck (lit "rig|2|00") 5; GSet (lit "rig|1|ff") 6 DAccepted] (secs 180)
    (dup_guard_new_ok _ _) ltac:(vm_compute; discriminate) eq_refl
    ltac:(repeat constructor; vm_compute; discriminate)
    ltac:(split; vm_compute; discriminate) eq_refl).
Defined.

(** The guard never stores more than one key above its capacity. *)
Lemma guard_bounded ops g :
  0 <= dg_max_entries g -> guard_ok g -> Z.of_nat (size (dg_entries g)) <= dg_max_entries g + 1 ->
  Z.of_nat (size (dg_entries (run_guard ops g))) <= dg_max_entries g + 1.
Proof.
  revert g. induction ops as [|op ops IH]; intros g M I S; simpl; [done|].
  destruct (run_guard_op_params g op) as [_ E]. rewrite <- E. apply IH; [lia | by apply run_guard_op_ok|].
  rewrite E. assert (forall k o, Z.of_nat (size (<[k := o]> (dg_entries (prune g (op_time op))))) <= dg_max_entries g + 1) as Hi.
  { intros k o. pose proof (prune_size g (op_time op) M I). rewrite map_size_insert. destruct (_ !! k); simpl; lia. }
  pose proof (prune_size g (op_time op) M I) as P.
  destruct op as [k t|k t o]; simpl in *.
  - destruct (dup_check_guard g k t) as [->| ->]; [lia|]. unfold insert_inflight.
    pose proof (prune_size (prune g t) t) as P2. autorewrite with guard in P2.
    specialize (P2 M (prune_ok _ _ I)). case_bool_decide; simpl; [lia|].
    rewrite map_size_insert. destruct (_ !! k); simpl; lia.
  - unfold set_outcome. destruct (dg_entries (prune g t) !! k); simpl; [apply Hi | lia].
Qed.

(** ** The controller keeps its floor *)

(** Without the power-of-two clamp a new difficulty is never below the minimum, and
    it differs from the current one. *)
Lemma vardiff_floor log2 current shares elapsed spm next :
  vardiff_compute_next_diff log2 current shares elapsed spm false = Some next ->
  f64_ltb next VARDIFF_MIN_DIFF = false /\ f64_ltb f64_EPSILON (f64_abs (f64_sub next current)) = true.
Proof.
  assert (forall x, f64_ltb (at_least_min x) VARDIFF_MIN_DIFF = false) as M.
  { intros x. unfold at_least_min. destruct (f64_ltb x VARDIFF_MIN_DIFF) eqn:L; [reflexivity | exact L]. }
  assert (forall x, if_changed current (at_least_min x) = Some next ->
    f64_ltb next VARDIFF_MIN_DIFF = false /\ f64_ltb f64_EPSILON (f64_abs (f64_sub next current)) = true) as C.
  { intros x. unfold if_changed. destruct (f64_ltb f64_EPSILON _) eqn:L; [|discriminate]. intros [= <-]. auto. }
  unfold vardiff_compute_next_diff, clamp_step.
  repeat (case_match; [discriminate || apply C|]); try apply C; discriminate.
Qed.

(** A worker without a live connection keeps its difficulty and its window. *)
Lemma vardiff_tick_offline log2 spm clamp now v :
  ws_active_connections v = 0 -> vardiff_tick_one log2 spm clamp now v = v.
Proof. intros H. unfold vardiff_tick_one. by rewrite H. Qed.
