(* ===== verification/StratumContext.v ===== *)
(** * The client connection ([bridge/src/stratum_context.rs])

    The state the bridge keeps of one miner: its identity, the work it was sent,
    what was written to its socket.  A write succeeds or fails as the environment
    says at each of its attempts. *)
From stdpp Require Import pretty.
From S2P Require Import Prelude F64 Schema Domain Hasher MiningState StratumRpc.
Open Scope Z_scope.

(** What is written to the socket. *)
Inductive Outgoing :=
| OResponse (r : JsonRpcResponse)
| OEvent (e : JsonRpcEvent)
| ONotification (method : text) (params : list Value)
| OV1Notification (method : text) (params : list Value).

(** [kas_payout] is the string form of the address.  [closing] is set while a
    disconnect that a failed write asked for has not run yet, and [sent] is what
    reached the socket. *)
Record StratumContext (Tx : Type) := mkCtx {
  cx_remote_addr : text;
  cx_remote_port : Z;
  cx_local_port : Z;
  cx_wallet_addr : text;
  cx_worker_name : text;
  cx_worker_name_supplied : bool;
  cx_canxium_addr : text;
  cx_kas_payout : option text;
  cx_remote_app : text;
  cx_id : Z;
  cx_extranonce : text;
  cx_state : MiningState Tx;
  cx_session_uid : Z;
  cx_template_generation : Z;
  cx_last_parent_job_at : option Z;
  cx_authorized_at : option Z;
  cx_last_job_sent_at : option Z;
  cx_session_opened : bool;
  cx_vardiff_registered : bool;
  cx_disconnecting : bool;
  cx_closing : bool;
  cx_sent : list Outgoing
}.
Arguments mkCtx {Tx} _ _ _ _ _ _ _ _ _ _ _ _ _ _ _ _ _ _ _ _ _ _.
Arguments cx_remote_addr {Tx} _.
Arguments cx_remote_port {Tx} _.
Arguments cx_local_port {Tx} _.
Arguments cx_wallet_addr {Tx} _.
Arguments cx_worker_name {Tx} _.
Arguments cx_worker_name_supplied {Tx} _.
Arguments cx_canxium_addr {Tx} _.
Arguments cx_kas_payout {Tx} _.
Arguments cx_remote_app {Tx} _.
Arguments cx_id {Tx} _.
Arguments cx_extranonce {Tx} _.
Arguments cx_state {Tx} _.
Arguments cx_session_uid {Tx} _.
Arguments cx_template_generation {Tx} _.
Arguments cx_last_parent_job_at {Tx} _.
Arguments cx_authorized_at {Tx} _.
Arguments cx_last_job_sent_at {Tx} _.
Arguments cx_session_opened {Tx} _.
Arguments cx_vardiff_registered {Tx} _.
Arguments cx_disconnecting {Tx} _.
Arguments cx_closing {Tx} _.
Arguments cx_sent {Tx} _.

Definition with_wallet_addr {Tx} (x : text) (c : StratumContext Tx) : StratumContext Tx :=
  mkCtx (cx_remote_addr c) (cx_remote_port c) (cx_local_port c) x (cx_worker_name c)
    (cx_worker_name_supplied c) (cx_canxium_addr c) (cx_kas_payout c) (cx_remote_app c) (cx_id c)
    (cx_extranonce c) (cx_state c) (cx_session_uid c) (cx_template_generation c) (cx_last_parent_job_at c)
    (cx_authorized_at c) (cx_last_job_sent_at c) (cx_session_opened c) (cx_vardiff_registered c)
    (cx_disconnecting c) (cx_closing c) (cx_sent c).

Definition with_worker_name {Tx} (x : text) (c : StratumContext Tx) : StratumContext Tx :=
  mkCtx (cx_remote_addr c) (cx_remote_port c) (cx_local_port c) (cx_wallet_addr c) x
    (cx_worker_name_supplied c) (cx_canxium_addr c) (cx_kas_payout c) (cx_remote_app c) (cx_id c)
    (cx_extranonce c) (cx_state c) (cx_session_uid c) (cx_template_generation c) (cx_last_parent_job_at c)
    (cx_authorized_at c) (cx_last_job_sent_at c) (cx_session_opened c) (cx_vardiff_registered c)
    (cx_disconnecting c) (cx_closing c) (cx_sent c).

Definition with_worker_name_supplied {Tx} (x : bool) (c : StratumContext Tx) : StratumContext Tx :=
  mkCtx (cx_remote_addr c) (cx_remote_port c) (cx_local_port c) (cx_wallet_addr c) (cx_worker_name c) x
    (cx_canxium_addr c) (cx_kas_payout c) (cx_remote_app c) (cx_id c) (cx_extranonce c) (cx_state c)
    (cx_session_uid c) (cx_template_generation c) (cx_last_parent_job_at c) (cx_authorized_at c)
    (cx_last_job_sent_at c) (cx_session_opened c) (cx_vardiff_registered c) (cx_disconnecting c)
    (cx_closing c) (cx_sent c).

Definition with_canxium_addr {Tx} (x : text) (c : StratumContext Tx) : StratumContext Tx :=
  mkCtx (cx_remote_addr c) (cx_remote_port c) (cx_local_port c) (cx_wallet_addr c) (cx_worker_name c)
    (cx_worker_name_supplied c) x (cx_kas_payout c) (cx_remote_app c) (cx_id c) (cx_extranonce c)
    (cx_state c) (cx_session_uid c) (cx_template_generation c) (cx_last_parent_job_at c)
    (cx_authorized_at c) (cx_last_job_sent_at c) (cx_session_opened c) (cx_vardiff_registered c)
    (cx_disconnecting c) (cx_closing c) (cx_sent c).

Definition with_kas_payout {Tx} (x : option text) (c : StratumContext Tx) : StratumContext Tx :=
  mkCtx (cx_remote_addr c) (cx_remote_port c) (cx_local_port c) (cx_wallet_addr c) (cx_worker_name c)
    (cx_worker_name_supplied c) (cx_canxium_addr c) x (cx_remote_app c) (cx_id c) (cx_extranonce c)
    (cx_state c) (cx_session_uid c) (cx_template_generation c) (cx_last_parent_job_at c)
    (cx_authorized_at c) (cx_last_job_sent_at c) (cx_session_opened c) (cx_vardiff_registered c)
    (cx_disconnecting c) (cx_closing c) (cx_sent c).

Definition with_remote_app {Tx} (x : text) (c : StratumContext Tx) : StratumContext Tx :=
  mkCtx (cx_remote_addr c) (cx_remote_port c) (cx_local_port c) (cx_wallet_addr c) (cx_worker_name c)
    (cx_worker_name_supplied c) (cx_canxium_addr c) (cx_kas_payout c) x (cx_id c) (cx_extranonce c)
    (cx_state c) (cx_session_uid c) (cx_template_generation c) (cx_last_parent_job_at c)
    (cx_authorized_at c) (cx_last_job_sent_at c) (cx_session_opened c) (cx_vardiff_registered c)
    (cx_disconnecting c) (cx_closing c) (cx_sent c).

Definition with_id {Tx} (x : Z) (c : StratumContext Tx) : StratumContext Tx :=
  mkCtx (cx_remote_addr c) (cx_remote_port c) (cx_local_port c) (cx_wallet_addr c) (cx_worker_name c)
    (cx_worker_name_supplied c) (cx_canxium_addr c) (cx_kas_payout c) (cx_remote_app c) x (cx_extranonce c)
    (cx_state c) (cx_session_uid c) (cx_template_generation c) (cx_last_parent_job_at c)
    (cx_authorized_at c) (cx_last_job_sent_at c) (cx_session_opened c) (cx_vardiff_registered c)
    (cx_disconnecting c) (cx_closing c) (cx_sent c).

Definition with_extranonce {Tx} (x : text) (c : StratumContext Tx) : StratumContext Tx :=
  mkCtx (cx_remote_addr c) (cx_remote_port c) (cx_local_port c) (cx_wallet_addr c) (cx_worker_name c)
    (cx_worker_name_supplied c) (cx_canxium_addr c) (cx_kas_payout c) (cx_remote_app c) (cx_id c) x
    (cx_state c) (cx_session_uid c) (cx_template_generation c) (cx_last_parent_job_at c)
    (cx_authorized_at c) (cx_last_job_sent_at c) (cx_session_opened c) (cx_vardiff_registered c)
    (cx_disconnecting c) (cx_closing c) (cx_sent c).

Definition with_state {Tx} (x : MiningState Tx) (c : StratumContext Tx) : StratumContext Tx :=
  mkCtx (cx_remote_addr c) (cx_remote_port c) (cx_local_port c) (cx_wallet_addr c) (cx_worker_name c)
    (cx_worker_name_supplied c) (cx_canxium_addr c) (cx_kas_payout c) (cx_remote_app c) (cx_id c)
    (cx_extranonce c) x (cx_session_uid c) (cx_template_generation c) (cx_last_parent_job_at c)
    (cx_authorized_at c) (cx_last_job_sent_at c) (cx_session_opened c) (cx_vardiff_registered c)
    (cx_disconnecting c) (cx_closing c) (cx_sent c).

Definition with_template_generation {Tx} (x : Z) (c : StratumContext Tx) : StratumContext Tx :=
  mkCtx (cx_remote_addr c) (cx_remote_port c) (cx_local_port c) (cx_wallet_addr c) (cx_worker_name c)
    (cx_worker_name_supplied c) (cx_canxium_addr c) (cx_kas_payout c) (cx_remote_app c) (cx_id c)
    (cx_extranonce c) (cx_state c) (cx_session_uid c) x (cx_last_parent_job_at c) (cx_authorized_at c)
    (cx_last_job_sent_at c) (cx_session_opened c) (cx_vardiff_registered c) (cx_disconnecting c)
    (cx_closing c) (cx_sent c).

Definition with_last_parent_job_at {Tx} (x : option Z) (c : StratumContext Tx) : StratumContext Tx :=
  mkCtx (cx_remote_addr c) (cx_remote_port c) (cx_local_port c) (cx_wallet_addr c) (cx_worker_name c)
    (cx_worker_name_supplied c) (cx_canxium_addr c) (cx_kas_payout c) (cx_remote_app c) (cx_id c)
    (cx_extranonce c) (cx_state c) (cx_session_uid c) (cx_template_generation c) x (cx_authorized_at c)
    (cx_last_job_sent_at c) (cx_session_opened c) (cx_vardiff_registered c) (cx_disconnecting c)
    (cx_closing c) (cx_sent c).

Definition with_authorized_at {Tx} (x : option Z) (c : StratumContext Tx) : StratumContext Tx :=
  mkCtx (cx_remote_addr c) (cx_remote_port c) (cx_local_port c) (cx_wallet_addr c) (cx_worker_name c)
    (cx_worker_name_supplied c) (cx_canxium_addr c) (cx_kas_payout c) (cx_remote_app c) (cx_id c)
    (cx_extranonce c) (cx_state c) (cx_session_uid c) (cx_template_generation c) (cx_last_parent_job_at c) x
    (cx_last_job_sent_at c) (cx_session_opened c) (cx_vardiff_registered c) (cx_disconnecting c)
    (cx_closing c) (cx_sent c).

Definition with_last_job_sent_at {Tx} (x : option Z) (c : StratumContext Tx) : StratumContext Tx :=
  mkCtx (cx_remote_addr c) (cx_remote_port c) (cx_local_port c) (cx_wallet_addr c) (cx_worker_name c)
    (cx_worker_name_supplied c) (cx_canxium_addr c) (cx_kas_payout c) (cx_remote_app c) (cx_id c)
    (cx_extranonce c) (cx_state c) (cx_session_uid c) (cx_template_generation c) (cx_last_parent_job_at c)
    (cx_authorized_at c) x (cx_session_opened c) (cx_vardiff_registered c) (cx_disconnecting c)
    (cx_closing c) (cx_sent c).

Definition with_session_opened {Tx} (x : bool) (c : StratumContext Tx) : StratumContext Tx :=
  mkCtx (cx_remote_addr c) (cx_remote_port c) (cx_local_port c) (cx_wallet_addr c) (cx_worker_name c)
    (cx_worker_name_supplied c) (cx_canxium_addr c) (cx_kas_payout c) (cx_remote_app c) (cx_id c)
    (cx_extranonce c) (cx_state c) (cx_session_uid c) (cx_template_generation c) (cx_last_parent_job_at c)
    (cx_authorized_at c) (cx_last_job_sent_at c) x (cx_vardiff_registered c) (cx_disconnecting c)
    (cx_closing c) (cx_sent c).

Definition with_vardiff_registered {Tx} (x : bool) (c : StratumContext Tx) : StratumContext Tx :=
  mkCtx (cx_remote_addr c) (cx_remote_port c) (cx_local_port c) (cx_wallet_addr c) (cx_worker_name c)
    (cx_worker_name_supplied c) (cx_canxium_addr c) (cx_kas_payout c) (cx_remote_app c) (cx_id c)
    (cx_extranonce c) (cx_state c) (cx_session_uid c) (cx_template_generation c) (cx_last_parent_job_at c)
    (cx_authorized_at c) (cx_last_job_sent_at c) (cx_session_opened c) x (cx_disconnecting c) (cx_closing c)
    (cx_sent c).

Definition with_disconnecting {Tx} (x : bool) (c : StratumContext Tx) : StratumContext Tx :=
  mkCtx (cx_remote_addr c) (cx_remote_port c) (cx_local_port c) (cx_wallet_addr c) (cx_worker_name c)
    (cx_worker_name_supplied c) (cx_canxium_addr c) (cx_kas_payout c) (cx_remote_app c) (cx_id c)
    (cx_extranonce c) (cx_state c) (cx_session_uid c) (cx_template_generation c) (cx_last_parent_job_at c)
    (cx_authorized_at c) (cx_last_job_sent_at c) (cx_session_opened c) (cx_vardiff_registered c) x
    (cx_closing c) (cx_sent c).

Definition with_closing {Tx} (x : bool) (c : StratumContext Tx) : StratumContext Tx :=
  mkCtx (cx_remote_addr c) (cx_remote_port c) (cx_local_port c) (cx_wallet_addr c) (cx_worker_name c)
    (cx_worker_name_supplied c) (cx_canxium_addr c) (cx_kas_payout c) (cx_remote_app c) (cx_id c)
    (cx_extranonce c) (cx_state c) (cx_session_uid c) (cx_template_generation c) (cx_last_parent_job_at c)
    (cx_authorized_at c) (cx_last_job_sent_at c) (cx_session_opened c) (cx_vardiff_registered c)
    (cx_disconnecting c) x (cx_sent c).

Definition with_sent {Tx} (x : list Outgoing) (c : StratumContext Tx) : StratumContext Tx :=
  mkCtx (cx_remote_addr c) (cx_remote_port c) (cx_local_port c) (cx_wallet_addr c) (cx_worker_name c)
    (cx_worker_name_supplied c) (cx_canxium_addr c) (cx_kas_payout c) (cx_remote_app c) (cx_id c)
    (cx_extranonce c) (cx_state c) (cx_session_uid c) (cx_template_generation c) (cx_last_parent_job_at c)
    (cx_authorized_at c) (cx_last_job_sent_at c) (cx_session_opened c) (cx_vardiff_registered c)
    (cx_disconnecting c) (cx_closing c) x.

Section Context_ops.
Context {Tx : Type}.
Implicit Types (c : StratumContext Tx).

Definition ctx_new (remote_addr : text) (remote_port local_port session_uid : Z) (state : MiningState Tx)
  : StratumContext Tx :=
  mkCtx remote_addr remote_port local_port [] [] false [] None [] 0 [] state session_uid 0 None None None
    false false false false [].

Definition connected c : bool := negb (cx_disconnecting c).

Definition ctx_id c : option Z := if 0 <? cx_id c then Some (cx_id c) else None.

(** An atomic [u64] counter: [fetch_add] wraps, the addition of one panics. *)
Definition next_template_generation c : option (Z * StratumContext Tx) :=
  match checked_u64 (cx_template_generation c + 1) with
  | Some g => Some (g, with_template_generation g c)
  | None => None
  end.

Definition too_recent (minimum_interval now : Z) c : bool :=
  match cx_last_parent_job_at c with
  | Some at_ => Z.max 0 (now - at_) <? minimum_interval
  | None => false
  end.

(** [now1] and [now2] are the instants of the two checks, [gate_free] the answer of
    the semaphore. *)
Definition try_parent_refresh (minimum_interval now1 now2 : Z) (gate_free : bool) c : bool :=
  if too_recent minimum_interval now1 c then false
  else if negb gate_free then false
  else negb (too_recent minimum_interval now2 c).

Definition mark_parent_job_sent (now : Z) c : StratumContext Tx := with_last_parent_job_at (Some now) c.

Definition mark_authorized (now : Z) c : StratumContext Tx :=
  with_last_job_sent_at None (with_authorized_at (Some now) c).

Definition mark_job_sent (now : Z) c : StratumContext Tx := with_last_job_sent_at (Some now) c.

Definition received_job_since_authorization c : bool :=
  match cx_authorized_at c, cx_last_job_sent_at c with
  | Some a, Some j => a <=? j
  | _, _ => false
  end.

Definition claim_session_open c : bool * StratumContext Tx :=
  (negb (cx_session_opened c), with_session_opened true c).

Definition claim_vardiff_registration c : bool * StratumContext Tx :=
  (negb (cx_vardiff_registered c), with_vardiff_registered true c).

Definition release_vardiff_registration c : bool * StratumContext Tx :=
  (cx_vardiff_registered c, with_vardiff_registered false c).

Record ContextSummary := mkSummary {
  su_remote_addr : text;
  su_remote_port : Z;
  su_wallet_addr : text;
  su_worker_name : text;
  su_remote_app : text
}.

Definition summary c : ContextSummary :=
  mkSummary (cx_remote_addr c) (cx_remote_port c) (cx_wallet_addr c) (cx_worker_name c) (cx_remote_app c).

(** ** Worker names *)

Definition is_empty (s : text) : bool := match s with [] => true | _ => false end.

Definition show (z : Z) : text := lit (pretty z).

Definition default_worker_name c : text :=
  lit "asic-" ++ show (match ctx_id c with Some id => id | None => cx_remote_port c end).

Definition ensure_default_worker_name c : StratumContext Tx :=
  if negb (is_empty (trim (cx_worker_name c))) then c else with_worker_name (default_worker_name c) c.

Definition set_authorized_worker_name (worker_name : text) c : StratumContext Tx :=
  ensure_default_worker_name
    (with_worker_name worker_name (with_worker_name_supplied (negb (is_empty (trim worker_name))) c)).

Definition vardiff_worker_identity c : text :=
  if cx_worker_name_supplied c then cx_worker_name c else [].

Definition effective_worker_name c : text * StratumContext Tx :=
  let c := ensure_default_worker_name c in (cx_worker_name c, c).

(** ** Writing *)

(** One attempt of [write_data]: the write lock is taken, the write half is gone,
    or the write ends in one of three ways. *)
Inductive WriteAttempt := Busy | NoWriter | Written | WriteError | TimedOut.

(** [check_disconnect] spawns the disconnect. *)
Definition check_disconnect c : StratumContext Tx :=
  if cx_disconnecting c then c else with_closing true c.

(** The attempts from number [attempt] of [remaining] ones; [false] is
    [ErrorDisconnected]. *)
Fixpoint write_attempts (remaining : nat) (writes : nat -> WriteAttempt) (attempt : nat) (m : Outgoing) c
  : bool * StratumContext Tx :=
  match remaining with
  | O => (false, c)
  | S remaining =>
      match writes attempt with
      | Busy => write_attempts remaining writes (S attempt) m c
      | NoWriter => (false, c)
      | Written => (true, with_sent (cx_sent c ++ [m]) c)
      | WriteError => (false, check_disconnect c)
      | TimedOut =>
          if (attempt <? 2)%nat then write_attempts remaining writes (S attempt) m c
          else (false, check_disconnect c)
      end
  end.

Definition write_data (writes : nat -> WriteAttempt) (m : Outgoing) c : bool * StratumContext Tx :=
  if cx_disconnecting c then (false, c) else write_attempts 3 writes 0 m c.

Definition reply (writes : nat -> WriteAttempt) (response : JsonRpcResponse) c : bool * StratumContext Tx :=
  if cx_disconnecting c then (false, c) else write_data writes (OResponse response) c.

Definition ctx_send (writes : nat -> WriteAttempt) (event : JsonRpcEvent) c : bool * StratumContext Tx :=
  if cx_disconnecting c then (false, c) else write_data writes (OEvent event) c.

Definition send_notification (writes : nat -> WriteAttempt) (method : text) (params : list Value) c
  : bool * StratumContext Tx :=
  if cx_disconnecting c then (false, c) else write_data writes (ONotification method params) c.

Definition send_v1_notification (writes : nat -> WriteAttempt) (method : text) (params : list Value) c
  : bool * StratumContext Tx :=
  if cx_disconnecting c then (false, c) else write_data writes (OV1Notification method params) c.

Definition send_reconnect_hint (writes : nat -> WriteAttempt) (host : text) (port wait_secs : Z) c
  : bool * StratumContext Tx :=
  ctx_send writes
    (mkEvent None (lit "2.0") (lit "client.reconnect")
       [VString host; VNumber (PosInt port); VNumber (PosInt wait_secs)]) c.

Definition reply_stale_share writes (id : option Value) c : bool * StratumContext Tx :=
  reply writes (response_error id 21 (lit "Job not found") None) c.

Definition reply_dupe_share writes (id : option Value) c : bool * StratumContext Tx :=
  reply writes (response_error id 22 (lit "Duplicate share submitted") None) c.

Definition reply_bad_share writes (id : option Value) c : bool * StratumContext Tx :=
  reply writes (response_error id 20 (lit "Unknown problem") None) c.

Definition reply_low_diff_share writes (id : Value) c : bool * StratumContext Tx :=
  reply writes (response_error (Some id) 23 (lit "Invalid difficulty") None) c.

(** The flag is swapped once; a later call changes nothing. *)
Definition disconnect c : StratumContext Tx := with_closing false (with_disconnecting true c).

(** ** What the operations guarantee *)

(** A write either puts exactly its message on the wire or nothing, and a
    disconnecting client gets nothing. *)
Lemma write_data_sent writes m c :
  let r := write_data writes m c in
  cx_sent (snd r) = cx_sent c ++ (if fst r then [m] else []) /\
  (fst r = true -> cx_disconnecting c = false) /\
  cx_disconnecting (snd r) = cx_disconnecting c.
Proof.
  unfold write_data. destruct (cx_disconnecting c) eqn:D; simpl; [rewrite app_nil_r; auto|].
  assert (forall l a, let r := write_attempts l writes a m c in
    cx_sent (snd r) = cx_sent c ++ (if fst r then [m] else []) /\ cx_disconnecting (snd r) = false) as H.
  { induction l as [|l IH]; intros a; simpl; [rewrite app_nil_r; auto|].
    destruct (writes a); simpl; auto; [rewrite app_nil_r; auto|..]; unfold check_disconnect; rewrite ?D; simpl;
      [rewrite app_nil_r; auto|].
    destruct (_ <? _)%nat; [apply IH|]. simpl. rewrite app_nil_r. auto. }
  destruct (H 3%nat 0%nat) as [H1 H2]. split; [exact H1 | split; auto].
Qed.

(** The default name of a connection is never empty, and a supplied name that is
    not blank is kept as it is. *)
Lemma effective_worker_name_nonempty c : fst (effective_worker_name c) <> [].
Proof.
  unfold effective_worker_name, ensure_default_worker_name. destruct (is_empty _) eqn:E; simpl.
  - discriminate.
  - intros H. rewrite H in E. discriminate.
Qed.

Lemma default_worker_name_shown c : is_empty (trim (default_worker_name c)) = false.
Proof.
  assert (forall l, 97 ∈ l -> 97 ∈ trim_start l) as T.
  { induction l as [|x l IH]; simpl; [done|]. intros H. destruct (is_whitespace x) eqn:W; [|done].
    apply elem_of_cons in H as [<-|H]; [discriminate W | auto]. }
  assert (97 ∈ trim (default_worker_name c)) as H.
  { unfold trim. rewrite list_elem_of_In, <- in_rev, <- list_elem_of_In. apply T.
    rewrite list_elem_of_In, <- in_rev, <- list_elem_of_In. apply T. left. }
  destruct (trim _); [by apply elem_of_nil in H | done].
Qed.

Lemma effective_worker_name_idem c :
  effective_worker_name (snd (effective_worker_name c)) = effective_worker_name c.
Proof.
  unfold effective_worker_name. simpl. unfold ensure_default_worker_name at 3 4.
  destruct (is_empty (trim (cx_worker_name c))) eqn:E; simpl; unfold ensure_default_worker_name; rewrite E; simpl;
    rewrite ?E, ?default_worker_name_shown; done.
Qed.
End Context_ops.
