(* ===== verification/ShareHandler.v ===== *)
(** * The share handler ([bridge/src/share_handler.rs])

    [handle_submit] with everything it touches: the connection, the worker
    statistics, the duplicate guard, the event bus and the node.  The node, the
    clock and the socket answer by call index; during every awaited call other
    tasks may change the connection's jobs ([env_meanwhile]). *)
From Stdlib Require Import SpecFloat.
From S2P Require Import Prelude F64 Schema Domain Hasher MiningState StratumRpc ShareGuard StratumContext IngestDb Consumer.
Open Scope Z_scope.

(** ** The node as the handler sees it *)

Inductive BlockSubmitOutcome := SubmitAccepted | RejectedByNode (reason : text).

Inductive MergedParentSubmitOutcome :=
| NotMerged | DoesNotClearKaspa | NoKaspaClient | ParentAccepted
| ParentRejected (reason : text) | ParentTransportError (reason : text).

Class ShareEnv (Tx : Type) := {
  api_merged_fc_target : nat -> Block Tx -> option Z;
  api_merged_chain_hash : nat -> Block Tx -> option bytes;
  api_merged_zkas_daa : nat -> Block Tx -> option Z;
  api_submit_merged_parent : nat -> Block Tx -> MergedParentSubmitOutcome;
  api_claim_network_solution : nat -> Block Tx -> bool;
  api_submit_block : nat -> Block Tx -> result BlockSubmitOutcome text;
  api_block_color : nat -> text -> result bool text;
  env_meanwhile : nat -> MiningState Tx -> MiningState Tx;
  env_instant : nat -> Z;
  env_unix_ms : nat -> Z;
  env_utc : nat -> Z;
  env_write : nat -> nat -> WriteAttempt;
  env_uuid : nat -> string;
  (** [kaspa_pow::State::new(header).check_pow(nonce)], header hashes and their text. *)
  check_pow : Header -> Z -> bool * Z;
  header_hash : Header -> bytes;
  hash_text : bytes -> text;
  hex_decode : text -> option bytes
}.

(** ** State *)

(** A spawned task that waits for a block to turn blue. *)
Record ConfirmTask := mkConfirmTask { ct_stats : nat; ct_hash : text }.

(** [sh_stats] maps a worker's key to its statistics in [sh_heap]: a task keeps
    its reference when the entry is pruned.  [sh_bus] tells whether an event bus
    is attached, [sh_events] is what was published on it. *)
Record ShareHandler := mkHandler {
  sh_stats : gmap text nat;
  sh_heap : list WorkStats;
  sh_overall : WorkStats;
  sh_guard : DuplicateSubmitGuard;
  sh_bus : bool;
  sh_events : list PoolEvent;
  sh_refreshes : list Z;
  sh_tasks : list ConfirmTask;
  sh_calls : nat
}.

Definition with_stats (x : gmap text nat) (c : ShareHandler) : ShareHandler :=
  mkHandler x (sh_heap c) (sh_overall c) (sh_guard c) (sh_bus c) (sh_events c) (sh_refreshes c) (sh_tasks c)
    (sh_calls c).

Definition with_heap (x : list WorkStats) (c : ShareHandler) : ShareHandler :=
  mkHandler (sh_stats c) x (sh_overall c) (sh_guard c) (sh_bus c) (sh_events c) (sh_refreshes c)
    (sh_tasks c) (sh_calls c).

Definition with_overall (x : WorkStats) (c : ShareHandler) : ShareHandler :=
  mkHandler (sh_stats c) (sh_heap c) x (sh_guard c) (sh_bus c) (sh_events c) (sh_refreshes c) (sh_tasks c)
    (sh_calls c).

Definition with_guard (x : DuplicateSubmitGuard) (c : ShareHandler) : ShareHandler :=
  mkHandler (sh_stats c) (sh_heap c) (sh_overall c) x (sh_bus c) (sh_events c) (sh_refreshes c) (sh_tasks c)
    (sh_calls c).

Definition with_events (x : list PoolEvent) (c : ShareHandler) : ShareHandler :=
  mkHandler (sh_stats c) (sh_heap c) (sh_overall c) (sh_guard c) (sh_bus c) x (sh_refreshes c) (sh_tasks c)
    (sh_calls c).

Definition with_refreshes (x : list Z) (c : ShareHandler) : ShareHandler :=
  mkHandler (sh_stats c) (sh_heap c) (sh_overall c) (sh_guard c) (sh_bus c) (sh_events c) x (sh_tasks c)
    (sh_calls c).

Definition with_tasks (x : list ConfirmTask) (c : ShareHandler) : ShareHandler :=
  mkHandler (sh_stats c) (sh_heap c) (sh_overall c) (sh_guard c) (sh_bus c) (sh_events c) (sh_refreshes c) x
    (sh_calls c).

Definition with_calls (x : nat) (c : ShareHandler) : ShareHandler :=
  mkHandler (sh_stats c) (sh_heap c) (sh_overall c) (sh_guard c) (sh_bus c) (sh_events c) (sh_refreshes c)
    (sh_tasks c) x.

(** Updates of single counters of a statistics record. *)

Definition ws_set_blocks_found (x : Z) (c : WorkStats) : WorkStats :=
  mkStats x (ws_shares_found c) (ws_shares_diff c) (ws_stale_shares c) (ws_invalid_shares c)
    (ws_worker_name c) (ws_start_time c) (ws_last_share c) (ws_var_diff_start_time c)
    (ws_var_diff_shares_found c) (ws_var_diff_window c) (ws_min_diff c) (ws_active_connections c)
    (ws_last_session_activity c).

Definition ws_set_shares_found (x : Z) (c : WorkStats) : WorkStats :=
  mkStats (ws_blocks_found c) x (ws_shares_diff c) (ws_stale_shares c) (ws_invalid_shares c)
    (ws_worker_name c) (ws_start_time c) (ws_last_share c) (ws_var_diff_start_time c)
    (ws_var_diff_shares_found c) (ws_var_diff_window c) (ws_min_diff c) (ws_active_connections c)
    (ws_last_session_activity c).

Definition ws_set_shares_diff (x : f64) (c : WorkStats) : WorkStats :=
  mkStats (ws_blocks_found c) (ws_shares_found c) x (ws_stale_shares c) (ws_invalid_shares c)
    (ws_worker_name c) (ws_start_time c) (ws_last_share c) (ws_var_diff_start_time c)
    (ws_var_diff_shares_found c) (ws_var_diff_window c) (ws_min_diff c) (ws_active_connections c)
    (ws_last_session_activity c).

Definition ws_set_stale_shares (x : Z) (c : WorkStats) : WorkStats :=
  mkStats (ws_blocks_found c) (ws_shares_found c) (ws_shares_diff c) x (ws_invalid_shares c)
    (ws_worker_name c) (ws_start_time c) (ws_last_share c) (ws_var_diff_start_time c)
    (ws_var_diff_shares_found c) (ws_var_diff_window c) (ws_min_diff c) (ws_active_connections c)
    (ws_last_session_activity c).

Definition ws_set_invalid_shares (x : Z) (c : WorkStats) : WorkStats :=
  mkStats (ws_blocks_found c) (ws_shares_found c) (ws_shares_diff c) (ws_stale_shares c) x
    (ws_worker_name c) (ws_start_time c) (ws_last_share c) (ws_var_diff_start_time c)
    (ws_var_diff_shares_found c) (ws_var_diff_window c) (ws_min_diff c) (ws_active_connections c)
    (ws_last_session_activity c).

Definition ws_set_last_share (x : Z) (c : WorkStats) : WorkStats :=
  mkStats (ws_blocks_found c) (ws_shares_found c) (ws_shares_diff c) (ws_stale_shares c)
    (ws_invalid_shares c) (ws_worker_name c) (ws_start_time c) x (ws_var_diff_start_time c)
    (ws_var_diff_shares_found c) (ws_var_diff_window c) (ws_min_diff c) (ws_active_connections c)
    (ws_last_session_activity c).

Definition ws_set_var_diff_start_time (x : option Z) (c : WorkStats) : WorkStats :=
  mkStats (ws_blocks_found c) (ws_shares_found c) (ws_shares_diff c) (ws_stale_shares c)
    (ws_invalid_shares c) (ws_worker_name c) (ws_start_time c) (ws_last_share c) x
    (ws_var_diff_shares_found c) (ws_var_diff_window c) (ws_min_diff c) (ws_active_connections c)
    (ws_last_session_activity c).

Definition ws_set_var_diff_shares_found (x : Z) (c : WorkStats) : WorkStats :=
  mkStats (ws_blocks_found c) (ws_shares_found c) (ws_shares_diff c) (ws_stale_shares c)
    (ws_invalid_shares c) (ws_worker_name c) (ws_start_time c) (ws_last_share c) (ws_var_diff_start_time c)
    x (ws_var_diff_window c) (ws_min_diff c) (ws_active_connections c) (ws_last_session_activity c).

Definition ws_set_var_diff_window (x : Z) (c : WorkStats) : WorkStats :=
  mkStats (ws_blocks_found c) (ws_shares_found c) (ws_shares_diff c) (ws_stale_shares c)
    (ws_invalid_shares c) (ws_worker_name c) (ws_start_time c) (ws_last_share c) (ws_var_diff_start_time c)
    (ws_var_diff_shares_found c) x (ws_min_diff c) (ws_active_connections c) (ws_last_session_activity c).

Definition ws_set_min_diff (x : f64) (c : WorkStats) : WorkStats :=
  mkStats (ws_blocks_found c) (ws_shares_found c) (ws_shares_diff c) (ws_stale_shares c)
    (ws_invalid_shares c) (ws_worker_name c) (ws_start_time c) (ws_last_share c) (ws_var_diff_start_time c)
    (ws_var_diff_shares_found c) (ws_var_diff_window c) x (ws_active_connections c)
    (ws_last_session_activity c).

Definition ws_set_active_connections (x : Z) (c : WorkStats) : WorkStats :=
  mkStats (ws_blocks_found c) (ws_shares_found c) (ws_shares_diff c) (ws_stale_shares c)
    (ws_invalid_shares c) (ws_worker_name c) (ws_start_time c) (ws_last_share c) (ws_var_diff_start_time c)
    (ws_var_diff_shares_found c) (ws_var_diff_window c) (ws_min_diff c) x (ws_last_session_activity c).

Definition ws_set_last_session_activity (x : Z) (c : WorkStats) : WorkStats :=
  mkStats (ws_blocks_found c) (ws_shares_found c) (ws_shares_diff c) (ws_stale_shares c)
    (ws_invalid_shares c) (ws_worker_name c) (ws_start_time c) (ws_last_share c) (ws_var_diff_start_time c)
    (ws_var_diff_shares_found c) (ws_var_diff_window c) (ws_min_diff c) (ws_active_connections c) x.

Inductive SubmitError :=
| MalformedEvent | JobIdNotParsable | JobIdOutOfRange | JobIdType | JobDoesNotExist
| NonceNotString | NonceNotParsable | ReplyFailed | Panicked.

Section Handler.
Context {Tx : Type} `{E : !ShareEnv Tx}.

Record HW := mkHW { hw_ctx : StratumContext Tx; hw_sh : ShareHandler }.

Definition HM (A : Type) : Type := HW -> HW * result A SubmitError.
Definition h_ret {A} (a : A) : HM A := fun w => (w, Ok a).
Definition h_fail {A} (e : SubmitError) : HM A := fun w => (w, Err e).
Definition h_bind {A B} (m : HM A) (k : A -> HM B) : HM B :=
  fun w => match m w with (w, Ok a) => k a w | (w, Err e) => (w, Err e) end.
Notation "x <-h m ;; k" := (h_bind m (fun x => k))
  (at level 100, m at next level, right associativity).
Notation "m ;;h k" := (h_bind m (fun _ => k))
  (at level 100, right associativity).

(** [?] on an option and on a result. *)
Definition h_some {A} (o : option A) (e : SubmitError) : HM A :=
  match o with Some a => h_ret a | None => h_fail e end.

Definition ctx_get {A} (f : StratumContext Tx -> A) : HM A := fun w => (w, Ok (f (hw_ctx w))).
Definition ctx_put (f : StratumContext Tx -> StratumContext Tx) : HM unit :=
  fun w => (mkHW (f (hw_ctx w)) (hw_sh w), Ok tt).
Definition ctx_run {A} (f : StratumContext Tx -> A * StratumContext Tx) : HM A :=
  fun w => let (a, c) := f (hw_ctx w) in (mkHW c (hw_sh w), Ok a).
Definition sh_get {A} (f : ShareHandler -> A) : HM A := fun w => (w, Ok (f (hw_sh w))).
Definition sh_put (f : ShareHandler -> ShareHandler) : HM unit :=
  fun w => (mkHW (hw_ctx w) (f (hw_sh w)), Ok tt).

(** A call whose answer the environment gives. *)
Definition ask {A} (f : nat -> A) : HM A :=
  fun w => let n := sh_calls (hw_sh w) in
           (mkHW (hw_ctx w) (with_calls (S n) (hw_sh w)), Ok (f n)).

(** An awaited call: other tasks run meanwhile. *)
Definition await {A} (f : nat -> A) : HM A :=
  a <-h ask f ;;
  n <-h sh_get sh_calls ;;
  ctx_put (fun c => with_state (env_meanwhile n (cx_state c)) c) ;;h
  h_ret a.

(** ** Events and replies *)

Definition emit (event : PoolEvent) : HM unit :=
  sh_put (fun s => if sh_bus s then with_events (sh_events s ++ [event]) s else s).

Definition build_share_rejected (wallet_raw worker_raw : text) (reason : ShareRejectReason)
    (correlation_id : string) (ts : Z) : option PoolEvent :=
  match WalletAddress_new wallet_raw, WorkerName_new worker_raw with
  | Ok wallet, Ok worker => Some (ShareRejected wallet worker reason ts correlation_id)
  | _, _ => None
  end.

Definition emit_rejected (wallet worker : text) (reason : ShareRejectReason) (correlation_id : string) : HM unit :=
  ts <-h ask env_utc ;;
  match build_share_rejected wallet worker reason correlation_id ts with
  | Some ev => emit ev
  | None => h_ret tt
  end.

Definition send_reply (f : (nat -> WriteAttempt) -> StratumContext Tx -> bool * StratumContext Tx) : HM bool :=
  writes <-h ask env_write ;;
  ctx_run (f writes).

(** [reply(...).await?]. *)
Definition reply_or_fail (f : (nat -> WriteAttempt) -> StratumContext Tx -> bool * StratumContext Tx) : HM unit :=
  ok <-h send_reply f ;;
  if ok then h_ret tt else h_fail ReplyFailed.

Definition set_dup_outcome (submit_key : text) (outcome : DuplicateSubmitOutcome) : HM unit :=
  now <-h ask env_instant ;;
  sh_put (fun s => with_guard (set_outcome (sh_guard s) submit_key now outcome) s).

(** ** Statistics *)

Definition stats_key (c : StratumContext Tx) : text :=
  to_ascii_lowercase (trim (cx_wallet_addr c)) ++ [0] ++ vardiff_worker_identity c.

Definition current_stratum_diff (c : StratumContext Tx) : f64 :=
  match ms_stratum_diff (cx_state c) with Some d => kd_diff_value d | None => f64_zero end.

Definition get_stats_if_exists : HM (option nat) :=
  key <-h ctx_get stats_key ;;
  sh_get (fun s => sh_stats s !! key).

Definition new_stats (worker_id : text) (now : Z) (seeded_diff : f64) : WorkStats :=
  let stats := WorkStats_new worker_id now in
  if f64_ltb f64_zero seeded_diff then ws_set_min_diff seeded_diff stats else stats.

Definition get_create_stats : HM nat :=
  worker_id <-h ctx_run effective_worker_name ;;
  key <-h ctx_get stats_key ;;
  found <-h sh_get (fun s => sh_stats s !! key) ;;
  match found with
  | Some loc => h_ret loc
  | None =>
      now <-h ask env_instant ;;
      seeded_diff <-h ctx_get current_stratum_diff ;;
      loc <-h sh_get (fun s => length (sh_heap s)) ;;
      sh_put (fun s => with_stats (<[key := loc]> (sh_stats s))
                         (with_heap (sh_heap s ++ [new_stats worker_id now seeded_diff]) s)) ;;h
      h_ret loc
  end.

Definition stats_put (loc : nat) (f : WorkStats -> WorkStats) : HM unit :=
  sh_put (fun s => with_heap (alter f loc (sh_heap s)) s).

(** A [+= 1] on an [i64] counter of one record and of the overall record. *)
Definition bump (get : WorkStats -> Z) (set : Z -> WorkStats -> WorkStats) (v : WorkStats) : option WorkStats :=
  match checked_i64 (get v + 1) with Some n => Some (set n v) | None => None end.

Definition bump_stats (loc : nat) (f : WorkStats -> option WorkStats) : HM unit :=
  heap <-h sh_get sh_heap ;;
  match heap !! loc with
  | Some v => v <-h h_some (f v) Panicked ;; stats_put loc (fun _ => v)
  | None => h_ret tt
  end.

Definition bump_overall (f : WorkStats -> option WorkStats) : HM unit :=
  v <-h sh_get sh_overall ;;
  v <-h h_some (f v) Panicked ;;
  sh_put (with_overall v).

Definition bump_shares := bump ws_shares_found ws_set_shares_found.
Definition bump_var_diff := bump ws_var_diff_shares_found ws_set_var_diff_shares_found.
Definition bump_stale := bump ws_stale_shares ws_set_stale_shares.
Definition bump_invalid := bump ws_invalid_shares ws_set_invalid_shares.
Definition bump_blocks := bump ws_blocks_found ws_set_blocks_found.

(** ** Parsing a submission *)

Definition MAX_COMPAT_JOB_ATTEMPTS : nat := 8.

Definition parse_job_id (v : Value) : result Z SubmitError :=
  match v with
  | VString s => ok_or (parse_u64_radix 10 s) JobIdNotParsable
  | VNumber (PosInt n) => Ok n
  | VNumber _ => Err JobIdOutOfRange
  | _ => Err JobIdType
  end.

Definition h_lift {A} (r : result A SubmitError) : HM A := fun w => (w, r).

(** The job to start from: the submitted one, else the newest stored one. *)
Definition find_job (s : MiningState Tx) (job_id : Z) : option (Z * Job Tx) :=
  match get_job s job_id with
  | Some j => Some (job_id, j)
  | None =>
      match max_id (get_stored_job_ids s) with
      | Some latest => option_map (pair latest) (get_job s latest)
      | None => None
      end
  end.

(** [str::replace] of every [0x]. *)
Fixpoint remove_0x (s : text) : text :=
  match s with
  | [] => []
  | c :: rest =>
      match rest with
      | d :: rest' => if (c =? 48) && (d =? 120) then remove_0x rest' else c :: remove_0x rest
      | [] => [c]
      end
  end.

(** [format!] with zeros to the left up to a width in characters. *)
Definition pad_left (width : Z) (s : text) : text :=
  repeat 48 (Z.to_nat (width - Z.of_nat (length s))) ++ s.

(** [None] is the underflow panic for an extranonce longer than 16. *)
Definition final_nonce_text (extranonce nonce_str : text) : option text :=
  if is_empty extranonce then Some nonce_str
  else
    let extranonce2_len := 16 - len extranonce in
    if extranonce2_len <? 0 then None
    else if len nonce_str <=? extranonce2_len then Some (extranonce ++ pad_left extranonce2_len nonce_str)
    else Some nonce_str.

Definition nonce_param (params : list Value) : option Value :=
  params !! (if (5 <=? length params)%nat then 4%nat else 2%nat).

Definition submit_key_of (worker_id : text) (job_id : Z) (final_nonce : text) : text :=
  worker_id ++ lit "|" ++ show job_id ++ lit "|" ++ final_nonce.

(** ** Settling a solved block *)

(** How the proof-of-work loop ends: with a verdict on the share and the job it was
    checked against, or with the submission already answered. *)
Inductive Verdict :=
| Judged (invalid_share : bool) (job_id : Z) (job : Job Tx)
| Answered.

Definition solved_block (job : Job Tx) (nonce_val : Z) : Block Tx :=
  mkBlk (set_nonce nonce_val (bl_header (jb_block job))) (bl_transactions (jb_block job)).

Definition submit_parent_then_claim_zkas (solved_parent job_parent : Block Tx) (clears_zkas : bool)
  : HM (MergedParentSubmitOutcome * bool) :=
  parent_outcome <-h await (fun n => api_submit_merged_parent n solved_parent) ;;
  if clears_zkas then
    claimed <-h ask (fun n => api_claim_network_solution n job_parent) ;;
    h_ret (parent_outcome, claimed)
  else h_ret (parent_outcome, false).

(** A rig that works on a template older than ten seconds is disconnected. *)
Definition kick_stale_rig (original_timestamp : Z) : HM unit :=
  current_time_ms <-h ask env_unix_ms ;;
  if 10 <? sat_u64 (current_time_ms - original_timestamp) / 1000 then ctx_put disconnect else h_ret tt.

Definition block_hash_text (block : Block Tx) : HM text :=
  h <-h ask (fun n => api_merged_chain_hash n block) ;;
  h_ret (hash_text (match h with Some h => h | None => header_hash (bl_header block) end)).

Definition daa_of (block : Block Tx) : HM Z :=
  d <-h ask (fun n => api_merged_zkas_daa n block) ;;
  h_ret (default (hd_daa_score (bl_header block)) d).

Definition emit_block_found (wallet_addr worker_name block_hash : text) (daa_score : Z) (correlation_id : string)
  : HM unit :=
  match WalletAddress_new wallet_addr, WorkerName_new worker_name, BlockHash_from_hex hex_decode block_hash with
  | Ok wallet, Ok worker, Ok hash =>
      ts <-h ask env_utc ;; emit (BlockFound wallet worker hash daa_score ts correlation_id)
  | _, _, _ => h_ret tt
  end.

Fixpoint starts_with (p s : text) : bool :=
  match p, s with
  | [], _ => true
  | _, [] => false
  | a :: p, b :: s => (a =? b) && starts_with p s
  end.

Fixpoint contains (p s : text) : bool :=
  starts_with p s || match s with [] => false | _ :: s => contains p s end.

Definition node_accepted (block_hash : text) (correlation_id : string) : HM unit :=
  stats <-h get_create_stats ;;
  match BlockHash_from_hex hex_decode block_hash with
  | Ok hash => ts <-h ask env_utc ;; emit (BlockAccepted hash ts correlation_id)
  | Err _ => h_ret tt
  end ;;h
  sh_put (fun s => with_tasks (sh_tasks s ++ [mkConfirmTask stats block_hash]) s).

Definition answer_duplicate_block (wallet_addr worker_name submit_key : text) (id : option Value)
    (correlation_id : string) : HM unit :=
  set_dup_outcome submit_key DStale ;;h
  stats <-h get_create_stats ;;
  bump_stats stats bump_stale ;;h
  bump_overall bump_stale ;;h
  emit_rejected wallet_addr worker_name Stale correlation_id ;;h
  reply_or_fail (fun w => reply_stale_share w id).

Definition answer_bad_block (wallet_addr worker_name submit_key : text) (id : option Value)
    (correlation_id : string) : HM unit :=
  stats <-h get_create_stats ;;
  bump_stats stats bump_invalid ;;h
  bump_overall bump_invalid ;;h
  emit_rejected wallet_addr worker_name BadPow correlation_id ;;h
  set_dup_outcome submit_key DBad ;;h
  reply_or_fail (fun w => reply_bad_share w id).

(** [true]: the share goes on to be credited; [false]: it was answered. *)
Definition submit_solved_block (block : Block Tx) (block_hash wallet_addr worker_name submit_key : text)
    (id : option Value) (correlation_id : string) : HM bool :=
  r <-h await (fun n => api_submit_block n block) ;;
  match r with
  | Ok (RejectedByNode _) => h_ret true
  | Ok SubmitAccepted => node_accepted block_hash correlation_id ;;h h_ret true
  | Err error_str =>
      (if contains (lit "ErrDuplicateBlock") error_str
       then answer_duplicate_block wallet_addr worker_name submit_key id correlation_id
       else answer_bad_block wallet_addr worker_name submit_key id correlation_id) ;;h
      h_ret false
  end.

(** The branch for a nonce that clears one of the two network targets. *)
Definition settle (job : Job Tx) (nonce_val : Z) (meets_network_target : bool) (submit_key : text)
    (id : option Value) (correlation_id : string) : HM bool :=
  wallet_addr <-h ctx_get cx_wallet_addr ;;
  worker_name <-h ctx_run effective_worker_name ;;
  let block := solved_block job nonce_val in
  r <-h submit_parent_then_claim_zkas block (jb_block job) meets_network_target ;;
  if negb meets_network_target then h_ret true
  else if negb (snd r) then h_ret true
  else
    uid <-h ctx_get cx_session_uid ;;
    sh_put (fun s => with_refreshes (sh_refreshes s ++ [uid]) s) ;;h
    kick_stale_rig (hd_timestamp (bl_header (jb_block job))) ;;h
    block_hash <-h block_hash_text block ;;
    daa_score <-h daa_of block ;;
    emit_block_found wallet_addr worker_name block_hash daa_score correlation_id ;;h
    submit_solved_block block block_hash wallet_addr worker_name submit_key id correlation_id.

(** ** The proof-of-work loop *)

Definition network_target_of (merged_fc : option Z) (header : Header) : Z :=
  match merged_fc with Some t => t | None => calculate_target (hd_bits header) end.

Definition job_diff_of (s : MiningState Tx) (job_id : Z) : option KaspaDiff :=
  match get_job_diff s job_id with Some d => Some d | None => ms_stratum_diff s end.

Definition pool_target_of (s : MiningState Tx) (job_id : Z) : Z :=
  match job_diff_of s job_id with Some d => kd_target_value d | None => 0 end.

(** All earlier jobs were tried: job 1, or the ring went round. *)
Definition walk_exhausted (s : MiningState Tx) (job_id current_job_id : Z) : bool :=
  (current_job_id =? 1) ||
  (current_job_id mod ms_max_jobs s =? ((job_id mod ms_max_jobs s) + 1) mod ms_max_jobs s).

(** [more] is how many further jobs may be tried; every job tried costs one proof
    of work. *)
Fixpoint pow_loop (more : nat) (nonce_val job_id : Z) (submit_key : text) (id : option Value)
    (correlation_id : string) (invalid_share : bool) (current_job_id : Z) (current_job : Job Tx) : HM Verdict :=
  let header := set_nonce nonce_val (bl_header (jb_block current_job)) in
  let (check_passed, pow_value) := check_pow header nonce_val in
  merged_fc <-h ask (fun n => api_merged_fc_target n (jb_block current_job)) ;;
  let merged_mode := bool_decide (is_Some merged_fc) in
  let meets_network_target := pow_value <=? network_target_of merged_fc header in
  if meets_network_target || (merged_mode && check_passed) then
    credit <-h settle current_job nonce_val meets_network_target submit_key id correlation_id ;;
    h_ret (if credit then Judged false current_job_id current_job else Answered)
  else
    s <-h ctx_get cx_state ;;
    if pool_target_of s current_job_id <? pow_value then
      let invalid_share := if current_job_id =? job_id then true else invalid_share in
      if walk_exhausted s job_id current_job_id then h_ret (Judged invalid_share current_job_id current_job)
      else
        match more with
        | O => h_ret (Judged invalid_share current_job_id current_job)
        | S more =>
            prev_job_id <-h h_some (checked_u64 (current_job_id - 1)) Panicked ;;
            match get_job s prev_job_id with
            | Some prev_job =>
                pow_loop more nonce_val job_id submit_key id correlation_id invalid_share prev_job_id prev_job
            | None => h_ret (Judged invalid_share current_job_id current_job)
            end
        end
    else h_ret (Judged false current_job_id current_job).

(** ** Outcomes *)

Definition reject_low_diff (submit_key : text) (id : option Value) (correlation_id : string) : HM unit :=
  stats <-h get_create_stats ;;
  bump_stats stats bump_invalid ;;h
  bump_overall bump_invalid ;;h
  wallet_addr <-h ctx_get cx_wallet_addr ;;
  worker_name <-h ctx_get cx_worker_name ;;
  emit_rejected wallet_addr worker_name LowDifficulty correlation_id ;;h
  match id with
  | Some id => _ <-h send_reply (fun w => reply_low_diff_share w id) ;; h_ret tt
  | None => h_ret tt
  end ;;h
  set_dup_outcome submit_key DLowDiff.

Definition emit_credited (wallet_addr worker_name : text) (assigned_diff : f64) (daa_score : Z)
    (correlation_id : string) : HM unit :=
  match WalletAddress_new wallet_addr, WorkerName_new worker_name, ShareDifficulty_new assigned_diff with
  | Ok wallet, Ok worker, Ok difficulty =>
      ts <-h ask env_utc ;; emit (ShareCredited wallet worker difficulty daa_score ts correlation_id)
  | _, _, _ => h_ret tt
  end.

Definition response_true (id : option Value) : JsonRpcResponse := mkResponse id (Some (VBool true)) None.

Definition credit_share (current_job_id : Z) (current_job : Job Tx) (submit_key : text) (id : option Value)
    (correlation_id : string) : HM unit :=
  stats <-h get_create_stats ;;
  bump_stats stats bump_shares ;;h
  bump_stats stats bump_var_diff ;;h
  credited_job_diff <-h ctx_get (fun c => job_diff_of (cx_state c) current_job_id) ;;
  let hash_value := match credited_job_diff with Some d => kd_hash_value d | None => f64_zero end in
  now <-h ask env_instant ;;
  stats_put stats (fun v => ws_set_last_share now (ws_set_shares_diff (f64_add (ws_shares_diff v) hash_value) v)) ;;h
  bump_overall bump_shares ;;h
  wallet_addr <-h ctx_get cx_wallet_addr ;;
  worker_name <-h ctx_get cx_worker_name ;;
  let assigned_diff := match credited_job_diff with Some d => kd_diff_value d | None => hash_value end in
  job_daa_score <-h daa_of (jb_block current_job) ;;
  emit_credited wallet_addr worker_name assigned_diff job_daa_score correlation_id ;;h
  set_dup_outcome submit_key DAccepted ;;h
  reply_or_fail (fun w => reply w (response_true id)).

Definition answer_repetition (outcome : DuplicateSubmitOutcome) (id : option Value) : HM unit :=
  match outcome with
  | DAccepted | InFlight => reply_or_fail (fun w => reply w (response_true id))
  | DStale => reply_or_fail (fun w => reply_stale_share w id)
  | DLowDiff =>
      match id with
      | Some id => _ <-h send_reply (fun w => reply_low_diff_share w id) ;; h_ret tt
      | None => h_ret tt
      end
  | DBad => reply_or_fail (fun w => reply_bad_share w id)
  end.

Definition check_duplicate (submit_key : text) : HM (option DuplicateSubmitOutcome) :=
  now <-h ask env_instant ;;
  r <-h sh_get (fun s => dup_check (sh_guard s) submit_key now) ;;
  sh_put (with_guard (snd r)) ;;h
  h_ret (fst r).

(** ** The handler *)

(** What a well-formed submission asks for: the job to start from, the nonce and
    the key it is remembered by. *)
Definition parse_submission (event : JsonRpcEvent) (correlation_id : string) : HM (Z * Job Tx * Z * text) :=
  p1 <-h h_some (ev_params event !! 1%nat) MalformedEvent ;;
  job_id <-h h_lift (parse_job_id p1) ;;
  found <-h ctx_get (fun c => find_job (cx_state c) job_id) ;;
  match found with
  | None =>
      wallet_addr <-h ctx_get cx_wallet_addr ;;
      worker_name <-h ctx_get cx_worker_name ;;
      emit_rejected wallet_addr worker_name MissingJob correlation_id ;;h
      h_fail JobDoesNotExist
  | Some (job_id, job) =>
      v <-h h_some (nonce_param (ev_params event)) MalformedEvent ;;
      nonce_raw <-h h_some (as_str_value v) NonceNotString ;;
      extranonce <-h ctx_get cx_extranonce ;;
      final <-h h_some (final_nonce_text extranonce (remove_0x nonce_raw)) Panicked ;;
      nonce_val <-h h_some (parse_u64_radix 16 final) NonceNotParsable ;;
      worker_id <-h ctx_run effective_worker_name ;;
      h_ret (job_id, job, nonce_val, submit_key_of worker_id job_id final)
  end.

Definition handle_submit (event : JsonRpcEvent) : HM unit :=
  correlation_id <-h ask env_uuid ;;
  if (length (ev_params event) <? 3)%nat then
    wallet_addr <-h ctx_get cx_wallet_addr ;;
    worker_name <-h ctx_get cx_worker_name ;;
    emit_rejected wallet_addr worker_name MalformedFrame correlation_id ;;h
    h_fail MalformedEvent
  else
    p <-h parse_submission event correlation_id ;;
    let '(job_id, job, nonce_val, submit_key) := p in
    duplicate_outcome <-h check_duplicate submit_key ;;
    match duplicate_outcome with
    | Some outcome => answer_repetition outcome (ev_id event)
    | None =>
        verdict <-h pow_loop (MAX_COMPAT_JOB_ATTEMPTS - 1) nonce_val job_id submit_key (ev_id event)
                      correlation_id false job_id job ;;
        match verdict with
        | Answered => h_ret tt
        | Judged true _ _ => reject_low_diff submit_key (ev_id event) correlation_id
        | Judged false current_job_id current_job =>
            credit_share current_job_id current_job submit_key (ev_id event) correlation_id
        end
    end.

(** ** Blocks turning blue *)

Definition BLOCK_CONFIRM_MAX_ATTEMPTS : nat := 30.

(** The task spawned for an accepted block. *)
Fixpoint confirm_poll (attempts : nat) (t : ConfirmTask) : HM bool :=
  match attempts with
  | O => h_ret false
  | S attempts =>
      color <-h ask (fun n => api_block_color n (ct_hash t)) ;;
      match color with
      | Ok true => bump_stats (ct_stats t) bump_blocks ;;h bump_overall bump_blocks ;;h h_ret true
      | Ok false | Err _ => confirm_poll attempts t
      end
  end.

Definition confirm_block (t : ConfirmTask) : HM bool := confirm_poll BLOCK_CONFIRM_MAX_ATTEMPTS t.

(** ** Variable difficulty of a connection *)

(** [saturating_add] and [saturating_sub] on a [u32]. *)
Definition sat_u32 (z : Z) : Z := Z.max 0 (Z.min u32_max z).

Definition activate_client_vardiff : HM unit :=
  first <-h ctx_run claim_vardiff_registration ;;
  if negb first then h_ret tt
  else
    stats <-h get_create_stats ;;
    now <-h ask env_instant ;;
    stats_put stats (fun v =>
      ws_set_last_session_activity now (ws_set_var_diff_window 0 (ws_set_var_diff_shares_found 0
        (ws_set_var_diff_start_time (Some now)
           (ws_set_active_connections (sat_u32 (ws_active_connections v + 1)) v))))).

Definition deactivate_client_vardiff : HM unit :=
  registered <-h ctx_run release_vardiff_registration ;;
  if negb registered then h_ret tt
  else
    found <-h get_stats_if_exists ;;
    match found with
    | None => h_ret tt
    | Some stats =>
        now <-h ask env_instant ;;
        stats_put stats (fun v =>
          ws_set_last_session_activity now (ws_set_active_connections (sat_u32 (ws_active_connections v - 1)) v))
    end.

Definition stats_at (loc : nat) (f : WorkStats -> f64) : HM f64 :=
  sh_get (fun s => match sh_heap s !! loc with Some v => f v | None => f64_zero end).

Definition restored_diff (seed : f64) (v : WorkStats) : f64 :=
  if negb (f64_is_finite (ws_min_diff v)) || f64_ltb (ws_min_diff v) VARDIFF_MIN_DIFF
  then f64_max seed VARDIFF_MIN_DIFF else ws_min_diff v.

Definition register_client_vardiff (seed : f64) : HM f64 :=
  stats <-h get_create_stats ;;
  restored <-h stats_at stats (restored_diff seed) ;;
  now <-h ask env_instant ;;
  stats_put stats (fun v =>
    ws_set_last_session_activity now
      (ws_set_var_diff_start_time (match ws_var_diff_start_time v with Some t => Some t | None => Some now end)
         (ws_set_min_diff restored v))) ;;h
  h_ret restored.

Definition set_client_vardiff (min_diff : f64) : HM f64 :=
  found <-h get_stats_if_exists ;;
  match found with
  | None => ctx_get current_stratum_diff
  | Some stats =>
      previous <-h stats_at stats ws_min_diff ;;
      now <-h ask env_instant ;;
      stats_put stats (fun v =>
        ws_set_var_diff_window 0 (ws_set_var_diff_shares_found 0
          (ws_set_var_diff_start_time (Some now) (ws_set_min_diff min_diff v)))) ;;h
      h_ret previous
  end.

Definition get_client_vardiff : HM f64 :=
  found <-h get_stats_if_exists ;;
  match found with
  | None => ctx_get current_stratum_diff
  | Some stats => stats_at stats ws_min_diff
  end.

Definition start_client_vardiff : HM unit :=
  found <-h get_stats_if_exists ;;
  match found with
  | None => h_ret tt
  | Some stats =>
      now <-h ask env_instant ;;
      stats_put stats (fun v =>
        match ws_var_diff_start_time v with
        | Some _ => v
        | None => ws_set_var_diff_shares_found 0 (ws_set_var_diff_start_time (Some now) v)
        end)
  end.

(** A tick of the pruning thread. *)
Definition retained (now : Z) (heap : list WorkStats) (loc : nat) : bool :=
  match heap !! loc with Some v => should_retain_vardiff_stats v now | None => false end.

Definition prune_stats_tick (now : Z) (s : ShareHandler) : ShareHandler :=
  with_stats (filter (fun e => retained now (sh_heap s) (snd e) = true) (sh_stats s)) s.

(** A tick of the controller thread: every worker of the map. *)
Definition vardiff_tick (log2 : f64 -> f64) (expected_share_rate : Z) (clamp : bool) (now : Z) (s : ShareHandler)
  : ShareHandler :=
  let expected_spm := f64_of_Z (Z.max expected_share_rate 1) in
  with_heap (map_fold (fun _ loc heap => alter (vardiff_tick_one log2 expected_spm clamp now) loc heap)
               (sh_heap s) (sh_stats s)) s.

Definition handler_new (bus : bool) (now : Z) : ShareHandler :=
  mkHandler ∅ [] (WorkStats_new (lit "overall") now) (dup_guard_new (secs 180) 50000) bus [] [] [] 0.
End Handler.
