(* ===== verification/ShareSpec.v ===== *)
(** * What a submission can do (theorems on [ShareHandler])

    Which shares are credited, to whom and at which difficulty; when a repeated
    submission is recognised, and when it is not. *)
From Stdlib Require Import SpecFloat.
From S2P Require Import Prelude F64 Schema Domain Hasher MiningState StratumRpc ShareGuard StratumContext IngestDb Consumer ShareHandler.
Open Scope Z_scope.

Definition is_credited (e : PoolEvent) : bool := match e with ShareCredited _ _ _ _ _ _ => true | _ => false end.

Section Spec.
Context {Tx : Type} `{E : !ShareEnv Tx}.
Implicit Types (w : @HW Tx) (c : StratumContext Tx) (s : ShareHandler).

Definition credits s : list PoolEvent := List.filter is_credited (sh_events s).

(** ** Frames *)

(** [m] relates every world to the one it leaves. *)
Definition frames (R : relation (@HW Tx)) {A} (m : HM A) : Prop := forall w, R w (fst (m w)).

Section Frames.
Context (R : relation (@HW Tx)) `{!PreOrder R}.

Lemma frames_ret {A} (a : A) : frames R (h_ret a).
Proof. intros w. simpl. reflexivity. Qed.
Lemma frames_fail {A} e : frames R (h_fail e : HM A).
Proof. intros w. simpl. reflexivity. Qed.
Lemma frames_lift {A} (r : result A SubmitError) : frames R (h_lift r).
Proof. intros w. simpl. reflexivity. Qed.
Lemma frames_ctx_get {A} (f : _ -> A) : frames R (ctx_get f).
Proof. intros w. simpl. reflexivity. Qed.
Lemma frames_sh_get {A} (f : _ -> A) : frames R (sh_get f : HM A).
Proof. intros w. simpl. reflexivity. Qed.
Lemma frames_some {A} (o : option A) e : frames R (h_some o e).
Proof. destruct o; [apply frames_ret | apply frames_fail]. Qed.
Lemma frames_bind {A B} (m : HM A) (k : A -> HM B) :
  frames R m -> (forall a, frames R (k a)) -> frames R (h_bind m k).
Proof.
  intros Hm Hk w. unfold h_bind. specialize (Hm w). destruct (m w) as [w1 [a|e]]; simpl in *; [|done].
  etransitivity; [exact Hm | apply Hk].
Qed.
End Frames.

(** ** What the pieces keep *)

(** The duplicate guard only records outcomes, at instants read meanwhile. *)
Definition guard_quiet w w' : Prop :=
  exists ops, (sh_calls (hw_sh w) <= sh_calls (hw_sh w'))%nat /\
    sh_guard (hw_sh w') = run_guard ops (sh_guard (hw_sh w)) /\ checks ops = 0 /\
    Forall (fun op => exists i, (sh_calls (hw_sh w) <= i < sh_calls (hw_sh w'))%nat /\ op_time op = env_instant i) ops.

Lemma guard_quiet_same w w' :
  (sh_calls (hw_sh w) <= sh_calls (hw_sh w'))%nat -> sh_guard (hw_sh w') = sh_guard (hw_sh w) -> guard_quiet w w'.
Proof. intros L H. exists []. repeat split; auto. Qed.

Lemma checks_app ops1 ops2 : checks (ops1 ++ ops2) = checks ops1 + checks ops2.
Proof. unfold checks. rewrite List.filter_app, length_app. lia. Qed.

#[export] Instance guard_quiet_preorder : PreOrder guard_quiet.
Proof.
  split; [intros w; by apply guard_quiet_same|].
  intros w1 w2 w3 (o1 & L1 & G1 & C1 & T1) (o2 & L2 & G2 & C2 & T2). exists (o1 ++ o2).
  split; [lia|]. split; [unfold run_guard in *; by rewrite fold_left_app, <- G1|].
  split; [rewrite checks_app; lia|]. apply Forall_app. split; eapply Forall_impl; [exact T1| |exact T2|];
    simpl; intros op (i & Hi & ->); exists i; (split; [lia | done]).
Qed.

(** The wallet, the effective worker name, the credits and the guard; [same_jobs]
    also the mining state. *)
Record same_share w w' : Prop := mkSameShare {
  ss_wallet : cx_wallet_addr (hw_ctx w') = cx_wallet_addr (hw_ctx w);
  ss_worker : fst (effective_worker_name (hw_ctx w')) = fst (effective_worker_name (hw_ctx w));
  ss_id : cx_id (hw_ctx w') = cx_id (hw_ctx w);
  ss_port : cx_remote_port (hw_ctx w') = cx_remote_port (hw_ctx w);
  ss_credits : credits (hw_sh w') = credits (hw_sh w);
  ss_guard : guard_quiet w w'
}.

Definition same_jobs w w' : Prop := same_share w w' /\ cx_state (hw_ctx w') = cx_state (hw_ctx w).

#[export] Instance same_share_preorder : PreOrder same_share.
Proof.
  split; [intros w; constructor; done|]. intros w1 w2 w3 [] []. constructor; try congruence. by transitivity w2.
Qed.

#[export] Instance same_jobs_preorder : PreOrder same_jobs.
Proof.
  split; [intros w; split; done|]. intros w1 w2 w3 [H1 E1] [H2 E2]. split; [by transitivity w2 | congruence].
Qed.

Lemma effective_ext c c' :
  cx_worker_name c' = cx_worker_name c -> cx_id c' = cx_id c -> cx_remote_port c' = cx_remote_port c ->
  fst (effective_worker_name c') = fst (effective_worker_name c).
Proof.
  intros E1 E2 E3. unfold effective_worker_name, ensure_default_worker_name. rewrite E1.
  destruct (is_empty _); simpl; [|done]. unfold default_worker_name, ctx_id. by rewrite E2, E3.
Qed.

(** A change of the connection that leaves identity and jobs alone. *)
Record same_ident c c' : Prop := mkIdent {
  si_wallet : cx_wallet_addr c' = cx_wallet_addr c;
  si_worker : cx_worker_name c' = cx_worker_name c;
  si_id : cx_id c' = cx_id c;
  si_port : cx_remote_port c' = cx_remote_port c
}.

Lemma same_jobs_ctx w c' :
  same_ident (hw_ctx w) c' -> cx_state c' = cx_state (hw_ctx w) -> same_jobs w (mkHW c' (hw_sh w)).
Proof.
  intros [] H. split; [constructor; simpl; try done; [by apply effective_ext | by apply guard_quiet_same] | done].
Qed.

Lemma same_jobs_sh w s' :
  credits s' = credits (hw_sh w) -> guard_quiet w (mkHW (hw_ctx w) s') -> same_jobs w (mkHW (hw_ctx w) s').
Proof. intros H B. split; [constructor; simpl; done | done]. Qed.

Lemma frames_sh_put f :
  (forall s, credits (f s) = credits s /\ sh_guard (f s) = sh_guard s /\ sh_calls (f s) = sh_calls s) ->
  frames same_jobs (sh_put f).
Proof.
  intros H w. destruct (H (hw_sh w)) as (H1 & H2 & H3). apply same_jobs_sh; [done|].
  apply guard_quiet_same; simpl; [lia | done].
Qed.

Lemma frames_ask {A} (f : nat -> A) : frames same_jobs (ask f).
Proof. intros w. apply same_jobs_sh; [done|]. apply guard_quiet_same; simpl; [lia | done]. Qed.

Lemma frames_effective : frames same_jobs (ctx_run effective_worker_name).
Proof.
  intros w. simpl. split; [constructor; simpl; try done|].
  - unfold ensure_default_worker_name. by destruct (is_empty _).
  - exact (f_equal fst (effective_worker_name_idem (hw_ctx w))).
  - unfold ensure_default_worker_name. by destruct (is_empty _).
  - unfold ensure_default_worker_name. by destruct (is_empty _).
  - by apply guard_quiet_same.
  - simpl. unfold ensure_default_worker_name. by destruct (is_empty _).
Qed.

Lemma write_data_ident writes m c :
  same_ident c (snd (write_data writes m c)) /\ cx_state (snd (write_data writes m c)) = cx_state c.
Proof.
  unfold write_data. destruct (cx_disconnecting c) eqn:D; [split; [constructor|]; done|].
  assert (forall n a, let r := snd (write_attempts n writes a m c) in same_ident c r /\ cx_state r = cx_state c) as H;
    [|apply H].
  induction n as [|n IH]; intros a; simpl; [split; [constructor|]; done|].
  unfold check_disconnect. rewrite D. destruct (writes a); [apply IH | | | |destruct (_ <? _)%nat; [apply IH|]];
    (split; [constructor|]; done).
Qed.

Lemma frames_reply (r : JsonRpcResponse) : frames same_jobs (send_reply (fun wr => reply wr r)).
Proof.
  unfold send_reply. apply frames_bind; [apply _ | apply frames_ask|]. intros writes w.
  unfold ctx_run, reply. destruct (cx_disconnecting (hw_ctx w)) eqn:D; simpl; [by destruct w|].
  destruct (write_data_ident writes (OResponse r) (hw_ctx w)) as [H1 H2].
  destruct (write_data writes _ (hw_ctx w)) as [ok c']. simpl in *. by apply same_jobs_ctx.
Qed.

Lemma frames_emit e : is_credited e = false -> frames same_jobs (emit e).
Proof.
  intros H. apply frames_sh_put. intros s. destruct (sh_bus s) eqn:B; [|done].
  unfold credits. simpl. rewrite List.filter_app. simpl. rewrite H, app_nil_r. done.
Qed.

Lemma frames_weaken {A} (m : HM A) : frames same_jobs m -> frames same_share m.
Proof. intros H w. apply H. Qed.

Lemma frames_disconnect : frames same_jobs (ctx_put disconnect).
Proof. intros w. apply same_jobs_ctx; [constructor|]; done. Qed.
End Spec.

Create HintDb share.
#[export] Hint Resolve frames_ret frames_fail frames_lift frames_ctx_get frames_sh_get frames_some frames_ask
  frames_effective frames_reply frames_disconnect : share.

(** Follows the structure of a handler down to the operations of the database. *)
Ltac frame :=
  intros; unfold reply_stale_share, reply_bad_share, reply_low_diff_share, bump_shares, bump_var_diff;
  repeat match goal with
  | |- _ => solve [eauto with share typeclass_instances]
  | |- frames _ (h_bind _ _) => apply frames_bind; [apply _| |intros]
  | |- frames _ (let (_, _) := ?x in _) => destruct x
  | |- frames _ (match ?x with _ => _ end) => destruct x
  | |- frames _ (sh_put _) => apply frames_sh_put; intros; repeat split; done
  | |- frames same_share _ => apply frames_weaken
  end.

Section Handlers.
Context {Tx : Type} `{E : !ShareEnv Tx}.

Lemma frames_emit_rejected wa wo r cid : frames (same_jobs (Tx:=Tx)) (emit_rejected wa wo r cid).
Proof.
  unfold emit_rejected, build_share_rejected.
  destruct (WalletAddress_new wa), (WorkerName_new wo); frame; by apply frames_emit.
Qed.
Hint Resolve frames_emit_rejected : share.

Lemma frames_reply_or_fail r : frames same_jobs (reply_or_fail (fun wr => reply wr r)).
Proof. unfold reply_or_fail. frame. Qed.
Hint Resolve frames_reply_or_fail : share.

Lemma frames_set_dup_outcome k o : frames (same_jobs (Tx:=Tx)) (set_dup_outcome k o).
Proof.
  intros w. split; [constructor; try done|done]. exists [GSet k (env_instant (sh_calls (hw_sh w))) o]. simpl.
  repeat split; [lia|]. apply Forall_singleton. simpl. exists (sh_calls (hw_sh w)). split; [lia | done].
Qed.
Hint Resolve frames_set_dup_outcome : share.

Lemma frames_get_create_stats : frames same_jobs get_create_stats.
Proof. unfold get_create_stats. frame. Qed.
Hint Resolve frames_get_create_stats : share.

Lemma frames_stats_put loc f : frames (same_jobs (Tx:=Tx)) (stats_put loc f).
Proof. unfold stats_put. frame. Qed.
Hint Resolve frames_stats_put : share.

Lemma frames_bump_stats loc f : frames (same_jobs (Tx:=Tx)) (bump_stats loc f).
Proof. unfold bump_stats. frame. Qed.
Lemma frames_bump_overall f : frames (same_jobs (Tx:=Tx)) (bump_overall f).
Proof. unfold bump_overall. frame. Qed.
Hint Resolve frames_bump_stats frames_bump_overall : share.

Lemma frames_emit_block_found wa wo h d cid : frames same_jobs (emit_block_found wa wo h d cid).
Proof. unfold emit_block_found. frame. apply frames_emit. done. Qed.
Lemma frames_node_accepted h cid : frames same_jobs (node_accepted h cid).
Proof. unfold node_accepted. frame. apply frames_emit. done. Qed.
Lemma frames_kick_stale_rig ts : frames same_jobs (kick_stale_rig ts).
Proof. unfold kick_stale_rig. frame. Qed.
Lemma frames_block_hash_text b : frames same_jobs (block_hash_text b).
Proof. unfold block_hash_text. frame. Qed.
Lemma frames_daa_of b : frames same_jobs (daa_of b).
Proof. unfold daa_of. frame. Qed.
Hint Resolve frames_emit_block_found frames_node_accepted frames_kick_stale_rig frames_block_hash_text frames_daa_of : share.

Lemma frames_answer_duplicate_block wa wo k id cid : frames same_jobs (answer_duplicate_block wa wo k id cid).
Proof. unfold answer_duplicate_block. frame. Qed.
Lemma frames_answer_bad_block wa wo k id cid : frames same_jobs (answer_bad_block wa wo k id cid).
Proof. unfold answer_bad_block. frame. Qed.
Hint Resolve frames_answer_duplicate_block frames_answer_bad_block : share.

Lemma frames_reject_low_diff k id cid : frames same_jobs (reject_low_diff k id cid).
Proof. unfold reject_low_diff. frame. Qed.
Lemma frames_answer_repetition o id : frames (same_jobs (Tx:=Tx)) (answer_repetition o id).
Proof. unfold answer_repetition. frame. Qed.
Lemma frames_parse_submission e cid : frames same_jobs (parse_submission e cid).
Proof. unfold parse_submission. frame. Qed.

Lemma frames_await {A} (f : nat -> A) : frames same_share (await f).
Proof.
  unfold await. apply frames_bind; [apply _ | apply frames_weaken, frames_ask | intros a].
  apply frames_bind; [apply _ | apply frames_sh_get, _ | intros n].
  apply frames_bind; [apply _ | | intros _; apply frames_ret, _].
  intros w. constructor; try done; [by apply effective_ext | by apply guard_quiet_same].
Qed.
Hint Resolve frames_await : share.

Lemma frames_submit_solved_block b h wa wo k id cid : frames same_share (submit_solved_block b h wa wo k id cid).
Proof. unfold submit_solved_block. frame. Qed.
Lemma frames_submit_parent sp jp cl : frames same_share (submit_parent_then_claim_zkas sp jp cl).
Proof. unfold submit_parent_then_claim_zkas. frame. Qed.
Hint Resolve frames_submit_solved_block frames_submit_parent : share.

Lemma frames_settle j n m k id cid : frames same_share (settle j n m k id cid).
Proof. unfold settle. frame. Qed.
Hint Resolve frames_settle : share.

Lemma frames_pow_loop more n jid k id cid inv cur j : frames same_share (pow_loop more n jid k id cid inv cur j).
Proof.
  revert inv cur j. induction more as [|more IH]; intros; simpl; frame.
Qed.
End Handlers.

#[export] Hint Resolve frames_emit_rejected frames_reply_or_fail frames_set_dup_outcome frames_get_create_stats
  frames_stats_put frames_bump_stats frames_bump_overall frames_daa_of frames_reject_low_diff
  frames_answer_repetition frames_parse_submission frames_settle frames_pow_loop frames_await : share.

(** ** Credits of one submission *)

Section Credits.
Context {Tx : Type} `{E : !ShareEnv Tx}.
Implicit Types (w : @HW Tx) (c : StratumContext Tx).

Lemma h_bind_ok {A B} (m : HM A) (k : A -> HM B) w w' b :
  h_bind m k w = (w', Ok b) -> exists a w1, m w = (w1, Ok a) /\ k a w1 = (w', Ok b).
Proof. unfold h_bind. destruct (m w) as [w1 [a|e]]; [eauto | discriminate]. Qed.

Lemma h_bind_step {A B} (m : HM A) (k : A -> HM B) w w1 a : m w = (w1, Ok a) -> h_bind m k w = k a w1.
Proof. unfold h_bind. by intros ->. Qed.

(** [m] adds at most one credit, and that one satisfies [P]. *)
Definition adds (P : PoolEvent -> Prop) {A} (m : HM A) w : Prop :=
  credits (hw_sh (fst (m w))) = credits (hw_sh w) \/
  exists ev, P ev /\ credits (hw_sh (fst (m w))) = credits (hw_sh w) ++ [ev].

Lemma adds_frames P {A} (m : HM A) w : frames same_share m -> adds P m w.
Proof. intros H. left. apply H. Qed.

Lemma adds_bind P {A B} (m : HM A) (k : A -> HM B) w :
  frames same_share m ->
  (forall a w1, m w = (w1, Ok a) -> same_share w w1 -> adds P (k a) w1) -> adds P (h_bind m k) w.
Proof.
  intros Hm Hk. specialize (Hm w). unfold adds, h_bind. destruct (m w) as [w1 [a|e]] eqn:Em; simpl in Hm.
  - rewrite <- (ss_credits _ _ Hm). exact (Hk a w1 eq_refl Hm).
  - left. apply Hm.
Qed.

Lemma adds_then P {A B} (m : HM A) (k : A -> HM B) w :
  adds P m w -> (forall a, frames same_share (k a)) -> adds P (h_bind m k) w.
Proof.
  intros Hm Hk. unfold adds, h_bind in *. destruct (m w) as [w1 [a|e]]; simpl in *; [|done].
  rewrite (ss_credits _ _ (Hk a w1)). exact Hm.
Qed.

(** ** The verdict *)

Definition pow_of (j : Job Tx) (nonce : Z) : bool * Z :=
  check_pow (set_nonce nonce (bl_header (jb_block j))) nonce.

(** The nonce solves the block on one of the two chains. *)
Definition clears_network (j : Job Tx) (nonce : Z) : Prop :=
  exists call, let fc := api_merged_fc_target call (jb_block j) in
    snd (pow_of j nonce) <= network_target_of fc (bl_header (jb_block j)) \/
    (is_Some fc /\ fst (pow_of j nonce) = true).

Lemma pow_loop_credits more n jid k id cid inv cur j w w' cur' j' :
  pow_loop more n jid k id cid inv cur j w = (w', Ok (Judged false cur' j')) ->
  cur = jid \/ inv = true -> get_job (cx_state (hw_ctx w)) cur = Some j ->
  cur - Z.of_nat more <= cur' <= cur /\ get_job (cx_state (hw_ctx w)) cur' = Some j' /\
  ((snd (pow_of j' n) <= pool_target_of (cx_state (hw_ctx w)) cur' /\
    cx_state (hw_ctx w') = cx_state (hw_ctx w)) \/ clears_network j' n).
Proof.
  revert inv cur j w. induction more as [|more IH]; intros inv cur j w H I G; simpl in H.
  all: destruct (check_pow _ n) as [passed pow] eqn:P.
  all: apply h_bind_ok in H as (fc & w1 & Ha & H); injection Ha as <- <-.
  all: match type of H with context [if ?b then h_bind _ _ else _] => destruct b eqn:N end;
    [apply h_bind_ok in H as (credit & w2 & _ & H); injection H as <- Hj; destruct credit; [|discriminate];
     injection Hj as <- <-; split; [lia|]; split; [done|]; right; exists (sh_calls (hw_sh w)); unfold pow_of; rewrite P; simpl;
     apply orb_true_iff in N as [N|N]; [left; apply Z.leb_le in N; exact N | right];
     apply andb_true_iff in N as [N1 N2]; apply bool_decide_eq_true in N1; done|].
  all: apply h_bind_ok in H as (s & w2 & Hs & H); injection Hs as <- <-; simpl in *.
  all: destruct (Z.ltb_spec (pool_target_of (cx_state (hw_ctx w)) cur) pow) as [L|L];
    [|injection H as <- <- <-; split; [lia|]; split; [done|]; left; unfold pow_of; rewrite P; done].
  all: assert ((if cur =? jid then true else inv) = true) as It
    by (destruct (Z.eqb_spec cur jid); [done|]; destruct I; congruence).
  all: rewrite It in H; destruct (walk_exhausted _ jid cur); [discriminate|].
  - discriminate.
  - apply h_bind_ok in H as (prev & w3 & Hp & H).
    destruct (checked_u64 (cur - 1)) as [p|] eqn:Ep; [|discriminate]. injection Hp as <- <-.
    apply checked_u64_Some in Ep as [<- _].
    destruct (get_job (cx_state (hw_ctx w)) (cur - 1)) as [pj|] eqn:Gp; [|discriminate].
    destruct (IH true (cur - 1) pj _ H) as (B & Gj & K); [auto | exact Gp|]. simpl in *.
    split; [lia | auto].
Qed.

Lemma emit_credited_adds wa wo d daa cid w :
  adds (fun ev => f64_ltb f64_zero d = true /\ exists ts, ev = ShareCredited wa wo d daa ts cid)
       (emit_credited wa wo d daa cid) w.
Proof.
  unfold emit_credited. destruct (WalletAddress_new wa) as [a|] eqn:Ea; [|by left].
  destruct (WorkerName_new wo) as [o|] eqn:Eo; [|by left].
  destruct (ShareDifficulty_new d) as [d'|] eqn:Ed; [|by left].
  apply WalletAddress_new_same in Ea as ->.
  assert (o = wo) as ->.
  { unfold WorkerName_new in Eo. destruct wo; [discriminate|].
    destruct (_ <? _); [discriminate|]. destruct (List.find _ _); [discriminate|]. by injection Eo. }
  assert (d' = d /\ f64_ltb f64_zero d = true) as [-> Pd].
  { unfold ShareDifficulty_new in Ed. destruct d as [[]|[]| |[] ? ?]; simpl in Ed; simplify_eq; split; done. }
  apply adds_bind; [apply frames_weaken, frames_ask|]. intros ts w1 _ _.
  unfold adds, emit, sh_put. simpl. destruct (sh_bus (hw_sh w1)); [|by left].
  right. eexists. split; [split; [exact Pd|]; by exists ts|]. unfold credits. simpl. by rewrite List.filter_app.
Qed.

(** The difficulty credited for a job. *)
Definition credited_diff (s : MiningState Tx) (job_id : Z) : f64 :=
  match job_diff_of s job_id with Some kd => kd_diff_value kd | None => f64_zero end.

Lemma get_create_stats_name w w1 loc :
  get_create_stats w = (w1, Ok loc) -> cx_worker_name (hw_ctx w1) = fst (effective_worker_name (hw_ctx w)).
Proof.
  unfold get_create_stats. intros H. apply h_bind_ok in H as (nm & w2 & H2 & H). injection H2 as <- <-.
  apply h_bind_ok in H as (key & w3 & H3 & H). injection H3 as <- <-.
  apply h_bind_ok in H as (found & w4 & H4 & H). injection H4 as <- <-.
  destruct (sh_stats _ !! _); [injection H as <- _; done|].
  apply h_bind_ok in H as (now & w5 & H5 & H). injection H5 as <- <-.
  apply h_bind_ok in H as (sd & w6 & H6 & H). injection H6 as <- <-.
  apply h_bind_ok in H as (l & w7 & H7 & H). injection H7 as <- <-.
  apply h_bind_ok in H as ([] & w8 & H8 & H). injection H8 as <-. injection H as <- _. done.
Qed.

(** The steps of crediting leave the connection alone. *)
Definition same_conn w w' : Prop := hw_ctx w' = hw_ctx w /\ credits (hw_sh w') = credits (hw_sh w).

Lemma adds_conn P {A B} (m : HM A) (k : A -> HM B) w :
  (forall w, same_conn w (fst (m w))) ->
  (forall a w1, m w = (w1, Ok a) -> hw_ctx w1 = hw_ctx w -> adds P (k a) w1) -> adds P (h_bind m k) w.
Proof.
  intros Hm Hk. specialize (Hm w). unfold adds, h_bind. destruct (m w) as [w1 [a|e]] eqn:Em; simpl in Hm.
  - rewrite <- (proj2 Hm). exact (Hk a w1 eq_refl (proj1 Hm)).
  - left. apply Hm.
Qed.

Lemma same_conn_bump_stats loc f w : same_conn w (fst (bump_stats loc f w)).
Proof.
  unfold bump_stats, h_bind. simpl. destruct (sh_heap (hw_sh w) !! loc) as [v|]; [|done].
  unfold h_bind. destruct (f v); done.
Qed.

Lemma same_conn_bump_overall f w : same_conn w (fst (bump_overall f w)).
Proof. unfold bump_overall, h_bind. simpl. unfold h_bind. by destruct (f (sh_overall (hw_sh w))). Qed.

Lemma credit_share_adds cur j k id cid w :
  adds (fun ev => f64_ltb f64_zero (credited_diff (cx_state (hw_ctx w)) cur) = true /\
          exists daa ts, ev = ShareCredited (cx_wallet_addr (hw_ctx w)) (fst (effective_worker_name (hw_ctx w)))
                                (credited_diff (cx_state (hw_ctx w)) cur) daa ts cid)
       (credit_share cur j k id cid) w.
Proof.
  unfold credit_share. apply adds_bind; [apply frames_weaken, frames_get_create_stats|]. intros loc w1 E1 _.
  destruct (frames_get_create_stats w) as [S1 J1]. pose proof (get_create_stats_name _ _ _ E1) as N1.
  rewrite E1 in S1, J1; simpl in S1, J1. rewrite <- J1, <- (ss_wallet _ _ S1), <- N1. clear E1 S1 J1 N1.
  apply adds_conn; [apply same_conn_bump_stats | intros _ w2 _ <-].
  apply adds_conn; [apply same_conn_bump_stats | intros _ w3 _ <-].
  apply adds_conn; [done | intros cd w4 [= <- <-] _].
  apply adds_conn; [done | intros now w5 _ <-].
  apply adds_conn; [done | intros _ w6 _ <-].
  apply adds_conn; [apply same_conn_bump_overall | intros _ w7 _ <-].
  apply adds_conn; [done | intros wa w8 [= <- <-] _].
  apply adds_conn; [done | intros wo w9 [= <- <-] _].
  apply adds_conn; [done | intros daa w10 _ _].
  assert (match job_diff_of (cx_state (hw_ctx w7)) cur with Some d => kd_diff_value d | None => _ end
          = credited_diff (cx_state (hw_ctx w7)) cur) as ->.
  { unfold credited_diff. by destruct (job_diff_of _ cur). }
  apply adds_then.
  - destruct (emit_credited_adds (cx_wallet_addr (hw_ctx w7)) (cx_worker_name (hw_ctx w7))
      (credited_diff (cx_state (hw_ctx w7)) cur) daa cid w10) as [H|(ev & (P & ts & ->) & H)]; [by left|].
    right. eexists. split; [|exact H]. eauto.
  - frame.
Qed.

(** ** Credits are earned *)

(** The nonce a submission stands for. *)
Definition submitted_nonce (event : JsonRpcEvent) c : option Z :=
  match nonce_param (ev_params event) with
  | Some (VString raw) =>
      match final_nonce_text (cx_extranonce c) (remove_0x raw) with
      | Some final => parse_u64_radix 16 final
      | None => None
      end
  | _ => None
  end.

Definition submitted_job (event : JsonRpcEvent) c : option (Z * Job Tx) :=
  match ev_params event !! 1%nat with
  | Some v => match parse_job_id v with Ok id => find_job (cx_state c) id | Err _ => None end
  | None => None
  end.

(** The key a submission is remembered by. *)
Definition submission_key (event : JsonRpcEvent) c : option text :=
  match submitted_job event c, nonce_param (ev_params event) with
  | Some (job_id, _), Some (VString raw) =>
      option_map (submit_key_of (fst (effective_worker_name c)) job_id)
        (final_nonce_text (cx_extranonce c) (remove_0x raw))
  | _, _ => None
  end.

(** A share of the job the submission names, or of one of the seven before it, and
    either it meets the target the job was published with, whose difficulty is what
    is credited, or it solves a block. *)
Inductive earned (event : JsonRpcEvent) c : PoolEvent -> Prop :=
| Earned nonce start job0 job_id job diff daa ts cid :
    submitted_nonce event c = Some nonce ->
    submitted_job event c = Some (start, job0) ->
    start - 7 <= job_id <= start ->
    get_job (cx_state c) job_id = Some job ->
    f64_ltb f64_zero diff = true ->
    (exists kd, job_diff_of (cx_state c) job_id = Some kd /\ diff = kd_diff_value kd /\
       snd (pow_of job nonce) <= kd_target_value kd) \/
    clears_network job nonce ->
    earned event c (ShareCredited (cx_wallet_addr c) (fst (effective_worker_name c)) diff daa ts cid).

Lemma find_job_stored (s : MiningState Tx) id start j : find_job s id = Some (start, j) -> get_job s start = Some j.
Proof.
  unfold find_job. destruct (get_job s id) eqn:G; [intros [= <- <-]; done|].
  destruct (max_id _) as [l|]; [|discriminate]. destruct (get_job s l) eqn:G'; simpl; [|discriminate].
  intros [= <- <-]. done.
Qed.

Lemma parse_submission_ok event cid w w' job_id job n key :
  parse_submission event cid w = (w', Ok (job_id, job, n, key)) ->
  submitted_nonce event (hw_ctx w) = Some n /\ submitted_job event (hw_ctx w) = Some (job_id, job) /\
  submission_key event (hw_ctx w) = Some key /\ get_job (cx_state (hw_ctx w)) job_id = Some job /\
  cx_extranonce (hw_ctx w') = cx_extranonce (hw_ctx w) /\ sh_guard (hw_sh w') = sh_guard (hw_sh w) /\
  sh_calls (hw_sh w') = sh_calls (hw_sh w).
Proof.
  unfold parse_submission, submission_key, submitted_nonce, submitted_job. intros H.
  apply h_bind_ok in H as (p1 & w1 & H1 & H).
  destruct (ev_params event !! 1%nat) as [v|]; [|discriminate]. injection H1 as <- <-.
  apply h_bind_ok in H as (jid & w2 & H2 & H). injection H2 as <- Hj. rewrite Hj.
  apply h_bind_ok in H as (fo & w3 & H3 & H). injection H3 as <- <-.
  destruct (find_job (cx_state (hw_ctx w)) jid) as [[jid' jb]|] eqn:F;
    [|apply h_bind_ok in H as (? & w4 & H4 & H); injection H4 as <- <-;
      apply h_bind_ok in H as (? & w5 & H5 & H); injection H5 as <- <-;
      apply h_bind_ok in H as (? & w6 & _ & H); discriminate].
  apply h_bind_ok in H as (nv & w4 & H4 & H).
  destruct (nonce_param (ev_params event)) as [v'|]; [|discriminate]. injection H4 as <- <-.
  apply h_bind_ok in H as (raw & w5 & H5 & H).
  destruct v' as [| | |raw'| |]; try discriminate. injection H5 as <- <-.
  apply h_bind_ok in H as (ex & w6 & H6 & H). injection H6 as <- <-.
  apply h_bind_ok in H as (fin & w7 & H7 & H).
  destruct (final_nonce_text _ _) as [fin'|]; [|discriminate]. injection H7 as <- <-.
  apply h_bind_ok in H as (nonce & w8 & H8 & H).
  destruct (parse_u64_radix 16 fin') as [nz|]; [|discriminate]. injection H8 as <- <-.
  apply h_bind_ok in H as (wid & w9 & H9 & H). injection H9 as <- <-. injection H as <- <- <- <- <-. simpl.
  repeat (split; [done|]). split; [by eapply find_job_stored|].
  unfold ensure_default_worker_name. by destruct (is_empty _).
Qed.

(** C7. In every state of the pool and whatever the node, the clock and the other
    tasks do, one submission adds at most one credited share.  That share belongs
    to the wallet and worker of the connection, is backed by a stored job at most
    seven ids below the one the submission is about, and the submitted nonce
    either meets the target this job was published with, at exactly the credited
    (positive) difficulty, or solves a block on one of the two chains. *)
Theorem credit_is_earned event w : adds (earned event (hw_ctx w)) (handle_submit event) w.
Proof.
  unfold handle_submit. apply adds_bind; [apply frames_weaken, frames_ask|]. intros cid w1 E1 _.
  injection E1 as <- <-. set (w1 := mkHW _ _). change (hw_ctx w) with (hw_ctx w1).
  generalize (env_uuid (sh_calls (hw_sh w))) as cid. clearbody w1. clear w. intros cid.
  destruct (_ <? 3)%nat. { apply adds_frames. frame. }
  apply adds_bind; [apply frames_weaken, frames_parse_submission|]. intros [[[jid job] n] key] w2 E2 S2.
  destruct (parse_submission_ok _ _ _ _ _ _ _ _ E2) as (Hn & Hj & _ & G & _).
  destruct (frames_parse_submission event cid w1) as [_ J2]. rewrite E2 in J2. simpl in J2.
  apply adds_conn; [done|]. intros dup w3 E3 J3.
  destruct dup as [o|]. { apply adds_frames, frames_weaken, frames_answer_repetition. }
  apply adds_bind; [apply frames_pow_loop|]. intros v w4 E4 S4. rewrite <- J2, <- J3 in G.
  destruct v as [[] cur j|]; [apply adds_frames, frames_weaken, frames_reject_low_diff| |by left].
  destruct (pow_loop_credits _ _ _ _ _ _ _ _ _ _ _ _ _ E4 (or_introl eq_refl) G) as (B & Gj & K).
  rewrite J3, J2 in Gj, K.
  destruct (credit_share_adds cur j key (ev_id event) cid w4) as [H|(ev & (Pd & daa & ts & ->) & H)]; [by left|].
  right. eexists. split; [|exact H]. rewrite (ss_wallet _ _ S4), (ss_worker _ _ S4), J3, (ss_wallet _ _ S2), (ss_worker _ _ S2).
  change (Z.of_nat (MAX_COMPAT_JOB_ATTEMPTS - 1)) with 7 in B.
  eapply Earned; [exact Hn | exact Hj | exact B | exact Gj | exact Pd |].
  destruct K as [[Kp Ks]|K]; [|by right]. left. unfold pool_target_of, credited_diff in *. rewrite Ks in *.
  destruct (job_diff_of (cx_state (hw_ctx w1)) cur) as [kd|]; [eauto | discriminate Pd].
Qed.
End Credits.

(** ** Repeated submissions *)

Section Repeats.
Context {Tx : Type} `{E : !ShareEnv Tx}.
Implicit Types (w : @HW Tx) (c : StratumContext Tx) (s : ShareHandler).

Lemma frames_quiet {A} (m : HM A) : frames same_share m -> frames guard_quiet m.
Proof. intros H w. apply H. Qed.

Lemma quiet_emit e : frames guard_quiet (emit e).
Proof. intros w. unfold emit, sh_put. simpl. apply guard_quiet_same; destruct (sh_bus _); simpl; auto. Qed.

Lemma quiet_credit_share cur j k id cid : frames guard_quiet (credit_share cur j k id cid).
Proof.
  assert (forall wa wo d daa, frames guard_quiet (emit_credited wa wo d daa cid)) as H.
  { intros. unfold emit_credited. destruct (WalletAddress_new wa), (WorkerName_new wo), (ShareDifficulty_new d);
      try (apply frames_ret, _). apply frames_bind; [apply _| |intros; apply quiet_emit].
    apply frames_quiet, frames_weaken, frames_ask. }
  unfold credit_share.
  repeat first [apply H | solve [apply frames_quiet, frames_weaken; eauto with share typeclass_instances]
               | apply frames_bind; [apply _| |intros]].
Qed.

(** What a submission does to the guard: nothing but record outcomes, or look its
    key up once and then record outcomes; a key that is known earns nothing. *)
Lemma handle_submit_guard event w :
  let w' := fst (handle_submit event w) in
  (credits (hw_sh w') = credits (hw_sh w) /\ guard_quiet w w') \/
  exists key wm, let i := S (sh_calls (hw_sh w)) in
    let r := dup_check (sh_guard (hw_sh w)) key (env_instant i) in
    submission_key event (hw_ctx w) = Some key /\ sh_guard (hw_sh wm) = snd r /\ sh_calls (hw_sh wm) = S i /\
    guard_quiet wm w' /\ (fst r <> None -> credits (hw_sh w') = credits (hw_sh w)).
Proof.
  unfold handle_submit. cbv zeta.
  set (k1 := fun cid => if (_ <? 3)%nat then _ else _).
  change (h_bind (ask env_uuid) k1 w) with
    (k1 (env_uuid (sh_calls (hw_sh w))) (mkHW (hw_ctx w) (with_calls (S (sh_calls (hw_sh w))) (hw_sh w)))).
  set (w1 := mkHW _ _). set (cid := env_uuid _). subst k1. cbv beta.
  pose proof (frames_weaken _ (frames_ask env_uuid) w : same_share w w1) as S1.
  assert (forall A (m : HM A), frames same_share m ->
    credits (hw_sh (fst (m w1))) = credits (hw_sh w) /\ guard_quiet w (fst (m w1))) as Quiet.
  { intros A m H. destruct (H w1) as [_ _ _ _ C G]. split; [rewrite C; apply S1|].
    etransitivity; [apply S1 | exact G]. }
  destruct (_ <? 3)%nat. { left. apply Quiet. frame. }
  destruct (parse_submission event cid w1) as [w2 [[[[jid job] n] key]|e]] eqn:E2.
  2: { left. specialize (Quiet _ (parse_submission event cid)). unfold h_bind. rewrite E2 in *.
       apply Quiet, frames_weaken, frames_parse_submission. }
  right. destruct (parse_submission_ok _ _ _ _ _ _ _ _ E2) as (_ & _ & K & _ & _ & Gd & Ca).
  destruct (Quiet _ (parse_submission event cid)) as [Cr _]; [apply frames_weaken, frames_parse_submission|].
  rewrite E2 in Cr. rewrite (h_bind_step _ _ _ _ _ E2). simpl in K, Gd, Ca, Cr.
  set (r := dup_check (sh_guard (hw_sh w)) key (env_instant (S (sh_calls (hw_sh w))))).
  set (wm := mkHW (hw_ctx w2) (with_guard (snd r) (with_calls (S (S (sh_calls (hw_sh w)))) (hw_sh w2)))).
  assert (check_duplicate key w2 = (wm, Ok (fst r))) as Ec.
  { unfold check_duplicate, h_bind. simpl. unfold wm, r. rewrite Gd, Ca. done. }
  rewrite (h_bind_step _ _ _ _ _ Ec). exists key, wm. split; [exact K|]. split; [done|]. split; [done|].
  destruct (fst r) as [o|] eqn:Er.
  - destruct (frames_answer_repetition o (ev_id event) wm) as [[_ _ _ _ C G] _].
    split; [exact G|]. intros _. transitivity (credits (hw_sh wm)); [exact C | exact Cr].
  - split; [|intros N; by destruct (N Er)].
    apply frames_bind; [apply _ | apply frames_quiet, frames_pow_loop|].
    intros [[] cur j|]; [|apply quiet_credit_share | apply frames_ret, _].
    apply frames_quiet, frames_weaken, frames_reject_low_diff.
Qed.

(** Other submissions, of any connection, and other work that leaves the guard
    alone. *)
Inductive submits : nat -> ShareHandler -> ShareHandler -> Prop :=
| sub_none s : submits 0 s s
| sub_other n s s1 s2 :
    sh_guard s1 = sh_guard s -> (sh_calls s <= sh_calls s1)%nat -> submits n s1 s2 -> submits n s s2
| sub_one n s c event s2 :
    submits n (hw_sh (fst (handle_submit event (mkHW c s)))) s2 -> submits (S n) s s2.

(** The guard moves by at most [n] lookups, at instants read meanwhile. *)
Definition guard_moves (n : nat) s s' : Prop :=
  exists ops, (sh_calls s <= sh_calls s')%nat /\ sh_guard s' = run_guard ops (sh_guard s) /\
    checks ops <= Z.of_nat n /\
    Forall (fun op => exists i, (sh_calls s <= i < sh_calls s')%nat /\ op_time op = env_instant i) ops.

Lemma guard_moves_trans n1 n2 s1 s2 s3 :
  guard_moves n1 s1 s2 -> guard_moves n2 s2 s3 -> guard_moves (n1 + n2) s1 s3.
Proof.
  intros (o1 & L1 & G1 & C1 & T1) (o2 & L2 & G2 & C2 & T2). exists (o1 ++ o2).
  split; [lia|]. split; [unfold run_guard in *; by rewrite fold_left_app, <- G1|].
  split; [rewrite checks_app; lia|]. apply Forall_app. split; eapply Forall_impl; [exact T1| |exact T2|];
    simpl; intros op (i & Hi & ->); exists i; (split; [lia | done]).
Qed.

Lemma quiet_moves w w' : guard_quiet w w' -> guard_moves 0 (hw_sh w) (hw_sh w').
Proof. intros (ops & L & G & C & T). exists ops. repeat split; try done. lia. Qed.

Lemma submit_moves event w : guard_moves 1 (hw_sh w) (hw_sh (fst (handle_submit event w))).
Proof.
  destruct (handle_submit_guard event w) as [[_ Q%quiet_moves]|(key & wm & _ & G & C & Q%quiet_moves & _)].
  - destruct Q as (ops & L & Gq & Cq & T). exists ops. repeat split; try done. lia.
  - apply (guard_moves_trans 1 0) with (s2 := hw_sh wm); [|done].
    exists [GCheck key (env_instant (S (sh_calls (hw_sh w))))]. repeat split; [lia | done | done|].
    apply Forall_singleton. simpl. eexists. split; [|reflexivity]. lia.
Qed.

Lemma submits_moves n s s' : submits n s s' -> guard_moves n s s'.
Proof.
  induction 1 as [s|n s s1 s2 G L _ (ops & L' & G' & C & T)|n s c event s2 _ IH].
  - exists []. split; [lia|]. split; [done|]. split; [unfold checks; simpl; lia | constructor].
  - exists ops. split; [lia|]. split; [by rewrite <- G|]. split; [done|]. eapply Forall_impl; [exact T|].
    simpl. intros op (i & Hi & ->). exists i. split; [lia | done].
  - apply (guard_moves_trans 1 n) with (1 := submit_moves event (mkHW c s)) (2 := IH).
Qed.

(** C8. A share is credited once: after a credited submission, no submission with
    the same key (of any connection) is credited while its entry lives, that is
    within the guard's lifetime and while fewer than its capacity of other
    submissions came in between. *)
Theorem repeated_submission_not_credited s c1 e1 c2 e2 key n s2 :
  let g := sh_guard s in
  let s1 := hw_sh (fst (handle_submit e1 (mkHW c1 s))) in
  let s3 := hw_sh (fst (handle_submit e2 (mkHW c2 s2))) in
  guard_ok g -> 0 <= dg_ttl g -> (forall i j, (i <= j)%nat -> env_instant i <= env_instant j) ->
  submission_key e1 c1 = Some key -> submission_key e2 c2 = Some key ->
  credits s1 <> credits s -> submits n s1 s2 ->
  Z.of_nat n < dg_max_entries g -> env_instant (sh_calls s3) <= env_instant (sh_calls s) + dg_ttl g ->
  credits s3 = credits s2.
Proof.
  cbv zeta. intros I T Mono K1 K2 Cr Hs N Late. set (t := env_instant (S (sh_calls s))).
  destruct (handle_submit_guard e1 (mkHW c1 s)) as [[C _]|(key1 & wm & K1' & G1 & C1 & Q1%quiet_moves & R1)];
    [contradiction|]. simpl in K1', G1, C1, R1. rewrite K1 in K1'. injection K1' as <-.
  destruct (dup_check (sh_guard s) key t) as [[o|] g1] eqn:D; fold t in G1, R1; rewrite D in G1, R1; simpl in G1, R1;
    [destruct (Cr (R1 ltac:(discriminate)))|].
  pose proof (guard_moves_trans 0 n _ _ _ Q1 (submits_moves _ _ _ Hs)) as (ops & L & G & C & F).
  destruct (handle_submit_guard e2 (mkHW c2 s2)) as [[C' _]|(key2 & wm2 & K2' & G2 & C2 & Q2%quiet_moves & R2)];
    [exact C'|]. simpl in K2', G2, C2, R2. rewrite K2 in K2'. injection K2' as <-. apply R2.
  destruct Q2 as (_ & L2 & _). rewrite C2 in L2. rewrite C1 in L, F.
  assert (env_instant (sh_calls s) <= t) by (apply Mono; lia).
  assert (forall i, (S (S (sh_calls s)) <= i <= S (sh_calls s2))%nat -> t <= env_instant i <= t + dg_ttl (sh_guard s)) as B.
  { intros i Hi. split; [apply Mono; lia|]. etransitivity; [|apply Z.add_le_mono_r; eassumption].
    etransitivity; [|exact Late]. apply Mono. lia. }
  rewrite G, G1. rewrite (duplicate_recognised (sh_guard s) key t g1 ops); [discriminate | done | done | exact D | | |lia].
  - eapply Forall_impl; [exact F|]. simpl. intros op (i & Hi & ->). apply B. lia.
  - apply B. lia.
Qed.
End Repeats.

(** ** A concrete pool *)

(** Only nonce 171 on a header with time stamp 1 does enough work; the clock counts
    calls, every write succeeds and nothing is merged. *)
#[local] Instance demo_env : ShareEnv unit := {|
  api_merged_fc_target := fun _ _ => None;
  api_merged_chain_hash := fun _ _ => None;
  api_merged_zkas_daa := fun _ _ => None;
  api_submit_merged_parent := fun _ _ => NotMerged;
  api_claim_network_solution := fun _ _ => true;
  api_submit_block := fun _ _ => Ok SubmitAccepted;
  api_block_color := fun _ _ => Ok true;
  env_meanwhile := fun _ s => s;
  env_instant := Z.of_nat;
  env_unix_ms := fun _ => 0;
  env_utc := Z.of_nat;
  env_write := fun _ _ => Written;
  env_uuid := fun _ => EmptyString;
  check_pow := fun h n => (false, if (n =? 171) && (hd_timestamp h =? 1) then 1000 else 3000);
  header_hash := fun _ => repeat 0 32;
  hash_text := BlockHash_display;
  hex_decode := fun _ => None
|}.

Definition demo_header (ts : Z) : Header :=
  mkHeader 1 [] (repeat 1 32) (repeat 2 32) (repeat 3 32) ts 0 0 500 600 700 (repeat 4 32).
Definition demo_job (ts : Z) : Job unit := mkJob (mkBlk (demo_header ts) []) (repeat 5 32).

(** A connection that was sent the jobs with the given time stamps, at difficulty
    8192 with target 2000. *)
Definition demo_state (stamps : list Z) : MiningState unit :=
  fold_left (fun s ts => match add_job s (demo_job ts) with Some (_, s) => s | None => s end) stamps
    (set_stratum_diff (mkDiff f64_one (f64_of_Z 8192) 2000) (mining_new 0)).

Definition demo_wallet (c : Z) : text := lit "kaspa:" ++ repeat c 61.

Definition demo_ctx (wallet : text) (stamps : list Z) : StratumContext unit :=
  set_authorized_worker_name (lit "rig1")
    (with_wallet_addr wallet (ctx_new (lit "10.0.0.1") 5555 16110 1 (demo_state stamps))).

Definition demo_submit (job nonce : string) : JsonRpcEvent :=
  mkEvent (Some (VNumber (PosInt 4))) (lit "2.0") (lit "mining.submit")
    [VString (lit "x"); VString (lit job); VString (lit nonce)].

Definition demo_run (events : list JsonRpcEvent) (w : HW) : HW :=
  fold_left (fun w e => fst (handle_submit e w)) events w.

Definition demo_world (c : StratumContext unit) : HW := mkHW c (handler_new true 0).

Lemma repeated_submission_not_credited_witness :
  let c := demo_ctx (demo_wallet 113) [1] in
  let s := handler_new true 0 in
  let s1 := hw_sh (fst (handle_submit (demo_submit "1" "ab") (mkHW c s))) in
  credits (hw_sh (fst (handle_submit (demo_submit "1" "ab") (mkHW c s1)))) = credits s1.
Proof.
  cbv zeta.
  refine (repeated_submission_not_credited (handler_new true 0) (demo_ctx (demo_wallet 113) [1]) (demo_submit "1" "ab")
    (demo_ctx (demo_wallet 113) [1]) (demo_submit "1" "ab") _ 0 _ (dup_guard_new_ok _ _) _ _ eq_refl eq_refl _ (sub_none _) _ _).
  - vm_compute. discriminate.
  - intros i j H. simpl. lia.
  - vm_compute. discriminate.
  - vm_compute. reflexivity.
  - vm_compute. discriminate.
Defined.

(** One proof of work is credited again and again: the key of a submission
    contains the nonce as it was written and the job id as it was submitted, so
    other spellings of the same nonce, and the ids of the seven later jobs from
    which the walk leads back to the job that was solved, all count as new.  Here
    thirteen submissions of one nonce for one job give thirteen credits. *)
Theorem one_proof_credited_again :
  let c := demo_ctx (demo_wallet 113) [1; 2; 3; 4; 5; 6; 7; 8] in
  let spellings := map (demo_submit "1") ["ab"; "aB"; "Ab"; "AB"; "0ab"; "+ab"]%string in
  let later := map (fun job => demo_submit job "ab") ["2"; "3"; "4"; "5"; "6"; "7"; "8"]%string in
  Forall (fun e => submitted_nonce e c = Some 171) (spellings ++ later) /\
  (forall ts, 1 < ts -> snd (pow_of (demo_job ts) 171) = 3000) /\
  length (credits (hw_sh (demo_run (spellings ++ later) (demo_world c)))) = 13%nat.
Proof.
  cbv zeta. split; [|split].
  - repeat constructor; vm_compute; reflexivity.
  - intros ts H. unfold pow_of, check_pow. simpl. destruct (Z.eqb_spec ts 1); [lia | done].
  - vm_compute. reflexivity.
Qed.

(** The key of a submission names neither the wallet nor the connection: when
    two miners call their rig alike, a valid share of the second whose job number
    and nonce equal those of a share of the first is answered with success and not
    credited. *)
Theorem namesake_share_swallowed :
  let c1 := demo_ctx (demo_wallet 113) [1] in
  let c2 := demo_ctx (demo_wallet 122) [1] in
  let w1 := fst (handle_submit (demo_submit "1" "ab") (demo_world c1)) in
  let w2 := fst (handle_submit (demo_submit "1" "ab") (mkHW c2 (hw_sh w1))) in
  length (credits (hw_sh (fst (handle_submit (demo_submit "1" "ab") (demo_world c2))))) = 1%nat /\
  length (credits (hw_sh w1)) = 1%nat /\ credits (hw_sh w2) = credits (hw_sh w1) /\
  cx_sent (hw_ctx w2) = [OResponse (response_true (Some (VNumber (PosInt 4))))].
Proof. vm_compute. repeat split. Qed.
