(* ===== verification/ClientHandler.v ===== *)
(** * Jobs, difficulties and connections ([bridge/src/client_handler.rs])

    The tasks that fetch a template for a client, record it as a job, announce the
    difficulty and send the work; the nonce prefixes; the table of clients. *)
From Stdlib Require Import SpecFloat.
From S2P Require Import Prelude F64 Schema Domain Hasher MiningState Merged StratumRpc ShareGuard StratumContext IngestDb Consumer ShareHandler.
Open Scope Z_scope.

Notation "x <-h m ;; k" := (h_bind m (fun x => k)) (at level 100, m at next level, right associativity).
Notation "m ;;h k" := (h_bind m (fun _ => k)) (at level 100, right associativity).

(** ** What the tasks ask of the node *)

Record TemplateRequest := mkTemplateRequest {
  tr_wallet_addr : text;
  tr_remote_app : text;
  tr_canxium_addr : text;
  tr_session_uid : Z;
  tr_generation : Z;
  tr_kas_payout : option text;
  tr_lane_id : Z
}.

Class JobEnv (Tx : Type) := {
  api_get_block_template : nat -> TemplateRequest -> result (Block Tx) text;
  api_refresh_merged_parent : nat -> Block Tx -> option text -> result (option (Block Tx)) text;
  api_merged_lane_paid_pool : nat -> Block Tx -> bool;
  block_hasher : bytes -> bytes;
  (** [try_lock_job_build] and the permit of the parent refresh gate. *)
  env_lock : nat -> bool
}.

(** ** Difficulty messages *)

(** [diff.fract() == 0.0]. *)
Definition is_whole (x : f64) : bool :=
  match x with
  | S754_zero _ => true
  | S754_finite s m e => f64_eqb (f64_floor x) x
  | _ => false
  end.

Definition difficulty_to_json (diff : f64) : Value :=
  if f64_is_finite diff && f64_leb f64_zero diff && is_whole diff && f64_leb diff (f64_of_Z u64_max)
  then VNumber (PosInt (f64_as_u64 diff))
  else if f64_is_finite diff then VNumber (Float diff)
  else VNumber (PosInt (f64_as_u64 (f64_max diff f64_zero))).

Definition set_difficulty_event (v : Value) : JsonRpcEvent :=
  mkEvent None (lit "2.0") (lit "mining.set_difficulty") [v].

(** ** Nonce prefixes *)

Definition clamp_Z (z lo hi : Z) : Z := Z.max lo (Z.min hi z).

Definition max_extranonce (width : Z) : Z := 2 ^ (8 * width) - 1.

(** The counters are indexed by width in bytes. *)
Definition next_extranonce_prefix (width : Z) (counters : list Z) : text * Z * bool * list Z :=
  let width := clamp_Z width 1 3 in
  let value := nth (Z.to_nat width) counters 0 in
  let next := if value <? max_extranonce width then value + 1 else 0 in
  (BlockHash_display (to_be_bytes (Z.to_nat width) value), value, max_extranonce width <=? value,
   <[Z.to_nat width := next]> counters).

(** ** Kinds of miners *)

(** The patterns are lowercase letters, which only ASCII letters become. *)
Definition is_bitmain (app_lower : text) : bool :=
  contains (lit "godminer") app_lower || contains (lit "bitmain") app_lower || contains (lit "antminer") app_lower.

Definition is_iceriver (app_lower : text) : bool :=
  contains (lit "iceriver") app_lower || contains (lit "icemining") app_lower || contains (lit "icm") app_lower.

(** [BIG_JOB_REGEX]. *)
Definition big_job_miner (remote_app : text) : bool :=
  contains (lit "BzMiner") remote_app || contains (lit "IceRiverMiner") remote_app.

(** [override] is the environment variable of the miner's class. *)
Definition parent_job_interval (remote_app : text) (override : text -> option Z) : Z :=
  let app := to_ascii_lowercase remote_app in
  let legacy_asic := is_bitmain app || contains (lit "goldshell") app in
  let (name, default_ms) := if legacy_asic
    then (lit "ZKAS_LEGACY_PARENT_JOB_INTERVAL_MS", 1000) else (lit "ZKAS_COMMON_PARENT_JOB_INTERVAL_MS", 500) in
  clamp_Z (default default_ms (override name)) 100 10000 * 1000000.

Section Jobs.
Context {Tx : Type} `{E : !ShareEnv Tx} `{J : !JobEnv Tx} `{AX : !AuxPowEnv Tx}.

Definition state_put (f : MiningState Tx -> MiningState Tx) : @HM Tx unit :=
  ctx_put (fun c => with_state (f (cx_state c)) c).

Definition ctx_send_event (event : JsonRpcEvent) : @HM Tx bool := send_reply (fun w => ctx_send w event).
Definition ctx_notify (method : text) (params : list Value) : @HM Tx bool :=
  send_reply (fun w => send_notification w method params).

Definition send_client_diff (diff : f64) : @HM Tx bool := ctx_send_event (set_difficulty_event (difficulty_to_json diff)).

Definition set_target (diff : f64) : @HM Tx unit :=
  kd <-h h_some (set_diff_value diff) Panicked ;; state_put (set_stratum_diff kd).

(** ** The work message *)

Definition job_params (iceriver use_big_job : bool) (job_id : Z) (pre_pow_hash : bytes) (timestamp : Z)
  : option (list Value) :=
  if iceriver then Some [VString (show job_id); VString (generate_iceriver_job_params pre_pow_hash timestamp)]
  else if use_big_job then
    option_map (fun s => [VString (show job_id); VString s]) (generate_large_job_params pre_pow_hash timestamp)
  else
    Some [VString (show job_id);
          VArray (map (fun v => VNumber (PosInt v)) (generate_job_header pre_pow_hash));
          VNumber (PosInt timestamp)].

Definition send_job (minimal : bool) (job_id : Z) (params : list Value) : @HM Tx bool :=
  if minimal then ctx_notify (lit "mining.notify") params
  else ctx_send_event (mkEvent (Some (VNumber (PosInt job_id))) (lit "2.0") (lit "mining.notify") params).

Definition publish_job (minimal iceriver : bool) (job_id : Z) (pre_pow_hash : bytes) (timestamp : Z) : @HM Tx bool :=
  use_big_job <-h ctx_get (fun c => ms_use_big_job (cx_state c)) ;;
  params <-h h_some (job_params iceriver use_big_job job_id pre_pow_hash timestamp) Panicked ;;
  ok <-h send_job minimal job_id params ;;
  if ok then now <-h ask env_instant ;; ctx_put (mark_job_sent now) ;;h h_ret true else h_ret false.

Definition record_job (block : Block Tx) : @HM Tx (Z * bytes) :=
  let pre_pow_hash := serialize_block_header block_hasher (bl_header block) in
  r <-h ctx_get (fun c => add_job (cx_state c) (mkJob block pre_pow_hash)) ;;
  r <-h h_some r Panicked ;;
  state_put (fun _ => snd r) ;;h
  h_ret (fst r, pre_pow_hash).

(** ** Templates *)

Definition fetch_template : @HM Tx (result (Block Tx) text) :=
  g <-h ctx_get next_template_generation ;;
  g <-h h_some g Panicked ;;
  ctx_put (fun _ => snd g) ;;h
  c <-h ctx_get (fun c => c) ;;
  await (fun n => api_get_block_template n
    (mkTemplateRequest (cx_wallet_addr c) (cx_remote_app c) (cx_canxium_addr c) (cx_session_uid c) (fst g)
       (cx_kas_payout c) (cx_session_uid c))).

Definition undecodable (e : text) : bool := contains (lit "Could not decode address") e.

(** A rejected payout address is dropped; any other bad address ends the session. *)
Definition immediate_template_failed (e : text) : @HM Tx unit :=
  if undecodable e then
    payout <-h ctx_get cx_kas_payout ;;
    ctx_put (with_kas_payout None) ;;h
    (if bool_decide (is_Some payout) then h_ret tt else ctx_put disconnect)
  else h_ret tt.

Definition initialize_state (initial_diff : f64) (remote_app : text) : @HM Tx unit :=
  initialized <-h ctx_get (fun c => ms_initialized (cx_state c)) ;;
  if initialized then h_ret tt
  else
    state_put (set_initialized true) ;;h
    state_put (set_use_big_job (big_job_miner remote_app)) ;;h
    set_target initial_diff.

(** The task of [send_immediate_job_to_client] once a template arrived. *)
Definition immediate_job (initial_diff : f64) (block : Block Tx) : @HM Tx unit :=
  remote_app <-h ctx_get cx_remote_app ;;
  state_put (set_last_header (bl_header block)) ;;h
  state_put (set_big_diff (calculate_target (hd_bits (bl_header block)))) ;;h
  job <-h record_job block ;;
  initialize_state initial_diff remote_app ;;h
  current_diff <-h ctx_get (fun c => match ms_stratum_diff (cx_state c) with
                                     | Some d => kd_diff_value d | None => initial_diff end) ;;
  ok <-h send_client_diff current_diff ;;
  if negb ok then h_ret tt
  else
    let iceriver := is_iceriver (to_ascii_lowercase remote_app) in
    _ <-h publish_job iceriver iceriver (fst job) (snd job) (hd_timestamp (bl_header block)) ;;
    h_ret tt.

Definition send_immediate_job_to_client (seed : f64) : @HM Tx unit :=
  c <-h ctx_get (fun c => c) ;;
  if is_empty (cx_wallet_addr c) || negb (connected c) then h_ret tt
  else
    initial_diff <-h register_client_vardiff seed ;;
    set_target initial_diff ;;h
    r <-h fetch_template ;;
    match r with
    | Err e => immediate_template_failed e
    | Ok block => immediate_job initial_diff block
    end.

(** ** The broadcast of a new template *)

Definition CLIENT_TIMEOUT_MS : Z := 20000.

(** A client without an address is dropped after twenty seconds. *)
Definition drop_unauthorized : @HM Tx unit :=
  connect_time <-h ctx_get (fun c => ms_connect_time (cx_state c)) ;;
  now <-h ask env_unix_ms ;;
  if CLIENT_TIMEOUT_MS <? now - connect_time then ctx_put disconnect else h_ret tt.

Definition new_template_failed (e : text) : @HM Tx unit :=
  if undecodable e then ctx_put disconnect else h_ret tt.

(** [true]: go on and send the job. *)
Definition apply_vardiff (initial_diff : f64) (remote_app : text) : @HM Tx bool :=
  initialized <-h ctx_get (fun c => ms_initialized (cx_state c)) ;;
  if negb initialized then
    initialize_state initial_diff remote_app ;;h
    send_client_diff initial_diff
  else
    stratum_diff <-h ctx_get (fun c => ms_stratum_diff (cx_state c)) ;;
    match stratum_diff with
    | None => h_ret true
    | Some d =>
        let current_diff := kd_diff_value d in
        var_diff <-h get_client_vardiff ;;
        var_diff <-h (if f64_leb var_diff f64_zero && f64_ltb f64_zero current_diff
                      then _ <-h set_client_vardiff current_diff ;; start_client_vardiff ;;h h_ret current_diff
                      else h_ret var_diff) ;;
        if f64_eqb var_diff current_diff then h_ret true
        else
          set_target var_diff ;;h
          ok <-h send_client_diff var_diff ;;
          if ok then start_client_vardiff ;;h h_ret true else h_ret false
    end.

Definition new_block_job (seed : f64) (block : Block Tx) : @HM Tx unit :=
  state_put (set_big_diff (calculate_target (hd_bits (bl_header block)))) ;;h
  job <-h record_job block ;;
  initial_diff <-h register_client_vardiff seed ;;
  remote_app <-h ctx_get cx_remote_app ;;
  ok <-h apply_vardiff initial_diff remote_app ;;
  if negb ok then h_ret tt
  else
    let minimal := contains (lit "IceRiver") remote_app in
    _ <-h publish_job minimal (is_iceriver (to_ascii_lowercase remote_app)) (fst job) (snd job)
            (hd_timestamp (bl_header block)) ;;
    h_ret tt.

(** The task of one client. *)
Definition new_block_task (seed : f64) : @HM Tx unit :=
  locked <-h ask env_lock ;;
  if negb locked then h_ret tt
  else
    wallet_addr <-h ctx_get cx_wallet_addr ;;
    if is_empty wallet_addr then drop_unauthorized
    else
      r <-h fetch_template ;;
      match r with
      | Err e => new_template_failed e
      | Ok block => new_block_job seed block
      end.

(** ** Refreshing only the parent *)

Definition parent_job (parent : Block Tx) : @HM Tx unit :=
  job <-h record_job parent ;;
  remote_app <-h ctx_get cx_remote_app ;;
  let iceriver := is_iceriver (to_ascii_lowercase remote_app) in
  ok <-h publish_job iceriver iceriver (fst job) (snd job) (hd_timestamp (bl_header parent)) ;;
  if ok then now <-h ask env_instant ;; ctx_put (mark_parent_job_sent now) else h_ret tt.

(** The task that holds the permit. *)
Definition parent_refresh_task (old_job : Job Tx) : @HM Tx unit :=
  let expected_h_fc := committed_h_fc (jb_block old_job) in
  paid_pool <-h ask (fun n => api_merged_lane_paid_pool n (jb_block old_job)) ;;
  payout <-h ctx_get cx_kas_payout ;;
  r <-h await (fun n => api_refresh_merged_parent n (jb_block old_job) (if paid_pool then None else payout)) ;;
  match r with
  | Ok (Some parent) =>
      locked <-h ask env_lock ;;
      latest <-h ctx_get (fun c => latest_job (cx_state c)) ;;
      match latest with
      | Some (_, latest_job) =>
          if negb locked || negb (bool_decide (committed_h_fc (jb_block latest_job) = expected_h_fc)) then h_ret tt
          else parent_job parent
      | None => h_ret tt
      end
  | _ => h_ret tt
  end.

Definition new_parent_for_client (override : text -> option Z) : @HM Tx unit :=
  c <-h ctx_get (fun c => c) ;;
  if negb (connected c) then h_ret tt
  else
    now1 <-h ask env_instant ;;
    gate_free <-h ask env_lock ;;
    now2 <-h ask env_instant ;;
    if negb (try_parent_refresh (parent_job_interval (cx_remote_app c) override) now1 now2 gate_free c) then h_ret tt
    else
      match latest_job (cx_state c) with
      | Some (_, old_job) => parent_refresh_task old_job
      | None => h_ret tt
      end.

(** ** The first-job watchdog, when its thirty seconds are over *)

Definition first_job_watchdog : @HM Tx unit :=
  c <-h ctx_get (fun c => c) ;;
  if negb (connected c) || is_empty (cx_wallet_addr c) then h_ret tt
  else if received_job_since_authorization c then h_ret tt
  else
    (if cx_local_port c =? 5577 then
       _ <-h send_reply (fun w => send_reconnect_hint w (lit "mining-pool.zkas.info") 5555 3) ;; h_ret tt
     else if cx_local_port c =? 5555 then
       _ <-h send_reply (fun w => send_reconnect_hint w (lit "204.10.194.28") 5555 3) ;; h_ret tt
     else h_ret tt) ;;h
    ctx_put disconnect.
End Jobs.

(** ** The table of clients *)

Record ClientConfig := mkClientConfig {
  cf_min_share_diff : f64;
  cf_port_seeds : gmap Z f64;
  cf_extranonce_size : Z;
  cf_kaspa_common_protocol : bool;
  cf_extranonce_with_size : bool;
  cf_bitmain_extranonce_enabled : bool
}.

Definition seed_for_port (cfg : ClientConfig) (local_port : Z) : f64 :=
  default (cf_min_share_diff cfg) (cf_port_seeds cfg !! local_port).

(** [pl_clients] maps a client id to its session; the connection itself lives in
    [pl_conns] as long as a task holds it. *)
Record Pool (Tx : Type) := mkPool {
  pl_clients : gmap Z Z;
  pl_counter : Z;
  pl_conns : gmap Z (StratumContext Tx);
  pl_share : ShareHandler;
  pl_extranonce : list Z;
  pl_last_template_time : Z
}.
Arguments mkPool {Tx} _ _ _ _ _ _.
Arguments pl_clients {Tx} _.
Arguments pl_counter {Tx} _.
Arguments pl_conns {Tx} _.
Arguments pl_share {Tx} _.
Arguments pl_extranonce {Tx} _.
Arguments pl_last_template_time {Tx} _.

Section Clients.
Context {Tx : Type} `{E : !ShareEnv Tx} `{J : !JobEnv Tx} `{AX : !AuxPowEnv Tx}.
Implicit Types (p : Pool Tx).

(** Runs a task on the connection of a session. *)
Definition on_client {A} (uid : Z) (m : HM (Tx:=Tx) A) p : Pool Tx :=
  match pl_conns p !! uid with
  | Some c =>
      let w := fst (m (mkHW c (pl_share p))) in
      mkPool (pl_clients p) (pl_counter p) (<[uid := hw_ctx w]> (pl_conns p)) (hw_sh w) (pl_extranonce p)
        (pl_last_template_time p)
  | None => p
  end.

(** [AtomicI32::fetch_add] wraps. *)
Definition wrap_i32 (z : Z) : Z := (z + 2 ^ 31) mod 2 ^ 32 - 2 ^ 31.

Definition on_connect (c : StratumContext Tx) p : Pool Tx :=
  let idx := pl_counter p in
  let c := with_id idx (with_extranonce [] c) in
  mkPool (<[idx := cx_session_uid c]> (pl_clients p)) (wrap_i32 (idx + 1))
    (<[cx_session_uid c := c]> (pl_conns p)) (pl_share p) (pl_extranonce p) (pl_last_template_time p).

(** The statistics task spawned five seconds after the connect. *)
Definition create_stats_later : HM (Tx:=Tx) unit :=
  wallet_addr <-h ctx_get cx_wallet_addr ;;
  if is_empty wallet_addr then h_ret tt else _ <-h get_create_stats ;; h_ret tt.

Definition non_empty (s : text) : option text := if is_empty s then None else Some s.

Definition ok_opt {A B} (r : result A B) : option A := match r with Ok a => Some a | Err _ => None end.

Definition emit_session_closed : HM (Tx:=Tx) unit :=
  c <-h ctx_get (fun c => c) ;;
  let remote_app := option_map to_column (non_empty (cx_remote_app c)) in
  let worker := non_empty (cx_worker_name c) ≫= (fun n => ok_opt (WorkerName_new n)) in
  if bool_decide (is_Some remote_app) || bool_decide (is_Some worker) then
    let wallet := non_empty (cx_wallet_addr c) ≫= (fun a => ok_opt (WalletAddress_new a)) in
    ts <-h ask env_utc ;;
    cid <-h ask env_uuid ;;
    emit (SessionClosed (cx_session_uid c) wallet worker (cx_remote_addr c) remote_app
            (ms_connect_time (cx_state c)) ts cid)
  else h_ret tt.

Definition remove_client (c : StratumContext Tx) p : Pool Tx :=
  match ctx_id c with
  | Some id => mkPool (delete id (pl_clients p)) (pl_counter p) (pl_conns p) (pl_share p) (pl_extranonce p)
                 (pl_last_template_time p)
  | None => p
  end.

Definition on_disconnect (uid : Z) p : Pool Tx :=
  let p := on_client uid (deactivate_client_vardiff ;;h ctx_put disconnect) p in
  match pl_conns p !! uid with
  | Some c => on_client uid emit_session_closed (remove_client c p)
  | None => p
  end.

Definition disconnect_all p : Pool Tx :=
  mkPool ∅ (pl_counter p)
    (map_imap (fun uid c => Some (if bool_decide (uid ∈ map snd (map_to_list (pl_clients p))) then disconnect c else c))
       (pl_conns p))
    (pl_share p) (pl_extranonce p) (pl_last_template_time p).

Definition client_connected p (uid : Z) : bool :=
  match pl_conns p !! uid with Some c => connected c | None => false end.

Definition client_by_session_uid (uid : Z) p : option (StratumContext Tx) :=
  if bool_decide (uid ∈ map snd (map_to_list (pl_clients p))) && client_connected p uid then pl_conns p !! uid else None.

(** ** Prefixes for miners *)

Definition assign_extranonce_for_miner (cfg : ClientConfig) (uid : Z) (remote_app : text) p : Pool Tx :=
  let bitmain := is_bitmain (to_ascii_lowercase remote_app) in
  let configured := clamp_Z (cf_extranonce_size cfg) 0 3 in
  let required := if bitmain && negb (cf_bitmain_extranonce_enabled cfg) then 0 else configured in
  let put x counters :=
    mkPool (pl_clients p) (pl_counter p) (alter (with_extranonce x) uid (pl_conns p)) (pl_share p) counters
      (pl_last_template_time p) in
  if 0 <? required then
    let '(s, _, _, counters) := next_extranonce_prefix required (pl_extranonce p) in put s counters
  else put [] (pl_extranonce p).

(** ** Broadcasts *)

Definition MIN_TEMPLATE_INTERVAL : Z := 250000000.

(** [order] is the order in which the clients are visited. *)
Definition new_block_available (cfg : ClientConfig) (now : Z) (order : list Z) p : Pool Tx :=
  if duration_since now (pl_last_template_time p) <? MIN_TEMPLATE_INTERVAL then p
  else
    let p := mkPool (pl_clients p) (pl_counter p) (pl_conns p) (pl_share p) (pl_extranonce p) now in
    fold_left (fun p uid =>
      match pl_conns p !! uid with
      | Some c => if connected c then on_client uid (new_block_task (seed_for_port cfg (cx_local_port c))) p else p
      | None => p
      end) order p.

Definition new_parent_available (override : text -> option Z) (order : list Z) p : Pool Tx :=
  fold_left (fun p uid => on_client uid (new_parent_for_client override) p) order p.
End Clients.
