(* ===== verification/Handshake.v ===== *)
(** * The stratum handshake ([bridge/src/default_client.rs])

    Subscribe and authorize: which address a username stands for, where merged
    mining pays, and the messages a miner is sent before its first job. *)
From S2P Require Import Prelude F64 Schema Domain Hasher MiningState Merged StratumRpc ShareGuard StratumContext IngestDb Consumer ShareHandler ClientHandler.
Open Scope Z_scope.

(** The address codec and the address pattern of the regular-expression crate. *)
Class AddressEnv := {
  address_ok : text -> bool;
  address_form : text -> text;
  wallet_matches : text -> list text;
  pool_fallback_address : text
}.

(** ** Splitting text *)

(** [str::split] at one separator. *)
Fixpoint split_at (sep : Z -> bool) (s : text) : list text :=
  match s with
  | [] => [[]]
  | c :: s =>
      match split_at sep s with
      | part :: parts => if sep c then [] :: part :: parts else (c :: part) :: parts
      | [] => [[c]]
      end
  end.

Definition split_on_dot (s : text) : list text := split_at (Z.eqb 46) s.

(** ** Addresses *)

Definition CANXIUMINER : text := lit "canxiuminer:".

Definition process_canxium_address (address : text) : text :=
  let addr :=
    if starts_with (lit "0x") address then skipn 2 address
    else if starts_with (CANXIUMINER ++ lit "0x") (to_ascii_lowercase address)
    then firstn 12 address ++ skipn 14 address
    else address in
  if starts_with CANXIUMINER (to_ascii_lowercase addr) then addr else CANXIUMINER ++ addr.

Definition looks_like_payout_attempt (raw : text) : bool :=
  let t := to_ascii_lowercase (trim raw) in
  starts_with (lit "kaspa:") t || starts_with (lit "kaspatest:") t || starts_with (lit "kaspadev:") t.

Definition is_placeholder_password (raw : text) : bool := negb (looks_like_payout_attempt raw).

Section Addresses.
Context `{AE : !AddressEnv}.

Definition parse_kas_payout (raw : option text) : option text :=
  match raw with
  | None => None
  | Some raw =>
      let raw := trim raw in
      if is_placeholder_password raw then None
      else
        let candidate := trim (default raw (head (split_at (fun c => (c =? 44) || (c =? 32)) raw))) in
        if negb (starts_with (lit "kaspa:") candidate || starts_with (lit "kaspatest:") candidate ||
                 starts_with (lit "kaspadev:") candidate) then None
        else if address_ok candidate then Some (address_form candidate) else None
  end.

Definition PREFIXES : list text := [lit "zkas"; lit "firecash"; lit "kaspa"; lit "kaspatest"; lit "kaspadev"].

(** [None] is the error. *)
Definition clean_wallet (input : text) : option text :=
  if address_ok input then Some input
  else
    let candidates := if contains (lit ":") input then []
                      else map (fun prefix => prefix ++ lit ":" ++ input) PREFIXES in
    match List.find address_ok candidates with
    | Some a => Some a
    | None => List.find address_ok (wallet_matches input)
    end.
End Addresses.

(** ** Messages *)

Section Handshake.
Context {Tx : Type} `{E : !ShareEnv Tx} `{J : !JobEnv Tx} `{AX : !AuxPowEnv Tx} `{AE : !AddressEnv}.

(** [8 - len / 2] on [usize]; [None] is the underflow panic. *)
Definition extranonce2_size (extranonce : text) : option Z := checked_u64 (8 - len extranonce / 2).

Definition send_extranonce (with_size : bool) : HM (Tx:=Tx) unit :=
  remote_app <-h ctx_get cx_remote_app ;;
  extranonce <-h ctx_get cx_extranonce ;;
  params <-h (if is_bitmain (to_ascii_lowercase remote_app) || with_size
              then size <-h h_some (extranonce2_size extranonce) Panicked ;;
                   h_ret [VString extranonce; VNumber (PosInt size)]
              else h_ret [VString extranonce]) ;;
  ok <-h (if contains (lit "IceRiver") remote_app
          then ctx_notify (lit "mining.set_extranonce") params
          else ctx_send_event (JsonRpcEvent_new None (lit "mining.set_extranonce") params)) ;;
  if ok then h_ret tt else h_fail ReplyFailed.

Definition send_subscribe_difficulty (cfg : ClientConfig) : HM (Tx:=Tx) unit :=
  port <-h ctx_get cx_local_port ;;
  ok <-h ctx_send_event (set_difficulty_event (difficulty_to_json (seed_for_port cfg port))) ;;
  if ok then h_ret tt else h_fail ReplyFailed.

Definition number_of_f64 (d : f64) : Value :=
  VNumber (if f64_is_finite d then Float d else PosInt (f64_as_u64 d)).

Definition send_subscribe_difficulty_v1 (cfg : ClientConfig) : HM (Tx:=Tx) unit :=
  port <-h ctx_get cx_local_port ;;
  ok <-h send_reply (fun w => send_v1_notification w (lit "mining.set_difficulty")
                                [number_of_f64 (seed_for_port cfg port)]) ;;
  if ok then h_ret tt else h_fail ReplyFailed.

(** ** Subscribe *)

Definition subscribe_response (event : JsonRpcEvent) (remote_app extranonce : text) : HM (Tx:=Tx) JsonRpcResponse :=
  if is_bitmain (to_ascii_lowercase remote_app) then
    size <-h h_some (extranonce2_size extranonce) Panicked ;;
    h_ret (JsonRpcResponse_new event (Some (VArray [VNull; VString extranonce; VNumber (PosInt size)])) None)
  else
    h_ret (JsonRpcResponse_new event (Some (VArray [VBool true; VString (lit "EthereumStratum/1.0.0")])) None).

(** The rest of [handle_subscribe], once the prefix is assigned; [None] is a
    listener without a client handler. *)
Definition subscribe_messages (cfg : option ClientConfig) (event : JsonRpcEvent) : HM (Tx:=Tx) unit :=
  remote_app <-h ctx_get cx_remote_app ;;
  extranonce <-h ctx_get cx_extranonce ;;
  response <-h subscribe_response event remote_app extranonce ;;
  reply_or_fail (fun w => reply w response) ;;h
  match cfg with
  | None => h_ret tt
  | Some cfg =>
      if cf_kaspa_common_protocol cfg then
        ok <-h send_reply (fun w => send_v1_notification w (lit "set_extranonce")
                 [VString extranonce; VNumber (PosInt (Z.max 0 (8 - len extranonce / 2)))]) ;;
        if ok then send_subscribe_difficulty_v1 cfg else h_fail ReplyFailed
      else if contains (lit "iceriver") (to_ascii_lowercase remote_app) && negb (is_empty extranonce)
      then send_extranonce (cf_extranonce_with_size cfg)
      else h_ret tt
  end.

Definition set_remote_app (event : JsonRpcEvent) : HM (Tx:=Tx) unit :=
  match head (ev_params event) with
  | Some (VString app) => ctx_put (with_remote_app app)
  | _ => h_ret tt
  end.

Definition handle_subscribe (cfg : option ClientConfig) (uid : Z) (event : JsonRpcEvent) (p : Pool Tx) : Pool Tx :=
  let p := on_client uid (set_remote_app event) p in
  let p := match cfg, pl_conns p !! uid with
           | Some cfg, Some c => assign_extranonce_for_miner cfg uid (cx_remote_app c) p
           | _, _ => p
           end in
  on_client uid (subscribe_messages cfg event) p.

Definition handle_extranonce_subscribe (event : JsonRpcEvent) : HM (Tx:=Tx) unit :=
  reply_or_fail (fun w => reply w (JsonRpcResponse_new event (Some (VBool true)) None)).

(** ** Authorize *)

(** The parts of the username: address, worker, Canxium address. *)
Definition parse_username (s : text) : text * text * text :=
  let parts := split_on_dot s in
  (nth 0 parts [], nth 1 parts [],
   match nth_error parts 2 with Some a => process_canxium_address a | None => [] end).

Definition resolve_wallet (address : text) : text :=
  match clean_wallet address with Some a => a | None => pool_fallback_address end.

Definition emit_session_opened (address worker_name remote_app : text) : HM (Tx:=Tx) unit :=
  first <-h ctx_run claim_session_open ;;
  if negb first then h_ret tt
  else
    c <-h ctx_get (fun c => c) ;;
    cid <-h ask env_uuid ;;
    emit (SessionOpened (cx_session_uid c) (ok_opt (WalletAddress_new address))
            (non_empty worker_name ≫= (fun n => ok_opt (WorkerName_new n)))
            (cx_remote_addr c) (option_map to_column (non_empty remote_app)) (ms_connect_time (cx_state c)) cid).

(** [sync_worker_prom_metrics]. *)
Definition sync_worker_prom_metrics : HM (Tx:=Tx) unit :=
  wallet_addr <-h ctx_get cx_wallet_addr ;;
  if is_empty wallet_addr then h_ret tt else activate_client_vardiff.

Definition when {A} (o : option A) (m : A -> HM (Tx:=Tx) unit) : HM (Tx:=Tx) unit :=
  match o with Some a => m a | None => h_ret tt end.

(** The identity an authorize request sets. *)
Definition set_identity (cfg : option ClientConfig) (event : JsonRpcEvent) (address_str : text) : HM (Tx:=Tx) unit :=
  let '(address, worker_name, canxium_address) := parse_username address_str in
  let address := resolve_wallet address in
  when cfg (fun _ => deactivate_client_vardiff) ;;h
  ctx_put (with_wallet_addr address) ;;h
  ctx_put (set_authorized_worker_name worker_name) ;;h
  worker_name <-h ctx_run effective_worker_name ;;
  when cfg (fun _ => sync_worker_prom_metrics) ;;h
  remote_app <-h ctx_get cx_remote_app ;;
  (if is_empty canxium_address then h_ret tt else ctx_put (with_canxium_addr canxium_address)) ;;h
  ctx_put (with_kas_payout (parse_kas_payout (ev_params event !! 1%nat ≫= as_str_value))) ;;h
  when cfg (fun _ => emit_session_opened address worker_name remote_app).

(** [kaspa_api] tells whether a node is attached. *)
Definition handle_authorize (cfg : option ClientConfig) (kaspa_api : bool) (event : JsonRpcEvent) : HM (Tx:=Tx) unit :=
  p0 <-h h_some (head (ev_params event)) MalformedEvent ;;
  address_str <-h h_some (as_str_value p0) MalformedEvent ;;
  set_identity cfg event address_str ;;h
  reply_or_fail (fun w => reply w (JsonRpcResponse_new event (Some (VBool true)) None)) ;;h
  now <-h ask env_instant ;;
  ctx_put (mark_authorized now) ;;h
  extranonce <-h ctx_get cx_extranonce ;;
  remote_app <-h ctx_get cx_remote_app ;;
  let app := to_ascii_lowercase remote_app in
  let common := match cfg with Some cfg => cf_kaspa_common_protocol cfg | None => false end in
  (if negb (is_empty extranonce) && negb (is_bitmain app) && negb (is_iceriver app) && negb common
   then send_extranonce (match cfg with Some cfg => cf_extranonce_with_size cfg | None => false end)
   else h_ret tt) ;;h
  match cfg, kaspa_api with
  | Some cfg, true =>
      port <-h ctx_get cx_local_port ;; send_immediate_job_to_client (seed_for_port cfg port)
  | _, _ => h_ret tt
  end.
End Handshake.
