(* ===== verification/ClientSpec.v ===== *)
(** * What connections are sent and handed out (theorems on [ClientHandler], [Handshake])

    Nonce prefixes, the table of clients, the order of the handshake, payout
    addresses, and the difficulty a job is recorded with. *)
From Stdlib Require Import SpecFloat.
From S2P Require Import Prelude F64 Schema Domain Hasher MiningState Merged StratumRpc ShareGuard StratumContext IngestDb Consumer ShareHandler ShareSpec ClientHandler Handshake.
Open Scope Z_scope.

(** ** Nonce prefixes *)

(** A sequence of requests for the given widths; the prefixes handed out. *)
Fixpoint hand_out (widths : list Z) (counters : list Z) : list (Z * text) :=
  match widths with
  | [] => []
  | w :: widths =>
      let '(s, _, _, counters) := next_extranonce_prefix w counters in
      (w, s) :: hand_out widths counters
  end.

Definition prefixes_of (w : Z) (l : list (Z * text)) : list text :=
  map snd (List.filter (fun e => fst e =? w) l).

Definition counters_ok (counters : list Z) : Prop :=
  length counters = 4%nat /\ forall w, 1 <= w <= 3 -> 0 <= nth (Z.to_nat w) counters 0 <= max_extranonce w.

Definition space (w : Z) : Z := 256 ^ w.

Lemma space_max w : 1 <= w -> max_extranonce w = space w - 1.
Proof. intros H. unfold max_extranonce, space. rewrite Z.pow_mul_r by lia. done. Qed.

Lemma space_pos w : 1 <= w -> 0 < space w.
Proof. intros H. apply Z.pow_pos_nonneg; lia. Qed.

Definition prefix_text (w v : Z) : text := BlockHash_display (to_be_bytes (Z.to_nat w) v).

(** One request moves only its own counter, by one round the circle. *)
Lemma next_prefix w counters :
  1 <= w <= 3 -> counters_ok counters ->
  exists b counters', next_extranonce_prefix w counters =
      (prefix_text w (nth (Z.to_nat w) counters 0), nth (Z.to_nat w) counters 0, b, counters') /\
    counters_ok counters' /\
    nth (Z.to_nat w) counters' 0 = (nth (Z.to_nat w) counters 0 + 1) mod space w /\
    (forall v, 1 <= v <= 3 -> v <> w -> nth (Z.to_nat v) counters' 0 = nth (Z.to_nat v) counters 0).
Proof.
  intros W [L R]. pose proof (R w W) as Rw. pose proof (space_pos w ltac:(lia)) as Sp.
  pose proof (space_max w ltac:(lia)) as Sm.
  unfold next_extranonce_prefix. assert (clamp_Z w 1 3 = w) as -> by (unfold clamp_Z; lia).
  assert (forall v x, 1 <= v <= 3 -> nth (Z.to_nat v) (<[Z.to_nat w := x]> counters) 0 =
    if decide (v = w) then x else nth (Z.to_nat v) counters 0) as N.
  { intros v x Hv. rewrite !nth_lookup. destruct (decide (v = w)) as [->|Ne].
    - rewrite list_lookup_insert_eq by lia. done.
    - rewrite list_lookup_insert_ne by lia. done. }
  eexists _, _. split; [reflexivity|].
  assert ((if nth (Z.to_nat w) counters 0 <? max_extranonce w then nth (Z.to_nat w) counters 0 + 1 else 0) =
          (nth (Z.to_nat w) counters 0 + 1) mod space w) as ->.
  { destruct (Z.ltb_spec (nth (Z.to_nat w) counters 0) (max_extranonce w)).
    - rewrite Z.mod_small; lia.
    - replace (nth (Z.to_nat w) counters 0 + 1) with (space w) by lia. rewrite Z.mod_same; lia. }
  pose proof (Z.mod_pos_bound (nth (Z.to_nat w) counters 0 + 1) (space w) Sp).
  split; [|split].
  - split; [by rewrite length_insert|]. intros v Hv. rewrite N by done. destruct (decide (v = w)) as [->|]; [lia | auto].
  - rewrite N by lia. by rewrite decide_True.
  - intros v Hv Ne. rewrite N by done. by rewrite decide_False.
Qed.

Lemma hand_out_values w widths counters :
  1 <= w <= 3 -> Forall (fun v => 1 <= v <= 3) widths -> counters_ok counters ->
  exists n, prefixes_of w (hand_out widths counters) =
    map (fun k => prefix_text w ((nth (Z.to_nat w) counters 0 + Z.of_nat k) mod space w)) (seq 0 n) /\
    n = length (List.filter (Z.eqb w) widths).
Proof.
  intros W F. revert counters. induction F as [|v widths Hv F IH]; intros counters C; [by exists 0%nat|].
  destruct (next_prefix v counters Hv C) as (b & cs & En & C' & N1 & N2).
  cbn [hand_out]. rewrite En. destruct (IH cs C') as (n & IHn & Ln). unfold prefixes_of in *. cbn [List.filter fst].
  rewrite Z.eqb_sym. cbn [List.filter] in *.
  destruct (Z.eqb_spec w v) as [<-|Ne].
  - exists (S n). cbn [map snd length]. split; [|by rewrite Ln]. rewrite IHn, N1. cbn [seq map].
    f_equal.
    + rewrite Z.add_0_r, Z.mod_small; [done|]. destruct C as [_ R]. pose proof (R w W).
      rewrite space_max in * by lia. lia.
    + rewrite <- seq_shift, map_map. apply map_ext. intros k. f_equal.
      rewrite Zplus_mod_idemp_l. f_equal. lia.
  - exists n. rewrite IHn, N2 by (try done; congruence). done.
Qed.

Lemma hex_display_inj l l' :
  Forall is_byte l -> Forall is_byte l' -> BlockHash_display l = BlockHash_display l' -> l = l'.
Proof.
  intros B. revert l'. induction B as [|b l Hb _ IH]; intros l' B'; destruct B' as [|b' l' Hb' B'];
    unfold BlockHash_display; simpl; [done | discriminate | discriminate|].
  intros H. injection H as H1 H2 H3. f_equal; [|by apply IH].
  apply hex_byte_inj; [done|done|]. unfold hex_byte. congruence.
Qed.

Lemma hex_display_length l : length (BlockHash_display l) = (2 * length l)%nat.
Proof. unfold BlockHash_display. induction l as [|x l IH]; simpl; [done|]. lia. Qed.

Lemma prefix_text_inj w v v' :
  1 <= w -> 0 <= v < space w -> 0 <= v' < space w -> prefix_text w v = prefix_text w v' -> v = v'.
Proof.
  intros W V V' H. unfold prefix_text, to_be_bytes in H.
  apply hex_display_inj in H; [|apply Forall_rev, to_le_byte..].
  apply (f_equal (@rev Z)) in H. rewrite !rev_involutive in H.
  apply (f_equal from_le_bytes) in H. unfold space in *.
  rewrite !from_to_le in H by (rewrite Z2Nat.id; lia). done.
Qed.

(** C22. However requests of different listeners interleave, the nonce prefixes of
    one width are pairwise different, and of that width, until every value of the
    width was handed out once: a narrow port never makes a wide one repeat. *)
Theorem extranonce_prefixes_distinct w widths counters :
  1 <= w <= 3 -> Forall (fun v => 1 <= v <= 3) widths -> counters_ok counters ->
  Z.of_nat (length (List.filter (Z.eqb w) widths)) <= space w ->
  let out := prefixes_of w (hand_out widths counters) in
  NoDup out /\ length out = length (List.filter (Z.eqb w) widths) /\
  Forall (fun s => Z.of_nat (length s) = 2 * w) out.
Proof.
  intros W F C N. cbv zeta. destruct (hand_out_values w widths counters W F C) as (n & -> & En). rewrite <- En in *.
  pose proof (space_pos w ltac:(lia)) as Sp. rewrite length_map, length_seq. split; [|split; [done|]].
  - apply NoDup_fmap_2_strong; [|apply NoDup_seq]. intros k k' Hk Hk' H.
    apply elem_of_seq in Hk, Hk'. apply prefix_text_inj in H; [|lia|apply Z.mod_pos_bound; done..].
    set (c := nth _ _ _) in *.
    assert ((c + Z.of_nat k - (c + Z.of_nat k')) mod space w = 0) as D by (rewrite Zminus_mod, H, Z.sub_diag; done).
    apply Z.mod_divide in D; [|lia]. destruct D as [q D].
    assert (q = 0) by nia. lia.
  - apply Forall_forall. intros s Hs. apply list_elem_of_fmap in Hs as (k & -> & _).
    unfold prefix_text, to_be_bytes. rewrite hex_display_length, length_rev, to_le_length. lia.
Qed.

Lemma counters_start : counters_ok [0; 0; 0; 0].
Proof.
  split; [done|]. intros w H. assert (w = 1 \/ w = 2 \/ w = 3) as [->|[->| ->]] by lia; vm_compute; split; discriminate.
Qed.

Lemma extranonce_prefixes_distinct_witness :
  NoDup (prefixes_of 2 (hand_out [2; 1; 2; 1; 1; 2] [0; 0; 0; 0])).
Proof.
  apply (extranonce_prefixes_distinct 2 [2; 1; 2; 1; 1; 2] [0; 0; 0; 0]);
    [lia | repeat constructor; lia | exact counters_start | vm_compute; discriminate].
Defined.

(** ** The table of clients *)

Section Table.
Context {Tx : Type} `{E : !ShareEnv Tx}.

Lemma on_client_clients {A} uid (m : HM (Tx:=Tx) A) p : pl_clients (on_client uid m p) = pl_clients p.
Proof. unfold on_client. by destruct (pl_conns p !! uid). Qed.

(** Tearing a connection down keeps its id. *)
Lemma deactivate_keeps_id w :
  cx_id (hw_ctx (fst ((deactivate_client_vardiff ;;h ctx_put disconnect) w))) = cx_id (hw_ctx w).
Proof.
  unfold deactivate_client_vardiff, h_bind, ctx_run, release_vardiff_registration. simpl.
  destruct (cx_vardiff_registered (hw_ctx w)); simpl; [|done].
  unfold get_stats_if_exists, h_bind. simpl. by destruct (sh_stats (hw_sh w) !! _).
Qed.

Lemma on_disconnect_clients uid c p :
  pl_conns p !! uid = Some c ->
  pl_clients (on_disconnect uid p) =
    if 0 <? cx_id c then delete (cx_id c) (pl_clients p) else pl_clients p.
Proof.
  intros H. unfold on_disconnect. set (m := (_ ;;h _)). set (p1 := on_client uid m p).
  assert (pl_conns p1 !! uid = Some (hw_ctx (fst (m (mkHW c (pl_share p)))))) as L.
  { unfold p1, on_client. rewrite H. simpl. by rewrite lookup_insert_eq. }
  rewrite L, on_client_clients. unfold remove_client, ctx_id.
  pose proof (deactivate_keeps_id (mkHW c (pl_share p))) as Hid. fold m in Hid. simpl in Hid. rewrite Hid.
  destruct (0 <? cx_id c); simpl; unfold p1; by rewrite on_client_clients.
Qed.

(** A client's entry is removed when it disconnects, except for the very first
    client of a listener: its id is 0, which counts as no id, so its entry (and the
    connection behind it) stays in the table for ever. *)
Theorem first_client_never_removed c p :
  let uid := cx_session_uid c in
  pl_clients (on_disconnect uid (on_connect c p)) !! pl_counter p =
    if 0 <? pl_counter p then None else Some uid.
Proof.
  cbv zeta. rewrite (on_disconnect_clients _ (with_id (pl_counter p) (with_extranonce [] c))).
  - simpl. destruct (0 <? pl_counter p); [by rewrite lookup_delete_eq | by rewrite lookup_insert_eq].
  - unfold on_connect. simpl. by rewrite lookup_insert_eq.
Qed.
End Table.

(** ** The order of the handshake *)

Inductive MsgKind := KResponse | KExtranonce | KDifficulty | KNotify | KOther.

#[export] Instance MsgKind_eq_dec : EqDecision MsgKind.
Proof. solve_decision. Defined.

Definition kind_of_method (m : text) : MsgKind :=
  if bool_decide (m = lit "mining.set_extranonce") then KExtranonce
  else if bool_decide (m = lit "mining.set_difficulty") then KDifficulty
  else if bool_decide (m = lit "mining.notify") then KNotify else KOther.

Definition kind (m : Outgoing) : MsgKind :=
  match m with
  | OResponse _ => KResponse
  | OEvent e => kind_of_method (ev_method e)
  | ONotification m _ | OV1Notification m _ => kind_of_method m
  end.

Section Order.
Context {Tx : Type} `{E : !ShareEnv Tx} `{J : !JobEnv Tx} `{AX : !AuxPowEnv Tx} `{AE : !AddressEnv}.

(** The kinds of the messages [m] sends, with its result, satisfy [Q]. *)
Definition says {A} (m : HM (Tx:=Tx) A) (Q : result A SubmitError -> list MsgKind -> Prop) : Prop :=
  forall w, exists new, cx_sent (hw_ctx (fst (m w))) = cx_sent (hw_ctx w) ++ new /\ Q (snd (m w)) (map kind new).

Definition silent {A} (m : HM (Tx:=Tx) A) : Prop := forall w, cx_sent (hw_ctx (fst (m w))) = cx_sent (hw_ctx w).

Lemma says_silent {A} (m : HM A) Q : silent m -> (forall r, Q r []) -> says m Q.
Proof. intros S H w. exists []. rewrite app_nil_r. auto. Qed.

Lemma says_bind {A B} (m : HM A) (k : A -> HM B) Q1 Q :
  says m Q1 -> (forall e l, Q1 (Err e) l -> Q (Err e) l) ->
  (forall a l1, Q1 (Ok a) l1 -> says (k a) (fun r l2 => Q r (l1 ++ l2))) -> says (h_bind m k) Q.
Proof.
  intros Hm He Hk w. destruct (Hm w) as (n1 & S1 & R1). unfold h_bind.
  destruct (m w) as [w1 [a|e]]; simpl in *; [|exists n1; auto].
  destruct (Hk a _ R1 w1) as (n2 & S2 & R2). exists (n1 ++ n2).
  rewrite S2, S1, app_assoc, map_app. auto.
Qed.

(** A quiet step first. *)
Lemma says_after {A B} (m : HM A) (k : A -> HM B) Q :
  silent m -> (forall e, Q (Err e) []) -> (forall a, says (k a) Q) -> says (h_bind m k) Q.
Proof.
  intros S He Hk. apply (says_bind m k (fun _ l => l = [])); [by apply says_silent| |].
  - intros e l ->. auto.
  - intros a l ->. exact (Hk a).
Qed.

Lemma silent_ret' {A} (a : A) : silent (h_ret a). Proof. by intros w. Qed.
Lemma silent_fail' {A} e : silent (h_fail e : HM A). Proof. by intros w. Qed.
Lemma silent_some' {A} (o : option A) e : silent (h_some o e). Proof. intros w. by destruct o. Qed.
Lemma silent_ctx_get' {A} (f : _ -> A) : silent (ctx_get f). Proof. by intros w. Qed.
Lemma silent_sh_get' {A} (f : _ -> A) : silent (sh_get f). Proof. by intros w. Qed.
Lemma silent_sh_put' f : silent (sh_put f). Proof. by intros w. Qed.
Lemma silent_ask' {A} (f : nat -> A) : silent (ask f). Proof. by intros w. Qed.
Lemma silent_bind' {A B} (m : HM A) (k : A -> HM B) : silent m -> (forall a, silent (k a)) -> silent (h_bind m k).
Proof.
  intros Hm Hk w. specialize (Hm w). unfold h_bind. destruct (m w) as [w1 [a|e]]; simpl in *; [|done].
  by rewrite Hk.
Qed.
Lemma silent_ctx_put' f : (forall c : StratumContext Tx, cx_sent (f c) = cx_sent c) -> silent (ctx_put f).
Proof. intros H w. apply H. Qed.
Lemma silent_ctx_run' {A} (f : StratumContext Tx -> A * StratumContext Tx) :
  (forall c, cx_sent (snd (f c)) = cx_sent c) -> silent (ctx_run f).
Proof. intros H w. unfold ctx_run. specialize (H (hw_ctx w)). by destruct (f (hw_ctx w)). Qed.
End Order.

Lemma sent_ensure {Tx} (c : StratumContext Tx) : cx_sent (ensure_default_worker_name c) = cx_sent c.
Proof. unfold ensure_default_worker_name. by destruct (is_empty _). Qed.

Lemma sent_authorized {Tx} n (c : StratumContext Tx) : cx_sent (set_authorized_worker_name n c) = cx_sent c.
Proof. unfold set_authorized_worker_name. by rewrite sent_ensure. Qed.

Ltac head_of t := match t with ?f _ => head_of f | _ => t end.

(** Walks through a computation that sends nothing. *)
Ltac quiet :=
  repeat first
    [ apply silent_ret' | apply silent_fail' | apply silent_some' | apply silent_ctx_get' | apply silent_sh_get'
    | apply silent_sh_put' | apply silent_ask'
    | apply silent_ctx_put'; intros; simpl; rewrite ?sent_authorized, ?sent_ensure; reflexivity
    | apply silent_ctx_run'; intros; simpl; rewrite ?sent_authorized, ?sent_ensure; reflexivity
    | apply silent_bind'; [|intros]
    | match goal with
      | |- silent (let (_, _) := ?x in _) => destruct x
      | |- silent (match ?x with _ => _ end) => destruct x
      | |- silent ?m => let h := head_of m in unfold h
      end ].

Section Messages.
Context {Tx : Type} `{E : !ShareEnv Tx} `{J : !JobEnv Tx} `{AX : !AuxPowEnv Tx} `{AE : !AddressEnv}.

(** A send says its message when it succeeds, and nothing else. *)
Definition one_message (k : MsgKind) (r : result bool SubmitError) (l : list MsgKind) : Prop :=
  exists b, r = Ok b /\ l = if b then [k] else [].

Lemma says_send (f : (nat -> WriteAttempt) -> StratumContext Tx -> bool * StratumContext Tx) m :
  (forall wr c, f wr c = (false, c) \/ f wr c = write_data wr m c) -> says (send_reply f) (one_message (kind m)).
Proof.
  intros H w. unfold send_reply, h_bind, ask, ctx_run. simpl.
  destruct (H (env_write (sh_calls (hw_sh w))) (hw_ctx w)) as [-> | ->].
  - exists []. simpl. rewrite app_nil_r. split; [done|]. by exists false.
  - destruct (write_data_sent (env_write (sh_calls (hw_sh w))) m (hw_ctx w)) as (S & _).
    destruct (write_data _ m (hw_ctx w)) as [b c']. simpl in *. exists (if b then [m] else []).
    split; [done|]. exists b. split; [done|]. by destruct b.
Qed.

Lemma says_event e : says (ctx_send_event (Tx:=Tx) e) (one_message (kind (OEvent e))).
Proof. apply says_send. intros wr c. unfold ctx_send. destruct (cx_disconnecting c); auto. Qed.

Lemma says_notify method params :
  says (ctx_notify (Tx:=Tx) method params) (one_message (kind (ONotification method params))).
Proof. apply says_send. intros wr c. unfold send_notification. destruct (cx_disconnecting c); auto. Qed.

Lemma says_reply r : says (reply_or_fail (Tx:=Tx) (fun wr => reply wr r))
  (fun res l => (res = Ok tt /\ l = [KResponse]) \/ (res = Err ReplyFailed /\ l = [])).
Proof.
  unfold reply_or_fail. eapply says_bind.
  - apply (says_send _ (OResponse r)). intros wr c. unfold reply. destruct (cx_disconnecting c); auto.
  - intros e l (b & [=] & _).
  - intros a l (b & [= ->] & ->). destruct b; intros w; exists []; rewrite app_nil_r; auto.
Qed.

Lemma says_weaken {A} (m : HM (Tx:=Tx) A) (Q Q' : _ -> _ -> Prop) :
  says m Q -> (forall r l, Q r l -> Q' r l) -> says m Q'.
Proof. intros H HQ w. destruct (H w) as (n & S & R). exists n. auto. Qed.

Lemma says_publish minimal ice id h ts :
  says (publish_job (Tx:=Tx) minimal ice id h ts) (fun _ l => l = [] \/ l = [KNotify]).
Proof.
  unfold publish_job. apply says_after; [quiet | auto | intros big].
  apply says_after; [quiet | auto | intros params].
  eapply (says_bind _ _ (one_message KNotify)).
  - unfold send_job. destruct minimal; [apply says_notify | apply says_event].
  - intros e l (b & [=] & _).
  - intros a l (b & _ & ->). apply says_silent; [destruct a; quiet|]. intros r. rewrite app_nil_r. destruct b; auto.
Qed.

Definition work_order (l : list MsgKind) : Prop := l `prefix_of` [KDifficulty; KNotify].

Lemma work_order_nil : work_order []. Proof. by exists [KDifficulty; KNotify]. Qed.
Lemma work_order_one : work_order [KDifficulty]. Proof. by exists [KNotify]. Qed.
Lemma work_order_two : work_order [KDifficulty; KNotify]. Proof. by exists []. Qed.
Hint Resolve work_order_nil work_order_one work_order_two : core.

Lemma silent_get_create_stats : silent (get_create_stats (Tx:=Tx)).
Proof. quiet. Qed.

Lemma silent_fetch_template : silent (fetch_template (Tx:=Tx)).
Proof.
  intros w. unfold fetch_template, h_bind, ctx_get, next_template_generation. simpl.
  by destruct (checked_u64 (cx_template_generation (hw_ctx w) + 1)).
Qed.

Lemma says_immediate_job d b : says (immediate_job (Tx:=Tx) d b) (fun _ l => work_order l).
Proof.
  unfold immediate_job. do 6 (apply says_after; [quiet | auto | intros ?]).
  eapply says_bind; [apply says_event | intros e l (x & [=] & _) |].
  intros ok l (x & [= ->] & ->). destruct x; simpl.
  - eapply says_bind; [apply says_publish | |].
    + intros e l [-> | ->]; auto.
    + intros aa l Hl. apply says_silent; [quiet|]. intros r. rewrite app_nil_r. destruct Hl as [-> | ->]; auto.
  - apply says_silent; [quiet | auto].
Qed.

Lemma says_immediate seed : says (send_immediate_job_to_client (Tx:=Tx) seed) (fun _ l => work_order l).
Proof.
  unfold send_immediate_job_to_client. apply says_after; [quiet | auto | intros c].
  destruct (is_empty _ || _); [apply says_silent; [quiet | auto]|].
  apply says_after; [quiet | auto | intros d]. apply says_after; [quiet | auto | intros _].
  apply says_after; [apply silent_fetch_template | auto | intros r].
  destruct r; [apply says_immediate_job | apply says_silent; [quiet | auto]].
Qed.

Lemma says_extranonce sized : says (send_extranonce (Tx:=Tx) sized)
  (fun r l => (l = [KExtranonce] \/ l = []) /\ (r = Ok tt -> l = [KExtranonce])).
Proof.
  unfold send_extranonce. do 3 (apply says_after; [quiet | intros; split; [auto | discriminate] | intros ?]).
  eapply (says_bind _ _ (one_message KExtranonce)).
  - destruct (contains _ _); [apply says_notify | apply says_event].
  - intros e l (b & [=] & _).
  - intros ok l (b & [= ->] & ->). destruct b; intros w; exists []; rewrite app_nil_r; simpl; auto.
    split; [done|]. split; [auto | discriminate].
Qed.

(** Authorizing a connection sends, whatever fails on the way, at most: the
    response, then (for miners that take it here) the nonce prefix, then the
    difficulty, then the first job, and nothing after the first message that could
    not be written. *)
Theorem authorize_message_order cfg api event :
  says (handle_authorize (Tx:=Tx) cfg api event) (fun _ l =>
    l `prefix_of` [KResponse; KExtranonce; KDifficulty; KNotify] \/ l `prefix_of` [KResponse; KDifficulty; KNotify]).
Proof.
  assert (forall l, work_order l -> KResponse :: l `prefix_of` [KResponse; KDifficulty; KNotify]) as P1
    by (intros l [k Hk]; exists k; simpl; congruence).
  assert (forall l, work_order l -> KResponse :: KExtranonce :: l `prefix_of` [KResponse; KExtranonce; KDifficulty; KNotify]) as P2
    by (intros l [k Hk]; exists k; simpl; congruence).
  unfold handle_authorize. do 3 (apply says_after; [quiet | intros; right; apply prefix_nil | intros ?]).
  eapply says_bind; [apply says_reply | |].
  { intros e l [[[=] _]|[_ ->]]. right. apply prefix_nil. }
  intros [] l [[_ ->]|[[=] _]]. do 4 (apply says_after; [quiet | intros; right; apply (P1 []), work_order_nil | intros ?]).
  cbv zeta. eapply (says_bind _ _ (fun r l => (l = [KExtranonce] \/ l = []))).
  - destruct (_ && _); [|apply says_silent; [quiet | auto]]. eapply says_weaken; [apply says_extranonce|].
    intros r l [H _]. exact H.
  - intros e l [-> | ->]; [left; apply (P2 []) | right; apply (P1 [])]; auto.
  - intros a' l Hl. simpl.
    assert (says (match cfg, api with Some cfg, true => h_bind (ctx_get cx_local_port) (fun port => send_immediate_job_to_client (seed_for_port cfg port)) | _, _ => h_ret tt end : HM (Tx:=Tx) unit) (fun _ l => work_order l)) as K.
    { destruct cfg as [cfg|]; [|apply says_silent; [quiet | auto]]. destruct api; [|apply says_silent; [quiet | auto]].
      apply says_after; [quiet | auto | intros port]. apply says_immediate. }
    eapply says_weaken; [exact K|]. intros r l2 W. simpl. destruct Hl as [-> | ->]; simpl; auto.
Qed.
End Messages.

(** ** Addresses *)

Section Wallets.
Context `{AE : !AddressEnv}.

Lemma clean_wallet_decodes s a : clean_wallet s = Some a -> address_ok a = true.
Proof.
  unfold clean_wallet. destruct (address_ok s) eqn:O; [by intros [= <-]|].
  destruct (List.find address_ok _) eqn:F; [intros [= <-]; apply find_some in F as [_ F]; exact F|].
  intros H. apply find_some in H as [_ H]. exact H.
Qed.

Lemma split_dot_free s : Forall (fun c => c <> 46) s -> split_on_dot s = [s].
Proof.
  unfold split_on_dot. induction 1 as [|c s Hc _ IH]; [done|]. cbn [split_at]. rewrite IH.
  destruct (Z.eqb_spec 46 c); [congruence | done].
Qed.

Lemma split_at_cons sep s : exists p ps, split_at sep s = p :: ps.
Proof.
  induction s as [|c s (p & ps & E)]; cbn [split_at]; [by eexists _, _|]. rewrite E. destruct (sep c); by eexists _, _.
Qed.

Lemma split_on_dot_app s t : Forall (fun c => c <> 46) s -> split_on_dot (s ++ 46 :: t) = s :: split_on_dot t.
Proof.
  unfold split_on_dot. intros H. induction H as [|c s Hc _ IH]; cbn [app split_at].
  - destruct (split_at_cons (Z.eqb 46) t) as (p & ps & ->). done.
  - rewrite IH. destruct (Z.eqb_spec 46 c); [congruence | done].
Qed.

(** The wallet of a username is always a decodable address or the pool's own:
    a decodable address in front of the first dot is taken as it is, with the text
    up to the next dot as worker, and a username that yields no decodable address
    falls back to the pool. *)
Theorem username_wallet (address worker : text) :
  (address_ok (resolve_wallet address) = true \/ resolve_wallet address = pool_fallback_address) /\
  (Forall (fun c => c <> 46) address -> Forall (fun c => c <> 46) worker -> address_ok address = true ->
   let '(a, w, _) := parse_username (address ++ 46 :: worker) in resolve_wallet a = address /\ w = worker).
Proof.
  split.
  - unfold resolve_wallet. destruct (clean_wallet address) eqn:C; [left; by eapply clean_wallet_decodes | by right].
  - intros D W O. unfold parse_username. rewrite split_on_dot_app, split_dot_free by done. simpl.
    unfold resolve_wallet, clean_wallet. by rewrite O.
Qed.

Lemma trim_start_keeps x s : is_whitespace x = false -> x ∈ s -> x ∈ trim_start s.
Proof.
  intros W. induction s as [|c s IH]; simpl; [done|]. intros H. destruct (is_whitespace c) eqn:Wc; [|done].
  apply elem_of_cons in H as [<-|H]; [congruence | auto].
Qed.

Lemma elem_of_rev_iff (x : Z) s : x ∈ rev s <-> x ∈ s.
Proof. rewrite !list_elem_of_In. symmetry. apply in_rev. Qed.

Lemma trim_keeps x s : is_whitespace x = false -> x ∈ s -> x ∈ trim s.
Proof.
  intros W H. unfold trim. apply elem_of_rev_iff, trim_start_keeps; [done|].
  apply elem_of_rev_iff, trim_start_keeps; done.
Qed.

(** The first part of a split keeps what stands before every separator. *)
Lemma split_first sep x s t :
  Forall (fun c => sep c = false) s -> sep x = false -> exists p ps, split_at sep (s ++ x :: t) = p :: ps /\ x ∈ p.
Proof.
  intros F X. induction F as [|c s Hc _ IH]; simpl.
  - destruct (split_at sep t) as [|p ps]; rewrite ?X; eexists _, _; (split; [done|]); left.
  - destruct IH as (p & ps & -> & Hp). rewrite Hc. eexists _, _. split; [done|]. by right.
Qed.

Lemma trim_start_inner x u v : is_whitespace x = false -> exists u', trim_start (u ++ x :: v) = u' ++ x :: v.
Proof.
  intros X. induction u as [|c u [u' IH]]; simpl; [rewrite X; by exists []|].
  destruct (is_whitespace c); [by exists u' | by exists (c :: u)].
Qed.

(** A payout address with a worker appended, [address.worker], pays the pool:
    only commas and spaces end the address in the password field, so the text after
    the dot makes the address undecodable and the miner's choice is dropped. *)
Theorem payout_with_worker_pays_pool (payload worker : text) :
  (forall a, 46 ∈ a -> address_ok a = false) ->
  Forall (fun c => (c =? 44) || (c =? 32) = false) payload ->
  parse_kas_payout (Some (lit "kaspa:" ++ payload ++ 46 :: worker)) = None.
Proof.
  intros Codec Free. unfold parse_kas_payout. rewrite app_assoc.
  assert (exists address, lit "kaspa:" ++ payload = 107 :: address /\
    Forall (fun c => (c =? 44) || (c =? 32) = false) (107 :: address)) as (address & -> & Seps).
  { exists (lit "aspa:" ++ payload). split; [done|]. constructor; [done|]. apply Forall_app. split; [|done].
    repeat constructor. }
  clear Free payload.
  assert (exists worker', trim ((107 :: address) ++ 46 :: worker) = (107 :: address) ++ 46 :: worker') as [w' ->].
  { unfold trim. change (trim_start ((107 :: address) ++ 46 :: worker)) with ((107 :: address) ++ 46 :: worker).
    assert (forall u v : text, rev (u ++ 46 :: v) = rev v ++ 46 :: rev u) as R
      by (intros u v; rewrite rev_app_distr; cbn [rev]; by rewrite <- app_assoc).
    rewrite R. destruct (trim_start_inner 46 (rev worker) (rev (107 :: address)) eq_refl) as [u' ->].
    exists (rev u'). rewrite R, rev_involutive. done. }
  destruct (is_placeholder_password _); [done|].
  destruct (split_first (fun c => (c =? 44) || (c =? 32)) 46 (107 :: address) w' Seps eq_refl) as (p & ps & Es & Hp).
  cbv zeta. rewrite Es. simpl default.
  destruct (negb _); [done|]. rewrite Codec; [done|]. apply trim_keeps; done.
Qed.
End Wallets.

(** A codec that accepts what has the shape of an address. *)
Definition shape_ok (a : text) : bool :=
  starts_with (lit "kaspa:") a && forallb (fun c => is_ascii_lowercase c || is_ascii_digit c || (c =? 58)) a.

#[local] Instance shape_env : AddressEnv := {|
  address_ok := shape_ok;
  address_form := fun a => a;
  wallet_matches := fun _ => [];
  pool_fallback_address := lit "zkas:pool"
|}.

Lemma payout_with_worker_pays_pool_witness :
  parse_kas_payout (Some (lit "kaspa:qqabc")) = Some (lit "kaspa:qqabc") /\
  parse_kas_payout (Some (lit "kaspa:" ++ lit "qqabc" ++ 46 :: lit "rig1")) = None.
Proof.
  split; [reflexivity|]. apply (payout_with_worker_pays_pool (lit "qqabc") (lit "rig1")).
  - intros a H. simpl. unfold shape_ok. apply andb_false_iff. right. apply not_true_iff_false. intros F.
    rewrite forallb_forall in F. apply list_elem_of_In in H. apply F in H. discriminate H.
  - repeat constructor.
Defined.

(** ** The difficulty a job is recorded with *)

(** The work of a nonce is the nonce itself, scaled; templates differ by their time
    stamp; everything else goes well. *)
#[local] Instance var_env : ShareEnv unit := {|
  api_merged_fc_target := fun _ _ => None;
  api_merged_chain_hash := fun _ _ => None;
  api_merged_zkas_daa := fun _ _ => None;
  api_submit_merged_parent := fun _ _ => NotMerged;
  api_claim_network_solution := fun _ _ => true;
  api_submit_block := fun _ _ => Ok SubmitAccepted;
  api_block_color := fun _ _ => Ok true;
  env_meanwhile := fun _ s => s;
  env_instant := Z.of_nat;
  env_unix_ms := fun _ => 0;
  env_utc := Z.of_nat;
  env_write := fun _ _ => Written;
  env_uuid := fun _ => EmptyString;
  check_pow := fun _ n => (false, n * 2 ^ 160);
  header_hash := fun _ => repeat 0 32;
  hash_text := BlockHash_display;
  hex_decode := fun _ => None
|}.

#[local] Instance var_jobs : JobEnv unit := {|
  api_get_block_template := fun n _ => Ok (mkBlk (demo_header (Z.of_nat n)) []);
  api_refresh_merged_parent := fun _ _ _ => Ok None;
  api_merged_lane_paid_pool := fun _ _ => false;
  block_hasher := fun _ => repeat 7 32;
  env_lock := fun _ => true
|}.

Definition var_config : ClientConfig := mkClientConfig (f64_of_Z 16384) ∅ 2 false false true.

Definition authorize_event : JsonRpcEvent :=
  mkEvent (Some (VNumber (PosInt 2))) (lit "2.0") (lit "mining.authorize") [VString (demo_wallet 113 ++ lit ".rig1")].

(** Authorized at 16384 and idle for twenty seconds, so that the controller halves
    the difficulty. *)
Definition var_authorized : HW :=
  fst (handle_authorize (Some var_config) true authorize_event
         (demo_world (ctx_new (lit "10.0.0.1") 5555 16110 1 (mining_new 0)))).
Definition var_lowered : HW :=
  mkHW (hw_ctx var_authorized) (vardiff_tick (fun x => x) 20 false (secs 20) (hw_sh var_authorized)).
Definition next_job (w : HW) : HW := fst (new_block_task (f64_of_Z 16384) w).

Definition last_difficulty (c : StratumContext unit) : option Value :=
  last (omap (fun m => match m with
                       | OEvent e => if bool_decide (kind m = KDifficulty) then head (ev_params e) else None
                       | _ => None
                       end) (cx_sent c)).

Definition job_difficulty (c : StratumContext unit) (id : Z) : option f64 :=
  option_map kd_diff_value (job_diff_of (cx_state c) id).

Definition rejections (s : ShareHandler) : list ShareRejectReason :=
  omap (fun e => match e with ShareRejected _ _ r _ _ => Some r | _ => None end) (sh_events s).

Definition credited (s : ShareHandler) : list f64 :=
  omap (fun e => match e with ShareCredited _ _ d _ _ _ => Some d | _ => None end) (sh_events s).

(** A job is recorded with the difficulty in force before the one announced
    with it.  When the controller halves the difficulty to 8192, the miner is told
    8192 and then sent job 2, which is recorded at 16384: a share of job 2 that
    meets the announced difficulty is rejected as low, while the same work on job 3
    is credited at 8192. *)
Theorem announced_difficulty_not_applied :
  let w2 := next_job var_lowered in
  let w3 := next_job w2 in
  last_difficulty (hw_ctx w2) = Some (VNumber (PosInt 8192)) /\
  job_difficulty (hw_ctx w2) 2 = Some (f64_of_Z 16384) /\
  last_difficulty (hw_ctx w3) = Some (VNumber (PosInt 8192)) /\
  job_difficulty (hw_ctx w3) 3 = Some (f64_of_Z 8192) /\
  rejections (hw_sh (fst (handle_submit (demo_submit "2" "0006000000000000") w2))) = [LowDifficulty] /\
  credited (hw_sh (fst (handle_submit (demo_submit "3" "0006000000000000") w3))) = [f64_of_Z 8192].
Proof. vm_compute. repeat split. Qed.
