(* ===== verification/Utf8.v ===== *)
(** * UTF-8 as the standard library decodes it

    [String::from_utf8_lossy] on bytes: every maximal prefix of an ill-formed
    sequence becomes one replacement character.  [utf8_encode] is the encoding of
    a [str]; decoding inverts it on Unicode scalar values. *)
From S2P Require Import Prelude F64 Schema Domain.
Open Scope Z_scope.

Definition REPLACEMENT : Z := 65533.

(** ** Decoding *)

Definition between (lo hi b : Z) : bool := (lo <=? b) && (b <=? hi).
Definition continuation (b : Z) : bool := between 128 191 b.

(** The second byte of a sequence of three and of four: no overlong forms, no
    surrogates, nothing above U+10FFFF. *)
Definition second_of_3 (b0 b1 : Z) : bool :=
  if b0 =? 224 then between 160 191 b1 else if b0 =? 237 then between 128 159 b1 else continuation b1.
Definition second_of_4 (b0 b1 : Z) : bool :=
  if b0 =? 240 then between 144 191 b1 else if b0 =? 244 then between 128 143 b1 else continuation b1.

Fixpoint from_utf8_lossy (b : bytes) : text :=
  match b with
  | [] => []
  | b0 :: t0 =>
      let bad := REPLACEMENT :: from_utf8_lossy t0 in
      if b0 <? 128 then b0 :: from_utf8_lossy t0
      else match t0 with
      | [] => [REPLACEMENT]
      | b1 :: t1 =>
          if between 194 223 b0 then
            if continuation b1 then (b0 - 192) * 64 + (b1 - 128) :: from_utf8_lossy t1 else bad
          else if between 224 239 b0 then
            if second_of_3 b0 b1 then
              match t1 with
              | [] => [REPLACEMENT]
              | b2 :: t2 =>
                  if continuation b2
                  then ((b0 - 224) * 64 + (b1 - 128)) * 64 + (b2 - 128) :: from_utf8_lossy t2
                  else REPLACEMENT :: from_utf8_lossy t1
              end
            else bad
          else if between 240 244 b0 then
            if second_of_4 b0 b1 then
              match t1 with
              | [] => [REPLACEMENT]
              | b2 :: t2 =>
                  if continuation b2 then
                    match t2 with
                    | [] => [REPLACEMENT]
                    | b3 :: t3 =>
                        if continuation b3
                        then (((b0 - 240) * 64 + (b1 - 128)) * 64 + (b2 - 128)) * 64 + (b3 - 128)
                               :: from_utf8_lossy t3
                        else REPLACEMENT :: from_utf8_lossy t2
                    end
                  else REPLACEMENT :: from_utf8_lossy t1
              end
            else bad
          else bad
      end
  end.

(** ** Encoding *)

Definition utf8_char (c : Z) : bytes :=
  if c <? 128 then [c]
  else if c <? 2048 then [192 + c / 64; 128 + c mod 64]
  else if c <? 65536 then [224 + c / 4096; 128 + (c / 64) mod 64; 128 + c mod 64]
  else [240 + c / 262144; 128 + (c / 4096) mod 64; 128 + (c / 64) mod 64; 128 + c mod 64].

Definition utf8_encode (s : text) : bytes := flat_map utf8_char s.

Definition scalar (c : Z) : Prop := 0 <= c < 55296 \/ 57344 <= c < 1114112.

(** ** Round trip *)

Ltac euclid := Z.div_mod_to_equations; lia.

Lemma between_true lo hi b : lo <= b <= hi -> between lo hi b = true.
Proof. unfold between. intros. apply andb_true_iff. rewrite !Z.leb_le. lia. Qed.

Lemma between_false lo hi b : b < lo \/ hi < b -> between lo hi b = false.
Proof. unfold between. intros. apply andb_false_iff. rewrite !Z.leb_gt. lia. Qed.

Lemma continuation_low c : continuation (128 + c mod 64) = true.
Proof. apply between_true. pose proof (Z.mod_pos_bound c 64). lia. Qed.

Lemma second_of_3_encoded c :
  2048 <= c < 55296 \/ 57344 <= c < 65536 -> second_of_3 (224 + c / 4096) (128 + (c / 64) mod 64) = true.
Proof.
  intros H. unfold second_of_3.
  destruct (Z.eqb_spec (224 + c / 4096) 224); [apply between_true; euclid|].
  destruct (Z.eqb_spec (224 + c / 4096) 237); [apply between_true; euclid|]. apply continuation_low.
Qed.

Lemma second_of_4_encoded c :
  65536 <= c < 1114112 -> second_of_4 (240 + c / 262144) (128 + (c / 4096) mod 64) = true.
Proof.
  intros H. unfold second_of_4.
  destruct (Z.eqb_spec (240 + c / 262144) 240); [apply between_true; euclid|].
  destruct (Z.eqb_spec (240 + c / 262144) 244); [apply between_true; euclid|]. apply continuation_low.
Qed.

Lemma decode_char c rest : scalar c -> from_utf8_lossy (utf8_char c ++ rest) = c :: from_utf8_lossy rest.
Proof.
  intros H. unfold scalar in H. unfold utf8_char.
  destruct (Z.ltb_spec c 128) as [L|L]; [cbn; now rewrite (proj2 (Z.ltb_lt _ _) L)|].
  destruct (Z.ltb_spec c 2048); [|destruct (Z.ltb_spec c 65536)]; cbn [app from_utf8_lossy].
  - rewrite (proj2 (Z.ltb_ge _ _)) by euclid. rewrite between_true by euclid. rewrite continuation_low. f_equal. euclid.
  - rewrite (proj2 (Z.ltb_ge _ _)) by euclid. rewrite (between_false 194 223), (between_true 224 239) by euclid.
    rewrite second_of_3_encoded, continuation_low by lia. f_equal. euclid.
  - rewrite (proj2 (Z.ltb_ge _ _)) by euclid.
    rewrite (between_false 194 223), (between_false 224 239), (between_true 240 244) by euclid.
    rewrite second_of_4_encoded, !continuation_low by lia. f_equal. euclid.
Qed.

Lemma decode_encode s : Forall scalar s -> from_utf8_lossy (utf8_encode s) = s.
Proof.
  induction 1 as [|c s Hc _ IH]; [done|]. unfold utf8_encode in *. cbn [flat_map].
  now rewrite decode_char, IH.
Qed.

Lemma length_utf8_char c : Z.of_nat (length (utf8_char c)) = utf8_width c.
Proof. unfold utf8_char, utf8_width. repeat case_match; done. Qed.

Lemma len_encode s : Z.of_nat (length (utf8_encode s)) = len s.
Proof.
  induction s as [|c s IH]; [done|]. unfold utf8_encode, len in *. cbn [flat_map map sumZ].
  rewrite length_app, Nat2Z.inj_add, length_utf8_char. lia.
Qed.

(** Removing the zero bytes removes the zero characters. *)
Lemma filter_zero_encode s : Forall scalar s ->
  List.filter (fun b => negb (b =? 0)) (utf8_encode s) = utf8_encode (List.filter (fun c => negb (c =? 0)) s).
Proof.
  induction 1 as [|c s Hc _ IH]; [done|]. unfold utf8_encode in *. cbn [flat_map List.filter].
  rewrite List.filter_app, IH.
  destruct (Z.eqb_spec c 0) as [->|Hn]; [done|]. cbn [negb flat_map]. f_equal.
  unfold scalar in Hc. unfold utf8_char.
  repeat case_match; cbn [List.filter];
    repeat match goal with |- context [?b =? 0] => destruct (Z.eqb_spec b 0); [exfalso; repeat match goal with
      H : (_ <? _) = _ |- _ => apply Z.ltb_lt in H || apply Z.ltb_ge in H end; euclid|] end; done.
Qed.
