(* ===== verification/Listener.v ===== *)
(** * The stratum listener ([bridge/src/{stratum_listener,stratum_server}.rs])

    Accepting a connection (PROXY header, connection cap), cutting its byte
    stream into lines, the frame limit, the dispatch to the handlers and the
    teardown.  The read loop is a function of the results of its reads; what it
    does with a line is a parameter of the framing, instantiated afterwards. *)
From Stdlib Require Import SpecFloat.
From S2P Require Import Prelude F64 Schema Domain Utf8 Hasher MiningState Merged AntiAbuse StratumRpc ShareGuard StratumContext IngestDb SessionDb Consumer ShareHandler ClientHandler Handshake.
Open Scope Z_scope.

(** ** Limits *)

Definition PRE_AUTH_IDLE_TIMEOUT : Z := secs 60.

Definition should_drop_for_idle (is_authorized : bool) (elapsed : Z) : bool :=
  negb is_authorized && (PRE_AUTH_IDLE_TIMEOUT <=? elapsed).

Definition MAX_STRATUM_LINE_BYTES : Z := 64 * 1024.

(** [None] when the data does not fit. *)
Definition append_line_data (line_buffer data : text) : option text :=
  if MAX_STRATUM_LINE_BYTES <? len line_buffer + len data then None else Some (line_buffer ++ data).

(** ** PROXY protocol *)

Inductive ProxyV2Source := Client (ip : text) (port : Z) | HealthCheck.

(** [ppp::v2::Addresses]. *)
Inductive Addresses := IPv4 (ip : text) (port : Z) | IPv6 (ip : text) (port : Z) | Unspecified | Unix.

Inductive ProxyError := ReadFixed | NotV2 | ReadAddress | ParseFailed | UnsupportedFamily | ProxyTimedOut.

Definition SIG : bytes := [13; 10; 13; 10; 0; 13; 10; 81; 85; 73; 84; 10].

(** [AsyncReadExt::read_exact] on what arrives before the deadline; [ended] tells
    whether the peer closed the stream then.  With the bytes left in the socket. *)
Definition read_exact (n : nat) (ended : bool) (e : ProxyError) (stream : bytes) : result bytes ProxyError * bytes :=
  if (n <=? length stream)%nat then (Ok (firstn n stream), skipn n stream)
  else (Err (if ended then e else ProxyTimedOut), []).

(** [try_from] is the header parser of the [ppp] crate. *)
Definition read_proxy_v2_source (try_from : bytes -> option Addresses) (ended : bool) (stream : bytes)
  : result ProxyV2Source ProxyError * bytes :=
  match read_exact 16 ended ReadFixed stream with
  | (Err e, rest) => (Err e, rest)
  | (Ok fixed, rest) =>
      if negb (bool_decide (firstn 12 fixed = SIG)) then (Err NotV2, rest)
      else
        let addr_len := nth 14 fixed 0 * 256 + nth 15 fixed 0 in
        match read_exact (Z.to_nat addr_len) ended ReadAddress rest with
        | (Err e, rest) => (Err e, rest)
        | (Ok address, rest) =>
            (match try_from (fixed ++ address) with
             | None => Err ParseFailed
             | Some (IPv4 ip port) => Ok (Client ip port)
             | Some (IPv6 ip port) => Ok (Client ip port)
             | Some Unspecified => Ok HealthCheck
             | Some Unix => Err UnsupportedFamily
             end, rest)
        end
  end.

(** ** Framing *)

(** [message.lines().next().unwrap_or("").trim()]. *)
Fixpoint before_newline (s : text) : text :=
  match s with
  | [] => []
  | c :: s => if c =? 10 then [] else c :: before_newline s
  end.
Definition first_line (message : text) : text := trim (before_newline message).

(** Requests of other protocols. *)
Definition is_http (line : text) : bool :=
  existsb (fun p => starts_with (lit p) line)
    ["PRI * HTTP/2.0"; "PRI * HTTP/2"; "GET "; "POST "; "PUT "; "DELETE "; "HEAD "; "OPTIONS "]%string
  || bool_decide (line = lit "SM").

Inductive ReadResult :=
| ReadEof
| ReadData (now : Z) (buffer : bytes)
| ReadFailed
| ReadTimeout (now : Z).

(** The locals of the read loop. *)
Record Reader := mkReader { rd_line_buffer : text; rd_first_message : bool; rd_last_activity : Z }.

Section Framing.
Context {S : Type}.
Variables (is_connected is_authorized : S -> bool) (drop : S -> S).
(** What is done with a line; [false] leaves the loop over the lines. *)
Variable handle : text -> S -> S * bool.

(** The loop over the complete lines of the buffer; [line_rev] is the part of the
    current line already scanned, reversed. *)
Fixpoint drain (line_rev rest : text) (s : S) : S * text :=
  match rest with
  | [] => (s, rev line_rev)
  | c :: rest =>
      if c =? 10 then
        let line := trim (rev line_rev) in
        let (s, go) := if is_empty line then (s, true) else handle line s in
        if go then drain [] rest s else (s, rest)
      else drain (c :: line_rev) rest s
  end.

(** One turn of the read loop; [None] leaves it. *)
Definition read_step (r : ReadResult) (s : S) (rd : Reader) : S * option Reader :=
  if negb (is_connected s) then (s, None)
  else match r with
  | ReadEof | ReadFailed => (s, None)
  | ReadTimeout now =>
      if should_drop_for_idle (is_authorized s) (duration_since now (rd_last_activity rd))
      then (s, None) else (s, Some rd)
  | ReadData now buffer =>
      let data := from_utf8_lossy (List.filter (fun b => negb (b =? 0)) buffer) in
      if rd_first_message rd && is_http (first_line data) then (drop s, None)
      else
        match append_line_data (rd_line_buffer rd) data with
        | None => (drop s, None)
        | Some line_buffer =>
            let (s, rest) := drain [] line_buffer s in
            (s, Some (mkReader rest false now))
        end
  end.

Fixpoint read_loop (reads : list ReadResult) (s : S) (rd : Reader) : S * option Reader :=
  match reads with
  | [] => (s, Some rd)
  | r :: reads =>
      match read_step r s rd with
      | (s, Some rd) => read_loop reads s rd
      | (s, None) => (s, None)
      end
  end.
End Framing.

(** ** The server *)

Record Net (Tx : Type) := mkNet { nt_pool : Pool Tx; nt_guard : AntiAbuseGuard }.
Arguments mkNet {Tx} _ _.
Arguments nt_pool {Tx} _.
Arguments nt_guard {Tx} _.

Section Server.
Context {Tx : Type} `{E : !ShareEnv Tx} `{J : !JobEnv Tx} `{AX : !AuxPowEnv Tx} `{A : !AddressEnv}.
(** [serde_json::from_str] for requests. *)
Context {F : Type} (from_str : text -> result JsonRpcEvent F).
Variable cfg : ClientConfig.
Implicit Types (n : Net Tx) (p : Pool Tx).

Definition with_pool (f : Pool Tx -> Pool Tx) n : Net Tx := mkNet (f (nt_pool n)) (nt_guard n).

(** The handler map of the server: a method without a handler is ignored. *)
Definition dispatch (uid : Z) (event : JsonRpcEvent) : Pool Tx -> Pool Tx :=
  match method_enum event with
  | Subscribe => handle_subscribe (Some cfg) uid event
  | ExtranonceSubscribe => on_client uid (handle_extranonce_subscribe event)
  | Authorize => on_client uid (handle_authorize (Some cfg) true event)
  | Submit => on_client uid (handle_submit event)
  | _ => fun p => p
  end.

(** The clock is read at the call index of the share handler. *)
Definition tick p : Z * Pool Tx :=
  let k := sh_calls (pl_share p) in
  (env_instant k,
   mkPool (pl_clients p) (pl_counter p) (pl_conns p) (with_calls (Datatypes.S k) (pl_share p)) (pl_extranonce p)
     (pl_last_template_time p)).

Definition drop_client (uid : Z) : Net Tx -> Net Tx := with_pool (on_client uid (ctx_put disconnect)).

(** An address is the text it is displayed as. *)
Definition handle_line (uid : Z) (remote_ip : string) (line : text) n : Net Tx * bool :=
  if is_http line then (drop_client uid n, false)
  else
    let (now, p) := tick (nt_pool n) in
    let (ok, g) := try_consume_frame (nt_guard n) remote_ip now in
    let n := mkNet p g in
    if ok then
      match unmarshal_event from_str line with
      | Ok event => (with_pool (dispatch uid event) n, true)
      | Err _ => (n, true)
      end
    else (drop_client uid n, false).

Definition net_connected (uid : Z) n : bool := client_connected (nt_pool n) uid.

Definition net_authorized (uid : Z) n : bool :=
  match pl_conns (nt_pool n) !! uid with
  | Some c => negb (is_empty (cx_wallet_addr c))
  | None => false
  end.

(** The end of a connection: the socket is closed, the disconnect handler runs and
    the connection's ticket is dropped. *)
Definition teardown (uid : Z) (remote_ip : string) n : Net Tx :=
  let n := with_pool (on_disconnect uid) (drop_client uid n) in
  mkNet (nt_pool n) (release (nt_guard n) remote_ip).

(** [spawn_client_listener] with the drop of its ticket, after the given reads;
    [true] when it still waits for the next one. *)
Definition spawn_client_listener (uid started : Z) (reads : list ReadResult) n : Net Tx * bool :=
  match pl_conns (nt_pool n) !! uid with
  | None => (n, false)
  | Some c =>
      let remote_ip := to_column (cx_remote_addr c) in
      match parse_ip (cx_remote_addr c) with
      | None =>
          let n := drop_client uid n in (mkNet (nt_pool n) (release (nt_guard n) remote_ip), false)
      | Some _ =>
          match read_loop (net_connected uid) (net_authorized uid) (drop_client uid) (handle_line uid remote_ip)
                  reads n (mkReader [] true started) with
          | (n, Some _) => (n, true)
          | (n, None) => (teardown uid remote_ip n, false)
          end
      end
  end.

(** One accepted socket of [listen_impl]: [proxied] holds what the stream starts
    with on a listener that asks for a PROXY header.  The session of the new
    connection is [uid]. *)
Definition accept (try_from : bytes -> option Addresses) (proxied : option (bool * bytes)) (addr : text * Z)
    (local_port uid now connect_time : Z) n : Net Tx * bool :=
  let source :=
    match proxied with
    | None => Some addr
    | Some (ended, stream) =>
        match fst (read_proxy_v2_source try_from ended stream) with
        | Ok (Client ip port) => Some (ip, port)
        | Ok HealthCheck | Err _ => None
        end
    end in
  match source with
  | None => (n, false)
  | Some (real_ip, remote_port) =>
      match try_accept_connection (nt_guard n) (to_column real_ip) now with
      | (Err _, g) => (mkNet (nt_pool n) g, false)
      | (Ok _, g) =>
          let c := ctx_new real_ip remote_port local_port uid (mining_new connect_time) in
          (mkNet (on_connect c (nt_pool n)) g, true)
      end
  end.
End Server.
