(* ===== verification/ListenerSpec.v ===== *)
(** * What the listener guarantees

    The bytes of a connection are cut into the lines of its stream however the
    reads fall, PROXY headers are consumed exactly, and the per-address connection
    caps count exactly the connections whose task is running, over every interleaving
    of accepts, reads and ends. *)
From Stdlib Require Import SpecFloat.
From S2P Require Import Prelude F64 Schema Domain Utf8 Hasher MiningState Merged AntiAbuse StratumRpc ShareGuard StratumContext IngestDb SessionDb Consumer ShareHandler ClientHandler Handshake ShareSpec ClientSpec Listener.
Open Scope Z_scope.

(** ** Lines of a stream *)

(** The complete lines of a stream and the part after the last newline. *)
Fixpoint split_lines (s : text) : list text * text :=
  match s with
  | [] => ([], [])
  | c :: s =>
      let (ls, tail) := split_lines s in
      if c =? 10 then ([] :: ls, tail)
      else match ls with [] => ([], c :: tail) | l :: ls => ((c :: l) :: ls, tail) end
  end.

(** What a handler sees of the stream: its trimmed lines that are not empty. *)
Definition messages_of (ls : list text) : list text := List.filter (fun l => negb (is_empty l)) (map trim ls).
Definition messages (stream : text) : list text := messages_of (fst (split_lines stream)).

Definition no_newline (s : text) : Prop := Forall (fun c => c <> 10) s.

Lemma split_lines_tail s : no_newline (snd (split_lines s)).
Proof.
  unfold no_newline. induction s as [|c s IH]; [constructor|]. cbn. destruct (split_lines s) as [ls tail]. simpl in IH.
  destruct (Z.eqb_spec c 10); [done|]. destruct ls; simpl; auto.
Qed.

Lemma split_lines_prefix l s : no_newline l ->
  split_lines (l ++ s) =
    match fst (split_lines s) with
    | [] => ([], l ++ snd (split_lines s))
    | l' :: ls => ((l ++ l') :: ls, snd (split_lines s))
    end.
Proof.
  induction 1 as [|c l Hc _ IH]; cbn [app]; [now destruct (split_lines s) as [[|] ?]|].
  cbn [split_lines]. rewrite IH. apply Z.eqb_neq in Hc. rewrite Hc. now destruct (fst (split_lines s)).
Qed.

(** A stream that goes on: the pending line is continued. *)
Lemma split_lines_app a b :
  split_lines (a ++ b) = (fst (split_lines a) ++ fst (split_lines (snd (split_lines a) ++ b)),
                          snd (split_lines (snd (split_lines a) ++ b))).
Proof.
  induction a as [|c a IH]; [simpl; now destruct (split_lines b)|].
  cbn [app split_lines]. rewrite IH. pose proof (split_lines_tail a) as N.
  destruct (split_lines a) as [ls tail]. cbn [fst snd] in *.
  destruct (Z.eqb_spec c 10) as [->|Hc]; [done|].
  destruct ls as [|l ls]; [|done]. cbn [fst snd app].
  rewrite (split_lines_prefix tail b N). cbn [split_lines app].
  rewrite (split_lines_prefix tail b N). apply Z.eqb_neq in Hc. rewrite Hc. now destruct (fst (split_lines b)).
Qed.

Lemma messages_app a b : messages (a ++ b) = messages a ++ messages (snd (split_lines a) ++ b).
Proof.
  unfold messages, messages_of. rewrite split_lines_app. cbn [fst]. now rewrite map_app, List.filter_app.
Qed.

Lemma firstn_messages a b : firstn (length (messages a)) (messages (a ++ b)) = messages a.
Proof. rewrite messages_app, List.firstn_app, Nat.sub_diag, List.firstn_all. cbn. apply List.app_nil_r. Qed.

Lemma len_nonneg s : 0 <= len s.
Proof. unfold len. induction s as [|c s IH]; simpl; [lia|]. unfold utf8_width at 1. repeat case_match; lia. Qed.

(** The line pending after a prefix of the stream is no longer than the line it
    becomes part of. *)
Definition lines_within (bound : Z) (stream : text) : Prop :=
  Forall (fun l => len l <= bound) (fst (split_lines stream)) /\ len (snd (split_lines stream)) <= bound.

Lemma pending_within bound a b : lines_within bound (a ++ b) -> len (snd (split_lines a)) <= bound.
Proof.
  unfold lines_within. rewrite split_lines_app. cbn [fst snd].
  rewrite (split_lines_prefix _ b (split_lines_tail a)). pose proof (len_nonneg (snd (split_lines b))).
  destruct (fst (split_lines b)) as [|l ls]; cbn [fst snd]; intros [Hl Ht].
  - rewrite len_app in Ht. lia.
  - apply Forall_app in Hl as [_ Hl]. apply Forall_cons in Hl as [Hl _].
    rewrite len_app in Hl. pose proof (len_nonneg l). lia.
Qed.

(** ** The read loop *)

Section FramingSpec.
Context {S : Type}.
Variables (is_connected is_authorized : S -> bool) (drop : S -> S) (handle : text -> S -> S * bool).

(** Lines are handled in order until one of them ends the loop. *)
Fixpoint handle_all (lines : list text) (s : S) : S * bool :=
  match lines with
  | [] => (s, true)
  | l :: ls => match handle l s with (s, true) => handle_all ls s | (s, false) => (s, false) end
  end.

Lemma handle_all_app l1 l2 s :
  handle_all (l1 ++ l2) s =
    match handle_all l1 s with (s, true) => handle_all l2 s | (s, false) => (s, false) end.
Proof.
  revert s. induction l1 as [|l l1 IH]; intros s; [done|]. cbn. destruct (handle l s) as [s' []]; auto.
Qed.

Lemma drain_spec rest : forall line_rev s, no_newline (rev line_rev) ->
  let stream := rev line_rev ++ rest in
  fst (drain handle line_rev rest s) = fst (handle_all (messages stream) s) /\
  (snd (handle_all (messages stream) s) = true ->
   snd (drain handle line_rev rest s) = snd (split_lines stream)).
Proof.
  induction rest as [|c rest IH]; intros line_rev s N; cbn [drain]; cbn zeta.
  - unfold messages. rewrite (split_lines_prefix _ [] N). split; [done|intros _]. cbn. now rewrite List.app_nil_r.
  - destruct (Z.eqb_spec c 10) as [->|Hc].
    + unfold messages. rewrite (split_lines_prefix _ (10 :: rest) N). cbn [split_lines Z.eqb Pos.eqb fst snd].
      destruct (split_lines rest) as [ls tail] eqn:Es. cbn [Z.eqb Pos.eqb fst snd]. rewrite List.app_nil_r.
      specialize (IH [] (fst (if is_empty (trim (rev line_rev)) then (s, true) else handle (trim (rev line_rev)) s))).
      cbn [rev app] in IH. unfold messages in IH. rewrite Es in IH. cbn [fst snd] in IH.
      unfold messages_of in *. cbn [map List.filter].
      destruct (is_empty (trim (rev line_rev))) eqn:Ee; cbn [negb handle_all fst] in *; [apply IH; constructor|].
      destruct (handle (trim (rev line_rev)) s) as [s' []]; cbn [fst snd] in *; [apply IH; constructor|done].
    + replace (rev line_rev ++ c :: rest) with (rev (c :: line_rev) ++ rest) by (cbn; now rewrite <- app_assoc).
      apply IH. cbn [rev]. apply Forall_app. auto.
Qed.

(** The bound on the pending line holds whatever is received. *)
Lemma drain_short rest : forall line_rev s,
  len (snd (drain handle line_rev rest s)) <= len (rev line_rev) + len rest.
Proof.
  induction rest as [|c rest IH]; intros line_rev s; cbn [drain]; [cbn [snd]; unfold len at 3; cbn; lia|].
  assert (len (c :: rest) = utf8_width c + len rest) as E by done.
  assert (1 <= utf8_width c) by (unfold utf8_width; repeat case_match; lia).
  destruct (c =? 10).
  - destruct (if is_empty _ then _ else _) as [s' []]; [|cbn [snd]; pose proof (len_nonneg (rev line_rev)); lia].
    specialize (IH [] s'). cbn [rev] in IH. unfold len at 2 in IH. cbn in IH.
    pose proof (len_nonneg (rev line_rev)). lia.
  - specialize (IH (c :: line_rev) s). cbn [rev] in IH. rewrite len_app in IH.
    unfold len at 3 in IH. cbn in IH. lia.
Qed.

Lemma line_buffer_bounded reads s rd s' rd' :
  len (rd_line_buffer rd) <= MAX_STRATUM_LINE_BYTES ->
  read_loop is_connected is_authorized drop handle reads s rd = (s', Some rd') ->
  len (rd_line_buffer rd') <= MAX_STRATUM_LINE_BYTES.
Proof.
  revert s rd. induction reads as [|r reads IH]; intros s rd B; cbn [read_loop]; [now intros [= _ <-]|].
  destruct (read_step _ _ _ _ r s rd) as [s1 [rd1|]] eqn:Er; [|discriminate]. apply IH.
  unfold read_step in Er. destruct (negb (is_connected s)); [discriminate|].
  destruct r as [|now buffer| |now]; [discriminate| |discriminate|destruct (should_drop_for_idle _ _); [discriminate|congruence]].
  destruct (rd_first_message rd && _); [discriminate|].
  destruct (append_line_data _ _) as [lb|] eqn:Ea; [|discriminate].
  unfold append_line_data in Ea. destruct (Z.ltb_spec MAX_STRATUM_LINE_BYTES
    (len (rd_line_buffer rd) + len (from_utf8_lossy (List.filter (fun b => negb (b =? 0)) buffer)))); [discriminate|].
  injection Ea as <-.
  pose proof (drain_short (rd_line_buffer rd ++ from_utf8_lossy (List.filter (fun b => negb (b =? 0)) buffer)) [] s) as D.
  destruct (drain handle [] _ s) as [s2 rest]. injection Er as <- <-. cbn [snd rd_line_buffer rev] in *.
  rewrite len_app in D. unfold len at 2 in D. cbn in D. lia.
Qed.

(** A read of the UTF-8 encoding of a text, whose zero bytes are removed. *)
Definition chunk_read (chunk : Z * text) : ReadResult := ReadData (fst chunk) (utf8_encode (snd chunk)).
Definition strip_zeros (t : text) : text := List.filter (fun c => negb (c =? 0)) t.
Definition stream_of (chunks : list (Z * text)) : text := concat (map (fun c => strip_zeros (snd c)) chunks).
Definition chunk_ok (chunk : Z * text) : Prop := Forall scalar (snd chunk) /\ len (snd chunk) <= 1024.

(** The first read does not start like a request of another protocol. *)
Definition stratum_start (chunks : list (Z * text)) : Prop :=
  match chunks with
  | [] => True
  | c :: _ => is_http (first_line (strip_zeros (snd c))) = false
  end.

Lemma chunk_decoded chunk : chunk_ok chunk ->
  from_utf8_lossy (List.filter (fun b => negb (b =? 0)) (utf8_encode (snd chunk))) = strip_zeros (snd chunk).
Proof.
  intros [H _]. rewrite filter_zero_encode by done. apply decode_encode.
  rewrite List.Forall_forall in *. intros c [Hc _]%List.filter_In. auto.
Qed.

Lemma len_strip t : len (strip_zeros t) <= len t.
Proof.
  unfold len, strip_zeros. induction t as [|c t IH]; [done|]. cbn [List.filter].
  assert (1 <= utf8_width c) by (unfold utf8_width; repeat case_match; lia). destruct (negb _); simpl; lia.
Qed.

Hypothesis stop_disconnects : forall l s s', handle l s = (s', false) -> is_connected s' = false.

Lemma handle_all_stop ls s s' : handle_all ls s = (s', false) -> is_connected s' = false.
Proof.
  revert s. induction ls as [|l ls IH]; intros s; [discriminate|]. cbn.
  destruct (handle l s) as [s1 []] eqn:Eh; [apply IH|]. intros [= <-]. eauto.
Qed.

(** What the loop has done when it stops or waits: it handled the first [k]
    messages of the stream in order, all of them while it is connected. *)
Definition served (stream : text) (s0 : S) (r : S * option Reader) : Prop :=
  exists k, fst r = fst (handle_all (firstn k (messages stream)) s0) /\
    (is_connected (fst r) = false \/
     (length (messages stream) <= k)%nat /\
     exists rd, snd r = Some rd /\ rd_line_buffer rd = snd (split_lines stream)).

Lemma served_so_far done_ rest s0 s r :
  fst (handle_all (messages done_) s0) = s -> fst r = s -> is_connected s = false ->
  served (done_ ++ rest) s0 r.
Proof.
  intros H R C. exists (length (messages done_)). rewrite firstn_messages, R. auto.
Qed.

(** One read of a chunk, as a step on the lines of the stream. *)
Lemma read_step_chunk chunk s rd done_ s0 :
  is_connected s = true -> chunk_ok chunk ->
  len (snd (split_lines done_)) <= MAX_STRATUM_LINE_BYTES - 1024 ->
  rd_line_buffer rd = snd (split_lines done_) -> handle_all (messages done_) s0 = (s, true) ->
  (rd_first_message rd = true -> is_http (first_line (strip_zeros (snd chunk))) = false) ->
  let done' := done_ ++ strip_zeros (snd chunk) in
  exists s' rd', read_step is_connected is_authorized drop handle (chunk_read chunk) s rd = (s', Some rd') /\
    fst (handle_all (messages done') s0) = s' /\ rd_first_message rd' = false /\
    (snd (handle_all (messages done') s0) = true -> rd_line_buffer rd' = snd (split_lines done')).
Proof.
  intros C K B R H F done'. unfold read_step, chunk_read. rewrite C, (chunk_decoded chunk K). cbn [negb].
  replace (rd_first_message rd && _) with false
    by (destruct (rd_first_message rd); [now rewrite F|done]).
  unfold append_line_data. rewrite (proj2 (Z.ltb_ge _ _))
    by (rewrite R; pose proof (len_strip (snd chunk)); destruct K; lia).
  destruct (drain_spec (rd_line_buffer rd ++ strip_zeros (snd chunk)) [] s ltac:(constructor)) as [D1 D2].
  cbn [rev app] in D1, D2. unfold done'. rewrite messages_app, handle_all_app, H, split_lines_app.
  cbn [snd]. rewrite R in *. destruct (drain handle [] _ s) as [s' rest].
  exists s', (mkReader rest false (fst chunk)). auto.
Qed.

Lemma read_loop_served chunks : forall done_ s rd s0,
  Forall chunk_ok chunks -> lines_within (MAX_STRATUM_LINE_BYTES - 1024) (done_ ++ stream_of chunks) ->
  rd_line_buffer rd = snd (split_lines done_) -> handle_all (messages done_) s0 = (s, true) ->
  (rd_first_message rd = true -> stratum_start chunks) ->
  served (done_ ++ stream_of chunks) s0
    (read_loop is_connected is_authorized drop handle (map chunk_read chunks) s rd).
Proof.
  induction chunks as [|chunk chunks IH]; intros done_ s rd s0 K L R H F.
  - change (stream_of []) with (@nil Z). rewrite List.app_nil_r. cbn [map read_loop].
    exists (length (messages done_)). rewrite List.firstn_all, H. cbn. eauto 6.
  - apply Forall_cons in K as [K1 K]. cbn [map read_loop].
    destruct (is_connected s) eqn:C.
    2:{ unfold read_step. rewrite C. cbn [negb]. eapply served_so_far; [now rewrite H|done|done]. }
    destruct (read_step_chunk chunk s rd done_ s0) as (s' & rd' & -> & Hs & Ff & Hb); auto.
    { eapply pending_within, L. }
    change (stream_of (chunk :: chunks)) with (strip_zeros (snd chunk) ++ stream_of chunks) in *.
    rewrite app_assoc in *. destruct (handle_all (messages (done_ ++ strip_zeros (snd chunk))) s0) as [s1 []] eqn:Ha;
      cbn [fst snd] in *; subst s1.
    + apply IH; auto. now rewrite Ff.
    + eapply served_so_far; [now rewrite Ha| |]; [|eapply handle_all_stop, Ha].
      destruct chunks as [|chunk' chunks]; [done|]. cbn [map read_loop]. unfold read_step.
      now rewrite (handle_all_stop _ _ _ Ha).
Qed.
End FramingSpec.

(** ** The server *)

Section ServerSpec.
Context {Tx : Type} `{E : !ShareEnv Tx} `{J : !JobEnv Tx} `{A : !AddressEnv}.
Context {F : Type} (from_str : text -> result JsonRpcEvent F).
Variable cfg : ClientConfig.
Implicit Types (n : Net Tx) (p : Pool Tx).

Lemma drop_client_disconnects uid n : net_connected uid (drop_client uid n) = false.
Proof.
  unfold net_connected, client_connected, drop_client, with_pool, on_client. cbn [nt_pool].
  destruct (pl_conns (nt_pool n) !! uid) as [c|] eqn:Ec; cbn [nt_pool pl_conns]; [|now rewrite Ec].
  now rewrite lookup_insert_eq.
Qed.

Lemma handle_line_stop uid ip l n n' : handle_line from_str cfg uid ip l n = (n', false) -> net_connected uid n' = false.
Proof.
  unfold handle_line. destruct (is_http l); [intros [= <-]; apply drop_client_disconnects|].
  destruct (tick _) as [now p]. destruct (try_consume_frame _ _ _) as [[] g].
  - destruct (unmarshal_event _ _); discriminate.
  - intros [= <-]. apply drop_client_disconnects.
Qed.

(** C26. However a connection's bytes are divided into reads (between characters),
    its lines are handled in order, each exactly once, and all of them for as long
    as the connection is up, with the unfinished last line kept for the next read.
    Zero bytes are removed and lines may be up to 63 KiB long. *)
Theorem framing_faithful uid ip chunks n started :
  Forall chunk_ok chunks -> lines_within (MAX_STRATUM_LINE_BYTES - 1024) (stream_of chunks) -> stratum_start chunks ->
  served (net_connected uid) (handle_line from_str cfg uid ip) (stream_of chunks) n
    (read_loop (net_connected uid) (net_authorized uid) (drop_client uid) (handle_line from_str cfg uid ip)
       (map chunk_read chunks) n (mkReader [] true started)).
Proof.
  intros K L H. apply (read_loop_served _ _ _ _ (handle_line_stop uid ip) chunks [] n (mkReader [] true started) n);
    auto.
Qed.

(** ** Connections and their tickets *)

(** What a line, a read or an end of a connection does to the guard: frames are
    counted against buckets, no ticket is taken or returned. *)
Definition only_frames (g g' : AntiAbuseGuard) : Prop :=
  forall tickets, rtc abuse_step (mkAbuse g tickets) (mkAbuse g' tickets).

Lemma only_frames_refl g : only_frames g g.
Proof. intros ts. reflexivity. Qed.

Lemma only_frames_trans g1 g2 g3 : only_frames g1 g2 -> only_frames g2 g3 -> only_frames g1 g3.
Proof. intros H1 H2 ts. etransitivity; [apply H1|apply H2]. Qed.

Lemma handle_line_frames uid ip l n : only_frames (nt_guard n) (nt_guard (fst (handle_line from_str cfg uid ip l n))).
Proof.
  unfold handle_line. destruct (is_http l); [apply only_frames_refl|]. destruct (tick _) as [now p].
  destruct (try_consume_frame (nt_guard n) ip now) as [ok g] eqn:Eg.
  assert (only_frames (nt_guard n) g) as H by (intros ts; eapply rtc_once, AFrame, Eg).
  destruct ok; [destruct (unmarshal_event _ _)|]; exact H.
Qed.

Lemma drain_frames uid ip rest : forall line_rev n,
  only_frames (nt_guard n) (nt_guard (fst (drain (handle_line from_str cfg uid ip) line_rev rest n))).
Proof.
  induction rest as [|c rest IH]; intros line_rev n; cbn [drain]; [apply only_frames_refl|].
  destruct (c =? 10); [|apply IH]. destruct (is_empty _); [apply IH|].
  pose proof (handle_line_frames uid ip (trim (rev line_rev)) n) as H.
  destruct (handle_line _ _ _ _ _ n) as [n' []]; cbn [fst] in *; [|done].
  eapply only_frames_trans; [exact H|apply IH].
Qed.

Abbreviation conn_read uid ip := (read_step (net_connected uid) (net_authorized uid) (drop_client uid)
  (handle_line from_str cfg uid ip)).

Lemma read_step_frames uid ip r n rd : only_frames (nt_guard n) (nt_guard (fst (conn_read uid ip r n rd))).
Proof.
  unfold read_step. destruct (negb _); [apply only_frames_refl|].
  destruct r as [|now buffer| |now]; try apply only_frames_refl; [|destruct (should_drop_for_idle _ _); apply only_frames_refl].
  destruct (_ && _); [apply only_frames_refl|]. destruct (append_line_data _ _) as [t|]; [|apply only_frames_refl].
  pose proof (drain_frames uid ip t [] n) as H. by destruct (drain _ _ _ _).
Qed.

(** An open connection: its session, its address and where its reads have got to. *)
Record OpenConn := mkOpen { oc_uid : Z; oc_addr : text; oc_reader : Reader }.

(** The server with the connections whose task is running. *)
Record Serving := mkServing { sv_net : Net Tx; sv_open : list OpenConn }.

(** The turns of all connections in any order, between any other work on the
    pool's state: a socket is accepted or turned away, an open connection reads, and
    its task ends when a read ends it or its address does not parse. *)
Inductive serve : Serving -> Serving -> Prop :=
| Accepts n opens try_from proxied addr port uid now time n' c started :
    accept try_from proxied addr port uid now time n = (n', true) ->
    pl_conns (nt_pool n') !! uid = Some c ->
    serve (mkServing n opens) (mkServing n' (mkOpen uid (cx_remote_addr c) (mkReader [] true started) :: opens))
| TurnsAway n opens try_from proxied addr port uid now time n' :
    accept try_from proxied addr port uid now time n = (n', false) ->
    serve (mkServing n opens) (mkServing n' opens)
| BadAddress n before o after c started reads n' :
    pl_conns (nt_pool n) !! oc_uid o = Some c -> cx_remote_addr c = oc_addr o -> parse_ip (oc_addr o) = None ->
    spawn_client_listener from_str cfg (oc_uid o) started reads n = (n', false) ->
    serve (mkServing n (before ++ o :: after)) (mkServing n' (before ++ after))
| Reads n before o after r n' rd :
    conn_read (oc_uid o) (to_column (oc_addr o)) r n (oc_reader o) = (n', Some rd) ->
    serve (mkServing n (before ++ o :: after)) (mkServing n' (before ++ mkOpen (oc_uid o) (oc_addr o) rd :: after))
| Ends n before o after r n' :
    conn_read (oc_uid o) (to_column (oc_addr o)) r n (oc_reader o) = (n', None) ->
    serve (mkServing n (before ++ o :: after))
          (mkServing (teardown (oc_uid o) (to_column (oc_addr o)) n') (before ++ after))
| Elsewhere n opens p :
    serve (mkServing n opens) (mkServing (mkNet p (nt_guard n)) opens).

(** The reads of one connection without others in between are the task of the code. *)
Lemma read_loop_serves before after uid addr reads : forall n rd,
  let r := read_loop (net_connected uid) (net_authorized uid) (drop_client uid)
             (handle_line from_str cfg uid (to_column addr)) reads n rd in
  rtc serve (mkServing n (before ++ mkOpen uid addr rd :: after))
    match snd r with
    | Some rd' => mkServing (fst r) (before ++ mkOpen uid addr rd' :: after)
    | None => mkServing (teardown uid (to_column addr) (fst r)) (before ++ after)
    end.
Proof.
  induction reads as [|x reads IH]; intros n rd; cbn [read_loop]; [reflexivity|].
  destruct (conn_read uid (to_column addr) x n rd) as [n' [rd'|]] eqn:Ex; cbv beta zeta.
  - eapply rtc_l; [|apply IH]. by eapply (Reads n before (mkOpen uid addr rd) after x).
  - apply rtc_once. by eapply (Ends n before (mkOpen uid addr rd) after x).
Qed.

Lemma spawn_client_listener_serves uid started reads n c before after :
  pl_conns (nt_pool n) !! uid = Some c ->
  exists left, rtc serve (mkServing n (before ++ mkOpen uid (cx_remote_addr c) (mkReader [] true started) :: after))
    (mkServing (fst (spawn_client_listener from_str cfg uid started reads n)) (before ++ left ++ after)) /\
    if snd (spawn_client_listener from_str cfg uid started reads n)
    then exists rd, left = [mkOpen uid (cx_remote_addr c) rd] else left = [].
Proof.
  intros Ec. unfold spawn_client_listener. rewrite Ec. destruct (parse_ip (cx_remote_addr c)) eqn:Ep.
  - pose proof (read_loop_serves before after uid (cx_remote_addr c) reads n (mkReader [] true started)) as H.
    destruct (read_loop _ _ _ _ reads n _) as [n' [rd|]]; cbn [fst snd] in *; eexists; (split; [|eauto]); exact H.
  - exists []. split; [|done]. apply rtc_once.
    apply (BadAddress n before (mkOpen uid (cx_remote_addr c) (mkReader [] true started)) after c started reads); try done.
    unfold spawn_client_listener. cbn [oc_uid]. by rewrite Ec, Ep.
Qed.

(** The guard's side of the server. *)
Definition abuse_view (w : Serving) : AbuseWorld :=
  mkAbuse (nt_guard (sv_net w)) (map (fun o => to_column (oc_addr o)) (sv_open w)).

Lemma accept_guard try_from proxied addr port uid now time n n' ok :
  accept try_from proxied addr port uid now time n = (n', ok) ->
  (ok = false /\ nt_guard n' = nt_guard n) \/
  exists ip, match try_accept_connection (nt_guard n) (to_column ip) now with
    | (Ok _, g) => ok = true /\ nt_guard n' = g /\
        forall c, pl_conns (nt_pool n') !! uid = Some c -> cx_remote_addr c = ip
    | (Err _, g) => ok = false /\ nt_guard n' = g
    end.
Proof.
  unfold accept. intros H. destruct (match proxied with None => _ | Some _ => _ end) as [[ip rport]|]; [|injection H as <- <-; by left].
  right. exists ip. destruct (try_accept_connection _ _ _) as [[t|e] g]; injection H as <- <-; repeat split; try done.
  intros c. cbn. rewrite lookup_insert_eq. by intros [= <-].
Qed.

Lemma serve_abuse w w' : serve w w' -> rtc abuse_step (abuse_view w) (abuse_view w').
Proof.
  intros [n opens try_from proxied addr port uid now time n' c started H Hc
         |n opens try_from proxied addr port uid now time n' H
         |n before o after c started reads n' Hc Ha Hp H|n before o after r n' rd H|n before o after r n' H|n opens p]; unfold abuse_view; cbn [sv_net sv_open map].
  - destruct (accept_guard _ _ _ _ _ _ _ _ _ _ H) as [[? _]|[ip G]]; [done|].
    destruct (try_accept_connection _ _ _) as [[t|e] g] eqn:Et; [|by destruct G].
    destruct G as (_ & -> & Ha). cbn [oc_addr]. rewrite (Ha _ Hc).
    assert (t = to_column ip) as ->.
    { clear -Et. unfold try_accept_connection in Et. destruct (_ && _); [done|]. destruct (_ <=? _); [done|]. by injection Et as <- _. }
    eapply rtc_once, AAccept, Et.
  - destruct (accept_guard _ _ _ _ _ _ _ _ _ _ H) as [[_ ->]|[ip G]]; [reflexivity|].
    destruct (try_accept_connection _ _ _) as [[t|e] g] eqn:Et; [by destruct G|]. destruct G as [_ ->].
    eapply rtc_once, ARefuse, Et.
  - unfold spawn_client_listener in H. rewrite Hc, Ha, Hp in H. injection H as <-.
    rewrite !map_app. cbn [map nt_guard]. eapply rtc_once, ADrop.
  - pose proof (read_step_frames (oc_uid o) (to_column (oc_addr o)) r n (oc_reader o)) as Fr. rewrite H in Fr.
    rewrite !map_app. apply Fr.
  - pose proof (read_step_frames (oc_uid o) (to_column (oc_addr o)) r n (oc_reader o)) as Fr. rewrite H in Fr.
    rewrite !map_app. cbn [map]. eapply rtc_r; [apply Fr|]. apply ADrop.
  - reflexivity.
Qed.

Lemma serves_abuse w w' : rtc serve w w' -> rtc abuse_step (abuse_view w) (abuse_view w').
Proof. induction 1 as [|w w1 w2 H _ IH]; [reflexivity|]. etransitivity; [by apply serve_abuse|exact IH]. Qed.

(** Connections open from an address. *)
Definition open_from (ip : string) (w : Serving) : Z :=
  Z.of_nat (length (List.filter (fun o => String.eqb ip (to_column (oc_addr o))) (sv_open w))).

Lemma held_view ip w : held ip (aw_tickets (abuse_view w)) = open_from ip w.
Proof.
  unfold held, open_from, abuse_view. cbn [aw_tickets]. induction (sv_open w) as [|o os IH]; [done|].
  cbn [map List.filter]. destruct (String.eqb ip _); cbn [length]; lia.
Qed.

Lemma accepts_when_room g ip now :
  is_ok (fst (try_accept_connection g ip now)) = true <->
  (is_Some (ag_state g !! ip) \/ Z.of_nat (tracked_ip_count g) < aa_max_tracked_ips (ag_config g)) /\
  conn_count g ip < aa_max_conn_per_ip (ag_config g).
Proof.
  unfold try_accept_connection, conn_count, tracked_ip_count. case_bool_decide as Hk; cbn [negb andb].
  - destruct Hk as [e ->]. cbn. destruct (Z.leb_spec (aa_max_conn_per_ip (ag_config g)) (ip_conn_count e)); cbn; split; eauto;
      try done; lia.
  - destruct (ag_state g !! ip) as [e|] eqn:Ee; [destruct Hk; eauto|]. cbn.
    destruct (Z.leb_spec (aa_max_tracked_ips (ag_config g)) (Z.of_nat (size (ag_state g)))); cbn.
    { split; [done|]. intros [[[? ?]|?] _]; [done|lia]. }
    destruct (Z.leb_spec (aa_max_conn_per_ip (ag_config g)) 0); cbn; split; eauto; try done; lia.
Qed.

(** C27. The listener's connection caps hold and never leak.  Over every history of
    sockets accepted or turned away, reads of open connections in any order, ends of
    connections for whatever reason and any other work on the pool's state, from a
    configuration that validates: the guard's count of an address is the number of
    its open connections, which never passes the cap; an address is tracked exactly
    while it has one, and no more addresses than allowed are tracked; and a socket
    from an address gets in exactly when its open connections leave room. *)
Theorem open_connections_counted a b rate burst config p w ip :
  0 <= a -> 0 <= b -> abuse_config_new a b rate burst = Ok config ->
  rtc serve (mkServing (mkNet p (guard_new config)) []) w ->
  let g := nt_guard (sv_net w) in
  conn_count g ip = open_from ip w /\ open_from ip w <= a /\
  (is_Some (ag_state g !! ip) <-> 0 < open_from ip w) /\ Z.of_nat (tracked_ip_count g) <= b /\
  forall now, is_ok (fst (try_accept_connection g ip now)) = true <->
    open_from ip w < a /\ (0 < open_from ip w \/ Z.of_nat (tracked_ip_count g) < b).
Proof.
  intros Ha Hb Hc H%serves_abuse g. rewrite <- held_view.
  destruct (connections_capped a b rate burst config (abuse_view w) ip Ha Hb Hc H) as (C & L & T & S).
  change (aw_guard (abuse_view w)) with g in *. split; [exact C|]. split; [exact L|]. split; [exact T|].
  split; [exact S|]. intros now. rewrite accepts_when_room, C, T.
  apply abuse_steps_config in H. change (ag_config g = ag_config (guard_new config)) in H. rewrite H.
  apply abuse_config_new_fields in Hc as (<- & <- & _). cbn. tauto.
Qed.
End ServerSpec.

(** ** PROXY headers *)

Lemma read_exact_app k ended e (a b : bytes) : k = length a -> read_exact k ended e (a ++ b) = (Ok a, b).
Proof.
  intros ->. unfold read_exact. rewrite (proj2 (Nat.leb_le _ _)) by (rewrite length_app; lia).
  now rewrite List.firstn_app, List.skipn_app, Nat.sub_diag, List.firstn_all, List.skipn_all, List.app_nil_r.
Qed.

(** Exactly the header is consumed, and what follows stays in the socket. *)
Lemma proxy_header_consumed try_from ended ver fam hi lo address payload :
  0 <= hi -> 0 <= lo -> Z.of_nat (length address) = hi * 256 + lo ->
  let header := SIG ++ [ver; fam; hi; lo] ++ address in
  read_proxy_v2_source try_from ended (header ++ payload) =
    (match try_from header with
     | None => Err ParseFailed
     | Some (IPv4 ip port) => Ok (Client ip port)
     | Some (IPv6 ip port) => Ok (Client ip port)
     | Some Unspecified => Ok HealthCheck
     | Some Unix => Err UnsupportedFamily
     end, payload).
Proof.
  intros Hh Hl L header. unfold read_proxy_v2_source, header.
  replace ((SIG ++ [ver; fam; hi; lo] ++ address) ++ payload) with ((SIG ++ [ver; fam; hi; lo]) ++ (address ++ payload))
    by (now rewrite <- !app_assoc).
  rewrite (read_exact_app 16) by done. cbn [SIG app firstn nth]. rewrite bool_decide_true by done. cbn [negb].
  now rewrite <- L, Nat2Z.id, read_exact_app by done.
Qed.

(** ** Concrete connections *)

#[local] Existing Instance ClientSpec.var_env.
#[local] Existing Instance ClientSpec.var_jobs.
#[local] Existing Instance ClientSpec.shape_env.

Definition demo_request (method : string) : JsonRpcEvent :=
  mkEvent (Some (VNumber (PosInt 1))) (lit "2.0") (lit method) [VString (lit "miner/1.0")].
Definition demo_parser (line : text) : result JsonRpcEvent unit :=
  if bool_decide (line = lit "subscribe") then Ok (demo_request "mining.subscribe") else Err tt.

Definition demo_net : Net unit :=
  fst (accept (fun _ => None) None (lit "10.0.0.1", 40000) 5555 1 0 0
         (mkNet (mkPool ∅ 0 ∅ (handler_new true 0) (repeat 0 4) 0) (guard_new production))).

Definition demo_chunks : list (Z * text) := [(1, lit "subs"); (2, lit "cribe" ++ [10; 98]); (3, [10; 99])].

Lemma framing_faithful_witness :
  messages (stream_of demo_chunks) = [lit "subscribe"; lit "b"] /\
  served (net_connected 1) (handle_line demo_parser ClientSpec.var_config 1 "10.0.0.1") (stream_of demo_chunks) demo_net
    (read_loop (net_connected 1) (net_authorized 1) (drop_client 1)
       (handle_line demo_parser ClientSpec.var_config 1 "10.0.0.1") (map chunk_read demo_chunks) demo_net (mkReader [] true 0)).
Proof.
  split; [reflexivity|]. apply (framing_faithful demo_parser ClientSpec.var_config 1 "10.0.0.1" demo_chunks demo_net 0).
  - repeat constructor; unfold scalar; try lia; vm_compute; congruence.
  - split; [repeat constructor|]; vm_compute; congruence.
  - reflexivity.
Defined.

Definition demo_pool : Pool unit := mkPool ∅ 0 ∅ (handler_new true 0) (repeat 0 4) 0.
Definition demo_accept (uid : Z) (n : Net unit) : Net unit * bool :=
  accept (fun _ => None) None (lit "10.0.0.1", 40000 + uid) 5555 uid 0 0 n.
Definition demo_two : Net unit := fst (demo_accept 2 demo_net).
Definition demo_reads : list ReadResult := map chunk_read demo_chunks ++ [ReadEof].
Definition demo_served : Net unit := fst (spawn_client_listener demo_parser ClientSpec.var_config 1 0 demo_reads demo_two).
Definition demo_open (uid : Z) : OpenConn := mkOpen uid (lit "10.0.0.1") (mkReader [] true 0).

(** Two connections of one address, of which the first sends its lines and ends. *)
Lemma demo_history :
  rtc (serve demo_parser ClientSpec.var_config) (mkServing (mkNet demo_pool (guard_new production)) [])
    (mkServing demo_served [demo_open 2]).
Proof.
  eapply rtc_l; [eapply (Accepts _ _ _ _ (fun _ => None) None (lit "10.0.0.1", 40000) 5555 1 0 0 demo_net _ 0); vm_compute; reflexivity|].
  eapply rtc_l; [eapply (Accepts _ _ _ _ (fun _ => None) None (lit "10.0.0.1", 40002) 5555 2 0 0 demo_two _ 0); vm_compute; reflexivity|].
  assert (exists c, pl_conns (nt_pool demo_two) !! 1 = Some c /\ cx_remote_addr c = lit "10.0.0.1") as (c & Hc & Ha)
    by (eexists; split; [vm_compute; reflexivity|reflexivity]).
  destruct (spawn_client_listener_serves demo_parser ClientSpec.var_config 1 0 demo_reads demo_two c [demo_open 2] [] Hc)
    as (left & H & L). rewrite Ha in H.
  assert (snd (spawn_client_listener demo_parser ClientSpec.var_config 1 0 demo_reads demo_two) = false) as E
    by (vm_compute; reflexivity). rewrite E in L. subst left. exact H.
Qed.

Lemma open_connections_counted_witness :
  open_from "10.0.0.1" (mkServing demo_served [demo_open 2]) = 1 /\
  conn_count (nt_guard demo_served) "10.0.0.1" = 1 /\
  is_ok (fst (try_accept_connection (nt_guard demo_served) "10.0.0.1" 9)) = true.
Proof.
  assert (open_from "10.0.0.1" (mkServing demo_served [demo_open 2]) = 1) as O by (vm_compute; reflexivity).
  destruct (open_connections_counted demo_parser ClientSpec.var_config 256 65536 (f64_of_Z 100) (f64_of_Z 200) production
              demo_pool (mkServing demo_served [demo_open 2]) "10.0.0.1" ltac:(lia) ltac:(lia) ltac:(vm_compute; reflexivity)
              demo_history) as (C & _ & _ & _ & A). rewrite O in *.
  split; [reflexivity|]. split; [exact C|]. apply A. split; [lia|left; lia].
Defined.

(** What a handler sees of a connection: here it keeps every line it is given. *)
Definition seen (reads : list ReadResult) : list text :=
  fst (read_loop (fun _ => true) (fun _ => false) (fun s => s) (fun l s => (s ++ [l], true)) reads []
         (mkReader [] true 0)).

(** Each read is decoded by itself, so a character whose bytes fall into two reads
    arrives as replacement characters: the same line of a worker named with an
    [é] gives two different worker names. *)
Lemma split_character_corrupted :
  let line := utf8_encode (lit "w" ++ [233; 10]) in
  seen [ReadData 1 line] = [lit "w" ++ [233]] /\
  seen [ReadData 1 (firstn 2 line); ReadData 2 (skipn 2 line)] = [lit "w" ++ [65533; 65533]].
Proof. vm_compute. auto. Qed.
