(* ===== verification/NodeApi.v ===== *)
(** * The bridge's node client ([bridge/src/kaspaapi.rs])

    Templates, merged-mining parents and block submissions over the two nodes.
    The nodes, the clock and the proof of work answer by call index; one request
    runs to its end before the next one starts.  An address is its text. *)
From Stdlib Require Import SpecFloat.
From S2P Require Import Prelude F64 Schema Domain Hasher MiningState Merged StratumRpc ShareGuard StratumContext IngestDb Consumer ShareHandler ClientHandler Handshake.
Open Scope Z_scope.

(** ** Coinbase tags *)

Definition STRATUM_COINBASE_TAG_BYTES : bytes := lit "RK-Stratum".
Definition MAX_COINBASE_TAG_SUFFIX_LEN : Z := 64.

Fixpoint trim_start_char (ch : Z) (s : text) : text :=
  match s with
  | c :: s' => if c =? ch then trim_start_char ch s' else s
  | [] => []
  end.
Definition trim_char (ch : Z) (s : text) : text := rev (trim_start_char ch (rev (trim_start_char ch s))).

Definition is_ascii_whitespace (c : Z) : bool :=
  (c =? 32) || (c =? 9) || (c =? 10) || (c =? 12) || (c =? 13).

(** The loop over the characters; [out] is built reversed. *)
Fixpoint sanitize_chars (s out : text) : text :=
  match s with
  | [] => rev out
  | ch :: s =>
      if MAX_COINBASE_TAG_SUFFIX_LEN <=? len out then rev out
      else if is_ascii_alphanumeric ch || (ch =? 46) || (ch =? 95) || (ch =? 45) then sanitize_chars s (ch :: out)
      else if is_ascii_whitespace ch then sanitize_chars s (95 :: out)
      else sanitize_chars s out
  end.

Definition sanitize_coinbase_tag_suffix (suffix : text) : option text :=
  let suffix := trim_start_char 47 (trim suffix) in
  if is_empty suffix then None
  else
    let out := trim_char 95 (sanitize_chars suffix []) in
    if is_empty out then None else Some out.

Definition build_coinbase_tag_bytes (suffix : option text) : bytes :=
  match suffix ≫= sanitize_coinbase_tag_suffix with
  | Some suffix => STRATUM_COINBASE_TAG_BYTES ++ 47 :: suffix
  | None => STRATUM_COINBASE_TAG_BYTES
  end.

Definition build_lane_coinbase_tag (base : bytes) (session_uid generation : Z) : bytes :=
  base ++ lit "/s" ++ hex_u64 session_uid ++ lit "/g" ++ hex_u64 generation.

(** ** The guard of submitted blocks *)

Record BlockSubmitGuard := mkSubmitGuard {
  bg_ttl : Z;
  bg_max_entries : Z;
  bg_entries : gmap text Z;
  bg_order : list text
}.

Definition submit_guard_new (ttl max_entries : Z) : BlockSubmitGuard := mkSubmitGuard ttl max_entries ∅ [].

Definition BLOCK_SUBMIT_GUARD : BlockSubmitGuard := submit_guard_new (secs 600) 50000.

Fixpoint submit_prune_expired (ttl now : Z) (entries : gmap text Z) (order : list text) : gmap text Z * list text :=
  match order with
  | [] => (entries, [])
  | front :: rest =>
      let remove := match entries !! front with
                    | Some ts => ttl <? duration_since now ts
                    | None => true
                    end in
      if remove then submit_prune_expired ttl now (delete front entries) rest else (entries, order)
  end.

Fixpoint submit_prune_excess (max_entries : Z) (entries : gmap text Z) (order : list text) : gmap text Z * list text :=
  if max_entries <? Z.of_nat (size entries) then
    match order with
    | [] => (entries, [])
    | key :: rest => submit_prune_excess max_entries (delete key entries) rest
    end
  else (entries, order).

Definition submit_prune (g : BlockSubmitGuard) (now : Z) : BlockSubmitGuard :=
  let '(entries, order) := submit_prune_expired (bg_ttl g) now (bg_entries g) (bg_order g) in
  let '(entries, order) := submit_prune_excess (bg_max_entries g) entries order in
  mkSubmitGuard (bg_ttl g) (bg_max_entries g) entries order.

Definition try_mark (g : BlockSubmitGuard) (hash : text) (now : Z) : bool * BlockSubmitGuard :=
  let g := submit_prune g now in
  if bool_decide (is_Some (bg_entries g !! hash)) then (false, g)
  else (true, mkSubmitGuard (bg_ttl g) (bg_max_entries g) (<[hash := now]> (bg_entries g)) (bg_order g ++ [hash])).

Definition submit_remove (g : BlockSubmitGuard) (hash : text) (now : Z) : BlockSubmitGuard :=
  let g := submit_prune g now in
  mkSubmitGuard (bg_ttl g) (bg_max_entries g) (delete hash (bg_entries g)) (bg_order g).

(** ** Recipients and configuration *)

Section Recipient.
Context `{A : !AddressEnv}.

Definition resolve_coinbase_recipient (override_addr : option text) (wallet_addr : text) : result text text :=
  match override_addr with
  | Some a => Ok a
  | None =>
      if address_ok wallet_addr then Ok (address_form wallet_addr)
      else Err (lit "Could not decode address " ++ wallet_addr)
  end.
End Recipient.

(** The merged-mining settings: the environment over the configured values.  With
    the node and the payee as texts, and whether merged mining is on. *)
Definition merged_settings (env : string -> option text) (configured_node configured_pay : option text)
  : text * text * bool :=
  let var a b := match env a with Some v => Some v | None => env b end in
  let node := default (default [] configured_node) (var "ZKAS_KASPA_NODE" "FIRECASH_KASPA_NODE")%string in
  let pay := default (default [] configured_pay) (var "ZKAS_KASPA_PAY" "FIRECASH_KASPA_PAY")%string in
  let merged :=
    match var "ZKAS_MERGED_MINING" "FIRECASH_MERGED_MINING" with
    | Some v => bool_decide (v = lit "1") || bool_decide (to_ascii_lowercase v = lit "true")
    | None => negb (is_empty (trim node)) && negb (is_empty (trim pay))
    end%string in
  (node, pay, merged).

(** ** The nodes *)

Inductive TemplateReply (Tx : Type) :=
| TplTransport (e : text)
| TplMalformed (e : text)
| TplBlock (b : Block Tx).
Arguments TplTransport {Tx} e.
Arguments TplMalformed {Tx} e.
Arguments TplBlock {Tx} b.

Inductive SubmitReply := SubSuccess | SubReject (reason : text) | SubTransport (e : text).

(** The replies to [getBlockTemplate] and [submitBlock] of the two nodes, the
    form of commitments at a DAA score ([merged::bound_form]) and the check of the
    parent's work. *)
Class NodeEnv (Tx : Type) := {
  zkas_template : nat -> text -> bytes -> TemplateReply Tx;
  kaspa_template : nat -> text -> bytes -> TemplateReply Tx;
  zkas_submit : nat -> Block Tx -> option (AuxPow (Tx:=Tx)) -> SubmitReply;
  kaspa_submit : nat -> Block Tx -> SubmitReply;
  node_instant : nat -> Z;
  node_unix_secs : nat -> Z;
  commitment_form : Z -> option bytes;
  parent_pow_ok : Header -> bool
}.

(** [ka_parents] and [ka_submitted] record what was obtained from the Kaspa node
    (payee, committed key, block) and handed to the ZKas node. *)
Record KaspaApi (Tx : Type) := mkApi {
  ka_coinbase_tag : bytes;
  ka_coinbase_address_override : option text;
  ka_merged_mining : bool;
  ka_pending_fc : MergedPending Tx;
  ka_kaspa_client : bool;
  ka_kaspa_pay : option text;
  ka_kaspa_parent_cache : option (bytes * text * Block Tx * Z);
  ka_guard : BlockSubmitGuard;
  ka_calls : nat;
  ka_parents : list (text * bytes * Block Tx);
  ka_submitted : list (Block Tx * option (AuxPow (Tx:=Tx)))
}.
Arguments mkApi {Tx} _ _ _ _ _ _ _ _ _ _ _.
Arguments ka_coinbase_tag {Tx} _.
Arguments ka_coinbase_address_override {Tx} _.
Arguments ka_merged_mining {Tx} _.
Arguments ka_pending_fc {Tx} _.
Arguments ka_kaspa_client {Tx} _.
Arguments ka_kaspa_pay {Tx} _.
Arguments ka_kaspa_parent_cache {Tx} _.
Arguments ka_guard {Tx} _.
Arguments ka_calls {Tx} _.
Arguments ka_parents {Tx} _.
Arguments ka_submitted {Tx} _.

Section Api.
Context {Tx : Type} `{AX : !AuxPowEnv Tx} `{N : !NodeEnv Tx} `{A : !AddressEnv}.
Implicit Types (api : KaspaApi Tx).

Definition with_pending_fc (x : MergedPending Tx) api : KaspaApi Tx :=
  mkApi (ka_coinbase_tag api) (ka_coinbase_address_override api) (ka_merged_mining api) x (ka_kaspa_client api)
    (ka_kaspa_pay api) (ka_kaspa_parent_cache api) (ka_guard api) (ka_calls api) (ka_parents api) (ka_submitted api).
Definition with_guard_of (x : BlockSubmitGuard) api : KaspaApi Tx :=
  mkApi (ka_coinbase_tag api) (ka_coinbase_address_override api) (ka_merged_mining api) (ka_pending_fc api)
    (ka_kaspa_client api) (ka_kaspa_pay api) (ka_kaspa_parent_cache api) x (ka_calls api) (ka_parents api) (ka_submitted api).
Definition with_parent (h_fc : bytes) (pay : text) (parent : Block Tx) (now : Z) api : KaspaApi Tx :=
  mkApi (ka_coinbase_tag api) (ka_coinbase_address_override api) (ka_merged_mining api) (ka_pending_fc api)
    (ka_kaspa_client api) (ka_kaspa_pay api) (Some (h_fc, pay, parent, now)) (ka_guard api) (ka_calls api)
    (ka_parents api ++ [(pay, h_fc, parent)]) (ka_submitted api).
Definition with_submitted (x : Block Tx * option AuxPow) api : KaspaApi Tx :=
  mkApi (ka_coinbase_tag api) (ka_coinbase_address_override api) (ka_merged_mining api) (ka_pending_fc api)
    (ka_kaspa_client api) (ka_kaspa_pay api) (ka_kaspa_parent_cache api) (ka_guard api) (ka_calls api)
    (ka_parents api) (ka_submitted api ++ [x]).

(** Asks a node or the clock, at the next call index. *)
Definition api_ask {B} (f : nat -> B) api : B * KaspaApi Tx :=
  (f (ka_calls api),
   mkApi (ka_coinbase_tag api) (ka_coinbase_address_override api) (ka_merged_mining api) (ka_pending_fc api)
     (ka_kaspa_client api) (ka_kaspa_pay api) (ka_kaspa_parent_cache api) (ka_guard api) (S (ka_calls api))
     (ka_parents api) (ka_submitted api)).

Definition bound_of (fc_block : Block Tx) : option bytes := commitment_form (hd_daa_score (bl_header fc_block)).
Definition merge_key (fc_block : Block Tx) : bytes := merge_key_with fc_block (bound_of fc_block).
Definition merge_extra_data (fc_block : Block Tx) : bytes := merge_extra_data_with fc_block (bound_of fc_block).

(** ** Parents *)

Definition KASPA_PARENT_TTL : Z := 150000000.

(** The cached parent, when it is for this work and this payee and still fresh. *)
Definition cached_parent (h_fc : bytes) (pay_key : text) (force : bool) (now : Z) api : option (Block Tx) :=
  match ka_kaspa_parent_cache api with
  | Some (ch, cpay, parent, at_) =>
      if negb force && bool_decide (ch = h_fc) && bool_decide (cpay = pay_key)
         && (duration_since now at_ <? KASPA_PARENT_TTL)
      then Some parent else None
  | None => None
  end.

Definition fetch_kaspa_parent (h_fc extra_data : bytes) (payee : option text) (force : bool) api
  : result (Block Tx) text * KaspaApi Tx :=
  if negb (ka_kaspa_client api) then (Err (lit "no Kaspa node client"), api)
  else
    match (match payee with Some a => Some a | None => ka_kaspa_pay api end) with
    | None => (Err (lit "no Kaspa pay address"), api)
    | Some pay =>
        let (now, api) := api_ask node_instant api in
        match cached_parent h_fc pay force now api with
        | Some parent => (Ok parent, api)
        | None =>
            let (reply, api) := api_ask (fun n => kaspa_template n pay extra_data) api in
            match reply with
            | TplTransport _ => (Err (lit "kaspa getBlockTemplate"), api)
            | TplMalformed e => (Err (lit "kaspa block conversion: " ++ e), api)
            | TplBlock parent =>
                let (now, api) := api_ask node_instant api in
                (Ok parent, with_parent h_fc pay parent now api)
            end
        end
    end.

Definition refresh_merged_parent (current_parent : Block Tx) (payee : option text) api
  : result (option (Block Tx)) text * KaspaApi Tx :=
  if negb (ka_merged_mining api) || negb (ka_kaspa_client api) then (Ok None, api)
  else
    match committed_h_fc current_parent with
    | None => (Err (lit "merged parent has no ZKMM commitment"), api)
    | Some h_fc =>
        if negb (is_unsolved (ka_pending_fc api) h_fc) then (Ok None, api)
        else
          match pending_get (ka_pending_fc api) h_fc with
          | None => (Ok None, api)
          | Some fc_block =>
              match fetch_kaspa_parent h_fc (merge_extra_data fc_block) payee true api with
              | (Ok parent, api) => (Ok (Some parent), api)
              | (Err e, api) => (Err e, api)
              end
          end
    end.

(** ** What is known about a parent *)

Definition pending_of api (parent_block : Block Tx) : option (Block Tx) :=
  committed_h_fc parent_block ≫= pending_get (ka_pending_fc api).

Definition merged_fc_target api (parent_block : Block Tx) : option Z :=
  if ka_merged_mining api
  then option_map (fun fc => calculate_target (hd_bits (bl_header fc))) (pending_of api parent_block)
  else None.

Definition merged_lane_paid_pool api (parent_block : Block Tx) : bool :=
  match committed_h_fc parent_block with
  | Some h => paid_pool (ka_pending_fc api) h
  | None => false
  end.

(** The method of the same name that callers reach: the implementation of the
    trait does not forward it, so the trait's default answers. *)
Definition trait_merged_lane_paid_pool (api : KaspaApi Tx) (_parent_block : Block Tx) : bool := false.

Definition merged_chain_hash api (parent_block : Block Tx) : option bytes :=
  if ka_merged_mining api then
    match committed_h_fc parent_block with
    | None => None
    | Some key =>
        match pending_get (ka_pending_fc api) key with
        | Some fc_block => Some (chain_hash_with parent_block fc_block (bound_of fc_block))
        | None => committed_h_fc_legacy parent_block
        end
    end
  else None.

Definition merged_zkas_daa api (parent_block : Block Tx) : option Z :=
  if ka_merged_mining api then option_map (fun b => hd_daa_score (bl_header b)) (pending_of api parent_block) else None.

Definition claim_network_solution (job_block : Block Tx) api : bool * KaspaApi Tx :=
  if negb (ka_merged_mining api) then (true, api)
  else
    match committed_h_fc job_block with
    | None => (true, api)
    | Some h_fc =>
        let (claimed, pending) := claim_solution h_fc (ka_pending_fc api) in
        (claimed, with_pending_fc pending api)
    end.

(** ** Submissions *)

Definition submit_merged_parent_if_solved (parent : Block Tx) api : MergedParentSubmitOutcome * KaspaApi Tx :=
  if negb (ka_merged_mining api) then (NotMerged, api)
  else if negb (parent_pow_ok (bl_header parent)) then (DoesNotClearKaspa, api)
  else if negb (ka_kaspa_client api) then (NoKaspaClient, api)
  else
    let (reply, api) := api_ask (fun n => kaspa_submit n parent) api in
    (match reply with
     | SubSuccess => ParentAccepted
     | SubReject reason => ParentRejected reason
     | SubTransport e => ParentTransportError e
     end, api).

Inductive SubmitFailure := SubmitRefused (e : text) | SubmitPanicked.

(** The block that goes to the ZKas node, with the proof in its header. *)
Definition block_to_submit (block : Block Tx) api : result (Block Tx * option AuxPow) SubmitFailure :=
  if ka_merged_mining api then
    match pending_of api block with
    | Some fc_block =>
        match assemble_aux_block_with block fc_block (bound_of fc_block) with
        | Some (b, aux) => Ok (b, Some aux)
        | None => Err SubmitPanicked
        end
    | None => Err (SubmitRefused (lit "merged: no pending ZKas block for the solved parent (stale template)"))
    end
  else Ok (block, None).

(** [anyhow]'s [context] replaces the text of an error by its own. *)
Definition submit_block (block : Block Tx) api : result BlockSubmitOutcome SubmitFailure * KaspaApi Tx :=
  match block_to_submit block api with
  | Err e => (Err e, api)
  | Ok (block, aux) =>
      let block_hash := BlockHash_display (ax_header_hash (bl_header block)) in
      let (now, api) := api_ask node_instant api in
      let (fresh, guard) := try_mark (ka_guard api) block_hash now in
      let api := with_guard_of guard api in
      if negb fresh then (Err (SubmitRefused (lit "ErrDuplicateBlock: block already submitted")), api)
      else
        let (reply, api) := api_ask (fun n => zkas_submit n block aux) (with_submitted (block, aux) api) in
        match reply with
        | SubSuccess => (Ok SubmitAccepted, api)
        | SubReject reason => (Ok (RejectedByNode reason), api)
        | SubTransport _ =>
            let error_str := lit "Failed to submit block" in
            let is_duplicate := contains (lit "ErrDuplicateBlock") error_str || contains (lit "duplicate") error_str in
            if is_duplicate then (Err (SubmitRefused error_str), api)
            else
              let (now, api) := api_ask node_instant api in
              (Err (SubmitRefused error_str), with_guard_of (submit_remove (ka_guard api) block_hash now) api)
        end
  end.

(** ** Templates *)

Definition minute_of_hour (unix_secs : Z) : Z := (unix_secs / 60) mod 60.

(** The payee of a lane's parent: the pool in the lane's fee minute. *)
Definition lane_payee (kas_payout : option text) (lane_id minute : Z) : option text :=
  if is_pool_fee_minute lane_id minute then None else kas_payout.

(** The parent for a ZKas block, which is kept until the parent is solved. *)
Definition merged_parent (block : Block Tx) (kas_payout : option text) (lane_id : Z) api : Block Tx * KaspaApi Tx :=
  let h_fc := merge_key block in
  let (secs, api) := api_ask node_unix_secs api in
  let payee := lane_payee kas_payout lane_id (minute_of_hour secs) in
  let paid_pool := negb (bool_decide (is_Some payee)) in
  let (r, api) := fetch_kaspa_parent h_fc (merge_extra_data block) payee false api in
  let parent := match r with
                | Ok p => p
                | Err _ => fst (build_parent_block_with block (bound_of block))
                end in
  (parent, with_pending_fc (insert_with_payee h_fc block paid_pool (ka_pending_fc api)) api).

Definition odd_digits (e : text) : bool := contains (lit "Odd number of digits") e.
Definition odd_digits_hint : text :=
  lit " - This usually indicates a malformed hash field in the block template from the Kaspa node. The block may have a hash with an odd-length hex string.".

(** [retries] more attempts may follow.  The header of a converted block always
    serialises. *)
Fixpoint template_attempts (retries : nat) (wallet_addr : text) (session_uid generation : Z)
    (kas_payout : option text) (lane_id : Z) api : result (Block Tx) text * KaspaApi Tx :=
  match resolve_coinbase_recipient (ka_coinbase_address_override api) wallet_addr with
  | Err e => (Err e, api)
  | Ok address =>
      let coinbase_tag := build_lane_coinbase_tag (ka_coinbase_tag api) session_uid generation in
      let (reply, api) := api_ask (fun n => zkas_template n address coinbase_tag) api in
      match reply with
      | TplBlock block =>
          if ka_merged_mining api then
            let (parent, api) := merged_parent block kas_payout lane_id api in (Ok parent, api)
          else (Ok block, api)
      | TplTransport e =>
          match retries with
          | O => (Err (lit "Failed to get block template after 3 attempts: " ++ e), api)
          | S retries => template_attempts retries wallet_addr session_uid generation kas_payout lane_id api
          end
      | TplMalformed e =>
          match retries, odd_digits e with
          | S retries, true => template_attempts retries wallet_addr session_uid generation kas_payout lane_id api
          | O, true => (Err (lit "Failed to convert RPC block to Block after 3 attempts: " ++ e ++ odd_digits_hint), api)
          | _, false => (Err (lit "Failed to convert RPC block to Block: " ++ e), api)
          end
      end
  end.

Definition get_block_template (wallet_addr : text) (session_uid generation : Z) (kas_payout : option text)
    (lane_id : Z) api : result (Block Tx) text * KaspaApi Tx :=
  template_attempts 2 wallet_addr session_uid generation kas_payout lane_id api.

(** The parent-only refresh as the client handler asks for it: whom the parent of
    a lane pays is taken from the trait's method. *)
Definition refresh_lane_parent (old_block : Block Tx) (kas_payout : option text) api
  : result (option (Block Tx)) text * KaspaApi Tx :=
  refresh_merged_parent old_block (if trait_merged_lane_paid_pool api old_block then None else kas_payout) api.

(** [KaspaApi::new_with_merged] once both connections are made. *)
Definition api_new (coinbase_tag_suffix coinbase_address_override : option text) (merged_mining : bool)
    (kaspa_connected : bool) (pay : text) : KaspaApi Tx :=
  let real := merged_mining && kaspa_connected && negb (is_empty pay) && address_ok pay in
  mkApi (build_coinbase_tag_bytes coinbase_tag_suffix) coinbase_address_override merged_mining (pending_new 4096)
    real (if real then Some (address_form pay) else None) None BLOCK_SUBMIT_GUARD 0 [] [].
End Api.
