(* ===== verification/NodeSpec.v ===== *)
(** * What the node client guarantees

    A lane's parent leads back to the lane's ZKas block and pays whom it should,
    lane tags are distinct, and two places where the code does not do what it
    says: the parent refresh in the fee minute and the failed submission. *)
From Stdlib Require Import SpecFloat.
From S2P Require Import Prelude F64 Schema Domain Hasher MiningState Merged StratumRpc ShareGuard StratumContext IngestDb Consumer ShareHandler ClientHandler Handshake ClientSpec NodeApi.
Open Scope Z_scope.

(** ** Lane tags *)

Lemma hex_inj l : forall l', Forall is_byte l -> Forall is_byte l' -> length l = length l' ->
  BlockHash_display l = BlockHash_display l' -> l = l'.
Proof.
  induction l as [|b l IH]; intros [|b' l'] B B' E H; try discriminate; [done|].
  apply Forall_cons in B as [Hb B]. apply Forall_cons in B' as [Hb' B'].
  unfold BlockHash_display in H. cbn [flat_map] in H.
  apply app_inj_len in H as [H1 H2]; [|done].
  f_equal; [now apply hex_byte_inj|]. apply IH; auto.
Qed.

Lemma hex_u64_length z : length (hex_u64 z) = 16%nat.
Proof.
  unfold hex_u64, to_be_bytes. assert (forall l, length (BlockHash_display l) = (2 * length l)%nat) as L
    by (unfold BlockHash_display; induction l as [|x l IH]; simpl; lia).
  rewrite L, length_rev, to_le_length. done.
Qed.

Lemma hex_u64_inj a b : 0 <= a < 2 ^ 64 -> 0 <= b < 2 ^ 64 -> hex_u64 a = hex_u64 b -> a = b.
Proof.
  intros Ha Hb H. unfold hex_u64, to_be_bytes in H. apply hex_inj in H.
  - apply (f_equal (@rev Z)) in H. rewrite !rev_involutive in H. eapply (to_le_inj 8); [..|exact H]; done.
  - apply Forall_rev, to_le_byte.
  - apply Forall_rev, to_le_byte.
  - now rewrite !length_rev, !to_le_length.
Qed.

(** Every session and generation has its own coinbase tag. *)
Lemma lane_tag_injective base s g s' g' :
  0 <= s < 2 ^ 64 -> 0 <= g < 2 ^ 64 -> 0 <= s' < 2 ^ 64 -> 0 <= g' < 2 ^ 64 ->
  build_lane_coinbase_tag base s g = build_lane_coinbase_tag base s' g' -> s = s' /\ g = g'.
Proof.
  intros Hs Hg Hs' Hg' H. unfold build_lane_coinbase_tag in H.
  apply app_inv_head, app_inv_head in H.
  apply app_inj_len in H as [H1 H2]; [|now rewrite !hex_u64_length].
  apply app_inv_head in H2. split; now apply hex_u64_inj.
Qed.

(** ** Pending work *)

Section PendingLookup.
Context {Tx : Type}.
Implicit Types p : MergedPending Tx.

Lemma insert_then_get h b flag p : pending_ok p -> pending_get (insert_with_payee h b flag p) h = Some b.
Proof.
  intros O. unfold pending_get.
  destruct (insert_cases h b flag p O) as [(K & ->)|[(Hn & L & ->)|(Hn & old & rest & E & ->)]]; cbn;
    [apply lookup_insert_eq|apply lookup_insert_eq|].
  rewrite lookup_delete_ne; [apply lookup_insert_eq|]. intros ->. apply Hn. rewrite E. left.
Qed.

Lemma insert_then_paid h b flag p : paid_pool (insert_with_payee h b flag p) h = flag.
Proof.
  unfold paid_pool, insert_with_payee.
  set (q := if bool_decide _ then _ else _). destruct flag; cbn [set_payee mp_fee_lane];
    [apply bool_decide_true|apply bool_decide_false]; set_solver.
Qed.
End PendingLookup.

(** ** Parents *)

(** The Kaspa node puts the commitment it is given into the coinbase. *)
Class NodeLaws (Tx : Type) `{AX : AuxPowEnv Tx} `{N : NodeEnv Tx} : Prop := {
  kaspa_commits : forall n pay fc b,
    kaspa_template n pay (merge_extra_data fc) = TplBlock b -> committed_h_fc b = Some (merge_key fc)
}.

Section Api.
Context {Tx : Type} `{AX : !AuxPowEnv Tx} `{AL : !AuxPowLaws Tx} `{N : !NodeEnv Tx} `{NL : !NodeLaws Tx}
  `{A : !AddressEnv}.
Implicit Types (api : KaspaApi Tx).

(** The Kaspa node, asked at an earlier call for a template that pays [pay] with the
    commitment of a block of this key, answered with [parent]. *)
Definition node_made (pay : text) (key : bytes) (parent : Block Tx) api : Prop :=
  exists n fc, (n < ka_calls api)%nat /\ merge_key fc = key /\
    kaspa_template n pay (merge_extra_data fc) = TplBlock parent.

Lemma node_made_later pay key parent api api' :
  (ka_calls api <= ka_calls api')%nat -> node_made pay key parent api -> node_made pay key parent api'.
Proof. intros L (n & fc & Hn & K & E). exists n, fc. split; [lia|done]. Qed.

(** The cached parent was made by the node for its payee and commits to its work. *)
Record api_ok api : Prop := {
  ak_pending : pending_ok (ka_pending_fc api);
  ak_cache : forall h pay parent at_, ka_kaspa_parent_cache api = Some (h, pay, parent, at_) ->
    node_made pay h parent api /\ committed_h_fc parent = Some h
}.

(** What a request may change. *)
Definition same_work api api' : Prop :=
  ka_pending_fc api' = ka_pending_fc api /\ ka_merged_mining api' = ka_merged_mining api /\
  ka_kaspa_pay api' = ka_kaspa_pay api /\ ka_guard api' = ka_guard api /\
  ka_kaspa_client api' = ka_kaspa_client api /\ (ka_calls api <= ka_calls api')%nat.

Lemma api_ok_later api api' :
  pending_ok (ka_pending_fc api') -> ka_kaspa_parent_cache api' = ka_kaspa_parent_cache api ->
  (ka_calls api <= ka_calls api')%nat -> api_ok api -> api_ok api'.
Proof.
  intros P E L [_ C]. split; [exact P|]. rewrite E. intros h pay parent at_ H.
  destruct (C h pay parent at_ H) as [M K]. split; [exact (node_made_later _ _ _ _ _ L M)|exact K].
Qed.

(** The address a parent is asked to pay: the given payee, or the pool. *)
Definition payee_address api (payee : option text) (pay : text) : Prop :=
  payee = Some pay \/ payee = None /\ ka_kaspa_pay api = Some pay.

(** The Kaspa node gave no parent for this block: it is not connected, there is no
    address to pay, or it answered with an error. *)
Definition node_silent api (payee : option text) (fc : Block Tx) : Prop :=
  ka_kaspa_client api = false \/ (payee = None /\ ka_kaspa_pay api = None) \/
  exists n pay, (n < ka_calls api)%nat /\ payee_address api payee pay /\
    forall b, kaspa_template n pay (merge_extra_data fc) <> TplBlock b.

Lemma fetch_sound fc payee force api r api' :
  api_ok api -> fetch_kaspa_parent (merge_key fc) (merge_extra_data fc) payee force api = (r, api') ->
  api_ok api' /\ same_work api api' /\
  match r with
  | Ok parent => committed_h_fc parent = Some (merge_key fc) /\
      exists pay, payee_address api payee pay /\ node_made pay (merge_key fc) parent api'
  | Err _ => node_silent api' payee fc
  end.
Proof.
  intros O. unfold fetch_kaspa_parent.
  destruct (ka_kaspa_client api) eqn:Ek; cbn [negb];
    [|intros [= <- <-]; split_and!; [exact O|repeat split; lia|now left]].
  destruct (match payee with Some a => Some a | None => ka_kaspa_pay api end) as [pay|] eqn:Ep.
  2: { intros [= <- <-]. split_and!; [exact O|repeat split; lia|right; left]. destruct payee; [discriminate|done]. }
  assert (payee_address api payee pay) as P by (unfold payee_address; destruct payee; naive_solver).
  clear Ep. cbn [api_ask]. set (now := node_instant _). unfold cached_parent at 1. cbn [ka_kaspa_parent_cache].
  destruct (ka_kaspa_parent_cache api) as [[[[ch cpay] cp] cat_]|] eqn:Ec.
  1: destruct (negb force && bool_decide (ch = merge_key fc) && bool_decide (cpay = pay) && _) eqn:Eh.
  1: { intros [= <- <-]. rewrite !andb_true_iff, !bool_decide_eq_true in Eh. destruct Eh as [[[_ ->] ->] _].
       destruct (ak_cache _ O _ _ _ _ Ec) as [I C]. split; [|split; [repeat split; cbn; auto; lia|]].
       - apply (api_ok_later api); cbn; auto; apply O.
       - split; [done|]. exists pay. split; [exact P|]. eapply node_made_later; [|exact I]. cbn. lia. }
  all: cbn [ka_calls api_ask]; destruct (kaspa_template _ pay _) as [e|e|b] eqn:Et; intros [= <- <-];
    (split; [|split; [repeat split; cbn; auto; lia|]]).
  all: try (apply (api_ok_later api); [apply O|done|cbn; lia|done]).
  all: try (right; right; exists (S (ka_calls api)), pay; cbn; split; [lia|]; split; [exact P|]; intros b; congruence).
  all: pose proof (kaspa_commits _ _ _ _ Et) as C.
  all: assert (node_made pay (merge_key fc) b (with_parent (merge_key fc) pay b
         (node_instant (S (S (ka_calls api)))) (snd (api_ask (fun _ => tt) (snd (api_ask (fun _ => tt)
           (snd (api_ask (fun _ => tt) api)))))))) as Hm by (exists (S (ka_calls api)), fc; cbn; split; [lia|done]).
  all: try (split; [done|]; exists pay; split; [exact P|exact Hm]).
  all: split; [apply O|]; cbn; intros h q x y [= <- <- <- <-]; split; [exact Hm|done].
Qed.

Lemma synthetic_commits fc bound : committed_h_fc (fst (build_parent_block_with fc bound)) = Some (merge_key_with fc bound).
Proof.
  unfold build_parent_block_with, committed_h_fc, merge_extra_data_with. cbn.
  destruct bound; rewrite ?ax_legacy_read, ?ax_v1_not_legacy, ?ax_v1_read; done.
Qed.

(** Whom a parent pays: the Kaspa node made it for that address, or the node gave
    none and it is the synthetic one, which pays nobody. *)
Definition pays api (payee : option text) (fc parent : Block Tx) : Prop :=
  (parent = fst (build_parent_block_with fc (bound_of fc)) /\ node_silent api payee fc) \/
  exists pay, payee_address api payee pay /\ node_made pay (merge_key fc) parent api.

Lemma merged_parent_sound fc kas_payout lane api parent api' :
  api_ok api -> merged_parent fc kas_payout lane api = (parent, api') ->
  let payee := lane_payee kas_payout lane (minute_of_hour (node_unix_secs (ka_calls api))) in
  api_ok api' /\ ka_merged_mining api' = ka_merged_mining api /\
  committed_h_fc parent = Some (merge_key fc) /\ pending_of api' parent = Some fc /\
  merged_lane_paid_pool api' parent = negb (bool_decide (is_Some payee)) /\ pays api' payee fc parent.
Proof.
  intros O. unfold merged_parent. cbn [api_ask]. set (payee := lane_payee _ _ _).
  set (api1 := mkApi _ _ _ _ _ _ _ _ _ _ _).
  assert (api_ok api1) as O1 by (apply (api_ok_later api); [apply O|done|cbn; lia|done]).
  destruct (fetch_kaspa_parent _ _ _ _ api1) as [r api2] eqn:Ef.
  destruct (fetch_sound fc payee false api1 r api2 O1 Ef) as (O2 & (W1 & W2 & W3 & W4 & W5 & W6) & H).
  intros [= <- <-]. cbn zeta.
  set (parent := match r with Ok p => p | Err _ => _ end).
  set (api' := with_pending_fc _ api2).
  assert (committed_h_fc parent = Some (merge_key fc)) as C.
  { destruct r as [p|e]; [apply H|apply synthetic_commits]. }
  assert (pending_ok (ka_pending_fc api2)) as P2 by apply O2.
  split_and!.
  - apply (api_ok_later api2); cbn; auto. now apply insert_ok.
  - exact W2.
  - done.
  - unfold pending_of. rewrite C. cbn. now apply insert_then_get.
  - unfold merged_lane_paid_pool. rewrite C. cbn. apply insert_then_paid.
  - destruct r as [p|e]; [right|left; split; [done|exact H]].
    destruct H as (_ & pay & Hp & I). exists pay. split; [|exact I].
    destruct Hp as [?|[? E]]; [now left|right]. split; [done|]. cbn in *. congruence.
Qed.

(** The parent once a miner found a nonce for it. *)
Definition solved_with (nonce : Z) (parent : Block Tx) : Block Tx :=
  mkBlk (set_nonce nonce (bl_header parent)) (bl_transactions parent).

(** What a lane's parent is good for: with any nonce it leads back to the ZKas
    block [fc]: its target and score are those of [fc], and submitting it hands the
    ZKas node the transactions of [fc] under the hash that was announced, with a
    proof over the solved header. *)
Definition leads_to api (fc parent : Block Tx) : Prop :=
  forall nonce, let solved := solved_with nonce parent in
  merged_fc_target api solved = Some (calculate_target (hd_bits (bl_header fc))) /\
  merged_zkas_daa api solved = Some (hd_daa_score (bl_header fc)) /\
  exists b aux, block_to_submit solved api = Ok (b, Some aux) /\
    bl_transactions b = bl_transactions fc /\ merged_chain_hash api solved = Some (ax_header_hash (bl_header b)) /\
    ap_parent_header aux = bl_header solved.

Lemma pending_leads api fc parent :
  ka_merged_mining api = true -> pending_of api parent = Some fc -> leads_to api fc parent.
Proof.
  intros M P nonce. cbn zeta.
  assert (pending_of api (solved_with nonce parent) = Some fc) as P' by exact P.
  unfold merged_fc_target, merged_zkas_daa, block_to_submit, merged_chain_hash. rewrite M, P'.
  split; [done|]. split; [done|].
  unfold pending_of in P'. unfold committed_h_fc, assemble_aux_block_with, chain_hash_with in *.
  destruct (bl_transactions (solved_with nonce parent)) as [|coinbase txs]; [discriminate|].
  destruct (match ax_committed_hash coinbase with Some h => Some h | None => _ end) as [key|]; [|discriminate].
  cbn in P'. rewrite P'. eexists _, _. split; [reflexivity|]. destruct (bound_of fc); done.
Qed.

Lemma template_attempts_sound retries wallet uid gen kas lane : forall api parent api',
  api_ok api -> ka_merged_mining api = true ->
  template_attempts retries wallet uid gen kas lane api = (Ok parent, api') ->
  api_ok api' /\ exists fc n address,
    resolve_coinbase_recipient (ka_coinbase_address_override api) wallet = Ok address /\
    zkas_template n address (build_lane_coinbase_tag (ka_coinbase_tag api) uid gen) = TplBlock fc /\
    let payee := lane_payee kas lane (minute_of_hour (node_unix_secs (S n))) in
    leads_to api' fc parent /\ pays api' payee fc parent /\
    merged_lane_paid_pool api' parent = negb (bool_decide (is_Some payee)).
Proof.
  induction retries as [|retries IH]; intros api parent api' O M; cbn [template_attempts];
    (destruct (resolve_coinbase_recipient _ _) as [address|] eqn:Er; [|discriminate]); cbn [api_ask];
    set (api1 := mkApi _ _ _ _ _ _ _ _ _ _ _);
    assert (api_ok api1) as O1 by (apply (api_ok_later api); [apply O|done|cbn; lia|done]);
    (destruct (zkas_template (ka_calls api) _ _) as [e|e|fc] eqn:Et;
      [try discriminate|destruct (odd_digits e); try discriminate|]).
  2, 3: intros H; destruct (IH api1 parent api' O1 M H) as [O' X]; (split; [exact O'|]); rewrite <- Er; exact X.
  all: change (ka_merged_mining api1) with (ka_merged_mining api); rewrite M;
    destruct (merged_parent fc kas lane api1) as [p api2] eqn:Em; intros [= <- <-];
    destruct (merged_parent_sound fc kas lane api1 p api2 O1 Em) as (O2 & M2 & C & P & L & Y);
    (split; [exact O2|]); exists fc, (ka_calls api), address; split_and!; auto;
    apply pending_leads; auto; rewrite M2; exact M.
Qed.

(** C25. A merged-mining template can be settled: the parent a lane is given leads
    back to a ZKas block the node made for the lane's recipient under the lane's
    own tag; the parent is the Kaspa node's answer to a request for a template that
    pays exactly the payee of that lane in that minute with this block's commitment,
    also when it comes out of the cache, or it is the synthetic one that pays nobody,
    and then the node gave none; and the record of whom the lane's parent pays
    agrees. *)
Theorem lane_parent_sound wallet uid gen kas lane api parent api' :
  api_ok api -> ka_merged_mining api = true ->
  get_block_template wallet uid gen kas lane api = (Ok parent, api') ->
  exists fc n address,
    resolve_coinbase_recipient (ka_coinbase_address_override api) wallet = Ok address /\
    zkas_template n address (build_lane_coinbase_tag (ka_coinbase_tag api) uid gen) = TplBlock fc /\
    let payee := lane_payee kas lane (minute_of_hour (node_unix_secs (S n))) in
    leads_to api' fc parent /\ pays api' payee fc parent /\
    merged_lane_paid_pool api' parent = negb (bool_decide (is_Some payee)).
Proof. intros O M H. eapply template_attempts_sound; eauto. Qed.

(** ** Parent refreshes and the fee minute *)

(** A refresh keeps the work and asks the Kaspa node for a parent. *)
Lemma refresh_requests api old payee h fc pay b :
  ka_merged_mining api = true -> ka_kaspa_client api = true -> committed_h_fc old = Some h ->
  is_unsolved (ka_pending_fc api) h = true -> pending_get (ka_pending_fc api) h = Some fc ->
  (match payee with Some a => Some a | None => ka_kaspa_pay api end) = Some pay ->
  kaspa_template (S (ka_calls api)) pay (merge_extra_data fc) = TplBlock b ->
  fst (refresh_merged_parent old payee api) = Ok (Some b) /\
  last (ka_parents (snd (refresh_merged_parent old payee api))) = Some (pay, h, b).
Proof.
  intros M K C U P Hp T. unfold refresh_merged_parent. rewrite M, K, C. cbn [negb orb]. rewrite U, P. cbn [negb].
  unfold fetch_kaspa_parent. rewrite K, Hp. cbn [negb api_ask ka_calls]. unfold cached_parent. cbn [ka_kaspa_parent_cache].
  assert (match ka_kaspa_parent_cache api with
          | Some (ch, cpay, parent, at_) =>
              if negb true && bool_decide (ch = h) && bool_decide (cpay = pay) &&
                 (duration_since (node_instant (ka_calls api)) at_ <? KASPA_PARENT_TTL) then Some parent else None
          | None => None end = None) as -> by (destruct (ka_kaspa_parent_cache api) as [[[[? ?] ?] ?]|]; done).
  rewrite T. cbn. split; [done|]. apply last_snoc.
Qed.

(** A parent refresh moves the payout: the lane's record says that its parent
    pays the pool, and the refresh is documented to keep paying whom the original
    template paid, but the trait through which the record is read always answers
    no, so the Kaspa node is asked for a parent that pays the miner. *)
Theorem refresh_pays_miner_in_fee_minute api old miner h fc b :
  ka_merged_mining api = true -> ka_kaspa_client api = true -> committed_h_fc old = Some h ->
  is_unsolved (ka_pending_fc api) h = true -> pending_get (ka_pending_fc api) h = Some fc ->
  kaspa_template (S (ka_calls api)) miner (merge_extra_data fc) = TplBlock b ->
  merged_lane_paid_pool api old = true ->
  fst (refresh_lane_parent old (Some miner) api) = Ok (Some b) /\
  last (ka_parents (snd (refresh_lane_parent old (Some miner) api))) = Some (miner, h, b).
Proof. intros M K C U P T _. now apply (refresh_requests api old (Some miner) h fc miner b). Qed.

(** ** Submissions *)

Lemma submit_keeps_pending block api : ka_pending_fc (snd (submit_block block api)) = ka_pending_fc api /\
  ka_merged_mining (snd (submit_block block api)) = ka_merged_mining api.
Proof.
  unfold submit_block. destruct (block_to_submit block api) as [[b aux]|]; [|done]. cbn [api_ask ka_guard].
  destruct (try_mark _ _ _) as [[] g]; [|done]. cbn [negb]. cbn.
  now destruct (zkas_submit _ _ _).
Qed.

(** A submission that fails on the way to the node is lost: the guard forgets its
    hash so that it can be retried, but the work stays claimed, so no later
    solution of it is submitted. *)
Lemma failed_submission_lost job block api key :
  ka_merged_mining api = true -> committed_h_fc job = Some key ->
  fst (claim_network_solution job api) = true ->
  let api1 := snd (claim_network_solution job api) in
  let api2 := snd (submit_block block api1) in
  fst (submit_block block api1) = Err (SubmitRefused (lit "Failed to submit block")) ->
  (exists b aux, block_to_submit block api1 = Ok (b, aux) /\
    bg_entries (ka_guard api2) !! BlockHash_display (ax_header_hash (bl_header b)) = None) /\
  forall job', committed_h_fc job' = Some key -> fst (claim_network_solution job' api2) = false.
Proof.
  intros M C H api1 api2 F. split.
  - unfold api2. clearbody api1. clear -F. unfold submit_block in *.
    destruct (block_to_submit block api1) as [[b aux]|e] eqn:Eb.
    2: { cbn in F. unfold block_to_submit in Eb. destruct (ka_merged_mining api1); [|discriminate].
         destruct (pending_of api1 block); [destruct (assemble_aux_block_with _ _ _) as [[]|]|]; try discriminate;
         injection Eb as <-; discriminate. }
    exists b, aux. split; [done|]. cbn [api_ask ka_guard] in *.
    destruct (try_mark _ _ _) as [[] g]; cbn [negb] in *; [|discriminate]. cbn in *.
    destruct (zkas_submit _ _ _); cbn in *; try discriminate; apply lookup_delete_eq.
  - intros job' C'. unfold claim_network_solution in *.
    destruct (submit_keeps_pending block api1) as [P Mm]. fold api2 in P, Mm. rewrite Mm.
    unfold api1 in P, Mm |- *. rewrite M, C in *. cbn [negb] in *. rewrite C'.
    unfold claim_solution in *. destruct (mp_map (ka_pending_fc api) !! key) eqn:E; cbn in *; [|discriminate].
    rewrite M. cbn [negb]. rewrite P. cbn. rewrite E. cbn. apply bool_decide_false. set_solver.
Qed.
End Api.

(** ** A lane in its fee minute *)

#[local] Existing Instance ClientSpec.shape_env.

#[local] Instance demo_node : NodeEnv bytes := {|
  zkas_template := fun _ _ _ => TplBlock demo_fc;
  kaspa_template := fun _ pay extra => TplBlock (mkBlk sample_header [extra; pay]);
  zkas_submit := fun _ _ _ => SubSuccess;
  kaspa_submit := fun _ _ => SubSuccess;
  node_instant := fun n => secs (Z.of_nat n);
  node_unix_secs := fun _ => 60 * fee_start 1;
  commitment_form := fun _ => Some [5];
  parent_pow_ok := fun _ => true
|}.

#[local] Instance demo_node_laws : NodeLaws bytes.
Proof. constructor. intros n pay fc b [= <-]. reflexivity. Qed.

Definition demo_miner : text := lit "kaspa:qqminer".
Definition demo_api : KaspaApi bytes := api_new None None true true (lit "kaspa:qqpool").
Definition demo_template : result (Block bytes) text * KaspaApi bytes :=
  get_block_template (lit "kaspa:qqabc") 1 1 (Some demo_miner) 1 demo_api.
Definition demo_parent : Block bytes := match fst demo_template with Ok p => p | Err _ => demo_fc end.
Definition demo_payees (api : KaspaApi bytes) : list text := map (fun r => fst (fst r)) (ka_parents api).

Lemma api_new_ok suffix override merged connected pay :
  api_ok (Tx:=bytes) (api_new (Tx:=bytes) suffix override merged connected pay).
Proof. split; [apply pending_new_ok|discriminate]. Qed.

Lemma lane_parent_sound_witness :
  demo_payees (snd demo_template) = [lit "kaspa:qqpool"] /\
  exists fc n address,
    resolve_coinbase_recipient (ka_coinbase_address_override demo_api) (lit "kaspa:qqabc") = Ok address /\
    zkas_template n address (build_lane_coinbase_tag (ka_coinbase_tag demo_api) 1 1) = TplBlock fc /\
    let payee := lane_payee (Some demo_miner) 1 (minute_of_hour (node_unix_secs (Tx:=bytes) (S n))) in
    leads_to (snd demo_template) fc demo_parent /\ pays (snd demo_template) payee fc demo_parent /\
    merged_lane_paid_pool (snd demo_template) demo_parent = negb (bool_decide (is_Some payee)).
Proof.
  split; [vm_compute; reflexivity|]. apply (lane_parent_sound (lit "kaspa:qqabc") 1 1 (Some demo_miner) 1 demo_api).
  - apply api_new_ok.
  - reflexivity.
  - vm_compute. reflexivity.
Defined.

Lemma refresh_pays_miner_in_fee_minute_witness :
  demo_payees (snd demo_template) = [lit "kaspa:qqpool"] /\
  demo_payees (snd (refresh_lane_parent demo_parent (Some demo_miner) (snd demo_template)))
    = [lit "kaspa:qqpool"; demo_miner] /\
  last (ka_parents (snd (refresh_lane_parent demo_parent (Some demo_miner) (snd demo_template))))
    = Some (demo_miner, merge_key demo_fc, mkBlk sample_header [merge_extra_data demo_fc; demo_miner]).
Proof.
  split; [vm_compute; reflexivity|]. split; [vm_compute; reflexivity|].
  apply (refresh_pays_miner_in_fee_minute (snd demo_template) demo_parent demo_miner (merge_key demo_fc) demo_fc);
    vm_compute; reflexivity.
Defined.
