(* ===== verification/Config.v ===== *)
(** * Configuration values ([katpool/src/main.rs], [crates/katpool-config],
      [crates/katpool-secrets], [crates/katpool-db/src/pool.rs], [api/src/config.rs])

    How texts from the environment and from the configuration file become typed
    settings: the standard library's number and socket-address parsers, the
    environment readers of the runtime, the file layer with its validation, the
    settings of the API and of the connection pool, and the loading of the
    treasury key.  The reader of YAML and TOML files and the file system are
    parameters. *)
From Stdlib Require Import SpecFloat.
From S2P Require Import Prelude F64 Schema Domain Hasher IngestDb SessionDb AntiAbuse StratumRpc Handshake.
Open Scope Z_scope.

(** ** Parsers of the standard library *)

(** A run of digits, added up with overflow checks. *)
Fixpoint add_digits (top acc : Z) (s : text) : option Z :=
  match s with
  | [] => Some acc
  | c :: s =>
      if is_ascii_digit c then
        let acc := acc * 10 + (c - 48) in
        if acc <=? top then add_digits top acc s else None
      else None
  end.

(** The same below zero. *)
Fixpoint sub_digits (bottom acc : Z) (s : text) : option Z :=
  match s with
  | [] => Some acc
  | c :: s =>
      if is_ascii_digit c then
        let acc := acc * 10 - (c - 48) in
        if bottom <=? acc then sub_digits bottom acc s else None
      else None
  end.

(** [str::parse] of an unsigned integer whose largest value is [top]. *)
Definition parse_unsigned (top : Z) (s : text) : option Z :=
  match s with
  | [] => None
  | [c] => if c =? 43 then None else add_digits top 0 s
  | c :: rest => if c =? 43 then add_digits top 0 rest else add_digits top 0 s
  end.

(** [str::parse::<i64>] *)
Definition parse_i64 (s : text) : option Z :=
  match s with
  | [] => None
  | [c] => if (c =? 43) || (c =? 45) then None else add_digits i64_max 0 s
  | c :: rest =>
      if c =? 43 then add_digits i64_max 0 rest
      else if c =? 45 then sub_digits i64_min 0 rest
      else add_digits i64_max 0 s
  end.

Definition u8_max : Z := 2 ^ 8 - 1.
Definition u16_max : Z := 2 ^ 16 - 1.
Definition parse_u8 : text -> option Z := parse_unsigned u8_max.
Definition parse_port : text -> option Z := parse_unsigned u16_max.
Definition parse_u32 : text -> option Z := parse_unsigned u32_max.
Definition parse_u64 : text -> option Z := parse_unsigned u64_max.
Definition parse_u128 : text -> option Z := parse_unsigned (2 ^ 128 - 1).

(** The double nearest to [m * 10 ^ e]: a quotient with 64 more bits than the
    format holds and a last bit that says whether anything was cut off. *)
Definition f64_of_decimal (negative : bool) (m e : Z) : f64 :=
  let x :=
    if m =? 0 then S754_zero false
    else if 0 <=? e then f64_of_Z (m * 10 ^ e)
    else
      let d := 10 ^ (- e) in
      let shift := Z.max 0 (120 + Z.log2 d - Z.log2 m) in
      let q := Z.shiftl m shift / d in
      let sticky := if Z.shiftl m shift mod d =? 0 then 0 else 1 in
      binary_normalize 53 1024 (2 * q + sticky) (- shift - 1) false in
  if negative then SFopp x else x.

(** The longest run of digits: value, count and rest. *)
Fixpoint take_digits (acc count : Z) (s : text) : Z * Z * text :=
  match s with
  | c :: s' => if is_ascii_digit c then take_digits (acc * 10 + (c - 48)) (count + 1) s' else (acc, count, s)
  | [] => (acc, count, [])
  end.

Definition take_sign (s : text) : bool * text :=
  match s with
  | c :: rest => if c =? 45 then (true, rest) else if c =? 43 then (false, rest) else (false, s)
  | [] => (false, [])
  end.

(** The exponent after [e] or [E]: a sign and at least one digit. *)
Definition take_exponent (s : text) : option Z :=
  match s with
  | [] => Some 0
  | c :: s =>
      if (c =? 101) || (c =? 69) then
        let '(negative, s) := take_sign s in
        let '(v, count, rest) := take_digits 0 0 s in
        if (count =? 0) || negb (bool_decide (rest = [])) then None
        else Some (if negative then - v else v)
      else None
  end.

(** [str::parse::<f64>] *)
Definition parse_f64 (s : text) : option f64 :=
  let '(negative, body) := take_sign s in
  let word := to_ascii_lowercase body in
  if bool_decide (word = lit "inf") || bool_decide (word = lit "infinity") then Some (S754_infinity negative)
  else if bool_decide (word = lit "nan") then Some S754_nan
  else
    let '(whole, n, rest) := take_digits 0 0 body in
    let '(m, k, rest) :=
      match rest with
      | c :: rest' => if c =? 46 then take_digits whole 0 rest' else (whole, 0, rest)
      | [] => (whole, 0, [])
      end in
    if n + k =? 0 then None
    else match take_exponent rest with
         | None => None
         | Some e => Some (f64_of_decimal negative m (e - k))
         end.

(** [SocketAddr::from_str] *)
Inductive SocketAddr :=
| SocketV4 (octets : list Z) (port : Z)
| SocketV6 (groups : list Z) (scope_id port : Z).

Definition read_unbounded (top : Z) : reader Z := fun s => read_number 10 (length s) true top s.

Definition read_port : reader Z :=
  fun s => '(_, s) ← read_char 58 s; read_unbounded u16_max s.

Definition read_scope_id : reader Z :=
  fun s => '(_, s) ← read_char 37 s; read_unbounded u32_max s.

Definition read_socket_addr_v4 : reader SocketAddr :=
  fun s =>
    '(ip, s) ← read_ipv4_addr s;
    '(port, s) ← read_port s;
    Some (SocketV4 ip port, s).

Definition read_socket_addr_v6 : reader SocketAddr :=
  fun s =>
    '(_, s) ← read_char 91 s;
    '(ip, s) ← read_ipv6_addr s;
    let '(scope_id, s) := default (0, s) (read_scope_id s) in
    '(_, s) ← read_char 93 s;
    '(port, s) ← read_port s;
    Some (SocketV6 ip scope_id port, s).

Definition parse_socket_addr (s : text) : option SocketAddr :=
  whole (fun s => match read_socket_addr_v4 s with
                  | Some r => Some r
                  | None => read_socket_addr_v6 s
                  end) s.

Example parse_socket_addr_forms :
  parse_socket_addr (lit "0.0.0.0:9301") = Some (SocketV4 [0; 0; 0; 0] 9301) /\
  parse_socket_addr (lit "[::1]:80") = Some (SocketV6 [0; 0; 0; 0; 0; 0; 0; 1] 0 80) /\
  parse_socket_addr (lit "8080") = None /\ parse_socket_addr [] = None.
Proof. by vm_compute. Qed.

Example parse_f64_forms :
  parse_f64 (lit "12.5") = Some (f64_div (f64_of_Z 25) (f64_of_Z 2)) /\
  parse_f64 (lit "0.1") = Some (f64_div (f64_of_Z 1) (f64_of_Z 10)) /\
  parse_f64 (lit ".5e1") = Some (f64_of_Z 5) /\ parse_f64 (lit "1e400") = Some (S754_infinity false) /\
  parse_f64 (lit ".") = None /\ parse_f64 (lit "1e") = None /\ parse_f64 [] = None.
Proof. by vm_compute. Qed.

(** ** Reading the environment *)

(** [std::env::var(key).ok()] for every key: the process environment. *)
Definition Vars : Type := string -> option text.

(** What stops the start-up while the configuration is read. *)
Inductive ConfError :=
| ConfUnset (var : string)
| ConfNumber (var : string) (raw : text)
| ConfBool (var : string) (raw : text)
| ConfBind (var : string) (raw : text)
| ConfPortEntry (entry : text)
| ConfPort (entry : text)
| ConfSeed (entry : text)
| ConfAddress (entry : text)
| ConfNoAddress
| ConfParentAddress
| ConfNetwork (resolved : text)
| ConfTier (raw : text)
| ConfFileSource (path : text)
| ConfFileInvalid (path : text)
| ConfApiValue (key : string) (raw : text)
| ConfApiZero (key : string).

Section Environment.
Context (vars : Vars).

(** An empty value counts as none. *)
Definition optional (var : string) : option text :=
  match vars var with Some [] => None | o => o end.

Definition optional_parsed {A} (parse : text -> option A) (bad : string -> text -> ConfError) (var : string)
  : result (option A) ConfError :=
  match optional var with
  | None => Ok None
  | Some s => let? v := ok_or (parse s) (bad var s) in Ok (Some v)
  end.

Definition optional_u16 : string -> result (option Z) ConfError := optional_parsed parse_port ConfNumber.
Definition optional_u32 : string -> result (option Z) ConfError := optional_parsed parse_u32 ConfNumber.
Definition optional_u64 : string -> result (option Z) ConfError := optional_parsed parse_u64 ConfNumber.
Definition optional_i64 : string -> result (option Z) ConfError := optional_parsed parse_i64 ConfNumber.
Definition optional_u128 : string -> result (option Z) ConfError := optional_parsed parse_u128 ConfNumber.
Definition optional_usize : string -> result (option Z) ConfError := optional_parsed parse_u64 ConfNumber.

Definition parse_switch (s : text) : option bool :=
  let s := to_ascii_lowercase s in
  if existsb (fun w => bool_decide (s = lit w)) ["true"; "1"; "yes"; "on"]%string then Some true
  else if existsb (fun w => bool_decide (s = lit w)) ["false"; "0"; "no"; "off"]%string then Some false
  else None.

Definition optional_bool : string -> result (option bool) ConfError :=
  optional_parsed parse_switch (fun var s => ConfBool var (to_ascii_lowercase s)).

Definition require (var : string) (file_value : option text) : result text ConfError :=
  match optional var with
  | Some v => Ok v
  | None => ok_or file_value (ConfUnset var)
  end.
End Environment.

(** [o.or(file).unwrap_or(default)] after the environment was read. *)
Definition layered {A} (o file : option A) (fallback : A) : A :=
  match o with
  | Some v => v
  | None => default fallback file
  end.

Definition parse_bind_addr (var : string) (s : text) : result SocketAddr ConfError :=
  let normalized := match strip_prefix [58] s with Some port => lit "0.0.0.0:" ++ port | None => s end in
  ok_or (parse_socket_addr normalized) (ConfBind var s).

(** [map(..).transpose()]. *)
Definition option_map_result {A B E} (f : A -> result B E) (o : option A) : result (option B) E :=
  match o with
  | None => Ok None
  | Some a => let? b := f a in Ok (Some b)
  end.

(** [collect::<Result<Vec<_>, _>>()]: the first error wins. *)
Fixpoint collect_results {A B E} (f : A -> result B E) (l : list A) : result (list B) E :=
  match l with
  | [] => Ok []
  | a :: l => let? b := f a in let? bs := collect_results f l in Ok (b :: bs)
  end.

(** The trimmed, non-empty parts of a comma-separated list. *)
Definition comma_parts (s : text) : list text :=
  List.filter (fun p => negb (bool_decide (p = []))) (map trim (split_at (Z.eqb 44) s)).

Definition parse_stratum_entry (entry : text) : result (text * Z) ConfError :=
  let? ps := ok_or (split_once_colon entry) (ConfPortEntry entry) in
  let port := trim (fst ps) in
  let? _ := ok_or (parse_port port) (ConfPort entry) in
  let? seed := ok_or (parse_u32 (trim (snd ps))) (ConfSeed entry) in
  Ok (port, seed).

Definition parse_stratum_ports (raw : option text) : result (list (text * Z)) ConfError :=
  match raw with
  | None => Ok []
  | Some raw =>
      let raw := trim raw in
      if bool_decide (raw = []) then Ok [] else collect_results parse_stratum_entry (comma_parts raw)
  end.

Inductive TierClassifierKind := Static | Kasplex.

Definition TierClassifierKind_parse (raw : option text) : result TierClassifierKind ConfError :=
  match raw with
  | None => Ok Static
  | Some raw =>
      if bool_decide (raw = lit "static") then Ok Static
      else if bool_decide (raw = lit "kasplex") then Ok Kasplex
      else Err (ConfTier raw)
  end.

(** ** The configuration file *)

Record FileConfig := mkFileConfig {
  fc_kaspad_url : option text;
  fc_database_url : option text;
  fc_pool_address : option text;
  fc_network : option text;
  fc_instance_id : option text;
  fc_stratum_port : option text;
  fc_stratum_ports : option text;
  fc_min_share_diff : option Z;
  fc_var_diff : option bool;
  fc_shares_per_min : option Z;
  fc_proxy_protocol : option bool;
  fc_fee_topline_bps : option Z;
  fc_broadcast_capacity : option Z;
  fc_prom_port : option text;
  fc_api_port : option text;
  fc_health_check_port : option text;
  fc_maturity_poll_secs : option Z;
  fc_coinbase_maturity : option Z;
  fc_window_daa_span : option Z;
  fc_maturity_batch_size : option Z;
  fc_tier_classifier : option text;
  fc_shutdown_drain_secs : option Z
}.

Definition FileConfig_default : FileConfig :=
  mkFileConfig None None None None None None None None None None None None None None None None None None None
    None None None.

Definition within (p : Z -> bool) (o : option Z) : bool := match o with Some v => p v | None => true end.

(** The [validate] attributes of the fields. *)
Definition FileConfig_valid (f : FileConfig) : bool :=
  within (Z.leb 1) (fc_min_share_diff f)
  && within (Z.leb 1) (fc_shares_per_min f)
  && within (fun v => v <=? 10000) (fc_fee_topline_bps f)
  && within (Z.leb 1) (fc_broadcast_capacity f)
  && within (Z.leb 1) (fc_maturity_poll_secs f).

(** [load]: [read] finds, parses and types the file, and refuses unknown keys. *)
Definition FileConfig_load (read : text -> option FileConfig) (path : text) : result FileConfig ConfError :=
  let? parsed := ok_or (read path) (ConfFileSource path) in
  if FileConfig_valid parsed then Ok parsed else Err (ConfFileInvalid path).

(** ** Settings of the API ([api/src/config.rs]) *)

Record ApiConfig := mkApiConfig {
  rate_per_second : Z;
  rate_burst : Z;
  request_timeout_secs : Z;
  pool_cache_ttl_secs : Z;
  wallet_cache_ttl_secs : Z;
  cors_allow_origin : option text;
  api_mps_pool_name : text;
  api_mps_url : text;
  api_mps_country : text;
  api_mps_fee_type : text;
  api_mps_fee_bps : Z;
  api_mps_min_pay_kas : Z;
  api_mps_pool_address : text;
  api_mps_ad_image_link : text
}.

Definition ApiConfig_default : ApiConfig :=
  mkApiConfig 5 20 10 10 5 None (lit "Kat Pool") (lit "app.katpool.com") (lit "US") (lit "PROP") 50 10 []
    (lit "https://app.katpool.xyz/images/katpoolad.gif").

(** A present value must parse; an absent one leaves the default. *)
Definition lookup_parsed {A} (parse : text -> option A) (lookup : Vars) (key : string) (fallback : A)
  : result A ConfError :=
  match lookup key with
  | None => Ok fallback
  | Some raw => ok_or (parse raw) (ConfApiValue key raw)
  end.

(** [set_str]: the trimmed value unless it is empty. *)
Definition set_str (slot : text) (raw : option text) : text :=
  match raw with
  | None => slot
  | Some v => if bool_decide (trim v = []) then slot else trim v
  end.

Definition first_part (raw : text) : text := trim (default raw (head (split_at (Z.eqb 44) raw))).

Definition ApiConfig_validate (c : ApiConfig) : result unit ConfError :=
  if rate_per_second c =? 0 then Err (ConfApiZero "KATPOOL_API_RATE_PER_SECOND")
  else if rate_burst c =? 0 then Err (ConfApiZero "KATPOOL_API_RATE_BURST")
  else if request_timeout_secs c =? 0 then Err (ConfApiZero "KATPOOL_API_REQUEST_TIMEOUT_SECS")
  else Ok tt.

Definition ApiConfig_from_lookup (lookup : Vars) : result ApiConfig ConfError :=
  let d := ApiConfig_default in
  let? rate := lookup_parsed parse_u64 lookup "KATPOOL_API_RATE_PER_SECOND" (rate_per_second d) in
  let? burst := lookup_parsed parse_u32 lookup "KATPOOL_API_RATE_BURST" (rate_burst d) in
  let? timeout := lookup_parsed parse_u64 lookup "KATPOOL_API_REQUEST_TIMEOUT_SECS" (request_timeout_secs d) in
  let? pool_ttl := lookup_parsed parse_u64 lookup "KATPOOL_API_POOL_CACHE_TTL_SECS" (pool_cache_ttl_secs d) in
  let? wallet_ttl := lookup_parsed parse_u64 lookup "KATPOOL_API_WALLET_CACHE_TTL_SECS" (wallet_cache_ttl_secs d) in
  let cors :=
    match lookup "KATPOOL_API_CORS_ALLOW_ORIGIN"%string with
    | Some raw => if bool_decide (trim raw = []) then cors_allow_origin d else Some (trim raw)
    | None => cors_allow_origin d
    end in
  let name := set_str (api_mps_pool_name d) (lookup "KATPOOL_MPS_POOL_NAME"%string) in
  let url := set_str (api_mps_url d) (lookup "KATPOOL_MPS_URL"%string) in
  let country := set_str (api_mps_country d) (lookup "KATPOOL_MPS_COUNTRY"%string) in
  let fee_type := set_str (api_mps_fee_type d) (lookup "KATPOOL_MPS_FEE_TYPE"%string) in
  let ad := set_str (api_mps_ad_image_link d) (lookup "KATPOOL_MPS_AD_IMAGE_LINK"%string) in
  let? fee_bps := lookup_parsed parse_u32 lookup "KATPOOL_MPS_FEE_BPS" (api_mps_fee_bps d) in
  let? min_pay := lookup_parsed parse_i64 lookup "KATPOOL_MPS_MIN_PAY_KAS" (api_mps_min_pay_kas d) in
  let pool_address :=
    match lookup "KATPOOL_POOL_ADDRESS"%string with
    | Some raw => if bool_decide (first_part raw = []) then api_mps_pool_address d else first_part raw
    | None => api_mps_pool_address d
    end in
  let cfg := mkApiConfig rate burst timeout pool_ttl wallet_ttl cors name url country fee_type fee_bps min_pay
               pool_address ad in
  let? _ := ApiConfig_validate cfg in
  Ok cfg.

(** ** Settings of the connection pool ([katpool-db/src/pool.rs]) *)

Record PoolConfig := mkPoolConfig {
  pl_url : text;
  pl_min_connections : Z;
  pl_max_connections : Z;
  pl_acquire_timeout_secs : Z;
  pl_idle_timeout_secs : Z;
  pl_max_lifetime_secs : Z;
  pl_statement_timeout_secs : Z;
  pl_application_name : text
}.

Definition PoolConfig_production (url : text) : PoolConfig :=
  mkPoolConfig url 4 32 5 600 3600 30 (lit "katpool").

(** [DbError::Config], by the check that built the message. *)
Inductive PoolConfigError :=
| UrlUnset
| UrlEmpty
| NoConnections
| MinAboveMax (min max : Z)
| ZeroStatementTimeout
| PoolValue (key : string) (raw : text).

Definition PoolConfig_validate (c : PoolConfig) : result unit PoolConfigError :=
  if bool_decide (pl_url c = []) then Err UrlEmpty
  else if pl_max_connections c =? 0 then Err NoConnections
  else if pl_max_connections c <? pl_min_connections c
  then Err (MinAboveMax (pl_min_connections c) (pl_max_connections c))
  else if pl_statement_timeout_secs c =? 0 then Err ZeroStatementTimeout
  else Ok tt.

Definition pool_parsed (parse : text -> option Z) (lookup : Vars) (key : string) (fallback : Z)
  : result Z PoolConfigError :=
  match lookup key with
  | None => Ok fallback
  | Some raw => ok_or (parse raw) (PoolValue key raw)
  end.

Definition PoolConfig_from_lookup (lookup : Vars) : result PoolConfig PoolConfigError :=
  let? url := ok_or (lookup "KATPOOL_DATABASE_URL"%string) UrlUnset in
  let d := PoolConfig_production url in
  let? min := pool_parsed parse_u32 lookup "KATPOOL_DB_MIN_CONNECTIONS" (pl_min_connections d) in
  let? max := pool_parsed parse_u32 lookup "KATPOOL_DB_MAX_CONNECTIONS" (pl_max_connections d) in
  let? acquire := pool_parsed parse_u64 lookup "KATPOOL_DB_ACQUIRE_TIMEOUT_SECS" (pl_acquire_timeout_secs d) in
  let? idle := pool_parsed parse_u64 lookup "KATPOOL_DB_IDLE_TIMEOUT_SECS" (pl_idle_timeout_secs d) in
  let? lifetime := pool_parsed parse_u64 lookup "KATPOOL_DB_MAX_LIFETIME_SECS" (pl_max_lifetime_secs d) in
  let? statement := pool_parsed parse_u64 lookup "KATPOOL_DB_STATEMENT_TIMEOUT_SECS" (pl_statement_timeout_secs d) in
  let name := default (pl_application_name d) (lookup "KATPOOL_DB_APPLICATION_NAME"%string) in
  let cfg := mkPoolConfig url min max acquire idle lifetime statement name in
  let? _ := PoolConfig_validate cfg in
  Ok cfg.

(** ** Settings of the abuse guard ([bridge/src/anti_abuse.rs]) *)

(** The environment value that did not parse. *)
Inductive AbuseEnvError :=
| AbuseEnvValue (key : string) (raw : text)
| AbuseInvalid (e : AntiAbuseConfigError).

Definition parse_env {A} (parse : text -> option A) (lookup : Vars) (key : string) (fallback : A)
  : result A AbuseEnvError :=
  match lookup key with
  | Some raw => ok_or (parse raw) (AbuseEnvValue key raw)
  | None => Ok fallback
  end.

Definition abuse_from_lookup (lookup : Vars) : result AntiAbuseConfig AbuseEnvError :=
  let d := production in
  let? conns := parse_env parse_u32 lookup "KATPOOL_ANTI_ABUSE_MAX_CONN_PER_IP" (aa_max_conn_per_ip d) in
  let? ips := parse_env parse_u64 lookup "KATPOOL_ANTI_ABUSE_MAX_TRACKED_IPS" (aa_max_tracked_ips d) in
  let? rate := parse_env parse_f64 lookup "KATPOOL_ANTI_ABUSE_FRAME_RATE_PER_SEC" (aa_frame_rate_per_sec d) in
  let? burst := parse_env parse_f64 lookup "KATPOOL_ANTI_ABUSE_FRAME_BURST" (aa_frame_burst d) in
  map_err AbuseInvalid (abuse_config_new conns ips rate burst).

(** ** The treasury key ([katpool-secrets/src]) *)

Definition KEY_LEN : nat := 32.
Definition TREASURY_CREDENTIAL_ID : text := lit "treasury-key".

Inductive SecretError :=
| CredentialsDirUnset
| SecretRead (path source : text)
| InvalidKeyMaterial
| AllZeroKey
| Mlock (source : text).

Record TreasurySecret := mkSecret { expose_secret : bytes }.

(** Where the key comes from. *)
Inductive KeySource :=
| SystemdCredential (name : text)
| KeyFile (path : text).

(** The file system, [std::env::var_os], [mlock] and the hex crate's
    [decode_to_slice] into 32 bytes. *)
Class SecretEnv := {
  sv_read_to_string : text -> result text text;
  sv_var_os : string -> option text;
  sv_mlock : result unit text;
  sv_decode_key : text -> option bytes
}.

Section Secrets.
Context `{SV : !SecretEnv}.

Definition from_bytes (bs : bytes) : result TreasurySecret SecretError :=
  if forallb (Z.eqb 0) bs then Err AllZeroKey
  else let? _ := map_err Mlock sv_mlock in Ok (mkSecret bs).

Definition from_hex (hex_str : text) : result TreasurySecret SecretError :=
  let? bs := ok_or (sv_decode_key (trim hex_str)) InvalidKeyMaterial in
  from_bytes bs.

Definition load_from_path (path : text) : result TreasurySecret SecretError :=
  let? raw := map_err (SecretRead path) (sv_read_to_string path) in
  from_hex raw.

(** [Path::join]. *)
Definition path_join (dir name : text) : text :=
  match name with
  | 47 :: _ => name
  | _ =>
      match rev dir with
      | [] => name
      | 47 :: _ => dir ++ name
      | _ => dir ++ 47 :: name
      end
  end.

Definition load_from_systemd_credential (name : text) : result TreasurySecret SecretError :=
  let? dir := ok_or (sv_var_os "CREDENTIALS_DIRECTORY"%string) CredentialsDirUnset in
  load_from_path (path_join dir name).

Definition load_key (source : KeySource) : result TreasurySecret SecretError :=
  match source with
  | KeyFile path => load_from_path path
  | SystemdCredential name => load_from_systemd_credential name
  end.
End Secrets.
