(* ===== verification/ConfigSpec.v ===== *)
(** * What the readers of the configuration guarantee

    Parsed integers stay in their width and printed ones are read back; lists of
    stratum ports survive a round trip; the key loader accepts exactly the 64-digit
    texts of a non-zero key. *)
From Stdlib Require Import SpecFloat.
From S2P Require Import Prelude F64 Schema Domain Hasher IngestDb SessionDb AntiAbuse StratumRpc Handshake ClientSpec Api ApiSpec Config.
Open Scope Z_scope.

(** ** Integers *)

Lemma is_ascii_digit_range c : is_ascii_digit c = true <-> 48 <= c <= 57.
Proof. unfold is_ascii_digit. rewrite andb_true_iff, !Z.leb_le. done. Qed.

Lemma add_digits_range top s : forall acc v, 0 <= acc <= top -> add_digits top acc s = Some v -> 0 <= v <= top.
Proof.
  induction s as [|c s IH]; simpl; intros acc v Ha H; [by injection H as <-|].
  destruct (is_ascii_digit c) eqn:D; [|done]. apply is_ascii_digit_range in D.
  destruct (Z.leb_spec (acc * 10 + (c - 48)) top); [|done]. eapply IH; [|exact H]. lia.
Qed.

Lemma sub_digits_range bottom s : forall acc v, bottom <= acc <= 0 -> sub_digits bottom acc s = Some v -> bottom <= v <= 0.
Proof.
  induction s as [|c s IH]; simpl; intros acc v Ha H; [by injection H as <-|].
  destruct (is_ascii_digit c) eqn:D; [|done]. apply is_ascii_digit_range in D.
  destruct (Z.leb_spec bottom (acc * 10 - (c - 48))); [|done]. eapply IH; [|exact H]. lia.
Qed.

Lemma parse_unsigned_range top s v : 0 <= top -> parse_unsigned top s = Some v -> 0 <= v <= top.
Proof.
  intros T. unfold parse_unsigned. destruct s as [|c [|d s]]; [done| |]; destruct (c =? 43); try done;
    apply add_digits_range; lia.
Qed.

Lemma parse_i64_range s v : parse_i64 s = Some v -> in_i64 v.
Proof.
  unfold parse_i64, in_i64. intros H.
  assert (0 <= v <= i64_max \/ i64_min <= v <= 0) as R.
  { destruct s as [|c [|d s]]; [done| |].
    - destruct (_ || _); [done|]. left. eapply add_digits_range, H. vm_compute. split; discriminate.
    - destruct (c =? 43); [left; eapply add_digits_range, H; vm_compute; split; discriminate|].
      destruct (c =? 45); [right; eapply sub_digits_range, H; vm_compute; split; discriminate|].
      left. eapply add_digits_range, H. vm_compute. split; discriminate. }
  unfold i64_min, i64_max in *. lia.
Qed.

Definition dec_from (acc : Z) (s : text) : Z := fold_left (fun a c => a * 10 + (c - 48)) s acc.

Lemma dec_from_grows s : forall acc, 0 <= acc -> forallb is_ascii_digit s = true -> acc <= dec_from acc s.
Proof.
  induction s as [|c s IH]; intros acc Ha H; [done|]. cbn in *. apply andb_true_iff in H as [D%is_ascii_digit_range Hs].
  etrans; [|apply IH; [lia|done]]. lia.
Qed.

(** Digits that stay below the bound add up to their value. *)
Lemma add_digits_value top s : forall acc,
  0 <= acc -> forallb is_ascii_digit s = true -> dec_from acc s <= top -> add_digits top acc s = Some (dec_from acc s).
Proof.
  induction s as [|c s IH]; intros acc Ha Hd Ht; [done|]. cbn [forallb dec_from fold_left add_digits] in *.
  apply andb_true_iff in Hd as [D Hs]. rewrite D. apply is_ascii_digit_range in D. change (dec_from (acc * 10 + (c - 48)) s <= top) in Ht.
  pose proof (dec_from_grows s (acc * 10 + (c - 48)) ltac:(lia) Hs).
  destruct (Z.leb_spec (acc * 10 + (c - 48)) top); [|lia]. apply IH; auto. lia.
Qed.

Lemma parse_print_unsigned top z : 0 <= z <= top -> parse_unsigned top (print_u64 z) = Some z.
Proof.
  intros Hz. destruct (print_u64_digits z ltac:(lia)) as [V D _ _ N].
  assert (dec_from 0 (print_u64 z) = z) as E by exact V.
  assert (add_digits top 0 (print_u64 z) = Some z) as A.
  { rewrite add_digits_value; rewrite ?E; [done|lia|done|lia]. }
  unfold parse_unsigned. destruct (print_u64 z) as [|c s] eqn:P; [done|]. cbn in D. apply andb_true_iff in D as [D _].
  apply is_ascii_digit_range in D. destruct (Z.eqb_spec c 43); [lia|]. by destruct s.
Qed.

(** ** Lists of ports *)

Definition print_entry (e : Z * Z) : text := print_u64 (fst e) ++ 58 :: print_u64 (snd e).

Fixpoint print_ports (ps : list (Z * Z)) : text :=
  match ps with
  | [] => []
  | [e] => print_entry e
  | e :: ps => print_entry e ++ 44 :: print_ports ps
  end.

Lemma split_at_app sep s x t :
  Forall (fun c => sep c = false) s -> sep x = true -> split_at sep (s ++ x :: t) = s :: split_at sep t.
Proof.
  intros H X. induction H as [|c s Hc _ IH]; cbn [app split_at].
  - destruct (split_at_cons sep t) as (p & ps & ->). by rewrite X.
  - by rewrite IH, Hc.
Qed.

Lemma split_at_free sep s : Forall (fun c => sep c = false) s -> split_at sep s = [s].
Proof. induction 1 as [|c s Hc _ IH]; [done|]. cbn [split_at]. by rewrite IH, Hc. Qed.

Definition plain (s : text) : Prop := Forall (fun c => is_whitespace c = false) s.

Lemma trim_start_plain s : plain s -> trim_start s = s.
Proof. destruct 1 as [|c s Hc]; [done|]. simpl. by rewrite Hc. Qed.

Lemma trim_plain s : plain s -> trim s = s.
Proof.
  intros H. unfold trim. rewrite (trim_start_plain s) by done. rewrite trim_start_plain, rev_involutive; [done|].
  apply Forall_rev. exact H.
Qed.

Lemma print_u64_chars z : 0 <= z -> Forall (fun c => 48 <= c <= 57) (print_u64 z).
Proof.
  intros H. destruct (print_u64_digits z H) as [_ D _ _ _]. rewrite forallb_forall in D.
  apply List.Forall_forall. intros c Hc. by apply is_ascii_digit_range, D.
Qed.

Lemma digits_plain s : Forall (fun c => 48 <= c <= 57) s -> plain s.
Proof.
  intros H. eapply List.Forall_impl; [|exact H]. intros c [Lo Hi]. apply not_true_iff_false.
  unfold is_whitespace. rewrite !orb_true_iff, !andb_true_iff, !Z.leb_le, !Z.eqb_eq. lia.
Qed.

Lemma digits_no_sep x s : ~ (48 <= x <= 57) -> Forall (fun c => 48 <= c <= 57) s -> Forall (fun c => (x =? c) = false) s.
Proof. intros X H. eapply List.Forall_impl; [|exact H]. intros c [Lo Hi]. apply Z.eqb_neq. lia. Qed.

Lemma split_once_colon_digits s t :
  Forall (fun c => 48 <= c <= 57) s -> split_once_colon (s ++ 58 :: t) = Some (s, t).
Proof.
  induction 1 as [|c s Hc _ IH]; [done|]. cbn [app split_once_colon]. destruct (Z.eqb_spec c 58); [lia|]. by rewrite IH.
Qed.

Definition entry_ok (e : Z * Z) : Prop := 0 <= fst e <= u16_max /\ 0 <= snd e <= u32_max.

Lemma print_entry_plain e : entry_ok e -> plain (print_entry e).
Proof.
  intros [Hp Hs]. unfold print_entry, plain. apply List.Forall_app. split; [apply digits_plain, print_u64_chars; lia|].
  constructor; [done|]. apply digits_plain, print_u64_chars. lia.
Qed.

Lemma print_entry_no_comma e : entry_ok e -> Forall (fun c => (44 =? c) = false) (print_entry e).
Proof.
  intros [Hp Hs]. unfold print_entry. apply List.Forall_app.
  split; [apply digits_no_sep, print_u64_chars; lia|]. constructor; [done|]. apply digits_no_sep, print_u64_chars; lia.
Qed.

Lemma print_entry_some e : print_entry e <> [].
Proof. unfold print_entry. by destruct (print_u64 (fst e)). Qed.

Lemma parse_print_entry e : entry_ok e -> parse_stratum_entry (print_entry e) = Ok (print_u64 (fst e), snd e).
Proof.
  intros [Hp Hs]. unfold parse_stratum_entry, print_entry. rewrite split_once_colon_digits by (apply print_u64_chars; lia).
  cbn [ok_or rbind fst snd]. rewrite !trim_plain by (apply digits_plain, print_u64_chars; lia).
  unfold parse_port, parse_u32. rewrite !parse_print_unsigned by lia. done.
Qed.

Lemma print_ports_plain ps : Forall entry_ok ps -> plain (print_ports ps).
Proof.
  induction 1 as [|e ps He Hps IH]; [constructor|]. cbn [print_ports]. destruct ps as [|e' ps]; [by apply print_entry_plain|].
  apply List.Forall_app. split; [by apply print_entry_plain|]. by constructor.
Qed.

Lemma comma_parts_print ps : ps <> [] -> Forall entry_ok ps -> comma_parts (print_ports ps) = map print_entry ps.
Proof.
  intros N H. unfold comma_parts. induction H as [|e ps He Hps IH]; [done|]. cbn [print_ports]. destruct ps as [|e' ps].
  - rewrite split_at_free by (by apply print_entry_no_comma). cbn [map List.filter]. rewrite trim_plain by (by apply print_entry_plain).
    pose proof (print_entry_some e). by case_bool_decide.
  - rewrite split_at_app; [|by apply print_entry_no_comma|done]. cbn [map List.filter].
    rewrite trim_plain by (by apply print_entry_plain). pose proof (print_entry_some e). case_bool_decide; [done|].
    cbn [negb]. by rewrite IH.
Qed.

(** A list of stratum ports survives its environment variable: printing
    any list of ports and seeds in their widths as [port:seed,port:seed] and
    reading it back gives the same ports with the same seeds, in order. *)
Theorem stratum_ports_round_trip ps :
  Forall entry_ok ps ->
  parse_stratum_ports (Some (print_ports ps)) = Ok (map (fun e => (print_u64 (fst e), snd e)) ps).
Proof.
  intros H. unfold parse_stratum_ports. rewrite trim_plain by (by apply print_ports_plain).
  destruct ps as [|e ps]; [done|]. case_bool_decide as E.
  { exfalso. destruct ps; cbn [print_ports] in E; [by apply (print_entry_some e)|by apply app_eq_nil in E as [_ ?]]. }
  rewrite comma_parts_print by done. clear E. induction H as [|x xs Hx Hxs IH]; [done|].
  cbn [map collect_results]. rewrite parse_print_entry by done. cbn [rbind]. by rewrite IH.
Qed.

(** What an accepted list holds: ports of 16 bits and seeds of 32. *)
Lemma collect_results_Forall {A B E} (f : A -> result B E) (P : B -> Prop) l bs :
  (forall a b, f a = Ok b -> P b) -> collect_results f l = Ok bs -> Forall P bs.
Proof.
  intros Hf. revert bs. induction l as [|a l IH]; cbn; intros bs H; [by injection H as <-|].
  destruct (f a) as [b|] eqn:Eb; [|done]. cbn in H. destruct (collect_results f l) as [bs'|]; [|done]. injection H as <-.
  constructor; eauto.
Qed.

Lemma parse_stratum_ports_sound raw ps :
  parse_stratum_ports raw = Ok ps ->
  Forall (fun e => is_Some (parse_port (fst e)) /\ 0 <= snd e <= u32_max) ps.
Proof.
  unfold parse_stratum_ports. destruct raw as [raw|]; [|by intros [= <-]].
  case_bool_decide; [by intros [= <-]|]. apply collect_results_Forall. intros entry [port seed].
  unfold parse_stratum_entry. destruct (split_once_colon entry) as [[p s]|]; [|done]. cbn [ok_or rbind fst snd].
  destruct (parse_port (trim p)) eqn:Ep; [|done]. cbn [ok_or rbind].
  destruct (parse_u32 (trim s)) eqn:Es; [|done]. cbn [ok_or rbind]. intros [= <- <-]. cbn [fst snd]. rewrite Ep. split; [by eexists|].
  eapply parse_unsigned_range, Es. by vm_compute.
Qed.

Lemma stratum_ports_round_trip_witness :
  parse_stratum_ports (Some (lit "1111:256,8888:2048")) = Ok [(lit "1111", 256); (lit "8888", 2048)].
Proof.
  pose proof (stratum_ports_round_trip [(1111, 256); (8888, 2048)]) as R.
  assert (Forall entry_ok [(1111, 256); (8888, 2048)]) as F
    by (repeat constructor; vm_compute; discriminate).
  specialize (R F). vm_compute in R. vm_compute. exact R.
Defined.

(** ** The treasury key *)

Section Keys.
Context `{SV : !SecretEnv}.

Lemma load_key_nonzero source key :
  load_key source = Ok key -> exists b, b ∈ expose_secret key /\ b <> 0.
Proof.
  assert (forall s, from_hex s = Ok key -> exists b, b ∈ expose_secret key /\ b <> 0) as R.
  { intros s. unfold from_hex, from_bytes. destruct (sv_decode_key (trim s)) as [bs|]; [|done]. cbn.
    destruct (forallb (Z.eqb 0) bs) eqn:Z0; [done|]. destruct sv_mlock; [|done]. cbn. intros [= <-].
    clear - Z0. induction bs as [|b bs IH]; [done|]. cbn [forallb] in Z0. apply andb_false_iff in Z0 as [B|B].
    - exists b. apply Z.eqb_neq in B. split; [left|congruence].
    - destruct (IH B) as (x & Hx & N). exists x. split; [by right|done]. }
  assert (forall p, load_from_path p = Ok key -> exists b, b ∈ expose_secret key /\ b <> 0) as P.
  { intros p. unfold load_from_path. destruct (sv_read_to_string p); [|done]. cbn. apply R. }
  destruct source as [name|path]; cbn; [|apply P]. unfold load_from_systemd_credential.
  destruct (sv_var_os _); [|done]. cbn. apply P.
Qed.
End Keys.
