(* ===== verification/Runtime.v ===== *)
(** * The pool process ([katpool/src/main.rs])

    The command line, the runtime configuration with its precedence (environment,
    then file, then default), the start-up of the daemon up to the payout engines
    it spawns, the on-demand payout and the treasury audit.  Connecting to the
    node and to Postgres, the HTTP client and the address codec are parameters;
    what the spawned engines do is modelled by their own files. *)
From Stdlib Require Import SpecFloat Ascii.
From S2P Require Import Prelude F64 FeeModel Schema Domain Utf8 Sender AccountDb IngestDb SessionDb PayoutDb Consumer Maturity ShieldedScan StorageMass.
From S2P Require Import ZkasEngine.
From S2P Require Import Krc20Price Krc20Plan Krc20Engine KasEngine Consolidate StratumRpc Handshake Config.
Open Scope Z_scope.

(** ** Commands *)

Inductive Command :=
| Daemon
| PayoutRunNow (dry_run : bool)
| TreasuryAudit
| Help.

(** The message of a refused command line, by the branch that built it. *)
Inductive ArgsError :=
| UnknownRunNowFlag (arg : text)
| UnknownPayout (arg : text)
| PayoutNeedsSubcommand
| UnknownAuditFlag (arg : text)
| UnknownTreasury (arg : text)
| TreasuryNeedsSubcommand
| UnknownCommand (arg : text).

Fixpoint run_now_flags (dry_run : bool) (args : list text) : result Command ArgsError :=
  match args with
  | [] => Ok (PayoutRunNow dry_run)
  | arg :: args =>
      if bool_decide (arg = lit "--dry-run") then run_now_flags true args else Err (UnknownRunNowFlag arg)
  end.

Definition parse_args (args : list text) : result Command ArgsError :=
  match args with
  | [] => Ok Daemon
  | cmd :: args =>
      if existsb (fun w => bool_decide (cmd = lit w)) ["-h"; "--help"; "help"]%string then Ok Help
      else if bool_decide (cmd = lit "payout") then
        match args with
        | [] => Err PayoutNeedsSubcommand
        | sub :: args => if bool_decide (sub = lit "run-now") then run_now_flags false args else Err (UnknownPayout sub)
        end
      else if bool_decide (cmd = lit "treasury") then
        match args with
        | [] => Err TreasuryNeedsSubcommand
        | sub :: args =>
            if bool_decide (sub = lit "audit") then
              match args with
              | [] => Ok TreasuryAudit
              | other :: _ => Err (UnknownAuditFlag other)
              end
            else Err (UnknownTreasury sub)
        end
      else Err (UnknownCommand cmd)
  end.

(** ** Addresses and networks *)

Inductive AddressPrefix := PMainnet | PTestnet | PDevnet | PSimnet | PKaspaMainnet.

(** The address codec: [Address::try_from], its fields, and
    [treasury_address_from_secret]. *)
Class AddressCodec := {
  pool_address : Type;
  pool_address_eq_dec :: EqDecision pool_address;
  address_try_from : text -> option pool_address;
  address_prefix : pool_address -> AddressPrefix;
  address_view : pool_address -> ShieldedScan.Address;
  treasury_address_from_secret : TreasurySecret -> AddressPrefix -> option pool_address
}.

Definition network_of_prefix (p : AddressPrefix) : option text :=
  match p with
  | PMainnet => Some (lit "mainnet")
  | PTestnet => Some (lit "testnet-10")
  | PDevnet => Some (lit "devnet")
  | PSimnet => Some (lit "simnet")
  | PKaspaMainnet => None
  end.

Definition valid_network (n : text) : bool := existsb (fun w => bool_decide (n = lit w)) VALID_NETWORKS.

Definition resolve_network `{!AddressCodec} (pool_addresses : list pool_address) (network_override : option text)
  : result text ConfError :=
  let? resolved :=
    match network_override with
    | Some v => Ok v
    | None =>
        match pool_addresses with
        | [] => Err ConfNoAddress
        | first :: _ => ok_or (network_of_prefix (address_prefix first)) ConfParentAddress
        end
    end in
  if valid_network resolved then Ok resolved else Err (ConfNetwork resolved).

(** ** The runtime configuration; durations are in seconds *)

Record PayoutConfig := mkPayoutConfig {
  pc_dry_run : bool;
  pc_poll_interval : Z;
  pc_cycle_span_daa : Z;
  pc_threshold_sompi : Z;
  pc_max_sompi_per_cycle : option Z;
  pc_key_source : KeySource
}.

Record ConsolidationConfig := mkConsolidationConf {
  sc_dry_run : bool;
  sc_poll_interval : Z;
  sc_tick_timeout : Z;
  sc_trigger_utxo_count : Z;
  sc_target_utxo_count : Z;
  sc_max_inputs_per_tx : Z;
  sc_max_txs_per_tick : Z;
  sc_key_source : KeySource
}.

Record Krc20RuntimeConfig := mkKrc20RuntimeConfig {
  kc_dry_run : bool;
  kc_poll_interval : Z;
  kc_cycle_span_daa : Z;
  kc_min_pending_sompi : Z;
  kc_min_nacho_base_units : Z;
  kc_commit_amount_sompi : Z;
  kc_batch_limit : Z;
  kc_max_nacho_base_units_per_cycle : option Z;
  kc_ticker : text;
  kc_quote_base : text;
  kc_breaker_threshold : Z;
  kc_breaker_cooldown : Z;
  kc_key_source : KeySource
}.

(** What the process does with other people's money. *)
Record MoneyConfig := mkMoneyConfig {
  mo_payout_enabled : bool;
  mo_payout : PayoutConfig;
  mo_krc20_payout_enabled : bool;
  mo_krc20_payout : Krc20RuntimeConfig;
  mo_consolidation_enabled : bool;
  mo_consolidation : ConsolidationConfig
}.

Record RuntimeConfig `{!AddressCodec} := mkRuntimeConfig {
  rc_kaspad_url : text;
  rc_database_url : text;
  rc_api_database_url : option text;
  rc_pool_addresses : list pool_address;
  rc_stratum_port : text;
  rc_stratum_ports : list (text * Z);
  rc_prom_port : text;
  rc_health_check_port : text;
  rc_instance_id : text;
  rc_fee_topline_bps : Z;
  rc_min_share_diff : Z;
  rc_var_diff : bool;
  rc_shares_per_min : Z;
  rc_proxy_protocol : bool;
  rc_broadcast_capacity : Z;
  rc_maturity : MaturityConfig;
  rc_network : text;
  rc_event_record_path : option text;
  rc_geoip_db_path : option text;
  rc_api_bind : option SocketAddr;
  rc_health_bind : option SocketAddr;
  rc_api_config : ApiConfig;
  rc_money : MoneyConfig;
  rc_tier_classifier : TierClassifierKind;
  rc_shutdown_drain_idle_ms : Z;
  rc_shutdown_drain_budget : Z
}.

Definition DEFAULT_SHUTDOWN_DRAIN_IDLE_MS : Z := 500.
Definition DEFAULT_SHUTDOWN_DRAIN_BUDGET_SECS : Z := 10.

Section FromEnv.
Context `{AC : !AddressCodec} (vars : Vars).

Definition parse_pool_addresses (raw : text) : result (list pool_address) ConfError :=
  collect_results (fun s => ok_or (address_try_from s) (ConfAddress s)) (comma_parts raw).

Definition key_source : KeySource :=
  match optional vars "KATPOOL_TREASURY_KEY_PATH" with
  | Some path => KeyFile path
  | None => SystemdCredential (default TREASURY_CREDENTIAL_ID (optional vars "KATPOOL_TREASURY_CREDENTIAL"))
  end.

Definition payout_from_env : result PayoutConfig ConfError :=
  let? dry_run := optional_bool vars "KATPOOL_PAYOUT_DRY_RUN" in
  let? poll_secs := optional_u64 vars "KATPOOL_PAYOUT_POLL_SECS" in
  let? cycle_span_daa := optional_u64 vars "KATPOOL_PAYOUT_CYCLE_SPAN_DAA" in
  let? threshold_sompi := optional_i64 vars "KATPOOL_PAYOUT_THRESHOLD_SOMPI" in
  let? max_sompi := optional_i64 vars "KATPOOL_PAYOUT_MAX_SOMPI_PER_CYCLE" in
  Ok (mkPayoutConfig (default true dry_run) (default 60 poll_secs) (default 216000 cycle_span_daa)
        (default DEFAULT_KAS_PAYOUT_THRESHOLD_SOMPI threshold_sompi) max_sompi key_source).

Definition consolidation_from_env : result ConsolidationConfig ConfError :=
  let? dry_run := optional_bool vars "KATPOOL_CONSOLIDATION_DRY_RUN" in
  let? poll_secs := optional_u64 vars "KATPOOL_CONSOLIDATION_POLL_SECS" in
  let? tick_timeout := optional_u64 vars "KATPOOL_CONSOLIDATION_TICK_TIMEOUT_SECS" in
  let? trigger := optional_usize vars "KATPOOL_CONSOLIDATION_TRIGGER_UTXO_COUNT" in
  let? target := optional_usize vars "KATPOOL_CONSOLIDATION_TARGET_UTXO_COUNT" in
  let? max_inputs := optional_usize vars "KATPOOL_CONSOLIDATION_MAX_INPUTS_PER_TX" in
  let? max_txs := optional_usize vars "KATPOOL_CONSOLIDATION_MAX_TXS_PER_TICK" in
  Ok (mkConsolidationConf (default true dry_run) (default 120 poll_secs) (default 120 tick_timeout)
        (default 1000 trigger) (default 50 target) (default 80 max_inputs) (default 50 max_txs) key_source).

Definition krc20_from_env : result Krc20RuntimeConfig ConfError :=
  let? dry_run := optional_bool vars "KATPOOL_KRC20_PAYOUT_DRY_RUN" in
  let? poll_secs := optional_u64 vars "KATPOOL_KRC20_PAYOUT_POLL_SECS" in
  let? cycle_span_daa := optional_u64 vars "KATPOOL_KRC20_PAYOUT_CYCLE_SPAN_DAA" in
  let? min_pending := optional_i64 vars "KATPOOL_KRC20_MIN_PENDING_SOMPI" in
  let? min_nacho := optional_u128 vars "KATPOOL_KRC20_MIN_NACHO_BASE_UNITS" in
  let? commit_amount := optional_u64 vars "KATPOOL_KRC20_COMMIT_AMOUNT_SOMPI" in
  let? batch_limit := optional_i64 vars "KATPOOL_KRC20_BATCH_LIMIT" in
  let? max_nacho := optional_i64 vars "KATPOOL_KRC20_MAX_NACHO_PER_CYCLE" in
  let ticker := default (lit DEFAULT_QUOTE_TICKER) (optional vars "KATPOOL_KRC20_TICKER") in
  let quote_base := default (lit DEFAULT_QUOTE_BASE) (optional vars "KATPOOL_KRC20_QUOTE_BASE") in
  let? threshold := optional_u32 vars "KATPOOL_KRC20_QUOTE_BREAKER_THRESHOLD" in
  let? cooldown := optional_u64 vars "KATPOOL_KRC20_QUOTE_BREAKER_COOLDOWN_SECS" in
  Ok (mkKrc20RuntimeConfig (default true dry_run) (default 60 poll_secs) (default 216000 cycle_span_daa)
        (default DEFAULT_MIN_PENDING_SOMPI min_pending) (default DEFAULT_MIN_NACHO_BASE_UNITS min_nacho)
        (default DEFAULT_COMMIT_AMOUNT_SOMPI commit_amount) (default DEFAULT_CYCLE_LIMIT batch_limit) max_nacho
        ticker quote_base (default 3 threshold) (default 60 cooldown) key_source).

(** The payout settings: the part of [from_env] that has no file layer. *)
Definition money_from_env : result MoneyConfig ConfError :=
  let? payout_enabled := optional_bool vars "KATPOOL_PAYOUT_ENABLED" in
  let? payout := payout_from_env in
  let? consolidation_enabled := optional_bool vars "KATPOOL_CONSOLIDATION_ENABLED" in
  let? consolidation := consolidation_from_env in
  let? krc20_payout_enabled := optional_bool vars "KATPOOL_KRC20_PAYOUT_ENABLED" in
  let? krc20_payout := krc20_from_env in
  Ok (mkMoneyConfig (default false payout_enabled) payout (default false krc20_payout_enabled) krc20_payout
        (default false consolidation_enabled) consolidation).

Definition maturity_from_env (file : FileConfig) : result MaturityConfig ConfError :=
  let? poll_secs := optional_u64 vars "KATPOOL_MATURITY_POLL_SECS" in
  let? coinbase_maturity := optional_u64 vars "KATPOOL_COINBASE_MATURITY" in
  let? window_daa_span := optional_u64 vars "KATPOOL_WINDOW_DAA_SPAN" in
  let? batch_size := optional_i64 vars "KATPOOL_MATURITY_BATCH_SIZE" in
  let? coinbase_min_daa_score := optional_u64 vars "KATPOOL_COINBASE_MIN_DAA_SCORE" in
  Ok (mkMaturityConfig (layered poll_secs (fc_maturity_poll_secs file) 15)
        (layered coinbase_maturity (fc_coinbase_maturity file) 1000)
        (layered window_daa_span (fc_window_daa_span file) 600)
        (layered batch_size (fc_maturity_batch_size file) 200)
        (default 0 coinbase_min_daa_score)).

(** [optional(var).or_else(|| file)]. *)
Definition env_or (var : string) (file : option text) : option text :=
  match optional vars var with Some v => Some v | None => file end.

(** [from_env] once the file is read. *)
Definition runtime_config (file : FileConfig) : result RuntimeConfig ConfError :=
  let? kaspad_url := require vars "KASPAD_GRPC_URL" (fc_kaspad_url file) in
  let? database_url := require vars "KATPOOL_DATABASE_URL" (fc_database_url file) in
  let api_database_url := optional vars "KATPOOL_API_DATABASE_URL" in
  let? stratum_port := require vars "KATPOOL_STRATUM_PORT" (fc_stratum_port file) in
  let? stratum_ports := parse_stratum_ports (env_or "KATPOOL_STRATUM_PORTS" (fc_stratum_ports file)) in
  let? pool_address_raw := require vars "KATPOOL_POOL_ADDRESS" (fc_pool_address file) in
  let? pool_addresses := parse_pool_addresses pool_address_raw in
  if bool_decide (pool_addresses = []) then Err ConfNoAddress else
  let instance_id := default (lit "katpool-runtime") (env_or "KATPOOL_INSTANCE_ID" (fc_instance_id file)) in
  let prom_port := default [] (env_or "KATPOOL_PROM_PORT" (fc_prom_port file)) in
  let? fee_topline_bps := optional_u16 vars "KATPOOL_FEE_TOPLINE_BPS" in
  let? min_share_diff := optional_u32 vars "KATPOOL_MIN_SHARE_DIFF" in
  let? var_diff := optional_bool vars "KATPOOL_VAR_DIFF" in
  let? shares_per_min := optional_u32 vars "KATPOOL_SHARES_PER_MIN" in
  let? proxy_protocol := optional_bool vars "KATPOOL_STRATUM_PROXY_PROTOCOL" in
  let? broadcast_capacity := optional_usize vars "KATPOOL_BROADCAST_CAPACITY" in
  let? maturity := maturity_from_env file in
  let? network := resolve_network pool_addresses (env_or "KATPOOL_NETWORK" (fc_network file)) in
  let event_record_path := optional vars "KATPOOL_EVENT_RECORD_PATH" in
  let? api_bind := option_map_result (parse_bind_addr "KATPOOL_API_PORT")
                     (env_or "KATPOOL_API_PORT" (fc_api_port file)) in
  let health_check_raw := env_or "KATPOOL_HEALTH_CHECK_PORT" (fc_health_check_port file) in
  let? health_bind := option_map_result (parse_bind_addr "KATPOOL_HEALTH_CHECK_PORT") health_check_raw in
  let? api_config := ApiConfig_from_lookup vars in
  let? money := money_from_env in
  let? tier := TierClassifierKind_parse (env_or "KATPOOL_TIER_CLASSIFIER" (fc_tier_classifier file)) in
  let? drain := optional_u64 vars "KATPOOL_SHUTDOWN_DRAIN_SECS" in
  Ok (mkRuntimeConfig _ kaspad_url database_url api_database_url pool_addresses stratum_port stratum_ports
        prom_port (default [] health_check_raw) instance_id
        (layered fee_topline_bps (fc_fee_topline_bps file) 75)
        (layered min_share_diff (fc_min_share_diff file) 4096)
        (layered var_diff (fc_var_diff file) true)
        (layered shares_per_min (fc_shares_per_min file) 20)
        (layered proxy_protocol (fc_proxy_protocol file) false)
        (layered broadcast_capacity (fc_broadcast_capacity file) 4096)
        maturity network event_record_path (optional vars "KATPOOL_GEOIP_DB") api_bind health_bind api_config money
        tier DEFAULT_SHUTDOWN_DRAIN_IDLE_MS
        (layered drain (fc_shutdown_drain_secs file) DEFAULT_SHUTDOWN_DRAIN_BUDGET_SECS)).

(** [RuntimeConfig::from_env]; [read] is the reader of configuration files. *)
Definition from_env (read : text -> option FileConfig) : result RuntimeConfig ConfError :=
  let? file :=
    match optional vars "KATPOOL_CONFIG" with
    | Some path => FileConfig_load read path
    | None => Ok FileConfig_default
    end in
  runtime_config file.
End FromEnv.

(** ** Start-up *)

Definition TREASURY_SPEND_LOCK_NAMESPACE : string := "treasury:spend-leader".
Definition DEFAULT_SEND_TIMEOUT_SECS : Z := 15 * 60.
Definition DEFAULT_PAYOUT_FEE_SOMPI : Z := 3000000.

(** A text of the configuration as a Rust string's bytes. *)
Definition column_of (t : text) : string := to_column (utf8_encode t).

(** What the start-up asks of the outside, in the order it asks. *)
Inductive Step :=
| StepDatabase (pool : PoolConfig)
| StepKaspaApi (url : text)
| StepTrackerGrpc (url : text)
| StepTierClient
| StepApiDatabase (pool : PoolConfig)
| StepKasGrpc (url : text)
| StepKrc20Grpc (url : text)
| StepQuoteClient (base : text)
| StepZkasGrpc (url : text)
| StepConsolidationGrpc (url : text).

Class StepEnv := step_answer : Step -> result unit text.

Inductive BootError :=
| BootArgs (e : ArgsError)
| BootConf (e : ConfError)
| BootStep (s : Step) (msg : text)
| BootNoAddress
| BootScanner (e : ScannerConfigError)
| BootFee (msg : string)
| BootConsumer (e : ConsumerConfigError)
| BootKey (e : SecretError)
| BootKas (e : KasError)
| BootKrc20 (e : Krc20Error)
| BootZkas (e : EngineError)
| BootZkasMissing (key : string)
| BootZkasValue (key : string) (raw : text)
| BootZkasRange (key : string)
| BootPanic.                              (* [broadcast::channel] refuses the capacity *)

(** A spawned payout engine: its key and treasury address, its lock key and its
    configuration. *)
Inductive Spender `{!AddressCodec} :=
| KasSpender (key : TreasurySecret) (treasury : pool_address) (lock : Z) (cfg : KasEngine.PayoutEngineConfig)
| Krc20Spender (key : TreasurySecret) (treasury : pool_address) (lock : Z) (quote_base : text)
    (breaker : CircuitBreaker) (cfg : Krc20PayoutEngineConfig)
| ZkasSpender (cli : ShieldedPayCli) (lock : Z) (cfg : ZkasEngine.ZkasPayoutEngineConfig)
| ConsolidationSpender (key : TreasurySecret) (treasury : pool_address) (lock : Z)
    (cfg : ConsolidationEngineConfig).

Inductive RewardSource :=
| ShieldedScanSource (scanner : ShieldedRewardScanner)
| UtxoIndexSource.

(** What the bridge is started with: the literal in [main]. *)
Record RuntimeBridgeConfig := mkRuntimeBridge {
  rb_instance_id : text;
  rb_stratum_port : text;
  rb_stratum_ports : list (text * Z);
  rb_kaspad_address : text;
  rb_prom_port : text;
  rb_health_check_port : text;
  rb_block_wait_time_ms : Z;
  rb_min_share_diff : f64;
  rb_var_diff : bool;
  rb_shares_per_min : Z;
  rb_extranonce_size : Z;
  rb_pow2_clamp : bool;
  rb_coinbase_tag_suffix : option text;
  rb_proxy_protocol : bool;
  rb_kaspa_common_protocol : bool
}.

Record RunningDaemon `{!AddressCodec} := mkDaemon {
  dm_treasury : pool_address;
  dm_rewards : RewardSource;
  dm_fee : FeeConfig;
  dm_tier : TierClassifierKind;
  dm_maturity : MaturityConfig;
  dm_consumer : ConsumerConfig;
  dm_bridge : RuntimeBridgeConfig
}.

(** The engines spawned so far, and how the start-up went on: a failure ends the
    process, after the engines before it were already spawned. *)
Definition Boot `{!AddressCodec} (A : Type) : Type := list Spender -> list Spender * result A BootError.

Section Boot.
Context `{AC : !AddressCodec} `{SV : !SecretEnv} `{SE : !StepEnv} (vars : Vars).

Definition b_ret {A} (a : A) : Boot A := fun s => (s, Ok a).
Definition b_fail {A} (e : BootError) : Boot A := fun s => (s, Err e).
Definition b_lift {A} (r : result A BootError) : Boot A := fun s => (s, r).
Definition b_bind {A B} (m : Boot A) (k : A -> Boot B) : Boot B :=
  fun s => match m s with
           | (s', Ok a) => k a s'
           | (s', Err e) => (s', Err e)
           end.
Notation "x <-b m ;; k" := (b_bind m (fun x => k)) (at level 100, m at next level, right associativity).

Definition b_step (st : Step) : Boot unit := b_lift (map_err (BootStep st) (step_answer st)).
Definition spawn_engine (e : Spender) : Boot unit := fun s => (s ++ [e], Ok tt).

(** [PoolConfig { url, .., ..PoolConfig::production(..) }]. *)
Definition runtime_pool (url : text) (min max : Z) (name : text) : PoolConfig :=
  let d := PoolConfig_production (lit "placeholder") in
  mkPoolConfig url min max (pl_acquire_timeout_secs d) (pl_idle_timeout_secs d) (pl_max_lifetime_secs d)
    (pl_statement_timeout_secs d) name.

Definition spend_lock : Z := advisory_key TREASURY_SPEND_LOCK_NAMESPACE.

Definition mode_of (dry_run : bool) : KasEngine.ExecutionMode :=
  if dry_run then KasEngine.DryRun else KasEngine.Live.

Definition kas_engine_config (dry_run : bool) (p : PayoutConfig) : KasEngine.PayoutEngineConfig :=
  KasEngine.mkEngineConfig (pc_cycle_span_daa p) (pc_threshold_sompi p) (pc_max_sompi_per_cycle p)
    (mode_of dry_run).

Definition start_kas (cfg : RuntimeConfig) (treasury : pool_address) : Boot unit :=
  let p := mo_payout (rc_money cfg) in
  if mo_payout_enabled (rc_money cfg) then
    secret <-b b_lift (map_err BootKey (load_key (pc_key_source p))) ;;
    _ <-b b_step (StepKasGrpc (rc_kaspad_url cfg)) ;;
    engine <-b b_lift (map_err BootKas (KasEngine.engine_new (kas_engine_config (pc_dry_run p) p))) ;;
    spawn_engine (KasSpender secret treasury spend_lock engine)
  else b_ret tt.

Definition start_krc20 (cfg : RuntimeConfig) (treasury : pool_address) : Boot unit :=
  let p := mo_krc20_payout (rc_money cfg) in
  if mo_krc20_payout_enabled (rc_money cfg) then
    secret <-b b_lift (map_err BootKey (load_key (kc_key_source p))) ;;
    _ <-b b_step (StepKrc20Grpc (rc_kaspad_url cfg)) ;;
    _ <-b b_step (StepQuoteClient (kc_quote_base p)) ;;
    engine <-b b_lift (map_err BootKrc20 (krc20_engine_new
                (mkKrc20Config (kc_cycle_span_daa p) (mode_of (kc_dry_run p)) (kc_min_pending_sompi p)
                   (kc_min_nacho_base_units p) (column_of (kc_ticker p)) (kc_commit_amount_sompi p)
                   (kc_batch_limit p) (kc_max_nacho_base_units_per_cycle p)))) ;;
    spawn_engine (Krc20Spender secret treasury spend_lock (kc_quote_base p)
                    (breaker_new (kc_breaker_threshold p) (kc_breaker_cooldown p * 1000000000)) engine)
  else b_ret tt.

Definition eq_ignore_ascii_case (v : text) (w : string) : bool :=
  bool_decide (to_ascii_lowercase v = to_ascii_lowercase (lit w)).

Definition zkas_payout_enabled : bool :=
  match vars "KATPOOL_ZKAS_PAYOUT_ENABLED"%string with
  | Some v => eq_ignore_ascii_case v "true" || bool_decide (v = lit "1")
  | None => false
  end.

Definition zkas_dry_run : bool :=
  match vars "KATPOOL_ZKAS_PAYOUT_DRY_RUN"%string with
  | Some v => negb (eq_ignore_ascii_case v "false" || bool_decide (v = lit "0"))
  | None => true
  end.

Definition env_u64 (key : string) (fallback : Z) : result Z BootError :=
  match vars key with
  | None => Ok fallback
  | Some v => ok_or (parse_u64 v) (BootZkasValue key v)
  end.

Definition env_required (key : string) : result text BootError := ok_or (vars key) (BootZkasMissing key).

Definition env_optional (parse : text -> option Z) (key : string) : result (option Z) BootError :=
  match vars key with
  | None => Ok None
  | Some v => let? n := ok_or (parse v) (BootZkasValue key v) in Ok (Some n)
  end.

Definition env_i64 (key : string) (fallback : Z) : result Z BootError :=
  let? v := env_u64 key fallback in
  ok_or (i64_try_from v) (BootZkasRange key).

(** [trim_start_matches]: every leading occurrence. *)
Fixpoint trim_start_matches (fuel : nat) (p s : text) : text :=
  match fuel with
  | O => s
  | S fuel => match strip_prefix p s with Some rest => trim_start_matches fuel p rest | None => s end
  end.

Definition rpc_server_of (url : text) : text := trim_start_matches (length url) (lit "grpc://") url.

Definition start_zkas (cfg : RuntimeConfig) : Boot unit :=
  if zkas_payout_enabled then
    bin <-b b_lift (env_required "KATPOOL_SHIELDED_PAY_BIN") ;;
    seed_file <-b b_lift (env_required "KATPOOL_ZKAS_TREASURY_SEED_FILE") ;;
    poll_secs <-b b_lift (env_u64 "KATPOOL_ZKAS_POLL_SECS" 600) ;;
    cycle_span_daa <-b b_lift (env_u64 "KATPOOL_ZKAS_CYCLE_SPAN_DAA" 3600) ;;
    threshold <-b b_lift (env_i64 "KATPOOL_ZKAS_THRESHOLD_SOMPI" DEFAULT_ZKAS_PAYOUT_THRESHOLD_SOMPI) ;;
    spend_cap <-b b_lift (env_optional parse_i64 "KATPOOL_ZKAS_SPEND_CAP_SOMPI") ;;
    max_sends <-b b_lift (env_u64 "KATPOOL_ZKAS_MAX_SENDS_PER_TICK" 3) ;;
    per_wallet <-b b_lift (env_i64 "KATPOOL_ZKAS_MAX_PER_WALLET_SOMPI" DEFAULT_PER_WALLET_CAP_SOMPI) ;;
    fee <-b b_lift (env_u64 "KATPOOL_ZKAS_PAYOUT_FEE_SOMPI" DEFAULT_PAYOUT_FEE_SOMPI) ;;
    anchor <-b b_lift (env_optional parse_u64 "KATPOOL_ZKAS_ANCHOR_DEPTH") ;;
    _ <-b b_step (StepZkasGrpc (rc_kaspad_url cfg)) ;;
    let cli := mkCli bin (rpc_server_of (rc_kaspad_url cfg)) seed_file fee anchor DEFAULT_SEND_TIMEOUT_SECS in
    engine <-b b_lift (map_err BootZkas (ZkasEngine.engine_new
                (ZkasEngine.mkEngineConfig cycle_span_daa threshold per_wallet spend_cap
                   (if zkas_dry_run then ZkasEngine.DryRun else ZkasEngine.Live) (Z.to_nat max_sends)))) ;;
    spawn_engine (ZkasSpender cli spend_lock engine)
  else b_ret tt.

Definition start_consolidation (cfg : RuntimeConfig) (treasury : pool_address) : Boot unit :=
  let p := mo_consolidation (rc_money cfg) in
  if mo_consolidation_enabled (rc_money cfg) then
    secret <-b b_lift (map_err BootKey (load_key (sc_key_source p))) ;;
    _ <-b b_step (StepConsolidationGrpc (rc_kaspad_url cfg)) ;;
    spawn_engine (ConsolidationSpender secret treasury spend_lock
                    (mkConsolidationConfig (mode_of (sc_dry_run p)) (Z.to_nat (sc_trigger_utxo_count p))
                       (Z.to_nat (sc_target_utxo_count p)) (Z.to_nat (sc_max_inputs_per_tx p))
                       (Z.to_nat (sc_max_txs_per_tick p))))
  else b_ret tt.

Definition reward_source (cfg : RuntimeConfig) : result RewardSource BootError :=
  let views := map address_view (rc_pool_addresses cfg) in
  if forallb ad_shielded views then
    let? scanner := map_err BootScanner (ShieldedRewardScanner_new views (mc_coinbase_maturity (rc_maturity cfg))) in
    Ok (ShieldedScanSource scanner)
  else Ok UtxoIndexSource.

Definition runtime_bridge (cfg : RuntimeConfig) : RuntimeBridgeConfig :=
  mkRuntimeBridge (rc_instance_id cfg) (rc_stratum_port cfg) (rc_stratum_ports cfg) (rc_kaspad_url cfg)
    (rc_prom_port cfg) (rc_health_check_port cfg) 500 (f64_of_Z (rc_min_share_diff cfg)) (rc_var_diff cfg)
    (rc_shares_per_min cfg) 2 true None (rc_proxy_protocol cfg) false.

Definition is_some {A} (o : option A) : bool := match o with Some _ => true | None => false end.

(** The daemon from its configuration to the spawned engines. *)
Definition start_daemon (cfg : RuntimeConfig) : Boot RunningDaemon :=
  let app prefix := prefix ++ lit "[" ++ rc_instance_id cfg ++ lit "]" in
  _ <-b b_step (StepDatabase (runtime_pool (rc_database_url cfg) 2 16 (app (lit "katpool")))) ;;
  if (rc_broadcast_capacity cfg =? 0) || (u64_max / 2 <? rc_broadcast_capacity cfg) then b_fail BootPanic else
  treasury <-b b_lift (ok_or (head (rc_pool_addresses cfg)) BootNoAddress) ;;
  _ <-b b_step (StepKaspaApi (rc_kaspad_url cfg)) ;;
  _ <-b b_step (StepTrackerGrpc (rc_kaspad_url cfg)) ;;
  rewards <-b b_lift (reward_source cfg) ;;
  fee <-b b_lift (map_err BootFee (FeeConfig_new (rc_fee_topline_bps cfg))) ;;
  _ <-b match rc_tier_classifier cfg with Static => b_ret tt | Kasplex => b_step StepTierClient end ;;
  _ <-b (if is_some (rc_api_bind cfg) || is_some (rc_health_bind cfg) then
           match rc_api_database_url cfg with
           | Some (c :: url) =>
               b_step (StepApiDatabase (runtime_pool (c :: url) 2 16 (app (lit "katpool-api"))))
           | _ => b_ret tt
           end
         else b_ret tt) ;;
  consumer <-b b_lift (map_err BootConsumer
                (ConsumerConfig_new (column_of (rc_instance_id cfg)) (column_of (rc_network cfg)))) ;;
  _ <-b start_kas cfg treasury ;;
  _ <-b start_krc20 cfg treasury ;;
  _ <-b start_zkas cfg ;;
  _ <-b start_consolidation cfg treasury ;;
  b_ret (mkDaemon _ treasury rewards fee (rc_tier_classifier cfg) (rc_maturity cfg) consumer (runtime_bridge cfg)).
End Boot.

(** ** Operator commands *)

Inductive RunNowError :=
| RnDatabase (msg : text)
| RnNoAddress
| RnKey (e : SecretError)
| RnConnect (msg : text)
| RnEngine (e : KasError)
| RnTick (e : KasError)
| RnNotLeader
| RnRejected (count : nat).

Section RunNow.
Context `{AC : !AddressCodec} `{SV : !SecretEnv} `{SE : !StepEnv}.
Context {Script : Type} `{MC : !MassCalculator Script} `{EV : !KasEnv Script}.

(** The retry loop: ten attempts at the leader lock. *)
Fixpoint drive (engine : KasEngine.PayoutEngineConfig) (retries : nat) (w : KasEngine.World Script)
  : KasEngine.World Script * result TickReport RunNowError :=
  match KasEngine.run_once engine w with
  | (w', Err e) => (w', Err (RnTick e))
  | (w', Ok (Ran report)) => (w', Ok report)
  | (w', Ok SkippedNotLeader) =>
      match retries with
      | O => (w', Err RnNotLeader)
      | S retries => drive engine retries w'
      end
  end.

Definition prepare_run_now (cfg : RuntimeConfig) (force_dry_run : bool)
  : result KasEngine.PayoutEngineConfig RunNowError :=
  let p := mo_payout (rc_money cfg) in
  let name := lit "katpool-payout-run-now[" ++ rc_instance_id cfg ++ lit "]" in
  let? _ := map_err RnDatabase (step_answer (StepDatabase (runtime_pool (rc_database_url cfg) 1 4 name))) in
  let? _ := ok_or (head (rc_pool_addresses cfg)) RnNoAddress in
  let? _ := map_err RnKey (load_key (pc_key_source p)) in
  let? _ := map_err RnConnect (step_answer (StepKasGrpc (rc_kaspad_url cfg))) in
  map_err RnEngine (KasEngine.engine_new
    (kas_engine_config (force_dry_run || pc_dry_run p) p)).

Definition run_payout_now (cfg : RuntimeConfig) (force_dry_run : bool) (w : KasEngine.World Script)
  : KasEngine.World Script * result TickReport RunNowError :=
  match prepare_run_now cfg force_dry_run with
  | Err e => (w, Err e)
  | Ok engine =>
      match drive engine 9 w with
      | (w', Err e) => (w', Err e)
      | (w', Ok report) =>
          match er_submit_errors (tr_broadcast report) with
          | [] => (w', Ok report)
          | errors => (w', Err (RnRejected (length errors)))
          end
      end
  end.
End RunNow.

Inductive AuditError :=
| AuNoAddress
| AuKey (e : SecretError)
| AuDerive
| AuMismatch.

Definition run_treasury_audit `{!AddressCodec} `{!SecretEnv} (cfg : RuntimeConfig) : result unit AuditError :=
  let? expected := ok_or (head (rc_pool_addresses cfg)) AuNoAddress in
  let? secret := map_err AuKey (load_key (pc_key_source (mo_payout (rc_money cfg)))) in
  let? derived := ok_or (treasury_address_from_secret secret (address_prefix expected)) AuDerive in
  if bool_decide (derived = expected) then Ok tt else Err AuMismatch.

(** ** [main] *)

Inductive ProcessOutcome `{!AddressCodec} :=
| Usage
| RanNow (r : result TickReport RunNowError)
| Audited (r : result unit AuditError)
| RanDaemon (started : list Spender) (r : result RunningDaemon BootError)
| RefusedArgs (e : ArgsError)
| RefusedConfig (e : ConfError).

Definition main `{AC : !AddressCodec} `{SV : !SecretEnv} `{SE : !StepEnv} {Script : Type} `{MC : !MassCalculator Script}
    `{EV : !KasEnv Script} (vars : Vars) (read : text -> option FileConfig) (args : list text)
    (w : KasEngine.World Script) : KasEngine.World Script * ProcessOutcome :=
  match parse_args args with
  | Err e => (w, RefusedArgs e)
  | Ok Help => (w, Usage)
  | Ok command =>
      match from_env vars read with
      | Err e => (w, RefusedConfig e)
      | Ok cfg =>
          match command with
          | PayoutRunNow dry_run => let '(w', r) := run_payout_now cfg dry_run w in (w', RanNow r)
          | TreasuryAudit => (w, Audited (run_treasury_audit cfg))
          | Daemon | Help => let '(started, r) := start_daemon vars cfg [] in (w, RanDaemon started r)
          end
      end
  end.
