(* ===== verification/RuntimeSpec.v ===== *)
(** * What the pool process guarantees

    Which settings the configuration file can reach, what has to be switched on
    before an engine moves funds, that an on-demand payout is a short history of
    ticks, and that a started daemon meets the conditions its components rely on. *)
From stdpp Require Import relations.
From Stdlib Require Import SpecFloat Ascii.
From S2P Require Import Prelude F64 FeeModel Schema Domain Utf8 AccountDb IngestDb SessionDb PayoutDb Consumer Maturity ShieldedScan StorageMass StorageMassSpec.
From S2P Require Import ZkasEngine.
From S2P Require Import Krc20Price Krc20Plan Krc20Engine KasEngine KasLedger KasSafety KasSpec Consolidate StratumRpc Handshake Config ConfigSpec Runtime.
Open Scope Z_scope.

(** ** Reading a variable *)

Lemma optional_parsed_None {A} parse bad vars key :
  optional_parsed (A := A) vars parse bad key = Ok None -> optional vars key = None.
Proof. unfold optional_parsed. destruct (optional vars key) as [s|]; [|done]. by destruct (parse s). Qed.

Lemma optional_parsed_Some {A} parse bad vars key (v : A) :
  optional_parsed vars parse bad key = Ok (Some v) -> exists s, vars key = Some s /\ parse s = Some v.
Proof.
  unfold optional_parsed, optional. destruct (vars key) as [[|c s]|]; [done| |done].
  destruct (parse (c :: s)) as [x|] eqn:P; [|done]. cbn. intros [= <-]. by exists (c :: s).
Qed.

Lemma rbind_Ok {A B E} (r : result A E) (k : A -> result B E) b :
  rbind r k = Ok b -> exists a, r = Ok a /\ k a = Ok b.
Proof. apply rbind_ok. Qed.

(** Takes an [Ok] of a chain of reads apart. *)
Ltac reads H :=
  repeat match type of H with
  | rbind ?r _ = Ok _ =>
      let a := fresh "v" in let E := fresh "R" in apply rbind_Ok in H as (a & E & H); cbv beta in H
  end.

(** ** The file layer *)

Section File.
Context `{AC : !AddressCodec}.

Definition unset (vars : Vars) (key : string) : Prop := optional vars key = None.

(** Two files that agree on every key whose variable is unset or empty. *)
Record same_gaps (vars : Vars) (f g : FileConfig) : Prop := {
  sg_kaspad_url : unset vars "KASPAD_GRPC_URL" -> fc_kaspad_url f = fc_kaspad_url g;
  sg_database_url : unset vars "KATPOOL_DATABASE_URL" -> fc_database_url f = fc_database_url g;
  sg_pool_address : unset vars "KATPOOL_POOL_ADDRESS" -> fc_pool_address f = fc_pool_address g;
  sg_network : unset vars "KATPOOL_NETWORK" -> fc_network f = fc_network g;
  sg_instance_id : unset vars "KATPOOL_INSTANCE_ID" -> fc_instance_id f = fc_instance_id g;
  sg_stratum_port : unset vars "KATPOOL_STRATUM_PORT" -> fc_stratum_port f = fc_stratum_port g;
  sg_stratum_ports : unset vars "KATPOOL_STRATUM_PORTS" -> fc_stratum_ports f = fc_stratum_ports g;
  sg_min_share_diff : unset vars "KATPOOL_MIN_SHARE_DIFF" -> fc_min_share_diff f = fc_min_share_diff g;
  sg_var_diff : unset vars "KATPOOL_VAR_DIFF" -> fc_var_diff f = fc_var_diff g;
  sg_shares_per_min : unset vars "KATPOOL_SHARES_PER_MIN" -> fc_shares_per_min f = fc_shares_per_min g;
  sg_proxy_protocol : unset vars "KATPOOL_STRATUM_PROXY_PROTOCOL" -> fc_proxy_protocol f = fc_proxy_protocol g;
  sg_fee_topline_bps : unset vars "KATPOOL_FEE_TOPLINE_BPS" -> fc_fee_topline_bps f = fc_fee_topline_bps g;
  sg_broadcast_capacity : unset vars "KATPOOL_BROADCAST_CAPACITY" -> fc_broadcast_capacity f = fc_broadcast_capacity g;
  sg_prom_port : unset vars "KATPOOL_PROM_PORT" -> fc_prom_port f = fc_prom_port g;
  sg_api_port : unset vars "KATPOOL_API_PORT" -> fc_api_port f = fc_api_port g;
  sg_health_check_port : unset vars "KATPOOL_HEALTH_CHECK_PORT" -> fc_health_check_port f = fc_health_check_port g;
  sg_maturity_poll_secs : unset vars "KATPOOL_MATURITY_POLL_SECS" -> fc_maturity_poll_secs f = fc_maturity_poll_secs g;
  sg_coinbase_maturity : unset vars "KATPOOL_COINBASE_MATURITY" -> fc_coinbase_maturity f = fc_coinbase_maturity g;
  sg_window_daa_span : unset vars "KATPOOL_WINDOW_DAA_SPAN" -> fc_window_daa_span f = fc_window_daa_span g;
  sg_maturity_batch_size :
    unset vars "KATPOOL_MATURITY_BATCH_SIZE" -> fc_maturity_batch_size f = fc_maturity_batch_size g;
  sg_tier_classifier : unset vars "KATPOOL_TIER_CLASSIFIER" -> fc_tier_classifier f = fc_tier_classifier g;
  sg_shutdown_drain_secs :
    unset vars "KATPOOL_SHUTDOWN_DRAIN_SECS" -> fc_shutdown_drain_secs f = fc_shutdown_drain_secs g
}.

Lemma require_gap vars key f g : (unset vars key -> f = g) -> require vars key f = require vars key g.
Proof. unfold unset, require. destruct (optional vars key); [done|]. by intros ->. Qed.

Lemma env_or_gap vars key f g : (unset vars key -> f = g) -> env_or vars key f = env_or vars key g.
Proof. unfold unset, env_or. destruct (optional vars key); [done|]. by intros ->. Qed.

Lemma layered_gap {A} parse bad vars key (o f g : option A) fallback :
  optional_parsed vars parse bad key = Ok o -> (unset vars key -> f = g) ->
  layered o f fallback = layered o g fallback.
Proof. destruct o; [done|]. intros H%optional_parsed_None G. by rewrite (G H). Qed.

Lemma rbind_ext {A B E} (r : result A E) (k k' : A -> result B E) :
  (forall a, r = Ok a -> k a = k' a) -> rbind r k = rbind r k'.
Proof. destruct r; cbn; auto. Qed.

(** Goes through two chains of the same reads in step. *)
Ltac in_step :=
  repeat match goal with
  | |- rbind ?r _ = rbind ?r _ => let E := fresh "R" in apply rbind_ext; intros ? E
  | |- (if ?b then _ else _) = (if ?b then _ else _) => destruct b; [done|]
  end.

Lemma maturity_gap vars f g : same_gaps vars f g -> maturity_from_env vars f = maturity_from_env vars g.
Proof.
  intros G. unfold maturity_from_env. in_step. f_equal. f_equal.
  all: eapply layered_gap; [eassumption|]; apply G.
Qed.

Lemma runtime_gap vars f g : same_gaps vars f g -> runtime_config vars f = runtime_config vars g.
Proof.
  intros G. unfold runtime_config.
  rewrite (require_gap vars _ _ _ (sg_kaspad_url _ _ _ G)), (require_gap vars _ _ _ (sg_database_url _ _ _ G)),
    (require_gap vars _ _ _ (sg_stratum_port _ _ _ G)), (env_or_gap vars _ _ _ (sg_stratum_ports _ _ _ G)),
    (require_gap vars _ _ _ (sg_pool_address _ _ _ G)), (env_or_gap vars _ _ _ (sg_instance_id _ _ _ G)),
    (env_or_gap vars _ _ _ (sg_prom_port _ _ _ G)), (env_or_gap vars _ _ _ (sg_network _ _ _ G)),
    (env_or_gap vars _ _ _ (sg_api_port _ _ _ G)), (env_or_gap vars _ _ _ (sg_health_check_port _ _ _ G)),
    (env_or_gap vars _ _ _ (sg_tier_classifier _ _ _ G)), (maturity_gap _ _ _ G).
  in_step. f_equal. f_equal; (eapply layered_gap; [eassumption|]; apply G).
Qed.

Lemma runtime_money vars f c : runtime_config vars f = Ok c -> money_from_env vars = Ok (rc_money c).
Proof.
  unfold runtime_config. intros H. reads H. case_bool_decide; [done|]. reads H. by injection H as <-.
Qed.

(** The configuration comes from one file layer: the empty one, or a file that
    was read and is valid. *)
Lemma from_env_layer vars read cfg :
  from_env vars read = Ok cfg ->
  exists f, (f = FileConfig_default \/ exists path, read path = Some f) /\ runtime_config vars f = Ok cfg.
Proof.
  unfold from_env. destruct (optional vars "KATPOOL_CONFIG") as [p|]; intros H.
  - apply rbind_Ok in H as (f & R & H). unfold FileConfig_load in R. apply rbind_Ok in R as (f' & R & V).
    destruct (read p) as [f0|] eqn:E; cbn [ok_or] in R; [injection R as <-|discriminate R].
    destruct (FileConfig_valid f0); [injection V as <-|discriminate V]. exists f0. split; [right; by exists p|exact H].
  - apply rbind_Ok in H as (f & [= <-] & H). exists FileConfig_default. split; [by left|exact H].
Qed.

Lemma from_env_money vars read cfg : from_env vars read = Ok cfg -> money_from_env vars = Ok (rc_money cfg).
Proof. intros (f & _ & H)%from_env_layer. exact (runtime_money vars f cfg H). Qed.

(** C29. The environment shadows the file, and no file reaches the money: for
    any environment, two configuration files that agree on the keys whose
    variables are unset or empty give the same configuration or the same error;
    and whatever the file says, the payout, KRC-20, consolidation and key settings
    are the ones read from the environment alone. *)
Theorem file_only_fills_gaps vars f g :
  (same_gaps vars f g -> runtime_config vars f = runtime_config vars g) /\
  (forall c, runtime_config vars f = Ok c -> money_from_env vars = Ok (rc_money c)).
Proof. split; [apply runtime_gap|apply runtime_money]. Qed.
End File.

(** ** What the daemon spawns *)

Inductive SpenderKind := SKas | SKrc20 | SZkas | SConsolidation.

#[export] Instance SpenderKind_eq_dec : EqDecision SpenderKind.
Proof. solve_decision. Defined.

Section Spenders.
Context `{AC : !AddressCodec}.

Definition spender_kind (s : Spender) : SpenderKind :=
  match s with
  | KasSpender _ _ _ _ => SKas
  | Krc20Spender _ _ _ _ _ _ => SKrc20
  | ZkasSpender _ _ _ => SZkas
  | ConsolidationSpender _ _ _ _ => SConsolidation
  end.

Definition spender_live (s : Spender) : bool :=
  match s with
  | KasSpender _ _ _ c => negb (is_dry_run (KasEngine.cfg_mode c))
  | Krc20Spender _ _ _ _ _ c => negb (is_dry_run (xc_mode c))
  | ZkasSpender _ _ c => match ZkasEngine.cfg_mode c with ZkasEngine.Live => true | ZkasEngine.DryRun => false end
  | ConsolidationSpender _ _ _ c => negb (is_dry_run (cc_mode c))
  end.

Definition spender_lock (s : Spender) : Z :=
  match s with
  | KasSpender _ _ l _ | Krc20Spender _ _ l _ _ _ | ZkasSpender _ l _ | ConsolidationSpender _ _ l _ => l
  end.

Definition spender_treasury (s : Spender) : option pool_address :=
  match s with
  | KasSpender _ t _ _ | Krc20Spender _ t _ _ _ _ | ConsolidationSpender _ t _ _ => Some t
  | ZkasSpender _ _ _ => None
  end.

Definition enabled_var (k : SpenderKind) : string :=
  match k with
  | SKas => "KATPOOL_PAYOUT_ENABLED"
  | SKrc20 => "KATPOOL_KRC20_PAYOUT_ENABLED"
  | SZkas => "KATPOOL_ZKAS_PAYOUT_ENABLED"
  | SConsolidation => "KATPOOL_CONSOLIDATION_ENABLED"
  end.

Definition dry_run_var (k : SpenderKind) : string :=
  match k with
  | SKas => "KATPOOL_PAYOUT_DRY_RUN"
  | SKrc20 => "KATPOOL_KRC20_PAYOUT_DRY_RUN"
  | SZkas => "KATPOOL_ZKAS_PAYOUT_DRY_RUN"
  | SConsolidation => "KATPOOL_CONSOLIDATION_DRY_RUN"
  end.

(** The variable is set, to a word that means [b]. *)
Definition says (vars : Vars) (key : string) (b : bool) : Prop :=
  exists v, vars key = Some v /\ parse_switch v = Some b.

(** An engine that was asked for, and that moves funds only because the
    environment said so; it confirms before its window ends. *)
Record authorised (vars : Vars) (treasury : pool_address) (s : Spender) : Prop := {
  au_enabled : says vars (enabled_var (spender_kind s)) true;
  au_live : spender_live s = true -> says vars (dry_run_var (spender_kind s)) false;
  au_lock : spender_lock s = advisory_key "treasury:spend-leader";
  au_treasury : forall t, spender_treasury s = Some t -> t = treasury
}.

(** The engine's window is longer than its confirmation depth. *)
Definition outlives_confirmation (s : Spender) : Prop :=
  match s with
  | KasSpender _ _ _ c => KAS_PAYOUT_CONFIRMATION_DAA < KasEngine.cfg_cycle_span_daa c
  | Krc20Spender _ _ _ _ _ c => KAS_PAYOUT_CONFIRMATION_DAA < xc_cycle_span_daa c
  | ZkasSpender _ _ c => ZKAS_PAYOUT_CONFIRMATION_DAA < ZkasEngine.cfg_cycle_span_daa c
  | ConsolidationSpender _ _ _ _ => True
  end.

(** A key that can sign: not all zero. *)
Definition holds_key (s : Spender) : Prop :=
  match s with
  | KasSpender k _ _ _ | Krc20Spender k _ _ _ _ _ | ConsolidationSpender k _ _ _ =>
      exists b, b ∈ expose_secret k /\ b <> 0
  | ZkasSpender _ _ _ => True
  end.

(** A step of the start-up spawns a sub-sequence of the given kinds, each
    engine with the property. *)
Definition spawns {A} (ks : list SpenderKind) (P : Spender -> Prop) (m : Boot A) : Prop :=
  forall s, exists new, fst (m s) = s ++ new /\ Forall P new /\ sublist (map spender_kind new) ks.

Lemma spawns_lift {A} P (r : result A BootError) : spawns [] P (b_lift r).
Proof. intros s. exists []. cbn. rewrite app_nil_r. repeat split; constructor. Qed.

Lemma spawns_ret {A} P (a : A) : spawns [] P (b_ret a).
Proof. apply (spawns_lift P (Ok a)). Qed.

Lemma spawns_bind {A B} ks1 ks2 P (m : Boot A) (k : A -> Boot B) :
  spawns ks1 P m -> (forall a, spawns ks2 P (k a)) -> spawns (ks1 ++ ks2) P (b_bind m k).
Proof.
  intros Hm Hk s. unfold b_bind. destruct (Hm s) as (n1 & E1 & F1 & S1). destruct (m s) as [s' [a|e]]; cbn in *; subst s'.
  - destruct (Hk a (s ++ n1)) as (n2 & E2 & F2 & S2). exists (n1 ++ n2). rewrite E2, app_assoc, map_app.
    split; [done|]. split; [by apply List.Forall_app|]. by apply sublist_app.
  - exists n1. split; [done|]. split; [done|]. by apply sublist_inserts_r.
Qed.

(** A read whose value matters later. *)
Lemma spawns_read {A B} ks P (r : result A BootError) (k : A -> Boot B) :
  (forall a, r = Ok a -> spawns ks P (k a)) -> spawns ks P (b_bind (b_lift r) k).
Proof.
  intros H s. unfold b_bind, b_lift. destruct r as [a|e]; [by apply H|]. exists [].
  cbn. rewrite app_nil_r. repeat split; [constructor|]. apply sublist_nil_l.
Qed.

Lemma spawns_engine P (e : Spender) : P e -> spawns [spender_kind e] P (spawn_engine e).
Proof. intros H s. exists [e]. repeat split; [by constructor|]. apply sublist_skip, sublist_nil. Qed.

Lemma spawns_nothing {A} ks P (m : Boot A) : spawns [] P m -> spawns ks P m.
Proof.
  intros H s. destruct (H s) as (new & E & F & S). exists new. split; [done|]. split; [done|].
  apply sublist_nil_r in S. rewrite S. apply sublist_nil_l.
Qed.
End Spenders.

Section Authorised.
Context `{AC : !AddressCodec} `{SV : !SecretEnv} `{SE : !StepEnv} (vars : Vars).

Lemma default_true_says key parsed :
  optional_bool vars key = Ok parsed -> default false parsed = true -> says vars key true.
Proof. destruct parsed as [[]|]; [|done|done]. intros H _. by apply optional_parsed_Some in H. Qed.

Lemma default_false_says key parsed :
  optional_bool vars key = Ok parsed -> default true parsed = false -> says vars key false.
Proof. destruct parsed as [[]|]; [done| |done]. intros H _. by apply optional_parsed_Some in H. Qed.

Lemma mode_live dry_run : negb (is_dry_run (mode_of dry_run)) = true -> dry_run = false.
Proof. by destruct dry_run. Qed.

(** What the environment said when the payout settings were read. *)
Lemma money_says m :
  money_from_env vars = Ok m ->
  (mo_payout_enabled m = true -> says vars (enabled_var SKas) true) /\
  (pc_dry_run (mo_payout m) = false -> says vars (dry_run_var SKas) false) /\
  (mo_krc20_payout_enabled m = true -> says vars (enabled_var SKrc20) true) /\
  (kc_dry_run (mo_krc20_payout m) = false -> says vars (dry_run_var SKrc20) false) /\
  (mo_consolidation_enabled m = true -> says vars (enabled_var SConsolidation) true) /\
  (sc_dry_run (mo_consolidation m) = false -> says vars (dry_run_var SConsolidation) false).
Proof.
  unfold money_from_env, payout_from_env, consolidation_from_env, krc20_from_env. intros H. reads H. injection H as <-.
  repeat match goal with R : rbind _ _ = Ok _ |- _ => reads R; injection R as <- end. cbn.
  repeat split; intros E; (eapply default_true_says || eapply default_false_says); eassumption.
Qed.

Lemma eq_ignore_ascii_case_switch v w :
  eq_ignore_ascii_case v w = true -> to_ascii_lowercase v = to_ascii_lowercase (lit w).
Proof. apply bool_decide_eq_true. Qed.

Lemma zkas_enabled_says : zkas_payout_enabled vars = true -> says vars (enabled_var SZkas) true.
Proof.
  unfold zkas_payout_enabled, says. cbn [enabled_var]. destruct (vars _) as [v|]; [|done]. intros H. exists v. split; [done|].
  apply orb_true_iff in H as [H%eq_ignore_ascii_case_switch|H%bool_decide_eq_true].
  - unfold parse_switch. rewrite H. reflexivity.
  - by rewrite H.
Qed.

Lemma zkas_live_says : zkas_dry_run vars = false -> says vars (dry_run_var SZkas) false.
Proof.
  unfold zkas_dry_run, says. cbn [dry_run_var]. destruct (vars _) as [v|]; [|done]. intros H%negb_false_iff. exists v.
  split; [done|]. apply orb_true_iff in H as [H%eq_ignore_ascii_case_switch|H%bool_decide_eq_true].
  - unfold parse_switch. rewrite H. reflexivity.
  - by rewrite H.
Qed.

(** The property of every spawned engine. *)
Record sound_spender (treasury : pool_address) (s : Spender) : Prop := {
  ss_authorised : authorised vars treasury s;
  ss_window : outlives_confirmation s;
  ss_key : holds_key s
}.

(** Steps through a start-up function, keeping what each read returned. *)
Ltac boot_reads :=
  repeat match goal with
  | |- spawns _ _ (b_bind (b_lift _) _) => apply spawns_read; intros ? ?
  | |- spawns _ _ (b_bind (b_step _) _) => unfold b_step at 1; apply spawns_read; intros ? _
  end.

(** A step that returned, without its error. *)
Ltac returned c H := match goal with E : map_err c _ = Ok _ |- _ => apply map_err_ok in E; rename E into H end.

(** The engine was accepted: its window is longer than the depth. *)
Ltac accepted H Sp :=
  match type of H with (if ?b then _ else _) = _ => destruct b eqn:Sp; [done|] end;
  apply Z.leb_gt in Sp; injection H as <-.

Ltac spawn_sound :=
  match goal with |- spawns [?k] _ (spawn_engine ?e) => change [k] with [spender_kind e]; apply (spawns_engine _ e) end;
  split; [split|done|try done; by eapply load_key_nonzero]; cbn.

Lemma start_kas_spawns cfg treasury :
  money_from_env vars = Ok (rc_money cfg) -> spawns [SKas] (sound_spender treasury) (start_kas cfg treasury).
Proof.
  intros M. destruct (money_says _ M) as (En & Dr & _). unfold start_kas.
  destruct (mo_payout_enabled _); [|apply spawns_nothing, spawns_ret]. boot_reads.
  returned BootKas HE. returned BootKey HK. unfold KasEngine.engine_new in HE. accepted HE Sp. spawn_sound.
  - by apply En.
  - intros L%mode_live. by apply Dr.
  - done.
  - by intros t [= ->].
Qed.

Lemma start_krc20_spawns cfg treasury :
  money_from_env vars = Ok (rc_money cfg) -> spawns [SKrc20] (sound_spender treasury) (start_krc20 cfg treasury).
Proof.
  intros M. destruct (money_says _ M) as (_ & _ & En & Dr & _). unfold start_krc20.
  destruct (mo_krc20_payout_enabled _); [|apply spawns_nothing, spawns_ret]. boot_reads.
  returned BootKrc20 HE. returned BootKey HK. unfold krc20_engine_new in HE. accepted HE Sp. spawn_sound.
  - by apply En.
  - intros L%mode_live. by apply Dr.
  - done.
  - by intros t [= ->].
Qed.

Lemma start_zkas_spawns cfg treasury : spawns [SZkas] (sound_spender treasury) (start_zkas vars cfg).
Proof.
  unfold start_zkas. destruct (zkas_payout_enabled vars) eqn:En; [|apply spawns_nothing, spawns_ret]. boot_reads.
  returned BootZkas HE. unfold ZkasEngine.engine_new in HE. accepted HE Sp. spawn_sound.
  - by apply zkas_enabled_says.
  - intros L. apply zkas_live_says. by destruct (zkas_dry_run vars).
  - done.
  - done.
Qed.

Lemma start_consolidation_spawns cfg treasury :
  money_from_env vars = Ok (rc_money cfg) ->
  spawns [SConsolidation] (sound_spender treasury) (start_consolidation cfg treasury).
Proof.
  intros M. destruct (money_says _ M) as (_ & _ & _ & _ & En & Dr). unfold start_consolidation.
  destruct (mo_consolidation_enabled _); [|apply spawns_nothing, spawns_ret]. boot_reads.
  returned BootKey HK. spawn_sound.
  - by apply En.
  - intros L%mode_live. by apply Dr.
  - done.
  - by intros t [= ->].
Qed.

Lemma start_daemon_spawns cfg :
  money_from_env vars = Ok (rc_money cfg) ->
  exists started : list Spender, fst (start_daemon vars cfg []) = started /\
    sublist (map spender_kind started) [SKas; SKrc20; SZkas; SConsolidation] /\
    (started <> [] -> exists treasury, head (rc_pool_addresses cfg) = Some treasury /\
       Forall (sound_spender treasury) started).
Proof.
  intros M. destruct (head (rc_pool_addresses cfg)) as [treasury|] eqn:T.
  - assert (spawns [SKas; SKrc20; SZkas; SConsolidation] (sound_spender treasury) (start_daemon vars cfg)) as S.
    { unfold start_daemon. rewrite T. boot_reads. destruct (_ || _); [apply spawns_nothing, (spawns_lift _ (Err _))|].
      apply spawns_read. intros t0 [= <-]. boot_reads.
      apply (spawns_bind [] _); [destruct (rc_tier_classifier cfg); [apply spawns_ret|apply spawns_lift]|intros _].
      apply (spawns_bind [] _).
      { destruct (_ || _); [|apply spawns_ret].
        destruct (rc_api_database_url cfg) as [[|]|]; [apply spawns_ret|apply spawns_lift|apply spawns_ret]. }
      intros _. boot_reads.
      apply (spawns_bind [SKas] [SKrc20; SZkas; SConsolidation]); [by apply start_kas_spawns|intros _].
      apply (spawns_bind [SKrc20] [SZkas; SConsolidation]); [by apply start_krc20_spawns|intros _].
      apply (spawns_bind [SZkas] [SConsolidation]); [by apply start_zkas_spawns|intros _].
      apply (spawns_bind [SConsolidation] []); [by apply start_consolidation_spawns|intros _]. apply spawns_ret. }
    destruct (S []) as (new & E & F & Sub). exists new. split; [done|]. split; [done|]. intros _. by exists treasury.
  - exists []. unfold start_daemon. rewrite T. unfold b_bind, b_step, b_lift at 1. cbn.
    destruct (map_err _ _); [|split; [done|split; [apply sublist_nil_l|done]]].
    destruct (_ || _); (split; [done|split; [apply sublist_nil_l|done]]).
Qed.
End Authorised.

Section Main.
Context `{AC : !AddressCodec} `{SV : !SecretEnv} `{SE : !StepEnv}.
Context {Script : Type} `{MC : !MassCalculator Script} `{EV : !KasEnv Script}.

(** C6. Funds move only on request: whatever the environment, the configuration
    file, the arguments and the answers of node, database and key store, and even
    when the start-up fails half-way, every engine the process spawned was enabled
    by its own variable and is live only if its own dry-run variable is set to a
    word for no; each kind is spawned at most once, all hold the same lock and the
    first pool address, with a window longer than their confirmation depth. *)
Theorem funds_move_on_request vars read args (w w' : KasEngine.World Script) started r :
  main vars read args w = (w', RanDaemon started r) ->
  w' = w /\ sublist (map spender_kind started) [SKas; SKrc20; SZkas; SConsolidation] /\
  exists cfg, from_env vars read = Ok cfg /\
    (started <> [] -> exists treasury, head (rc_pool_addresses cfg) = Some treasury /\
       Forall (fun s => authorised vars treasury s /\ outlives_confirmation s /\ holds_key s) started).
Proof.
  unfold main. destruct (parse_args args) as [c|]; [|done].
  destruct (from_env vars read) as [cfg|] eqn:Ecfg; [|by destruct c]. intros H.
  assert (exists started', start_daemon vars cfg [] = (started', r) /\ started' = started /\ w' = w) as (st & E & -> & ->).
  { destruct c; try by (injection H).
    - destruct (start_daemon vars cfg []) as [st' r']. injection H as <- <- <-. by exists st'.
    - by destruct (run_payout_now cfg dry_run w). }
  pose proof (from_env_money vars read cfg Ecfg) as M.
  destruct (start_daemon_spawns vars cfg M) as (st' & Est & Sub & F). rewrite E in Est. cbn in Est. subst st'.
  split; [done|]. split; [done|]. exists cfg. split; [done|]. intros N. destruct (F N) as (t & T & Fs). exists t.
  split; [done|]. eapply List.Forall_impl; [|exact Fs]. by intros s [A W K].
Qed.

(** ** The on-demand payout *)

Lemma silent_lift {A} (r : result A KasError) : KasSpec.silent (lift r : KasEngine.M (Script := Script) A).
Proof. intros w. reflexivity. Qed.

Lemma silent_resolve ps : KasSpec.silent (resolve_recipients (Script := Script) ps).
Proof.
  induction ps as [|p ps IH]; cbn; [intros w; reflexivity|]. unfold resolve_recipient. 
  repeat (apply kas_silent_bind; [|intros ?]); try apply IH; try apply silent_call_db; try apply silent_lift.
  all: intros w; reflexivity.
Qed.

Lemma silent_broadcast_loop_dry pend fr bs : forall rep,
  KasSpec.silent (broadcast_loop (Script := Script) DryRun pend fr bs rep).
Proof.
  induction bs as [|b bs IH]; intros rep; cbn [broadcast_loop]; [intros w; reflexivity|].
  repeat (apply kas_silent_bind; [apply silent_lift|intros ?]). apply IH.
Qed.

Lemma silent_broadcast_dry c : KasSpec.silent (broadcast_cycle (Script := Script) c DryRun).
Proof.
  unfold broadcast_cycle. destruct (pending c) as [|p ps]; [intros w; reflexivity|].
  apply kas_silent_bind; [apply silent_resolve|intros ?]. apply kas_silent_bind; [intros w; reflexivity|intros ?].
  apply kas_silent_bind; [apply silent_call_db|intros ?]. apply kas_silent_bind; [intros w; reflexivity|intros ?].
  apply kas_silent_bind; [unfold live_fee_rate; apply kas_silent_bind; [intros w|intros ? w]; reflexivity|intros ?].
  apply kas_silent_bind; [apply silent_lift|intros ?]. apply kas_silent_bind; [intros w; reflexivity|intros ?].
  apply silent_broadcast_loop_dry.
Qed.

Lemma silent_run_once_dry cfg :
  KasEngine.cfg_mode cfg = DryRun -> KasSpec.silent (KasEngine.run_once (Script := Script) cfg).
Proof.
  intros Hm. unfold KasEngine.run_once. apply kas_silent_bind; [intros w; reflexivity|intros []; [|intros w; reflexivity]].
  unfold KasEngine.run_locked. apply kas_silent_bind; [intros w; reflexivity|intros ?].
  apply kas_silent_bind; [apply silent_resume|intros st]. destruct (KasEngine.over_spend_cap _ _); [intros w; reflexivity|].
  rewrite Hm. apply kas_silent_bind; [apply silent_broadcast_dry|intros ?].
  do 2 (apply kas_silent_bind; [apply silent_call_db|intros ?]).
  apply kas_silent_bind; [apply silent_confirm_cycle|intros ?].
  apply kas_silent_bind; [|intros ? w; reflexivity]. unfold KasEngine.reconcile_cycle_status.
  do 2 (apply kas_silent_bind; [apply silent_call_db|intros ?]). intros w; reflexivity.
Qed.

(** [n] ticks of the engine in a row. *)
Fixpoint ticks (cfg : KasEngine.PayoutEngineConfig) (n : nat) (w : KasEngine.World Script) : KasEngine.World Script :=
  match n with
  | O => w
  | S n => ticks cfg n (fst (KasEngine.run_once cfg w))
  end.

(** The retry loop is one to [retries + 1] ticks; all but the last were skipped
    because the lock was held. *)
Lemma drive_ticks cfg retries : forall w,
  exists n, (1 <= n <= S retries)%nat /\ fst (drive cfg retries w) = ticks cfg n w /\
    match snd (drive cfg retries w) with
    | Ok report => snd (KasEngine.run_once cfg (ticks cfg (n - 1) w)) = Ok (Ran report)
    | Err (RnTick e) => snd (KasEngine.run_once cfg (ticks cfg (n - 1) w)) = Err e
    | Err e => e = RnNotLeader /\ n = S retries /\
        snd (KasEngine.run_once cfg (ticks cfg retries w)) = Ok SkippedNotLeader
    end.
Proof.
  induction retries as [|retries IH]; intros w; cbn [drive];
    destruct (KasEngine.run_once cfg w) as [w' [[|report]|e]] eqn:E.
  - exists 1%nat. change (1 - 1)%nat with O. cbn [ticks fst snd]. rewrite E. auto.
  - exists 1%nat. change (1 - 1)%nat with O. cbn [ticks fst snd]. rewrite E. auto.
  - exists 1%nat. change (1 - 1)%nat with O. cbn [ticks fst snd]. rewrite E. auto.
  - destruct (IH w') as (n & Hn & Ef & Es). exists (S n). split; [lia|]. cbn [ticks]. rewrite E. cbn [fst].
    split; [done|]. replace (S n - 1)%nat with (S (n - 1)) by lia. cbn [ticks]. rewrite E. cbn [fst].
    destruct (snd (drive cfg retries w')) as [|[]]; try done; destruct Es as (Ee & -> & Es); repeat split; auto; lia.
  - exists 1%nat. change (1 - 1)%nat with O. cbn [ticks fst snd]. rewrite E. split; [lia|done].
  - exists 1%nat. change (1 - 1)%nat with O. cbn [ticks fst snd]. rewrite E. split; [lia|done].
Qed.

Lemma ticks_silent cfg n : forall w,
  KasEngine.cfg_mode cfg = DryRun -> wd_log (ticks cfg n w) = wd_log w.
Proof.
  induction n as [|n IH]; intros w Hm; [done|]. cbn [ticks]. rewrite IH by done. by apply silent_run_once_dry.
Qed.

Lemma ticks_history cfg n : forall w,
  KasEnvLaws Script -> rtc (kas_step EV) w (ticks cfg n w).
Proof.
  induction n as [|n IH]; intros w L; [apply rtc_refl|]. cbn [ticks]. eapply rtc_l; [|apply IH, L].
  by apply (KTick EV EV).
Qed.

(** A tick that was not the leader did nothing. *)
Definition leads {A} (P : A -> Prop) (m : KasEngine.M (Script := Script) A) : Prop :=
  forall w a, snd (m w) = Ok a -> P a.

Lemma leads_bind {A B} (P : B -> Prop) (m : KasEngine.M (Script := Script) A) (k : A -> KasEngine.M B) :
  (forall a, leads P (k a)) -> leads P (KasEngine.bind m k).
Proof. intros H w b. unfold KasEngine.bind. destruct (m w) as [w' [a|e]]; [apply H|done]. Qed.

Lemma run_locked_leads cfg : leads (fun o => o <> SkippedNotLeader) (KasEngine.run_locked (Script := Script) cfg).
Proof.
  unfold KasEngine.run_locked. do 2 (apply leads_bind; intros ?). destruct (KasEngine.over_spend_cap _ _); [done|].
  repeat (apply leads_bind; intros ?). by intros w o [= <-].
Qed.

Lemma skipped_does_nothing cfg (w : KasEngine.World Script) :
  snd (KasEngine.run_once cfg w) = Ok SkippedNotLeader -> fst (KasEngine.run_once cfg w) = KasEngine.tick_call w.
Proof.
  unfold KasEngine.run_once, KasEngine.bind at 1, KasEngine.bind at 1, KasEngine.call_lock.
  destruct (ke_lock (wd_calls w)) as [[]|]; cbn [map_err fst snd]; [|done|done].
  intros H. by apply run_locked_leads in H.
Qed.

Lemma drive_not_leader cfg retries : forall w,
  snd (drive cfg retries w) = Err RnNotLeader ->
  wd_db (fst (drive cfg retries w)) = wd_db w /\ wd_log (fst (drive cfg retries w)) = wd_log w.
Proof.
  induction retries as [|retries IH]; intros w; cbn [drive]; pose proof (skipped_does_nothing cfg w) as S;
    destruct (KasEngine.run_once cfg w) as [w' [[|report]|e]]; cbn [fst snd] in *; try done.
  - intros _. by rewrite (S eq_refl).
  - intros H. apply IH in H as [D L]. rewrite D, L. by rewrite (S eq_refl).
Qed.

Lemma drive_outcome cfg retries w :
  match snd (drive cfg retries w) with
  | Ok _ | Err (RnTick _) | Err RnNotLeader => True
  | Err _ => False
  end.
Proof.
  revert w. induction retries as [|retries IH]; intros w; cbn [drive];
    destruct (KasEngine.run_once cfg w) as [w' [[|report]|e]]; cbn; auto. apply IH.
Qed.

Lemma returned_mode cfg dry engine :
  prepare_run_now cfg dry = Ok engine ->
  KasEngine.cfg_mode engine = mode_of (dry || pc_dry_run (mo_payout (rc_money cfg))).
Proof.
  unfold prepare_run_now. intros H. reads H. apply map_err_ok in H. unfold KasEngine.engine_new in H.
  destruct (_ <=? _); [done|]. by injection H as <-.
Qed.

Lemma run_now_flags_dry flags : forall dry c,
  run_now_flags dry flags = Ok c -> exists d, c = PayoutRunNow d /\ (d = true <-> dry = true \/ lit "--dry-run" ∈ flags).
Proof.
  induction flags as [|f flags IH]; cbn; intros dry c H.
  - injection H as <-. exists dry. split; [done|]. set_solver.
  - case_bool_decide as Ef; [subst f|done]. destruct (IH _ _ H) as (d & -> & Hd). exists d. split; [done|]. set_solver.
Qed.

(** C28. An on-demand payout is a short, honest history: whatever the
    environment, the flags, the node and the database answer, [payout run-now]
    is at most ten ticks of the KAS engine, so everything that holds of histories
    of ticks holds of it; it broadcasts nothing when [--dry-run] is given or the
    environment does not say the dry run is off; it reports success only for a
    tick that led and whose broadcasts were all accepted; and when it reports that
    another instance leads, it has changed neither database nor chain. *)
Theorem run_now_is_history vars read flags (w w' : KasEngine.World Script) r :
  main vars read (lit "payout" :: lit "run-now" :: flags) w = (w', RanNow r) ->
  (lit "--dry-run" ∈ flags \/ ~ says vars "KATPOOL_PAYOUT_DRY_RUN" false -> wd_log w' = wd_log w) /\
  (exists cfg n, (n <= 10)%nat /\ w' = ticks cfg n w /\ (KasEnvLaws Script -> rtc (kas_step EV) w w') /\
     match r with
     | Ok report => er_submit_errors (tr_broadcast report) = [] /\ (0 < n)%nat /\
                    snd (KasEngine.run_once cfg (ticks cfg (n - 1) w)) = Ok (Ran report)
     | Err RnNotLeader => wd_db w' = wd_db w /\ wd_log w' = wd_log w
     | Err (RnRejected k) => (0 < k)%nat
     | Err (RnTick e) => (0 < n)%nat /\ snd (KasEngine.run_once cfg (ticks cfg (n - 1) w)) = Err e
     | Err _ => w' = w
     end).
Proof.
  unfold main. change (parse_args (lit "payout" :: lit "run-now" :: flags)) with (run_now_flags false flags).
  destruct (run_now_flags false flags) as [c|] eqn:Ec; [|done]. apply run_now_flags_dry in Ec as (dry & -> & Hdry).
  destruct (from_env vars read) as [cfg|] eqn:Ecfg; [|done].
  pose proof (from_env_money vars read cfg Ecfg) as M.
  unfold run_payout_now. destruct (prepare_run_now cfg dry) as [engine|e] eqn:Ep.
  2:{ intros [= <- <-]. split; [done|]. exists (kas_engine_config dry (mo_payout (rc_money cfg))), 0%nat.
      split; [lia|]. split; [done|]. split; [intros; apply rtc_refl|].
      unfold prepare_run_now in Ep. clear - Ep.
      repeat match type of Ep with
      | rbind (map_err ?f ?x) _ = _ => destruct x; [cbn [map_err rbind] in Ep|by injection Ep as <-]
      | rbind (ok_or ?x _) _ = _ => destruct x; [cbn [ok_or rbind] in Ep|by injection Ep as <-]
      end.
      destruct (KasEngine.engine_new _); [done|by injection Ep as <-]. }
  intros H.
  assert (w' = fst (drive engine 9 w)) as ->.
  { destruct (drive engine 9 w) as [w1 [report|e]]; [|by injection H].
    destruct (er_submit_errors _); by injection H. }
  destruct (drive_ticks engine 9 w) as (n & Hn & Et & Es). pose proof (drive_not_leader engine 9 w) as NL.
  pose proof (drive_outcome engine 9 w) as O. split.
  - intros Hr. rewrite Et. apply ticks_silent. apply returned_mode in Ep. rewrite Ep. unfold mode_of.
    destruct Hr as [Hr|Hr].
    + assert (dry = true) as -> by (apply Hdry; by right). done.
    + destruct (pc_dry_run (mo_payout (rc_money cfg))) eqn:Ed; [by rewrite orb_true_r|].
      exfalso. apply Hr. by apply (money_says vars _ M).
  - exists engine, n. split; [lia|]. split; [done|]. split; [intros L; rewrite Et; by apply ticks_history|].
    destruct (drive engine 9 w) as [w1 [report|e]]; cbn [fst snd] in *.
    + destruct (er_submit_errors (tr_broadcast report)) as [|x errs] eqn:Ee; injection H as <-; cbn; [|lia].
      split; [done|]. split; [lia|done].
    + injection H as <-. destruct e; try done; [split; [lia|done]|]. by apply NL.
Qed.
End Main.

(** ** What a started daemon is made of *)

Section Started.
Context `{AC : !AddressCodec} `{SV : !SecretEnv} `{SE : !StepEnv} (vars : Vars).

(** The widths of the file's integers, which its deserializer enforces. *)
Record file_typed (f : FileConfig) : Prop := {
  ft_min_share_diff : within (fun v => (0 <=? v) && (v <=? u32_max)) (fc_min_share_diff f) = true;
  ft_fee_topline_bps : within (fun v => (0 <=? v) && (v <=? u16_max)) (fc_fee_topline_bps f) = true;
  ft_maturity_poll_secs : within in_u64b (fc_maturity_poll_secs f) = true;
  ft_coinbase_maturity : within in_u64b (fc_coinbase_maturity f) = true;
  ft_window_daa_span : within in_u64b (fc_window_daa_span f) = true;
  ft_maturity_batch_size : within in_i64b (fc_maturity_batch_size f) = true
}.

Record maturity_typed (m : MaturityConfig) : Prop := {
  mt_poll : in_u64 (mc_poll_interval_secs m);
  mt_maturity : in_u64 (mc_coinbase_maturity m);
  mt_window : in_u64 (mc_window_daa_span m);
  mt_batch : in_i64 (mc_batch_size m);
  mt_floor : in_u64 (mc_coinbase_min_daa_score m)
}.

Lemma layered_typed (P : Z -> Prop) (p : Z -> bool) parse bad key o file fallback :
  optional_parsed vars parse bad key = Ok o -> (forall s v, parse s = Some v -> P v) ->
  within p file = true -> (forall v, p v = true -> P v) -> P fallback -> P (layered o file fallback).
Proof.
  intros H Hp Hf Hw Hd. destruct o as [v|]; cbn.
  - apply optional_parsed_Some in H as (s & _ & E). by eapply Hp.
  - destruct file; cbn in *; auto.
Qed.

Lemma parse_u64_typed s v : parse_u64 s = Some v -> in_u64 v.
Proof. intros H. eapply parse_unsigned_range in H; [exact H|]. by vm_compute. Qed.

Lemma maturity_from_env_typed f m : file_typed f -> maturity_from_env vars f = Ok m -> maturity_typed m.
Proof.
  intros F H. unfold maturity_from_env in H. reads H. injection H as <-.
  assert (forall v, in_u64b v = true -> in_u64 v) as U by (intros; by apply in_u64b_spec).
  split; cbn [mc_poll_interval_secs mc_coinbase_maturity mc_window_daa_span mc_batch_size mc_coinbase_min_daa_score].
  1-3: eapply layered_typed; [eassumption|exact parse_u64_typed|apply F|exact U|vm_compute; split; discriminate].
  - eapply layered_typed; [eassumption|exact parse_i64_range|apply F| |vm_compute; split; discriminate].
    intros x. apply in_i64b_spec.
  - destruct v3 as [x|]; [|vm_compute; split; discriminate]. cbn.
    match goal with R : optional_u64 vars "KATPOOL_COINBASE_MIN_DAA_SCORE" = _ |- _ =>
      apply optional_parsed_Some in R as (s & _ & E) end. by apply parse_u64_typed in E.
Qed.

Lemma column_of_network n : valid_network n = true -> In (column_of n) VALID_NETWORKS.
Proof.
  unfold valid_network. intros (w & Hw & E)%existsb_exists. apply bool_decide_eq_true in E. subst n.
  cbn in Hw. repeat (destruct Hw as [<-|Hw]; [vm_compute; tauto|]). done.
Qed.

Lemma b_bind_Ok {A B} (m : Boot A) (k : A -> Boot B) s s' b :
  b_bind m k s = (s', Ok b) -> exists s1 a, m s = (s1, Ok a) /\ k a s1 = (s', Ok b).
Proof. unfold b_bind. destruct (m s) as [s1 [a|e]]; [|done]. by exists s1, a. Qed.

Lemma b_lift_Ok {A} (r : result A BootError) s s' a : b_lift r s = (s', Ok a) -> s' = s /\ r = Ok a.
Proof. unfold b_lift. by intros [= -> ->]. Qed.

Ltac boots H :=
  repeat match type of H with
  | b_bind (b_lift _) _ _ = (_, Ok _) =>
      let s1 := fresh "s" in let a := fresh "a" in let E := fresh "R" in
      apply b_bind_Ok in H as (s1 & a & E & H); apply b_lift_Ok in E as [-> E]
  | b_bind (b_step _) _ _ = (_, Ok _) => unfold b_step at 1 in H
  | b_bind _ _ _ = (_, Ok _) =>
      let s1 := fresh "s" in let a := fresh "a" in let E := fresh "R" in
      apply b_bind_Ok in H as (s1 & a & E & H)
  end.

Definition kinds (s : list Spender) : list SpenderKind := map spender_kind s.

(** A step that grows the list by engines of the given kinds. *)
Definition grows (s s' : list Spender) (ks : list SpenderKind) : Prop := kinds s' = kinds s ++ ks.

Lemma spawned_grows e s s' (a : unit) : spawn_engine e s = (s', Ok a) -> grows s s' [spender_kind e].
Proof. intros [= <- _]. unfold grows, kinds. by rewrite map_app. Qed.

Lemma idle_grows s s' (a : unit) : b_ret tt s = (s', Ok a) -> grows s s' [].
Proof. intros [= <- _]. unfold grows. by rewrite app_nil_r. Qed.

Lemma start_kas_grows cfg t s s' a :
  start_kas cfg t s = (s', Ok a) -> grows s s' (if mo_payout_enabled (rc_money cfg) then [SKas] else []).
Proof.
  unfold start_kas. destruct (mo_payout_enabled _); [|apply idle_grows]. intros H. boots H. by apply spawned_grows in H.
Qed.

Lemma start_krc20_grows cfg t s s' a :
  start_krc20 cfg t s = (s', Ok a) -> grows s s' (if mo_krc20_payout_enabled (rc_money cfg) then [SKrc20] else []).
Proof.
  unfold start_krc20. destruct (mo_krc20_payout_enabled _); [|apply idle_grows]. intros H. boots H.
  by apply spawned_grows in H.
Qed.

Lemma start_zkas_grows cfg s s' a :
  start_zkas vars cfg s = (s', Ok a) -> grows s s' (if zkas_payout_enabled vars then [SZkas] else []).
Proof.
  unfold start_zkas. destruct (zkas_payout_enabled vars); [|apply idle_grows]. intros H. boots H.
  by apply spawned_grows in H.
Qed.

Lemma start_consolidation_grows cfg t s s' a :
  start_consolidation cfg t s = (s', Ok a) ->
  grows s s' (if mo_consolidation_enabled (rc_money cfg) then [SConsolidation] else []).
Proof.
  unfold start_consolidation. destruct (mo_consolidation_enabled _); [|apply idle_grows]. intros H. boots H.
  by apply spawned_grows in H.
Qed.

(** The engines a configuration asks for, in the order of the start-up. *)
Definition wanted (cfg : RuntimeConfig) : list SpenderKind :=
  (if mo_payout_enabled (rc_money cfg) then [SKas] else [])
  ++ (if mo_krc20_payout_enabled (rc_money cfg) then [SKrc20] else [])
  ++ (if zkas_payout_enabled vars then [SZkas] else [])
  ++ (if mo_consolidation_enabled (rc_money cfg) then [SConsolidation] else []).

(** What the parts of a started daemon rely on. *)
Record daemon_typed (cfg : RuntimeConfig) (d : RunningDaemon) : Prop := {
  dt_treasury : head (rc_pool_addresses cfg) = Some (dm_treasury d);
  dt_fee : fee_config_ok (dm_fee d);
  dt_network : In (cc_network (dm_consumer d)) VALID_NETWORKS;
  dt_maturity : maturity_typed (dm_maturity d);
  dt_rewards :
    match dm_rewards d with
    | ShieldedScanSource sc =>
        sc_treasury_recipients sc = map (fun a => ad_payload (address_view a)) (rc_pool_addresses cfg)
        /\ Forall (fun a => ad_shielded (address_view a) = true) (rc_pool_addresses cfg)
    | UtxoIndexSource => Exists (fun a => ad_shielded (address_view a) = false) (rc_pool_addresses cfg)
    end;
  dt_ports : Forall (fun e => is_Some (parse_port (fst e)) /\ 0 <= snd e <= u32_max) (rb_stratum_ports (dm_bridge d));
  dt_seed : exists z, 0 <= z <= u32_max /\ rb_min_share_diff (dm_bridge d) = f64_of_Z z
}.

Lemma reward_source_spec cfg rewards :
  rc_pool_addresses cfg <> [] -> reward_source cfg = Ok rewards ->
  match rewards with
  | ShieldedScanSource sc =>
      sc_treasury_recipients sc = map (fun a => ad_payload (address_view a)) (rc_pool_addresses cfg)
      /\ Forall (fun a => ad_shielded (address_view a) = true) (rc_pool_addresses cfg)
  | UtxoIndexSource => Exists (fun a => ad_shielded (address_view a) = false) (rc_pool_addresses cfg)
  end.
Proof.
  intros N. unfold reward_source. destruct (forallb ad_shielded _) eqn:F.
  - unfold ShieldedRewardScanner_new. destruct (map address_view _) as [|v vs] eqn:V; [by destruct (rc_pool_addresses cfg)|].
    rewrite <- V in *. destruct (List.find _ _) eqn:Fd; cbn; [done|]. intros [= <-]. cbn. rewrite map_map. split; [done|].
    rewrite forallb_forall in F. apply List.Forall_forall. intros a Ha. by apply F, in_map.
  - intros [= <-]. clear N. induction (rc_pool_addresses cfg) as [|a l IH]; [done|]. cbn in F.
    apply andb_false_iff in F as [F|F]; [by left|right; auto].
Qed.

Lemma runtime_config_typed f cfg :
  file_typed f -> runtime_config vars f = Ok cfg ->
  rc_pool_addresses cfg <> [] /\ 0 <= rc_fee_topline_bps cfg /\ 0 <= rc_min_share_diff cfg <= u32_max /\
  maturity_typed (rc_maturity cfg) /\ valid_network (rc_network cfg) = true /\
  Forall (fun e => is_Some (parse_port (fst e)) /\ 0 <= snd e <= u32_max) (rc_stratum_ports cfg).
Proof.
  intros F H. unfold runtime_config in H. reads H. case_bool_decide as N; [done|]. reads H. injection H as <-.
  cbn [rc_pool_addresses rc_fee_topline_bps rc_min_share_diff rc_maturity rc_network rc_stratum_ports].
  split; [done|]. split; [|split; [|split; [|split]]].
  - eapply (layered_typed (fun v => 0 <= v)); [eassumption| |apply F| |done].
    + intros s x E. eapply parse_unsigned_range in E; [lia|by vm_compute].
    + intros x Hx. cbv beta in Hx. to_prop. lia.
  - eapply (layered_typed (fun v => 0 <= v <= u32_max)); [eassumption| |apply F| |by vm_compute].
    + intros s x E. eapply parse_unsigned_range in E; [exact E|by vm_compute].
    + intros x Hx. cbv beta in Hx. to_prop. lia.
  - by eapply maturity_from_env_typed.
  - match goal with R : resolve_network _ _ = Ok _ |- _ => unfold resolve_network in R; apply rbind_Ok in R as (n & _ & R) end.
    destruct (valid_network n) eqn:Vn; [|done]. congruence.
  - by eapply parse_stratum_ports_sound.
Qed.

(** C30. A daemon that starts is complete and well typed: when the start-up
    succeeds, exactly the engines the configuration asks for were spawned, the fee
    is a valid fee, the network is one the database accepts, the tracker's numbers
    are in their widths, rewards are scanned on the shielded chain exactly when
    every pool address is shielded and then for all of them, and every listed port
    and seed is a port and a seed. *)
Theorem started_daemon_typed read cfg started d :
  (forall path f, read path = Some f -> file_typed f) ->
  from_env vars read = Ok cfg -> start_daemon vars cfg [] = (started, Ok d) ->
  kinds started = wanted cfg /\ daemon_typed cfg d.
Proof.
  intros Hread Hcfg H.
  destruct (from_env_layer vars read cfg Hcfg) as (f & Hor & Hf).
  assert (file_typed f) as Ff by (destruct Hor as [->|[p Hp]]; [by split|exact (Hread p f Hp)]).
  destruct (runtime_config_typed f cfg Ff Hf) as (Na & Nf & Ns & Mt & Vn & Ps).
  unfold start_daemon in H. boots H. destruct (_ || _); [done|]. boots H.
  repeat match goal with
  | E : map_err _ _ = Ok _ |- _ => apply map_err_ok in E
  | E : ok_or ?o _ = Ok _ |- _ => destruct o eqn:?; [injection E as ->|done]
  end.
  injection H as <- <-.
  match goal with E : _ [] = (?s, Ok _) |- _ => assert (s = []) as -> by (destruct (rc_tier_classifier cfg); [by injection E|by apply b_lift_Ok in E as [? _]]) end.
  match goal with E : (if _ then _ else _) [] = (?s, Ok _) |- _ => assert (s = []) as ->
    by (destruct (_ || _); [destruct (rc_api_database_url cfg) as [[|]|]|];
        first [by injection E | by apply b_lift_Ok in E as [? _]]) end.
  split.
  - match goal with
    | K : start_kas _ _ _ = _, X : start_krc20 _ _ _ = _, Z : start_zkas _ _ _ = _, C : start_consolidation _ _ _ = _ |- _ =>
        apply start_kas_grows in K; apply start_krc20_grows in X; apply start_zkas_grows in Z;
        apply start_consolidation_grows in C; unfold grows in *; rewrite C, Z, X, K
    end. unfold wanted. cbn [kinds map app]. by rewrite !app_assoc.
  - split; cbn [dm_treasury dm_fee dm_consumer dm_maturity dm_rewards dm_bridge runtime_bridge rb_stratum_ports rb_min_share_diff].
    + assumption.
    + by eapply FeeConfig_new_ok.
    + match goal with E : ConsumerConfig_new _ _ = Ok _ |- _ => unfold ConsumerConfig_new in E end.
      destruct (existsb _ _); [|done].
      match goal with E : Ok _ = Ok ?c |- _ => injection E as <- end. by apply column_of_network.
    + exact Mt.
    + by apply reward_source_spec.
    + exact Ps.
    + by exists (rc_min_share_diff cfg).
Qed.
End Started.

(** ** Where the configuration surprises *)

(** An empty [api_port] in the file, which the key's documentation offers to
    disable the listener, aborts the start-up, and an empty environment variable
    does not override it. *)
Theorem empty_file_port_aborts `{AC : !AddressCodec} vars f c :
  fc_api_port f = Some [] -> unset vars "KATPOOL_API_PORT" -> runtime_config vars f <> Ok c.
Proof.
  intros P U H. unfold runtime_config in H. reads H. case_bool_decide; [done|]. reads H.
  match goal with R : option_map_result (parse_bind_addr "KATPOOL_API_PORT") _ = Ok _ |- _ =>
    unfold env_or in R; unfold unset in U; rewrite U, P in R; vm_compute in R; discriminate R end.
Qed.

(** The address of the public feed is read from the environment alone: a pool
    address that the file supplies leaves it empty. *)
Theorem feed_address_needs_variable `{AC : !AddressCodec} vars f c :
  vars "KATPOOL_POOL_ADDRESS"%string = None -> runtime_config vars f = Ok c ->
  api_mps_pool_address (rc_api_config c) = [].
Proof.
  intros U H. unfold runtime_config in H. reads H. case_bool_decide; [done|]. reads H. injection H as <-.
  cbn [rc_api_config]. match goal with R : ApiConfig_from_lookup vars = Ok _ |- _ =>
    unfold ApiConfig_from_lookup in R; reads R; injection R as <- end.
  cbn [api_mps_pool_address]. by rewrite U.
Qed.

(** ** Concrete processes *)

Definition env_of (l : list (string * string)) : Vars :=
  fun k => option_map (fun kv => lit (snd kv)) (List.find (fun kv => String.eqb (fst kv) k) l).

Definition demo_codec : AddressCodec := {|
  pool_address := text;
  address_try_from s := if bool_decide (firstn 5 s = lit "zkas:") then Some s else None;
  address_prefix _ := PMainnet;
  address_view s := ShieldedScan.mkAddress true s s;
  treasury_address_from_secret _ _ := Some (lit "zkas:pool")
|}.

Definition demo_secrets : SecretEnv := {|
  sv_read_to_string _ := Ok (lit "1111");
  sv_var_os _ := Some (lit "/run/credentials");
  sv_mlock := Ok tt;
  sv_decode_key _ := Some (repeat 17 32)
|}.

Definition demo_steps : StepEnv := fun _ => Ok tt.

Definition demo_settings : list (string * string) :=
  [("KASPAD_GRPC_URL", "grpc://127.0.0.1:16210"); ("KATPOOL_DATABASE_URL", "postgres://localhost/katpool");
   ("KATPOOL_STRATUM_PORT", "5555"); ("KATPOOL_POOL_ADDRESS", "zkas:pool, zkas:cold");
   ("KATPOOL_PAYOUT_CYCLE_SPAN_DAA", "1000"); ("KATPOOL_PAYOUT_THRESHOLD_SOMPI", "100000000");
   ("KATPOOL_PAYOUT_MAX_SOMPI_PER_CYCLE", "20000000000"); ("KATPOOL_PAYOUT_DRY_RUN", "false")]%string.

Definition no_file : text -> option FileConfig := fun _ => None.

Definition demo_main (extra : list (string * string)) (args : list string) :
    KasEngine.World nat * ProcessOutcome :=
  main (AC := demo_codec) (SV := demo_secrets) (SE := demo_steps) (EV := kas_env1) (env_of (extra ++ demo_settings))
    no_file (map lit args) kas_world0.

Definition spawned `{AC : !AddressCodec} (o : ProcessOutcome) : list Spender :=
  match o with RanDaemon started _ => started | _ => [] end.

Definition all_live : list (string * string) :=
  [("KATPOOL_PAYOUT_ENABLED", "on"); ("KATPOOL_CONSOLIDATION_ENABLED", "Yes");
   ("KATPOOL_ZKAS_PAYOUT_ENABLED", "TRUE"); ("KATPOOL_ZKAS_PAYOUT_DRY_RUN", "0");
   ("KATPOOL_SHIELDED_PAY_BIN", "/bin/pay"); ("KATPOOL_ZKAS_TREASURY_SEED_FILE", "/seed")]%string.

Lemma funds_move_on_request_witness :
  exists w' started r,
    main (AC := demo_codec) (SV := demo_secrets) (SE := demo_steps) (EV := kas_env1) (env_of (all_live ++ demo_settings))
      no_file [] kas_world0 = (w', RanDaemon started r) /\
    map (fun s => (spender_kind s, spender_live s)) started = [(SKas, true); (SZkas, true); (SConsolidation, false)] /\
    sublist (map spender_kind started) [SKas; SKrc20; SZkas; SConsolidation].
Proof.
  destruct (main (AC := demo_codec) (SV := demo_secrets) (SE := demo_steps) (EV := kas_env1)
              (env_of (all_live ++ demo_settings)) no_file [] kas_world0) as [w' o] eqn:E.
  assert (map (fun s => (spender_kind s, spender_live s)) (spawned o)
          = [(SKas, true); (SZkas, true); (SConsolidation, false)]) as R
    by (change o with (snd (w', o)); rewrite <- E; vm_compute; reflexivity).
  destruct o as [| | |started r| |]; try discriminate R. exists w', started, r. split; [reflexivity|]. split; [exact R|].
  destruct (funds_move_on_request _ _ _ _ _ _ _ E) as (_ & S & _). exact S.
Defined.

(** A word the other switches accept leaves the ZKas engine off without a word. *)
Example zkas_yes_is_ignored :
  spawned (snd (demo_main [("KATPOOL_ZKAS_PAYOUT_ENABLED", "yes")]%string [])) = [] /\
  map spender_kind (spawned (snd (demo_main [("KATPOOL_PAYOUT_ENABLED", "yes")]%string []))) = [SKas].
Proof. by vm_compute. Qed.

(** Live, and for a deployment whose periodic engine is off; a rehearsal of the
    same payout sends nothing. *)
Example run_now_without_engine :
  length (wd_log (fst (demo_main [] ["payout"; "run-now"]%string))) = 1%nat /\
  length (wd_log (fst (demo_main [] ["payout"; "run-now"; "--dry-run"]%string))) = 0%nat.
Proof. by vm_compute. Qed.

Definition ran_now (o : ProcessOutcome (H := demo_codec)) : bool := match o with RanNow _ => true | _ => false end.

Lemma run_now_is_history_witness :
  exists w' r,
    main (AC := demo_codec) (SV := demo_secrets) (SE := demo_steps) (EV := kas_env1) (env_of demo_settings) no_file
      (lit "payout" :: lit "run-now" :: [lit "--dry-run"]) kas_world0 = (w', RanNow r) /\ wd_log w' = [].
Proof.
  destruct (main (AC := demo_codec) (SV := demo_secrets) (SE := demo_steps) (EV := kas_env1) (env_of demo_settings)
              no_file (lit "payout" :: lit "run-now" :: [lit "--dry-run"]) kas_world0) as [w' o] eqn:E.
  assert (ran_now o = true) as R by (change o with (snd (w', o)); rewrite <- E; vm_compute; reflexivity).
  destruct o as [|r| | | |]; try discriminate R. exists w', r. split; [reflexivity|].
  destruct (run_now_is_history _ _ _ _ _ _ E) as [L _]. rewrite L; [reflexivity|]. left. left.
Defined.

Definition boots_with (r : result (RuntimeConfig (H := demo_codec)) ConfError) (vars : Vars) (ks : list SpenderKind) : bool :=
  match r with
  | Ok cfg =>
      let '(started, d) := start_daemon (SV := demo_secrets) (SE := demo_steps) vars cfg [] in
      is_ok d && bool_decide (map spender_kind started = ks)
  | Err _ => false
  end.

Lemma started_daemon_typed_witness :
  exists cfg started d,
    from_env (AC := demo_codec) (env_of (all_live ++ demo_settings)) no_file = Ok cfg /\
    start_daemon (SV := demo_secrets) (SE := demo_steps) (env_of (all_live ++ demo_settings)) cfg [] = (started, Ok d) /\
    map spender_kind started = [SKas; SZkas; SConsolidation] /\ daemon_typed cfg d.
Proof.
  assert (boots_with (from_env (AC := demo_codec) (env_of (all_live ++ demo_settings)) no_file)
            (env_of (all_live ++ demo_settings)) [SKas; SZkas; SConsolidation] = true) as B by (vm_compute; reflexivity).
  destruct (from_env (AC := demo_codec) (env_of (all_live ++ demo_settings)) no_file) as [cfg|] eqn:Ec; [|discriminate B].
  unfold boots_with in B.
  destruct (start_daemon (SV := demo_secrets) (SE := demo_steps) (env_of (all_live ++ demo_settings)) cfg [])
    as [started [d|]] eqn:Ed; [|discriminate B].
  apply bool_decide_eq_true in B. exists cfg, started, d. split; [reflexivity|]. split; [exact Ed|]. split; [exact B|].
  refine (proj2 (started_daemon_typed (env_of (all_live ++ demo_settings)) no_file cfg started d _ Ec Ed)). discriminate.
Defined.

Lemma file_only_fills_gaps_witness :
  let vars := env_of demo_settings in
  let f := mkFileConfig (Some (lit "grpc://other")) None (Some (lit "zkas:thief")) None None None None None None
             (Some 7) None None None None None None None None None None None None in
  let g := mkFileConfig None None None None None None None None None
             (Some 7) None None None None None None None None None None None None in
  runtime_config (AC := demo_codec) vars f = runtime_config (AC := demo_codec) vars g /\
  is_ok (runtime_config (AC := demo_codec) vars f) = true.
Proof.
  intros vars f g. split; [|vm_compute; reflexivity]. apply (proj1 (file_only_fills_gaps vars f g)).
  split; intros U; first [reflexivity | vm_compute in U; discriminate U].
Defined.
