(* ===== verification/BridgeConfig.v ===== *)
(** * Configuring the bridge ([bridge/src/{app_config,cli,main,stratum_server}.rs])

    The bridge's YAML file once it is read, its instance specifications and command
    line, the settings of each instance's server, and what the server binds: the
    listeners and the starting difficulty of every port.  The YAML reader, the
    command-line parser and [f64::log2] are parameters. *)
From Stdlib Require Import SpecFloat.
From S2P Require Import Prelude F64 Schema Domain Hasher MiningState Merged AntiAbuse StratumRpc ShareGuard StratumContext IngestDb SessionDb Consumer ShareHandler ClientHandler Handshake ClientSpec Api ApiSpec Config ConfigSpec.
Open Scope Z_scope.

(** ** Data *)

Record InstanceConfig := mkInstance {
  ic_stratum_port : text;
  ic_min_share_diff : f64;
  ic_prom_port : option text;
  ic_log_to_file : option bool;
  ic_block_wait_time_ms : option Z;
  ic_extranonce_size : option Z;
  ic_var_diff : option bool;
  ic_shares_per_min : option Z;
  ic_var_diff_stats : option bool;
  ic_pow2_clamp : option bool;
  ic_kaspa_common_protocol : bool;
  ic_extranonce_with_size : bool
}.

Record GlobalConfig := mkGlobal {
  gc_kaspad_address : text;
  gc_merged_kaspa_address : text;
  gc_merged_kaspa_pay_address : text;
  gc_block_wait_time_ms : Z;
  gc_print_stats : bool;
  gc_log_to_file : bool;
  gc_health_check_port : text;
  gc_web_dashboard_port : text;
  gc_var_diff : bool;
  gc_shares_per_min : Z;
  gc_var_diff_stats : bool;
  gc_extranonce_size : Z;
  gc_pow2_clamp : bool;
  gc_coinbase_tag_suffix : option text
}.

Record BridgeConfig := mkBridgeConfig { bg_global : GlobalConfig; bg_instances : list InstanceConfig }.

Definition InstanceConfig_default : InstanceConfig :=
  mkInstance (lit ":5555") (f64_of_Z 8192) None None None None None None None None false false.

Definition GlobalConfig_default : GlobalConfig :=
  mkGlobal (lit "localhost:16110") [] [] 1000 true true [] [] true 20 false 2 false None.

Definition BridgeConfig_default : BridgeConfig := mkBridgeConfig GlobalConfig_default [InstanceConfig_default].

Inductive BridgeError :=
| NoInstances
| MissingStratumPort (idx : nat)
| DuplicatePort (port : text)
| BadBool (s : text)
| InstancePortEmpty (spec : text)
| InstanceValue (key v : text)
| UnknownInstanceKey (key spec : text)
| InstanceNeedsPort (spec : text)
| InstanceNeedsDiff (spec : text)
| MixedInstanceFlags
| OverridesNeedOneInstance
| BadYaml.

(** ** The YAML file ([app_config.rs]) *)

(** [deserialize_optional_port]. *)
Definition optional_port (s : option text) : option text :=
  match s with
  | None => None
  | Some s => if bool_decide (normalize_port s = []) then None else Some (normalize_port s)
  end.

(** A number of the document; an integer that does not fit an [i64] is read as a
    double. *)
Inductive YamlNumber := YInt (z : Z) | YFloat (x : f64).

(** [deserialize_duration_ms]. *)
Definition duration_ms (n : YamlNumber) : Z :=
  match n with
  | YInt z => if in_i64b z then as_u64 z else f64_as_u64 (f64_of_Z z)
  | YFloat x => f64_as_u64 x
  end.

(** [deserialize_coinbase_tag_suffix]. *)
Definition tag_suffix (s : option text) : option text :=
  match s with
  | None => None
  | Some s => if bool_decide (trim s = []) then None else Some (trim s)
  end.

(** An instance as the document has it. *)
Record RawInstance := mkRawInstance {
  ri_stratum_port : text;
  ri_min_share_diff : f64;
  ri_prom_port : option text;
  ri_log_to_file : option bool;
  ri_block_wait_time : option YamlNumber;
  ri_extranonce_size : option Z;
  ri_var_diff : option bool;
  ri_shares_per_min : option Z;
  ri_var_diff_stats : option bool;
  ri_pow2_clamp : option bool;
  ri_kaspa_common_protocol : option bool;
  ri_extranonce_with_size : option bool
}.

Definition instance_of_yaml (r : RawInstance) : InstanceConfig :=
  mkInstance (normalize_port (ri_stratum_port r)) (ri_min_share_diff r) (optional_port (ri_prom_port r))
    (ri_log_to_file r) (option_map duration_ms (ri_block_wait_time r)) (ri_extranonce_size r) (ri_var_diff r)
    (ri_shares_per_min r) (ri_var_diff_stats r) (ri_pow2_clamp r) (default false (ri_kaspa_common_protocol r))
    (default false (ri_extranonce_with_size r)).

(** The global keys of the document; an absent key keeps its default. *)
Record RawGlobal := mkRawGlobal {
  rg_kaspad_address : option text;
  rg_merged_kaspa_address : option text;
  rg_merged_kaspa_pay_address : option text;
  rg_block_wait_time : option YamlNumber;
  rg_print_stats : option bool;
  rg_log_to_file : option bool;
  rg_health_check_port : option text;
  rg_web_dashboard_port : option text;
  rg_var_diff : option bool;
  rg_shares_per_min : option Z;
  rg_var_diff_stats : option bool;
  rg_extranonce_size : option Z;
  rg_pow2_clamp : option bool;
  rg_coinbase_tag_suffix : option text
}.

Definition global_of_yaml (r : RawGlobal) : GlobalConfig :=
  let d := GlobalConfig_default in
  mkGlobal (default (gc_kaspad_address d) (rg_kaspad_address r))
    (default (gc_merged_kaspa_address d) (rg_merged_kaspa_address r))
    (default (gc_merged_kaspa_pay_address d) (rg_merged_kaspa_pay_address r))
    (default (gc_block_wait_time_ms d) (option_map duration_ms (rg_block_wait_time r)))
    (default (gc_print_stats d) (rg_print_stats r)) (default (gc_log_to_file d) (rg_log_to_file r))
    (default (gc_health_check_port d) (rg_health_check_port r))
    (default (gc_web_dashboard_port d) (option_map normalize_port (rg_web_dashboard_port r)))
    (default (gc_var_diff d) (rg_var_diff r)) (default (gc_shares_per_min d) (rg_shares_per_min r))
    (default (gc_var_diff_stats d) (rg_var_diff_stats r)) (default (gc_extranonce_size d) (rg_extranonce_size r))
    (default (gc_pow2_clamp d) (rg_pow2_clamp r)) (tag_suffix (rg_coinbase_tag_suffix r)).

(** The document: the global keys, the instances, and the keys of the
    single-instance form. *)
Record BridgeConfigRaw := mkRaw {
  rw_global : RawGlobal;
  rw_instances : option (list RawInstance);
  rw_stratum_port : option text;
  rw_min_share_diff : option f64;
  rw_prom_port : option text
}.

Fixpoint missing_port (idx : nat) (instances : list InstanceConfig) : option nat :=
  match instances with
  | [] => None
  | i :: instances => if bool_decide (ic_stratum_port i = []) then Some idx else missing_port (S idx) instances
  end.

(** The check of the [HashSet]: the first port seen twice. *)
Fixpoint duplicate_port (seen : list text) (instances : list InstanceConfig) : option text :=
  match instances with
  | [] => None
  | i :: instances =>
      if bool_decide (ic_stratum_port i ∈ seen) then Some (ic_stratum_port i)
      else duplicate_port (ic_stratum_port i :: seen) instances
  end.

Definition set_min_share_diff (d : f64) (i : InstanceConfig) : InstanceConfig :=
  mkInstance (ic_stratum_port i) d (ic_prom_port i) (ic_log_to_file i) (ic_block_wait_time_ms i) (ic_extranonce_size i)
    (ic_var_diff i) (ic_shares_per_min i) (ic_var_diff_stats i) (ic_pow2_clamp i) (ic_kaspa_common_protocol i)
    (ic_extranonce_with_size i).
Definition set_stratum_port (p : text) (i : InstanceConfig) : InstanceConfig :=
  mkInstance p (ic_min_share_diff i) (ic_prom_port i) (ic_log_to_file i) (ic_block_wait_time_ms i)
    (ic_extranonce_size i) (ic_var_diff i) (ic_shares_per_min i) (ic_var_diff_stats i) (ic_pow2_clamp i)
    (ic_kaspa_common_protocol i) (ic_extranonce_with_size i).
Definition set_prom_port (p : option text) (i : InstanceConfig) : InstanceConfig :=
  mkInstance (ic_stratum_port i) (ic_min_share_diff i) p (ic_log_to_file i) (ic_block_wait_time_ms i)
    (ic_extranonce_size i) (ic_var_diff i) (ic_shares_per_min i) (ic_var_diff_stats i) (ic_pow2_clamp i)
    (ic_kaspa_common_protocol i) (ic_extranonce_with_size i).

Definition single_instance (raw : BridgeConfigRaw) : InstanceConfig :=
  let i := set_prom_port (optional_port (rw_prom_port raw)) InstanceConfig_default in
  let i := match optional_port (rw_stratum_port raw) with Some p => set_stratum_port p i | None => i end in
  match rw_min_share_diff raw with Some d => set_min_share_diff d i | None => i end.

(** [from_yaml]; [read] is the YAML reader. *)
Definition from_yaml (read : text -> option BridgeConfigRaw) (content : text) : result BridgeConfig BridgeError :=
  let? raw := ok_or (read content) BadYaml in
  let? instances :=
    match rw_instances raw with
    | Some raws =>
        let instances := map instance_of_yaml raws in
        if bool_decide (instances = []) then Err NoInstances
        else match missing_port 0 instances with
             | Some idx => Err (MissingStratumPort idx)
             | None => Ok instances
             end
    | None => Ok [single_instance raw]
    end in
  match duplicate_port [] instances with
  | Some port => Err (DuplicatePort port)
  | None => Ok (mkBridgeConfig (global_of_yaml (rw_global raw)) instances)
  end.

(** ** The command line ([cli.rs]) *)

Definition one_of (words : list string) (s : text) : bool := existsb (fun w => bool_decide (s = lit w)) words.

Definition parse_bool (s : text) : result bool BridgeError :=
  let w := to_ascii_lowercase (trim s) in
  if one_of ["true"; "1"; "yes"; "y"; "on"; "enable"; "enabled"]%string w then Ok true
  else if one_of ["false"; "0"; "no"; "n"; "off"; "disable"; "disabled"]%string w then Ok false
  else Err (BadBool s).

(** [str::split_once] at a character. *)
Fixpoint split_once (sep : Z) (s : text) : option (text * text) :=
  match s with
  | [] => None
  | c :: s =>
      if c =? sep then Some ([], s)
      else match split_once sep s with
           | Some (a, b) => Some (c :: a, b)
           | None => None
           end
  end.

(** The instance under construction: whether its port and its difficulty were
    given. *)
Record SpecState := mkSpec { sp_instance : InstanceConfig; sp_has_port : bool; sp_has_diff : bool }.

Definition with_instance (f : InstanceConfig -> InstanceConfig) (st : SpecState) : SpecState :=
  mkSpec (f (sp_instance st)) (sp_has_port st) (sp_has_diff st).

Definition set_log_to_file (b : bool) (i : InstanceConfig) : InstanceConfig :=
  mkInstance (ic_stratum_port i) (ic_min_share_diff i) (ic_prom_port i) (Some b) (ic_block_wait_time_ms i)
    (ic_extranonce_size i) (ic_var_diff i) (ic_shares_per_min i) (ic_var_diff_stats i) (ic_pow2_clamp i)
    (ic_kaspa_common_protocol i) (ic_extranonce_with_size i).
Definition set_block_wait_time (ms : Z) (i : InstanceConfig) : InstanceConfig :=
  mkInstance (ic_stratum_port i) (ic_min_share_diff i) (ic_prom_port i) (ic_log_to_file i) (Some ms)
    (ic_extranonce_size i) (ic_var_diff i) (ic_shares_per_min i) (ic_var_diff_stats i) (ic_pow2_clamp i)
    (ic_kaspa_common_protocol i) (ic_extranonce_with_size i).
Definition set_extranonce_size (n : Z) (i : InstanceConfig) : InstanceConfig :=
  mkInstance (ic_stratum_port i) (ic_min_share_diff i) (ic_prom_port i) (ic_log_to_file i) (ic_block_wait_time_ms i)
    (Some n) (ic_var_diff i) (ic_shares_per_min i) (ic_var_diff_stats i) (ic_pow2_clamp i)
    (ic_kaspa_common_protocol i) (ic_extranonce_with_size i).
Definition set_var_diff (b : bool) (i : InstanceConfig) : InstanceConfig :=
  mkInstance (ic_stratum_port i) (ic_min_share_diff i) (ic_prom_port i) (ic_log_to_file i) (ic_block_wait_time_ms i)
    (ic_extranonce_size i) (Some b) (ic_shares_per_min i) (ic_var_diff_stats i) (ic_pow2_clamp i)
    (ic_kaspa_common_protocol i) (ic_extranonce_with_size i).
Definition set_shares_per_min (n : Z) (i : InstanceConfig) : InstanceConfig :=
  mkInstance (ic_stratum_port i) (ic_min_share_diff i) (ic_prom_port i) (ic_log_to_file i) (ic_block_wait_time_ms i)
    (ic_extranonce_size i) (ic_var_diff i) (Some n) (ic_var_diff_stats i) (ic_pow2_clamp i)
    (ic_kaspa_common_protocol i) (ic_extranonce_with_size i).
Definition set_var_diff_stats (b : bool) (i : InstanceConfig) : InstanceConfig :=
  mkInstance (ic_stratum_port i) (ic_min_share_diff i) (ic_prom_port i) (ic_log_to_file i) (ic_block_wait_time_ms i)
    (ic_extranonce_size i) (ic_var_diff i) (ic_shares_per_min i) (Some b) (ic_pow2_clamp i)
    (ic_kaspa_common_protocol i) (ic_extranonce_with_size i).
Definition set_pow2_clamp (b : bool) (i : InstanceConfig) : InstanceConfig :=
  mkInstance (ic_stratum_port i) (ic_min_share_diff i) (ic_prom_port i) (ic_log_to_file i) (ic_block_wait_time_ms i)
    (ic_extranonce_size i) (ic_var_diff i) (ic_shares_per_min i) (ic_var_diff_stats i) (Some b)
    (ic_kaspa_common_protocol i) (ic_extranonce_with_size i).

(** One [key=value] part; a part without [=] is the port. *)
Definition spec_part (spec : text) (st : SpecState) (part : text) : result SpecState BridgeError :=
  let '(k, v) := match split_once 61 part with Some (k, v) => (trim k, trim v) | None => (lit "port", part) end in
  let key := to_ascii_lowercase k in
  let bad := InstanceValue key v in
  if one_of ["port"; "stratum"; "stratum_port"]%string key then
    let normalized := normalize_port v in
    if bool_decide (normalized = []) then Err (InstancePortEmpty spec)
    else Ok (mkSpec (set_stratum_port normalized (sp_instance st)) true (sp_has_diff st))
  else if one_of ["prom"; "prom_port"]%string key then
    Ok (with_instance (set_prom_port (optional_port (Some v))) st)
  else if one_of ["diff"; "min_share_diff"]%string key then
    let? d := ok_or (parse_f64 v) bad in
    Ok (mkSpec (set_min_share_diff d (sp_instance st)) (sp_has_port st) true)
  else if one_of ["wait"; "block_wait_time"]%string key then
    let? ms := ok_or (parse_u64 v) bad in Ok (with_instance (set_block_wait_time ms) st)
  else if one_of ["extranonce"; "extranonce_size"]%string key then
    let? n := ok_or (parse_u8 v) bad in Ok (with_instance (set_extranonce_size n) st)
  else if one_of ["log"; "log_to_file"]%string key then
    let? b := parse_bool v in Ok (with_instance (set_log_to_file b) st)
  else if one_of ["var_diff"]%string key then
    let? b := parse_bool v in Ok (with_instance (set_var_diff b) st)
  else if one_of ["shares_per_min"]%string key then
    let? n := ok_or (parse_u32 v) bad in Ok (with_instance (set_shares_per_min n) st)
  else if one_of ["var_diff_stats"]%string key then
    let? b := parse_bool v in Ok (with_instance (set_var_diff_stats b) st)
  else if one_of ["pow2_clamp"]%string key then
    let? b := parse_bool v in Ok (with_instance (set_pow2_clamp b) st)
  else Err (UnknownInstanceKey k spec).

Fixpoint spec_parts (spec : text) (st : SpecState) (parts : list text) : result SpecState BridgeError :=
  match parts with
  | [] => Ok st
  | part :: parts => let? st := spec_part spec st part in spec_parts spec st parts
  end.

Definition parse_instance_spec (spec : text) (default_min_share_diff : option f64) : result InstanceConfig BridgeError :=
  let empty := set_min_share_diff f64_zero (set_stratum_port [] InstanceConfig_default) in
  let? st := spec_parts spec (mkSpec empty false false) (comma_parts spec) in
  if negb (sp_has_port st) then Err (InstanceNeedsPort spec)
  else if sp_has_diff st then Ok (sp_instance st)
  else match default_min_share_diff with
       | Some d => Ok (set_min_share_diff d (sp_instance st))
       | None => Err (InstanceNeedsDiff spec)
       end.

(** The parsed command line; the node's own options are left out. *)
Record Cli := mkCliArgs {
  cl_kaspad_address : option text;
  cl_block_wait_time : option Z;
  cl_print_stats : option bool;
  cl_log_to_file : option bool;
  cl_health_check_port : option text;
  cl_web_dashboard_port : option text;
  cl_var_diff : option bool;
  cl_shares_per_min : option Z;
  cl_var_diff_stats : option bool;
  cl_extranonce_size : option Z;
  cl_pow2_clamp : option bool;
  cl_coinbase_tag_suffix : option text;
  cl_stratum_port : option text;
  cl_min_share_diff : option f64;
  cl_prom_port : option text;
  cl_instances : list text;
  cl_instance_log_to_file : option bool;
  cl_instance_var_diff : option bool;
  cl_instance_shares_per_min : option Z;
  cl_instance_var_diff_stats : option bool;
  cl_instance_pow2_clamp : option bool
}.

Definition apply_global (g : GlobalConfig) (c : Cli) : GlobalConfig :=
  mkGlobal (default (gc_kaspad_address g) (cl_kaspad_address c)) (gc_merged_kaspa_address g)
    (gc_merged_kaspa_pay_address g) (default (gc_block_wait_time_ms g) (cl_block_wait_time c))
    (default (gc_print_stats g) (cl_print_stats c)) (default (gc_log_to_file g) (cl_log_to_file c))
    (default (gc_health_check_port g) (cl_health_check_port c))
    (default (gc_web_dashboard_port g) (option_map normalize_port (cl_web_dashboard_port c)))
    (default (gc_var_diff g) (cl_var_diff c)) (default (gc_shares_per_min g) (cl_shares_per_min c))
    (default (gc_var_diff_stats g) (cl_var_diff_stats c)) (default (gc_extranonce_size g) (cl_extranonce_size c))
    (default (gc_pow2_clamp g) (cl_pow2_clamp c))
    (match cl_coinbase_tag_suffix c with Some s => tag_suffix (Some s) | None => gc_coinbase_tag_suffix g end).

Definition given {A} (o : option A) : bool := match o with Some _ => true | None => false end.

(** The single-instance flags but the difficulty, which [--instance] may use as a
    default. *)
Definition single_flags (c : Cli) : bool :=
  given (cl_stratum_port c) || given (cl_prom_port c) || given (cl_instance_log_to_file c)
  || given (cl_instance_var_diff c) || given (cl_instance_shares_per_min c) || given (cl_instance_var_diff_stats c)
  || given (cl_instance_pow2_clamp c).

Definition set_opt {A} (set : A -> InstanceConfig -> InstanceConfig) (o : option A) (i : InstanceConfig) : InstanceConfig :=
  match o with Some a => set a i | None => i end.

Definition apply_instance (c : Cli) (i : InstanceConfig) : InstanceConfig :=
  set_opt set_pow2_clamp (cl_instance_pow2_clamp c)
    (set_opt set_var_diff_stats (cl_instance_var_diff_stats c)
      (set_opt set_shares_per_min (cl_instance_shares_per_min c)
        (set_opt set_var_diff (cl_instance_var_diff c)
          (set_opt set_log_to_file (cl_instance_log_to_file c)
            (set_opt (fun p => set_prom_port (Some (normalize_port p))) (cl_prom_port c)
              (set_opt set_min_share_diff (cl_min_share_diff c)
                (set_opt (fun p => set_stratum_port (normalize_port p)) (cl_stratum_port c) i))))))).

Definition apply_cli_overrides (config : BridgeConfig) (c : Cli) : result BridgeConfig BridgeError :=
  let global := apply_global (bg_global config) c in
  if negb (bool_decide (cl_instances c = [])) then
    if single_flags c then Err MixedInstanceFlags
    else
      let? instances := collect_results (fun spec => parse_instance_spec spec (cl_min_share_diff c)) (cl_instances c) in
      match duplicate_port [] instances with
      | Some port => Err (DuplicatePort port)
      | None => Ok (mkBridgeConfig global instances)
      end
  else
    match bg_instances config with
    | [i] => Ok (mkBridgeConfig global [apply_instance c i])
    | instances =>
        if single_flags c || given (cl_min_share_diff c) then Err OverridesNeedOneInstance
        else Ok (mkBridgeConfig global instances)
    end.

(** ** The settings of a server ([main.rs], [stratum_server.rs]) *)

(** The part of [stratum_server::BridgeConfig] the server acts on. *)
Record ServerConfig := mkServerConfig {
  sv_stratum_port : text;
  sv_stratum_ports : list (text * Z);
  sv_block_wait_time_ms : Z;
  sv_min_share_diff : f64;
  sv_var_diff : bool;
  sv_shares_per_min : Z;
  sv_var_diff_stats : bool;
  sv_extranonce_size : Z;
  sv_pow2_clamp : bool;
  sv_coinbase_tag_suffix : option text;
  sv_proxy_protocol : bool;
  sv_print_stats : bool;
  sv_log_to_file : bool;
  sv_kaspa_common_protocol : bool;
  sv_extranonce_with_size : bool
}.

(** The literal in the standalone bridge's [main]. *)
Definition instance_server (global : GlobalConfig) (i : InstanceConfig) : ServerConfig :=
  mkServerConfig (ic_stratum_port i) [] (default (gc_block_wait_time_ms global) (ic_block_wait_time_ms i))
    (ic_min_share_diff i) (default (gc_var_diff global) (ic_var_diff i))
    (default (gc_shares_per_min global) (ic_shares_per_min i)) (default (gc_var_diff_stats global) (ic_var_diff_stats i))
    (default (gc_extranonce_size global) (ic_extranonce_size i)) (default (gc_pow2_clamp global) (ic_pow2_clamp i))
    (gc_coinbase_tag_suffix global) false (gc_print_stats global) (default (gc_log_to_file global) (ic_log_to_file i))
    (ic_kaspa_common_protocol i) (ic_extranonce_with_size i).

(** The file, the command line and the resolution of every instance. *)
Definition bridge_servers (read : text -> option BridgeConfigRaw) (content : option text) (c : Cli)
  : result (list ServerConfig) BridgeError :=
  let? config := match content with Some s => from_yaml read s | None => Ok BridgeConfig_default end in
  let? config := apply_cli_overrides config c in
  Ok (map (instance_server (bg_global config)) (bg_instances config)).

Section Server.
Context (log2 : f64 -> f64) (vars : Vars).

Definition clamp_seed (cfg : ServerConfig) (raw : f64) : f64 :=
  let d := if sv_pow2_clamp cfg && f64_ltb f64_zero raw then pow2 (f64_as_i32 (f64_floor (log2 raw))) else raw in
  if f64_eqb d f64_zero then f64_of_Z 4 else d.

(** [rsplit(':').next()]: what follows the last colon. *)
Definition parse_port_number (addr : text) : option Z := parse_port (trim (List.last (split_at (Z.eqb 58) addr) [])).

Definition listen_ports (cfg : ServerConfig) : list text :=
  match sv_stratum_ports cfg with
  | [] => [sv_stratum_port cfg]
  | ports => map fst ports
  end.

(** Collected into a [HashMap]: the last entry of a port wins. *)
Definition port_seeds (cfg : ServerConfig) : gmap Z f64 :=
  fold_left (fun seeds e =>
      match parse_port_number (fst e) with
      | Some n => <[n := clamp_seed cfg (f64_of_Z (snd e))]> seeds
      | None => seeds
      end) (sv_stratum_ports cfg) ∅.

Definition server_extranonce_size (cfg : ServerConfig) : Z :=
  if 0 <? sv_extranonce_size cfg then Z.min (sv_extranonce_size cfg) 3 else 2.

Definition bitmain_extranonce_enabled : bool :=
  match vars "ZKAS_BITMAIN_EXTRANONCE"%string with
  | Some v => negb (bool_decide (v = lit "0"))
  | None =>
      match vars "FIRECASH_BITMAIN_EXTRANONCE"%string with
      | Some v => negb (bool_decide (v = lit "0"))
      | None => true
      end
  end.

(** [ClientHandler::new_with_protocol(..).with_extranonce_size_param(..)]. *)
Definition client_config (cfg : ServerConfig) : ClientConfig :=
  mkClientConfig (clamp_seed cfg (sv_min_share_diff cfg)) (port_seeds cfg) (server_extranonce_size cfg)
    (sv_kaspa_common_protocol cfg) (sv_extranonce_with_size cfg) bitmain_extranonce_enabled.

(** The shares per minute the difficulty controller aims at, when it runs. *)
Definition vardiff_target (cfg : ServerConfig) : option Z :=
  if sv_var_diff cfg then Some (if 0 <? sv_shares_per_min cfg then sv_shares_per_min cfg else 20) else None.

(** What [listen_and_serve_impl] sets up: its listeners, the client table's
    settings, the abuse guard and the controller's target. *)
Record ServerSetup := mkSetup {
  su_listen : list text;
  su_clients : ClientConfig;
  su_anti_abuse : AntiAbuseConfig;
  su_vardiff : option Z
}.

Definition server_setup (cfg : ServerConfig) : result ServerSetup AbuseEnvError :=
  let? abuse := abuse_from_lookup vars in
  Ok (mkSetup (listen_ports cfg) (client_config cfg) abuse (vardiff_target cfg)).
End Server.

(** ** What the configuration guarantees *)

Lemma duplicate_port_none instances : forall seen,
  duplicate_port seen instances = None ->
  List.NoDup (map ic_stratum_port instances) /\ Forall (fun i => ic_stratum_port i ∉ seen) instances.
Proof.
  induction instances as [|i instances IH]; intros seen H; cbn in *; [split; constructor|].
  case_bool_decide as Hi; [done|]. destruct (IH _ H) as [N F]. split.
  - constructor; [|done]. intros (j & Ej & Hj)%in_map_iff. rewrite List.Forall_forall in F. apply (F j Hj). rewrite Ej. left.
  - constructor; [done|]. eapply List.Forall_impl; [|exact F]. intros j Hj Hs. apply Hj. by right.
Qed.

Lemma from_yaml_distinct read content config :
  from_yaml read content = Ok config -> List.NoDup (map ic_stratum_port (bg_instances config)) /\ bg_instances config <> [].
Proof.
  unfold from_yaml. destruct (read content) as [raw|]; [|done]. cbn [ok_or rbind].
  intros (instances & Hi & H)%rbind_ok. destruct (duplicate_port [] instances) eqn:D; [done|]. injection H as <-. cbn.
  split; [by apply (duplicate_port_none _ [])|]. destruct (rw_instances raw) as [raws|].
  - case_bool_decide; [done|]. destruct (missing_port _ _); [done|]. by injection Hi as <-.
  - by injection Hi as <-.
Qed.

Lemma collect_results_length {A B E} (f : A -> result B E) l bs : collect_results f l = Ok bs -> length bs = length l.
Proof.
  revert bs. induction l as [|a l IH]; cbn; intros bs H; [by injection H as <-|].
  apply rbind_ok in H as (b & _ & H). apply rbind_ok in H as (bs' & Hbs & H). injection H as <-. cbn. by rewrite (IH _ Hbs).
Qed.

(** The bridge starts something, and no two servers ask for the same port:
    whatever the configuration file, the instance specifications and the
    single-instance flags, a bridge that starts runs at least one instance and the
    normalised stratum ports of its instances are pairwise different. *)
Theorem servers_have_own_ports read content c servers :
  bridge_servers read content c = Ok servers ->
  servers <> [] /\ List.NoDup (map sv_stratum_port servers).
Proof.
  unfold bridge_servers. intros (config & Hc & H)%rbind_ok. apply rbind_ok in H as (config' & Ha & [= <-]).
  rewrite map_map. cbn. change (fun i => ic_stratum_port i) with ic_stratum_port.
  assert (List.NoDup (map ic_stratum_port (bg_instances config)) /\ bg_instances config <> []) as [N S].
  { destruct content; [by eapply from_yaml_distinct|]. injection Hc as <-. cbn. split; [repeat constructor; tauto|done]. }
  assert (List.NoDup (map ic_stratum_port (bg_instances config')) /\ bg_instances config' <> []) as [N' S'].
  { unfold apply_cli_overrides in Ha. destruct (negb _) eqn:Ei.
    - destruct (single_flags c); [done|]. apply rbind_ok in Ha as (instances & Hl & Ha).
      destruct (duplicate_port [] instances) eqn:D; [done|]. injection Ha as <-. cbn.
      split; [by apply (duplicate_port_none _ [])|]. apply collect_results_length in Hl. intros ->.
      apply negb_true_iff, bool_decide_eq_false in Ei. by destruct (cl_instances c).
    - destruct (bg_instances config) as [|i [|j rest]]; [done| |].
      + injection Ha as <-. cbn. split; [repeat constructor; tauto|done].
      + destruct (_ || _); [done|]. by injection Ha as <-. }
  split; [|exact N']. by destruct (bg_instances config').
Qed.

(** A file with one instance, and a command line that replaces it by two. *)
Definition no_flags : Cli :=
  mkCliArgs None None None None None None None None None None None None None None None
    [lit "port=5555,diff=8192"; lit ":5556, diff=1e3, var_diff=off"] None None None None None.

Lemma servers_have_own_ports_witness :
  exists servers, bridge_servers (fun _ => None) None no_flags = Ok servers /\
    map sv_stratum_port servers = [lit ":5555"; lit ":5556"] /\ List.NoDup (map sv_stratum_port servers).
Proof.
  assert (exists servers, bridge_servers (fun _ => None) None no_flags = Ok servers
          /\ map sv_stratum_port servers = [lit ":5555"; lit ":5556"]) as (servers & E & P)
    by (eexists; split; vm_compute; reflexivity).
  exists servers. split; [exact E|]. split; [exact P|]. exact (proj2 (servers_have_own_ports _ _ _ _ E)).
Defined.

(** ** The seed of a port *)

(** One entry of the map of seeds. *)
Definition seed_entry (log2 : f64 -> f64) (cfg : ServerConfig) (seeds : gmap Z f64) (e : text * Z) : gmap Z f64 :=
  match parse_port_number (fst e) with
  | Some n => <[n := clamp_seed log2 cfg (f64_of_Z (snd e))]> seeds
  | None => seeds
  end.

Lemma parse_port_number_print p : 0 <= p <= u16_max -> parse_port_number (print_u64 p) = Some p.
Proof.
  intros Hp. unfold parse_port_number. rewrite split_at_free by (apply digits_no_sep, print_u64_chars; lia).
  cbn [List.last]. rewrite trim_plain by (apply digits_plain, print_u64_chars; lia). by apply parse_print_unsigned.
Qed.

Lemma seeds_fold log2 cfg ps : Forall entry_ok ps -> List.NoDup (map fst ps) -> forall seeds p,
  fold_left (seed_entry log2 cfg) (map (fun e => (print_u64 (fst e), snd e)) ps) seeds !! p =
  match List.find (fun e => fst e =? p) ps with
  | Some e => Some (clamp_seed log2 cfg (f64_of_Z (snd e)))
  | None => seeds !! p
  end.
Proof.
  induction 1 as [|e ps He Hps IH]; intros N seeds p; [done|]. inversion N as [|? ? Hn N']; subst.
  cbn [map fold_left List.find]. rewrite IH by done. unfold seed_entry. cbn [fst snd].
  rewrite parse_port_number_print by apply He. destruct (Z.eqb_spec (fst e) p) as [<-|X].
  - destruct (List.find _ ps) as [e'|] eqn:F; [|by rewrite lookup_insert_eq].
    apply List.find_some in F as [I Ee]. apply Z.eqb_eq in Ee. destruct Hn. rewrite <- Ee. by apply in_map.
  - destruct (List.find _ ps); [done|]. by rewrite lookup_insert_ne.
Qed.

(** Every listed port has its own starting difficulty: a server whose ports come
    from the printed list of ports and seeds (different ports) listens on exactly
    these ports, starts a connection on a listed port at that port's clamped seed,
    and one on any other port at the clamped minimum difficulty. *)
Theorem listed_ports_seeded log2 vars cfg ps :
  ps <> [] -> Forall entry_ok ps -> List.NoDup (map fst ps) ->
  parse_stratum_ports (Some (print_ports ps)) = Ok (sv_stratum_ports cfg) ->
  listen_ports cfg = map (fun e => print_u64 (fst e)) ps /\
  forall p, seed_for_port (client_config log2 vars cfg) p =
    match List.find (fun e => fst e =? p) ps with
    | Some e => clamp_seed log2 cfg (f64_of_Z (snd e))
    | None => clamp_seed log2 cfg (sv_min_share_diff cfg)
    end.
Proof.
  intros Hne Hok N E. rewrite stratum_ports_round_trip in E by done. injection E as E.
  split.
  - unfold listen_ports. rewrite <- E. destruct ps; [done|]. cbn [map]. by rewrite map_map.
  - intros p. unfold seed_for_port, client_config, port_seeds. cbn [cf_port_seeds cf_min_share_diff]. rewrite <- E.
    pose proof (seeds_fold log2 cfg ps Hok N ∅ p) as S. unfold seed_entry in S. rewrite S.
    destruct (List.find _ ps); [done|]. by rewrite lookup_empty.
Qed.

(** The difficulty a connection starts at is never zero. *)
Lemma clamp_seed_nonzero log2 cfg raw : f64_eqb (clamp_seed log2 cfg raw) f64_zero = false.
Proof.
  unfold clamp_seed. cbv zeta.
  match goal with |- context [if f64_eqb ?d f64_zero then _ else _] => destruct (f64_eqb d f64_zero) eqn:E end;
    [by vm_compute|exact E].
Qed.

Definition two_ports : ServerConfig :=
  mkServerConfig [] [(lit "1111", 256); (lit "8888", 2048)] 500 (f64_of_Z 64) true 20 false 2 true None false false
    false false false.

Lemma listed_ports_seeded_witness :
  seed_for_port (client_config (fun _ => f64_of_Z 8) (fun _ => None) two_ports) 1111 =
    clamp_seed (fun _ => f64_of_Z 8) two_ports (f64_of_Z 256) /\
  seed_for_port (client_config (fun _ => f64_of_Z 8) (fun _ => None) two_ports) 9 =
    clamp_seed (fun _ => f64_of_Z 8) two_ports (f64_of_Z 64) /\
  clamp_seed (fun _ => f64_of_Z 8) two_ports (f64_of_Z 256) = f64_of_Z 256.
Proof.
  pose proof (listed_ports_seeded (fun _ => f64_of_Z 8) (fun _ => None) two_ports [(1111, 256); (8888, 2048)]) as L.
  assert ([(1111, 256); (8888, 2048)] <> []) as A1 by discriminate.
  assert (Forall entry_ok [(1111, 256); (8888, 2048)]) as A2 by (repeat constructor; vm_compute; discriminate).
  assert (List.NoDup (map fst [(1111, 256); (8888, 2048)])) as A3
    by (repeat constructor; cbn; intros H; repeat destruct H as [H|H]; try discriminate; exact H).
  assert (parse_stratum_ports (Some (print_ports [(1111, 256); (8888, 2048)])) = Ok (sv_stratum_ports two_ports)) as A4
    by (vm_compute; reflexivity).
  destruct (L A1 A2 A3 A4) as [_ S]. split; [exact (S 1111)|]. split; [exact (S 9)|]. vm_compute. reflexivity.
Defined.
