(* ===== verification/Dashboard.v ===== *)
(** * The bridge's web server ([bridge/src/prom.rs])

    Which view a request is answered with, the files it may serve, and the
    configuration document the dashboard reads and rewrites
    ([BridgeConfig::to_yaml], [update_config_from_json]).  The rendered figures
    are not modelled: an answer names the view and its instance filter.  The YAML
    and JSON libraries, the embedded files and the disk are parameters. *)
From Stdlib Require Import SpecFloat.
From S2P Require Import Prelude F64 Schema Domain Sender Hasher MiningState Merged AntiAbuse StratumRpc ShareGuard StratumContext IngestDb SessionDb Consumer ShareHandler ClientHandler Handshake Config BridgeConfig.
From S2P Require Import Runtime.
Open Scope Z_scope.

(** ** The document ([app_config.rs], [to_yaml]) *)

Definition raw_of_instance (i : InstanceConfig) : RawInstance :=
  mkRawInstance (ic_stratum_port i) (ic_min_share_diff i) (ic_prom_port i) (ic_log_to_file i)
    (option_map YInt (ic_block_wait_time_ms i)) (ic_extranonce_size i) (ic_var_diff i) (ic_shares_per_min i)
    (ic_var_diff_stats i) (ic_pow2_clamp i) (Some (ic_kaspa_common_protocol i)) (Some (ic_extranonce_with_size i)).

Definition raw_of_global (g : GlobalConfig) : RawGlobal :=
  mkRawGlobal (Some (gc_kaspad_address g)) (Some (gc_merged_kaspa_address g)) (Some (gc_merged_kaspa_pay_address g))
    (Some (YInt (gc_block_wait_time_ms g))) (Some (gc_print_stats g)) (Some (gc_log_to_file g))
    (Some (gc_health_check_port g)) (Some (gc_web_dashboard_port g)) (Some (gc_var_diff g))
    (Some (gc_shares_per_min g)) (Some (gc_var_diff_stats g)) (Some (gc_extranonce_size g)) (Some (gc_pow2_clamp g))
    (gc_coinbase_tag_suffix g).

(** The document [to_yaml] prints: the global keys and every instance. *)
Definition to_document (config : BridgeConfig) : BridgeConfigRaw :=
  mkRaw (raw_of_global (bg_global config)) (Some (map raw_of_instance (bg_instances config))) None None None.

(** ** JSON values *)

(** [Value::get] on an object; the keys of a parsed object are unique. *)
Definition json_get (v : Value) (key : string) : option Value :=
  match v with
  | VObject l => option_map snd (List.find (fun kv => bool_decide (fst kv = lit key)) l)
  | _ => None
  end.

Definition as_bool_value (v : Value) : option bool := match v with VBool b => Some b | _ => None end.
Definition as_f64_value (v : Value) : option f64 :=
  match v with
  | VNumber (PosInt n) | VNumber (NegInt n) => Some (f64_of_Z n)
  | VNumber (Float x) => Some x
  | _ => None
  end.

(** [updates.get(key).and_then(as_..)]. *)
Definition update_of {A} (as_ : Value -> option A) (u : Value) (key : string) : option A := json_get u key ≫= as_.

(** ** Updating the configuration *)

Definition update_global (u : Value) (g : GlobalConfig) : GlobalConfig :=
  mkGlobal (default (gc_kaspad_address g) (update_of as_str_value u "kaspad_address")) (gc_merged_kaspa_address g)
    (gc_merged_kaspa_pay_address g)
    (default (gc_block_wait_time_ms g) (update_of as_u64_value u "block_wait_time"))
    (default (gc_print_stats g) (update_of as_bool_value u "print_stats"))
    (default (gc_log_to_file g) (update_of as_bool_value u "log_to_file"))
    (default (gc_health_check_port g) (update_of as_str_value u "health_check_port"))
    (default (gc_web_dashboard_port g) (option_map normalize_port (update_of as_str_value u "web_dashboard_port")))
    (default (gc_var_diff g) (update_of as_bool_value u "var_diff"))
    (default (gc_shares_per_min g) (option_map (fun n => n mod 2 ^ 32) (update_of as_u64_value u "shares_per_min")))
    (default (gc_var_diff_stats g) (update_of as_bool_value u "var_diff_stats"))
    (default (gc_extranonce_size g) (option_map (fun n => n mod 2 ^ 8) (update_of as_u64_value u "extranonce_size")))
    (default (gc_pow2_clamp g) (update_of as_bool_value u "pow2_clamp"))
    (match json_get u "coinbase_tag_suffix" with
     | Some VNull => None
     | Some (VString s) => tag_suffix (Some s)
     | _ => gc_coinbase_tag_suffix g
     end).

Definition update_instance (u : Value) (i : InstanceConfig) : InstanceConfig :=
  let i := set_opt (fun p => set_stratum_port (normalize_port p)) (update_of as_str_value u "stratum_port") i in
  let i := set_opt set_min_share_diff (update_of as_f64_value u "min_share_diff") i in
  match json_get u "prom_port" with
  | Some (VString p) => set_prom_port (optional_port (Some p)) i
  | Some VNull => set_prom_port None i
  | _ => i
  end.

(** The first instance is the one that is updated. *)
Definition updated (u : Value) (config : BridgeConfig) : BridgeConfig :=
  let instances := match bg_instances config with [] => [InstanceConfig_default] | l => l end in
  mkBridgeConfig (update_global u (bg_global config))
    (match instances with i :: rest => update_instance u i :: rest | [] => [] end).

(** The libraries and the disk: [we_write] is how writing the file ends (a failure
    leaves the file as it says). *)
Class WebEnv := {
  we_json_parse : text -> option Value;
  we_json_print : Value -> option text;
  we_yaml_read : text -> option BridgeConfigRaw;
  we_yaml_print : BridgeConfigRaw -> option text;
  we_write : text -> result unit (option text);
  we_embedded : text -> option bytes;
  we_read_file : text -> option bytes;
  we_manifest_dir : text
}.

Inductive UpdateError := BadJson | NoYaml | WriteFailed.

Section Web.
Context `{WE : !WebEnv} (vars : Vars).

(** What the next start, and the next update, read. *)
Definition loaded (file : option text) : BridgeConfig :=
  match default [] file with
  | [] => BridgeConfig_default
  | content => match from_yaml we_yaml_read content with Ok config => config | Err _ => BridgeConfig_default end
  end.

Definition update_config_from_json (body : text) (file : option text) : option text * result unit UpdateError :=
  match we_json_parse body with
  | None => (file, Err BadJson)
  | Some u =>
      match we_yaml_print (to_document (updated u (loaded file))) with
      | None => (file, Err NoYaml)
      | Some yaml =>
          match we_write yaml with
          | Ok _ => (Some yaml, Ok tt)
          | Err after => (after, Err WriteFailed)
          end
      end
  end.

Definition f64_value (x : f64) : Value := if f64_is_finite x then VNumber (Float x) else VNull.
Definition text_or_null (o : option text) : Value := match o with Some s => VString s | None => VNull end.
Definition nat_value (n : Z) : Value := VNumber (PosInt n).

Definition config_json (config : BridgeConfig) : Value :=
  let g := bg_global config in
  let first := head (bg_instances config) in
  VObject
    [(lit "kaspad_address", VString (gc_kaspad_address g)); (lit "block_wait_time", nat_value (gc_block_wait_time_ms g));
     (lit "print_stats", VBool (gc_print_stats g)); (lit "log_to_file", VBool (gc_log_to_file g));
     (lit "health_check_port", VString (gc_health_check_port g));
     (lit "web_dashboard_port", VString (gc_web_dashboard_port g)); (lit "var_diff", VBool (gc_var_diff g));
     (lit "shares_per_min", nat_value (gc_shares_per_min g)); (lit "var_diff_stats", VBool (gc_var_diff_stats g));
     (lit "extranonce_size", nat_value (gc_extranonce_size g)); (lit "pow2_clamp", VBool (gc_pow2_clamp g));
     (lit "coinbase_tag_suffix", text_or_null (gc_coinbase_tag_suffix g));
     (lit "stratum_port", text_or_null (option_map ic_stratum_port first));
     (lit "min_share_diff", match first with Some i => f64_value (ic_min_share_diff i) | None => VNull end);
     (lit "prom_port", text_or_null (first ≫= ic_prom_port))].

Definition get_config_json (file : option text) : text :=
  match file with
  | None => lit "{}"
  | Some content =>
      match from_yaml we_yaml_read content with
      | Ok config => default (lit "{}") (we_json_print (config_json config))
      | Err _ => lit "{}"
      end
  end.

Definition config_write_allowed : bool :=
  match vars "RKSTRATUM_ALLOW_CONFIG_WRITE"%string with
  | Some v => one_of ["1"; "true"; "TRUE"; "yes"; "YES"; "on"; "ON"]%string v
  | None => false
  end.

(** ** Requests *)

Definition ends_with (p s : text) : bool := starts_with (rev p) (rev s).

Definition content_type_for_path (path : text) : string :=
  let p := to_ascii_lowercase path in
  if ends_with (lit ".html") p then "text/html; charset=utf-8"
  else if ends_with (lit ".css") p then "text/css; charset=utf-8"
  else if ends_with (lit ".js") p then "application/javascript; charset=utf-8"
  else if ends_with (lit ".svg") p then "image/svg+xml"
  else "application/octet-stream".

Definition static_rel (url_path : text) : option text :=
  if one_of ["/"; "/index.html"]%string url_path then Some (lit "index.html")
  else if one_of ["/raw.html"]%string url_path then Some (lit "raw.html")
  else if starts_with (lit "/static/") url_path
  then Some (trim_start_matches (length url_path) (lit "/static/") url_path)
  else None.

Definition try_read_static_file (url_path : text) : option (text * bytes) :=
  rel ← static_rel url_path;
  if contains (lit "..") rel || contains [92] rel then None
  else match we_embedded rel with
       | Some contents => Some (rel, contents)
       | None =>
           contents ← we_read_file (path_join (path_join we_manifest_dir (lit "static")) rel);
           Some (rel, contents)
       end.

Inductive HttpMode := Aggregated (web_bind : text) | Instance (instance_id web_bind : text).

(** The view a request is answered with; [filter] is the instance the figures are
    restricted to. *)
Inductive Served :=
| ServeMetrics (filter : option text)
| ServeStatus (web_bind : text)
| ServeStats (filter : option text)
| ServeConfig (json : text)
| WriteForbidden
| ConfigWritten (success : bool)
| ServeFile (content_type : string) (contents : bytes)
| NotFound
| RequestPanic.             (* the task dies without an answer *)

Definition http_status (s : Served) : option Z :=
  match s with
  | WriteForbidden => Some 403
  | NotFound => Some 404
  | RequestPanic => None
  | _ => Some 200
  end.

Definition mode_filter (m : HttpMode) : option text := match m with Aggregated _ => None | Instance id _ => Some id end.
Definition mode_bind (m : HttpMode) : text := match m with Aggregated b | Instance _ b => b end.

(** The second word of the first line. *)
Definition request_path (request : text) : text :=
  let words := List.filter (fun w => negb (bool_decide (w = []))) (split_at is_whitespace (default [] (head (lines request)))) in
  default (lit "/") (nth_error words 1).

(** What follows the first blank line. *)
Fixpoint request_body (request : text) : option text :=
  match strip_prefix [13; 10; 13; 10] request with
  | Some body => Some body
  | None => match request with [] => None | _ :: request => request_body request end
  end.

Definition handle_http_request (mode : HttpMode) (request : text) (file : option text) : option text * Served :=
  let is_instance := match mode with Instance _ _ => true | Aggregated _ => false end in
  if starts_with (lit "GET /metrics") request then (file, ServeMetrics (mode_filter mode))
  else if starts_with (lit "GET /api/status") request then (file, ServeStatus (mode_bind mode))
  else if starts_with (lit "GET /api/stats") request then (file, ServeStats (mode_filter mode))
  else if is_instance && starts_with (lit "GET /api/config") request then (file, ServeConfig (get_config_json file))
  else if is_instance && starts_with (lit "POST /api/config") request then
    if negb config_write_allowed then (file, WriteForbidden)
    else match request_body request with
         | None => (file, RequestPanic)
         | Some body =>
             let '(file, r) := update_config_from_json body file in
             (file, ConfigWritten (match r with Ok _ => true | Err _ => false end))
         end
  else if starts_with (lit "GET /") request then
    match try_read_static_file (request_path request) with
    | Some (rel, contents) => (file, ServeFile (content_type_for_path rel) contents)
    | None => (file, NotFound)
    end
  else (file, NotFound).
End Web.
