(* ===== verification/DashboardSpec.v ===== *)
(** * What the bridge's web server guarantees

    A configuration that was loaded survives being written; what an update writes
    reads back as the updated configuration exactly when the first instance's port
    is usable; nothing but an allowed [POST /api/config] writes.  And two places
    where the code does not do what it means to. *)
From Stdlib Require Import SpecFloat.
From S2P Require Import Prelude F64 Schema Domain Sender Hasher MiningState Merged AntiAbuse StratumRpc ShareGuard StratumContext IngestDb SessionDb Consumer ShareHandler ClientHandler Handshake Config ConfigSpec BridgeConfig.
From S2P Require Import Runtime Dashboard.
Open Scope Z_scope.

(** ** Normal forms of texts *)

Definition starts_clean (s : text) : Prop := match s with [] => True | c :: _ => is_whitespace c = false end.

Lemma trim_start_clean s : starts_clean (trim_start s).
Proof. induction s as [|c s IH]; [done|]. cbn. by destruct (is_whitespace c) eqn:E. Qed.

Lemma trim_start_fixed s : starts_clean s -> trim_start s = s.
Proof. destruct s as [|c s]; [done|]. cbn. by intros ->. Qed.

Lemma trim_start_suffix s : exists w, s = w ++ trim_start s.
Proof.
  induction s as [|c s [w IH]]; [by exists []|]. cbn. destruct (is_whitespace c); [|by exists []].
  exists (c :: w). cbn. by f_equal.
Qed.

Lemma trim_trim s : trim (trim s) = trim s.
Proof.
  unfold trim. set (t := trim_start s). set (u := trim_start (rev t)).
  assert (starts_clean (rev u)) as C.
  { destruct (trim_start_suffix (rev t)) as [w E]. apply (f_equal (@rev _)) in E. rewrite rev_involutive, rev_app_distr in E.
    fold u in E. pose proof (trim_start_clean s : starts_clean t) as Ct. rewrite E in Ct. by destruct (rev u). }
  rewrite (trim_start_fixed (rev u)) by done. rewrite rev_involutive.
  rewrite (trim_start_fixed u); [done|]. apply trim_start_clean.
Qed.

Lemma normalize_normalize p : normalize_port (normalize_port p) = normalize_port p.
Proof.
  unfold normalize_port at 2 3. destruct (trim p) as [|c s] eqn:E; [done|].
  assert (trim (c :: s) = c :: s) as T by (rewrite <- E; apply trim_trim).
  destruct (Z.eqb_spec c 58) as [->|N].
  - unfold normalize_port. by rewrite T.
  - destruct (forallb is_ascii_digit (c :: s)) eqn:D.
    + unfold normalize_port. rewrite trim_plain; [done|]. constructor; [done|]. apply digits_plain, List.Forall_forall.
      intros x Hx. rewrite forallb_forall in D. by apply is_ascii_digit_range, D.
    + unfold normalize_port. rewrite T, D. by destruct (Z.eqb_spec c 58).
Qed.

Lemma optional_port_idem o : optional_port (optional_port o) = optional_port o.
Proof.
  destruct o as [p|]; [|done]. cbn. case_bool_decide as E; [done|]. cbn. rewrite normalize_normalize. by case_bool_decide.
Qed.

Lemma tag_suffix_idem o : tag_suffix (tag_suffix o) = tag_suffix o.
Proof. destruct o as [s|]; [|done]. cbn. case_bool_decide as E; [done|]. cbn. rewrite trim_trim. by case_bool_decide. Qed.

(** ** Configurations that survive being written *)

Definition normal_instance (i : InstanceConfig) : Prop :=
  normalize_port (ic_stratum_port i) = ic_stratum_port i /\ optional_port (ic_prom_port i) = ic_prom_port i.
Definition normal_global (g : GlobalConfig) : Prop :=
  normalize_port (gc_web_dashboard_port g) = gc_web_dashboard_port g /\
  tag_suffix (gc_coinbase_tag_suffix g) = gc_coinbase_tag_suffix g.

Record normal (config : BridgeConfig) : Prop := {
  nm_global : normal_global (bg_global config);
  nm_instances : Forall normal_instance (bg_instances config);
  nm_some : bg_instances config <> [];
  nm_named : Forall (fun i => ic_stratum_port i <> []) (bg_instances config);
  nm_distinct : List.NoDup (map ic_stratum_port (bg_instances config))
}.

(** Waiting times the YAML integer keeps. *)
Definition wait_fits (z : Z) : Prop := 0 <= z < 2 ^ 63.
Definition waits_fit (config : BridgeConfig) : Prop :=
  wait_fits (gc_block_wait_time_ms (bg_global config)) /\
  Forall (fun i => match ic_block_wait_time_ms i with Some z => wait_fits z | None => True end) (bg_instances config).

Lemma duration_fits z : wait_fits z -> duration_ms (YInt z) = z.
Proof.
  intros [L H]. cbn. unfold in_i64b. destruct (_ && _) eqn:E.
  - unfold as_u64. by destruct (Z.leb_spec 0 z); [|lia].
  - apply andb_false_iff in E as [E|E]; [apply Z.leb_gt in E|apply Z.leb_gt in E]; unfold i64_min, i64_max in *; lia.
Qed.

Lemma instance_survives i :
  normal_instance i -> match ic_block_wait_time_ms i with Some z => wait_fits z | None => True end ->
  instance_of_yaml (raw_of_instance i) = i.
Proof.
  destruct i as [p d pr l w x v sp vs p2 k e]. intros [N O] F. cbn in *. unfold instance_of_yaml. cbn.
  rewrite N, O. destruct w as [z|]; cbn; [|done]. pose proof (duration_fits z F) as D. cbn in D. by rewrite D.
Qed.

Lemma global_survives g : normal_global g -> wait_fits (gc_block_wait_time_ms g) -> global_of_yaml (raw_of_global g) = g.
Proof.
  destruct g. intros [N T] F. pose proof (duration_fits _ F) as D. cbn in *. unfold global_of_yaml. cbn. rewrite N, T, D. done.
Qed.

Lemma missing_port_none instances : forall idx,
  missing_port idx instances = None <-> Forall (fun i => ic_stratum_port i <> []) instances.
Proof.
  induction instances as [|i instances IH]; intros idx; [by split|]. rewrite Forall_cons. cbn.
  case_bool_decide; [split; [done|tauto]|]. rewrite IH. tauto.
Qed.

Lemma duplicate_port_fresh instances : forall seen,
  List.NoDup (map ic_stratum_port instances) -> Forall (fun i => ic_stratum_port i ∉ seen) instances ->
  duplicate_port seen instances = None.
Proof.
  induction instances as [|i instances IH]; intros seen N F; [done|]. cbn in *.
  inversion N as [|? ? Hi N']; subst. apply Forall_cons in F as [Fi F].
  case_bool_decide; [done|]. apply IH; [done|]. apply List.Forall_forall. intros j Hj E.
  apply elem_of_cons in E as [E|E]; [apply Hi; rewrite <- E; by apply in_map|].
  rewrite List.Forall_forall in F. by apply (F j Hj).
Qed.

Lemma instances_survive config : normal config -> waits_fit config ->
  map instance_of_yaml (map raw_of_instance (bg_instances config)) = bg_instances config.
Proof.
  intros [_ N _ _ _] [_ F]. rewrite map_map. induction N as [|i l Ni _ IH]; [done|]. apply Forall_cons in F as [Fi F].
  cbn. rewrite instance_survives by done. f_equal. by apply IH.
Qed.

(** Writing a configuration in normal form and reading it back. *)
Lemma document_round_trip read y config :
  normal config -> waits_fit config -> read y = Some (to_document config) -> from_yaml read y = Ok config.
Proof.
  intros N F R. pose proof (instances_survive _ N F) as S. destruct N as [G _ Some_ Named D]. unfold from_yaml. rewrite R.
  cbn [ok_or rbind rw_instances to_document]. rewrite S. case_bool_decide; [done|].
  apply (missing_port_none _ 0%nat) in Named. rewrite Named. cbn [rbind rw_global to_document].
  rewrite duplicate_port_fresh; [|done|apply List.Forall_forall; intros j _; set_solver].
  rewrite global_survives by (done || apply F). by destruct config.
Qed.

Lemma global_of_yaml_normal r : normal_global (global_of_yaml r).
Proof.
  split; cbn; [|apply tag_suffix_idem]. destruct (rg_web_dashboard_port r); [apply normalize_normalize|done].
Qed.

Lemma instance_of_yaml_normal r : normal_instance (instance_of_yaml r).
Proof. split; [apply normalize_normalize|apply optional_port_idem]. Qed.

Lemma single_instance_normal raw : normal_instance (single_instance raw) /\ ic_stratum_port (single_instance raw) <> [].
Proof.
  unfold single_instance. pose proof (optional_port_idem (rw_prom_port raw)) as O.
  destruct (optional_port (rw_stratum_port raw)) as [p|] eqn:P, (rw_min_share_diff raw); unfold normal_instance; cbn; rewrite ?O; repeat split; try done;
    destruct (rw_stratum_port raw) as [q|]; cbn in P; try done; case_bool_decide; try done; injection P as <-; try done; apply normalize_normalize.
Qed.

Lemma from_yaml_normal read content config : from_yaml read content = Ok config -> normal config.
Proof.
  intros H. pose proof (from_yaml_distinct _ _ _ H) as [D S]. unfold from_yaml in H.
  destruct (read content) as [raw|]; [|done]. cbn [ok_or rbind] in H. apply rbind_ok in H as (instances & Hi & H).
  destruct (duplicate_port [] instances); [done|]. injection H as <-. cbn in *.
  assert (Forall normal_instance instances /\ Forall (fun i => ic_stratum_port i <> []) instances) as [N P].
  { destruct (rw_instances raw) as [raws|].
    - case_bool_decide; [done|]. destruct (missing_port _ _) eqn:M; [done|]. injection Hi as <-. split.
      + apply Forall_map, Forall_true. apply instance_of_yaml_normal.
      + by eapply missing_port_none.
    - injection Hi as <-. destruct (single_instance_normal raw). split; by constructor. }
  split; cbn; [apply global_of_yaml_normal|done..].
Qed.

Lemma default_normal : normal BridgeConfig_default.
Proof.
  split; [split; reflexivity|constructor; [split; reflexivity|constructor]|discriminate| |].
  - constructor; [discriminate|constructor].
  - constructor; [intros []|constructor].
Qed.

Lemma loaded_normal `{WE : !WebEnv} file : normal (loaded file).
Proof.
  unfold loaded. destruct (default [] file) as [|c s]; [apply default_normal|].
  destruct (from_yaml _ _) as [config|] eqn:E; [by eapply from_yaml_normal|apply default_normal].
Qed.

(** ** Updates *)

Lemma update_global_normal u g : normal_global g -> normal_global (update_global u g).
Proof.
  intros [N T]. split; cbn.
  - destruct (update_of as_str_value u "web_dashboard_port"); [apply normalize_normalize|exact N].
  - destruct (json_get u "coinbase_tag_suffix") as [[]|]; try exact T; [done|]. apply (tag_suffix_idem (Some s)).
Qed.

Lemma update_instance_normal u i : normal_instance i -> normal_instance (update_instance u i).
Proof.
  intros [N O]. unfold update_instance.
  destruct (update_of as_str_value u "stratum_port") as [p|], (update_of as_f64_value u "min_share_diff") as [d|];
    destruct (json_get u "prom_port") as [[]|]; cbn [set_opt]; split; cbn -[optional_port]; try exact N; try exact O;
    try apply normalize_normalize; try apply (optional_port_idem (Some _)); done.
Qed.

(** The first instance was given no port, or another instance's. *)
Definition port_clash (config : BridgeConfig) : Prop :=
  match bg_instances config with
  | [] => True
  | i :: rest => ic_stratum_port i = [] \/ In (ic_stratum_port i) (map ic_stratum_port rest)
  end.

#[export] Instance port_clash_dec config : Decision (port_clash config).
Proof.
  unfold port_clash. destruct (bg_instances config); [by left|]. apply or_dec; [apply _|]. exact (in_dec (fun x y : text => decide (x = y)) _ _).
Defined.

Lemma updated_normal u config : normal config -> ~ port_clash (updated u config) -> normal (updated u config).
Proof.
  intros [G N S P D]. unfold port_clash, updated. destruct (bg_instances config) as [|i rest]; [done|]. cbn. intros C.
  apply Forall_cons in N as [Ni N]. apply Forall_cons in P as [_ P]. inversion D; subst.
  split; cbn; [by apply update_global_normal|constructor; [by apply update_instance_normal|done]|done| |].
  - constructor; [tauto|done].
  - constructor; [tauto|done].
Qed.

Lemma duplicate_port_later instances p : forall seen,
  p ∈ seen -> In p (map ic_stratum_port instances) -> duplicate_port seen instances <> None.
Proof.
  induction instances as [|i instances IH]; intros seen Hp H; [done|]. cbn in *. case_bool_decide; [done|].
  destruct H as [<-|H]; [done|]. apply IH; [by apply elem_of_cons; right|done].
Qed.

Lemma clash_unreadable read y config :
  normal_global (bg_global config) -> Forall normal_instance (bg_instances config) -> waits_fit config ->
  port_clash config -> read y = Some (to_document config) -> exists e, from_yaml read y = Err e.
Proof.
  intros G N [_ W] C R. unfold from_yaml. rewrite R. cbn [ok_or rbind rw_instances to_document].
  assert (map instance_of_yaml (map raw_of_instance (bg_instances config)) = bg_instances config) as ->.
  { rewrite map_map. clear - N W. induction N as [|i l Ni _ IH]; [done|]. apply Forall_cons in W as [Wi W]. cbn.
    rewrite instance_survives by done. f_equal. by apply IH. }
  case_bool_decide; [by eexists|]. destruct (missing_port _ _) eqn:M; [by eexists|]. cbn [rbind].
  apply missing_port_none in M. unfold port_clash in C. destruct (bg_instances config) as [|i rest]; [done|].
  apply Forall_cons in M as [Mi _]. destruct C as [C|C]; [done|].
  destruct (duplicate_port [] (i :: rest)) eqn:E; [by eexists|]. cbn in E. case_bool_decide; [done|].
  exfalso. eapply duplicate_port_later; [|exact C|exact E]. apply elem_of_cons. by left.
Qed.

(** ** The server *)

(** A YAML document that was printed reads back as itself. *)
Class WebLaws `{!WebEnv} := yaml_faithful d y : we_yaml_print d = Some y -> we_yaml_read y = Some d.

Section Server.
Context `{WE : !WebEnv} `{WL : !WebLaws} (vars : Vars).

Lemma update_effect body file file' r :
  update_config_from_json body file = (file', r) ->
  match r with
  | Ok _ => exists u y, we_json_parse body = Some u /\ file' = Some y /\ we_yaml_read y = Some (to_document (updated u (loaded file)))
  | Err WriteFailed => True
  | Err _ => file' = file
  end.
Proof.
  unfold update_config_from_json. destruct (we_json_parse body) as [u|]; [|by intros [= <- <-]].
  destruct (we_yaml_print _) as [y|] eqn:E; [|by intros [= <- <-]]. destruct (we_write y); intros [= <- <-]; [|done].
  exists u, y. split; [done|]. split; [done|]. by apply yaml_faithful.
Qed.

(** C19. Writes are guarded and faithful.  No request but a [POST /api/config] to an
    instance's server with writing enabled changes the file; and when success is
    reported, the file holds the document of the configuration it was loaded as,
    updated by the request: it reads back as exactly that configuration when the
    first instance's port is given and is no other instance's, and not at all
    otherwise (waiting times within the YAML integer). *)
Theorem dashboard_writes_sound mode request file file' served :
  handle_http_request vars mode request file = (file', served) ->
  (file' <> file -> exists id b, mode = Instance id b /\ starts_with (lit "POST /api/config") request = true /\
                                 config_write_allowed vars = true) /\
  (served = ConfigWritten true ->
     exists body u y, request_body request = Some body /\ we_json_parse body = Some u /\ file' = Some y /\
       let config := updated u (loaded file) in
       waits_fit config ->
       if decide (port_clash config) then exists e, from_yaml we_yaml_read y = Err e
       else from_yaml we_yaml_read y = Ok config).
Proof.
  unfold handle_http_request. intros H.
  repeat match type of H with
  | (if ?c then _ else _) = _ => let E := fresh "E" in destruct c eqn:E
  end; try (injection H as <- <-; split; [done|discriminate]).
  - apply andb_true_iff in E3 as [M P]. destruct mode as [|id b]; [done|]. apply negb_false_iff in E4.
    destruct (request_body request) as [body|]; [|injection H as <- <-; by split].
    destruct (update_config_from_json body file) as [f r] eqn:U. injection H as <- <-.
    apply update_effect in U. split; [intros _; by exists id, b|]. destruct r as [[]|]; [|done]. intros _.
    destruct U as (u & y & J & Hf & R). exists body, u, y. split; [done|]. split; [done|]. split; [done|]. cbn. intros F.
    pose proof (loaded_normal file) as N. case_decide as C.
    + eapply clash_unreadable; [|..|exact F|exact C|exact R].
      * apply update_global_normal, N.
      * destruct N as [_ N _ _ _]. unfold updated. cbn. destruct (bg_instances (loaded file)) as [|i rest]; cbn.
        { constructor; [|done]. apply update_instance_normal. by split; vm_compute. }
        apply Forall_cons in N as [Ni N]. constructor; [by apply update_instance_normal|done].
    + apply document_round_trip; [by apply updated_normal|done|done].
  - destruct (try_read_static_file _) as [[rel contents]|]; injection H as <- <-; by split.
Qed.
End Server.

(** ** Where the server does not do what it means to *)

Section Findings.
Context `{WE : !WebEnv} `{WL : !WebLaws}.

(** An update that leaves the first instance without a port of its own is reported
    as a success and cannot be read back, so the next update starts from the
    built-in defaults: every instance and every setting of the file is lost. *)
Theorem clashing_update_loses_everything body file file' u :
  update_config_from_json body file = (file', Ok tt) -> we_json_parse body = Some u ->
  waits_fit (updated u (loaded file)) -> port_clash (updated u (loaded file)) ->
  file' <> Some [] -> loaded file' = BridgeConfig_default.
Proof.
  intros U J F C Ne. pose proof U as U'. apply update_effect in U' as (u' & y & J' & -> & R).
  assert (u' = u) as -> by congruence. pose proof (loaded_normal file) as N.
  destruct (clash_unreadable we_yaml_read y (updated u (loaded file))) as [e E]; try done.
  - apply update_global_normal, N.
  - destruct N as [_ N S _ _]. unfold updated. cbn. destruct (bg_instances (loaded file)) as [|i rest]; [done|].
    apply Forall_cons in N as [Ni N]. constructor; [by apply update_instance_normal|done].
  - unfold loaded. cbn [default]. destruct y as [|c s]; [done|]. cbn [id]. by rewrite E.
Qed.
End Findings.

Lemma starts_with_strip p s : starts_with p s = false -> strip_prefix p s = None.
Proof.
  revert s. induction p as [|c p IH]; intros [|d s]; cbn; try done. destruct (c =? d); [apply IH|done].
Qed.

Lemma trim_one_prefix fuel p s :
  (2 <= fuel)%nat -> strip_prefix p s = None -> trim_start_matches fuel p (p ++ s) = s.
Proof.
  intros F N. destruct fuel as [|[|fuel]]; [lia..|]. cbn [trim_start_matches].
  rewrite (proj2 (strip_prefix_Some p (p ++ s) s) eq_refl). by rewrite N.
Qed.

Lemma starts_with_app p s : starts_with p (p ++ s) = true.
Proof. induction p as [|c p IH]; [by destruct s|]. cbn. by rewrite Z.eqb_refl. Qed.

(** Any file of the host is served: the check for [..] does not stop an absolute
    path after [/static/], and joining an absolute path replaces the directory. *)
Theorem static_serves_any_file `{WE : !WebEnv} p :
  contains (lit "..") (47 :: p) = false -> contains [92] (47 :: p) = false ->
  starts_with (lit "/static/") (47 :: p) = false -> we_embedded (47 :: p) = None ->
  try_read_static_file (lit "/static/" ++ 47 :: p) = option_map (fun contents => (47 :: p, contents)) (we_read_file (47 :: p)).
Proof.
  intros D B S E. assert (static_rel (lit "/static/" ++ 47 :: p) = Some (47 :: p)) as R.
  { unfold static_rel. rewrite starts_with_app, trim_one_prefix;
      [|rewrite length_app; change (length (lit "/static/")) with 8%nat; lia|by apply starts_with_strip].
    unfold one_of. cbn [existsb]. repeat (case_bool_decide as X; [discriminate X|]). done. }
  unfold try_read_static_file. rewrite R. cbn [mbind option_bind]. rewrite D, B, E. cbn [orb path_join].
  by destruct (we_read_file (47 :: p)).
Qed.

(** ** A concrete server *)

(** A disk with a key, and libraries for one document. *)
Definition demo_document : BridgeConfigRaw :=
  to_document (mkBridgeConfig GlobalConfig_default
    [set_stratum_port (lit ":5555") InstanceConfig_default; set_stratum_port (lit ":5556") InstanceConfig_default]).

Definition demo_update (port : string) : Value := VObject [(lit "stratum_port", VString (lit port))].

#[export] Instance f64_eq_dec : EqDecision f64.
Proof. solve_decision. Defined.
#[export] Instance YamlNumber_eq_dec : EqDecision YamlNumber.
Proof. solve_decision. Defined.
#[export] Instance RawInstance_eq_dec : EqDecision RawInstance.
Proof. solve_decision. Defined.
#[export] Instance RawGlobal_eq_dec : EqDecision RawGlobal.
Proof. solve_decision. Defined.
#[export] Instance BridgeConfigRaw_eq_dec : EqDecision BridgeConfigRaw.
Proof. solve_decision. Defined.

(** A file's text is the number of the document it holds. *)
Definition demo_web (documents : list BridgeConfigRaw) (u : Value) : WebEnv := {|
  we_json_parse body := if bool_decide (body = lit "json") then Some u else None;
  we_json_print _ := None;
  we_yaml_read y := match y with [n] => nth_error documents (Z.to_nat n) | _ => None end;
  we_yaml_print d := match list_find (fun x => x = d) documents with Some (n, _) => Some [Z.of_nat n] | None => None end;
  we_write _ := Ok tt;
  we_embedded _ := None;
  we_read_file path := if bool_decide (path = lit "/run/treasury.key") then Some [1; 2; 3] else None;
  we_manifest_dir := lit "/srv/bridge"
|}.

Lemma nth_error_lookup' {A} (l : list A) n : nth_error l n = l !! n.
Proof. revert n. induction l as [|a l IH]; intros [|n]; cbn; done || apply IH. Qed.

#[export] Instance demo_web_laws documents u : @WebLaws (demo_web documents u).
Proof.
  intros d y. cbn. destruct (list_find _ documents) as [[n x]|] eqn:E; [|done]. intros [= <-].
  apply list_find_Some in E as (L & -> & _). by rewrite Nat2Z.id, nth_error_lookup'.
Qed.

Definition demo_documents (port : string) : list BridgeConfigRaw :=
  [demo_document;
   to_document (updated (demo_update port) (mkBridgeConfig GlobalConfig_default
     [set_stratum_port (lit ":5555") InstanceConfig_default; set_stratum_port (lit ":5556") InstanceConfig_default]))].

Definition web (port : string) : WebEnv := demo_web (demo_documents port) (demo_update port).

Definition write_on : Vars := fun k => if String.eqb k "RKSTRATUM_ALLOW_CONFIG_WRITE" then Some (lit "1") else None.

Definition post : text := lit "POST /api/config HTTP/1.1" ++ [13; 10; 13; 10] ++ lit "json".

Lemma dashboard_writes_sound_witness :
  let WE := web "6000" in
  exists file', handle_http_request write_on (Instance (lit "1") []) post (Some [0]) = (file', ConfigWritten true) /\
    option_map (fun y => option_map (fun c => map ic_stratum_port (bg_instances c))
                           (match from_yaml we_yaml_read y with Ok c => Some c | Err _ => None end)) file'
    = Some (Some [lit ":6000"; lit ":5556"]) /\
    (file' <> Some [0] -> config_write_allowed write_on = true).
Proof.
  intros WE. exists (Some [1]).
  assert (handle_http_request write_on (Instance (lit "1") []) post (Some [0]) = (Some [1], ConfigWritten true)) as H
    by (vm_compute; reflexivity).
  split; [exact H|]. split; [vm_compute; reflexivity|]. intros N.
  destruct (proj1 (dashboard_writes_sound write_on _ _ _ _ _ H) N) as (id & b & _ & _ & A). exact A.
Defined.

(** The dashboard's own port taken from another instance: reported as written,
    unreadable afterwards. *)
Example clashing_update :
  let WE := web ":5556" in
  exists file', handle_http_request write_on (Instance (lit "1") []) post (Some [0]) = (file', ConfigWritten true) /\
    length (bg_instances (loaded (Some [0]))) = 2%nat /\ length (bg_instances (loaded file')) = 1%nat.
Proof. exists (Some [1]). repeat split; vm_compute; reflexivity. Qed.

(** The key of the treasury, read through the metrics server. *)
Example treasury_key_served :
  let WE := web "" in
  snd (handle_http_request (fun _ => None) (Instance (lit "1") []) (lit "GET /static//run/treasury.key HTTP/1.1") None)
  = ServeFile "application/octet-stream" [1; 2; 3].
Proof. vm_compute. reflexivity. Qed.
