(* ===== verification/Shutdown.v ===== *)
(** * The consumer's loop in time ([accountant/src/consumer.rs])

    The receive loop of the event consumer against the clock: the broadcast channel
    between bridge and consumer, the shutdown signal, and the bounded drain of what
    is still on the channel.  The channel is an interface ([Broadcast]) with its
    documented behaviour as laws; who sends what at which instant, how long a
    handler takes and which ready branch [select!] takes are arbitrary.  Instants
    are in milliseconds. *)
From S2P Require Import Prelude F64 FeeModel Schema PayoutDb Domain AccountDb IngestDb SessionDb Consumer.
Open Scope Z_scope.

(** ** The channel and its producers *)

(** [tokio::sync::broadcast] seen by one receiver: sending, dropping the last
    sender, and polling [recv] ([None]: nothing yet). *)
Class Broadcast := {
  bus : Type;
  bus_send : PoolEvent -> bus -> bus;
  bus_close : bus -> bus;
  bus_poll : bus -> option (bus * Recv)
}.

Inductive Produced := Sent (e : PoolEvent) | SendersGone.

(** What the producers do, with the instants. *)
Definition Timeline : Type := list (Z * Produced).

Inductive DrainEnd :=
| Idle                    (* no event within the idle gap *)
| Exhausted               (* the budget is used up *)
| Closed.

Inductive RunEnd :=
| Drained (why : DrainEnd)
| ChannelClosed
| StillWaiting.           (* no event is left and no shutdown will come *)

(** The consumer's task: the clock, what is still to be sent, the channel, the
    database side, the turns taken and the events reported as skipped. *)
Record Task `{!Broadcast} := mkTask {
  tk_now : Z;
  tk_future : Timeline;
  tk_bus : bus;
  tk_state : CState;
  tk_turns : nat;
  tk_skipped : Z
}.

Section Timed.
Context (fault : nat -> Fault) (cfg : ConsumerConfig) (geoip : option (IpAddr -> option string)).
Context `{BC : !Broadcast}.
(** The time the work of a turn takes, and the branch [select!] takes when both are
    ready: the shutdown on [true]. *)
Context (cost : nat -> Z) (pick : nat -> bool).

Definition produce (p : Produced) (b : bus) : bus :=
  match p with Sent e => bus_send e b | SendersGone => bus_close b end.

(** What was sent by now is on the channel. *)
Fixpoint flush (now : Z) (future : Timeline) (b : bus) : Timeline * bus :=
  match future with
  | (t, p) :: later => if t <=? now then flush now later (produce p b) else (future, b)
  | [] => ([], b)
  end.

Definition catch_up (t : Task) : Task :=
  let '(future, b) := flush (tk_now t) (tk_future t) (tk_bus t) in
  mkTask _ (tk_now t) future b (tk_state t) (tk_turns t) (tk_skipped t).

(** Wait for [recv]: at once if it is ready, otherwise until the producers wake it,
    as long as they do so in time. *)
Fixpoint await_recv (in_time : Z -> bool) (patience now : Z) (future : Timeline) (b : bus)
  : Z * Timeline * bus * option Recv :=
  match bus_poll b with
  | Some (b', r) => (now, future, b', Some r)
  | None =>
      match future with
      | (t, p) :: later =>
          if in_time t then await_recv in_time patience (Z.max now t) later (produce p b)
          else (Z.max now patience, future, b, None)
      | [] => (Z.max now patience, [], b, None)
      end
  end.

Definition recv_until (in_time : Z -> bool) (patience : Z) (t : Task) : Task * option Recv :=
  let t := catch_up t in
  let '(now, future, b, r) := await_recv in_time patience (tk_now t) (tk_future t) (tk_bus t) in
  (mkTask _ now future b (tk_state t) (tk_turns t) (tk_skipped t), r).

(** The clock, the database and the count of skipped events after a result. *)
Definition handled (r : Recv) (t : Task) : Task :=
  let took := match r with RecvEvent _ => cost (tk_turns t) | _ => 0 end in
  let skipped := match r with RecvLagged n => n | _ => 0 end in
  mkTask _ (tk_now t + took) (tk_future t) (tk_bus t) (fst (step fault cfg geoip r (tk_state t)))
    (S (tk_turns t)) (tk_skipped t + skipped).

(** [drain_backlog]: [timeout] polls [recv] before its own timer, so an event at the
    limit still counts. *)
Fixpoint drain_loop (fuel : nat) (drain_idle deadline : Z) (t : Task) : option (Task * DrainEnd) :=
  match fuel with
  | O => None
  | S fuel =>
      if deadline <=? tk_now t then Some (t, Exhausted)
      else
        let limit := tk_now t + Z.min drain_idle (deadline - tk_now t) in
        match recv_until (fun x => x <=? limit) limit t with
        | (t', None) => Some (t', Idle)
        | (t', Some RecvClosed) => Some (handled RecvClosed t', Closed)
        | (t', Some r) => drain_loop fuel drain_idle deadline (handled r t')
        end
  end.

Definition drain_backlog (fuel : nat) (drain_idle drain_budget : Z) (t : Task) : option (Task * DrainEnd) :=
  drain_loop fuel drain_idle (tk_now t + drain_budget) t.

Definition drained (r : option (Task * DrainEnd)) : option (Task * RunEnd) :=
  match r with Some (t, why) => Some (t, Drained why) | None => None end.

(** The [select!] loop.  [shutdown] is the instant at which the watch channel turns
    true or loses its sender; nothing else is ever sent on it. *)
Fixpoint select_loop (fuel : nat) (drain_idle drain_budget : Z) (shutdown : option Z) (t : Task)
  : option (Task * RunEnd) :=
  match fuel with
  | O => None
  | S fuel =>
      let t := catch_up t in
      let ready := match bus_poll (tk_bus t) with Some _ => true | None => false end in
      let due := match shutdown with Some at_ => at_ <=? tk_now t | None => false end in
      if due && (negb ready || pick (tk_turns t)) then drained (drain_backlog fuel drain_idle drain_budget t)
      else
        let in_time x := match shutdown with Some at_ => x <? at_ | None => true end in
        match recv_until in_time (default (tk_now t) shutdown) t with
        | (t', Some r) =>
            if snd (step fault cfg geoip r (tk_state t')) then
              select_loop fuel drain_idle drain_budget shutdown (handled r t')
            else Some (handled r t', ChannelClosed)
        | (t', None) =>
            match shutdown with
            | Some _ => select_loop fuel drain_idle drain_budget shutdown t'
            | None => Some (t', StillWaiting)
            end
        end
  end.

(** [startup_session_sweep] takes its time too. *)
Definition after_sweep (t : Task) : Task :=
  mkTask _ (tk_now t + cost (tk_turns t)) (tk_future t) (tk_bus t)
    (startup_session_sweep fault (tk_state t)) (S (tk_turns t)) (tk_skipped t).

(** A signal that came during the sweep is honoured first. *)
Definition run_with_shutdown (fuel : nat) (drain_idle drain_budget : Z) (shutdown : option Z) (t : Task)
  : option (Task * RunEnd) :=
  let t := after_sweep t in
  if match shutdown with Some at_ => at_ <=? tk_now t | None => false end
  then drained (drain_backlog fuel drain_idle drain_budget t)
  else select_loop fuel drain_idle drain_budget shutdown t.
End Timed.
