(* ===== verification/ShutdownSpec.v ===== *)
(** * What the consumer's loop guarantees at shutdown

    Whatever is sent when, however long handlers take and whichever ready branch
    is taken: every event sent by the end of the loop was handled in order, is
    still on the channel, or was reported as skipped; the loop ends, a bounded time
    after the signal if [select!] is fair, and gives up only when the whole budget
    has passed. *)
From stdpp Require Import sorting.
From S2P Require Import Prelude F64 FeeModel Schema PayoutDb Domain AccountDb IngestDb SessionDb Consumer ConsumerSpec Shutdown.
Open Scope Z_scope.

(** ** The channel's documented behaviour *)

(** What the channel keeps for the receiver, oldest first, and how many values were
    overwritten since the last report: [recv] reports those first and goes on with
    the oldest value that is left. *)
Class BroadcastLaws `{!Broadcast} := {
  bus_waiting : bus -> list PoolEvent;
  bus_missed : bus -> nat;
  bus_closed : bus -> bool;
  send_keeps b e : exists dropped,
    bus_waiting b ++ [e] = dropped ++ bus_waiting (bus_send e b) /\
    bus_missed (bus_send e b) = (bus_missed b + length dropped)%nat;
  close_keeps b : bus_waiting (bus_close b) = bus_waiting b /\ bus_missed (bus_close b) = bus_missed b;
  poll_pending b : bus_poll b = None -> bus_missed b = 0%nat /\ bus_waiting b = [];
  poll_lagged b b' n : bus_poll b = Some (b', RecvLagged n) ->
    n = Z.of_nat (bus_missed b) /\ (0 < bus_missed b)%nat /\ bus_missed b' = 0%nat /\ bus_waiting b' = bus_waiting b;
  poll_event b b' e : bus_poll b = Some (b', RecvEvent e) ->
    bus_missed b = 0%nat /\ bus_missed b' = 0%nat /\ bus_waiting b = e :: bus_waiting b';
  poll_closed b b' : bus_poll b = Some (b', RecvClosed) ->
    bus_missed b = 0%nat /\ bus_waiting b = [] /\ bus_missed b' = 0%nat /\ bus_waiting b' = [];
  poll_waiting b : (0 < length (bus_waiting b))%nat -> is_Some (bus_poll b)
}.

(** ** Accounting *)

Definition sent_in (past : Timeline) : list PoolEvent :=
  flat_map (fun x => match snd x with Sent e => [e] | SendersGone => [] end) past.

(** Time never runs backwards in a timeline. *)
Definition timeline_ordered (timeline : Timeline) : Prop := StronglySorted Z.le (map fst timeline).

Lemma sublist_same_length {A} (l k : list A) : l `sublist_of` k -> length l = length k -> l = k.
Proof.
  induction 1 as [|x l k _ IH|x l k H IH]; cbn; intros E; [done| |].
  - f_equal. apply IH. lia.
  - apply sublist_length in H. lia.
Qed.

Section Spec.
Context (fault : nat -> Fault) (cfg : ConsumerConfig) (geoip : option (IpAddr -> option string)).
Context `{BC : !Broadcast} `{BL : !BroadcastLaws} (cost : nat -> Z) (pick : nat -> bool).
Context (s0 : CState) (timeline : Timeline).

(** From the start state [s0] and the whole [timeline]: the channel [b], the state
    [s], the unsent rest [future] and the skipped count add up. *)
Definition accounts (future : Timeline) (b : bus) (s : CState) (skipped : Z) : Prop :=
  exists past done, timeline = past ++ future /\
    s = replay_all fault cfg geoip done s0 /\
    (done ++ bus_waiting b) `sublist_of` sent_in past /\
    Z.of_nat (length done + bus_missed b + length (bus_waiting b)) + skipped = Z.of_nat (length (sent_in past)).

Definition task_accounts (t : Task) : Prop := accounts (tk_future t) (tk_bus t) (tk_state t) (tk_skipped t).

Lemma sent_in_app l k : sent_in (l ++ k) = sent_in l ++ sent_in k.
Proof. apply flat_map_app. Qed.

Lemma accounts_produce x p future b s n :
  accounts ((x, p) :: future) b s n -> accounts future (produce p b) s n.
Proof.
  intros (past & done & T & S & Sub & N). exists (past ++ [(x, p)]), done.
  rewrite <- app_assoc. split; [exact T|]. split; [exact S|]. rewrite sent_in_app.
  destruct p as [e|]; cbn [produce sent_in flat_map snd app].
  - destruct (send_keeps b e) as (dropped & E & M). rewrite length_app. cbn [length].
    assert (length (bus_waiting b) + 1 = length dropped + length (bus_waiting (bus_send e b)))%nat as L
      by (pose proof (f_equal length E) as L; rewrite !length_app in L; exact L).
    split; [|rewrite M; lia]. etransitivity; [|apply sublist_app; [exact Sub|reflexivity]]. rewrite <- app_assoc, E.
    apply sublist_app; [reflexivity|]. by apply sublist_inserts_l.
  - destruct (close_keeps b) as [-> ->]. rewrite app_nil_r. by split.
Qed.

Lemma accounts_flush now future : forall b s n,
  accounts future b s n -> accounts (fst (flush now future b)) (snd (flush now future b)) s n.
Proof.
  induction future as [|[x p] future IH]; intros b s n A; [done|]. cbn [flush].
  destruct (x <=? now); [|done]. apply IH. by eapply accounts_produce.
Qed.

Lemma catch_up_accounts t : task_accounts t -> task_accounts (catch_up t).
Proof.
  intros A. unfold task_accounts, catch_up. pose proof (accounts_flush (tk_now t) _ _ _ _ A) as F.
  by destruct (flush _ _ _).
Qed.

Definition skipped_by (r : Recv) : Z := match r with RecvLagged n => n | _ => 0 end.

Lemma accounts_poll future b b' r s n :
  bus_poll b = Some (b', r) -> accounts future b s n ->
  accounts future b' (fst (step fault cfg geoip r s)) (n + skipped_by r).
Proof.
  intros P (past & done & T & S & Sub & N). destruct r as [e|k|]; cbn [step fst skipped_by].
  - apply poll_event in P as (M & M' & W). rewrite W in Sub, N. exists past, (done ++ [e]). split; [exact T|].
    split; [by rewrite S; unfold replay_all; rewrite fold_left_app|].
    split; [by rewrite <- app_assoc|]. rewrite length_app. cbn [length] in *. lia.
  - apply poll_lagged in P as (-> & _ & M' & W). exists past, done. rewrite W. repeat split; try done. lia.
  - apply poll_closed in P as (M & W & M' & W'). exists past, done. rewrite W', M'. rewrite W, M in *. repeat split; try done. lia.
Qed.

Lemma accounts_await in_time patience future : forall now b s n now' future' b' r,
  await_recv in_time patience now future b = (now', future', b', r) -> accounts future b s n ->
  match r with
  | Some r => accounts future' b' (fst (step fault cfg geoip r s)) (n + skipped_by r)
  | None => accounts future' b' s n
  end.
Proof.
  induction future as [|[x p] future IH]; cbn [await_recv]; intros now b s n now' future' b' r H A.
  - destruct (bus_poll b) as [[b1 r1]|] eqn:P; injection H as <- <- <- <-; [by eapply accounts_poll|done].
  - destruct (bus_poll b) as [[b1 r1]|] eqn:P; [injection H as <- <- <- <-; by eapply accounts_poll|].
    destruct (in_time x); [|by injection H as <- <- <- <-].
    eapply IH; [exact H|]. by eapply accounts_produce.
Qed.

Lemma recv_accounts in_time patience t t' r :
  recv_until in_time patience t = (t', r) -> task_accounts t ->
  match r with
  | Some r => task_accounts (handled fault cfg geoip cost r t')
  | None => task_accounts t'
  end.
Proof.
  unfold recv_until. intros H A%catch_up_accounts.
  destruct (await_recv _ _ _ _ _) as [[[now future] b] r'] eqn:E. injection H as <- <-.
  pose proof (accounts_await _ _ _ _ _ _ _ _ _ _ _ E A) as R. by destruct r' as [[]|].
Qed.

(** ** Progress *)

Definition load (future : Timeline) (b : bus) : nat :=
  (length (bus_waiting b) + 2 * length future + (if bus_missed b is O then 0 else 1))%nat.
Definition task_load (t : Task) : nat := load (tk_future t) (tk_bus t).

Lemma load_produce x p future b : (load future (produce p b) < load ((x, p) :: future) b)%nat.
Proof.
  unfold load. destruct p as [e|]; cbn [produce length].
  - destruct (send_keeps b e) as (dropped & E & M). apply (f_equal length) in E. rewrite !length_app in E. cbn [length] in E.
    rewrite M. destruct (bus_missed b), dropped; cbn [length Nat.add] in *; lia.
  - destruct (close_keeps b) as [-> ->]. lia.
Qed.

Lemma load_poll future b b' r :
  bus_poll b = Some (b', r) -> r <> RecvClosed -> (load future b' < load future b)%nat.
Proof.
  intros P N. unfold load. destruct r as [e|n|]; [| |done].
  - apply poll_event in P as (-> & -> & ->). cbn [length]. lia.
  - apply poll_lagged in P as (_ & M & -> & ->). destruct (bus_missed b); lia.
Qed.

Lemma load_flush now future : forall b, (load (fst (flush now future b)) (snd (flush now future b)) <= load future b)%nat.
Proof.
  induction future as [|[x p] future IH]; intros b; cbn [flush]; [done|]. destruct (x <=? now); [|done].
  pose proof (IH (produce p b)). pose proof (load_produce x p future b). lia.
Qed.

(** What [await_recv] answers: when, and what is left. *)
Record awaited (in_time : Z -> bool) (patience now : Z) (future : Timeline) (b : bus)
    (now' : Z) (future' : Timeline) (b' : bus) (r : option Recv) : Prop := {
  aw_later : now <= now';
  aw_limit L : now <= L -> patience <= L -> (forall x, in_time x = true -> x <= L) -> now' <= L;
  aw_load : (load future' b' <= load future b)%nat;
  aw_progress q : r = Some q -> q <> RecvClosed -> (load future' b' < load future b)%nat;
  aw_empty : r = None \/ r = Some RecvClosed -> bus_waiting b' = [] /\ bus_missed b' = 0%nat;
  aw_pending : r = None -> patience <= now' /\ match future' with [] => True | x :: _ => in_time (fst x) = false end
}.

Lemma poll_awaited in_time patience now future b b' r :
  bus_poll b = Some (b', r) -> awaited in_time patience now future b now future b' (Some r).
Proof.
  intros P. split; try done; try lia.
  - destruct r as [e|n|]; [pose proof (load_poll future _ _ _ P ltac:(done)); lia..|].
    apply poll_closed in P as (M & W & M' & W'). unfold load. rewrite M, W, M', W'. lia.
  - intros q [= <-]. by apply load_poll.
  - intros [?|[= ->]]; [done|]. by apply poll_closed in P as (_ & _ & -> & ->).
Qed.

Lemma await_recv_awaited in_time patience future : forall now b now' future' b' r,
  await_recv in_time patience now future b = (now', future', b', r) ->
  awaited in_time patience now future b now' future' b' r.
Proof.
  induction future as [|[x p] future IH]; cbn [await_recv]; intros now b now' future' b' r H.
  - destruct (bus_poll b) as [[b1 r1]|] eqn:P; injection H as <- <- <- <-; [by apply poll_awaited|].
    apply poll_pending in P as [M W]. split; try done; try lia.
  - destruct (bus_poll b) as [[b1 r1]|] eqn:P; [injection H as <- <- <- <-; by apply poll_awaited|].
    destruct (in_time x) eqn:X.
    + apply IH in H as [L1 L2 L3 L4 L5 L6]. pose proof (load_produce x p future b). split; try done; try lia.
      intros L N G I. apply L2; [|done..]. specialize (I x X). lia.
    + injection H as <- <- <- <-. apply poll_pending in P as [M W]. split; try done; try lia. intros _. split; [lia|done].
Qed.

Lemma recv_awaited in_time patience t t' r :
  recv_until in_time patience t = (t', r) ->
  awaited in_time patience (tk_now t) (tk_future (catch_up t)) (tk_bus (catch_up t)) (tk_now t') (tk_future t') (tk_bus t') r.
Proof.
  unfold recv_until. destruct (await_recv _ _ _ _ _) as [[[now future] b] r'] eqn:E. intros [= <- <-].
  apply await_recv_awaited in E. unfold catch_up in *. by destruct (flush _ _ _).
Qed.

Lemma catch_up_load t : (task_load (catch_up t) <= task_load t)%nat.
Proof. unfold task_load, catch_up. pose proof (load_flush (tk_now t) (tk_future t) (tk_bus t)). by destruct (flush _ _ _). Qed.

Lemma catch_up_now t : tk_now (catch_up t) = tk_now t.
Proof. unfold catch_up. by destruct (flush _ _ _). Qed.

(** ** The drain *)

(** What the way a drain ended says about the channel. *)
Definition emptied (why : DrainEnd) (t : Task) : Prop :=
  match why with
  | Exhausted => True
  | Closed => bus_waiting (tk_bus t) = [] /\ bus_missed (tk_bus t) = 0%nat
  | Idle => bus_waiting (tk_bus t) = [] /\ bus_missed (tk_bus t) = 0%nat /\
            Forall (fun x => tk_now t < fst x) (tk_future t)
  end.

Lemma later_all limit now (future : Timeline) :
  StronglySorted Z.le (map fst future) -> now <= limit ->
  match future with [] => True | x :: _ => (fst x <=? limit) = false end ->
  Forall (fun x => now < fst x) future.
Proof.
  intros S L H. destruct future as [|x future]; [constructor|]. apply Z.leb_gt in H. cbn [map] in S.
  apply StronglySorted_inv in S as [_ F]. constructor; [lia|]. rewrite List.Forall_map in F.
  eapply List.Forall_impl; [|exact F]. intros y Hy. cbn in Hy. lia.
Qed.

Section Bounded.
Context (c : Z) (cost_bound : forall n, 0 <= cost n <= c) (ordered : timeline_ordered timeline).

Lemma future_sorted t : task_accounts t -> StronglySorted Z.le (map fst (tk_future t)).
Proof.
  intros (past & done & T & _). clear - ordered T. unfold timeline_ordered in ordered. rewrite T, map_app in ordered.
  by apply StronglySorted_app_1_r in ordered.
Qed.

Lemma handled_later r t : tk_now t <= tk_now (handled fault cfg geoip cost r t) <= tk_now t + c.
Proof. unfold handled. cbn [tk_now]. pose proof (cost_bound (tk_turns t)). destruct r; lia. Qed.

Lemma drain_ends idle deadline : 0 <= idle -> forall fuel t,
  (task_load t < fuel)%nat -> tk_now t <= deadline + c -> task_accounts t ->
  exists t' why, drain_loop fault cfg geoip cost fuel idle deadline t = Some (t', why) /\
    task_accounts t' /\ tk_now t <= tk_now t' <= deadline + c /\ emptied why t' /\
    match why with
    | Exhausted => deadline <= tk_now t'
    | Idle => Z.min (tk_now t + idle) deadline <= tk_now t'
    | Closed => True
    end.
Proof.
  intros Hidle. induction fuel as [|fuel IH]; intros t L B A; [lia|]. cbn [drain_loop].
  destruct (Z.leb_spec deadline (tk_now t)); [exists t, Exhausted; repeat split; [done|lia..]|].
  set (limit := tk_now t + _). pose proof (cost_bound 0) as [C0 C1].
  destruct (recv_until _ _ t) as [t' r] eqn:R. pose proof (recv_accounts _ _ _ _ _ R A) as A'.
  apply recv_awaited in R as [L1 L2 L3 L4 L5 L6]. pose proof (catch_up_load t) as LS. unfold task_load in *.
  assert (tk_now t' <= limit) as Lim by (apply L2; [lia..|intros x Hx; by apply Z.leb_le]).
  assert (limit <= deadline) by lia.
  destruct r as [r|].
  - pose proof (handled_later r t') as [H1 H2].
    assert (r = RecvClosed \/ r <> RecvClosed) as [->|N] by (destruct r; [by right|by right|by left]).
    + exists (handled fault cfg geoip cost RecvClosed t'), Closed. destruct (L5 ltac:(by right)) as [W M].
      assert (tk_now (handled fault cfg geoip cost RecvClosed t') = tk_now t') as -> by (cbn [handled tk_now]; lia).
      split; [done|]. split; [done|]. split; [lia|by split].
    + specialize (L4 r eq_refl N). destruct (IH (handled fault cfg geoip cost r t')) as (t2 & why & E & A2 & B2 & D2);
        [unfold handled; cbn [tk_future tk_bus]; lia|lia|exact A'|].
      exists t2, why. split; [by destruct r|]. split; [done|]. split; [lia|]. split; [apply D2|].
      destruct D2 as [_ D2]. destruct why; [lia|exact D2|done].
  - destruct (L5 ltac:(by left)) as [W M]. destruct (L6 eq_refl) as [G Hd]. exists t', Idle.
    split; [done|]. split; [done|]. split; [lia|]. split; [|unfold limit in *; lia].
    split; [done|]. split; [done|]. eapply later_all; [by apply future_sorted|exact Lim|exact Hd].
Qed.

(** ** The select loop *)

Lemma flush_flush now future : forall b,
  flush now (fst (flush now future b)) (snd (flush now future b)) = flush now future b.
Proof.
  induction future as [|[x p] future IH]; intros b; [done|]. cbn [flush]. destruct (x <=? now) eqn:X; [apply IH|].
  cbn [fst snd flush]. by rewrite X.
Qed.

Lemma catch_up_twice t : catch_up (catch_up t) = catch_up t.
Proof.
  unfold catch_up. pose proof (flush_flush (tk_now t) (tk_future t) (tk_bus t)) as F.
  destruct (flush (tk_now t) (tk_future t) (tk_bus t)) as [f b]. cbn in *. by rewrite F.
Qed.

Lemma recv_ready in_time patience t x :
  bus_poll (tk_bus (catch_up t)) = Some x -> snd (recv_until in_time patience t) <> None.
Proof.
  unfold recv_until. intros P. destruct (catch_up t) as [now future b s n k]. cbn in *. destruct x as [b' r].
  destruct future as [|[y p] future]; cbn [await_recv]; rewrite P; done.
Qed.

(** [select!] takes the shutdown branch at least once in [m] turns at which both
    branches are ready. *)
Definition fair (m : nat) : Prop := forall n, exists j, (j < m)%nat /\ pick (n + j)%nat = true.

Section Concluded.
Context (idle budget : Z) (idle_nonneg : 0 <= idle) (budget_nonneg : 0 <= budget).

(** The least time from the signal to each end of a drain. *)
Definition drains_for (why : DrainEnd) : Z :=
  match why with Exhausted => budget | Idle => Z.min idle budget | Closed => 0 end.

(** What the end of a loop that began by [from] says.  A drain follows a signal,
    gives up only when the whole budget has passed since, and is over when the
    budget, the handlers [select!] may put before the signal and the one under way
    at the deadline have had their time. *)
Definition concluded (from : Z) (shutdown : option Z) (e : RunEnd) (t : Task) : Prop :=
  match e with
  | Drained why =>
      emptied why t /\ exists at_, shutdown = Some at_ /\ at_ + drains_for why <= tk_now t /\
        forall m, fair m -> tk_now t <= Z.max at_ from + Z.of_nat m * c + budget + c
  | ChannelClosed => bus_waiting (tk_bus t) = [] /\ bus_missed (tk_bus t) = 0%nat
  | StillWaiting => shutdown = None /\ bus_waiting (tk_bus t) = [] /\ bus_missed (tk_bus t) = 0%nat /\ tk_future t = []
  end.

Definition to_come (shutdown : option Z) (t : Task) : nat :=
  match shutdown with Some at_ => if at_ <=? tk_now t then 0%nat else 1%nat | None => 0%nat end.

Lemma to_come_later shutdown t t' : tk_now t <= tk_now t' -> (to_come shutdown t' <= to_come shutdown t)%nat.
Proof.
  unfold to_come. destruct shutdown as [a|]; [|done].
  destruct (Z.leb_spec a (tk_now t)), (Z.leb_spec a (tk_now t')); lia.
Qed.

Lemma step_continues r s : snd (step fault cfg geoip r s) = true <-> r <> RecvClosed.
Proof. by destruct r. Qed.

(** Once the signal is there, the shutdown branch is taken within the time of the
    handlers that may still come first. *)
Definition punctual (from : Z) (shutdown : option Z) (t : Task) : Prop :=
  forall at_ m, shutdown = Some at_ -> fair m ->
    tk_now t < at_ \/
    exists j, pick (tk_turns t + j)%nat = true /\
      tk_now t + Z.of_nat j * c <= Z.max at_ from + Z.of_nat m * c.

Lemma fair_soon m now turns latest :
  fair m -> now <= latest + c ->
  exists j, pick (turns + j)%nat = true /\ now + Z.of_nat j * c <= latest + Z.of_nat m * c.
Proof.
  intros F L. destruct (F turns) as (j & Hj & P). exists j. split; [exact P|].
  pose proof (cost_bound 0) as [C0 C1]. nia.
Qed.

Lemma drained_concludes from at_ fuel t :
  at_ <= tk_now t -> (forall m, fair m -> tk_now t <= Z.max at_ from + Z.of_nat m * c) ->
  (task_load t < fuel)%nat -> task_accounts t ->
  exists t' e, drained (drain_backlog fault cfg geoip cost fuel idle budget t) = Some (t', e) /\
    task_accounts t' /\ concluded from (Some at_) e t'.
Proof.
  intros Hat Hm L A. pose proof (cost_bound 0) as [C0 C1].
  destruct (drain_ends idle (tk_now t + budget) idle_nonneg fuel t L ltac:(lia) A) as (t' & why & E & A' & B & D & T).
  exists t', (Drained why). unfold drain_backlog, drained. rewrite E. split; [done|]. split; [done|]. split; [done|].
  exists at_. split; [done|]. split; [destruct why; cbn; lia|]. intros m F. specialize (Hm m F). lia.
Qed.

Lemma recv_turns in_time patience t t' r : recv_until in_time patience t = (t', r) -> tk_turns t' = tk_turns t.
Proof.
  unfold recv_until, catch_up. destruct (flush _ _ _). destruct (await_recv _ _ _ _ _) as [[[? ?] ?] ?].
  by intros [= <- _].
Qed.

Lemma punctual_handled from shutdown t t' r x :
  punctual from shutdown t ->
  recv_until (fun x => match shutdown with Some at_ => x <? at_ | None => true end) (default (tk_now t) shutdown) t = (t', r) ->
  match shutdown with Some at_ => at_ <=? tk_now t | None => false end && pick (tk_turns t) = false ->
  punctual from shutdown (handled fault cfg geoip cost x t').
Proof.
  intros P R D at_ m -> F. pose proof (recv_turns _ _ _ _ _ R) as Et. apply recv_awaited in R as [L1 L2 _ _ _ _].
  pose proof (handled_later x t') as [H1 H2]. change (tk_turns (handled _ _ _ _ x t')) with (S (tk_turns t')). rewrite Et.
  cbn [default] in L2. pose proof (cost_bound 0) as [C0 C1].
  destruct (Z.leb_spec at_ (tk_now t)) as [Ha|Ha].
  - right. destruct (P at_ m eq_refl F) as [?|(j & Pj & Hj)]; [lia|]. destruct j as [|j].
    { rewrite Nat.add_0_r in Pj. by rewrite Pj in D. }
    exists j. split; [by rewrite <- plus_n_Sm in Pj|].
    assert (tk_now t' <= tk_now t) by (apply L2; [lia|exact Ha|intros y Hy; apply Z.ltb_lt in Hy; lia]). lia.
  - right. assert (tk_now t' <= at_) by (apply L2; [lia|apply Z.le_refl|intros y Hy; apply Z.ltb_lt in Hy; lia]).
    eapply fair_soon; [exact F|lia].
Qed.

Lemma punctual_waited from at_ t t' r :
  tk_now t < at_ ->
  recv_until (fun x => x <? at_) at_ t = (t', r) -> punctual from (Some at_) t'.
Proof.
  intros Ha R a m [= <-] F. apply recv_awaited in R as [L1 L2 _ _ _ _]. right. pose proof (cost_bound 0) as [C0 C1].
  assert (tk_now t' <= at_) by (apply L2; [lia|apply Z.le_refl|intros y Hy; apply Z.ltb_lt in Hy; lia]).
  eapply fair_soon; [exact F|lia].
Qed.

Lemma select_concludes from shutdown : forall fuel t,
  (S (task_load t + to_come shutdown t) < fuel)%nat -> task_accounts t -> punctual from shutdown t ->
  exists t' e, select_loop fault cfg geoip cost pick fuel idle budget shutdown t = Some (t', e) /\
    task_accounts t' /\ concluded from shutdown e t'.
Proof.
  induction fuel as [|fuel IH]; intros t0 L A%catch_up_accounts P; [lia|]. cbn [select_loop].
  pose proof (catch_up_load t0) as LS. pose proof (to_come_later shutdown t0 (catch_up t0) ltac:(by rewrite catch_up_now)) as TS.
  assert (punctual from shutdown (catch_up t0)) as P'.
  { unfold punctual in *. rewrite catch_up_now. unfold catch_up. destruct (flush _ _ _). exact P. }
  set (t := catch_up t0) in *. assert (catch_up t = t) as Ht by apply catch_up_twice. clearbody t. clear P. rename P' into P.
  destruct (_ && _) eqn:D.
  - apply andb_true_iff in D as [D _]. destruct shutdown as [a|]; [|done]. apply Z.leb_le in D.
    apply drained_concludes; [done| |lia|done]. intros m F. pose proof (cost_bound 0) as [C0 C1].
    destruct (P a m eq_refl F) as [?|(j & _ & Hj)]; [lia|nia].
  - set (in_time x := _ : bool). destruct (recv_until in_time _ t) as [t' r] eqn:R.
    pose proof (recv_accounts _ _ _ _ _ R A) as A'. pose proof R as W. apply recv_awaited in W as [L1 L2 L3 L4 L5 L6].
    rewrite Ht in *. unfold task_load in *. destruct r as [r|].
    + pose proof (handled_later r t') as [H1 H2]. destruct (snd (step _ _ _ r _)) eqn:C.
      * apply step_continues in C. specialize (L4 r eq_refl C).
        pose proof (to_come_later shutdown t (handled fault cfg geoip cost r t') ltac:(lia)).
        apply IH; [unfold handled in *; cbn [tk_future tk_bus] in *; lia|exact A'|].
        eapply punctual_handled; [exact P|exact R|]. apply andb_false_iff in D as [->|[_ ->]%orb_false_iff]; [done|apply andb_false_r].
      * assert (r = RecvClosed) as -> by (by destruct r). exists (handled fault cfg geoip cost RecvClosed t'), ChannelClosed.
        split; [done|]. split; [done|]. apply (L5 ltac:(by right)).
    + destruct (L6 eq_refl) as [G Hd]. destruct shutdown as [a|].
      * change (a <= tk_now t') in G. assert (tk_now t < a) as Hn.
        { destruct (Z.leb_spec a (tk_now t)) as [Ha|]; [|done]. exfalso. cbn [andb] in D.
          destruct (bus_poll (tk_bus t)) as [x|] eqn:Q; [|done].
          pose proof (recv_ready in_time (default (tk_now t) (Some a)) t x) as N. rewrite Ht, R in N. by apply N. }
        apply IH; [|done|by eapply punctual_waited].
        unfold to_come in *. destruct (Z.leb_spec a (tk_now t')), (Z.leb_spec a (tk_now t)); try lia.
      * exists t', StillWaiting. destruct (L5 ltac:(by left)) as [W M].
        assert (tk_future t' = []) as F by (by destruct (tk_future t')). by repeat split.
Qed.
End Concluded.
End Bounded.
End Spec.

(** ** The loop *)

(** C37. The loop ends and accounts for every event.  For any timeline of sends, any
    handler times up to [c], any choice between ready branches and any database
    faults: with a turn of fuel for every possible wake-up the loop returns; what
    it wrote is what replaying the handled events writes; the handled events are
    among those sent by then, in order and each once, and the rest is still on the
    channel or was reported as skipped; nothing is left unless the budget ran out.
    A drain happens only on a signal; it gives up on what is left only when at least
    the whole budget has passed since the signal, and idles out only when the idle
    gap (or the budget) has; and when [select!] takes the shutdown branch at least
    once in [m] turns, the loop is over a budget, [m] handlers and one more after the
    signal (or after the startup sweep that delayed it). *)
Theorem shutdown_accounts_for_events fault cfg geoip `{BC : !Broadcast} `{BL : !BroadcastLaws} cost pick c idle budget shutdown t fuel :
  (forall n, 0 <= cost n <= c) -> 0 <= idle -> 0 <= budget -> timeline_ordered (tk_future t) ->
  bus_waiting (tk_bus t) = [] -> bus_missed (tk_bus t) = 0%nat -> tk_skipped t = 0 ->
  (2 * length (tk_future t) + 2 < fuel)%nat ->
  exists t' e past done,
    run_with_shutdown fault cfg geoip cost pick fuel idle budget shutdown t = Some (t', e) /\
    tk_future t = past ++ tk_future t' /\
    tk_state t' = replay_all fault cfg geoip done (startup_session_sweep fault (tk_state t)) /\
    done `sublist_of` sent_in past /\
    Z.of_nat (length done + bus_missed (tk_bus t') + length (bus_waiting (tk_bus t'))) + tk_skipped t'
      = Z.of_nat (length (sent_in past)) /\
    (e <> Drained Exhausted -> tk_skipped t' = 0 -> done = sent_in past) /\
    concluded pick c idle budget (tk_now t + c) shutdown e t'.
Proof.
  intros C I B O W M S F. set (s0 := startup_session_sweep fault (tk_state t)).
  assert (task_accounts fault cfg geoip s0 (tk_future t) (after_sweep fault cost t)) as A.
  { exists [], []. cbn. rewrite W, M, S. by repeat split. }
  assert (task_load (after_sweep fault cost t) = (2 * length (tk_future t))%nat) as L
    by (unfold task_load, load; cbn; rewrite W, M; cbn; lia).
  assert (exists t' e, run_with_shutdown fault cfg geoip cost pick fuel idle budget shutdown t = Some (t', e) /\
            task_accounts fault cfg geoip s0 (tk_future t) t' /\ concluded pick c idle budget (tk_now t + c) shutdown e t')
    as (t' & e & R & (past & done & T & Hs & Sub & N) & K).
  { unfold run_with_shutdown. destruct shutdown as [a|].
    - destruct (Z.leb_spec a (tk_now (after_sweep fault cost t))) as [Ha|Ha].
      + eapply drained_concludes; [exact C|exact O|exact I|exact B|exact Ha| |lia|exact A].
        intros m _. pose proof (C (tk_turns t)). cbn [after_sweep tk_now] in *. nia.
      + eapply select_concludes; [exact C|exact O|exact I|exact B| |exact A|].
        * unfold to_come. destruct (Z.leb_spec a (tk_now (after_sweep fault cost t))); lia.
        * intros a' m [= <-] _. by left.
    - eapply select_concludes; [exact C|exact O|exact I|exact B|cbn; lia|exact A|done]. }
  exists t', e, past, done. split; [exact R|]. split; [exact T|]. split; [exact Hs|].
  split; [etransitivity; [|exact Sub]; by apply sublist_inserts_r|]. split; [exact N|]. split; [|exact K].
  intros Ne Hk. assert (bus_waiting (tk_bus t') = [] /\ bus_missed (tk_bus t') = 0%nat) as [W' M'].
  { destruct e as [[| |]| |]; cbn in K; [tauto|done|tauto|tauto|tauto]. }
  rewrite W', app_nil_r in Sub. rewrite W', M' in N. cbn in N. apply sublist_same_length; [exact Sub|lia].
Qed.

(** ** A quiet drain *)

Fixpoint cost_of (cost : nat -> Z) (turn count : nat) : Z :=
  match count with
  | O => 0
  | S count => cost turn + cost_of cost (S turn) count
  end.

Lemma cost_of_nonneg cost count : (forall n, 0 <= cost n) -> forall turn, 0 <= cost_of cost turn count.
Proof. intros C. induction count as [|count IH]; intros turn; cbn; [lia|]. pose proof (C turn). pose proof (IH (S turn)). lia. Qed.

(** Producers that have stopped: nothing more is sent before [until]. *)
Definition silent_until (until : Z) (future : Timeline) : Prop :=
  match future with [] => True | x :: _ => until < fst x end.

Lemma catch_up_silent `{BC : !Broadcast} (t : Task) : silent_until (tk_now t) (tk_future t) -> catch_up t = t.
Proof.
  destruct t as [now [|[x p] future] b s n k]; [done|]. unfold catch_up. cbn [tk_now tk_future flush silent_until fst].
  intros H. by destruct (Z.leb_spec x now); [lia|].
Qed.

(** A backlog that fits the budget is drained: when the producers have stopped and
    handling what waits takes less than the budget, every waiting event is handled
    in order and the loop ends by idling (or because the senders are gone). *)
Theorem quiet_drain_completes fault cfg geoip `{BC : !Broadcast} `{BL : !BroadcastLaws} cost idle budget : (forall n, 0 <= cost n) -> 0 <= idle ->
  forall q deadline t,
  bus_waiting (tk_bus t) = q -> bus_missed (tk_bus t) = 0%nat -> silent_until (deadline + idle) (tk_future t) ->
  tk_now t + cost_of cost (tk_turns t) (length q) < deadline -> deadline <= tk_now t + budget ->
  exists t' why, drain_loop fault cfg geoip cost (S (length q)) idle deadline t = Some (t', why) /\
    why <> Exhausted /\ tk_state t' = replay_all fault cfg geoip q (tk_state t) /\ bus_waiting (tk_bus t') = [] /\
    tk_skipped t' = tk_skipped t.
Proof.
  intros C I. induction q as [|e q IH]; intros deadline t W M Q H B.
  - cbn [cost_of length] in H. cbn [length drain_loop]. destruct (Z.leb_spec deadline (tk_now t)); [lia|].
    set (limit := tk_now t + _). unfold recv_until. rewrite catch_up_silent by (destruct (tk_future t); cbn in *; [done|lia]).
    destruct t as [now future b s n k]. cbn [tk_now tk_future tk_bus tk_state tk_turns tk_skipped] in *.
    destruct (bus_poll b) as [[b' r]|] eqn:P.
    + destruct r as [e|x|].
      * apply poll_event in P as (_ & _ & E). by rewrite W in E.
      * apply poll_lagged in P as (_ & L & _). lia.
      * assert (await_recv (fun x => x <=? limit) limit now future b = (now, future, b', Some RecvClosed)) as ->
          by (destruct future; cbn [await_recv]; by rewrite P).
        eexists _, Closed. split; [done|]. apply poll_closed in P as (_ & _ & _ & W'). split; [done|]. split; [done|]. split; [done|].
        cbn. lia.
    + assert (await_recv (fun x => x <=? limit) limit now future b = (Z.max now limit, future, b, None)) as ->.
      { destruct future as [|[x p] future]; cbn [await_recv]; rewrite P; [done|].
        cbn in Q. destruct (Z.leb_spec x limit); [unfold limit in *; lia|done]. }
      eexists _, Idle. by repeat split.
  - cbn [cost_of length] in H. pose proof (cost_of_nonneg cost (length q) C (S (tk_turns t))) as C1. pose proof (C (tk_turns t)) as C2.
    cbn [length]. remember (S (length q)) as fuel eqn:Ef. cbn [drain_loop].
    destruct (Z.leb_spec deadline (tk_now t)); [lia|]. set (limit := tk_now t + _). unfold recv_until.
    rewrite catch_up_silent by (destruct (tk_future t); cbn in *; [done|lia]).
    destruct t as [now future b s n k]. cbn [tk_now tk_future tk_bus tk_state tk_turns tk_skipped] in *.
    destruct (poll_waiting b) as [[b' r] P]; [rewrite W; cbn; lia|].
    destruct r as [e'|x|]; [|apply poll_lagged in P as (_ & L & _); lia|apply poll_closed in P as (_ & E & _); by rewrite W in E].
    pose proof P as P'. apply poll_event in P' as (_ & M' & E). rewrite W in E. injection E as <- E.
    assert (await_recv (fun x => x <=? limit) limit now future b = (now, future, b', Some (RecvEvent e))) as ->
      by (destruct future; cbn [await_recv]; by rewrite P).
    destruct (IH deadline (handled fault cfg geoip cost (RecvEvent e) (mkTask _ now future b' s n k))) as (t' & why & R & N & St & Wt & Sk);
      [by cbn|by cbn|done|cbn; lia|cbn; lia|].
    exists t', why. subst fuel. split; [exact R|]. split; [done|]. split; [rewrite St; done|]. split; [done|]. rewrite Sk. cbn. lia.
Qed.

(** ** A concrete channel *)

(** A buffer of [capacity] values that overwrites its oldest ones. *)
Record Ring := mkRing { rg_kept : list PoolEvent; rg_missed : nat; rg_closed : bool }.

Definition ring_send (capacity : nat) (e : PoolEvent) (r : Ring) : Ring :=
  let kept := rg_kept r ++ [e] in
  let over := (length kept - capacity)%nat in
  mkRing (drop over kept) (rg_missed r + over) (rg_closed r).

Definition ring_poll (r : Ring) : option (Ring * Recv) :=
  match rg_missed r, rg_kept r with
  | S n, kept => Some (mkRing kept 0 (rg_closed r), RecvLagged (Z.of_nat (S n)))
  | O, e :: kept => Some (mkRing kept 0 (rg_closed r), RecvEvent e)
  | O, [] => if rg_closed r then Some (r, RecvClosed) else None
  end.

Definition ring (capacity : nat) : Broadcast := {|
  bus := Ring;
  bus_send := ring_send capacity;
  bus_close r := mkRing (rg_kept r) (rg_missed r) true;
  bus_poll := ring_poll
|}.

Lemma ring_send_keeps capacity (b : Ring) e : exists dropped,
  rg_kept b ++ [e] = dropped ++ rg_kept (ring_send capacity e b) /\
  rg_missed (ring_send capacity e b) = (rg_missed b + length dropped)%nat.
Proof.
  unfold ring_send. cbn [rg_kept rg_missed]. set (kept := rg_kept b ++ [e]).
  exists (take (length kept - capacity) kept). rewrite take_drop, length_take. split; [done|lia].
Qed.

Definition ring_laws (capacity : nat) : @BroadcastLaws (ring capacity).
Proof.
  refine {| bus_waiting := rg_kept : @bus (ring capacity) -> _; bus_missed := rg_missed : @bus (ring capacity) -> _;
            bus_closed := rg_closed : @bus (ring capacity) -> _ |}; cbn.
  - apply ring_send_keeps.
  - done.
  - intros [[|e k] [|n] []]; cbn; done.
  - intros [[|e k] [|n] []] b' m; cbn; intros [= <- <-]; cbn; repeat split; lia.
  - intros [[|e k] [|n] []] b' x; cbn; intros [= <- <-]; done.
  - intros [[|e k] [|n] []] b'; cbn; intros [= <-]; done.
  - intros [[|e k] [|n] []]; cbn; eauto; lia.
Defined.

(** The sample events, two milliseconds apart, against handlers of three; the
    signal comes while some are waiting. *)
Definition sample_timeline : Timeline :=
  map (fun x => (2 * Z.of_nat (fst x), Sent (snd x))) (combine (seq 1 (length sample_events)) sample_events).

Definition sample_task (capacity : nat) : @Task (ring capacity) :=
  mkTask (ring capacity) 0 sample_timeline (mkRing [] 0 false) sample_start 0 0.

Abbreviation bus_run capacity drain_budget :=
  (run_with_shutdown (fun _ => NoFault) sample_consumer None (BC := ring capacity) (fun _ => 3) (fun _ => true) 40 5
     drain_budget (Some 7) (sample_task capacity)).

Definition drained_well (r : option (@Task (ring 8) * RunEnd)) : bool :=
  match r with
  | Some (t', Drained Idle) => (tk_skipped t' =? 0) && (tk_now t' <=? 200)
  | _ => false
  end.

Lemma shutdown_accounts_for_events_witness :
  drained_well (bus_run 8 100) = true /\
  exists t' past done,
    bus_run 8 100 = Some (t', Drained Idle) /\ sample_timeline = past ++ tk_future t' /\ done = sent_in past /\
    tk_state t' = replay_all (fun _ => NoFault) sample_consumer None done
                    (startup_session_sweep (fun _ => NoFault) sample_start) /\
    7 + 5 <= tk_now t' <= 7 + 1 * 3 + 100 + 3.
Proof.
  assert (drained_well (bus_run 8 100) = true) as H by (vm_compute; reflexivity). split; [exact H|].
  assert (forall n : nat, 0 <= (fun _ : nat => 3) n <= 3) as C by (intros n; lia).
  assert (timeline_ordered sample_timeline) as O
    by (unfold timeline_ordered; vm_compute; repeat (constructor; [|repeat (constructor; [discriminate|]); constructor]); constructor).
  assert ((2 * length sample_timeline + 2 < 40)%nat) as F by (apply Nat.ltb_lt; vm_compute; reflexivity).
  destruct (shutdown_accounts_for_events (fun _ => NoFault) sample_consumer None (BC := ring 8) (BL := ring_laws 8)
              (fun _ => 3) (fun _ => true) 3 5 100 (Some 7) (sample_task 8) 40 C ltac:(lia) ltac:(lia) O eq_refl eq_refl eq_refl F)
    as (t' & e & past & done & R & T & S & _ & _ & D & K).
  rewrite R in *. destruct e as [[| |]| |]; try discriminate H. exists t', past, done.
  destruct K as (_ & a & [= <-] & K1 & K2). specialize (K2 1%nat (fun n => ex_intro _ 0%nat (conj (Nat.lt_0_succ 0) eq_refl))).
  split; [reflexivity|]. split; [exact T|]. split; [|split; [exact S|exact (conj K1 K2)]]. apply D; [discriminate|].
  apply andb_true_iff in H as [H _]. apply Z.eqb_eq. exact H.
Defined.

(** With a channel of one value the slow consumer is told what it missed. *)
Example slow_consumer_skips :
  option_map (fun x => (tk_skipped (fst x), snd x)) (bus_run 1 100) = Some (2, Drained Idle).
Proof. vm_compute. reflexivity. Qed.
